(* ===== verification/_CoqProject ===== *)
-Q . S2P
Prelude.v
PyStr.v
Dist.v
DecodeYield.v
PrefillBypass.v
LoopAbort.v
SwaThin.v
SwaCone.v
FastLoad.v
FastLoadRead.v
ReplicatedSplit.v
HeapTrim.v
L2Prefetch.v
AbVariant.v
AbReceiver.v
PrefillSp.v
Tp3Pad.v
VerifyCap.v
SpecSyncFree.v
BlockVerify.v
BlockVerifyFold.v
CertFloat.v
CertHead.v
RoceIdlePark.v
MoePlan.v
AutotuneKeep.v
RingMesh.v
FpBits.v
Fp4Record.v
V41cRows.v
V41cPlan.v
V41cPage.v
V41cReader.v
V41cPool.v
EagerGlue.v
RequestGate.v
IndexerRows.v
IndexerChunked.v
Streams.v
EngramPrefetch.v
EngramPack.v
EngramStore.v
EngramPool.v
EngramPoolInv.v
EngramPoolSafe.v
EngramPoolLive.v
EngramPoolRun.v
Launch.v
TwoShotPlan.v
TwoShot.v
TwoShotInv.v
TwoShotKernel.v
TwoShotWire.v
TwoShotSafe.v
TwoShotRun.v
TwoShotLive.v
