(* ===== verification/Prelude.v ===== *)
(** * Verification of the serving adapters for DeepSeek-V4.1-Flash on four DGX Sparks

    The repository serves one model with SGLang on four machines, one tensor-parallel
    rank each.  The engine is not part of it.  What the repository adds are the modules
    of src/adapter/, which src/adapter/sitecustomize.py installs into every serving
    process when their switches (environment variables) are set: each wraps or replaces
    functions of the engine; the reader of a compressed KV cache in
    src/runtime/flashinfer_v41c/; and the two-shot all-reduce over RDMA in
    src/runtime/b12x/b12x/comm/roce_twoshot/.  This development translates the parts that carry logic
    of their own and proves what they promise to the engine and to each other.

    ** How the parts interact

    - The tokenizer process runs the heap trimmer and refuses or rewrites requests before
      the engine sees them.  The scheduler process decides what
      runs next: the prefill bypass lets short requests share a pass with a chunk of a
      long prompt, the decode yield defers the chunk after that, the loop abort ends
      a request whose output cycles, the A/B switch moves all ranks to another
      variant at one iteration.
    - A prefill runs over a prefix cache.  SWA thinning orders the eviction of
      sliding-window checkpoints; the SWA-cone replay restores a lost one by replaying
      a bounded number of rows.  Prefill sequence parallel splits a chunk's rows over the ranks,
      and so does the prefill indexer, which picks the positions a row attends to.
    - Attention reads the compressed KV cache: records of 288 bytes that the reader turns
      into the rows the attention kernel wants, planned once for a group of layers; the pool
      sizing prices the records and checks that none leaves its page.
    - A decode step of speculative decoding drafts, verifies and accepts tokens: the
      broadcasts of the step may be dropped or packed, the verify rows capped,
      replicated layers split by columns, the weights prefetched into the L2 cache, and one
      CUDA graph set replayed per A/B variant.  The drafts of a step are judged by block
      verification, in tensor code or in three folded kernels, on the verify lengths
      that the cap allows, which the eager glue may compute inside the draft graph; the certified head gives the target's argmax on the steps it arms.
    - Every forward, prefill or decode, runs the routed experts through the MoE backend,
      and the Engram layers look their rows up on disk, ahead of time on a side stream: a store
      per layer serves them from a cache, a packed local shard or the checkpoint, with a pool of threads.
      The ranks' partial sums meet in an all-reduce: a device kernel rings a doorbell, a proxy
      thread posts RDMA writes, one-shot or, for wide steps, reduce-scatter and all-gather.
      Between forwards, when the scheduler is idle, the RoCE proxies may park.
    - A start loads the checkpoint: fast load chooses the bytes a rank reads, TP padding
      makes the shapes divisible, the tuning cache of an earlier boot is kept or dropped.
      The launcher verifies the checkpoint first and insists on some of the server's arguments.
      Before that, once per cluster, the ring plan numbers the hosts of a switchless cabling.

    ** Files

    - Prelude: Python results ([res], [exn]), integers, ranges and slices as Python has
      them, the tactics [split_ifs] and [blia], the hint databases [dsv] and [zlen].
    - PyStr: the string methods the adapters parse their switches with.
    - DecodeYield (adapter/decode_yield.py): [arm_after], [defer_step] and the wrappers of
      the two scheduler methods.
    - PrefillBypass (adapter/prefill_bypass.py): the counters of a bypass pass, the
      bounded queue scan, and the passes that admit no long request, [solo_pass].
    - LoopAbort (adapter/loop_abort.py): [detect_repetition_detail] and
      [update_finish_state].
    - SwaThin (adapter/swa_thin.py): [demote_superseded] over the interface [LruOps] with
      the laws [LruLaws], and the wrapped insertion.
    - SwaCone (adapter/swa_cone.py): [min_replay_tokens], [plan_request], [revert],
      [guarded_select], the page copy and the masks of the forward.
    - FastLoad, FastLoadRead (adapter/fast_load.py): [needed_names], [slice_spec],
      [plan_ranges] and [slab_layout]; the reads, the wrapped handle ([get_tensor],
      [wrap_open]) and the pacing of the copies as a transition system.
    - ReplicatedSplit (adapter/replicated_split.py): the column split of a layer, the
      decision to use it, the gather with its fallback.
    - HeapTrim (adapter/heap_trim2.py): [step], [run_trim] and [gap] of the trimmer, and
      the runs of the poll loop and the request path that share it.
    - L2Prefetch (adapter/l2_prefetch.py): windows, [make_plan], and the learning state
      over the forwards.
    - AbVariant, AbReceiver (adapter/ab_variant.py): [configure] and the graph sets; the
      polling and the marker that switches all ranks.
    - PrefillSp (adapter/prefill_sp.py): the row partition and the sequence-parallel
      forward [sp_forward_layers] of all ranks against the engine's forward.
    - Tp3Pad (adapter/tp3_pad.py): [pad_dsv41_hf_config] and the two loaders.
    - VerifyCap (adapter/verify_cap.py): [live_of] and the remap kernel.
    - SpecSyncFree (adapter/spec_sync_free.py): [sync] on all ranks and the noise keys.
    - Dist: finite distributions over the rationals, compared by expectations.
    - BlockVerify (adapter/block_verify.py): [block_accept_probs] on one request, and
      [speculate], a draft and verify step continued by the target.
    - BlockVerifyFold (adapter/block_verify_fold.py, adapter/block_verify.py): the kernels
      [terms_kernel], [residual_kernel] and [keys_kernel] over device memory, the host
      function [fold] and the dispatch [execute].
    - CertFloat, CertHead (adapter/cert_head.py): the screen's float operations with their
      error analysis; [certified_logits], the rule [step_armed], the buffers and the
      ranks of a step.
    - RoceIdlePark (adapter/roce_idle_park.py): the transitions [_idle] and [_wake], the
      scheduler hooks, and the ranks that run collectives as a step relation.
    - MoePlan (adapter/moe_b12x_next.py): the plan table, the [Geometry] of capacities,
      the arena, the remap [kernel] and [forward_loop].
    - AutotuneKeep (adapter/autotune_keep.py): the fingerprints, the sidecars and [boot],
      over any history of boots.
    - RingMesh (scripts/ring_mesh/plan.py): [ring_order] and [topology].
    - FpBits: fp32 operations on bit patterns, rounding to nearest even.
    - Fp4Record (runtime/flashinfer_v41c/v41c.py): a record of four-bit values with e4m3
      scales, and the row of e4m3 values with a power of two per group made from it, in the
      torch reference [v4_rows] and in the kernel [kernel_data].
    - V41cRows, V41cPlan, V41cPage, V41cReader (the same file): gathering and writing rows,
      torch and kernel; the plans of a call by token lists, with the deduplication in two
      kernels and in torch; the plan by sub-pages; and [forward], the reader with its group
      of layers, buffers and switches, over a whole schedule of forwards.
    - V41cPool (adapter/v41c_pool.py): the prices of the records, the built pool's layout and
      its check, the tactics of the native reader.
    - EagerGlue (adapter/eager_glue.py): the fused copies, the staging of sampling parameters,
      and the live lengths of VerifyCap in the draft graph or in one kernel, as a transition
      system of captures, proposals and verifies.
    - RequestGate (adapter/encoding_compat.py, history_repair.py, replay_guard.py): the
      hooks of a chat request and the refusals.
    - IndexerRows, IndexerChunked (adapter/indexer_chunked_v3.py, spark_prefill_dense.py): the
      partition of query rows, candidate blocks as ids and masks, the slots; the layer's call
      [_low_ratio_index_topk_dense] on one rank or split.
    - Streams, EngramPrefetch (adapter/engram_backend.py, engram_prefetch.py): programs of
      operations on two device streams and their interleavings; the stock lookup of Engram
      rows and the prefetch, as the operations the host issues over a run of forwards.
    - EngramPack (scripts/pack_engram.py): [pack_layer], a rank's rows copied to a local shard.
    - EngramStore (adapter/row_store.cpp, adapter/engram_backend.py): [row_store_open],
      [row_store_range] with [pin_scales], [row_store_attach_packed], the reads of a miss
      [disk_row], and the backend's [init].
    - EngramPool (adapter/row_store.cpp): [row_store_lookup] as steps of threads [exec], the cache
      ([probe], [fill]), [serve_at], and the pool's [exec_caller], [exec_drain], [exec_worker].
    - EngramPoolInv, EngramPoolSafe, EngramPoolLive, EngramPoolRun: the protocol of the pool seen
      through classes of threads, the invariant of a run, the measure, and the theorems.
    - Launch (boot.py): [verify] and [prepare] over a history of boots, and
      [required_sglang_args].
    - TwoShotPlan (roce_twoshot/_twoshot_plan.py, the bounds of _twoshot_cute.py and
      _roce_proxy.c): routing, geometry, and that shards, chunks, blocks' shares and rails'
      stripes partition a message.
    - TwoShot (the same package): the kernel [kstep], the proxy thread [pstep], the NIC [nstep]
      and the stream [launch] of all ranks as one step relation [step] over a run of collectives.
    - TwoShotInv, TwoShotKernel, TwoShotWire, TwoShotSafe: the invariant [inv] of a run and that
      every step keeps it.
    - TwoShotRun, TwoShotLive: the executable schedule [act], and the theorems of a run.

    A name of the model is the name of the Python function or class it translates,
    except where the source defines an unnamed part (a nested wrapper, a module-level
    block).  A Python exception is a value [Raise e]; a method that mutates its object
    returns the new object; an [await] or another thread is a step of a run.

    ** What the theorems show

    - Sampling and decoding are those of the stock engine: a step of block verification
      commits tokens of the target's distribution ([block_verify_lossless]), the folded
      kernels give its verdicts bit for bit in any order of programs
      ([fold_bit_identical]), the certified head has the stock argmax, rounding included
      ([certified_argmax_exact]).
    - Exactness of an optimised computation: a replay of [min_replay_tokens] rows
      computes what a full prefill would ([replay_cone_exact], and no shorter page-aligned
      length would do), the sequence-parallel forward is the engine's
      ([sp_forward_exact], [row_partition_exact]), the indexer in chunks or split over ranks
      picks what scoring all rows at once would ([dense_exact]), the split layer is the whole layer
      ([split_forward_exact]), the MoE forward in chunks sums this rank's experts of every row
      ([forward_exact], [ep_remap_exact]), dead verify rows never influence a live one
      ([remap_exact]), the live lengths are the same from torch, the kernel or the replayed
      graph ([vcap_exact]), staged parameters are never stale ([stage_exact]), dropped broadcasts leave the stores as the stock ones do
      ([sync_matches_stock]).
    - The compressed cache reads back: a row made of a record has the record's values, rounded
      once ([v4_row_values], [e4m3_rn_nearest]); the deduplicated and the paged view give
      every live entry of a call its token's row, the kernels' programs in any order
      ([dedup_triton_reads], [native_page_view_reads]), also when the view is an earlier
      layer's ([group_reuse_reads]); no record leaves its page ([checked_records_inside]).
    - Faithful loading: every byte of a sharded expert is read by exactly one rank
      ([expert_slices_owned_once]), eager reads return the file's bytes
      ([eager_reads_exact]) for any sizes the system calls return, ranges and slabs are
      disjoint and complete, the handle answers as the stock one.
    - Bounds that hold for every interleaving: copies in flight ([pacing_bounded]), time
      between trims ([trims_rate_limited]), tokens of a bypass pass ([scan_pass_bounded]),
      the switch of all ranks in one iteration ([switch_in_step]), frozen plans
      ([captured_plans_stable]), the variant a graph replays
      ([replay_runs_captured_variant]); no proxy may park during a forward
      ([no_park_in_forward]) and a collective all ranks entered completes
      ([collective_completes]); prefetched rows are those of the forward's own ids in every
      interleaving of the streams ([prefetch_exact]), and every lookup returns ([lookups_return])
      with the rows of the checkpoint ([lookup_exact]), or ends the process only for a bad id or a
      failed read ([abort_cause]); the row cache fits its budget ([row_cache_bounded]).
    - State that outlives a process: a kept tuning cache was tuned by a launch of the same
      key, whatever boots came between ([kept_same_key]), and stays kept ([keep_roundtrip]);
      a prepared checkpoint has the published contents ([prepared_checkpoint]);
      a child process configures the variants of its parent ([configure_child_agrees]).
    - A rank whose all-reduce ended without an error holds the one-shot result, whatever the
      interleaving ([two_shot_all_reduce]); a healthy run is never stuck ([no_deadlock]) and no
      proxy refuses a doorbell ([doorbell_never_refused]).
    - A row read through a packed shard is the checkpoint's, even if the script's writes were cut
      short ([packed_rows_exact]).
    - Requests reach the engine well typed and capped ([chat_request_typed]).
    - Decisions meet their rule: loop detection, cap of live rows, deferral and its
      termination, demotion order, padded counts, configuration of variants, the ring order of
      exactly the cablings that are a ring ([ring_order_exact]).
    - Limits of the code, proved by example: [yield_can_exceed_max_steps],
      [gap_race_breaks_rate_limit], [interrupted_retune_kept], [unjoined_prefetch_races],
      [stale_shard_served], and the findings on the TP padding.

    ** Parameters, bounds and fuel

    What the engine, PyTorch and the file system do is a parameter of the definitions;
    laws assumed of it are in [LruLaws], [StockLaws], [EngineLaws], [ProxyLaws] (a proxy's
    permission and its thread), [LaunchLaws] (a launch of the expert kernels), [HeadLaws] (the
    tables of the certified head and its two matrix products), [KernelLaws] (the scorer and the
    top-k of one row), [HashLaws] (no collisions of
    the hash) or named hypotheses, and every
    theorem that has a hypothesis is applied at a concrete instance in its witness.
    Rows, weights and confidences are abstract, so floating point never enters a
    statement, except where a law says that an operation is exact, and in three places:
    the record conversion computes on fp32 bit patterns with IEEE rounding, the kernel's unary
    minus being the flip of the sign, for records whose scales are not NaN ([record_ok]);
    the folded kernels keep the order of their operations over an arithmetic of which only sums
    of one lane are known ([LaneLaws]), and the certified head computes on fp32 values with
    an abstract rounding whose relative error is bounded ([FloatLaws]; its error analysis
    takes at most 60 groups per row, the code's default is 40).  That a verification is
    lossless is stated on the rationals, with rows that sum to one ([RowLaws]) and draws of the
    right distribution ([DrawLaws]).  Integers are
    unbounded as in Python.  Recursions are structural, or on fuel that is part of the
    definition and returns [None] when it is not enough.  The walks up the radix tree take
    [tree_fuel], more than the number of nodes: in a well-formed tree they return
    ([demote_superseded_order]).  A read of [n] bytes takes [n] rounds, since every round that does not
    fail reads a byte, and a read by groups one round per outer row ([eager_reads_exact]).
    A run of the reader's forwards assumes that only layers that are sources write the
    pool and that the layers of a group take the same path ([forward_ok]); memory that
    [torch.empty] allocates is arbitrary in every model.  The ranks of an indexer split hold the same rows.
    The MoE forward takes one round per row, the ring walk one per host: the theorems say
    that both end.  A run of all-reduces is of any number of ranks, blocks, threads and rails; its
    grid divides 2^32 (the counters wrap), it has fewer than 2^32 - 1 collectives (the kernel and
    the proxy refuse the wrapped sequence), and memory is sequentially consistent, since a fence
    orders the words of a thread; so it is for the pool of the row store.  The loop that pins the
    scales has fuel for a byte per round, and more changes nothing ([pin_loop_fuel]).  The sum of packs is
    abstract (load, add, store).

    ** Not modelled

    The text patches and hash checks of engine sources (beyond the installation
    decisions of DecodeYield and PrefillBypass), log lines, the thread pool of the checkpoint's loading and
    allocation; the row store's statistics, its keepalive thread and its closing;
    CUDA kernels, the data phase of the one-shot all-reduce (in a run it rings and ends), the
    all-gather and the set-up of queue pairs, the C++ readers of the compressed cache and the variant of its record
    kernel that rounds in hardware.  The Triton kernels modelled are the remap, the folded
    verification, the certified head's epilogue, the live-length kernel, and those of the
    compressed cache.  Of the other adapters, the dropped metadata glue installs nothing, the
    older variants of the indexer are contained in the one modelled, and the remaining ones
    are floating-point tensor code or glue; the rest of src/runtime/, src/patches/, src/tests/
    and the other scripts are vendored code, diffs, tests and network or process I/O. *)
From Stdlib Require Export ZArith Lia.
From stdpp Require Export base numbers list gmap strings sorting.
#[global] Open Scope Z_scope.

(** ** Python results

    A Python call either returns or raises; the classes below are the ones the
    modelled code raises or catches. *)
Inductive exn :=
  | ValueError
  | TypeError
  | KeyError
  | IndexError
  | AttributeError
  | ZeroDivisionError
  | AssertionError
  | IOError
  | RuntimeError
  | OverflowError
  | StructError
  | SystemExit.

#[export] Instance exn_eq_dec : EqDecision exn.
Proof. solve_decision. Defined.

Inductive res (A : Type) :=
  | Ok (a : A)
  | Raise (e : exn).
Arguments Ok {A} _.
Arguments Raise {A} _.

#[export] Instance res_ret : MRet res := fun A a => Ok a.
#[export] Instance res_bind : MBind res :=
  fun A B f r => match r with Ok a => f a | Raise e => Raise e end.
#[export] Instance res_fmap : FMap res :=
  fun A B f r => match r with Ok a => Ok (f a) | Raise e => Raise e end.

Definition is_ok {A} (r : res A) : bool :=
  match r with Ok _ => true | Raise _ => false end.

(** [mapR f l]: a comprehension whose body may raise; the first exception wins. *)
Fixpoint mapR {A B} (f : A -> res B) (l : list A) : res (list B) :=
  match l with
  | [] => Ok []
  | x :: l' => match f x with
               | Raise e => Raise e
               | Ok y => match mapR f l' with
                         | Raise e => Raise e
                         | Ok ys => Ok (y :: ys)
                         end
               end
  end.

(** ** Integers *)

(** Python's [len]. *)
Definition zlen {A} (l : list A) : Z := Z.of_nat (length l).

(** The code's ceiling division idiom [-(-a // b)]. *)
Definition cdiv (a b : Z) : Z := - ((- a) / b).

(** The code's round-up idiom [(n + a - 1) // a * a]. *)
Definition align_up (n a : Z) : Z := (n + a - 1) / a * a.

(** [sum(l)]. *)
Fixpoint zsum (l : list Z) : Z :=
  match l with [] => 0 | x :: l' => x + zsum l' end.

(** [range(a, b)] as a list. *)
Definition zrange (a b : Z) : list Z := seqZ a (b - a).

(** Python's slice bound: negative indices count from the end, both ends clamp. *)
Definition py_bound (n i : Z) : Z :=
  if i <? 0 then Z.max 0 (i + n) else Z.min i n.

(** [l[lo:hi]]. *)
Definition py_slice {A} (l : list A) (lo hi : Z) : list A :=
  let a := py_bound (zlen l) lo in
  let b := py_bound (zlen l) hi in
  take (Z.to_nat (b - a)) (drop (Z.to_nat a) l).

(** [l[-k:]]: for [k = 0] this is [l[0:]], the whole list. *)
Definition py_last {A} (l : list A) (k : Z) : list A := py_slice l (- k) (zlen l).

(** [file[off : off + n]]: a file is the list of its bytes. *)
Definition bytes_at (file : list Z) (off n : Z) : list Z :=
  take (Z.to_nat n) (drop (Z.to_nat off) file).

(** ** Tactics *)

(** Split every conditional and match of the goal and the context, keeping the equations. *)
Ltac split_ifs := repeat (case_match; simplify_eq/=).

(** Boolean arithmetic hypotheses to propositions, then [lia]. *)
Ltac blia :=
  repeat match goal with
         | H : _ && _ = true |- _ => apply andb_true_iff in H as [? ?]
         | H : _ || _ = false |- _ => apply orb_false_iff in H as [? ?]
         | H : negb _ = true |- _ => apply negb_true_iff in H
         | H : negb _ = false |- _ => apply negb_false_iff in H
         end; lia.

Create HintDb dsv discriminated.

(** ** Lemmas shared by the components *)

Lemma zlen_nonneg {A} (l : list A) : 0 <= zlen l.
Proof. unfold zlen; lia. Qed.

Lemma zlen_nil {A} : zlen (@nil A) = 0.
Proof. reflexivity. Qed.

Lemma zlen_cons {A} (x : A) l : zlen (x :: l) = 1 + zlen l.
Proof. unfold zlen; simpl; lia. Qed.

Lemma zlen_app {A} (l k : list A) : zlen (l ++ k) = zlen l + zlen k.
Proof. unfold zlen; rewrite length_app; lia. Qed.

Lemma zlen_replicate {A} n (x : A) : zlen (replicate n x) = Z.of_nat n.
Proof. unfold zlen. by rewrite length_replicate. Qed.

Lemma zlen_map {A B} (f : A -> B) l : zlen (map f l) = zlen l.
Proof. unfold zlen. by rewrite length_map. Qed.

Create Rewrite HintDb zlen.
#[export] Hint Rewrite @zlen_cons @zlen_app @zlen_nil @zlen_replicate @zlen_map : zlen.

Lemma cdiv_spec a b : 0 < b -> b * (cdiv a b - 1) < a <= b * cdiv a b.
Proof.
  intros Hb. unfold cdiv.
  pose proof (Z.div_mod (- a) b ltac:(lia)).
  pose proof (Z.mod_pos_bound (- a) b ltac:(lia)). lia.
Qed.

Lemma cdiv_unique a b q : 0 < b -> b * (q - 1) < a <= b * q -> cdiv a b = q.
Proof. intros Hb Hq. pose proof (cdiv_spec a b Hb). nia. Qed.

Lemma cdiv_mono a a' b : 0 < b -> a <= a' -> cdiv a b <= cdiv a' b.
Proof.
  intros Hb Ha. pose proof (cdiv_spec a b Hb). pose proof (cdiv_spec a' b Hb). nia.
Qed.

Lemma cdiv_mul b q : 0 < b -> cdiv (b * q) b = q.
Proof. intros Hb. apply cdiv_unique; [done|]. lia. Qed.

Lemma align_up_spec n a :
  0 < a -> n <= align_up n a < n + a /\ (align_up n a) mod a = 0.
Proof.
  intros Ha. unfold align_up. split; [|apply Z_mod_mult].
  pose proof (Z.div_mod (n + a - 1) a ltac:(lia)).
  pose proof (Z.mod_pos_bound (n + a - 1) a ltac:(lia)). lia.
Qed.

Lemma zsum_app l k : zsum (l ++ k) = zsum l + zsum k.
Proof. induction l; simpl; lia. Qed.

Lemma zsum_nonneg l : Forall (fun x => 0 <= x) l -> 0 <= zsum l.
Proof. induction 1; simpl; lia. Qed.

Lemma mapR_Ok_length {A B} (f : A -> res B) l k :
  mapR f l = Ok k -> length k = length l.
Proof.
  revert k. induction l as [|x l IH]; intros k; simpl.
  - intros [= <-]. done.
  - destruct (f x); [|done]. destruct (mapR f l) eqn:E; [|done].
    intros [= <-]. simpl. f_equal. auto.
Qed.

#[export] Hint Resolve zlen_nonneg zsum_nonneg : dsv.

(** Ranges. *)

Lemma zrange_nil a b : b <= a -> zrange a b = [].
Proof. intros H. unfold zrange. by apply seqZ_nil; lia. Qed.

Lemma zrange_cons a b : a < b -> zrange a b = a :: zrange (a + 1) b.
Proof.
  intros H. unfold zrange. rewrite seqZ_cons by lia. do 2 f_equal; lia.
Qed.

Lemma zrange_elem a b r : r ∈ zrange a b <-> a <= r < b.
Proof. unfold zrange. rewrite elem_of_seqZ. lia. Qed.

Lemma zrange_length a b : a <= b -> zlen (zrange a b) = b - a.
Proof. intros H. unfold zrange, zlen. rewrite length_seqZ. lia. Qed.

Lemma zrange_app a b c : a <= b <= c -> zrange a c = zrange a b ++ zrange b c.
Proof.
  intros H. unfold zrange. replace (c - a) with ((b - a) + (c - b)) by lia.
  rewrite seqZ_app by lia. f_equal. f_equal; lia.
Qed.

(** Induction on a range from its left end. *)
Lemma zrange_ind (P : Z -> Z -> Prop) :
  (forall a b, b <= a -> P a b) ->
  (forall a b, a < b -> P (a + 1) b -> P a b) ->
  forall a b, P a b.
Proof.
  intros Hnil Hcons a b. remember (Z.to_nat (b - a)) as n eqn:Hn. revert a Hn.
  induction n as [|n IH]; intros a Hn; [apply Hnil; lia|].
  apply Hcons; [lia|]. apply IH. lia.
Qed.

(** [next(x for x in range(a, b) if f(x))]: the least element that satisfies [f]. *)
Lemma find_zrange_Some (f : Z -> bool) a b x :
  find f (zrange a b) = Some x <->
  a <= x < b /\ f x = true /\ (forall y, a <= y < x -> f y = false).
Proof.
  revert a b. apply (zrange_ind (fun a b => find f (zrange a b) = Some x <-> _)).
  - intros a b H. rewrite zrange_nil by done. simpl. split; [done | lia].
  - intros a b H IH. rewrite zrange_cons by done. simpl. destruct (f a) eqn:Ha.
    + split.
      * intros [= <-]. repeat split; try done; lia.
      * intros (Hx & Hfx & Hmin). destruct (Z.eq_dec a x) as [->|Hne]; [done|].
        rewrite Hmin in Ha by lia. done.
    + rewrite IH. split; intros (Hx & Hfx & Hmin); repeat split; try lia; try done.
      * intros y Hy. destruct (Z.eq_dec y a) as [->|]; [done|]. apply Hmin. lia.
      * destruct (Z.eq_dec x a) as [->|]; [congruence | lia].
      * intros y Hy. apply Hmin. lia.
Qed.

Lemma find_zrange_None (f : Z -> bool) a b :
  find f (zrange a b) = None <-> (forall y, a <= y < b -> f y = false).
Proof.
  revert a b. apply (zrange_ind (fun a b => find f (zrange a b) = None <-> _)).
  - intros a b H. rewrite zrange_nil by done. simpl. split; [intros _ y Hy; lia | done].
  - intros a b H IH. rewrite zrange_cons by done. simpl. destruct (f a) eqn:Ha.
    + split; [done|]. intros Hall. rewrite Hall in Ha by lia. done.
    + rewrite IH. split; intros Hall y Hy; [|apply Hall; lia].
      destruct (Z.eq_dec y a) as [->|]; [done|]. apply Hall. lia.
Qed.

Lemma forallb_zrange (f : Z -> bool) a b :
  forallb f (zrange a b) = true <-> forall r, a <= r < b -> f r = true.
Proof.
  rewrite forallb_forall. split.
  - intros H r Hr. apply H, list_elem_of_In, zrange_elem, Hr.
  - intros H r Hr. apply H. by apply list_elem_of_In, zrange_elem in Hr.
Qed.

(** Slices whose bounds lie inside the list. *)
Lemma py_slice_in {A} (l : list A) lo hi :
  0 <= lo -> lo <= hi <= zlen l ->
  py_slice l lo hi = take (Z.to_nat (hi - lo)) (drop (Z.to_nat lo) l).
Proof.
  intros Hlo Hhi. unfold py_slice, py_bound.
  replace (lo <? 0) with false by lia. replace (hi <? 0) with false by lia.
  by rewrite !Z.min_l by lia.
Qed.

Lemma py_last_in {A} (l : list A) k :
  0 < k <= zlen l -> py_last l k = drop (length l - Z.to_nat k) l.
Proof.
  intros Hk. unfold py_last, py_slice, py_bound.
  replace (- k <? 0) with true by lia.
  replace (zlen l <? 0) with false by (pose proof (zlen_nonneg l); lia).
  rewrite Z.max_r, Z.min_l by lia. unfold zlen in *.
  replace (Z.to_nat (- k + Z.of_nat (length l))) with (length l - Z.to_nat k)%nat by lia.
  apply take_ge. rewrite length_drop. lia.
Qed.

(** Filtering. *)

Lemma filter_all {A} (P : A -> Prop) `{!forall x, Decision (P x)} l : Forall P l -> filter P l = l.
Proof. induction 1 as [|x l Hx _ IH]; [done|]. by rewrite filter_cons_True, IH. Qed.

Lemma filter_none {A} (P : A -> Prop) `{!forall x, Decision (P x)} l :
  Forall (fun x => ~ P x) l -> filter P l = [].
Proof. induction 1 as [|x l Hx _ IH]; [done|]. by rewrite filter_cons_False, IH. Qed.

(** Moving the elements of a duplicate-free sublist to the end permutes a list. *)
Lemma move_to_end_perm (l M : list Z) :
  NoDup l -> NoDup M -> M ⊆ l -> filter (fun y => y ∉ M) l ++ M ≡ₚ l.
Proof.
  intros Hl HM Hsub. apply NoDup_Permutation; [|done|].
  - apply NoDup_app. split; [by apply NoDup_filter|]. split; [|done].
    by intros x [Hx _]%list_elem_of_filter.
  - intros x. rewrite elem_of_app, list_elem_of_filter.
    destruct (decide (x ∈ M)) as [Hx|Hx]; [|tauto]. split; [intros _; by apply Hsub | tauto].
Qed.

Lemma mapR_total {A B} (f : A -> res B) l :
  (forall x, x ∈ l -> exists y, f x = Ok y) -> exists ys, mapR f l = Ok ys.
Proof.
  induction l as [|x l IH]; intros H; simpl; [eauto|].
  destruct (H x) as [y ->]; [left|]. destruct IH as [ys ->]; [|eauto].
  intros z Hz. apply H. by right.
Qed.

Lemma mapR_Ok_lookup {A B} (f : A -> res B) l ys k x :
  mapR f l = Ok ys -> l !! k = Some x -> exists y, ys !! k = Some y /\ f x = Ok y.
Proof.
  revert ys k. induction l as [|z l IH]; intros ys k; simpl; [by destruct k|].
  destruct (f z) eqn:E; [|done]. destruct (mapR f l) eqn:E2; [|done]. intros [= <-] Hk.
  destruct k as [|k]; simpl in Hk; simplify_eq; simpl; eauto.
Qed.

Lemma mapR_Ok_elem {A B} (f : A -> res B) l ys y :
  mapR f l = Ok ys -> y ∈ ys <-> exists x, x ∈ l /\ f x = Ok y.
Proof.
  revert ys. induction l as [|z l IH]; intros ys; simpl.
  - intros [= <-]. split; [by intros ?%not_elem_of_nil|by intros (? & ?%not_elem_of_nil & _)].
  - destruct (f z) eqn:E; [|done]. destruct (mapR f l) as [k|] eqn:E2; [|done]. intros [= <-].
    rewrite elem_of_cons, (IH k eq_refl). setoid_rewrite elem_of_cons. split.
    + intros [->|(x & Hx & Hf)]; eauto.
    + intros (x & [->|Hx] & Hf); [left; congruence|eauto].
Qed.

(** ** A memory: values at addresses, and stores to it *)

(** Apply stores in order. *)
Fixpoint run_stores {A} (m : Z -> A) (stores : list (Z * A)) : Z -> A :=
  match stores with
  | [] => m
  | (a, v) :: rest => run_stores (fun x => if x =? a then v else m x) rest
  end.

(** An address that is never written keeps its value. *)
Lemma run_stores_miss {A} (m : Z -> A) stores a :
  (forall v, (a, v) ∉ stores) -> run_stores m stores a = m a.
Proof.
  revert m. induction stores as [|[a' v'] stores IH]; intros m Hn; [done|]. simpl. rewrite IH.
  - destruct (Z.eqb_spec a a') as [->|]; [|done]. destruct (Hn v'). by left.
  - intros v Hv. apply (Hn v). by right.
Qed.

(** An address that is written, always with the same value, holds it in any order of the stores. *)
Lemma run_stores_at {A} (m : Z -> A) stores a v :
  (a, v) ∈ stores -> (forall v', (a, v') ∈ stores -> v' = v) -> run_stores m stores a = v.
Proof.
  revert m. induction stores as [|[a' v'] stores IH]; intros m Hin Hall; [by apply elem_of_nil in Hin|].
  simpl. destruct (decide (Exists (fun s => s.1 = a) stores)) as [He|Hn].
  - apply Exists_exists in He as ([a1 v1] & H1 & H2). simpl in H2. subst a1.
    assert (v1 = v) as -> by (apply Hall; by right). apply IH; [done|]. intros v2 H2. apply Hall. by right.
  - rewrite run_stores_miss.
    + apply elem_of_cons in Hin as [[= -> ->]|Hin]; [by rewrite Z.eqb_refl|].
      exfalso. apply Hn, Exists_exists. by exists (a, v).
    + intros v1 H1. apply Hn, Exists_exists. by exists (a, v1).
Qed.

(** Stores see only the value at their own address, and the stores of programs that do not
    touch an address may be left out. *)
Lemma run_stores_ext {A} (m m' : Z -> A) stores a : m a = m' a -> run_stores m stores a = run_stores m' stores a.
Proof.
  revert m m'. induction stores as [|[a' v] stores IH]; intros m m' E; [done|]. simpl. apply IH. by destruct (a =? a').
Qed.

Lemma run_stores_app {A} (m : Z -> A) l l' a : run_stores m (l ++ l') a = run_stores (run_stores m l) l' a.
Proof. revert m. induction l as [|[a' v] l IH]; intros m; [done|]. simpl. apply IH. Qed.

Lemma run_stores_bind {A B} (m : Z -> A) (f : B -> list (Z * A)) bs b a :
  NoDup bs -> b ∈ bs -> (forall b' v, b' ∈ bs -> (a, v) ∈ f b' -> b' = b) ->
  run_stores m (bs ≫= f) a = run_stores m (f b) a.
Proof.
  intros Hnd Hin. revert m. induction bs as [|b0 bs IH]; intros m Hf; [by apply elem_of_nil in Hin|].
  cbn [mbind list_bind]. rewrite run_stores_app. apply NoDup_cons in Hnd as [Hb0 Hnd]. apply elem_of_cons in Hin as [->|Hin].
  - apply run_stores_miss. intros v (b' & Hv & Hb')%list_elem_of_bind. apply Hf in Hv; [subst b'; done|by right].
  - rewrite IH; [|done|done|intros b' v Hb' Hv; by eapply Hf; [right|]]. apply run_stores_ext, run_stores_miss.
    intros v Hv. apply Hf in Hv; [subst b; done|by left].
Qed.

(** Programs in another order make the same stores. *)
Lemma bind_perm {A B} (f : A -> list B) (l l' : list A) : l ≡ₚ l' -> l ≫= f ≡ₚ l' ≫= f.
Proof.
  induction 1 as [|a l l' _ IH|a b l|l l' l'' _ IH1 _ IH2]; cbn [mbind list_bind]; [done|by rewrite IH| |by etransitivity].
  by rewrite !app_assoc, (Permutation_app_comm (f a)).
Qed.

Lemma bind_assoc {A B C} (f : A -> list B) (g : B -> list C) (l : list A) : (l ≫= f) ≫= g = l ≫= (fun a => f a ≫= g).
Proof. induction l as [|a l IH]; [done|]. cbn [mbind list_bind]. by rewrite bind_app, IH. Qed.

(** ** Bit fields side by side *)
Lemma lor_fields a n b : 0 <= n -> 0 <= b < 2 ^ n -> Z.lor (a * 2 ^ n) b = a * 2 ^ n + b.
Proof.
  intros Hn Hb. rewrite <- Z.lxor_lor, <- Z.add_nocarry_lxor; [done| |];
    apply Z.bits_inj'; intros i Hi; rewrite Z.land_spec, Z.bits_0; (destruct (Z.lt_ge_cases i n);
    [by rewrite Z.mul_pow2_bits_low|rewrite <- (Z.mod_small b (2 ^ n)) by done; by rewrite Z.mod_pow2_bits_high, andb_false_r by lia]).
Qed.

(** ** The first index of a largest element ([torch.argmax], [lt] the comparison) *)
Fixpoint argmax_from {A} (lt : A -> A -> bool) (i best : nat) (top : A) (l : list A) : nat :=
  match l with
  | [] => best
  | x :: l' => if lt top x then argmax_from lt (S i) i x l' else argmax_from lt (S i) best top l'
  end.
Definition argmax_by {A} (lt : A -> A -> bool) (l : list A) : nat :=
  match l with [] => 0%nat | x :: l' => argmax_from lt 1 0 x l' end.

(** ** Counting the elements that satisfy a test *)

Definition zcount {A} (f : A -> bool) (l : list A) : Z := zsum (map (fun b => Z.b2z (f b)) l).

Lemma zcount_bounds {A} (f : A -> bool) l : 0 <= zcount f l <= zlen l.
Proof. induction l as [|b l IH]; unfold zcount in *; cbn; [easy|]. rewrite zlen_cons. destruct (f b); cbn [Z.b2z]; lia. Qed.

Lemma zcount_all {A} (f : A -> bool) l : zcount f l = zlen l -> forall b, b ∈ l -> f b = true.
Proof.
  induction l as [|a l IH]; [intros _ b Hb; by apply not_elem_of_nil in Hb|].
  pose proof (zcount_bounds f l). unfold zcount in *. cbn. rewrite zlen_cons. intros Hc b Hb.
  destruct (f a) eqn:Ha; cbn [Z.b2z] in Hc; [|lia].
  apply elem_of_cons in Hb as [->|Hb]; [done | apply IH; [lia | done]].
Qed.

Lemma zcount_ext {A} (f g : A -> bool) l : (forall b, b ∈ l -> f b = g b) -> zcount f l = zcount g l.
Proof.
  intros Hfg. unfold zcount. f_equal. apply map_ext_in. intros b Hb%list_elem_of_In. by rewrite Hfg.
Qed.

Lemma zcount_const {A} (v : bool) (l : list A) : zcount (fun _ => v) l = Z.b2z v * zlen l.
Proof. unfold zcount. induction l as [|a l IH]; [by destruct v|]. cbn. rewrite zlen_cons, IH. lia. Qed.

Lemma zcount_change {A} `{EqDecision A} (f g : A -> bool) l b : NoDup l -> b ∈ l -> (forall b', b' <> b -> g b' = f b') ->
  zcount g l = zcount f l - Z.b2z (f b) + Z.b2z (g b).
Proof.
  intros Hnd. unfold zcount. induction Hnd as [|a l Ha Hnd IH]; [by intros Hb%not_elem_of_nil|].
  intros Hb Hg. cbn. destruct (decide (a = b)) as [->|Hne].
  - assert (map (fun b' => Z.b2z (g b')) l = map (fun b' => Z.b2z (f b')) l) as ->; [|lia].
    apply map_ext_in. intros b' Hb'%list_elem_of_In. rewrite Hg; [done | congruence].
  - apply elem_of_cons in Hb as [->|Hb]; [done|]. rewrite Hg, IH by done. lia.
Qed.

Lemma zcount_insert {A} (f : A -> bool) l t a a' : l !! t = Some a -> zcount f (<[t := a']> l) = zcount f l - Z.b2z (f a) + Z.b2z (f a').
Proof.
  unfold zcount. revert t. induction l as [|b l IH]; intros t Ht; [done|]. destruct t as [|t]; [injection Ht as ->; cbn; lia|].
  change (<[S t := a']> (b :: l)) with (b :: <[t := a']> l). cbn [map zsum]. rewrite (IH t Ht). lia.
Qed.

Lemma zcount_zero {A} (f : A -> bool) l : zcount f l = 0 -> forall a, a ∈ l -> f a = false.
Proof.
  induction l as [|b l IH]; [intros _ a Ha; by apply not_elem_of_nil in Ha|]. pose proof (zcount_bounds f l). unfold zcount in *. cbn. intros Hc a Ha.
  destruct (f b) eqn:Hb; cbn [Z.b2z] in Hc; [lia|]. apply elem_of_cons in Ha as [->|Ha]; [done | apply IH; [lia | done]].
Qed.

Lemma zcount_map {A B} (f : B -> bool) (g : A -> B) l : zcount f (map g l) = zcount (fun a => f (g a)) l.
Proof. unfold zcount. by rewrite map_map. Qed.

(** ** Bytes of a file *)

Lemma bytes_at_app file off n m :
  0 <= off -> 0 <= n -> 0 <= m -> bytes_at file off (n + m) = bytes_at file off n ++ bytes_at file (off + n) m.
Proof.
  intros. unfold bytes_at. rewrite !Z2Nat.inj_add by lia. rewrite <- (take_take_drop _ (Z.to_nat n) (Z.to_nat m)). by rewrite drop_drop.
Qed.

Lemma bytes_at_length file off n : 0 <= off -> 0 <= n -> off + n <= zlen file -> zlen (bytes_at file off n) = n.
Proof. intros. unfold bytes_at, zlen in *. rewrite length_take, length_drop. lia. Qed.

Lemma bytes_at_sub file off n lo len :
  0 <= off -> 0 <= lo -> 0 <= len -> lo + len <= n ->
  bytes_at (bytes_at file off n) lo len = bytes_at file (off + lo) len.
Proof.
  intros. unfold bytes_at. rewrite skipn_firstn_comm.
  rewrite take_take, drop_drop. f_equal; [lia|]. f_equal. lia.
Qed.

Lemma bytes_at_drop file off n m :
  0 <= off -> 0 <= m <= n -> drop (Z.to_nat m) (bytes_at file off n) = bytes_at file (off + m) (n - m).
Proof.
  intros. unfold bytes_at. rewrite skipn_firstn_comm, drop_drop. f_equal; [lia|]. f_equal. lia.
Qed.

Lemma bytes_at_lookup file off n k :
  0 <= off -> 0 <= k < n -> bytes_at file off n !! Z.to_nat k = file !! Z.to_nat (off + k).
Proof. intros. unfold bytes_at. rewrite lookup_take_lt by lia. rewrite lookup_drop. f_equal. lia. Qed.

Section Argmax.
Context {A : Type} (lt : A -> A -> bool).
Context (lt_irrefl : forall x, lt x x = false)
        (lt_trans : forall x y z, lt x y = true -> lt y z = true -> lt x z = true)
        (lt_total : forall x y z, lt x z = true -> lt x y = true \/ lt y z = true).

Lemma argmax_from_spec i best top l pre :
  length pre = i -> pre !! best = Some top ->
  (forall j x, pre !! j = Some x -> lt top x = false) ->
  (forall j x, pre !! j = Some x -> (j < best)%nat -> lt x top = true) ->
  exists x, (pre ++ l) !! argmax_from lt i best top l = Some x /\
    (forall j y, (pre ++ l) !! j = Some y -> lt x y = false) /\
    (forall j y, (pre ++ l) !! j = Some y -> (j < argmax_from lt i best top l)%nat -> lt y x = true).
Proof.
  revert i best top pre. induction l as [|z l IH]; intros i best top pre Hi Hb Htop Hlt; cbn [argmax_from].
  { rewrite app_nil_r. by exists top. }
  replace (pre ++ z :: l) with ((pre ++ [z]) ++ l) by (by rewrite <- app_assoc).
  assert (Hpre : forall j x, (pre ++ [z]) !! j = Some x -> pre !! j = Some x \/ (j = i /\ x = z)).
  { intros j x Hj. apply lookup_app_Some in Hj as [Hj|[Hj Hx]]; [by left|].
    apply list_lookup_singleton_Some in Hx as [? ->]. right. split; [lia|done]. }
  destruct (lt top z) eqn:E; apply IH; try (rewrite length_app; simpl; lia).
  - rewrite lookup_app_r, Hi, Nat.sub_diag by lia. done.
  - intros j x [Hj|[-> ->]]%Hpre; [|done]. destruct (lt z x) eqn:E2; [|done].
    pose proof (Htop j x Hj). by rewrite (lt_trans top z x E E2) in *.
  - intros j x [Hj|[-> ->]]%Hpre Hji; [|lia]. destruct (lt_total top x z E) as [H|H]; [|done].
    by rewrite (Htop j x Hj) in H.
  - by apply lookup_app_l_Some.
  - intros j x [Hj|[-> ->]]%Hpre; [by eapply Htop | done].
  - intros j x [Hj|[-> ->]]%Hpre Hji; [by eapply Hlt|]. apply lookup_lt_Some in Hb. lia.
Qed.

(** The element found is a largest one, and the first such. *)
Lemma argmax_by_spec l :
  l <> [] ->
  exists x, l !! argmax_by lt l = Some x /\
    (forall j y, l !! j = Some y -> lt x y = false) /\
    (forall j y, l !! j = Some y -> (j < argmax_by lt l)%nat -> lt y x = true).
Proof.
  destruct l as [|x l]; [done|]. intros _. apply (argmax_from_spec 1 0 x l [x]); try done.
  - intros j y Hj. apply list_lookup_singleton_Some in Hj as [_ ->]. apply lt_irrefl.
  - intros j y _ Hj. lia.
Qed.

(** Lowering elements that are not largest, and leaving the others, keeps the index. *)
Lemma argmax_by_lower l l' :
  length l = length l' ->
  (forall j y y', l !! j = Some y -> l' !! j = Some y' ->
     y' = y \/ ((exists k z, l !! k = Some z /\ l' !! k = Some z /\ lt y z = true /\ lt y' z = true))) ->
  argmax_by lt l' = argmax_by lt l.
Proof.
  intros Hlen Hlow. destruct (decide (l = [])) as [->|Hne]; [by destruct l'|].
  destruct (argmax_by_spec l Hne) as (x & Hx & Hmax & Hfirst).
  destruct (argmax_by_spec l') as (x' & Hx' & Hmax' & Hfirst'); [by intros ->; destruct l|].
  (* the first largest element of l is kept *)
  destruct (lookup_lt_is_Some_2 l' (argmax_by lt l)) as [y Hy].
  { apply lookup_lt_Some in Hx. lia. }
  assert (y = x) as ->.
  { destruct (Hlow _ _ _ Hx Hy) as [|(k & z & Hk & _ & Hlt & _)]; [done|]. by rewrite (Hmax k z Hk) in Hlt. }
  destruct (lookup_lt_is_Some_2 l (argmax_by lt l')) as [w Hw].
  { apply lookup_lt_Some in Hx'. lia. }
  assert (x' = w) as ->.
  { destruct (Hlow _ _ _ Hw Hx') as [|(k & z & Hk & Hk' & Hlt & Hlt')]; [done|].
    by rewrite (Hmax' k z Hk') in Hlt'. }
  destruct (Nat.lt_trichotomy (argmax_by lt l') (argmax_by lt l)) as [H|[H|H]]; [|done|].
  - pose proof (Hfirst _ _ Hw H) as Hc. by rewrite (Hmax' _ _ Hy) in Hc.
  - pose proof (Hfirst' _ _ Hy H) as Hc. by rewrite (Hmax _ _ Hw) in Hc.
Qed.
End Argmax.
