(* ===== verification/PyStr.v ===== *)
(** * Python strings

    The string operations the modelled modules use, on ASCII strings:
    [strip], [lower], [startswith], [endswith], [in], [split] and [rsplit] with a
    bound, [isdigit] and the [int] constructor (surrounding blanks, a sign and
    single underscores between digits are accepted, anything else raises
    [ValueError]; the interpreter's limit on the number of digits is not
    modelled). *)
From Stdlib Require Import Ascii.
From S2P Require Import Prelude.
#[local] Open Scope string_scope.

Definition is_space (c : ascii) : bool :=
  let n := nat_of_ascii c in
  (Nat.leb 9 n && Nat.leb n 13) || (Nat.leb 28 n && Nat.leb n 32).

Definition lower_ascii (c : ascii) : ascii :=
  let n := nat_of_ascii c in
  if Nat.leb 65 n && Nat.leb n 90 then ascii_of_nat (n + 32) else c.

Definition digit_of (c : ascii) : option Z :=
  let n := nat_of_ascii c in
  if Nat.leb 48 n && Nat.leb n 57 then Some (Z.of_nat n - 48) else None.

Fixpoint lower (s : string) : string :=
  match s with
  | "" => ""
  | String c s' => String (lower_ascii c) (lower s')
  end.

Fixpoint lstrip (s : string) : string :=
  match s with
  | "" => ""
  | String c s' => if is_space c then lstrip s' else s
  end.

Fixpoint rstrip (s : string) : string :=
  match s with
  | "" => ""
  | String c s' =>
      match rstrip s' with
      | "" => if is_space c then "" else String c ""
      | t => String c t
      end
  end.

Definition strip (s : string) : string := rstrip (lstrip s).

(** [s.startswith(p)], returning the rest: [s[len(p):]]. *)
Fixpoint after_prefix (p s : string) : option string :=
  match p, s with
  | "", _ => Some s
  | String a p', String b s' => if Ascii.eqb a b then after_prefix p' s' else None
  | _, "" => None
  end.

Definition startswith (p s : string) : bool :=
  match after_prefix p s with Some _ => true | None => false end.

(** [s.split(sep, 1)] when [sep] occurs: the text before and after its first occurrence. *)
Fixpoint split1 (sep s : string) : option (string * string) :=
  match after_prefix sep s with
  | Some rest => Some ("", rest)
  | None =>
      match s with
      | "" => None
      | String c s' =>
          match split1 sep s' with
          | Some (a, b) => Some (String c a, b)
          | None => None
          end
      end
  end.

(** [sep in s]. *)
Definition contains (sep s : string) : bool :=
  match split1 sep s with Some _ => true | None => false end.

(** [s.split(sep, 1)[0]]. *)
Definition head_of (sep s : string) : string :=
  match split1 sep s with Some (a, _) => a | None => s end.

(** [s.rsplit(c, 1)] when the character occurs: the text before and after its last occurrence. *)
Fixpoint rsplit1 (c : ascii) (s : string) : option (string * string) :=
  match s with
  | "" => None
  | String d s' =>
      match rsplit1 c s' with
      | Some (a, b) => Some (String d a, b)
      | None => if Ascii.eqb c d then Some ("", s') else None
      end
  end.

(** [s.rsplit(c, 2)] as a list of at most three parts. *)
Definition rsplit2 (c : ascii) (s : string) : list string :=
  match rsplit1 c s with
  | None => [s]
  | Some (a, z) =>
      match rsplit1 c a with
      | None => [a; z]
      | Some (x, y) => [x; y; z]
      end
  end.

(** [s.split(c)]: every part. *)
Fixpoint split_all (c : ascii) (s : string) : list string :=
  match s with
  | "" => [""]
  | String d s' =>
      if Ascii.eqb c d then "" :: split_all c s'
      else match split_all c s' with
           | p :: ps => String d p :: ps
           | [] => [String d ""]
           end
  end.

(** [s.endswith(p)]. *)
Fixpoint endswith (p s : string) : bool :=
  String.eqb p s ||
  match s with "" => false | String _ s' => endswith p s' end.

Fixpoint all_digits (s : string) : bool :=
  match s with
  | "" => true
  | String c s' => match digit_of c with Some _ => all_digits s' | None => false end
  end.

(** [s.isdigit()] (false on the empty string). *)
Definition isdigit (s : string) : bool :=
  match s with "" => false | _ => all_digits s end.

Fixpoint int_digits (acc : Z) (last_digit : bool) (s : string) : option Z :=
  match s with
  | "" => if last_digit then Some acc else None
  | String c s' =>
      match digit_of c with
      | Some d => int_digits (acc * 10 + d) true s'
      | None => if Ascii.eqb c "_" && last_digit then int_digits acc false s' else None
      end
  end.

(** [int(s)]. *)
Definition py_int (s : string) : res Z :=
  let parsed :=
    match strip s with
    | String "+" r => int_digits 0 false r
    | String "-" r => Z.opp <$> int_digits 0 false r
    | r => int_digits 0 false r
    end in
  match parsed with Some z => Ok z | None => Raise ValueError end.

(** [x in ("a", "b", ...)]. *)
Definition one_of (s : string) (l : list string) : bool := existsb (String.eqb s) l.

(** An environment: [os.environ] as the modules read it. *)
Definition environ := string -> option string.

(** [env.get(name, default)]. *)
Definition env_get (env : environ) (name default : string) : string :=
  match env name with Some v => v | None => default end.

Example py_int_1 : py_int " +1_000 " = Ok 1000. Proof. reflexivity. Qed.
Example py_int_2 : py_int "1__0" = Raise ValueError. Proof. reflexivity. Qed.
Example rsplit2_1 : rsplit2 "." "a.b.w1.weight" = ["a.b"; "w1"; "weight"]. Proof. reflexivity. Qed.
Example split1_1 : split1 ".experts." "l.experts.7.w1" = Some ("l", "7.w1"). Proof. reflexivity. Qed.

Lemma after_prefix_app p s : after_prefix p (p ++ s)%string = Some s.
Proof. induction p as [|c p IH]; simpl; [by destruct s|]. by rewrite Ascii.eqb_refl. Qed.

(** A string of digits parses; the value is not negative. *)
Lemma int_digits_all s acc b :
  all_digits s = true -> (b = true \/ s <> "") -> 0 <= acc ->
  exists z, int_digits acc b s = Some z /\ 0 <= z.
Proof.
  revert acc b. induction s as [|c s IH]; intros acc b; simpl.
  - intros _ [-> | ?] ?; [eauto | done].
  - destruct (digit_of c) as [d|] eqn:Hd; [|done]. intros Hs _ Hacc.
    apply IH; [done | by left |].
    unfold digit_of in Hd. case_match; [|done]. simplify_eq.
    apply andb_true_iff in H as [H1 H2]. apply Nat.leb_le in H1. lia.
Qed.
