(* ===== verification/Dist.v ===== *)
(** * Finite distributions over the rationals

    A distribution is a list of outcomes with rational weights; everything is stated
    through the expectation of a test function, so two distributions are compared by
    [E d1 f == E d2 f] for every [f].  Weights need not be normalised, which lets an
    event be kept as a sub-distribution. *)
From Stdlib Require Export QArith Lqa.
From S2P Require Import Prelude.
#[local] Open Scope list_scope.
#[local] Open Scope Q_scope.

Definition qsum (l : list Q) : Q := foldr Qplus 0 l.

(** [qsum] of [f] over a list of indices. *)
Definition qsum_on {A} (l : list A) (f : A -> Q) : Q := qsum (map f l).

Lemma qsum_app l k : qsum (l ++ k) == qsum l + qsum k.
Proof. induction l as [|x l IH]; simpl; [lra | rewrite IH; lra]. Qed.

Lemma qsum_on_nil {A} (f : A -> Q) : qsum_on [] f = 0.
Proof. done. Qed.

Lemma qsum_on_cons {A} (x : A) l f : qsum_on (x :: l) f = f x + qsum_on l f.
Proof. done. Qed.

Lemma qsum_on_app {A} (l k : list A) f : qsum_on (l ++ k) f == qsum_on l f + qsum_on k f.
Proof. unfold qsum_on. by rewrite map_app, qsum_app. Qed.

Lemma qsum_on_map {A B} (g : A -> B) l f : qsum_on (map g l) f = qsum_on l (fun x => f (g x)).
Proof. unfold qsum_on. by rewrite map_map. Qed.

Lemma qsum_on_ext {A} (l : list A) f g : (forall x, x ∈ l -> f x == g x) -> qsum_on l f == qsum_on l g.
Proof.
  induction l as [|x l IH]; intros H; [done|]. rewrite !qsum_on_cons.
  rewrite (H x), IH; [done | | by left]. intros y Hy. apply H. by right.
Qed.

Lemma qsum_on_plus {A} (l : list A) f g :
  qsum_on l (fun x => f x + g x) == qsum_on l f + qsum_on l g.
Proof. induction l as [|x l IH]; [rewrite !qsum_on_nil; lra|]. rewrite !qsum_on_cons, IH. lra. Qed.

Lemma qsum_on_scale {A} (l : list A) c f : qsum_on l (fun x => c * f x) == c * qsum_on l f.
Proof. induction l as [|x l IH]; [rewrite !qsum_on_nil; lra|]. rewrite !qsum_on_cons, IH. lra. Qed.

Lemma qsum_on_nonneg {A} (l : list A) f : (forall x, x ∈ l -> 0 <= f x) -> 0 <= qsum_on l f.
Proof.
  induction l as [|x l IH]; intros H; [rewrite qsum_on_nil; lra|]. rewrite qsum_on_cons.
  pose proof (H x ltac:(by left)). assert (0 <= qsum_on l f) by (apply IH; intros y Hy; apply H; by right). lra.
Qed.

Lemma qsum_on_zero {A} (l : list A) f :
  (forall x, x ∈ l -> 0 <= f x) -> qsum_on l f == 0 -> forall x, x ∈ l -> f x == 0.
Proof.
  induction l as [|y l IH]; intros H H0 x Hx; [by apply elem_of_nil in Hx|]. rewrite qsum_on_cons in H0.
  pose proof (H y ltac:(by left)).
  assert (0 <= qsum_on l f) by (apply qsum_on_nonneg; intros z Hz; apply H; by right).
  apply elem_of_cons in Hx as [->|Hx]; [lra|]. apply IH; [|lra|done]. intros z Hz. apply H. by right.
Qed.

(** ** Distributions *)

Definition dist (A : Type) : Type := list (A * Q).

Definition E {A} (d : dist A) (f : A -> Q) : Q := qsum_on d (fun xw => xw.2 * f xw.1).

Definition dret {A} (x : A) : dist A := [(x, 1)].

Definition scale {A} (c : Q) (d : dist A) : dist A := map (fun xw => (xw.1, c * xw.2)) d.

Fixpoint dbind {A B} (d : dist A) (k : A -> dist B) : dist B :=
  match d with
  | [] => []
  | (x, w) :: d' => scale w (k x) ++ dbind d' k
  end.

(** Index [x] with weight [row !! x]. *)
Definition categorical (row : list Q) : dist nat := imap (fun x w => (x, w)) row.

(** [n] independent draws. *)
Fixpoint iid {A} (n : nat) (d : dist A) : dist (list A) :=
  match n with
  | O => dret []
  | S n' => dbind d (fun x => dbind (iid n' d) (fun l => dret (x :: l)))
  end.

(** The indicator of an event. *)
Definition ind (b : bool) : Q := if b then 1 else 0.

#[export] Instance E_proper {A} (d : dist A) : Proper (pointwise_relation A Qeq ==> Qeq) (E d).
Proof. intros f g H. apply qsum_on_ext. intros x _. by rewrite (H x.1). Qed.

Lemma E_ext {A} (d : dist A) f g : (forall x, x ∈ map fst d -> f x == g x) -> E d f == E d g.
Proof.
  intros H. apply qsum_on_ext. intros [x w] Hx. simpl. rewrite (H x); [done|].
  apply list_elem_of_In, in_map_iff. exists (x, w). split; [done | by apply list_elem_of_In].
Qed.

Lemma E_ret {A} (x : A) f : E (dret x) f == f x.
Proof. unfold E, dret. rewrite qsum_on_cons, qsum_on_nil. simpl. lra. Qed.

Lemma E_nil {A} (f : A -> Q) : E [] f = 0.
Proof. done. Qed.

Lemma E_app {A} (d1 d2 : dist A) f : E (d1 ++ d2) f == E d1 f + E d2 f.
Proof. apply qsum_on_app. Qed.

Lemma E_scale {A} c (d : dist A) f : E (scale c d) f == c * E d f.
Proof.
  unfold E, scale. rewrite qsum_on_map, <- qsum_on_scale. apply qsum_on_ext. intros [x w] _. simpl. lra.
Qed.

Lemma E_bind {A B} (d : dist A) (k : A -> dist B) f : E (dbind d k) f == E d (fun x => E (k x) f).
Proof.
  induction d as [|[x w] d IH]; [done|]. cbn [dbind]. rewrite E_app, E_scale, IH.
  reflexivity.
Qed.

Lemma E_plus {A} (d : dist A) f g : E d (fun x => f x + g x) == E d f + E d g.
Proof. unfold E. rewrite <- qsum_on_plus. apply qsum_on_ext. intros x _. lra. Qed.

Lemma E_mult {A} (d : dist A) c f : E d (fun x => c * f x) == c * E d f.
Proof. unfold E. rewrite <- qsum_on_scale. apply qsum_on_ext. intros x _. lra. Qed.

Lemma E_const {A} (d : dist A) c : E d (fun _ => c) == c * E d (fun _ => 1).
Proof. rewrite <- E_mult. apply E_ext. intros. lra. Qed.

(** A draw on which the value depends only through an event of known probability. *)
Lemma E_event {A} (d : dist A) (b : A -> bool) h u v :
  E d (fun _ => 1) == 1 -> E d (fun x => ind (b x)) == h ->
  E d (fun x => if b x then u else v) == h * u + (1 - h) * v.
Proof.
  intros H1 Hh.
  transitivity (E d (fun x => (u - v) * ind (b x) + v)).
  { apply E_ext. intros x _. unfold ind. destruct (b x); lra. }
  rewrite E_plus, E_mult, Hh, E_const, H1. lra.
Qed.

Lemma E_categorical row f :
  E (categorical row) f == qsum_on (seq 0 (length row)) (fun x => nth x row 0 * f x).
Proof.
  unfold E, categorical. revert f. induction row as [|w row IH]; intros f; [done|].
  cbn [imap length seq]. rewrite !qsum_on_cons. cbn [fst snd nth].
  rewrite <- fmap_S_seq, qsum_on_map, <- (IH (fun x => f (S x))).
  apply Qplus_comp; [done|].
  rewrite <- (fmap_imap (fun x w => (x, w)) (fun xw : nat * Q => (S xw.1, xw.2))), qsum_on_map.
  done.
Qed.
