(* ===== verification/DecodeYield.v ===== *)
(** * Decode yield (adapter/decode_yield.py)

    After a non-final chunk of a long prompt, the next prefill is deferred until
    the running streams have had a share of decode time.  The cost model, the
    environment parsing, the arming after a scheduled plan, the per-round deferral
    and the installation are translated; the scheduler fields they read and write
    are the record [sched], the counters [_Stats] the record [stats], and the two
    wrapped engine methods are arguments of the wrappers. *)
From S2P Require Import Prelude PyStr.
#[local] Open Scope string_scope.
#[local] Open Scope list_scope.
#[local] Open Scope Z_scope.

(** ** Constants *)

Definition RID_PREFIX : string := "dyield-s".
Definition MAX_PCT : Z := 90.
Definition MAX_STEPS : Z := 128.
Definition RECEIPT_EVERY : Z := 256.
Definition CHUNK_REF_TOKENS : Z := 8192.
Definition CHUNK_BASE_US : Z := 1354500.
Definition CHUNK_PREFIX_NUM : Z := 487.
Definition CHUNK_PREFIX_DEN : Z := 1000.
Definition STEP_BASE_US : Z := 26300.
Definition STEP_PER_REQ_US : Z := 15200.

(** Name of a pinned engine function and the sha256 of its source. *)
Definition PINS : list (string * string) :=
  [("Scheduler.get_next_batch_to_run",
    "adf3e4689e0e3b55f29616ca52b8ca0409f1330468b0f4a24a753502a6ae1084");
   ("Scheduler._should_defer_prefill",
    "0ac4b94664ec65be18da4dca0dd8ca93ee12eda8ebf566d6ae8d9e7489075fe7");
   ("Scheduler._arm_prefill_decode_interval",
    "54db911b31a3cfcb1f4e2463d9d9e39b9e31cc3579c9df487cf48265b2be6933")].

(** ** Parsing *)

(** [None] = off, [Some pct] = on, [ValueError] = refuse. *)
Definition parse_pct (raw : option string) : res (option Z) :=
  let v := lower (strip (default "" raw)) in
  if one_of v [""; "0"; "off"; "false"; "no"] then Ok None
  else pct ← py_int v;
       if (1 <=? pct) && (pct <=? MAX_PCT) then Ok (Some pct) else Raise ValueError.

Definition requested (env : environ) : bool :=
  match parse_pct (env "DSV41_DECODE_YIELD") with
  | Ok o => bool_decide (is_Some o)
  | Raise _ => true
  end.

(** The request id's share when test arms are on ([rid = None]: not a string). *)
Definition share_for (rid : option string) (default_pct : Z) (rid_arms : bool) : Z :=
  match rid with
  | Some r =>
      match (if rid_arms then after_prefix RID_PREFIX r else None) with
      | Some rest =>
          let head := head_of "-" rest in
          if isdigit head then
            match py_int head with
            | Ok n => if (0 <=? n) && (n <=? MAX_PCT) then n else default_pct
            | Raise _ => default_pct
            end
          else default_pct
      | None => default_pct
      end
  | None => default_pct
  end.

(** ** Cost model *)

Definition chunk_us (tokens prefix : Z) : Z :=
  tokens * (CHUNK_BASE_US + prefix * CHUNK_PREFIX_NUM / CHUNK_PREFIX_DEN) / CHUNK_REF_TOKENS.

Definition step_us (bs : Z) : Z := STEP_BASE_US + STEP_PER_REQ_US * bs.

Definition yield_budget_us (pct tokens prefix bs interval : Z) : Z :=
  let c := chunk_us tokens prefix in
  let s := step_us bs in
  let want := - (- pct * c / (100 - pct)) in
  let lo := Z.max interval 0 * s in
  let hi := MAX_STEPS * s in
  Z.min (Z.max want lo) hi.

(** ** Scheduler state *)

(** A request: object identity, id ([r_is_str] = the id is a string, [r_rid] its [str]),
    the start of its extend range (when it has one) and its prefix length. *)
Record req := Req {
  r_oid : Z;
  r_rid : string;
  r_is_str : bool;
  r_range_start : option Z;
  r_prefix_len : Z }.

(** A scheduled batch. *)
Record batch := Batch {
  b_oid : Z;
  b_mode : option string;
  b_chunked_req : option req;
  b_extend_num_tokens : option Z;
  b_is_empty : bool;
  b_prefill_only : bool;
  b_size : Z }.

Record plan := Plan { batch_to_run : option batch; running_batch : option batch }.

Record sched := Sched {
  require_mlp_sync : bool;
  dllm_config : bool;
  chunked_req : option req;
  prefill_decode_interval : Z;
  yield_left_us : Z;
  interval_remaining : Z }.

Record info := Info {
  i_rid : string; i_prefix : Z; i_tokens : Z; i_bs : Z; i_share : Z; i_budget_us : Z }.

Record stats := Stats {
  installed : bool;
  pct : Z;
  rid_arms : bool;
  yields : Z;
  steps : Z;
  cancels : Z;
  last_rid : option string;
  last : option info }.

Definition set_yield (s : sched) (left rem : Z) : sched :=
  Sched (require_mlp_sync s) (dllm_config s) (chunked_req s) (prefill_decode_interval s) left rem.

Definition same_req (a b : option req) : bool :=
  match a, b with Some x, Some y => r_oid x =? r_oid y | _, _ => false end.

Definition same_batch (a b : option batch) : bool :=
  match a, b with Some x, Some y => b_oid x =? b_oid y | _, _ => false end.

Definition decode_rows (rb : option batch) : bool :=
  match rb with
  | Some b => negb (b_is_empty b) && negb (b_prefill_only b)
  | None => false
  end.

(** ** Arming *)

(** The receipt line of an event. *)
Definition receipt := (string * info)%type.

(** What [arm_after] arms for a plan, if anything: the record it writes. *)
Definition arm_info (st : stats) (s : sched) (p : plan) : option info :=
  match batch_to_run p with
  | None => None
  | Some b =>
      if require_mlp_sync s || dllm_config s then None
      else match b_chunked_req b with
      | None => None
      | Some long =>
          if negb (same_req (Some long) (chunked_req s)) || same_batch (Some b) (running_batch p)
             || negb (bool_decide (b_mode b = Some "EXTEND")) then None
          else if negb (decode_rows (running_batch p)) then None
          else
            let share := share_for (if r_is_str long then Some (r_rid long) else None)
                                   (pct st) (rid_arms st) in
            if share <=? 0 then None
            else
              let tokens := default 0 (b_extend_num_tokens b) in
              if tokens <=? 0 then None
              else
                let prefix := default (r_prefix_len long) (r_range_start long) in
                let bs := default 0 (b_size <$> running_batch p) in
                Some (Info (r_rid long) prefix tokens bs share
                           (yield_budget_us share tokens prefix bs (prefill_decode_interval s)))
      end
  end.

Definition arm_after (st : stats) (s : sched) (p : plan) : stats * sched * list receipt :=
  match arm_info st s p with
  | None => (st, s, [])
  | Some i =>
      let y := yields st + 1 in
      let first := negb (bool_decide (last_rid st = Some (i_rid i))) in
      let st' := Stats (installed st) (pct st) (rid_arms st) y (steps st) (cancels st)
                       (Some (i_rid i)) (Some i) in
      (st', set_yield s (i_budget_us i) (interval_remaining s),
       if first then [("first", i)]
       else if y mod RECEIPT_EVERY =? 0 then [("every", i)] else [])
  end.

(** ** Deferring *)

(** [Some true] / [Some false] when a yield decides this round, [None] for the stock rule. *)
Definition defer_step (st : stats) (s : sched) (rb : option batch) : stats * sched * option bool :=
  let left := yield_left_us s in
  if left <=? 0 then (st, s, None)
  else if negb (decode_rows rb) || bool_decide (chunked_req s = None) then
    (Stats (installed st) (pct st) (rid_arms st) (yields st) (steps st) (cancels st + 1)
           (last_rid st) (last st), set_yield s 0 0, Some false)
  else
    (Stats (installed st) (pct st) (rid_arms st) (yields st) (steps st + 1) (cancels st)
           (last_rid st) (last st),
     set_yield s (left - step_us (default 0 (b_size <$> rb))) 0, Some true).

(** The two wrappers [install] publishes around the engine's methods. *)
Section Wrappers.
  Context (original_next : sched -> plan * sched)
          (original_defer : sched -> option batch -> bool * sched).

Definition get_next_batch_to_run (st : stats) (s : sched) : plan * stats * sched * list receipt :=
  let '(p, s1) := original_next s in
  let '(st2, s2, out) := arm_after st s1 p in
  (p, st2, s2, out).

Definition should_defer_prefill (st : stats) (s : sched) (rb : option batch) : bool * stats * sched :=
  match defer_step st s rb with
  | (st', s', Some b) => (b, st', s')
  | (st', s', None) => let '(b, s'') := original_defer s' rb in (b, st', s'')
  end.
End Wrappers.

(** ** Installation *)

(** What [install] sees of the engine module: whether it has a [Scheduler] class,
    whether that class already carries the hook, and the sha256 of a method's
    source ([source_sha], which raises on a missing attribute or source). *)
Record engine := Engine {
  has_scheduler : bool;
  marked : bool;
  source_sha : string -> res string }.

Inductive install_log :=
  | RefusedPct
  | RefusedRidArms
  | RefusedNoScheduler
  | RefusedDrift (names : list string)
  | Armed (share : Z).

(** Names whose source no longer matches, in the order they are looked up. *)
Definition pin_drift (e : engine) : res (list string) :=
  shas ← mapR (fun pin => sha ← source_sha e pin.1; Ok (pin.1, sha, pin.2)) PINS;
  Ok (map (fun x => x.1.1) (filter (fun x => x.1.2 <> x.2) shas)).

(** The drift list with the exceptions [install] turns into one; [None] = the exception escapes. *)
Definition drift_caught (e : engine) : res (list string) :=
  match pin_drift e with
  | Ok l => Ok l
  | Raise x => if bool_decide (x = AttributeError \/ x = TypeError \/ x = IOError)
               then Ok ["<exception>"] else Raise x
  end.

(** [install]: the returned flag, the new [_Stats] and the log line, if one is written. *)
Definition install (env : environ) (e : engine) (st : stats)
  : res (bool * stats * option install_log) :=
  match parse_pct (env "DSV41_DECODE_YIELD") with
  | Raise ValueError => Ok (false, st, Some RefusedPct)
  | Raise x => Raise x
  | Ok None => Ok (false, st, None)
  | Ok (Some p) =>
      let rid_raw := lower (strip (default "" (env "DSV41_DECODE_YIELD_RID_ARMS"))) in
      if negb (one_of rid_raw [""; "0"; "1"; "off"; "on"]) then Ok (false, st, Some RefusedRidArms)
      else if negb (has_scheduler e) then Ok (false, st, Some RefusedNoScheduler)
      else if marked e then Ok (true, st, None)
      else
        drift ← drift_caught e;
        if bool_decide (drift <> []) then Ok (false, st, Some (RefusedDrift drift))
        else Ok (true, Stats true p (one_of rid_raw ["1"; "on"]) (yields st) (steps st)
                             (cancels st) (last_rid st) (last st), Some (Armed p))
  end.

(** ** The rounds between two chunks *)

(** Scheduling rounds with the given running batches until a round does not defer:
    the deferred rounds, and the answer of the round that ended the run ([None] of
    the outer option: every round deferred). *)
Fixpoint defer_rounds (st : stats) (s : sched) (rounds : list (option batch))
  : nat * option (option bool) * stats * sched :=
  match rounds with
  | [] => (0%nat, None, st, s)
  | rb :: rest =>
      match defer_step st s rb with
      | (st', s', Some true) =>
          let '(n, o, st'', s'') := defer_rounds st' s' rest in (S n, o, st'', s'')
      | (st', s', o) => (0%nat, Some o, st', s')
      end
  end.

Example budget_50 : yield_budget_us 50 8192 0 2 2 = 1354500. Proof. reflexivity. Qed.
Example budget_33 : yield_budget_us 33 8192 300000 2 2 = 739102. Proof. reflexivity. Qed.
Example share_arm : share_for (Some "dyield-s45-x") 33 true = 45. Proof. reflexivity. Qed.

(** ** Lemmas *)

Lemma step_us_pos bs : 0 <= bs -> 0 < step_us bs.
Proof. unfold step_us, STEP_BASE_US, STEP_PER_REQ_US; lia. Qed.

Lemma step_us_mono a b : a <= b -> step_us a <= step_us b.
Proof. unfold step_us, STEP_PER_REQ_US; lia. Qed.

Lemma chunk_us_nonneg tokens prefix : 0 <= tokens -> 0 <= prefix -> 0 <= chunk_us tokens prefix.
Proof.
  intros Ht Hp. unfold chunk_us, CHUNK_BASE_US, CHUNK_PREFIX_NUM, CHUNK_PREFIX_DEN, CHUNK_REF_TOKENS.
  apply Z.div_pos; [|lia]. apply Z.mul_nonneg_nonneg; [done|].
  pose proof (Z.div_pos (prefix * 487) 1000 ltac:(lia) ltac:(lia)). lia.
Qed.

(** The wanted time is the ceiling of [pct * chunk / (100 - pct)]. *)
Lemma want_spec p c : 0 < 100 - p -> p * c <= (100 - p) * - (- p * c / (100 - p)).
Proof.
  intros Hp.
  pose proof (Z.div_mod (- p * c) (100 - p) ltac:(lia)).
  pose proof (Z.mod_pos_bound (- p * c) (100 - p) ltac:(lia)). lia.
Qed.

#[export] Hint Resolve step_us_pos chunk_us_nonneg : dsv.

Lemma parse_pct_range raw p : parse_pct raw = Ok (Some p) -> 1 <= p <= MAX_PCT.
Proof.
  unfold parse_pct. destruct (one_of _ _); [done|].
  destruct (py_int _) as [z|]; simpl; [|done].
  destruct (_ && _) eqn:E; [|done]. intros [= <-]. blia.
Qed.

Lemma share_for_range rid d arms : 0 <= d <= MAX_PCT -> 0 <= share_for rid d arms <= MAX_PCT.
Proof. intros Hd. unfold share_for. repeat case_match; blia. Qed.

Lemma defer_step_true st s rb st' s' :
  defer_step st s rb = (st', s', Some true) ->
  0 < yield_left_us s /\ decode_rows rb = true /\ is_Some (chunked_req s) /\
  s' = set_yield s (yield_left_us s - step_us (default 0 (b_size <$> rb))) 0 /\
  steps st' = steps st + 1 /\ cancels st' = cancels st.
Proof.
  unfold defer_step. destruct (_ <=? 0) eqn:E; [done|].
  destruct (_ || _) eqn:E2; [done|]. intros [= <- <-].
  apply orb_false_iff in E2 as [E2 E3]. apply bool_decide_eq_false in E3.
  repeat split; try done; [lia | by destruct (decode_rows rb) |].
  destruct (chunked_req s); [eauto | done].
Qed.

Lemma defer_step_running st s b :
  0 < yield_left_us s -> is_Some (chunked_req s) -> decode_rows (Some b) = true ->
  defer_step st s (Some b) =
    (Stats (installed st) (pct st) (rid_arms st) (yields st) (steps st + 1) (cancels st)
           (last_rid st) (last st),
     set_yield s (yield_left_us s - step_us (b_size b)) 0, Some true).
Proof.
  intros Hl [r Hr] Hd. unfold defer_step. rewrite Hd, Hr. simpl.
  destruct (_ <=? 0) eqn:E; [lia|]. done.
Qed.

(** The rounds of one yield: every deferred round charges its own step, and the run is
    cut only by an exhausted budget or by rows / chunk disappearing. *)
Lemma defer_rounds_spec st s rounds n o st' s' :
  defer_rounds st s rounds = (n, o, st', s') ->
  (n <= length rounds)%nat /\ steps st' = steps st + Z.of_nat n /\
  (o <> Some (Some false) ->
   yield_left_us s' = yield_left_us s
     - zsum (map (fun rb => step_us (default 0 (b_size <$> rb))) (take n rounds))).
Proof.
  revert n o st st' s s'. induction rounds as [|rb rest IH]; intros n o st st' s s'; simpl.
  - intros [= <- <- <- <-]. simpl. split; [lia|]. split; [lia|]. intros _. lia.
  - destruct (defer_step st s rb) as [[st1 s1] [[]|]] eqn:E.
    + destruct (defer_rounds st1 s1 rest) as [[[n1 o1] st2] s2] eqn:E2.
      intros [= <- <- <- <-]. apply IH in E2 as (Hn & Hs & Hl).
      apply defer_step_true in E as (_ & _ & _ & -> & Hst & _).
      simpl. split; [lia|]. split; [lia|]. intros Ho. rewrite Hl by done. simpl. lia.
    + intros [= <- <- <- <-]. simpl. split; [lia|]. split; [|done].
      revert E. unfold defer_step. repeat case_match; intros; simplify_eq; simpl; lia.
    + intros [= <- <- <- <-]. simpl. split; [lia|].
      revert E. unfold defer_step. repeat case_match; intros; simplify_eq; simpl; lia.
Qed.

Lemma defer_rounds_app_None st s rounds more n o st' s' :
  defer_rounds st s rounds = (n, Some o, st', s') ->
  defer_rounds st s (rounds ++ more) = (n, Some o, st', s').
Proof.
  revert n o st st' s s'. induction rounds as [|rb rest IH]; intros n o st st' s s'; simpl; [done|].
  destruct (defer_step st s rb) as [[st1 s1] [[]|]] eqn:E; try done.
  destruct (defer_rounds st1 s1 rest) as [[[n1 [o1|]] st2] s2] eqn:E2; intros [= <- <- <- <-].
  by rewrite (IH _ _ _ _ _ _ E2).
Qed.

(** With rows decoding at a constant size, a yield of budget [B] defers exactly
    [ceil(B / step)] rounds and then hands over to the stock rule. *)
Lemma defer_rounds_constant st s b k :
  is_Some (chunked_req s) -> decode_rows (Some b) = true -> 0 <= b_size b ->
  0 <= cdiv (yield_left_us s) (step_us (b_size b)) <= Z.of_nat k ->
  exists st' s',
    defer_rounds st s (replicate (S k) (Some b)) =
      (Z.to_nat (cdiv (yield_left_us s) (step_us (b_size b))), Some None, st', s').
Proof.
  intros Hc Hd Hb. revert st s Hc. induction k as [|k IH]; intros st s Hc Hk.
  - pose proof (cdiv_spec (yield_left_us s) _ (step_us_pos _ Hb)) as Hs.
    exists st, s. simpl. unfold defer_step.
    replace (yield_left_us s <=? 0) with true by nia.
    replace (cdiv (yield_left_us s) (step_us (b_size b))) with 0 by lia. done.
  - pose proof (cdiv_spec (yield_left_us s) _ (step_us_pos _ Hb)) as Hs.
    destruct (Z_le_gt_dec (yield_left_us s) 0) as [Hl|Hl].
    + exists st, s. simpl. unfold defer_step.
      replace (yield_left_us s <=? 0) with true by lia.
      pose proof (step_us_pos _ Hb).
      replace (cdiv (yield_left_us s) (step_us (b_size b))) with 0 by nia. done.
    + change (replicate (S (S k)) (Some b)) with (Some b :: replicate (S k) (Some b)).
      simpl. rewrite defer_step_running by (done || lia).
      set (st1 := Stats _ _ _ _ _ _ _ _). set (s1 := set_yield _ _ _).
      assert (Hq : cdiv (yield_left_us s1) (step_us (b_size b))
                   = cdiv (yield_left_us s) (step_us (b_size b)) - 1).
      { apply cdiv_unique; [by apply step_us_pos|]. simpl. lia. }
      pose proof (step_us_pos _ Hb).
      destruct (IH st1 s1 Hc ltac:(nia)) as (st' & s' & E).
      rewrite Hq in E. simpl in E. rewrite E. exists st', s'.
      replace (Z.to_nat (cdiv (yield_left_us s) (step_us (b_size b))))
        with (S (Z.to_nat (cdiv (yield_left_us s) (step_us (b_size b)) - 1))) by nia.
      done.
Qed.

Lemma cdiv_clamp w i m s :
  0 < s -> cdiv (Z.min (Z.max w (i * s)) (m * s)) s = Z.min (Z.max (cdiv w s) i) m.
Proof. intros Hs. apply cdiv_unique; [done|]. pose proof (cdiv_spec w s Hs). nia. Qed.

Lemma arm_info_Some st s p i :
  arm_info st s p = Some i ->
  exists b long rb,
    batch_to_run p = Some b /\ b_chunked_req b = Some long /\ running_batch p = Some rb /\
    b_mode b = Some "EXTEND" /\ same_req (Some long) (chunked_req s) = true /\
    decode_rows (Some rb) = true /\ i_bs i = b_size rb /\ 0 < i_tokens i /\
    0 < i_share i /\
    i_share i = share_for (if r_is_str long then Some (r_rid long) else None) (pct st) (rid_arms st) /\
    i_budget_us i = yield_budget_us (i_share i) (i_tokens i) (i_prefix i) (i_bs i)
                                    (prefill_decode_interval s).
Proof.
  unfold arm_info.
  destruct (batch_to_run p) as [b|]; [|done].
  destruct (_ || dllm_config s); [done|].
  destruct (b_chunked_req b) as [long|] eqn:El; [|done].
  destruct (_ || negb (bool_decide _)) eqn:E1; [done|].
  destruct (negb (decode_rows _)) eqn:E2; [done|].
  destruct (_ <=? 0) eqn:E3; [done|]. destruct (default 0 _ <=? 0) eqn:E4; [done|].
  intros [= <-]. destruct (running_batch p) as [rb|] eqn:Er; [|done].
  apply orb_false_iff in E1 as [E1 E5]. apply orb_false_iff in E1 as [E1 E6].
  apply negb_false_iff in E1, E5, E2. apply bool_decide_eq_true in E5.
  exists b, long, rb. simpl. repeat split; try done; lia.
Qed.

Lemma arm_after_yield st s p st1 s1 out i :
  arm_after st s p = (st1, s1, out) -> arm_info st s p = Some i ->
  yield_left_us s1 = i_budget_us i /\ chunked_req s1 = chunked_req s /\
  yields st1 = yields st + 1.
Proof. unfold arm_after. intros E Hi. rewrite Hi in E. by simplify_eq/=. Qed.

(** ** Properties *)

(** A yield armed after a chunk defers, while the running batch keeps its size,
    exactly as many rounds as the chunk's share of decode time needs (at least the
    configured interval, at most 128), then hands over to the stock rule; unless the
    cap is reached the decode time it granted is at least [share / (100 - share)] of
    the chunk's modelled time. *)
Theorem yield_grants_share st s p st1 s1 out i rb :
  0 <= pct st <= MAX_PCT -> 0 <= b_size rb ->
  arm_info st s p = Some i -> arm_after st s p = (st1, s1, out) ->
  running_batch p = Some rb ->
  let step := step_us (b_size rb) in
  let n := Z.min (Z.max (cdiv (cdiv (i_share i * chunk_us (i_tokens i) (i_prefix i))
                                     (100 - i_share i)) step)
                         (Z.max (prefill_decode_interval s) 0)) MAX_STEPS in
  Z.min (prefill_decode_interval s) MAX_STEPS <= n <= MAX_STEPS /\
  (n < MAX_STEPS ->
   i_share i * chunk_us (i_tokens i) (i_prefix i) <= (100 - i_share i) * (n * step)) /\
  (forall k, MAX_STEPS <= Z.of_nat k ->
   exists st' s', defer_rounds st1 s1 (replicate (S k) (Some rb)) = (Z.to_nat n, Some None, st', s')).
Proof.
  intros Hp Hb Hi Ha Hrb step n.
  destruct (arm_info_Some _ _ _ _ Hi)
    as (b & long & rb' & _ & _ & Hrb' & _ & Hsame & Hdec & Hbs & _ & Hsh & Hshare & Hbud).
  rewrite Hrb in Hrb'. simplify_eq.
  destruct (arm_after_yield _ _ _ _ _ _ _ Ha Hi) as (Hleft & Hch & _).
  pose proof (share_for_range (if r_is_str long then Some (r_rid long) else None) _ (rid_arms st) Hp).
  assert (Hsh100 : 0 < 100 - i_share i) by (unfold MAX_PCT in *; lia).
  assert (Hstep : 0 < step) by (by apply step_us_pos).
  assert (Hn : n = cdiv (i_budget_us i) step).
  { rewrite Hbud, Hbs. unfold yield_budget_us. fold step.
    replace (- (- i_share i * chunk_us (i_tokens i) (i_prefix i) / (100 - i_share i)))
      with (cdiv (i_share i * chunk_us (i_tokens i) (i_prefix i)) (100 - i_share i))
      by (unfold cdiv; do 2 f_equal; lia).
    by rewrite cdiv_clamp. }
  split; [unfold n, MAX_STEPS; lia|]. split.
  - intros Hlt.
    pose proof (cdiv_spec (i_share i * chunk_us (i_tokens i) (i_prefix i)) _ Hsh100) as H1.
    pose proof (cdiv_spec (cdiv (i_share i * chunk_us (i_tokens i) (i_prefix i)) (100 - i_share i))
                          _ Hstep) as H2.
    set (q := cdiv _ (100 - i_share i)) in *.
    assert (cdiv q step <= n) by (clear - Hlt; unfold n, MAX_STEPS in *; lia).
    assert (q <= n * step) by nia. nia.
  - intros k Hk. rewrite Hn, <- Hleft. apply defer_rounds_constant; try done.
    + rewrite Hch. destruct (chunked_req s); [eauto | done].
    + fold step. rewrite Hleft, <- Hn. unfold n, MAX_STEPS in *. lia.
Qed.

(** A production-like yield: share 33, a 200 000-token prefix, two running streams. *)
Definition ex_long : req := Req 7 "r-7" true (Some 200000) 200000.
Definition ex_running : batch := Batch 2 (Some "DECODE") None None false false 2.
Definition ex_plan : plan :=
  Plan (Some (Batch 1 (Some "EXTEND") (Some ex_long) (Some 8192) false false 1)) (Some ex_running).
Definition ex_sched : sched := Sched false false (Some ex_long) 2 0 2.
Definition ex_stats : stats := Stats true 33 false 0 0 0 None None.
Definition ex_info : info := Info "r-7" 200000 8192 2 33 715115.

Lemma yield_grants_share_witness :
  exists st1 s1 st' s',
    arm_after ex_stats ex_sched ex_plan = (st1, s1, [("first", ex_info)]) /\
    defer_rounds st1 s1 (replicate 200 (Some ex_running)) = (13%nat, Some None, st', s').
Proof.
  destruct (yield_grants_share ex_stats ex_sched ex_plan _ _ _ ex_info ex_running
              ltac:(vm_compute; split; discriminate) ltac:(vm_compute; discriminate)
              ltac:(vm_compute; reflexivity) ltac:(reflexivity) ltac:(reflexivity))
    as (_ & _ & H).
  destruct (H 199%nat ltac:(vm_compute; discriminate)) as (st' & s' & E).
  eexists _, _, st', s'. split; [vm_compute; reflexivity|].
  etransitivity; [exact E|]. vm_compute. reflexivity.
Defined.

(** Every yield ends: whatever batches the rounds see (rows may join, finish or
    vanish), a run of deferred rounds is at most the budget over the smallest step
    long, so a longer list of rounds always reaches a round that is not deferred. *)
Theorem yield_terminates st s rounds n o st' s' :
  Forall (fun rb => 0 <= default 0 (b_size <$> rb)) rounds ->
  defer_rounds st s rounds = (n, o, st', s') ->
  Z.of_nat n <= Z.max 0 (cdiv (yield_left_us s) STEP_BASE_US) /\
  (Z.max 0 (cdiv (yield_left_us s) STEP_BASE_US) < zlen rounds -> o <> None).
Proof.
  intros Hf. revert n o st st' s s'.
  induction Hf as [|rb rest Hrb Hf IH]; intros n o st st' s s'; simpl.
  - intros [= <- <- <- <-]. unfold zlen. simpl. split; [lia|]. intros ?; exfalso; lia.
  - destruct (defer_step st s rb) as [[st1 s1] d] eqn:E.
    destruct d as [[]|]; [|intros [= <- <- <- <-]; split; [lia | done]..].
    destruct (defer_rounds st1 s1 rest) as [[[n1 o1] st2] s2] eqn:E2.
    intros [= <- <- <- <-]. apply IH in E2 as [Hn Ho].
    apply defer_step_true in E as (Hl & _ & _ & -> & _ & _). simpl in Hn, Ho.
    pose proof (step_us_mono 0 _ Hrb) as Hm. change (step_us 0) with STEP_BASE_US in Hm.
    set (B := yield_left_us s) in *. set (x := step_us _) in *.
    assert (HB : 0 < STEP_BASE_US) by done.
    pose proof (cdiv_spec B _ HB). pose proof (cdiv_spec (B - x) _ HB).
    rewrite zlen_cons. split; [nia|]. intros Hz. apply Ho. nia.
Qed.

Lemma yield_terminates_witness :
  exists o st' s',
    defer_rounds ex_stats (set_yield ex_sched 100000 0) (replicate 9 (Some ex_running)) =
      (2%nat, o, st', s') /\ o <> None.
Proof.
  destruct (defer_rounds ex_stats (set_yield ex_sched 100000 0) (replicate 9 (Some ex_running)))
    as [[[n o] st'] s'] eqn:E.
  assert (Hn : n = 2%nat) by (vm_compute in E; congruence). subst n.
  exists o, st', s'. split; [reflexivity|].
  refine (proj2 (yield_terminates _ _ _ _ _ _ _ _ E) ltac:(vm_compute; reflexivity)).
  repeat constructor; vm_compute; discriminate.
Defined.

(** The cap of 128 steps is priced at the batch size the chunk ran beside; when the
    running batch shrinks after the chunk, one yield defers more than 128 rounds. *)
Theorem yield_can_exceed_max_steps :
  exists st s p st1 s1 out rounds n st' s',
    1 <= pct st <= MAX_PCT /\ yield_left_us s = 0 /\
    arm_after st s p = (st1, s1, out) /\
    Forall (fun rb => b_size rb = 1) rounds /\
    defer_rounds st1 s1 (map Some rounds) = (n, Some None, st', s') /\
    MAX_STEPS < Z.of_nat n.
Proof.
  set (st := Stats true 90 false 0 0 0 None None).
  set (run k := Batch 2 (Some "DECODE") None None false false k).
  set (p := Plan (batch_to_run ex_plan) (Some (run 16))).
  destruct (arm_after st ex_sched p) as [[st1 s1] out] eqn:E.
  destruct (defer_rounds st1 s1 (map Some (replicate 400 (run 1)))) as [[[n o] st'] s'] eqn:E2.
  exists st, ex_sched, p, st1, s1, out, (replicate 400 (run 1)), n, st', s'.
  vm_compute in E. injection E as <- <- <-. vm_compute in E2. injection E2 as <- <- <- <-.
  repeat split; try done.
  apply Forall_replicate. reflexivity.
Qed.
