(* ===== verification/PrefillBypass.v ===== *)
(** * Prefill bypass and solo short passes (adapter/prefill_bypass.py)

    Short requests admitted beside an in-flight chunk of a long prompt.  The
    module rewrites one engine method by text and wraps two; the engine's own code
    is not part of the repository, so the parts of it around the inserted
    fragments are arguments of the definitions here ([stock_add], [stock_select],
    [pre], [init_next_round_input], [post], [add_chunked_req]), and the inserted
    fragments, the two wrappers, the gating predicate and the installation checks
    are translated. *)
From S2P Require Import Prelude PyStr.
#[local] Open Scope string_scope.
#[local] Open Scope list_scope.
#[local] Open Scope Z_scope.

(** ** Requests and gating *)

Record req := Req {
  q_oid : Z;
  q_fill_len : Z;       (* len(full_untruncated_fill_ids) *)
  q_prefix_len : Z;     (* len(prefix_indices) *)
  q_ignore_eos : bool;
  q_extend : Z * Z }.   (* extend_range *)

#[export] Instance req_eq_dec : EqDecision req.
Proof. solve_decision. Defined.

Definition fresh_tokens (r : req) : Z := q_fill_len r - q_prefix_len r.

Record modes := Modes {
  m_chunked_req : bool;
  m_dllm : bool;
  m_delayer_flag : bool;
  m_delayer : bool;
  m_priority_preemption : bool;
  m_lora : bool;
  m_hicache_storage : bool;
  m_hierarchical_cache : bool;
  m_external_linker : bool }.

Definition bypass_active (m : modes) : bool :=
  m_chunked_req m && negb (m_dllm m) && negb (m_delayer_flag m) && negb (m_delayer m)
  && negb (m_priority_preemption m) && negb (m_lora m) && negb (m_hicache_storage m)
  && negb (m_hierarchical_cache m) && negb (m_external_linker m).

Definition SOLO_ON : list string := ["1"; "on"; "true"; "yes"].
Definition SOLO_OFF : list string := [""; "0"; "off"; "false"; "no"].

(** [Some b] = requested or not, [None] = an unknown value (refuse). *)
Definition solo_requested (env : environ) : option bool :=
  let raw := lower (strip (default "" (env "DSV41_PREFILL_BYPASS_SOLO"))) in
  if one_of raw SOLO_ON then Some true
  else if one_of raw SOLO_OFF then Some false
  else None.

(** ** Text patches *)

(** [source.count(old)] on non-overlapping occurrences, and [source.replace(old, new)];
    [fuel] bounds the number of occurrences. *)
Fixpoint count_occ (fuel : nat) (old source : string) : nat :=
  match fuel with
  | O => 0
  | S n => match split1 old source with
           | Some (_, rest) => S (count_occ n old rest)
           | None => 0
           end
  end.

Fixpoint replace_all (fuel : nat) (old new source : string) : string :=
  match fuel with
  | O => source
  | S n => match split1 old source with
           | Some (a, rest) => a +:+ new +:+ replace_all n old new rest
           | None => source
           end
  end.

(** Apply anchored patches in order; an anchor that does not occur exactly once is a drift. *)
Fixpoint apply_patches (patches : list (string * string)) (source : string) : res string :=
  match patches with
  | [] => Ok source
  | (old, new) :: rest =>
      let fuel := S (String.length source) in
      if Nat.eqb (count_occ fuel old source) 1
      then apply_patches rest (replace_all fuel old new source)
      else Raise ValueError
  end.

(** ** The PrefillAdder wrappers *)

Inductive addres := ADD_CONTINUE | ADD_NO_TOKEN | ADD_OTHER.

#[export] Instance addres_eq_dec : EqDecision addres.
Proof. solve_decision. Defined.

(** The adder: the fields the wrappers touch and the rest of the engine's state [E]. *)
Record adder {E : Type} := Adder {
  rem_chunk_tokens : option Z;
  can_run_list : list req;
  new_chunked_req : option req;
  a_dllm : bool;
  bypass_pass : bool;
  bypass_remaining : Z;
  bypass_candidate : bool;
  eng : E }.
Arguments adder : clear implicits.

Section Wrappers.
Context {E A : Type}.
Context (limit : Z).
(** The engine: a selection returns an admission of type [A] (chunked or not) or a
    refusal; [stock_add] runs one admission with the class's current selection. *)
Context (is_chunked : A -> bool).
Context (stock_select : adder E -> req -> A + addres).
Context (stock_add : (adder E -> req -> A + addres) -> adder E -> req -> bool -> Z -> adder E * res addres).
Context (ceil_paged_tokens : adder E -> Z -> Z).

Definition select (a : adder E) (r : req) : A + addres :=
  match stock_select a r with
  | inl adm => if bypass_candidate a && is_chunked adm then inr ADD_OTHER else inl adm
  | inr x => inr x
  end.

Definition set_chunk (a : adder E) (rem : option Z) (cand : bool) : adder E :=
  Adder E rem (can_run_list a) (new_chunked_req a) (a_dllm a) (bypass_pass a)
        (bypass_remaining a) cand (eng a).

Definition debit (a : adder E) (fresh : Z) : adder E :=
  Adder E (rem_chunk_tokens a) (can_run_list a) (new_chunked_req a) (a_dllm a) (bypass_pass a)
        (bypass_remaining a - fresh) (bypass_candidate a) (eng a).

(** [req is self.can_run_list[-1]], when the list is not empty. *)
Definition is_last (a : adder E) (r : req) : bool :=
  match last (can_run_list a) with Some x => q_oid x =? q_oid r | None => false end.

(** The [finally] block: the compute allowance is taken back, what the stock code charged stays. *)
Definition restore (a : adder E) (saved allowance : Z) (result : res addres) : adder E * res addres :=
  match rem_chunk_tokens a with
  | Some now => (set_chunk a (Some (saved - (allowance - now))) false, result)
  | None => (a, Raise TypeError)
  end.

Definition add (a : adder E) (r : req) (has_chunked_req : bool) (align : Z) : adder E * res addres :=
  match rem_chunk_tokens a with
  | Some saved =>
      if negb (bypass_pass a) || negb has_chunked_req then stock_add select a r has_chunked_req align
      else
        let fresh := fresh_tokens r in
        if negb ((0 <=? fresh) && (fresh <=? limit)) || a_dllm a || q_ignore_eos r then (a, Ok ADD_OTHER)
        else if bypass_remaining a <? fresh then (a, Ok ADD_OTHER)
        else
          let allowance := Z.max saved (ceil_paged_tokens a fresh) in
          let '(a1, result) := stock_add select (set_chunk a (Some allowance) true) r has_chunked_req align in
          let a2 := if is_ok result && is_last a1 r then debit a1 fresh else a1 in
          restore a2 saved allowance result
  | None => stock_add select a r has_chunked_req align
  end.

(** ** The candidate loop *)

(** The engine's part of one iteration: the checks before the request is prepared
    ([None] = break, [Some false] = continue), the preparation itself, and what
    follows the admission attempt ([added], and whether the anchored [break] is reached). *)
Context (pre : adder E -> req -> option bool).
Context (init_next_round_input init_chunked : req -> req).
Context (post : adder E -> req -> addres -> adder E * bool * bool).
Context (align : Z).

Record loop := Loop {
  l_adder : adder E;
  l_scanned : Z;
  l_inits : list req;           (* requests prepared so far *)
  l_batch_is_full : bool }.

(** [any(r is not _dsv41_long for r in adder.can_run_list)]. *)
Definition has_other (long : Z) (l : list req) : bool :=
  existsb (fun r => negb (q_oid r =? long)) l.

(** The loop over the waiting queue.  [solo = Some (resume, long)] when the solo
    patches are applied, [chunked] = [self.chunked_req is not None] at the call. *)
Fixpoint scan_loop (solo : option (bool * Z)) (scan chunked : bool) (scan_limit : Z)
    (st : loop) (queue : list req) : loop :=
  match queue with
  | [] => st
  | r0 :: rest =>
      match pre (l_adder st) r0 with
      | None => st
      | Some false => scan_loop solo scan chunked scan_limit st rest
      | Some true =>
          if match solo with
             | Some (resume, long) => resume || (scan && has_other long (can_run_list (l_adder st)))
             | None => false
             end then st
          else if scan && (scan_limit <=? l_scanned st) then st
          else
            let r := init_next_round_input r0 in
            let scanned := if scan then l_scanned st + 1 else l_scanned st in
            let st1 := Loop (l_adder st) scanned (l_inits st ++ [r]) (l_batch_is_full st) in
            if scan && negb ((0 <=? fresh_tokens r) && (fresh_tokens r <=? limit))
            then scan_loop solo scan chunked scan_limit st1 rest
            else
              let has_chunked := chunked || (bool_decide (is_Some solo) && scan) in
              let '(a1, result) := add (l_adder st) r has_chunked align in
              match result with
              | Raise _ => Loop a1 scanned (l_inits st ++ [r]) (l_batch_is_full st)
              | Ok x =>
                  let '(a2, added, brk) := post a1 r x in
                  let st2 := Loop a2 scanned (l_inits st ++ [r]) (l_batch_is_full st) in
                  if brk then
                    if scan && negb added && (scanned <? scan_limit)
                    then scan_loop solo scan chunked scan_limit
                           (Loop a2 scanned (l_inits st ++ [r]) false) rest
                    else st2
                  else scan_loop solo scan chunked scan_limit st2 rest
              end
      end
  end.

(** The adder as the pass hands it to the loop ([scan] already restricted to an in-flight chunk). *)
Definition start_pass (a : adder E) (scan : bool) : adder E :=
  Adder E (rem_chunk_tokens a) (can_run_list a) (new_chunked_req a) (a_dllm a)
        scan (if scan then limit else 0) (bypass_candidate a) (eng a).

(** ** What the stock admission promises

    It runs the selection it is given on the adder it was called with (compute cap
    and bypass fields included), appends at most the request it was called with,
    starts a chunked request only from a chunked admission that selection returned,
    and leaves the bypass fields to the wrappers. *)
Class StockLaws : Prop := {
  stock_fields sel a r h al a1 x :
    stock_add sel a r h al = (a1, x) ->
    bypass_pass a1 = bypass_pass a /\ bypass_remaining a1 = bypass_remaining a /\
    a_dllm a1 = a_dllm a /\ (is_Some (rem_chunk_tokens a) -> is_Some (rem_chunk_tokens a1));
  stock_appends sel a r h al a1 x :
    stock_add sel a r h al = (a1, x) ->
    can_run_list a1 = can_run_list a \/ (can_run_list a1 = can_run_list a ++ [r] /\ is_ok x = true);
  stock_chunks sel a r h al a1 x :
    stock_add sel a r h al = (a1, x) ->
    new_chunked_req a1 = new_chunked_req a \/
    exists a' adm, sel a' r = inl adm /\ is_chunked adm = true /\ bypass_candidate a' = bypass_candidate a;
  post_keeps a r x a2 added brk :
    post a r x = (a2, added, brk) ->
    can_run_list a2 = can_run_list a /\ new_chunked_req a2 = new_chunked_req a /\
    bypass_pass a2 = bypass_pass a /\ bypass_remaining a2 = bypass_remaining a /\
    a_dllm a2 = a_dllm a /\ rem_chunk_tokens a2 = rem_chunk_tokens a }.

Context {laws : StockLaws}.

(** What a scanning pass keeps, relative to the batch [base] and chunked request [ch] it started with. *)
Definition pass_inv (base : list req) (ch : option req) (a : adder E) : Prop :=
  exists new,
    can_run_list a = base ++ new /\
    Forall (fun r => 0 <= fresh_tokens r <= limit) new /\
    0 <= bypass_remaining a /\
    zsum (map fresh_tokens new) + bypass_remaining a <= limit /\
    new_chunked_req a = ch /\ bypass_pass a = true /\ is_Some (rem_chunk_tokens a).

(** The wrapped selection never hands a chunked admission to a bypass candidate. *)
Lemma select_never_chunked a r adm :
  select a r = inl adm -> bypass_candidate a = true -> is_chunked adm = false.
Proof.
  unfold select. intros H Hc. rewrite Hc in H. destruct (stock_select a r) as [x|]; [|done].
  destruct (is_chunked x) eqn:Ec; simplify_eq/=. done.
Qed.

(** One wrapped admission keeps the pass invariant, whatever the engine answers. *)
Lemma add_inv base ch a r al a1 x :
  pass_inv base ch a -> add a r true al = (a1, x) -> pass_inv base ch a1.
Proof.
  intros (new & Hrun & Hnew & Hrem & Hsum & Hch & Hpass & Hsome) Ha.
  destruct Hsome as [saved Hsaved]. unfold add in Ha. rewrite Hsaved, Hpass in Ha. simpl in Ha.
  destruct (_ || q_ignore_eos r) eqn:Eg; [simplify_eq; by exists new; eauto 10|].
  destruct (_ <? fresh_tokens r) eqn:Er; [simplify_eq; by exists new; eauto 10|].
  assert (Hf : 0 <= fresh_tokens r <= limit).
  { apply orb_false_iff in Eg as [Eg _]. apply orb_false_iff in Eg as [Eg _]. blia. }
  destruct (stock_add _ _ _ _ _) as [a0 x0] eqn:Es.
  destruct (stock_fields _ _ _ _ _ _ _ Es) as (Hp & Hb & Hd & Hs).
  destruct (Hs ltac:(eauto)) as [now Hnow]. simpl in Hp, Hb.
  destruct (stock_chunks _ _ _ _ _ _ _ Es) as [Hk | (a' & adm & Hsel & Hadm & Hcand)]; cycle 1.
  { simpl in Hcand. by rewrite (select_never_chunked _ _ _ Hsel Hcand) in Hadm. }
  simpl in Hk.
  assert (Hrest : forall d, d = a0 \/ d = debit a0 (fresh_tokens r) ->
            restore d saved (Z.max saved (ceil_paged_tokens a (fresh_tokens r))) x0 =
            (set_chunk d (Some (saved - (Z.max saved (ceil_paged_tokens a (fresh_tokens r)) - now))) false, x0)).
  { intros d [-> | ->]; unfold restore; simpl; by rewrite Hnow. }
  destruct (stock_appends _ _ _ _ _ _ _ Es) as [Hl | [Hl Hok]]; simpl in Hl.
  - (* nothing appended: at most an extra debit *)
    destruct (is_ok x0 && is_last a0 r); rewrite Hrest in Ha by auto; simplify_eq;
      exists new; simpl; repeat split; eauto; try congruence; rewrite Hb; lia.
  - (* appended: the debit pays for it *)
    assert (Hlast : is_last a0 r = true).
    { unfold is_last. rewrite Hl, last_snoc. apply Z.eqb_refl. }
    rewrite Hok, Hlast in Ha. simpl in Ha. rewrite Hrest in Ha by auto. simplify_eq.
    exists (new ++ [r]). simpl. rewrite Hl, Hrun, app_assoc, map_app, zsum_app. simpl.
    repeat split; eauto; try congruence; try (rewrite Hb; lia).
    by apply Forall_app; eauto.
Qed.

Lemma post_inv base ch a r x a2 added brk :
  pass_inv base ch a -> post a r x = (a2, added, brk) -> pass_inv base ch a2.
Proof.
  intros (new & H) Hp. destruct (post_keeps _ _ _ _ _ _ Hp) as (H1 & H2 & H3 & H4 & _ & H5).
  exists new. by rewrite H1, H2, H3, H4, H5.
Qed.

Lemma has_chunked_arg solo chunked :
  chunked = true \/ is_Some solo -> (chunked || (bool_decide (is_Some (A:=bool * Z) solo) && true)) = true.
Proof.
  intros [-> | Hs]; [done|]. rewrite bool_decide_eq_true_2 by done. by destruct chunked.
Qed.

Lemma scan_loop_inv solo chunked scan_limit base ch queue st :
  chunked = true \/ is_Some solo ->
  pass_inv base ch (l_adder st) ->
  zlen (l_inits st) = l_scanned st -> l_scanned st <= scan_limit ->
  let st' := scan_loop solo true chunked scan_limit st queue in
  pass_inv base ch (l_adder st') /\ zlen (l_inits st') <= scan_limit.
Proof.
  intros Hch. revert st.
  induction queue as [|r0 q IH]; intros s0 Hinv Hz Hle; simpl; [split; [done | lia]|].
  destruct (pre _ _) as [[]|]; [|by apply IH|split; [done | lia]].
  destruct (match solo with Some _ => _ | None => _ end); [split; [done | lia]|].
  destruct (scan_limit <=? l_scanned s0) eqn:El; [split; [done | lia]|].
  assert (Hz' : zlen (l_inits s0 ++ [init_next_round_input r0]) = l_scanned s0 + 1)
    by (rewrite zlen_app; unfold zlen at 2; simpl; lia).
  destruct (negb _); [apply IH; simpl; [done | done | lia]|].
  rewrite has_chunked_arg by done. destruct (add _ _ _ _) as [a1 x] eqn:Ea.
  pose proof (add_inv _ _ _ _ _ _ _ Hinv Ea) as Hinv1.
  destruct x as [x|]; [|simpl; split; [done | lia]].
  destruct (post _ _ _) as [[a2 added] brk] eqn:Ep.
  pose proof (post_inv _ _ _ _ _ _ _ _ Hinv1 Ep) as Hinv2.
  destruct brk; [destruct (_ && (_ <? _))|]; try (apply IH; simpl; [done | done | lia]).
  simpl. split; [done | lia].
Qed.

Lemma start_pass_inv a :
  0 <= limit -> is_Some (rem_chunk_tokens a) ->
  pass_inv (can_run_list a) (new_chunked_req a) (start_pass a true).
Proof.
  intros Hl Hrem. exists []. unfold start_pass. simpl. rewrite app_nil_r. repeat split; try done; lia.
Qed.

(** C25: in one scanning pass, whatever the engine admits or refuses, the requests the
    pass adds beside the chunk have at most [limit] fresh tokens each and together, no
    second chunked request is started, and at most [scan_limit] candidates are prepared. *)
Theorem scan_pass_bounded solo chunked scan_limit queue a :
  0 <= limit -> 0 <= scan_limit -> is_Some (rem_chunk_tokens a) ->
  chunked = true \/ is_Some solo ->
  let st := scan_loop solo true chunked scan_limit (Loop (start_pass a true) 0 [] false) queue in
  exists new,
    can_run_list (l_adder st) = can_run_list a ++ new /\
    Forall (fun r => 0 <= fresh_tokens r <= limit) new /\
    zsum (map fresh_tokens new) <= limit /\
    new_chunked_req (l_adder st) = new_chunked_req a /\
    zlen (l_inits st) <= scan_limit.
Proof.
  intros Hl Hs Hrem Hch st.
  destruct (scan_loop_inv solo chunked scan_limit _ _ queue (Loop (start_pass a true) 0 [] false)
              Hch (start_pass_inv a Hl Hrem) eq_refl Hs) as [(new & H1 & H2 & H3 & H4 & H5 & _) Hi].
  exists new. repeat split; try done. lia.
Qed.

(** ** Solo passes *)

(** The scheduler between passes: the chunked request in flight and its parked mark. *)
Record flight := Flight { f_long : option req; f_parked : bool }.

Record pass_out := PassOut {
  o_batch : list req;
  o_flight : flight;
  o_solo : bool;
  o_receipts : list (string * req * list req) }.

(** The engine's chunk admission ([Some] = the request stays chunked after this pass), and
    what it makes of the chunked request after the candidate loop. *)
Context (add_chunked_req : adder E -> req -> adder E * option req).
Context (after_loop : adder E -> option req -> option req).

Definition set_extend_range (r : req) (lo hi : Z) : req :=
  Req (q_oid r) (q_fill_len r) (q_prefix_len r) (q_ignore_eos r) (lo, hi).

Definition oid_of (long : option req) : Z := from_option q_oid (-1) long.

(** One scheduling pass of the patched method, solo patches applied. *)
Definition solo_pass (bypass : bool) (scan_limit : Z) (f : flight) (a0 : adder E) (queue : list req) : pass_out :=
  let long := init_chunked <$> f_long f in
  let resume := bool_decide (is_Some long) && f_parked f in
  let '(a1, ch1) := match long with
                    | Some r => add_chunked_req a0 r
                    | None => (a0, None)
                    end in
  let scan := bypass && bool_decide (is_Some long) && negb resume in
  let st := scan_loop (Some (resume, oid_of long)) scan (bool_decide (is_Some ch1)) scan_limit
                      (Loop (start_pass a1 scan) 0 [] false) queue in
  let a2 := l_adder st in
  let receipt := match long with
                 | Some r => if resume then [("resume", r, can_run_list a2)] else []
                 | None => []
                 end in
  match long with
  | Some r =>
      if scan && negb (bool_decide (is_Some (new_chunked_req a2))) && has_other (q_oid r) (can_run_list a2)
      then
        let batch := filter (fun x => q_oid x <> q_oid r) (can_run_list a2) in
        let parked := set_extend_range r (q_prefix_len r) (q_prefix_len r) in
        PassOut batch (Flight (Some parked) true) true (receipt ++ [("pass", parked, batch)])
      else PassOut (can_run_list a2) (Flight (after_loop a2 ch1) false) false receipt
  | None => PassOut (can_run_list a2) (Flight (after_loop a2 ch1) false) false receipt
  end.

(** A resume pass admits nothing from the queue. *)
Lemma scan_loop_resume long scan chunked scan_limit queue st :
  l_adder (scan_loop (Some (true, long)) scan chunked scan_limit st queue) = l_adder st.
Proof.
  revert st. induction queue as [|r q IH]; intros st; simpl; [done|].
  destruct (pre _ _) as [[]|]; [done | apply IH | done].
Qed.

Lemma add_appends a r h al a1 x :
  add a r h al = (a1, x) ->
  can_run_list a1 = can_run_list a \/ can_run_list a1 = can_run_list a ++ [r].
Proof.
  unfold add, restore. intros H.
  repeat case_match; simplify_eq/=; auto;
    match goal with
    | Hs : stock_add _ _ _ _ _ = _ |- _ => apply stock_appends in Hs as [Hs | [Hs _]]; simpl in *; auto
    end.
Qed.

(** A solo scan stops at the first request it admits beside the long one. *)
Lemma scan_loop_one long chunked scan_limit queue st :
  Forall (fun r => q_oid (init_next_round_input r) <> long) queue ->
  has_other long (can_run_list (l_adder st)) = false ->
  let a' := l_adder (scan_loop (Some (false, long)) true chunked scan_limit st queue) in
  can_run_list a' = can_run_list (l_adder st) \/
  exists r, can_run_list a' = can_run_list (l_adder st) ++ [r] /\ q_oid r <> long.
Proof.
  intros Hq. revert st. induction Hq as [|r0 q Hr0 Hq IH]; intros st Hno; simpl; [by left|].
  destruct (pre _ _) as [[]|]; [|by apply IH|by left].
  rewrite Hno. simpl. destruct (scan_limit <=? _); [by left|].
  destruct (negb _); [by apply (IH (Loop _ _ _ _))|].
  destruct (add _ _ _ _) as [a1 x] eqn:Ea. apply add_appends in Ea as Hcases.
  assert (Hstop : forall a2 c s i b, can_run_list a2 = can_run_list (l_adder st) ++ [init_next_round_input r0] ->
            l_adder (scan_loop (Some (false, long)) true c scan_limit (Loop a2 s i b) q) = a2).
  { intros a2 c s i b Hl. clear - Hl Hr0. induction q as [|r1 q IHq]; simpl; [done|].
    destruct (pre _ _) as [[]|]; [|done|done].
    unfold has_other. rewrite Hl, existsb_app. simpl.
    destruct (Z.eqb_spec (q_oid (init_next_round_input r0)) long); [done|].
    simpl. by rewrite orb_true_r. }
  destruct x as [x|]; [|simpl; destruct Hcases as [-> | ->]; [by left | right; eauto]].
  destruct (post _ _ _) as [[a2 added] brk] eqn:Ep.
  destruct (post_keeps _ _ _ _ _ _ Ep) as (Hpl & _).
  destruct Hcases as [Hl | Hl]; rewrite <- Hpl in Hl.
  - destruct brk; [destruct (_ && (_ <? _))|]; try (simpl; by left);
      rewrite <- Hl; apply (IH (Loop _ _ _ _)); simpl; by rewrite Hl.
  - right. exists (init_next_round_input r0). split; [|done].
    destruct brk; [destruct (_ && (_ <? _))|]; simpl; try rewrite Hstop by done; done.
Qed.

(** What the proofs need of the chunk admission: it puts the long request, alone, into the batch. *)
Definition chunk_alone : Prop :=
  forall a r, can_run_list a = [] -> new_chunked_req a = None ->
    let '(a1, _) := add_chunked_req a r in
    can_run_list a1 = [r] /\ new_chunked_req a1 = None /\ is_Some (rem_chunk_tokens a1).

(** A solo pass runs exactly one short request of at most [limit] fresh tokens and
    parks the long prompt with its prefix unchanged and nothing to compute; the pass
    after it runs the long prompt alone and is never a solo pass. *)
Theorem solo_pass_alternates bypass scan_limit r parked a0 queue :
  0 <= limit -> 0 <= scan_limit -> chunk_alone ->
  (forall x, q_oid (init_next_round_input x) = q_oid x /\ q_oid (init_chunked x) = q_oid x) ->
  Forall (fun x => q_oid x <> q_oid r) queue ->
  can_run_list a0 = [] -> new_chunked_req a0 = None ->
  let o := solo_pass bypass scan_limit (Flight (Some r) parked) a0 queue in
  let long := init_chunked r in
  (o_solo o = true ->
     parked = false /\
     (exists s, o_batch o = [s] /\ q_oid s <> q_oid r /\ 0 <= fresh_tokens s <= limit) /\
     o_flight o = Flight (Some (set_extend_range long (q_prefix_len long) (q_prefix_len long))) true) /\
  (o_solo o = false -> f_parked (o_flight o) = false) /\
  (parked = true -> o_solo o = false /\ o_batch o = [long]).
Proof.
  intros Hl Hs Halone Hinit Hq Hrun Hnew o long.
  subst o long. unfold solo_pass. cbn [f_long f_parked fmap option_fmap option_map].
  set (long := init_chunked r) in *.
  rewrite bool_decide_eq_true_2 by eauto.
  pose proof (Halone a0 long Hrun Hnew) as Ha.
  destruct (add_chunked_req a0 long) as [a1 ch1]. destruct Ha as (Hl1 & Hn1 & Hs1).
  cbn [oid_of from_option].
  destruct parked.
  - rewrite andb_true_r, andb_false_r. simpl.
    rewrite scan_loop_resume. simpl. rewrite Hl1. done.
  - rewrite !andb_true_r. simpl. destruct bypass; simpl; [|done].
    set (st := scan_loop _ _ _ _ _ _).
    assert (Hno : has_other (q_oid long) (can_run_list (start_pass a1 true)) = false).
    { simpl. rewrite Hl1. simpl. by rewrite Z.eqb_refl. }
    assert (Hq' : Forall (fun x => q_oid (init_next_round_input x) <> q_oid long) queue).
    { eapply Forall_impl; [exact Hq|]. intros x Hx. subst long. destruct (Hinit x) as [-> _], (Hinit r) as [_ ->]. done. }
    destruct (scan_loop_inv (Some (false, q_oid long)) (bool_decide (is_Some ch1)) scan_limit _ _ queue
                (Loop (start_pass a1 true) 0 [] false) ltac:(by right; eauto)
                (start_pass_inv a1 Hl Hs1) eq_refl Hs) as [(new & H1 & H2 & _ & _ & H5 & _) _].
    fold st in H1, H5. rewrite Hl1 in H1.
    destruct (scan_loop_one (q_oid long) (bool_decide (is_Some ch1)) scan_limit queue
                (Loop (start_pass a1 true) 0 [] false) Hq' Hno) as [He | (s & He & Hsne)];
      fold st in He; simpl in He; rewrite Hl1 in He; rewrite He, H5, Hn1; simpl.
    + by rewrite Z.eqb_refl.
    + rewrite Z.eqb_refl. simpl. destruct (Z.eqb_spec (q_oid s) (q_oid long)) as [?|_]; [done|]. simpl.
      split; [|done]. intros _. split; [done|]. split; [|done].
      exists s. rewrite filter_cons_False by auto. rewrite filter_cons_True by done.
      split; [done|]. split; [by rewrite <- (proj2 (Hinit r))|].
      rewrite H1 in He. simplify_eq/=. by inversion H2.
Qed.
End Wrappers.

(** ** Installation *)

Definition EXPECTED : list (string * string * string) :=
  [("Scheduler", "_get_new_batch_prefill_raw", "ae3ddfd38cb63fee43f60bf74547775264e4e84133abc1397cf4114aa3b05ad8");
   ("PrefillAdder", "add_one_req", "295e9ee92ec08f94f87172b8d19ca87d334984b0e8d2b2fecba3b5931cbed029");
   ("PrefillAdder", "_select_prefill_admission", "db7911061639e616823383f60fd98521d0413c0451ebd984efaa8f19ae3297d7");
   ("PrefillAdder", "_check_prefill_budget", "32b96fca7c3461b369252e009e9dfc6aa47086a4db288d598c000cffa0c87a00");
   ("PrefillAdder", "_update_prefill_budget", "6e80465b0c76523d6d9ee5d6cd4ea57aa77b004efac33323b63ef7f52e476b89");
   ("PrefillAdder", "budget_state", "e4ef5cbf61b5b550f217b41d3ddd8bc795be5dcfd8cfcc5c3db0243890217eb2");
   ("PrefillAdder", "_commit_prefill_admission", "6e19326288ee6ea8dbd31a19714f492f231bf8a633fb085fb709333041e0a62c");
   ("PrefillAdder", "ceil_paged_tokens", "8d9f6ef01a316bda6dcb05898be904cd6833eaf58d0a0b8782b8c93f5bdf148a");
   ("PrefillAdder", "add_chunked_req", "00749cfd08136f1d4bb2b5f6d415efc50dcb3d443a87d11c5162c704ca20b743")].

Inductive outcome :=
  | NotRequested
  | RefusedLimit
  | RefusedScan
  | RefusedSolo
  | AlreadyInstalled
  | RefusedDrift (e : exn)
  | Armed (limit scan_limit : Z) (solo : bool) (source : string).

(** A positive integer setting. *)
Definition positive_int (raw : string) : option Z :=
  match py_int raw with
  | Ok n => if n <=? 0 then None else Some n
  | Raise _ => None
  end.

(** Source fragments: [text] joins lines with newlines, [dq] is the double quote. *)
Definition nl : string := String (Ascii.ascii_of_nat 10) EmptyString.
Definition dq : string := String (Ascii.ascii_of_nat 34) EmptyString.
Definition text (lines : list string) : string := String.concat nl lines.

(** The anchored rewrites of the candidate loop. *)
Definition patches : list (string * string) :=
  [(text ["    # Check if the grammar is ready in the grammar queue";
      ""],
    text ["    _dsv41_scan = _dsv41_bypass_active(self)";
      "    # Check if the grammar is ready in the grammar queue";
      ""]);
   (text ["        self.chunked_req = adder.add_chunked_req(self.chunked_req)";
      "";
      "    if self.enable_lora:";
      ""],
    text ["        self.chunked_req = adder.add_chunked_req(self.chunked_req)";
      "";
      "    # Bypass only while the chunk remains in flight. A final chunk uses";
      "    # the stock residual compute budget for ordinary queue admission.";
      "    _dsv41_scan = _dsv41_scan and self.chunked_req is not None";
      "    adder._dsv41_bypass_pass = _dsv41_scan";
      "    adder._dsv41_bypass_remaining = _dsv41_limit if _dsv41_scan else 0";
      "";
      "    if self.enable_lora:";
      ""]);
   (text ["    # Get requests from the waiting queue to a new prefill batch";
      "    for req in self.waiting_queue:";
      ""],
    text ["    # Get requests from the waiting queue to a new prefill batch";
      "    _dsv41_bypass_scanned = 0";
      "    for req in self.waiting_queue:";
      ""]);
   (text ["        req.init_next_round_input(self.tree_cache)";
      ""],
    text ["        if _dsv41_scan and _dsv41_bypass_scanned >= _dsv41_scan_limit:";
      "            break";
      "        req.init_next_round_input(self.tree_cache)";
      "        if _dsv41_scan:";
      "            _dsv41_bypass_scanned += 1";
      "            if not (0 <= _dsv41_fresh_tokens(req) <= _dsv41_limit):";
      "                continue";
      ""]);
   (text ["            break";
      "";
      "    if mamba_allocator is not None:"],
    text ["            if (_dsv41_scan and not added";
      "                    and _dsv41_bypass_scanned < _dsv41_scan_limit):";
      "                running_batch.batch_is_full = False";
      "                continue";
      "            break";
      "";
      "    if mamba_allocator is not None:"])].

(** The rewrites of the solo passes, applied after them. *)
Definition SOLO_PATCHES : list (string * string) :=
  [(text ["    if self.chunked_req is not None:";
      "        self.chunked_req.init_next_round_input()";
      ""],
    text ["    # Solo short pass: the long prompt in flight before this pass, and";
      "    # whether the previous pass parked it (then it runs now, alone).";
      "    _dsv41_long = self.chunked_req";
      "    _dsv41_resume = _dsv41_long is not None and getattr(_dsv41_long, " +:+ dq +:+ "_dsv41_solo_parked" +:+ dq +:+ ", False)";
      "    _dsv41_solo_pass = False";
      "    if _dsv41_long is not None:";
      "        _dsv41_long._dsv41_solo_parked = False";
      "    if self.chunked_req is not None:";
      "        self.chunked_req.init_next_round_input()";
      ""]);
   (text ["    _dsv41_scan = _dsv41_scan and self.chunked_req is not None";
      ""],
    text ["    # Solo: also scan beside a final chunk (it is parked like any other), never";
      "    # in the pass that resumes a parked long prompt.";
      "    _dsv41_scan = _dsv41_scan and _dsv41_long is not None and not _dsv41_resume";
      ""]);
   (text ["        if _dsv41_scan and _dsv41_bypass_scanned >= _dsv41_scan_limit:";
      ""],
    text ["        if _dsv41_resume or (_dsv41_scan and any(r is not _dsv41_long for r in adder.can_run_list)):";
      "            # resume pass: the long prompt alone; solo pass: one short request";
      "            break";
      "        if _dsv41_scan and _dsv41_bypass_scanned >= _dsv41_scan_limit:";
      ""]);
   (text ["            has_chunked_req=(self.chunked_req is not None),";
      ""],
    text ["            has_chunked_req=(self.chunked_req is not None or bool(_dsv41_scan)),";
      ""]);
   (text ["    # Update waiting queue";
      ""],
    text ["    if _dsv41_resume:";
      "        _dsv41_solo_receipt(" +:+ dq +:+ "resume" +:+ dq +:+ ", _dsv41_long, adder.can_run_list)";
      "    if (_dsv41_long is not None and _dsv41_scan and adder.new_chunked_req is None";
      "            and any(r is not _dsv41_long for r in adder.can_run_list)):";
      "        # Park the long prompt for this pass: drop it from the batch, leave";
      "        # its extend range empty (nothing new to stash, the next pass rebuilds";
      "        # the same chunk from the same prefix), keep it as the chunked request.";
      "        adder.can_run_list = [r for r in adder.can_run_list if r is not _dsv41_long]";
      "        _dsv41_long.set_extend_range(len(_dsv41_long.prefix_indices), len(_dsv41_long.prefix_indices))";
      "        _dsv41_long._dsv41_solo_parked = True";
      "        self.chunked_req = _dsv41_long";
      "        _dsv41_solo_pass = True";
      "        _dsv41_solo_receipt(" +:+ dq +:+ "pass" +:+ dq +:+ ", _dsv41_long, adder.can_run_list)";
      "";
      "    # Update waiting queue";
      ""]);
   (text ["    if self.chunked_req is not None:";
      "        self.chunked_req.inflight_middle_chunks += 1";
      ""],
    text ["    if self.chunked_req is not None and not _dsv41_solo_pass:";
      "        self.chunked_req.inflight_middle_chunks += 1";
      ""]);
   (text ["        chunked_req=self.chunked_req,";
      "    )";
      "";
      "    new_batch.contains_last_prefill_chunk = (";
      "        self.chunked_req is None or len(can_run_list) != 1";
      "    )";
      ""],
    text ["        chunked_req=None if _dsv41_solo_pass else self.chunked_req,";
      "    )";
      "";
      "    new_batch.contains_last_prefill_chunk = (";
      "        _dsv41_solo_pass or self.chunked_req is None or len(can_run_list) != 1";
      "    )";
      ""])].

Section Install.
(** The engine's (dedented) source text of a method, its sha256, and whether the
    patched source compiles ([SyntaxError] otherwise, reported as [ValueError] here). *)
Context (source_of : string -> string -> res string) (sha256 : string -> string)
        (compiles : string -> bool) (already : bool).

Definition check_source (pin : string * string * string) : res string :=
  let '(owner, name, digest) := pin in
  src ← source_of owner name;
  if String.eqb (sha256 src) digest then Ok src else Raise ValueError.

Definition apply_solo (source : string) : res string := apply_patches SOLO_PATCHES source.

Definition install (env : environ) : res outcome :=
  let raw := strip (default "" (env "DSV41_PREFILL_BYPASS")) in
  if String.eqb raw "" then Ok NotRequested
  else match positive_int raw with
  | None => Ok RefusedLimit
  | Some lim =>
      match positive_int (strip (env_get env "DSV41_PREFILL_BYPASS_SCAN" "32")) with
      | None => Ok RefusedScan
      | Some scan =>
          match solo_requested env with
          | None => Ok RefusedSolo
          | Some solo =>
              if already then Ok AlreadyInstalled
              else
                let attempt :=
                  sources ← mapR check_source EXPECTED;
                  patched ← apply_patches patches (default "" (head sources));
                  patched' ← (if solo then apply_solo patched else Ok patched);
                  if compiles patched' then Ok patched' else Raise ValueError in
                match attempt with
                | Ok src => Ok (Armed lim scan solo src)
                | Raise e => if bool_decide (e ∈ [AttributeError; TypeError; IOError; ValueError])
                             then Ok (RefusedDrift e) else Raise e
                end
          end
      end
  end.
End Install.

(** ** A concrete engine for the witnesses: memory in tokens, admissions chunked when it runs short *)
Module Toy.
Definition toy_select (a : adder Z) (r : req) : bool + addres :=
  if fresh_tokens r <=? eng a then inl false
  else if 0 <? eng a then inl true else inr ADD_NO_TOKEN.

Definition toy_add (sel : adder Z -> req -> bool + addres) (a : adder Z) (r : req) (has : bool) (al : Z)
  : adder Z * res addres :=
  match sel a r with
  | inl chunked =>
      (Adder Z ((fun x => x - fresh_tokens r) <$> rem_chunk_tokens a) (can_run_list a ++ [r])
             (if chunked then Some r else new_chunked_req a) (a_dllm a) (bypass_pass a)
             (bypass_remaining a) (bypass_candidate a) (eng a - fresh_tokens r), Ok ADD_CONTINUE)
  | inr x => (a, Ok x)
  end.

Definition toy_post (a : adder Z) (r : req) (x : addres) : adder Z * bool * bool :=
  (a, bool_decide (x = ADD_CONTINUE), negb (bool_decide (x = ADD_CONTINUE))).

Definition toy_chunk (a : adder Z) (r : req) : adder Z * option req :=
  (Adder Z (Some 0) (can_run_list a ++ [r]) (new_chunked_req a) (a_dllm a) (bypass_pass a)
         (bypass_remaining a) (bypass_candidate a) (eng a - 8192), Some r).

Lemma toy_laws : StockLaws (fun b : bool => b) toy_add toy_post.
Proof.
  split.
  - intros sel a r h al a1 x. unfold toy_add.
    destruct (sel a r); intros [= <- <-]; simpl; repeat split; try done.
    intros [z ->]. simpl. eauto.
  - intros sel a r h al a1 x. unfold toy_add. destruct (sel a r); intros [= <- <-]; simpl; auto.
  - intros sel a r h al a1 x. unfold toy_add. destruct (sel a r) as [[]|] eqn:E; intros [= <- <-]; simpl; eauto 10.
  - intros a r x a2 added brk. unfold toy_post. by intros [= <- <- <-].
Qed.

Definition long : req := Req 1 100000 16384 false (16384, 24576).
Definition short k n : req := Req k (n + 64) 64 false (0, 0).
Definition queue : list req := [short 2 100; short 3 500; short 4 150; short 5 90].
Definition adder0 : adder Z := Adder Z (Some 0) [] None false false 0 false 100000.
Definition limit : Z := 256.
Definition pass := solo_pass limit (fun b : bool => b) toy_select toy_add (fun _ n => (n + 255) / 256 * 256)
                             (fun _ _ => Some true) (fun r => r) (fun r => r) toy_post 1
                             toy_chunk (fun _ c => c) true 32.
End Toy.

Lemma scan_pass_bounded_witness :
  let st := scan_loop Toy.limit (fun b : bool => b) Toy.toy_select Toy.toy_add (fun _ n => (n + 255) / 256 * 256)
              (fun _ _ => Some true) (fun r => r) Toy.toy_post 1 None true true 32
              (Loop (start_pass Toy.limit Toy.adder0 true) 0 [] false) Toy.queue in
  map q_oid (can_run_list (l_adder st)) = [2; 4] /\
  exists new, can_run_list (l_adder st) = [] ++ new /\ zsum (map fresh_tokens new) <= 256.
Proof.
  intros st. split; [vm_compute; reflexivity|].
  destruct (@scan_pass_bounded Z bool Toy.limit (fun b : bool => b) Toy.toy_select Toy.toy_add
              (fun _ n => (n + 255) / 256 * 256) (fun _ _ => Some true) (fun r => r) Toy.toy_post 1
              Toy.toy_laws None true 32 Toy.queue Toy.adder0
              ltac:(vm_compute; discriminate) ltac:(vm_compute; discriminate) ltac:(vm_compute; eauto)
              ltac:(left; reflexivity)) as (new & H1 & _ & H2 & _).
  exists new. split; [exact H1 | exact H2].
Defined.

Lemma solo_pass_alternates_witness :
  let o1 := Toy.pass (Flight (Some Toy.long) false) Toy.adder0 Toy.queue in
  o_solo o1 = true /\ map q_oid (o_batch o1) = [2] /\ f_parked (o_flight o1) = true /\
  o_batch (Toy.pass (o_flight o1) Toy.adder0 Toy.queue) =
    [set_extend_range Toy.long 16384 16384].
Proof.
  intros o1. split; [vm_compute; reflexivity|]. split; [vm_compute; reflexivity|].
  split; [vm_compute; reflexivity|].
  refine (proj2 (proj2 (proj2 (@solo_pass_alternates Z bool Toy.limit (fun b : bool => b) Toy.toy_select
            Toy.toy_add (fun _ n => (n + 255) / 256 * 256) (fun _ _ => Some true) (fun r => r) (fun r => r)
            Toy.toy_post 1 Toy.toy_laws Toy.toy_chunk (fun _ c => c) true 32
            (set_extend_range Toy.long 16384 16384) true Toy.adder0 Toy.queue
            _ _ _ _ _ _ _)) eq_refl)).
  - vm_compute; discriminate.
  - vm_compute; discriminate.
  - intros a r H1 H2. simpl. rewrite H1, H2. repeat split; eauto.
  - intros x; split; reflexivity.
  - repeat constructor; vm_compute; discriminate.
  - reflexivity.
  - reflexivity.
Defined.
