(* ===== verification/LoopAbort.v ===== *)
(** * Loop abort (adapter/loop_abort.py)

    A request whose output cycles is finished early: the settings, the three
    detectors (identical tokens, n-gram cycle, repeated line) and the wrapper of
    [Req.update_finish_state].  Token ids are integers; the tokenizer is an argument. *)
From Stdlib Require Import Ascii.
From S2P Require Import Prelude PyStr.
#[local] Open Scope string_scope.
#[local] Open Scope list_scope.
#[local] Open Scope Z_scope.

Definition LINE_WINDOW_TOKENS : Z := 512.
Definition MATCHED_STOP : string := "repetition".
Definition ERR_TYPE : string := "loop_abort".

(** ** Settings *)

Record config := Config {
  abort : Z; ngram : Z; ngram_max : Z; repeats : Z; identical : Z;
  line_repeats : Z; line_min : Z; named_exit : bool; enabled : bool }.

Definition env_int (env : environ) (name : string) (dflt : Z) : Z :=
  match env name with
  | None => dflt
  | Some raw => if String.eqb (strip raw) "" then dflt
                else match py_int (strip raw) with Ok z => z | Raise _ => dflt end
  end.

Definition load_config (env : environ) : config :=
  let abort := env_int env "DSV41_LOOP_ABORT" 1 in
  let ngram := env_int env "DSV41_LOOP_NGRAM" 32 in
  let ngram_max := env_int env "DSV41_LOOP_NGRAM_MAX" 256 in
  let repeats := env_int env "DSV41_LOOP_REPEATS" 4 in
  let identical := env_int env "DSV41_LOOP_IDENTICAL" 64 in
  let line_repeats := env_int env "DSV41_LOOP_LINE_REPEATS" 8 in
  let line_min := env_int env "DSV41_LOOP_LINE_MIN" 16 in
  let named_exit := env_int env "DSV41_LOOP_NAMED_EXIT" 1 in
  let ngram_max := if ngram_max <? ngram then ngram else ngram_max in
  let ngram_on := (0 <? ngram) && (0 <? repeats) in
  Config abort ngram ngram_max repeats identical line_repeats line_min (0 <? named_exit)
         ((0 <? abort) && (ngram_on || (0 <? identical) || (0 <? line_repeats))).

(** ** Repeated lines *)

(** ASCII line boundaries of [str.splitlines]. *)
Definition is_newline (c : ascii) : bool :=
  let n := nat_of_ascii c in
  (Nat.leb 10 n && Nat.leb n 13) || (Nat.leb 28 n && Nat.leb n 30).

(** [text.splitlines()]; [cur] is the line being read, [None] right after a boundary.
    A carriage return followed by a line feed is one boundary. *)
Fixpoint splitlines (cur : option string) (after_cr : bool) (s : string) : list string :=
  match s with
  | "" => match cur with Some l => [l] | None => [] end
  | String c s' =>
      if after_cr && Nat.eqb (nat_of_ascii c) 10 then splitlines cur false s'
      else if is_newline c
      then default "" cur :: splitlines None (Nat.eqb (nat_of_ascii c) 13) s'
      else splitlines (Some (default "" cur +:+ String c "")) false s'
  end.

Definition repeated_line_suffix (text : string) (repeats min_chars : Z) : bool :=
  if String.eqb text "" || (repeats <=? 0) || (min_chars <=? 0) then false
  else
    let lines := map rstrip (List.filter (fun ln => negb (String.eqb (strip ln) "")) (splitlines None false text)) in
    if zlen lines <? repeats then false
    else match last lines with
         | None => false
         | Some l => if Z.of_nat (String.length l) <? min_chars then false
                     else forallb (String.eqb l) (py_last lines repeats)
         end.

(** ** Repetition *)

Inductive art := Identical | Ngram | Line.

(** The [while] loop: how many trailing elements equal the last one. *)
Fixpoint run_while (last : Z) (rev_ids : list Z) : Z :=
  match rev_ids with
  | [] => 0
  | x :: l => if x =? last then 1 + run_while last l else 0
  end.

Definition trailing_run (ids : list Z) : Z :=
  match rev ids with
  | [] => 0
  | last :: before => 1 + run_while last before
  end.

(** [ids[start:end] == unit] for [r] in [range(1, repeats)]. *)
Definition unit_repeats (ids : list Z) (repeats period : Z) : bool :=
  let n := zlen ids in
  let unit := py_last ids period in
  forallb (fun r => bool_decide (py_slice ids (n - (r + 1) * period) (n - r * period) = unit))
          (zrange 1 repeats).

(** The first period of [range(ngram, max_p + 1)] that repeats. *)
Definition find_period (ids : list Z) (cfg : config) : option Z :=
  let max_p := Z.min (ngram_max cfg) (zlen ids / repeats cfg) in
  find (unit_repeats ids (repeats cfg)) (zrange (ngram cfg) (max_p + 1)).

(** [Some (art, finished_len, period)] or [None]. *)
Definition detect_repetition_detail (ids : list Z) (text : option string) (cfg : config)
  : option (art * Z * Z) :=
  let n := zlen ids in
  if negb (enabled cfg) then None
  else if n =? 0 then None
  else
    let run := trailing_run ids in
    if (0 <? identical cfg) && (identical cfg <=? n) && (identical cfg <=? run)
    then Some (Identical, n - run + 1, 1)
    else
      match (if (0 <? ngram cfg) && (0 <? repeats cfg) then find_period ids cfg else None) with
      | Some period => Some (Ngram, n - (repeats cfg - 1) * period, period)
      | None =>
          match text with
          | Some t => if repeated_line_suffix t (line_repeats cfg) (line_min cfg)
                      then Some (Line, n, 0) else None
          | None => None
          end
      end.

Definition detect_repetition (ids : list Z) (text : option string) (cfg : config)
  : option (string * Z) :=
  match detect_repetition_detail ids text cfg with
  | None => None
  | Some (_, kept, _) => Some (MATCHED_STOP, kept)
  end.

(** ** The wrapper *)

Inductive finish :=
  | FinishAbort (a : art) (period output_tokens kept status : Z)
  | FinishMatchedStr (matched : string)
  | FinishOther (tag : Z).

Record req := Req {
  output_ids : list Z;
  finished_reason : option finish;
  finished_len : option Z;
  has_tokenizer : bool }.

Section Wrapper.
(** The engine's own finish check and [req.finished()], and the tokenizer's decoding of the
    last ids ([Raise] when it fails). *)
Context (original : req -> Z -> req) (finished : req -> bool) (decode : list Z -> res string).
Context (cfg : config) (abort_available : bool).

Definition decode_tail (r : req) : option string :=
  if negb (has_tokenizer r) || bool_decide (output_ids r = []) then None
  else match decode (py_last (output_ids r) LINE_WINDOW_TOKENS) with
       | Ok t => Some t
       | Raise _ => None
       end.

Definition update_finish_state (r0 : req) (new_accepted_len : Z) : req :=
  let r := original r0 new_accepted_len in
  if finished r then r
  else
    let text := if 0 <? line_repeats cfg then decode_tail r else None in
    match detect_repetition_detail (output_ids r) text cfg with
    | None => r
    | Some (a, kept, period) =>
        Req (output_ids r)
            (Some (if named_exit cfg && abort_available
                   then FinishAbort a period (zlen (output_ids r)) kept 500
                   else FinishMatchedStr MATCHED_STOP))
            (Some kept) (has_tokenizer r)
    end.
End Wrapper.

Definition default_config : config := load_config (fun _ => None).

Example cycle_32 :
  detect_repetition_detail (7 :: concat (replicate 4 (zrange 0 32))) None default_config
  = Some (Ngram, 33, 32).
Proof. vm_compute. reflexivity. Qed.
Example lines_crlf : splitlines None false ("a" +:+ String (ascii_of_nat 13) (String (ascii_of_nat 10) "b"))
  = ["a"; "b"].
Proof. reflexivity. Qed.

(** ** Lemmas *)

Lemma run_while_spec last l :
  exists k, run_while last l = Z.of_nat k /\ (k <= length l)%nat /\
    take k l = replicate k last /\ (forall x, l !! k = Some x -> x <> last).
Proof.
  induction l as [|x l IH]; simpl; [by exists 0%nat|].
  destruct (Z.eqb_spec x last) as [->|Hne].
  - destruct IH as (k & -> & Hk & Ht & Hn). exists (S k). simpl. rewrite Ht.
    split; [lia|]. split; [lia|]. done.
  - exists 0%nat. simpl. split; [done|]. split; [lia|]. split; [done|]. intros y [= <-]. done.
Qed.

(** The trailing run: the list ends in [k] copies of one token, and no more. *)
Lemma trailing_run_spec ids :
  ids <> [] ->
  exists pre x k, ids = pre ++ replicate k x /\ (0 < k)%nat /\
    trailing_run ids = Z.of_nat k /\ last pre <> Some x.
Proof.
  intros Hne. unfold trailing_run. destruct (rev ids) as [|x l] eqn:E.
  { destruct Hne. rewrite <- (rev_involutive ids), E. done. }
  destruct (run_while_spec x l) as (k & -> & Hk & Ht & Hn).
  exists (rev (drop k l)), x, (S k). split; [|split; [lia|split; [lia|]]].
  - rewrite <- (rev_involutive ids), E. simpl.
    rewrite <- (take_drop k l) at 1. rewrite rev_app_distr, Ht, <- app_assoc. f_equal.
    rewrite (rev_alt (replicate k x)). fold (reverse (replicate k x)). rewrite reverse_replicate.
    change [x] with (replicate 1 x). by rewrite <- replicate_add, Nat.add_comm.
  - rewrite rev_alt. fold (reverse (drop k l)). rewrite last_reverse, head_lookup, lookup_drop, Nat.add_0_r.
    intros Hx. by eapply Hn.
Qed.

(** The block of length [p] that ends [r * p] elements before the end. *)
Definition block (ids : list Z) (p r : nat) : list Z :=
  take p (drop (length ids - (r + 1) * p) ids).

Lemma drop_blocks ids p R :
  (R * p <= length ids)%nat -> (forall r, (r < R)%nat -> block ids p r = block ids p 0) ->
  drop (length ids - R * p) ids = concat (replicate R (block ids p 0)).
Proof.
  induction R as [|R IH]; intros Hle Hb.
  - rewrite drop_ge by lia. done.
  - simpl replicate. simpl concat. rewrite <- IH by (lia || auto).
    rewrite <- (Hb R) by lia. unfold block.
    rewrite <- (take_drop p (drop (length ids - S R * p) ids)).
    replace (R + 1)%nat with (S R) by lia. f_equal. rewrite drop_drop. f_equal. lia.
Qed.

Lemma block_of_repeats pre unit R p r :
  length unit = p -> (r < R)%nat -> block (pre ++ concat (replicate R unit)) p r = unit.
Proof.
  intros Hp Hr. unfold block.
  assert (Hlen : forall k, length (concat (replicate k unit)) = (k * p)%nat)
    by (induction k; simpl; rewrite ?length_app; lia).
  replace R with ((R - (r + 1)) + (r + 1))%nat by lia.
  rewrite replicate_add, concat_app, app_assoc.
  rewrite drop_app_length' by (rewrite !length_app, !Hlen; generalize ((R - (r + 1)) * p)%nat, ((r + 1) * p)%nat; lia).
  rewrite Nat.add_comm. simpl. apply take_app_length'. done.
Qed.

(** The check of one period decides whether the list ends in [repeats] copies of its last [period] ids. *)
Lemma unit_repeats_spec ids R p :
  0 < R -> 0 < p -> R * p <= zlen ids ->
  unit_repeats ids R p = true <->
  exists pre unit, zlen unit = p /\ ids = pre ++ concat (replicate (Z.to_nat R) unit).
Proof.
  intros HR Hp Hle. unfold unit_repeats. rewrite forallb_zrange.
  assert (Hlast : py_last ids p = block ids (Z.to_nat p) 0).
  { rewrite py_last_in by nia. unfold block. rewrite take_ge; [f_equal; lia|].
    rewrite length_drop. lia. }
  assert (Hblk : forall r, 0 <= r < R ->
            py_slice ids (zlen ids - (r + 1) * p) (zlen ids - r * p) = block ids (Z.to_nat p) (Z.to_nat r)).
  { intros r Hr. assert ((r + 1) * p <= R * p) by nia. rewrite py_slice_in by nia.
    unfold block, zlen in *.
    replace (Z.of_nat (length ids) - r * p - (Z.of_nat (length ids) - (r + 1) * p)) with p by ring.
    do 2 f_equal. rewrite Z2Nat.inj_sub, Nat2Z.id, Z2Nat.inj_mul, Z2Nat.inj_add by nia. done. }
  split.
  - intros Hall.
    exists (take (length ids - Z.to_nat R * Z.to_nat p) ids), (block ids (Z.to_nat p) 0). split.
    + unfold block, zlen in *. rewrite length_take, length_drop. nia.
    + rewrite <- (take_drop (length ids - Z.to_nat R * Z.to_nat p) ids) at 1. f_equal.
      apply drop_blocks; [unfold zlen in *; nia|]. intros r Hr.
      destruct (Nat.eq_dec r 0%nat) as [->|Hr0]; [done|].
      specialize (Hall (Z.of_nat r) ltac:(lia)). rewrite Hblk, Nat2Z.id, Hlast in Hall by lia.
      by apply bool_decide_eq_true in Hall.
  - intros (pre & unit & Hu & Hids) r Hr. apply bool_decide_eq_true.
    rewrite Hblk, Hlast by lia. rewrite Hids.
    rewrite !block_of_repeats by (unfold zlen in *; lia). done.
Qed.

(** ** Properties *)

(** The list ends in [R] copies of a unit of [p] ids. *)
Definition cycles (ids : list Z) (R p : Z) : Prop :=
  exists pre unit, zlen unit = p /\ ids = pre ++ concat (replicate (Z.to_nat R) unit).

Lemma cycles_length ids R p : 0 <= R -> cycles ids R p -> R * p <= zlen ids.
Proof.
  intros HR (pre & unit & Hu & ->). rewrite zlen_app.
  assert (zlen (concat (replicate (Z.to_nat R) unit)) = R * p).
  { rewrite <- (Z2Nat.id R HR) at 2. induction (Z.to_nat R) as [|k IH]; [done|].
    simpl replicate. simpl concat. rewrite zlen_app, IH, Hu. lia. }
  pose proof (zlen_nonneg pre). lia.
Qed.

Lemma find_period_Some ids cfg p :
  0 < ngram cfg -> 0 < repeats cfg -> find_period ids cfg = Some p ->
  ngram cfg <= p <= ngram_max cfg /\ cycles ids (repeats cfg) p /\
  (forall q, ngram cfg <= q < p -> ~ cycles ids (repeats cfg) q).
Proof.
  intros Hn HR Hf. unfold find_period in Hf. apply find_zrange_Some in Hf as (Hin & Hp & Hmin).
  assert (Hdiv : repeats cfg * (zlen ids / repeats cfg) <= zlen ids) by (apply Z.mul_div_le; lia).
  split; [lia|]. split; [by apply unit_repeats_spec in Hp; [|lia|lia|nia]|].
  intros q Hq Hc. pose proof (cycles_length _ _ _ (Z.lt_le_incl _ _ HR) Hc).
  apply (proj2 (unit_repeats_spec ids (repeats cfg) q HR ltac:(lia) ltac:(lia))) in Hc.
  by rewrite Hmin in Hc by lia.
Qed.

Lemma find_period_None ids cfg p :
  0 < ngram cfg -> 0 < repeats cfg -> find_period ids cfg = None ->
  ngram cfg <= p <= ngram_max cfg -> ~ cycles ids (repeats cfg) p.
Proof.
  intros Hn HR Hf Hp Hc. unfold find_period in Hf.
  pose proof (cycles_length _ _ _ (Z.lt_le_incl _ _ HR) Hc) as Hlen.
  assert (p <= zlen ids / repeats cfg) by (apply Z.div_le_lower_bound; lia).
  apply (proj2 (unit_repeats_spec ids (repeats cfg) p HR ltac:(lia) ltac:(lia))) in Hc.
  by rewrite (proj1 (find_zrange_None _ _ _) Hf) in Hc by lia.
Qed.

(** What a hit of each detector means for the output ids. *)
Definition hit_means (ids : list Z) (text : option string) (cfg : config) (a : art) (kept period : Z) : Prop :=
  match a with
  | Identical =>
      exists pre x k, ids = pre ++ replicate k x /\ last pre <> Some x /\
        0 < identical cfg <= Z.of_nat k /\ kept = zlen pre + 1 /\ period = 1
  | Ngram =>
      ngram cfg <= period <= ngram_max cfg /\
      (forall q, ngram cfg <= q < period -> ~ cycles ids (repeats cfg) q) /\
      exists pre unit, zlen unit = period /\
        ids = pre ++ concat (replicate (Z.to_nat (repeats cfg)) unit) /\
        kept = zlen (pre ++ unit) /\ take (Z.to_nat kept) ids = pre ++ unit
  | Line =>
      kept = zlen ids /\ period = 0 /\
      exists t, text = Some t /\ repeated_line_suffix t (line_repeats cfg) (line_min cfg) = true
  end.

(** No detector applies. *)
Definition no_hit (ids : list Z) (text : option string) (cfg : config) : Prop :=
  (forall pre x k, ids = pre ++ replicate k x -> 0 < identical cfg -> Z.of_nat k < identical cfg) /\
  (forall p, 0 < ngram cfg <= p -> p <= ngram_max cfg -> 0 < repeats cfg -> ~ cycles ids (repeats cfg) p) /\
  (forall t, text = Some t -> repeated_line_suffix t (line_repeats cfg) (line_min cfg) = false).

Lemma trailing_run_max ids pre x k :
  ids = pre ++ replicate k x -> Z.of_nat k <= trailing_run ids.
Proof.
  intros ->. unfold trailing_run. rewrite rev_app_distr.
  destruct k as [|k]; [simpl; destruct (rev pre); [done|]; destruct (run_while_spec z l) as (? & -> & _); lia|].
  assert (Hr : rev (replicate (S k) x) = replicate (S k) x).
  { rewrite rev_alt. fold (reverse (replicate (S k) x)). by rewrite reverse_replicate. }
  rewrite Hr. simpl. assert (Hw : forall j l, Z.of_nat j <= run_while x (replicate j x ++ l)).
  { induction j as [|j IH]; intros l; simpl.
    - destruct (run_while_spec x l) as (? & -> & _). lia.
    - rewrite Z.eqb_refl. specialize (IH l). lia. }
  specialize (Hw k (rev pre)). lia.
Qed.

Lemma ngram_kept (pre unit : list Z) (R : Z) :
  0 < R -> let ids := pre ++ concat (replicate (Z.to_nat R) unit) in
  zlen ids - (R - 1) * zlen unit = zlen (pre ++ unit) /\
  take (Z.to_nat (zlen (pre ++ unit))) ids = pre ++ unit.
Proof.
  intros HR ids. unfold ids. replace (Z.to_nat R) with (S (Z.to_nat (R - 1))) by lia.
  simpl replicate. simpl concat. split.
  - rewrite !zlen_app.
    assert (Hc : forall k, zlen (concat (replicate k unit)) = Z.of_nat k * zlen unit).
    { induction k as [|k IH]; [done|]. simpl replicate. simpl concat. rewrite zlen_app, IH. lia. }
    rewrite Hc, Z2Nat.id by lia. lia.
  - unfold zlen. rewrite Nat2Z.id, app_assoc. by apply take_app_length'.
Qed.

Lemma detect_sound ids text cfg a kept period :
  detect_repetition_detail ids text cfg = Some (a, kept, period) -> hit_means ids text cfg a kept period.
Proof.
  unfold detect_repetition_detail. destruct (negb _); [done|].
  destruct (zlen ids =? 0) eqn:E0; [done|].
  assert (Hne : ids <> []) by (intros ->; done).
  destruct (_ && (identical cfg <=? trailing_run ids)) eqn:E1.
  { intros [= <- <- <-]. destruct (trailing_run_spec ids Hne) as (pre & x & k & Hids & Hk & Hrun & Hl).
    exists pre, x, k. rewrite Hrun in *. repeat split; try done; try blia.
    rewrite Hids, zlen_app, zlen_replicate. lia. }
  destruct (if _ && _ then _ else _) as [p|] eqn:E2.
  - intros [= <- <- <-]. destruct ((0 <? ngram cfg) && (0 <? repeats cfg)) eqn:E3; [|done].
    apply find_period_Some in E2 as (Hp & (pre & unit & Hu & Hids) & Hmin); [|blia..].
    split; [done|]. split; [done|]. exists pre, unit.
    destruct (ngram_kept pre unit (repeats cfg) ltac:(blia)) as [Hk Ht].
    rewrite <- Hids, Hu in Hk. rewrite <- Hids in Ht. rewrite Hk. done.
  - destruct text as [t|]; [|done]. destruct (repeated_line_suffix _ _ _) eqn:E4; [|done].
    intros [= <- <- <-]. repeat split; eauto.
Qed.

Lemma detect_complete ids text cfg :
  enabled cfg = true -> ids <> [] ->
  detect_repetition_detail ids text cfg = None -> no_hit ids text cfg.
Proof.
  intros Hen Hne. unfold detect_repetition_detail. rewrite Hen. simpl.
  destruct (zlen ids =? 0) eqn:E0; [destruct ids; [done | rewrite zlen_cons in E0; pose proof (zlen_nonneg ids); lia]|].
  destruct (_ && (identical cfg <=? trailing_run ids)) eqn:E1; [done|].
  destruct (if _ && _ then _ else _) as [p|] eqn:E2; [done|]. intros Hline.
  repeat split.
  - intros pre x k Hids Hpos. pose proof (trailing_run_max _ _ _ _ Hids).
    assert (Z.of_nat k <= zlen ids).
    { rewrite Hids, zlen_app, zlen_replicate. pose proof (zlen_nonneg pre). lia. }
    destruct (Z_lt_ge_dec (Z.of_nat k) (identical cfg)) as [|Hge]; [done|].
    rewrite !andb_false_iff in E1. lia.
  - intros p [Hn1 Hn2] Hp HR. destruct ((0 <? ngram cfg) && (0 <? repeats cfg)) eqn:E3; [|apply andb_false_iff in E3; lia]. by apply find_period_None.
  - intros t ->. by destruct (repeated_line_suffix _ _ _).
Qed.

(** C26: the detector is exact: a reported hit is a repetition of the reported kind (the
    least period, keeping one copy of the unit or one token of the run), and when it
    reports nothing no suffix of the output repeats within the configured bounds. *)
Theorem detect_repetition_correct ids text cfg :
  enabled cfg = true -> ids <> [] ->
  match detect_repetition_detail ids text cfg with
  | Some (a, kept, period) => hit_means ids text cfg a kept period
  | None => no_hit ids text cfg
  end.
Proof.
  intros Hen Hne. destruct (detect_repetition_detail ids text cfg) as [[[a kept] period]|] eqn:E.
  - by apply detect_sound.
  - by apply detect_complete.
Qed.

Lemma detect_repetition_correct_witness :
  let ids := [5; 6] ++ concat (replicate 4 (zrange 0 40)) in
  detect_repetition_detail ids None default_config = Some (Ngram, 42, 40) /\
  hit_means ids None default_config Ngram 42 40.
Proof.
  intros ids. split; [vm_compute; reflexivity|].
  pose proof (detect_repetition_correct ids None default_config
                ltac:(vm_compute; reflexivity) ltac:(discriminate)) as H.
  replace (detect_repetition_detail ids None default_config) with (Some (Ngram, 42, 40)) in H
    by (vm_compute; reflexivity).
  exact H.
Defined.

(** The wrapper changes a request only when the engine has not finished it and a
    detector fires; then the request is finished with the named error (or the stop
    reason when that exit is off or unavailable), its ids are untouched, and the kept
    length lies between 1 and the output length. *)
Theorem update_finish_state_correct original finished decode cfg abort_available r0 k :
  let r := original r0 k in
  let r' := update_finish_state original finished decode cfg abort_available r0 k in
  let text := if 0 <? line_repeats cfg then decode_tail decode r else None in
  output_ids r' = output_ids r /\
  (finished r = true \/ detect_repetition_detail (output_ids r) text cfg = None -> r' = r) /\
  (finished r = false -> forall a kept period,
     detect_repetition_detail (output_ids r) text cfg = Some (a, kept, period) ->
     finished_len r' = Some kept /\ 1 <= kept <= zlen (output_ids r) /\
     finished_reason r' =
       Some (if named_exit cfg && abort_available
             then FinishAbort a period (zlen (output_ids r)) kept 500
             else FinishMatchedStr MATCHED_STOP)).
Proof.
  intros r r' text. subst r'. unfold update_finish_state. fold r. fold text.
  destruct (finished r); [naive_solver|].
  destruct (detect_repetition_detail _ text cfg) as [[[a kept] period]|] eqn:E.
  2: { split; [done|]. split; [done|]. intros _ a kept period. congruence. }
  split; [done|]. split; [intros [?|?]; done|]. intros _ a' kept' period' [= <- <- <-].
  split; [done|]. split; [|done].
  assert (Hne : 0 < zlen (output_ids r)).
  { revert E. unfold detect_repetition_detail. destruct (negb _); [done|].
    destruct (zlen (output_ids r) =? 0) eqn:E0; [done|]. intros _.
    pose proof (zlen_nonneg (output_ids r)). lia. }
  apply detect_sound in E. destruct a; simpl in E.
  - destruct E as (pre & x & n & Hids & _ & Hk & -> & _). rewrite Hids, zlen_app.
    pose proof (zlen_nonneg pre). rewrite zlen_replicate. lia.
  - destruct E as (_ & _ & pre & unit & Hu & Hids & -> & Ht).
    apply (f_equal zlen) in Ht. unfold zlen in Ht at 1. rewrite length_take in Ht.
    pose proof (zlen_nonneg (pre ++ unit)). split; [|unfold zlen in *; lia].
    destruct (pre ++ unit) as [|z l] eqn:Epu; [|rewrite zlen_cons; pose proof (zlen_nonneg l); lia].
    apply app_eq_nil in Epu as [-> ->]. rewrite Hids in Hne. simpl in Hne.
    assert (Hc : forall m, concat (replicate m (@nil Z)) = []) by (induction m; done).
    rewrite Hc in Hne. done.
  - destruct E as (-> & _). lia.
Qed.

Lemma update_finish_state_correct_witness :
  let r0 := Req (replicate 70 9) None None false in
  finished_len (update_finish_state (fun r _ => r) (fun _ => false) (fun _ => Ok "") default_config true r0 1)
    = Some 1.
Proof.
  intros r0.
  refine (proj1 (proj2 (proj2 (update_finish_state_correct (fun r _ => r) (fun _ => false) (fun _ => Ok "")
            default_config true r0 1)) eq_refl Identical 1 1 _)).
  vm_compute. reflexivity.
Defined.
