(* ===== verification/SwaThin.v ===== *)
(** * SWA checkpoint thinning (adapter/swa_thin.py)

    Superseded sliding-window checkpoints are moved to the evict-first end of the
    SWA LRU list.  The radix tree is a map from node identity to the fields the hook
    reads; the LRU list, its unlink / link operations and membership test are the
    engine's, given here by the interface [LruOps]. *)
From S2P Require Import Prelude PyStr.
#[local] Open Scope string_scope.
#[local] Open Scope list_scope.
#[local] Open Scope Z_scope.

(** ** The engine's LRU list *)

(** [order] lists the nodes from the most recently used to the tail (evicted first);
    [lru_last] is the node next to the tail sentinel. *)
Class LruOps (L : Type) := {
  order : L -> list Z;
  in_list : L -> Z -> bool;
  lru_last : L -> option Z;
  remove_node : L -> Z -> L;
  add_node_after : L -> option Z -> Z -> L;   (* [None]: after the head sentinel *)
}.

Class LruLaws L `{!LruOps L} : Prop := {
  in_list_spec l x : in_list l x = true <-> x ∈ order l;
  lru_last_spec l : lru_last l = last (order l);
  remove_spec l x : order (remove_node l x) = filter (fun y => y <> x) (order l);
  add_last_spec l x : NoDup (order l) -> x ∉ order l ->
    order (add_node_after l (last (order l)) x) = order l ++ [x];
}.

(** ** Cache and tree *)

Record node := Node {
  parent : option Z;
  n_children : Z;
  key_len : Z;
  has_value : bool;      (* component_data[SWA].value is not None *)
  lock_ref : Z }.

Record cache (L : Type) := Cache {
  enable_session_radix_cache : bool;
  enable_hicache : bool;
  is_mamba_enabled : bool;
  swa_window : option Z;          (* the SWA component's window, None without the component *)
  swa_lru : option L;
  lru_mid : bool;                 (* lru.mid is not None *)
  root_node : Z;
  page_size : Z;
  nodes : gmap Z node }.
Arguments Cache {L}.
Arguments enable_session_radix_cache {L} _.
Arguments enable_hicache {L} _.
Arguments is_mamba_enabled {L} _.
Arguments swa_window {L} _.
Arguments swa_lru {L} _.
Arguments lru_mid {L} _.
Arguments root_node {L} _.
Arguments page_size {L} _.
Arguments nodes {L} _.

Inductive handle := HNone | HId (i : Z) | HNode (i : Z).

#[export] Instance handle_eq_dec : EqDecision handle.
Proof. solve_decision. Defined.

Section Thin.
Context {L : Type} `{!LruOps L}.

Definition node_of (c : cache L) (h : handle) : res (option Z) :=
  match h with
  | HNone => Ok None
  | HId i => match nodes c !! i with Some _ => Ok (Some i) | None => Raise KeyError end
  | HNode i => Ok (Some i)
  end.

Definition get_node (c : cache L) (i : Z) : res node :=
  match nodes c !! i with Some n => Ok n | None => Raise AttributeError end.

Definition move_to_lru_end (lru : L) (x : Z) : L :=
  let lru' := remove_node lru x in add_node_after lru' (lru_last lru') x.

(** The climb from [cur]: whether it meets [old] before the root ([None] = out of fuel). *)
Fixpoint meets (fuel : nat) (c : cache L) (old : Z) (cur : option Z) : option (res bool) :=
  match fuel with
  | O => None
  | S k =>
      match cur with
      | None => Some (Ok false)
      | Some x =>
          if x =? root_node c then Some (Ok (x =? old))
          else if x =? old then Some (Ok true)
          else match get_node c x with
               | Raise e => Some (Raise e)
               | Ok n => meets k c old (parent n)
               end
      end
  end.

Definition demotable (n : node) (lru : L) (x : Z) : bool :=
  has_value n && (lock_ref n =? 0) && in_list lru x && (n_children n =? 1).

(** The demotion walk from [x] towards the root, until [span] tokens are covered: the
    list as it is left (also by an exception) and the number of moves. *)
Fixpoint demote_walk (fuel : nat) (c : cache L) (lru : L) (span covered moved : Z) (x : option Z)
  : option (L * res Z) :=
  match fuel with
  | O => None
  | S k =>
      match x with
      | None => Some (lru, Ok moved)
      | Some i =>
          if (i =? root_node c) || (span <=? covered) then Some (lru, Ok moved)
          else match get_node c i with
               | Raise e => Some (lru, Raise e)
               | Ok n =>
                   let go := demotable n lru i in
                   demote_walk k c (if go then move_to_lru_end lru i else lru) span
                     (covered + key_len n) (if go then moved + 1 else moved) (parent n)
               end
      end
  end.

(** One step more than the number of nodes: enough for any walk in a tree ([demote_total]). *)
Definition tree_fuel (c : cache L) : nat := S (S (size (nodes c))).


(** [demote_superseded]: the LRU list afterwards and the number of nodes moved. *)
Definition demote_superseded (c : cache L) (old_handle new_handle : handle)
  : option (option L * res Z) :=
  let unchanged := Some (swa_lru c, Ok 0) in
  let raise e := Some (swa_lru c, Raise e) in
  if enable_session_radix_cache c || enable_hicache c then unchanged
  else if is_mamba_enabled c then unchanged
  else match swa_window c, swa_lru c with
  | None, _ => unchanged
  | _, None => unchanged
  | Some window, Some lru =>
      if lru_mid c then unchanged
      else match node_of c old_handle, node_of c new_handle with
      | Raise e, _ => raise e
      | _, Raise e => raise e
      | Ok None, _ => unchanged
      | _, Ok None => unchanged
      | Ok (Some old), Ok (Some new) =>
          if (old =? new) || (old =? root_node c) then unchanged
          else match get_node c new with
          | Raise e => raise e
          | Ok nn =>
              match meets (tree_fuel c) c old (parent nn) with
              | None => None
              | Some (Raise e) => raise e
              | Some (Ok false) => unchanged
              | Some (Ok true) =>
                  match demote_walk (tree_fuel c) c lru (window + page_size c) 0 0 (Some old) with
                  | None => None
                  | Some (lru', moved) => Some (Some lru', moved)
                  end
              end
          end
      end
  end.
End Thin.

#[local] Arguments tree_fuel : simpl never.

(** ** The hook *)

Definition thin_mode (v : option string) : option bool :=
  let v := lower (strip (default "0" v)) in
  if one_of v [""; "0"; "off"; "false"; "no"] then None
  else Some (negb (String.eqb v "chunk")).   (* Some true: both inserts; Some false: chunked steps only *)

Record stats := Stats {
  active : bool; prompt_end : bool; calls : Z; prompt_calls : Z; demoted : Z; errors : Z }.

Record req := Req { last_node : handle; seen : bool }.

Definition set_lru {L} (c : cache L) (l : option L) : cache L :=
  Cache (enable_session_radix_cache c) (enable_hicache c) (is_mamba_enabled c) (swa_window c) l
        (lru_mid c) (root_node c) (page_size c) (nodes c).

Section Hook.
Context {L R : Type} `{!LruOps L}.
(** The engine's insert: it may raise; otherwise it returns its result, the cache and the
    request with its new last node. *)
Context (original : cache L -> req -> bool -> res (R * cache L * req)).

Definition hook_old (st : stats) (r : req) (chunked : bool) : option handle :=
  if active st then
    if chunked then Some (last_node r)
    else if prompt_end st && negb (seen r) then Some (last_node r) else None
  else None.

(** The bookkeeping and demotion after the engine's insert; an error of the demotion
    switches the hook off. *)
Definition after_insert (st : stats) (c : cache L) (r : req) (old : handle) (chunked : bool)
  : option (stats * cache L) :=
  let st1 := Stats (active st) (prompt_end st) (if chunked then calls st + 1 else calls st)
                   (if chunked then prompt_calls st else prompt_calls st + 1) (demoted st) (errors st) in
  if bool_decide (old = HNone) then Some (st, c)
  else match demote_superseded c old (last_node r) with
  | None => None
  | Some (l, Ok moved) =>
      Some (Stats (active st1) (prompt_end st1) (calls st1) (prompt_calls st1) (demoted st1 + moved)
                  (errors st1), set_lru c l)
  | Some (l, Raise _) =>
      Some (Stats false (prompt_end st1) (calls st1) (prompt_calls st1) (demoted st1) (errors st1 + 1),
            set_lru c l)
  end.

(** [cache_unfinished_req] as installed ([None] = the model's fuel ran out, never the case in a tree). *)
Definition cache_unfinished_req (st : stats) (c : cache L) (r : req) (chunked : bool)
  : option (res (R * cache L * req * stats)) :=
  let old := hook_old st r chunked in
  match original c r chunked with
  | Raise e => Some (Raise e)
  | Ok (result, c1, r1) =>
      let r2 := if active st then Req (last_node r1) true else r1 in
      match old with
      | None => Some (Ok (result, c1, r2, st))
      | Some h =>
          match after_insert st c1 r2 h chunked with
          | None => None
          | Some (st', c2) => Some (Ok (result, c2, r2, st'))
          end
      end
  end.
End Hook.

(** ** Lemmas *)

(** A radix tree: every node but the root has a parent in the map that is nearer to the root. *)
Definition tree_ok {L} (c : cache L) (depth : Z -> nat) : Prop :=
  (exists r, nodes c !! root_node c = Some r /\ parent r = None) /\
  forall i n, nodes c !! i = Some n -> i <> root_node c ->
    exists p, parent n = Some p /\ is_Some (nodes c !! p) /\ (depth p < depth i)%nat /\
      (depth i <= size (nodes c))%nat.

Section Laws.
Context {L : Type} `{!LruOps L} {laws : LruLaws L}.

Lemma move_order lru x :
  x ∈ order lru -> NoDup (order lru) ->
  order (move_to_lru_end lru x) = filter (fun y => y <> x) (order lru) ++ [x].
Proof.
  intros Hx Hnd. unfold move_to_lru_end. rewrite lru_last_spec, add_last_spec, remove_spec; [done| |].
  - rewrite remove_spec. by apply NoDup_filter.
  - rewrite remove_spec, list_elem_of_filter. by intros [? _].
Qed.

(** The ancestors of [x] below the root, nearest first, with their nodes. *)
Fixpoint ancestors (fuel : nat) (c : cache L) (x : option Z) : list (Z * node) :=
  match fuel, x with
  | S k, Some i =>
      if i =? root_node c then []
      else match nodes c !! i with
           | Some n => (i, n) :: ancestors k c (parent n)
           | None => []
           end
  | _, _ => []
  end.

(** The nodes a walk demotes, on the list as it was before the walk. *)
Fixpoint demoted_of (lru : L) (span covered : Z) (path : list (Z * node)) : list Z :=
  match path with
  | [] => []
  | (i, n) :: rest =>
      if span <=? covered then []
      else let more := demoted_of lru span (covered + key_len n) rest in
           if demotable n lru i then i :: more else more
  end.

Lemma ancestors_depth fuel c depth x i n :
  tree_ok c depth -> is_Some (nodes c !! x) -> (i, n) ∈ ancestors fuel c (Some x) ->
  (depth i <= depth x)%nat /\ nodes c !! i = Some n /\ i <> root_node c.
Proof.
  intros [_ Ht]. revert x. induction fuel as [|k IH]; intros x Hx; simpl; [by intros ?%elem_of_nil|].
  destruct (Z.eqb_spec x (root_node c)) as [|Hne]; [by intros ?%elem_of_nil|].
  destruct (nodes c !! x) as [m|] eqn:Em; [|by intros ?%elem_of_nil].
  intros [[= -> ->]|Hin]%elem_of_cons; [done|].
  destruct (Ht _ _ Em Hne) as (p & Hp & Hps & Hd & _). rewrite Hp in Hin.
  destruct (IH p Hps Hin) as (H1 & H2 & H3). split; [lia|]. done.
Qed.

Lemma ancestors_NoDup fuel c depth x :
  tree_ok c depth -> is_Some (nodes c !! x) -> NoDup (map fst (ancestors fuel c (Some x))).
Proof.
  intros Htree. revert x. induction fuel as [|k IH]; intros x Hx; simpl; [constructor|].
  destruct (Z.eqb_spec x (root_node c)) as [|Hne]; [constructor|].
  destruct (nodes c !! x) as [m|] eqn:Em; [|constructor]. simpl.
  destruct Htree as [Hr Ht]. destruct (Ht _ _ Em Hne) as (p & Hp & Hps & Hd & _).
  rewrite Hp. constructor; [|by apply IH].
  intros ((i & n) & -> & Hin)%list_elem_of_fmap.
  destruct (ancestors_depth _ _ depth _ _ _ (conj Hr Ht) Hps Hin) as (Hdi & _ & _). simpl in Hd. lia.
Qed.

Lemma demoted_of_elem lru span covered path i :
  i ∈ demoted_of lru span covered path ->
  exists n, (i, n) ∈ path /\ demotable n lru i = true.
Proof.
  revert covered. induction path as [|[j n] path IH]; intros covered; simpl; [by intros ?%elem_of_nil|].
  destruct (span <=? covered); [by intros ?%elem_of_nil|].
  destruct (demotable n lru j) eqn:E.
  - intros [->|Hin]%elem_of_cons; [exists n; split; [left | done]|].
    destruct (IH _ Hin) as (m & Hm & Hd). exists m. split; [by right | done].
  - intros Hin. destruct (IH _ Hin) as (m & Hm & Hd). exists m. split; [by right | done].
Qed.

Lemma demoted_of_ext l1 l2 span covered path :
  (forall x, x ∈ order l1 <-> x ∈ order l2) ->
  demoted_of l1 span covered path = demoted_of l2 span covered path.
Proof.
  intros Hext. revert covered. induction path as [|[j n] path IH]; intros covered; simpl; [done|].
  destruct (span <=? covered); [done|].
  assert (Hd : demotable n l1 j = demotable n l2 j).
  { unfold demotable. do 2 f_equal. apply eq_true_iff_eq. rewrite !in_list_spec. apply Hext. }
  by rewrite Hd, IH.
Qed.

Lemma move_members lru x : x ∈ order lru -> NoDup (order lru) ->
  forall y, y ∈ order (move_to_lru_end lru x) <-> y ∈ order lru.
Proof.
  intros Hx Hnd y. rewrite move_order, elem_of_app, list_elem_of_filter, list_elem_of_singleton by done.
  destruct (Z.eq_dec y x) as [->|]; [tauto|]. split; [tauto | auto].
Qed.

Lemma filter_not_in_cons (i : Z) (M l : list Z) :
  filter (fun y => y ∉ M) (filter (fun y => y <> i) l) = filter (fun y => y ∉ i :: M) l.
Proof.
  rewrite list_filter_filter. apply list_filter_iff. intros y. rewrite not_elem_of_cons. tauto.
Qed.

(** A walk that starts within the fuel moves exactly the demotable ancestors inside the
    span to the end of the list, in walking order, and keeps the order of the others. *)
Lemma demote_walk_spec fuel c depth lru span covered moved x :
  tree_ok c depth -> is_Some (nodes c !! x) -> NoDup (order lru) -> (depth x < fuel)%nat ->
  let M := demoted_of lru span covered (ancestors fuel c (Some x)) in
  exists lru', demote_walk fuel c lru span covered moved (Some x) = Some (lru', Ok (moved + zlen M)) /\
    order lru' = filter (fun y => y ∉ M) (order lru) ++ M.
Proof.
  intros Htree. revert lru covered moved x.
  assert (Hend : forall lru : L, order lru = filter (fun y => y ∉ []) (order lru) ++ []).
  { intros lru. rewrite app_nil_r. symmetry. apply filter_all, Forall_forall.
    intros y _. apply not_elem_of_nil. }
  induction fuel as [|k IH]; intros lru covered moved x Hx Hnd Hfuel; simpl; [lia|].
  destruct (Z.eqb_spec x (root_node c)) as [->|Hne]; simpl; [by rewrite Z.add_0_r; eauto|].
  destruct Hx as [n Hn]. unfold get_node. rewrite Hn. simpl.
  destruct (span <=? covered); [by rewrite Z.add_0_r; eauto|].
  pose proof Htree as [_ Ht]. destruct (Ht _ _ Hn Hne) as (p & Hp & Hps & Hd & _). rewrite Hp.
  destruct (demotable n lru x) eqn:Hgo.
  - assert (Hin : x ∈ order lru).
    { unfold demotable in Hgo. apply andb_true_iff in Hgo as [Hgo _].
      apply andb_true_iff in Hgo as [_ Hgo]. by apply in_list_spec. }
    assert (Hnd' : NoDup (order (move_to_lru_end lru x))).
    { rewrite move_order by done. apply NoDup_app. split; [by apply NoDup_filter|].
      split; [|apply NoDup_singleton]. intros y [Hy _]%list_elem_of_filter ?%list_elem_of_singleton. done. }
    destruct (IH (move_to_lru_end lru x) (covered + key_len n) (moved + 1) p Hps Hnd' ltac:(lia))
      as (lru' & E & Ho).
    rewrite (demoted_of_ext _ _ _ _ _ (move_members lru x Hin Hnd)) in E, Ho.
    set (M := demoted_of lru span (covered + key_len n) (ancestors k c (Some p))) in *.
    exists lru'. rewrite zlen_cons. split; [rewrite E; do 3 f_equal; lia|].
    rewrite Ho, move_order, filter_app, filter_not_in_cons by done.
    rewrite (filter_cons_True _ x []); [by rewrite <- app_assoc|].
    intros (m & Hm & _)%demoted_of_elem.
    pose proof (ancestors_depth k c depth p x m Htree Hps Hm) as (Hdx & _). lia.
  - destruct (IH lru (covered + key_len n) moved p Hps Hnd ltac:(lia)) as (lru' & E & Ho). eauto.
Qed.

Lemma meets_spec fuel c depth old x :
  tree_ok c depth -> is_Some (nodes c !! x) -> (depth x < fuel)%nat -> old <> root_node c ->
  meets fuel c old (Some x) = Some (Ok (bool_decide (old ∈ map fst (ancestors fuel c (Some x))))).
Proof.
  intros Htree. revert x. induction fuel as [|k IH]; intros x Hx Hfuel Hold; simpl; [lia|].
  destruct (Z.eqb_spec x (root_node c)) as [->|Hne].
  { rewrite bool_decide_eq_false_2 by apply not_elem_of_nil. do 2 f_equal. lia. }
  destruct Hx as [n Hn]. rewrite Hn. simpl.
  destruct (Z.eqb_spec x old) as [->|Hxo].
  { by rewrite bool_decide_eq_true_2 by (left). }
  unfold get_node. rewrite Hn.
  pose proof Htree as [_ Ht]. destruct (Ht _ _ Hn Hne) as (p & Hp & Hps & Hd & _). rewrite Hp.
  rewrite IH by (done || lia). do 2 f_equal. apply bool_decide_ext. rewrite elem_of_cons. split; [by right | by intros [?|?]].
Qed.
End Laws.

(** ** Properties *)

Section Properties.
Context {L : Type} `{!LruOps L} {laws : LruLaws L}.

(** The part of the path from [old] upwards that a demotion moves. *)
Definition superseded (c : cache L) (lru : L) (window old : Z) : list Z :=
  demoted_of lru (window + page_size c) 0 (ancestors (tree_fuel c) c (Some old)).

Lemma depth_in_fuel (c : cache L) depth x n :
  tree_ok c depth -> nodes c !! x = Some n -> x <> root_node c -> (depth x < tree_fuel c)%nat.
Proof.
  intros [_ Ht] Hn Hx. destruct (Ht _ _ Hn Hx) as (p & _ & _ & _ & Hs). unfold tree_fuel. lia.
Qed.

Lemma superseded_NoDup (c : cache L) depth lru window old :
  tree_ok c depth -> is_Some (nodes c !! old) -> NoDup (superseded c lru window old).
Proof.
  intros Ht Ho. unfold superseded. pose proof (ancestors_NoDup (tree_fuel c) c depth old Ht Ho) as Hnd.
  generalize 0 as cov. induction (ancestors _ _ _) as [|[i n] path IH]; intros cov; simpl; [constructor|].
  simpl in Hnd. apply NoDup_cons in Hnd as [Hi Hnd].
  destruct (_ <=? cov); [constructor|]. destruct (demotable n lru i); [|by apply IH].
  constructor; [|by apply IH]. intros (m & Hm & _)%demoted_of_elem.
  apply Hi, list_elem_of_fmap. by exists (i, m).
Qed.

(** The outcome of a demotion that moved something, for a request at [old] now at [new]. *)
Definition demotes (c : cache L) (lru : L) (window old new : Z) (n : node) (lru' : L) (k : Z) : Prop :=
  let moved := superseded c lru window old in
  order lru' = filter (fun y => y ∉ moved) (order lru) ++ moved /\ k = zlen moved /\
  old <> new /\ old <> root_node c /\ old ∈ map fst (ancestors (tree_fuel c) c (parent n)) /\
  Forall (fun i => exists m, nodes c !! i = Some m /\ has_value m = true /\ lock_ref m = 0 /\
                             n_children m = 1) moved.

Lemma superseded_guards (c : cache L) depth lru window old :
  tree_ok c depth -> is_Some (nodes c !! old) ->
  Forall (fun i => i ∈ order lru /\ exists m, nodes c !! i = Some m /\ has_value m = true /\
                   lock_ref m = 0 /\ n_children m = 1) (superseded c lru window old).
Proof.
  intros Ht Ho. apply Forall_forall. intros i (m & Hm & Hd)%demoted_of_elem.
  destruct (ancestors_depth _ _ _ _ _ _ Ht Ho Hm) as (_ & Hi & _).
  unfold demotable in Hd. apply andb_true_iff in Hd as [Hd H1]. apply andb_true_iff in Hd as [Hd H2].
  apply andb_true_iff in Hd as [H3 H4]. apply in_list_spec in H2.
  split; [done|]. exists m. repeat split; try done; lia.
Qed.

(** In a radix tree, a demotion either leaves the SWA list alone or moves to its
    evict-first end exactly the checkpoints superseded by the request's progress (on
    the path from the old position towards the root within one window and a page,
    holding a value, unlocked, listed, with a single child), in walking order; every
    other checkpoint keeps its relative order, nothing is lost or duplicated, and the
    old position is a proper ancestor of the new one whenever something moves. *)
Theorem demote_superseded_order (c : cache L) depth old new n lru window :
  tree_ok c depth -> nodes c !! new = Some n -> is_Some (nodes c !! old) ->
  swa_lru c = Some lru -> swa_window c = Some window -> NoDup (order lru) ->
  exists lru' k,
    demote_superseded c (HNode old) (HNode new) = Some (Some lru', Ok k) /\
    ((order lru' = order lru /\ k = 0) \/ demotes c lru window old new n lru' k) /\
    order lru' ≡ₚ order lru.
Proof.
  intros Ht Hn Ho Hlru Hwin Hnd.
  assert (Hkeep : exists lru' k, Some (Some lru, @Ok Z 0) = Some (Some lru', Ok k) /\
            ((order lru' = order lru /\ k = 0) \/ demotes c lru window old new n lru' k) /\
            order lru' ≡ₚ order lru).
  { exists lru, 0. split; [done|]. split; [by left | done]. }
  unfold demote_superseded. rewrite Hwin, Hlru.
  destruct (_ || enable_hicache c); [done|]. destruct (is_mamba_enabled c); [done|].
  destruct (lru_mid c); [done|]. cbn [node_of].
  destruct (Z.eqb_spec old new) as [|Hon]; [done|].
  destruct (Z.eqb_spec old (root_node c)) as [|Hor]; [done|]. cbn [orb].
  unfold get_node at 1. rewrite Hn.
  destruct (decide (new = root_node c)) as [->|Hnr].
  { destruct Ht as [(r & Hr & Hpr) _]. rewrite Hn in Hr. simplify_eq. by rewrite Hpr. }
  destruct (proj2 Ht _ _ Hn Hnr) as (p & Hp & Hps & Hd & Hs).
  rewrite Hp, (meets_spec _ _ depth) by (done || (unfold tree_fuel; lia)).
  destruct (bool_decide _) eqn:Hanc; [|done]. apply bool_decide_eq_true in Hanc.
  destruct Ho as [m Hm].
  destruct (demote_walk_spec (tree_fuel c) c depth lru (window + page_size c) 0 0 old Ht ltac:(eauto) Hnd
              (depth_in_fuel _ _ _ _ Ht Hm Hor)) as (lru' & E & Hord).
  fold (superseded c lru window old) in E, Hord. rewrite E.
  pose proof (superseded_guards c depth lru window old Ht ltac:(eauto)) as Hg.
  exists lru', (0 + zlen (superseded c lru window old)). split; [done|]. split.
  - right. unfold demotes. repeat split; try done. { by rewrite Hp. }
    eapply Forall_impl; [exact Hg|]. by intros i [_ H].
  - rewrite Hord. apply move_to_end_perm; [done | by eapply superseded_NoDup; eauto|].
    intros i Hi. rewrite Forall_forall in Hg. by apply Hg.
Qed.
End Properties.

(** The installed hook never changes what the engine's insert returns or raises,
    nor anything but the SWA list and the request's mark; it does nothing while
    switched off, nothing at the prompt-end insert of a request that already made a
    hooked insert, and it switches itself off on the first error. *)
Theorem hook_transparent {L R} `{!LruOps L} (original : cache L -> req -> bool -> res (R * cache L * req))
    st c r chunked x :
  cache_unfinished_req original st c r chunked = Some x ->
  match original c r chunked with
  | Raise e => x = Raise e
  | Ok (result, c1, r1) =>
      exists l st' mark,
        x = Ok (result, set_lru c1 l, Req (last_node r1) mark, st') /\
        (active st = false -> l = swa_lru c1 /\ mark = seen r1 /\ st' = st) /\
        (active st = true -> mark = true) /\
        (chunked = false -> seen r = true \/ prompt_end st = false -> l = swa_lru c1 /\ st' = st) /\
        (errors st' = errors st \/ (errors st' = errors st + 1 /\ active st' = false))
  end.
Proof.
  unfold cache_unfinished_req. destruct (original c r chunked) as [[[result c1] r1]|e]; [|by intros [= <-]].
  assert (Hc : c1 = set_lru c1 (swa_lru c1)) by (by destruct c1).
  unfold hook_old. destruct (active st) eqn:Ha; cycle 1.
  { intros [= <-]. exists (swa_lru c1), st, (seen r1). rewrite <- Hc. destruct r1. simpl.
    repeat split; try done. by left. }
  assert (Hnone : Some (@Ok _ (result, c1, Req (last_node r1) true, st)) = Some x ->
    exists l st' mark, x = Ok (result, set_lru c1 l, Req (last_node r1) mark, st') /\
      (true = false -> l = swa_lru c1 /\ mark = seen r1 /\ st' = st) /\ (true = true -> mark = true) /\
      (chunked = false -> seen r = true \/ prompt_end st = false -> l = swa_lru c1 /\ st' = st) /\
      (errors st' = errors st \/ (errors st' = errors st + 1 /\ active st' = false))).
  { intros [= <-]. exists (swa_lru c1), st, true. rewrite <- Hc. repeat split; try done. by left. }
  assert (Hsome : forall h, (chunked = false -> seen r = true \/ prompt_end st = false -> False) ->
    match after_insert st c1 (Req (last_node r1) true) h chunked with
    | None => None
    | Some (st', c2) => Some (@Ok _ (result, c2, Req (last_node r1) true, st'))
    end = Some x ->
    exists l st' mark, x = Ok (result, set_lru c1 l, Req (last_node r1) mark, st') /\
      (true = false -> l = swa_lru c1 /\ mark = seen r1 /\ st' = st) /\ (true = true -> mark = true) /\
      (chunked = false -> seen r = true \/ prompt_end st = false -> l = swa_lru c1 /\ st' = st) /\
      (errors st' = errors st \/ (errors st' = errors st + 1 /\ active st' = false))).
  { intros h Hno. unfold after_insert. destruct (bool_decide _).
    { exact Hnone. }
    destruct (demote_superseded _ _ _) as [[l [moved|e]]|]; [| |done]; intros [= <-];
      exists l; eexists; exists true; (split; [reflexivity|]); simpl; repeat split; try done;
      try (by left); try (by right); intros; exfalso; eauto. }
  destruct chunked; [by apply Hsome|].
  destruct (prompt_end st && negb (seen r)) eqn:E; [|exact Hnone].
  apply Hsome. apply andb_true_iff in E as [-> E]. intros _ [H|H]; [by rewrite H in E | done].
Qed.

(** ** A list as the LRU *)

#[export] Instance list_lru : LruOps (list Z) := {
  order := fun l => l;
  in_list := fun l x => bool_decide (x ∈ l);
  lru_last := last;
  remove_node := fun l x => filter (fun y => y <> x) l;
  add_node_after := fun l p x =>
    match p with
    | None => x :: l
    | Some q => foldr (fun y acc => if y =? q then y :: x :: acc else y :: acc) [] l
    end }.

Lemma list_add_last (l : list Z) x :
  NoDup l -> add_node_after l (last l) x = l ++ [x].
Proof.
  destruct l as [|a l _] using rev_ind; [done|]. intros Hnd.
  rewrite last_snoc. simpl. rewrite foldr_app. simpl. rewrite Z.eqb_refl.
  apply NoDup_app in Hnd as (_ & Hn & _).
  assert (Ha : a ∉ l) by (intros Ha; apply (Hn a Ha); left). clear Hn.
  rewrite <- app_assoc. simpl.
  induction l as [|b l IH]; simpl; [done|]. rewrite not_elem_of_cons in Ha. destruct Ha as [Hab Ha].
  rewrite IH by done. destruct (Z.eqb_spec b a); [congruence | done].
Qed.

#[export] Instance list_lru_laws : LruLaws (list Z).
Proof.
  split.
  - intros l x. apply bool_decide_eq_true.
  - done.
  - done.
  - intros l x Hnd _. by apply list_add_last.
Qed.

(** A path 0 <- 1 <- 2 <- 3 <- 4 of chunk boundaries and a branch 9 below node 1. *)
Definition ex_nodes : gmap Z node :=
  list_to_map [(0, Node None 1 0 false 0); (1, Node (Some 0) 2 256 true 0); (2, Node (Some 1) 1 256 true 0);
               (3, Node (Some 2) 1 256 true 0); (4, Node (Some 3) 0 256 true 1); (9, Node (Some 1) 0 256 true 0)].
Definition ex_cache : cache (list Z) :=
  Cache false false false (Some 128) (Some [4; 3; 2; 9; 1]) false 0 256 ex_nodes.
Definition ex_depth (i : Z) : nat := Z.to_nat (if i =? 9 then 2 else i).

Lemma ex_tree_ok : tree_ok ex_cache ex_depth.
Proof.
  split; [by eexists|]. intros i n Hi Hne. change (nodes ex_cache) with ex_nodes in *.
  apply elem_of_list_to_map_2, list_elem_of_In in Hi. simpl in Hi.
  change (root_node ex_cache) with 0 in Hne.
  repeat destruct Hi as [[= <- <-]|Hi]; try done;
    (eexists; split; [reflexivity|]; split; [by eexists|]; split; vm_compute; lia).
Qed.

Lemma demote_superseded_order_witness :
  demote_superseded ex_cache (HNode 3) (HNode 4) = Some (Some [4; 9; 1; 3; 2], Ok 2) /\
  exists lru' k, demote_superseded ex_cache (HNode 3) (HNode 4) = Some (Some lru', Ok k) /\
                 order lru' ≡ₚ [4; 3; 2; 9; 1].
Proof.
  split; [vm_compute; reflexivity|].
  destruct (demote_superseded_order ex_cache ex_depth 3 4 (Node (Some 3) 0 256 true 1) [4; 3; 2; 9; 1] 128
              ex_tree_ok ltac:(reflexivity) ltac:(by eexists) ltac:(reflexivity) ltac:(reflexivity)
              ltac:(apply (bool_decide_unpack _); vm_compute; exact I)) as (l & k & E & _ & P).
  exists l, k. split; [exact E | exact P].
Defined.

Lemma hook_transparent_witness :
  let orig := fun (c : cache (list Z)) (r : req) (_ : bool) => Ok (7, c, Req (HNode 4) (seen r)) in
  cache_unfinished_req orig (Stats true true 0 0 0 0) ex_cache (Req (HNode 3) false) true
    = Some (Ok (7, set_lru ex_cache (Some [4; 9; 1; 3; 2]), Req (HNode 4) true, Stats true true 1 0 2 0)) /\
  exists l st' mark,
    Ok (7, set_lru ex_cache (Some [4; 9; 1; 3; 2]), Req (HNode 4) true, Stats true true 1 0 2 0)
    = Ok (7, set_lru ex_cache l, Req (HNode 4) mark, st') /\ mark = true.
Proof.
  intros orig.
  assert (H : cache_unfinished_req orig (Stats true true 0 0 0 0) ex_cache (Req (HNode 3) false) true
    = Some (Ok (7, set_lru ex_cache (Some [4; 9; 1; 3; 2]), Req (HNode 4) true, Stats true true 1 0 2 0)))
    by reflexivity.
  split; [exact H|].
  destruct (hook_transparent orig _ _ _ _ _ H) as (l & st' & mark & E & _ & Hm & _).
  exists l, st', mark. split; [exact E | exact (Hm eq_refl)].
Defined.
