(* ===== verification/SwaCone.v ===== *)
(** * SWA-cone replay (adapter/swa_cone.py)

    A lost resume point is restored by replaying a bounded chunk over the resident
    full KV.  Modelled: the length rule, the plan of a request and its reversal, the
    admission guard, the per-batch collection of the plans, and the forward side (page
    copy, window floor, masked compressor writes).  The radix tree's queries, the
    engine's admission and the KV buffers' contents are arguments. *)
From S2P Require Import Prelude PyStr.
#[local] Open Scope string_scope.
#[local] Open Scope list_scope.
#[local] Open Scope Z_scope.

(** ** Settings *)

Definition DEFAULT_TOKENS : Z := 8192.
Definition DEFAULT_MIN_SAVE : Z := 8192.

Record state := State {
  active : bool;
  tokens : Z;
  min_save : Z;
  test : bool;
  early_layers : option Z;
  planned : Z;
  reverted : Z;
  replayed : Z;
  rows : Z;
  errors : Z }.

Definition truthy (v : string) : bool :=
  negb (one_of (lower (strip v)) [""; "0"; "off"; "false"; "no"]).

Definition enabled (env : environ) : bool := truthy (env_get env "DSV41_SWA_CONE_REPLAY" "0").

Definition env_int (env : environ) (name : string) (dflt : Z) : res Z :=
  match env name with Some v => py_int v | None => Ok dflt end.

(** Read the knobs; the assignments before a failing [int] stay. *)
Definition configure (env : environ) (st : state) : state * bool :=
  let on := enabled env in
  let tst := truthy (env_get env "DSV41_SWA_CONE_TEST" "0") in
  match env_int env "DSV41_SWA_CONE_TOKENS" DEFAULT_TOKENS with
  | Raise _ => (State false (tokens st) (min_save st) tst (early_layers st) (planned st) (reverted st)
                      (replayed st) (rows st) (errors st), false)
  | Ok t =>
      match env_int env "DSV41_SWA_CONE_MIN_SAVE" DEFAULT_MIN_SAVE with
      | Raise _ => (State false t (min_save st) tst (early_layers st) (planned st) (reverted st)
                          (replayed st) (rows st) (errors st), false)
      | Ok m => (State on t m tst (early_layers st) (planned st) (reverted st)
                       (replayed st) (rows st) (errors st), on)
      end
  end.

(** ** The length rule *)

(** Smallest page-aligned replay length for which the replay is exact. *)
Definition min_replay_tokens (window early page : Z) : Z :=
  let cone := (window - 1) * early in
  let guard := (window - 1) * (early - 1) + Z.max window page + page in
  let need := Z.max cone guard in
  cdiv need page * page.

(** Replay start, or [None] when the stock match is kept. *)
Definition plan_window (m : Z) (full_hit : option Z) (tokens min_save page : Z) : option Z :=
  match full_hit with
  | None => None
  | Some f =>
      if (tokens <=? 0) || (page <=? 0) then None
      else if negb (f mod page =? 0) || negb (tokens mod page =? 0) then None
      else
        let s := f - tokens in
        if (s <=? m) || (s - m <? min_save) then None else Some s
  end.

(** ** Requests, plans and caches *)

(** The match a request holds ([_STOCK_FIELDS] and the protected length). *)
Record match_t := Match {
  prefix_indices : list Z;
  last_node : Z;
  last_host_node : Z;
  best_match_node : Z;
  host_hit_length : Z;
  swa_host_hit_length : Z;
  swa_branching_seqlen : option Z;
  cache_protected_len : Z }.

Record plan := Plan {
  p_s : Z;
  full_hit : Z;
  src_pages : list Z;
  stock : match_t }.

Definition plan_n (p : plan) : Z := full_hit p - p_s p.

Record req := Req {
  r_match : match_t;
  r_cone : option plan;
  rid : string;
  has_session : bool;
  has_multimodal : bool;
  has_embeds : bool;
  has_pos_overrides : bool;
  return_logprob : bool;
  logprob_start_len : Z;
  origin_len : Z;
  is_dllm : bool;
  fill_ids : list Z }.

Definition set_req (r : req) (m : match_t) (p : option plan) : req :=
  Req m p (rid r) (has_session r) (has_multimodal r) (has_embeds r) (has_pos_overrides r)
      (return_logprob r) (logprob_start_len r) (origin_len r) (is_dllm r) (fill_ids r).

Record cache := Cache {
  has_tree : bool;
  disabled : bool;
  hicache : bool;
  session_radix : bool;
  mamba : bool;
  bounded_replay : bool;
  linker : bool;
  free_out_of_window : bool;
  swa_window : option Z;      (* the SWA component's sliding window, None without the component *)
  c_page : Z;
  c_window : Z }.

Definition eligible_cache (c : cache) : bool :=
  has_tree c && negb (disabled c) && negb (hicache c) && negb (session_radix c) && negb (mamba c)
  && bounded_replay c && negb (linker c) && free_out_of_window c
  && match swa_window c with Some w => negb (w =? 0) | None => false end.

Definition eligible_req (st : state) (r : req) : bool :=
  negb (has_session r) && negb (has_multimodal r) && negb (has_embeds r) && negb (has_pos_overrides r)
  && (host_hit_length (r_match r) =? 0)
  && negb (return_logprob r && negb ((logprob_start_len r =? -1) || (logprob_start_len r =? origin_len r)))
  && negb (is_dllm r)
  && negb (test st && contains "-ref" (rid r)).

(** Put back the stock match; the flag says whether there was a plan. *)
Definition revert (st : state) (r : req) : state * req * bool :=
  match r_cone r with
  | None => (st, r, false)
  | Some p =>
      (State (active st) (tokens st) (min_save st) (test st) (early_layers st) (planned st)
             (reverted st + 1) (replayed st) (rows st) (errors st),
       set_req r (stock p) None, true)
  end.

(** [seg.view(-1, page)]. *)
Definition view_rows (page : Z) (seg : list Z) : list (list Z) :=
  map (fun j => py_slice seg (j * page) ((j + 1) * page)) (zrange 0 (zlen seg / page)).

(** A row is one whole page in order: [base + 0, base + 1, ...] with [base] page-aligned. *)
Definition whole_page (page : Z) (row : list Z) : bool :=
  match row with
  | [] => false
  | base :: _ => bool_decide (row = map (fun k => base + k) (zrange 0 page)) && (base mod page =? 0)
  end.

Section Plan.
(** The tree's queries: the full-KV match of a key truncated at a length (matched length,
    node, pinned length) and the device indices from a node up to the root; and whether the
    tree-side pins hold. *)
Context (match_full_device_prefix : list Z -> Z -> Z * Z * Z)
        (collect_full_device_indices : Z -> list Z)
        (tree_pins_ok : bool).

(** [plan_request]: the request and state afterwards; a plan was made iff [r_cone] is set. *)
Definition plan_request (st : state) (r0 : req) (c : cache) : state * req :=
  let r := set_req r0 (r_match r0) None in
  let keep := (st, r) in
  match early_layers st with
  | None => keep
  | Some early =>
      if negb (active st) then keep
      else if negb tree_pins_ok then keep
      else if negb (eligible_cache c) || negb (eligible_req st r) then keep
      else if tokens st <? min_replay_tokens (c_window c) early (c_page c) then keep
      else
        let m := zlen (prefix_indices (r_match r)) in
        match swa_branching_seqlen (r_match r), plan_window m (swa_branching_seqlen (r_match r))
                                                  (tokens st) (min_save st) (c_page c) with
        | Some f, Some s =>
            let '(matched, node_id, pinned) := match_full_device_prefix (fill_ids r) f in
            if negb (matched =? f) || (pinned <? f) then keep
            else
              let idx := collect_full_device_indices node_id in
              if zlen idx <? f then keep
              else
                let rws := view_rows (c_page c) (py_slice idx s f) in
                if negb (forallb (whole_page (c_page c)) rws) then keep
                else
                  let pages := map (fun row => default 0 (head row) / c_page c) rws in
                  let p := Plan s f pages (r_match r) in
                  let mt := Match (py_slice idx 0 s) node_id node_id node_id
                              (host_hit_length (r_match r)) (swa_host_hit_length (r_match r))
                              (swa_branching_seqlen (r_match r)) s in
                  (State (active st) (tokens st) (min_save st) (test st) (early_layers st)
                         (planned st + 1) (reverted st) (replayed st) (rows st) (errors st),
                   set_req r mt (Some p))
        | _, _ => keep
        end
  end.
End Plan.

(** ** Admission *)

Record admission := Admission { extend_len : Z; is_chunked : bool }.

Section Admission.
Context {A : Type}.
(** The engine's selection: an admission or a refusal (an [AddReqResult], an integer here),
    given the request and its [total_tokens] argument (absent in some calls). *)
Context (orig : A -> req -> option Z -> A * (admission + Z)).

Definition guarded_select (st : state) (a : A) (r : req) (total_tokens : option Z)
  : state * req * A * (admission + Z) :=
  let '(a1, answer) := orig a r total_tokens in
  match r_cone r, answer with
  | None, _ => (st, r, a1, answer)
  | Some _, inr _ => (st, r, a1, answer)
  | Some p, inl adm =>
      if (plan_n p <=? extend_len adm) && is_chunked adm then (st, r, a1, answer)
      else
        let delta := p_s p - zlen (prefix_indices (stock p)) in
        let '(st', r', _) := revert st r in
        let '(a2, answer') := orig a1 r' ((fun t => t + delta) <$> total_tokens) in
        (st', r', a2, answer')
  end.
End Admission.

(** ** The batch *)

(** (row start in the extend, replay rows, extend rows, s, resident pages). *)
Record entry := Entry { e_start : Z; e_n : Z; e_ext : Z; e_s : Z; e_src : list Z }.

(** [build_cone_batch]: every plan is consumed; a plan its first chunk does not cover raises. *)
Fixpoint build_cone_batch (start : Z) (batch : list (req * Z * Z)) : res (list entry) :=
  match batch with
  | [] => Ok []
  | (r, pre, ext) :: rest =>
      match r_cone r with
      | None => build_cone_batch (start + ext) rest
      | Some p =>
          if negb (pre =? p_s p) || (ext <? plan_n p) then Raise RuntimeError
          else es ← build_cone_batch (start + ext) rest;
               Ok (Entry start (plan_n p) ext (p_s p) (src_pages p) :: es)
      end
  end.

(** The requests after the collection. *)
Definition consumed (batch : list (req * Z * Z)) : list req :=
  map (fun x => set_req x.1.1 (r_match x.1.1) None) batch.

(** ** The forward side *)

(** [copy_full_pages] on one buffer of [per] rows per page: gather, then scatter. *)
Definition page_rows (per : Z) (pages : list Z) : list Z :=
  concat (map (fun p => map (fun o => p * per + o) (zrange 0 per)) pages).

Definition scatter {A} (buf : list A) (idx : list Z) (vals : list A) : list A :=
  foldl (fun b iv => <[Z.to_nat iv.1 := iv.2]> b) buf (zip idx vals).

(** [index_select]: an out-of-range index raises. *)
Definition gather {A} (buf : list A) (idx : list Z) : res (list A) :=
  mapR (fun i => match (if 0 <=? i then buf !! Z.to_nat i else None) with
                 | Some v => Ok v | None => Raise IndexError end) idx.

Definition copy_pages {A} (buf : list A) (per : Z) (src dst : list Z) : res (list A) :=
  let rs := if per =? 1 then src else page_rows per src in
  let rd := if per =? 1 then dst else page_rows per dst in
  vals ← gather buf rs;
  if forallb (fun i => (0 <=? i) && (i <? zlen buf)) rd
  then Ok (scatter buf rd vals) else Raise IndexError.

Definition copy_full_pages {A} (buffers : list (list A * Z)) (src dst : list Z) : res (list (list A * Z)) :=
  if zlen src =? 0 then Ok buffers
  else mapR (fun b => buf ← copy_pages b.1 b.2 src dst; Ok (buf, b.2)) buffers.

(** The fresh pages of an entry: [out_cache_loc[start:start + n:page] // page]. *)
Definition dst_pages (page : Z) (e : entry) (out_cache_loc : list Z) : list Z :=
  map (fun k => default 0 (out_cache_loc !! Z.to_nat (e_start e + k * page)) / page)
      (zrange 0 (cdiv (zlen (py_slice out_cache_loc (e_start e) (e_start e + e_n e))) page)).

Fixpoint replay_copy {A} (st : state) (buffers : list (list A * Z)) (page : Z) (es : list entry)
    (out_cache_loc : list Z) : res (state * list (list A * Z)) :=
  match es with
  | [] => Ok (st, buffers)
  | e :: rest =>
      let dst := dst_pages page e out_cache_loc in
      if negb (zlen dst =? zlen (e_src e)) then Raise AssertionError
      else
        bufs ← copy_full_pages buffers (e_src e) dst;
        replay_copy (State (active st) (tokens st) (min_save st) (test st) (early_layers st) (planned st)
                           (reverted st) (replayed st + 1) (rows st + e_n e) (errors st))
                    bufs page rest out_cache_loc
  end.

(** [l[lo:hi] = v] on a tensor. *)
Definition fill_slice {A} (l : list A) (lo hi : Z) (v : A) : list A :=
  imap (fun i x => if (lo <=? Z.of_nat i) && (Z.of_nat i <? hi) then v else x) l.

Definition floor_vector (es : list entry) (padded_rows : Z) : list Z :=
  foldl (fun v e => fill_slice v (e_start e) (e_start e + e_ext e) (e_s e))
        (replicate (Z.to_nat padded_rows) 0) es.

Definition mask_compressor_writes (loc : list Z) (es : list entry) : list Z :=
  foldl (fun v e => fill_slice v (e_start e) (e_start e + e_n e) 0) loc es.

Example replay_prod : min_replay_tokens 128 20 256 = 3072. Proof. reflexivity. Qed.
Example window_prod : plan_window 0 (Some 299520) 8192 8192 256 = Some 291328. Proof. reflexivity. Qed.

(** ** The dependency cone *)

(** [depends w l r i]: the output of row [r] after [l] layers of attention with window [w]
    depends on the input of row [i]. *)
Inductive depends (w : Z) : nat -> Z -> Z -> Prop :=
  | depends_input r : depends w 0 r r
  | depends_layer l r r' i :
      r - (w - 1) <= r' <= r -> depends w l r' i -> depends w (S l) r i.

Lemma depends_bound w l r i : depends w l r i -> r - (w - 1) * Z.of_nat l <= i <= r.
Proof. induction 1; lia. Qed.

Lemma min_replay_bounds w early page n :
  0 < page -> min_replay_tokens w early page <= n ->
  (w - 1) * early <= n /\ (w - 1) * (early - 1) + Z.max w page + page <= n.
Proof.
  intros Hp. unfold min_replay_tokens.
  set (need := Z.max _ _). pose proof (cdiv_spec need page Hp). unfold need in *. lia.
Qed.



(** ** Plans *)

Lemma plan_window_Some m f tokens min_save page s :
  plan_window m (Some f) tokens min_save page = Some s ->
  s = f - tokens /\ 0 < tokens /\ 0 < page /\ f mod page = 0 /\ tokens mod page = 0 /\
  m < s /\ min_save <= s - m.
Proof.
  unfold plan_window. destruct (_ || (page <=? 0)) eqn:E1; [done|].
  destruct (negb _ || _) eqn:E2; [done|]. destruct (_ || (_ <? min_save)) eqn:E3; [done|].
  intros [= <-]. blia.
Qed.

(** Rows of a segment of whole pages. *)
Lemma view_rows_lookup page seg k :
  0 < page -> zlen seg mod page = 0 -> 0 <= k < zlen seg ->
  exists row, view_rows page seg !! Z.to_nat (k / page) = Some row /\
    row !! Z.to_nat (k mod page) = seg !! Z.to_nat k.
Proof.
  intros Hp Hm Hk. unfold view_rows.
  pose proof (Z.div_mod k page ltac:(lia)). pose proof (Z.mod_pos_bound k page Hp).
  pose proof (Z.div_mod (zlen seg) page ltac:(lia)).
  assert (0 <= k / page) by (apply Z.div_pos; lia).
  assert (k / page < zlen seg / page) by (apply Z.div_lt_upper_bound; lia).
  rewrite list_lookup_fmap. unfold zrange. rewrite lookup_seqZ_lt by lia. simpl.
  eexists. split; [reflexivity|].
  rewrite Z2Nat.id by lia. simpl. rewrite py_slice_in by nia.
  rewrite lookup_take_lt by lia. rewrite lookup_drop. f_equal. nia.
Qed.

Lemma whole_page_lookup page row base i x :
  0 < page -> whole_page page row = true -> head row = Some base -> 0 <= i ->
  row !! Z.to_nat i = Some x -> x = base / page * page + i /\ i < page.
Proof.
  intros Hp Hw Hh Hi Hx. destruct row as [|b row]; [done|]. simpl in Hh. injection Hh as ->.
  unfold whole_page in Hw. apply andb_true_iff in Hw as [Hr Hb]. apply bool_decide_eq_true in Hr.
  rewrite Hr, list_lookup_fmap in Hx. unfold zrange in Hx.
  destruct (seqZ 0 (page - 0) !! Z.to_nat i) as [y|] eqn:Ey; [|done]. simpl in Hx. injection Hx as <-.
  apply lookup_seqZ in Ey as [-> Hlt].
  pose proof (Z.div_mod base page ltac:(lia)). lia.
Qed.

(** What a plan promises about the request it was made for. *)
Definition plan_ok (st : state) (r : req) (c : cache) (idx : list Z) (r' : req) (p : plan) : Prop :=
  let F := full_hit p in let s := p_s p in let page := c_page c in
  swa_branching_seqlen (r_match r) = Some F /\ s = F - tokens st /\ F mod page = 0 /\ 0 < page /\
  zlen (prefix_indices (r_match r)) < s /\ min_save st <= s - zlen (prefix_indices (r_match r)) /\
  stock p = r_match r /\ prefix_indices (r_match r') = take (Z.to_nat s) idx /\
  cache_protected_len (r_match r') = s /\ swa_branching_seqlen (r_match r') = Some F /\
  zlen (src_pages p) * page = F - s /\
  (forall k, 0 <= k < F - s -> exists pg, src_pages p !! Z.to_nat (k / page) = Some pg /\
     idx !! Z.to_nat (s + k) = Some (pg * page + k mod page)).

Lemma pages_of_rows page seg :
  0 < page -> zlen seg mod page = 0 -> forallb (whole_page page) (view_rows page seg) = true ->
  let pages := map (fun row => default 0 (head row) / page) (view_rows page seg) in
  zlen pages * page = zlen seg /\
  (forall k, 0 <= k < zlen seg -> exists pg, pages !! Z.to_nat (k / page) = Some pg /\
     seg !! Z.to_nat k = Some (pg * page + k mod page)).
Proof.
  intros Hp Hm Hall pages. pose proof (Z.div_mod (zlen seg) page ltac:(lia)) as Hdm.
  pose proof (zlen_nonneg seg).
  split.
  - unfold pages, view_rows. rewrite !zlen_map, zrange_length by (apply Z.div_pos; lia). lia.
  - intros k Hk. destruct (view_rows_lookup page seg k Hp Hm Hk) as (row & Hrow & Hk').
    exists (default 0 (head row) / page). split.
    { unfold pages. by rewrite list_lookup_fmap, Hrow. }
    rewrite forallb_forall in Hall. specialize (Hall row).
    assert (Hin : In row (view_rows page seg)) by (eapply list_elem_of_In, list_elem_of_lookup_2; eauto).
    specialize (Hall Hin). pose proof (Z.mod_pos_bound k page Hp).
    destruct row as [|b row]; [done|].
    assert (is_Some (seg !! Z.to_nat k)) as [x Hx] by (apply lookup_lt_is_Some; unfold zlen in *; lia).
    rewrite Hx in Hk'. destruct (whole_page_lookup page (b :: row) b (k mod page) x Hp Hall eq_refl ltac:(lia) Hk')
      as [-> _]. exact Hx.
Qed.

Section PlanProps.
Context (match_full_device_prefix : list Z -> Z -> Z * Z * Z)
        (collect_full_device_indices : Z -> list Z) (tree_pins_ok : bool).

(** C11: [plan_request] either leaves the match and the counters alone, or makes a plan that
    satisfies [plan_ok] over an exact replay length, whose resident pages hold exactly the
    KV indices of [s, F) of a prefix the tree holds and pins through F, and which [revert]
    undoes completely. *)
Theorem plan_request_sound st r c st' r' :
  plan_request match_full_device_prefix collect_full_device_indices tree_pins_ok st r c = (st', r') ->
  match r_cone r' with
  | None => st' = st /\ r' = set_req r (r_match r) None
  | Some p =>
      exists node pinned early,
        match_full_device_prefix (fill_ids r) (full_hit p) = (full_hit p, node, pinned) /\
        full_hit p <= pinned /\ early_layers st = Some early /\
        min_replay_tokens (c_window c) early (c_page c) <= plan_n p /\
        eligible_cache c = true /\ planned st' = planned st + 1 /\
        plan_ok st r c (collect_full_device_indices node) r' p /\
        revert st' r' = (State (active st') (tokens st') (min_save st') (test st') (early_layers st')
                               (planned st') (reverted st' + 1) (replayed st') (rows st') (errors st'),
                         set_req r (r_match r) None, true)
  end.
Proof.
  unfold plan_request. destruct (early_layers st) as [early|] eqn:Ee; [|by intros [= <- <-]].
  destruct (negb (active st)); [by intros [= <- <-]|]. destruct (negb tree_pins_ok); [by intros [= <- <-]|].
  destruct (negb (eligible_cache c) || _) eqn:Eel; [by intros [= <- <-]|].
  destruct (tokens st <? _) eqn:Et; [by intros [= <- <-]|]. simpl.
  destruct (swa_branching_seqlen (r_match r)) as [f|] eqn:Ef; [|by intros [= <- <-]].
  destruct (plan_window _ _ _ _ _) as [s|] eqn:Ew; [|by intros [= <- <-]].
  apply plan_window_Some in Ew as (-> & Htok & Hp & Hf & Htm & Hm & Hsave).
  destruct (match_full_device_prefix (fill_ids r) f) as [[matched node] pinned] eqn:Emf.
  destruct (negb (matched =? f) || (pinned <? f)) eqn:Epin; [by intros [= <- <-]|].
  destruct (zlen (collect_full_device_indices node) <? f) eqn:El; [by intros [= <- <-]|].
  destruct (negb (forallb _ _)) eqn:Er; [by intros [= <- <-]|]. intros [= <- <-]. simpl.
  apply negb_false_iff in Er. pose proof (zlen_nonneg (prefix_indices (r_match r))) as Hm0.
  set (idx := collect_full_device_indices node) in *.
  assert (Hseg : zlen (py_slice idx (f - tokens st) f) = tokens st).
  { rewrite py_slice_in by lia. unfold zlen in *. rewrite length_take, length_drop. lia. }
  destruct (pages_of_rows (c_page c) (py_slice idx (f - tokens st) f) Hp ltac:(by rewrite Hseg) Er) as [Hlen Hpg].
  rewrite Hseg in Hlen, Hpg.
  apply orb_false_iff in Epin as [Emat Epin].
  exists node, pinned, early. unfold plan_n. simpl.
  split; [rewrite Emf; repeat f_equal; lia|]. split; [lia|]. split; [done|]. split; [lia|].
  split; [apply orb_false_iff in Eel as [Eel _]; by apply negb_false_iff in Eel|]. split; [done|]. split.
  - unfold plan_ok. simpl. repeat split; try done; try lia.
    + rewrite py_slice_in by lia. by rewrite Z.sub_0_r.
    + intros k Hk. destruct (Hpg k ltac:(lia)) as (pg & H1 & H2). exists pg. split; [exact H1|].
      rewrite py_slice_in, lookup_take_lt, lookup_drop in H2 by lia. rewrite <- H2. f_equal. lia.
  - unfold revert. simpl. by destruct r.
Qed.
End PlanProps.

(** A request whose window was lost, at a small scale: pages of 4 tokens, window 4, two
    early layers, the full KV resident up to 24, no SWA-valid prefix. *)
Definition ex_idx (node : Z) : list Z := map (fun k => 40 + k) (zrange 0 28).
Definition ex_match : match_t := Match [] 0 0 0 0 0 (Some 24) 0.
Definition ex_req : req := Req ex_match None "r-1" false false false false false (-1) 30 false [].
Definition ex_cache : cache := Cache true false false false false true false true (Some 4) 4 4.
Definition ex_state : state := State true 12 4 false (Some 2) 0 0 0 0 0.

Lemma plan_request_sound_witness :
  let '(st', r') := plan_request (fun _ f => (f, 5, f)) ex_idx true ex_state ex_req ex_cache in
  exists p, r_cone r' = Some p /\ p_s p = 12 /\ zlen (src_pages p) * 4 = 12.
Proof.
  destruct (plan_request (fun _ f => (f, 5, f)) ex_idx true ex_state ex_req ex_cache) as [st' r'] eqn:E.
  pose proof (plan_request_sound (fun _ f => (f, 5, f)) ex_idx true ex_state ex_req ex_cache st' r' E) as H.
  destruct (r_cone r') as [p|] eqn:Ep.
  - destruct H as (node & pinned & early & _ & _ & _ & _ & _ & _ & (Hf & Hs & _ & _ & _ & _ & _ & _ & _ & _ & Hlen & _) & _).
    simpl in Hf. injection Hf as Hf. rewrite <- Hf in Hs, Hlen. rewrite Hs in Hlen.
    exists p. split; [reflexivity|]. split; [exact Hs | exact Hlen].
  - exfalso. apply (f_equal (fun x => r_cone x.2)) in E. simpl snd in E. rewrite Ep in E.
    vm_compute in E. discriminate E.
Defined.

(** The admission guard: a request keeps its plan only if the engine's answer is a
    refusal or a chunked admission whose first chunk covers the whole replay; otherwise it
    is back on its stock match, re-admitted with the longer extend charged, and the plan is
    counted as reverted. *)
Theorem guarded_select_covers {A} (orig : A -> req -> option Z -> A * (admission + Z)) st a r total st' r' a' answer :
  guarded_select orig st a r total = (st', r', a', answer) ->
  (r' = r /\ st' = st /\ orig a r total = (a', answer) /\
     forall p adm, r_cone r = Some p -> answer = inl adm ->
       plan_n p <= extend_len adm /\ is_chunked adm = true) \/
  (exists p a1 adm, r_cone r = Some p /\ r' = set_req r (stock p) None /\
     reverted st' = reverted st + 1 /\ orig a r total = (a1, inl adm) /\
     (extend_len adm < plan_n p \/ is_chunked adm = false) /\
     orig a1 r' ((fun t => t + (p_s p - zlen (prefix_indices (stock p)))) <$> total) = (a', answer)).
Proof.
  unfold guarded_select. destruct (orig a r total) as [a1 ans] eqn:E1.
  destruct (r_cone r) as [p|] eqn:Ep; [|by intros [= <- <- <- <-]; left; naive_solver].
  destruct ans as [adm|x]; [|intros [= <- <- <- <-]; left; repeat split; congruence].
  destruct (_ && is_chunked adm) eqn:E2.
  - intros [= <- <- <- <-]. left. apply andb_true_iff in E2 as [E2 E3].
    repeat split; try done; intros; simplify_eq; try done; lia.
  - unfold revert. rewrite Ep. destruct (orig a1 _ _) as [a2 ans2] eqn:E3. intros [= <- <- <- <-].
    right. exists p, a1, adm. repeat split; try done.
    apply andb_false_iff in E2 as [E2|E2]; [left; lia | by right].
Qed.

Definition ex_plan : plan := Plan 12 24 [13; 14; 15] ex_match.

Lemma guarded_select_covers_witness :
  let orig := fun (n : Z) (r : req) (_ : option Z) => (n + 1, inl (Admission 8 true)) in
  let r := set_req ex_req (Match (zrange 40 52) 5 5 5 0 0 (Some 24) 12) (Some ex_plan) in
  exists st' r' a' answer,
    guarded_select orig ex_state 0 r (Some 100) = (st', r', a', answer) /\ r_cone r' = None /\ a' = 2.
Proof.
  intros orig r. destruct (guarded_select orig ex_state 0 r (Some 100)) as [[[st' r'] a'] answer] eqn:E.
  exists st', r', a', answer. split; [reflexivity|].
  destruct (guarded_select_covers orig _ _ _ _ _ _ _ _ E)
    as [(_ & _ & Ho & H) | (p & a1 & adm & _ & Hr & _ & H1 & _ & H2)].
  - unfold orig in Ho. injection Ho as _ <-.
    destruct (H ex_plan (Admission 8 true) eq_refl eq_refl) as [H1 _]. vm_compute in H1. contradiction.
  - rewrite Hr. split; [reflexivity|]. unfold orig in H1, H2. injection H1 as <- _. injection H2 as <- _.
    reflexivity.
Defined.

(** ** The page copy *)

Lemma scatter_length {A} (buf : list A) idx vals : length (scatter buf idx vals) = length buf.
Proof.
  unfold scatter. revert buf. induction (zip idx vals) as [|[i v] l IH]; intros buf; simpl; [done|].
  by rewrite IH, length_insert.
Qed.

Lemma scatter_other {A} (buf : list A) idx vals j :
  (forall i, i ∈ idx -> Z.to_nat i <> j) -> scatter buf idx vals !! j = buf !! j.
Proof.
  unfold scatter. revert buf vals. induction idx as [|i idx IH]; intros buf [|v vals] Hj; simpl; try done.
  rewrite IH by (intros; apply Hj; by right). apply list_lookup_insert_ne. apply Hj. left.
Qed.

Lemma scatter_at {A} (buf : list A) idx vals k i v :
  NoDup idx -> Forall (fun i => 0 <= i < zlen buf) idx ->
  idx !! k = Some i -> vals !! k = Some v -> scatter buf idx vals !! Z.to_nat i = Some v.
Proof.
  revert buf vals k. induction idx as [|i0 idx IH]; intros buf vals k Hnd Hr Hi Hv; [by destruct k|].
  apply NoDup_cons in Hnd as [Hn Hnd]. apply Forall_cons in Hr as [Hr0 Hr].
  destruct vals as [|v0 vals]; [by destruct k|]. unfold scatter. simpl. fold (scatter (<[Z.to_nat i0:=v0]> buf) idx vals).
  destruct k as [|k]; simpl in Hi, Hv; simplify_eq.
  - rewrite scatter_other; [apply list_lookup_insert_eq; unfold zlen in Hr0; lia|].
    intros j Hj Heq. rewrite Forall_forall in Hr. specialize (Hr j Hj). apply Hn. by replace i with j by lia.
  - apply (IH _ _ k); try done. unfold zlen. rewrite length_insert. done.
Qed.

Lemma page_rows_lookup per pages k p o :
  0 <= o < per -> pages !! k = Some p ->
  page_rows per pages !! (k * Z.to_nat per + Z.to_nat o)%nat = Some (p * per + o).
Proof.
  intros Ho. unfold page_rows. revert k. induction pages as [|q pages IH]; intros k Hk; [by destruct k|].
  simpl map. simpl concat.
  set (row := map (fun o => q * per + o) (zrange 0 per)).
  assert (Hlen : length row = Z.to_nat per).
  { pose proof (zrange_length 0 per ltac:(lia)). unfold row. rewrite length_map. unfold zlen in *. lia. }
  destruct k as [|k]; simpl in Hk; simplify_eq.
  - rewrite lookup_app_l by lia. unfold row. rewrite list_lookup_fmap. unfold zrange.
    rewrite lookup_seqZ_lt by lia. simpl. f_equal. lia.
  - rewrite lookup_app_r by (rewrite Hlen; lia). rewrite Hlen.
    replace (S k * Z.to_nat per + Z.to_nat o - Z.to_nat per)%nat with (k * Z.to_nat per + Z.to_nat o)%nat by lia.
    by apply IH.
Qed.

Lemma page_rows_elem per pages i :
  i ∈ page_rows per pages <-> exists p o, p ∈ pages /\ 0 <= o < per /\ i = p * per + o.
Proof.
  unfold page_rows. rewrite list_elem_of_In, in_concat. split.
  - intros (row & Hrow & Hi). apply in_map_iff in Hrow as (p & <- & Hp).
    apply in_map_iff in Hi as (o & <- & Ho). exists p, o.
    rewrite list_elem_of_In. rewrite <- list_elem_of_In, zrange_elem in Ho. done.
  - intros (p & o & Hp & Ho & ->). exists (map (fun o => p * per + o) (zrange 0 per)). split.
    + apply in_map_iff. exists p. by rewrite <- list_elem_of_In.
    + apply in_map_iff. exists o. split; [done|]. by apply list_elem_of_In, zrange_elem.
Qed.

Lemma page_rows_NoDup per pages : 0 < per -> NoDup pages -> NoDup (page_rows per pages).
Proof.
  intros Hper Hnd. unfold page_rows. induction Hnd as [|p pages Hp Hnd IH]; simpl; [constructor|].
  apply NoDup_app. split; [|split; [|exact IH]].
  - apply NoDup_fmap_2; [intros x y; lia | apply NoDup_seqZ].
  - intros x Hx Hx'. fold (page_rows per pages) in Hx'. apply page_rows_elem in Hx' as (q & o' & Hq & Ho' & Heq).
    apply list_elem_of_fmap in Hx as (o & -> & Ho). apply zrange_elem in Ho.
    assert (p = q) by nia. by subst.
Qed.

Lemma page_rows_1 pages : page_rows 1 pages = pages.
Proof.
  induction pages as [|p pages IH]; [done|].
  change (page_rows 1 (p :: pages)) with (map (fun o => p * 1 + o) (zrange 0 1) ++ page_rows 1 pages).
  rewrite IH. change (zrange 0 1) with [0]. cbn [map app]. f_equal. lia.
Qed.

Lemma page_rows_length per pages : 0 <= per -> zlen (page_rows per pages) = per * zlen pages.
Proof.
  intros Hper. induction pages as [|p pages IH]; [unfold zlen; simpl; lia|].
  change (page_rows per (p :: pages)) with (map (fun o => p * per + o) (zrange 0 per) ++ page_rows per pages).
  rewrite zlen_app, zlen_map, zrange_length, zlen_cons, IH by done. lia.
Qed.

Lemma pages_arg per pages : (if per =? 1 then pages else page_rows per pages) = page_rows per pages.
Proof. destruct (Z.eqb_spec per 1) as [->|]; [by rewrite page_rows_1 | done]. Qed.

(** The destination pages hold the source pages' old rows and nothing else changed. *)
Definition pages_copied {A} (per : Z) (src dst : list Z) (buf buf' : list A) : Prop :=
  length buf' = length buf /\
  (forall k p q o, src !! k = Some p -> dst !! k = Some q -> 0 <= o < per ->
     buf' !! Z.to_nat (q * per + o) = buf !! Z.to_nat (p * per + o)) /\
  (forall j, (forall q o, q ∈ dst -> 0 <= o < per -> Z.to_nat (q * per + o) <> j) -> buf' !! j = buf !! j).

Definition pages_in {A} (buf : list A) (per : Z) (pages : list Z) : Prop :=
  Forall (fun p => 0 <= p /\ (p + 1) * per <= zlen buf) pages.

Lemma page_rows_in {A} (buf : list A) per pages :
  0 < per -> pages_in buf per pages -> Forall (fun i => 0 <= i < zlen buf) (page_rows per pages).
Proof.
  intros Hper Hin. apply Forall_forall. intros i (p & o & Hp & Ho & ->)%page_rows_elem.
  unfold pages_in in Hin. rewrite Forall_forall in Hin. specialize (Hin p Hp). nia.
Qed.

Lemma gather_total {A} (buf : list A) idx :
  Forall (fun i => 0 <= i < zlen buf) idx ->
  exists vals, gather buf idx = Ok vals /\ length vals = length idx /\
    forall k i, idx !! k = Some i -> vals !! k = buf !! Z.to_nat i.
Proof.
  intros Hin. unfold gather.
  set (f := fun i => match (if 0 <=? i then buf !! Z.to_nat i else None) with
                     | Some v => Ok v | None => Raise IndexError end).
  assert (Hf : forall i, i ∈ idx -> exists v, f i = Ok v /\ buf !! Z.to_nat i = Some v).
  { intros i Hi. rewrite Forall_forall in Hin. specialize (Hin i Hi). unfold f.
    replace (0 <=? i) with true by lia.
    destruct (buf !! Z.to_nat i) eqn:E; [eauto|]. apply lookup_ge_None in E. unfold zlen in Hin. lia. }
  destruct (mapR_total f idx) as [vals Hv]; [intros i Hi; destruct (Hf i Hi) as (v & ? & _); eauto|].
  exists vals. split; [done|]. split; [by apply mapR_Ok_length in Hv|].
  intros k i Hk. destruct (mapR_Ok_lookup _ _ _ _ _ Hv Hk) as (y & -> & Hy).
  destruct (Hf i) as (v & Hfi & ->); [by eapply list_elem_of_lookup_2|]. congruence.
Qed.

Lemma copy_pages_correct {A} (buf : list A) per src dst :
  0 < per -> NoDup dst -> length src = length dst -> pages_in buf per src -> pages_in buf per dst ->
  exists buf', copy_pages buf per src dst = Ok buf' /\ pages_copied per src dst buf buf'.
Proof.
  intros Hper Hnd Hlen Hs Hd. unfold copy_pages. rewrite !pages_arg.
  pose proof (page_rows_in buf per dst Hper Hd) as Hd'.
  destruct (gather_total buf _ (page_rows_in buf per src Hper Hs)) as (vals & -> & Hvl & Hvals).
  simpl. replace (forallb _ _) with true; cycle 1.
  { symmetry. apply forallb_forall. intros i Hi%list_elem_of_In. rewrite Forall_forall in Hd'.
    specialize (Hd' i Hi). lia. }
  eexists. split; [reflexivity|]. split; [apply scatter_length|]. split.
  - intros k p q o Hp Hq Ho.
    assert (Hv : vals !! (k * Z.to_nat per + Z.to_nat o)%nat = buf !! Z.to_nat (p * per + o))
      by (by apply Hvals, page_rows_lookup).
    destruct (buf !! Z.to_nat (p * per + o)) as [x|] eqn:Ex.
    + eapply scatter_at; eauto using page_rows_NoDup, page_rows_lookup.
    + exfalso. apply lookup_ge_None in Ex. unfold pages_in in Hs. rewrite Forall_forall in Hs.
      specialize (Hs p ltac:(by eapply list_elem_of_lookup_2)). unfold zlen in Hs. nia.
  - intros j Hj. apply scatter_other. intros i (q & o & Hq & Ho & ->)%page_rows_elem. by apply Hj.
Qed.

(** The resident pages are copied into every buffer exactly: each destination page row
    equals the source page row as it was before the copy, no other row of any buffer
    changes, and in-range pages never raise. *)
Theorem copy_full_pages_correct {A} (buffers : list (list A * Z)) src dst :
  NoDup dst -> length src = length dst ->
  Forall (fun b => 0 < b.2 /\ pages_in b.1 b.2 src /\ pages_in b.1 b.2 dst) buffers ->
  exists buffers', copy_full_pages buffers src dst = Ok buffers' /\
    Forall2 (fun b b' => b'.2 = b.2 /\ pages_copied b.2 src dst b.1 b'.1) buffers buffers'.
Proof.
  intros Hnd Hlen Hall. unfold copy_full_pages. destruct (zlen src =? 0) eqn:E.
  - exists buffers. split; [done|].
    assert (src = []) as -> by (destruct src; [done | rewrite zlen_cons in E; pose proof (zlen_nonneg src); lia]).
    apply Forall_Forall2_diag, Forall_forall. intros b _. split; [done|]. split; [done|]. split; [done|]. done.
  - clear E. induction Hall as [|[buf per] buffers (Hper & Hs & Hd) Hall IH]; simpl; [eauto|].
    destruct (copy_pages_correct buf per src dst Hper Hnd Hlen Hs Hd) as (buf' & E1 & Hc).
    destruct IH as (bs & -> & H2). simpl in E1. rewrite E1. simpl. eexists. split; [reflexivity|].
    by constructor.
Qed.

Lemma copy_full_pages_correct_witness :
  copy_full_pages [([0; 1; 2; 3; 4; 5; 6; 7], 2); ([10; 11; 12; 13], 1)] [0; 3] [3; 1]
    = Ok [([0; 1; 6; 7; 4; 5; 0; 1], 2); ([10; 13; 12; 10], 1)] /\
  exists b', copy_full_pages [([0; 1; 2; 3; 4; 5; 6; 7], 2); ([10; 11; 12; 13], 1)] [0; 3] [3; 1] = Ok b'.
Proof.
  split; [reflexivity|].
  destruct (copy_full_pages_correct [([0; 1; 2; 3; 4; 5; 6; 7], 2); ([10; 11; 12; 13], 1)] [0; 3] [3; 1])
    as (b' & E & _).
  - apply (bool_decide_unpack _). vm_compute. exact I.
  - reflexivity.
  - repeat constructor; vm_compute; congruence.
  - exists b'. exact E.
Defined.

(** ** Floors and masks *)

Lemma fill_slice_lookup {A} (l : list A) lo hi (v : A) i :
  fill_slice l lo hi v !! i =
    (fun x => if (lo <=? Z.of_nat i) && (Z.of_nat i <? hi) then v else x) <$> l !! i.
Proof. apply list_lookup_imap. Qed.

(** Both forward passes write one slice per entry. *)
Definition fill_entries (len val : entry -> Z) (v : list Z) (es : list entry) : list Z :=
  foldl (fun v e => fill_slice v (e_start e) (e_start e + len e) (val e)) v es.

Lemma fill_entries_cons len val v e es :
  fill_entries len val v (e :: es) =
  fill_entries len val (fill_slice v (e_start e) (e_start e + len e) (val e)) es.
Proof. reflexivity. Qed.

(** The total extend length of a batch prefix: the row where the next request starts. *)
Definition rows_before (batch : list (req * Z * Z)) : Z := zsum (map (fun x => x.2) batch).

Lemma fill_entries_before len val batch start es v i :
  build_cone_batch start batch = Ok es -> Forall (fun x => 0 <= x.2) batch ->
  Z.of_nat i < start -> fill_entries len val v es !! i = v !! i.
Proof.
  intros Hb Hext. revert start es v Hb. induction Hext as [|[[r pre] ext] batch Hx _ IH];
    intros start es v Hb Hi; simpl in *; [by simplify_eq|].
  destruct (r_cone r) as [p|]; [|eapply IH; eauto; lia].
  destruct (_ || _); [done|]. destruct (build_cone_batch _ batch) as [es'|] eqn:E; [|done].
  simpl in Hb. simplify_eq. rewrite fill_entries_cons, (IH (start + ext) es') by (done || lia). simpl.
  rewrite fill_slice_lookup. destruct (v !! i); [|done]. simpl.
  replace (start <=? Z.of_nat i) with false by lia. done.
Qed.

(** What the passes write: at most the request's own rows. *)
Definition within_ext (len : entry -> Z) : Prop :=
  forall e, e_n e <= e_ext e -> len e <= e_ext e.

Lemma build_Ok_cons start r pre ext batch es :
  build_cone_batch start ((r, pre, ext) :: batch) = Ok es ->
  exists es', build_cone_batch (start + ext) batch = Ok es' /\
    match r_cone r with
    | None => es = es'
    | Some p => pre = p_s p /\ plan_n p <= ext /\ es = Entry start (plan_n p) ext (p_s p) (src_pages p) :: es'
    end.
Proof.
  simpl. destruct (r_cone r) as [p|]; [|eauto].
  destruct (_ || _) eqn:E; [done|]. destruct (build_cone_batch _ batch) as [es'|]; [|done].
  intros [= <-]. exists es'. split; [done|].
  apply orb_false_iff in E as [E1 E2]. apply negb_false_iff in E1. split; [lia | split; [lia | done]].
Qed.

(** The rows of one request of the batch after the passes. *)
Lemma fill_entries_row len val b1 r pre ext b2 start es v k x :
  within_ext len ->
  build_cone_batch start (b1 ++ (r, pre, ext) :: b2) = Ok es ->
  Forall (fun x => 0 <= x.2) (b1 ++ (r, pre, ext) :: b2) -> 0 <= start -> 0 <= k < ext ->
  v !! Z.to_nat (start + rows_before b1 + k) = Some x ->
  fill_entries len val v es !! Z.to_nat (start + rows_before b1 + k) =
    Some (match r_cone r with
          | Some p => let e := Entry (start + rows_before b1) (plan_n p) ext (p_s p) (src_pages p) in
                      if k <? len e then val e else x
          | None => x
          end).
Proof.
  intros Hlen. revert start es v. induction b1 as [|[[r1 pre1] ext1] b1 IH]; intros start es v Hb Hext Hst Hk Hx.
  - unfold rows_before in *. simpl app in *. simpl zsum in *. rewrite Z.add_0_r in *.
    apply Forall_cons in Hext as [He Hext].
    apply build_Ok_cons in Hb as (es' & Hb & Hes).
    pose proof (fill_entries_before len val _ _ _ v (Z.to_nat (start + k)) Hb Hext ltac:(lia)) as Hbefore.
    destruct (r_cone r) as [p|]; [|by subst es; rewrite Hbefore].
    destruct Hes as (_ & _ & ->).
    rewrite fill_entries_cons, (fill_entries_before len val _ _ _ _ _ Hb Hext) by lia.
    rewrite fill_slice_lookup, Hx. simpl. f_equal.
    rewrite Z2Nat.id by lia. replace (start <=? start + k) with true by lia. simpl.
    set (l := len _). destruct (k <? l) eqn:Ek; [replace (start + k <? start + l) with true by lia
                                                 | replace (start + k <? start + l) with false by lia]; done.
  - rewrite <- app_comm_cons in Hb, Hext. apply build_Ok_cons in Hb as (es' & Hb & Hes).
    apply Forall_cons in Hext as [He Hext]. simpl in He.
    assert (Hrows : start + rows_before ((r1, pre1, ext1) :: b1) = start + ext1 + rows_before b1)
      by (unfold rows_before; simpl; lia).
    assert (0 <= rows_before b1).
    { unfold rows_before. apply zsum_nonneg. apply Forall_fmap, Forall_forall. intros y Hy.
      rewrite Forall_forall in Hext. apply Hext. apply elem_of_app. by left. }
    rewrite Hrows in *.
    destruct (r_cone r1) as [p1|]; [|subst es; apply IH; done || lia].
    destruct Hes as (_ & Hn & ->). rewrite fill_entries_cons. simpl e_start.
    apply (IH (start + ext1) es'); try done; [lia|].
    rewrite fill_slice_lookup, Hx. simpl. f_equal. rewrite Z2Nat.id by lia.
    pose proof (Hlen (Entry start (plan_n p1) ext1 (p_s p1) (src_pages p1)) Hn) as Hl. simpl in Hl.
    match goal with |- context [_ <? start + ?l] =>
      replace (start + ext1 + rows_before b1 + k <? start + l) with false by lia end.
    by rewrite andb_false_r.
Qed.

(** In the forward pass of a collected batch, every row of a replaying request is
    floored at its replay start and exactly its replay rows have their compressor writes
    redirected to the padding slot; the rows of all other requests keep floor 0 and their
    own write slots. *)
Theorem forward_masks_exact batch es b1 r pre ext b2 padded loc k x :
  batch = b1 ++ (r, pre, ext) :: b2 ->
  build_cone_batch 0 batch = Ok es -> Forall (fun x => 0 <= x.2) batch ->
  0 <= k < ext -> rows_before batch <= padded ->
  let row := Z.to_nat (rows_before b1 + k) in
  loc !! row = Some x ->
  floor_vector es padded !! row = Some (from_option p_s 0 (r_cone r)) /\
  mask_compressor_writes loc es !! row =
    Some (match r_cone r with Some p => if k <? plan_n p then 0 else x | None => x end) /\
  (forall p, r_cone r = Some p -> pre = p_s p /\ plan_n p <= ext).
Proof.
  intros -> Hb Hext Hk Hpad row Hx.
  assert (Hrow : row = Z.to_nat (0 + rows_before b1 + k)) by (unfold row; f_equal; lia).
  clearbody row. subst row.
  assert (Hpos : forall l, Forall (fun x : req * Z * Z => 0 <= x.2) l -> 0 <= rows_before l).
  { intros l Hl. apply zsum_nonneg. by apply Forall_fmap. }
  apply Forall_app in Hext as Hext'. destruct Hext' as [H1 H2]. apply Forall_cons in H2 as [_ H2].
  pose proof (Hpos _ H1). pose proof (Hpos _ H2).
  assert (Hsum : rows_before (b1 ++ (r, pre, ext) :: b2) = rows_before b1 + ext + rows_before b2).
  { unfold rows_before. rewrite map_app, zsum_app. simpl. lia. }
  split; [|split].
  - change (floor_vector es padded) with (fill_entries e_ext e_s (replicate (Z.to_nat padded) 0) es).
    erewrite (fill_entries_row e_ext e_s); eauto; try lia.
    + destruct (r_cone r); [simpl; replace (k <? ext) with true by lia; done | done].
    + intros e _. lia.
    + apply lookup_replicate_2. lia.
  - change (mask_compressor_writes loc es) with (fill_entries e_n (fun _ => 0) loc es).
    erewrite (fill_entries_row e_n (fun _ => 0)); eauto; try lia.
    intros e He. exact He.
  - intros p Hp. clear - Hb Hp. revert es Hb. generalize 0 as start.
    induction b1 as [|[[r1 pre1] ext1] b1 IH]; intros start es Hb;
      [rewrite app_nil_l in Hb | rewrite <- app_comm_cons in Hb]; apply build_Ok_cons in Hb as (es' & Hb & Hes).
    + rewrite Hp in Hes. naive_solver.
    + by apply (IH _ _ Hb).
Qed.

Lemma forward_masks_exact_witness :
  let r := set_req ex_req ex_match (Some ex_plan) in
  let batch := [(ex_req, 0, 3); (r, 12, 16)] in
  build_cone_batch 0 batch = Ok [Entry 3 12 16 12 [13; 14; 15]] /\
  floor_vector [Entry 3 12 16 12 [13; 14; 15]] 20 !! 17%nat = Some 12 /\
  mask_compressor_writes (zrange 100 120) [Entry 3 12 16 12 [13; 14; 15]] !! 17%nat = Some 117.
Proof.
  intros r batch. split; [reflexivity|].
  destruct (forward_masks_exact batch [Entry 3 12 16 12 [13; 14; 15]] [(ex_req, 0, 3)] r 12 16 [] 20
              (zrange 100 120) 14 117) as (H1 & H2 & _); try reflexivity.
  - repeat constructor; vm_compute; discriminate.
  - split; [discriminate | reflexivity].
  - vm_compute; discriminate.
  - split; [exact H1 | exact H2].
Defined.
