(* ===== verification/FastLoad.v ===== *)
(** * Fast checkpoint loading: what a rank reads and where it puts it (adapter/fast_load.py)

    The names a rank needs of a shard, the slice of a routed expert it keeps under
    expert tensor parallelism, the byte ranges of a read plan and the packing of a
    plan's tensors into slabs.  A shard's header is the dictionary of its entries in
    file order; opening the file and parsing the header are not modelled.  The reads
    themselves, the wrapped shard handle and the pacing of the copies are in
    FastLoadRead. *)
From S2P Require Import Prelude PyStr.
#[local] Open Scope string_scope.
#[local] Open Scope list_scope.
#[local] Open Scope Z_scope.

Definition DRAFT_PREFIX : string := "mtp.".
Definition ENGRAM_TABLE : string := ".engram.embed.".
Definition SLAB_ALIGN : Z := 4096.
(** The sliced dimension of each routed-expert projection, and the sliced kinds of tensor. *)
Definition TP_SLICE_DIM : list (string * Z) := [("w1", 0); ("w3", 0); ("w2", 1)].
Definition TP_SLICE_KINDS : list string := ["weight"; "scale"].

Definition enabled (env : environ) : bool :=
  one_of (strip (env_get env "DSV41_FAST_LOAD" "0")) ["1"; "on"; "true"].

Definition observing (env : environ) : bool :=
  enabled env || String.eqb (strip (env_get env "DSV41_FAST_LOAD" "0")) "observe".

(** ** The parallel layout *)

(** [_ep_info] and [_moe_tp_info]: the runtime's answer, the distributed module's, or the
    rank arithmetic from the TP rank and size and the configured EP size. *)
Definition ep_info (runtime dist : res (Z * Z)) (ep_size : res Z) (tp : res (Z * Z)) : option (Z * Z) :=
  match runtime with
  | Ok x => Some x
  | Raise _ =>
      match dist with
      | Ok x => Some x
      | Raise _ =>
          match ep_size, tp with
          | Ok e, Ok (rank, size) =>
              if (e =? 0) || (size / e =? 0) then None else Some (rank / (size / e), e)
          | _, _ => None
          end
      end
  end.

Definition moe_tp_info (runtime dist : res (Z * Z)) (ep_size : res Z) (tp : res (Z * Z)) : option (Z * Z) :=
  match runtime with
  | Ok x => Some x
  | Raise _ =>
      match dist with
      | Ok x => Some x
      | Raise _ =>
          match ep_size, tp with
          | Ok e, Ok (rank, size) =>
              if (e =? 0) || (size / e =? 0) then None else Some (rank mod (size / e), size / e)
          | _, _ => None
          end
      end
  end.

Inductive slice_mode := Off | On | Auto.

#[export] Instance slice_mode_eq_dec : EqDecision slice_mode.
Proof. solve_decision. Defined.

Definition tp_slice_mode (env : environ) : slice_mode :=
  let v := lower (strip (env_get env "DSV41_FAST_LOAD_TP_SLICE" "auto")) in
  if one_of v ["0"; "off"; "false"] then Off
  else if one_of v ["1"; "on"; "true"; "force"] then On else Auto.

Definition tp_slicing (ep tp : option (Z * Z)) (mode : slice_mode) : option (Z * Z) :=
  match mode, tp with
  | Off, _ | _, None => None
  | _, Some (rank, size) =>
      if size <=? 1 then None
      else match mode, ep with
           | Auto, None => None
           | Auto, Some (_, ep_size) => if negb (ep_size =? 1) then None else Some (rank, size)
           | _, _ => Some (rank, size)
           end
  end.

(** ** Configuration lookup *)

Inductive json :=
  | JNull
  | JInt (z : Z)
  | JOther                (* a value [int] rejects *)
  | JObj (fields : list (string * json)).

(** [_find_key]: the value at the key, else the first hit inside a field's value. *)
Fixpoint find_key (j : json) (key : string) : option json :=
  match j with
  | JObj fields =>
      let fix get (l : list (string * json)) : option json :=
        match l with
        | [] => None
        | (k, v) :: l' => if String.eqb k key then Some v else get l'
        end in
      let fix scan (l : list (string * json)) : option json :=
        match l with
        | [] => None
        | (_, v) :: l' => match find_key v key with Some x => Some x | None => scan l' end
        end in
      match get fields with
      | Some JNull => None
      | Some v => Some v
      | None => scan fields
      end
  | _ => None
  end.

(** [_n_routed_experts]: from config.json, else from the environment. *)
Definition n_routed_experts (config : res json) (env : environ) : res (option Z) :=
  match config with
  | Ok j =>
      match find_key j "n_routed_experts" with
      | Some (JInt z) => Ok (Some z)
      | _ => match env "DSV41_FAST_LOAD_N_EXPERTS" with
             | Some s => if String.eqb s "" then Ok None else Some <$> py_int s
             | None => Ok None
             end
      end
  | Raise _ => match env "DSV41_FAST_LOAD_N_EXPERTS" with
               | Some s => if String.eqb s "" then Ok None else Some <$> py_int s
               | None => Ok None
               end
  end.

(** ** Which tensors a rank needs *)

Record info := Info { dtype : string; shape : list Z; data_offsets : Z * Z }.

Definition header := list (string * info).

Fixpoint hget {A} (h : list (string * A)) (k : string) : res A :=
  match h with
  | [] => Raise KeyError
  | (k', i) :: h' => if String.eqb k' k then Ok i else hget h' k
  end.

Definition expert_id (name : string) : option Z :=
  match split1 ".experts." name with
  | None => None
  | Some (_, rest) =>
      match py_int (head_of "." rest) with
      | Ok e => Some e
      | Raise _ => None
      end
  end.

(** Tensors no target load reads: the draft's and the Engram tables. *)
Definition skipped (k : string) : bool := startswith DRAFT_PREFIX k || contains ENGRAM_TABLE k.

Definition needed_names (h : header) (phase : string) (ep : option (Z * Z)) (n_routed : option Z)
  : res (list string) :=
  let keys := map fst h in
  if String.eqb phase "draft" then Ok (List.filter (startswith DRAFT_PREFIX) keys)
  else
    let dense := List.filter (fun k => negb (skipped k) && bool_decide (expert_id k = None)) keys in
    match ep, n_routed with
    | Some (rank, size), Some n =>
        if size =? 0 then Raise ZeroDivisionError
        else if negb (n mod size =? 0) then Ok dense
        else
          let per_rank := n / size in
          let lo := rank * per_rank in
          let hi := (rank + 1) * per_rank in
          Ok (List.filter (fun k => negb (skipped k) &&
                match expert_id k with
                | None => true
                | Some e => (lo <=? e) && (e <? hi)
                end) keys)
    | _, _ => Ok dense
    end.

(** ** Slices *)

Definition DOT : Ascii.ascii := Ascii.ascii_of_nat 46.

Definition spec := (Z * Z * Z)%type.   (* dim, start, length *)

Definition dim_of (proj : string) : option Z :=
  match hget TP_SLICE_DIM proj with Ok d => Some d | Raise _ => None end.

Definition slice_spec (name : string) (i : info) (tp : option (Z * Z)) : res (option spec) :=
  match tp, expert_id name with
  | Some (rank, size), Some _ =>
      match rsplit2 DOT name with
      | [_; proj; kind] =>
          match dim_of proj with
          | Some dim =>
              if negb (one_of kind TP_SLICE_KINDS) then Ok None
              else match shape i !! Z.to_nat dim with
                   | None => Ok None
                   | Some n =>
                       if size =? 0 then Raise ZeroDivisionError
                       else if negb (n mod size =? 0) then Ok None
                       else let length := n / size in Ok (Some (dim, rank * length, length))
                   end
          | None => Ok None
          end
      | _ => Ok None
      end
  | _, _ => Ok None
  end.

Definition plan := list (string * option spec).

Definition plan_entry (h : header) (tp : option (Z * Z)) (k : string) : res (string * option spec) :=
  i ← hget h k;
  s ← slice_spec k i tp;
  Ok (k, s).

Definition read_plan (h : header) (phase : string) (ep : option (Z * Z)) (n_routed : option Z)
    (tp : option (Z * Z)) (experts : bool) : res plan :=
  names ← needed_names h phase ep n_routed;
  let names' := if experts then names else List.filter (fun k => bool_decide (expert_id k = None)) names in
  mapR (plan_entry h tp) names'.

(** ** Bytes *)

Definition itemsize (d : string) : Z :=
  if one_of d ["F64"; "I64"] then 8
  else if one_of d ["F32"; "I32"] then 4
  else if one_of d ["BF16"; "F16"; "I16"] then 2
  else 1.

Fixpoint zprod (l : list Z) : Z :=
  match l with [] => 1 | x :: l' => x * zprod l' end.

(** (outer, row bytes, inner bytes): the tensor as [outer, shape[dim], inner]. *)
Definition slice_geometry (i : info) (s : spec) : res (Z * Z * Z) :=
  let '(dim, _, _) := s in
  match shape i !! Z.to_nat dim with
  | None => Raise IndexError
  | Some n =>
      let inner := itemsize (dtype i) * zprod (drop (S (Z.to_nat dim)) (shape i)) in
      Ok (zprod (take (Z.to_nat dim) (shape i)), n * inner, inner)
  end.

(** (bytes read from the file, bytes kept). *)
Definition spec_bytes (i : info) (s : option spec) : res (Z * Z) :=
  let '(a, b) := data_offsets i in
  match s with
  | None => Ok (b - a, b - a)
  | Some (dim, start, length) =>
      g ← slice_geometry i (dim, start, length);
      let '(outer, row, inner) := g in
      let kept := outer * length * inner in
      Ok (if outer =? 1 then kept else outer * row, kept)
  end.

(** ** Merged ranges *)

Definition range_le (x y : Z * Z) : Prop := x.1 < y.1 \/ (x.1 = y.1 /\ x.2 <= y.2).

#[export] Instance range_le_dec : RelDecision range_le.
Proof. intros x y. unfold range_le. apply _. Defined.

(** One range into the list merged so far, whose last element is [cur]. *)
Fixpoint merge_from (cur : Z * Z) (l : list (Z * Z)) : list (Z * Z) :=
  match l with
  | [] => [cur]
  | (a, b) :: l' =>
      if a <=? cur.2 then merge_from (cur.1, Z.max cur.2 b) l' else cur :: merge_from (a, b) l'
  end.

Definition merge_ranges (l : list (Z * Z)) : list (Z * Z) :=
  match merge_sort range_le l with
  | [] => []
  | x :: l' => merge_from x l'
  end.

Definition needed_ranges (base : Z) (h : header) (phase : string) (ep : option (Z * Z))
    (n_routed : option Z) : res (list (Z * Z)) :=
  names ← needed_names h phase ep n_routed;
  infos ← mapR (hget h) names;
  Ok (merge_ranges (omap (fun i => let '(a, b) := data_offsets i in
                                   if a <? b then Some (base + a, base + b) else None) infos)).

(** The bytes of one planned tensor: the rank's rows when its slice is contiguous, else all. *)
Definition entry_range (base : Z) (h : header) (e : string * option spec) : res (option (Z * Z)) :=
  i ← hget h e.1;
  let '(a, b) := data_offsets i in
  if b <=? a then Ok None
  else match e.2 with
       | None => Ok (Some (base + a, base + b))
       | Some s =>
           let '(_, start, length) := s in
           g ← slice_geometry i s;
           let '(outer, _, inner) := g in
           Ok (Some (if outer =? 1
                     then (base + (a + start * inner), base + (a + (start + length) * inner))
                     else (base + a, base + b)))
       end.

Definition plan_ranges (base : Z) (h : header) (p : plan) : res (list (Z * Z)) :=
  rs ← mapR (entry_range base h) p;
  Ok (merge_ranges (omap id rs)).

(** ** Slabs *)

Definition align (n : Z) : Z := align_up n SLAB_ALIGN.

(** The slab size for a setting of [mb = num / den] MiB (256 when the setting does not
    parse): a power of two, or 0. *)
Definition slab_bytes (num den : Z) : Z :=
  if num <=? 0 then 0
  else let n := Z.max (Z.shiftl 1 20) (num * 2 ^ 20 / den) in Z.shiftl 1 (Z.log2 n).

Definition name_le (x y : string) : Prop := String.leb x y = true.

#[export] Instance name_le_dec : RelDecision name_le.
Proof. intros x y. unfold name_le. apply _. Defined.

Definition member := (string * Z * Z)%type.   (* name, offset, kept bytes *)

(** The loop of [slab_layout] over the sorted names with their kept bytes. *)
Fixpoint pack (slab : Z) (cur : list member) (used : Z) (items : list (string * Z))
  : list (Z * list member) :=
  match items with
  | [] => match cur with [] => [] | _ => [(Z.min used slab, cur)] end
  | (name, kept) :: rest =>
      if kept <=? 0 then pack slab cur used rest
      else if slab <? kept then (kept, [(name, 0, kept)]) :: pack slab cur used rest
      else if match cur with [] => false | _ => true end && (slab <? used + kept)
      then (used, cur) :: pack slab [(name, 0, kept)] (align kept) rest
      else pack slab (cur ++ [(name, used, kept)]) (align (used + kept)) rest
  end.

Definition kept_of (h : header) (p : plan) (name : string) : res (string * Z) :=
  i ← hget h name;
  s ← hget p name;
  b ← spec_bytes i s;
  Ok (name, b.2).

Definition slab_layout (h : header) (p : plan) (slab : Z) : res (list (Z * list member)) :=
  items ← mapR (kept_of h p) (merge_sort name_le (map fst p));
  Ok (pack slab [] 0 items).

(** * Properties *)

(** ** Ownership *)

(** The TP rank arithmetic of the fallbacks is a bijection between ranks and (EP, MoE-TP) pairs. *)
Lemma fallback_layout rank e m ep tp :
  0 < e -> 0 < m -> 0 <= rank < e * m ->
  ep_info (Raise RuntimeError) (Raise RuntimeError) (Ok e) (Ok (rank, e * m)) = Some ep ->
  moe_tp_info (Raise RuntimeError) (Raise RuntimeError) (Ok e) (Ok (rank, e * m)) = Some tp ->
  ep.2 = e /\ tp.2 = m /\ 0 <= ep.1 < e /\ 0 <= tp.1 < m /\ rank = ep.1 * m + tp.1.
Proof.
  intros He Hm Hr. unfold ep_info, moe_tp_info.
  replace (e * m / e) with m by (rewrite Z.mul_comm, Z.div_mul; lia).
  replace (e =? 0) with false by lia. replace (m =? 0) with false by lia. simpl.
  intros [= <-] [= <-]. simpl.
  pose proof (Z.div_mod rank m ltac:(lia)). pose proof (Z.mod_pos_bound rank m ltac:(lia)).
  repeat split; try lia; try (apply Z.div_pos; lia). apply Z.div_lt_upper_bound; lia.
Qed.

Lemma mem_filter {A} (f : A -> bool) l x : x ∈ List.filter f l <-> x ∈ l /\ f x = true.
Proof. rewrite !list_elem_of_In. apply List.filter_In. Qed.

(** What a target load with a known, even layout needs. *)
Lemma needed_names_target h rank size n names k :
  0 < size -> 0 < n -> n mod size = 0 ->
  needed_names h "target" (Some (rank, size)) (Some n) = Ok names ->
  k ∈ names <->
  k ∈ map fst h /\ skipped k = false /\
  (expert_id k = None \/ exists e, expert_id k = Some e /\ rank = e / (n / size)).
Proof.
  intros Hs Hn Hm. unfold needed_names. simpl.
  replace (size =? 0) with false by lia. rewrite Hm. simpl. intros [= <-].
  assert (Hp : 0 < n / size) by (pose proof (Z.div_mod n size ltac:(lia)); nia).
  rewrite mem_filter, andb_true_iff, negb_true_iff.
  destruct (expert_id k) as [e|] eqn:Ee; [|naive_solver].
  split; intros (Hk & Hsk & He); repeat split; try done.
  - right. exists e. split; [done|]. apply (Z.div_unique e (n / size) rank (e - rank * (n / size))); lia.
  - destruct He as [|(e' & [= <-] & ->)]; [done|].
    pose proof (Z.div_mod e (n / size) ltac:(lia)). pose proof (Z.mod_pos_bound e (n / size) Hp). lia.
Qed.

(** The slices a tensor is cut into do not depend on the rank except by their start. *)
Lemma slice_spec_rank name i size rank dim start len :
  slice_spec name i (Some (rank, size)) = Ok (Some (dim, start, len)) ->
  start = rank * len /\ shape i !! Z.to_nat dim = Some (size * len) /\ size <> 0 /\
  (forall rank', slice_spec name i (Some (rank', size)) = Ok (Some (dim, rank' * len, len))).
Proof.
  unfold slice_spec. destruct (expert_id name); [|done].
  destruct (rsplit2 DOT name) as [|a [|proj [|kind [|? ?]]]]; try done.
  destruct (dim_of proj) as [d|]; [|done]. destruct (negb _); [done|].
  destruct (shape i !! Z.to_nat d) as [n|] eqn:Hsh; [|done].
  destruct (size =? 0) eqn:Hz; [done|]. destruct (negb (n mod size =? 0)) eqn:Hm; [done|].
  intros [= <- <- <-]. apply negb_false_iff in Hm. split; [done|]. split; [|split; [lia|done]].
  rewrite Hsh. f_equal. pose proof (Z.div_mod n size ltac:(lia)). lia.
Qed.

(** Rank [rank] of [e * m] reads index [j] of the sliced dimension of the routed tensor [k]. *)
Definition reads (h : header) (n e m : Z) (k : string) (i : info) (j rank : Z) : Prop :=
  exists ep tp names dim start len,
    ep_info (Raise RuntimeError) (Raise RuntimeError) (Ok e) (Ok (rank, e * m)) = Some ep /\
    moe_tp_info (Raise RuntimeError) (Raise RuntimeError) (Ok e) (Ok (rank, e * m)) = Some tp /\
    needed_names h "target" (Some ep) (Some n) = Ok names /\ k ∈ names /\
    slice_spec k i (tp_slicing (Some ep) (Some tp) On) = Ok (Some (dim, start, len)) /\
    start <= j < start + len.

(** The layout the fallbacks compute, for a known rank. *)
Lemma fallback_layout_Some rank e m :
  0 < e -> 0 < m ->
  ep_info (Raise RuntimeError) (Raise RuntimeError) (Ok e) (Ok (rank, e * m)) = Some (rank / m, e) /\
  moe_tp_info (Raise RuntimeError) (Raise RuntimeError) (Ok e) (Ok (rank, e * m)) = Some (rank mod m, m).
Proof.
  intros He Hm. unfold ep_info, moe_tp_info.
  replace (e * m / e) with m by (rewrite Z.mul_comm, Z.div_mul; lia).
  replace (e =? 0) with false by lia. by replace (m =? 0) with false by lia.
Qed.

Lemma reads_iff h n e m k i x dim len j rank :
  0 < e -> 1 < m -> 0 < n -> n mod e = 0 -> k ∈ map fst h -> skipped k = false ->
  expert_id k = Some x -> slice_spec k i (Some (0, m)) = Ok (Some (dim, 0, len)) ->
  reads h n e m k i j rank <-> rank / m = x / (n / e) /\ rank mod m * len <= j < rank mod m * len + len.
Proof.
  intros He Hm Hn Hd Hk Hsk Hx Hsl. unfold reads.
  destruct (fallback_layout_Some rank e m He ltac:(lia)) as [-> ->].
  apply slice_spec_rank in Hsl as (_ & _ & _ & Hsl).
  assert (Hnames : exists names, needed_names h "target" (Some (rank / m, e)) (Some n) = Ok names).
  { unfold needed_names. simpl. replace (e =? 0) with false by lia. rewrite Hd. simpl. eauto. }
  destruct Hnames as [names Hnames]. pose proof (needed_names_target h _ _ n names k He Hn Hd Hnames) as Hin.
  assert (Htp : tp_slicing (Some (rank / m, e)) (Some (rank mod m, m)) On = Some (rank mod m, m))
    by (simpl; by replace (m <=? 1) with false by lia).
  split.
  - intros (ep & tp & names' & dim' & s & l & [= <-] & [= <-] & Hn' & Hk' & Hs' & Hj).
    rewrite Hnames in Hn'. simplify_eq. rewrite Htp, Hsl in Hs'. simplify_eq.
    apply Hin in Hk' as (_ & _ & [Hbad|(y & Hy & ->)]); [congruence|]. split; [congruence|done].
  - intros [Hrank Hj]. exists (rank / m, e), (rank mod m, m), names, dim, (rank mod m * len), len.
    split; [done|]. split; [done|]. split; [done|]. split; [|split; [rewrite Htp; apply Hsl|lia]].
    apply Hin. split; [done|]. split; [done|]. right. eauto.
Qed.

(** C12: with the layout derived from the TP rank, every index of the sliced dimension of
    every routed expert tensor is read by exactly one rank. *)
Theorem expert_slices_owned_once h n e m k i x dim len j :
  0 < e -> 1 < m -> 0 < n -> n mod e = 0 -> k ∈ map fst h -> skipped k = false ->
  expert_id k = Some x -> 0 <= x < n ->
  slice_spec k i (Some (0, m)) = Ok (Some (dim, 0, len)) -> 0 <= j < m * len ->
  exists rank, 0 <= rank < e * m /\ reads h n e m k i j rank /\
    forall rank', 0 <= rank' < e * m -> reads h n e m k i j rank' -> rank' = rank.
Proof.
  intros He Hm Hn Hd Hk Hsk Hx Hxn Hsl Hj.
  pose proof (fun rank => reads_iff h n e m k i x dim len j rank He Hm Hn Hd Hk Hsk Hx Hsl) as Hr.
  assert (Hq : 0 <= x / (n / e) < e).
  { pose proof (Z.div_mod n e ltac:(lia)). assert (0 < n / e) by nia.
    split; [apply Z.div_pos; lia|]. apply Z.div_lt_upper_bound; nia. }
  assert (Hlen : 0 < len) by nia.
  assert (Ht : 0 <= j / len < m) by (split; [apply Z.div_pos; lia | apply Z.div_lt_upper_bound; lia]).
  pose proof (Z.div_mod j len ltac:(lia)). pose proof (Z.mod_pos_bound j len Hlen).
  set (q := x / (n / e)) in *. set (t := j / len) in *.
  assert (Hdm : (q * m + t) / m = q /\ (q * m + t) mod m = t).
  { split; [symmetry; apply (Z.div_unique _ _ _ t); lia | symmetry; apply (Z.mod_unique _ _ q); lia]. }
  exists (q * m + t). split; [nia|]. split.
  - apply Hr. destruct Hdm as [-> ->]. lia.
  - intros rank' Hrank'. rewrite Hr. intros [H1 H2].
    pose proof (Z.div_mod rank' m ltac:(lia)). pose proof (Z.mod_pos_bound rank' m ltac:(lia)).
    assert (rank' mod m = t) by nia. nia.
Qed.

Definition ex_header : header :=
  [("layers.0.experts.0.w1.weight", Info "U8" [8; 4] (0, 32));
   ("layers.0.experts.3.w2.weight", Info "U8" [4; 8] (32, 64));
   ("layers.0.gate.weight", Info "F32" [4] (64, 80));
   ("mtp.0.experts.1.w3.weight", Info "U8" [8; 4] (80, 112));
   ("layers.0.experts.2.w3.scale", Info "U8" [8; 1] (112, 120))].

Lemma expert_slices_owned_once_witness :
  exists rank, 0 <= rank < 2 * 2 /\
    reads ex_header 4 2 2 "layers.0.experts.3.w2.weight" (Info "U8" [4; 8] (32, 64)) 5 rank.
Proof.
  destruct (expert_slices_owned_once ex_header 4 2 2 "layers.0.experts.3.w2.weight"
              (Info "U8" [4; 8] (32, 64)) 3 1 4 5) as (rank & H1 & H2 & _).
  1-3, 8, 10: lia. 1: reflexivity. 1: simpl; set_solver. 1-3: reflexivity.
  exists rank. split; [exact H1 | exact H2].
Defined.

(** ** Ranges *)

Definition covered (x : Z) (l : list (Z * Z)) : Prop := Exists (fun r => r.1 <= x < r.2) l.

(** Consecutive ranges neither overlap nor touch. *)
Definition apart (r r' : Z * Z) : Prop := r.2 < r'.1.

#[export] Instance range_le_total : Total range_le.
Proof. intros x y. unfold range_le. lia. Qed.

#[export] Instance range_le_trans : Transitive range_le.
Proof. intros x y z. unfold range_le. lia. Qed.

Lemma merge_from_spec l cur :
  StronglySorted range_le (cur :: l) ->
  (exists b rest, merge_from cur l = (cur.1, b) :: rest) /\
  Sorted apart (merge_from cur l) /\
  (forall x, covered x (merge_from cur l) <-> covered x (cur :: l)).
Proof.
  revert cur. induction l as [|[a b] l IH]; intros cur Hs.
  - simpl. destruct cur as [c d]. repeat split; eauto; repeat constructor.
  - apply StronglySorted_inv in Hs as [Hs Hall]. pose proof Hs as Hs'.
    apply StronglySorted_inv in Hs' as [Hs' Hall']. apply Forall_cons in Hall as [Hab Hall]. simpl.
    destruct (a <=? cur.2) eqn:E.
    + destruct (IH (cur.1, Z.max cur.2 b)) as (Hhd & Hsort & Hcov).
      { constructor; [done|]. eapply Forall_impl; [exact Hall'|]. intros [y1 y2].
        unfold range_le in *. simpl in *. lia. }
      split; [done|]. split; [done|]. intros x. rewrite Hcov. unfold covered. rewrite !Exists_cons. simpl.
      unfold range_le in Hab. simpl in Hab. 
      assert (Hm : cur.1 <= x < Z.max cur.2 b <-> cur.1 <= x < cur.2 \/ a <= x < b) by lia.
      rewrite Hm. tauto.
    + destruct (IH (a, b) Hs) as ((b' & rest & Hhd) & Hsort & Hcov).
      split; [by exists cur.2, (merge_from (a, b) l); destruct cur|]. split.
      * constructor; [done|]. rewrite Hhd. constructor. unfold apart. simpl. lia.
      * intros x. unfold covered in *. rewrite Exists_cons, Hcov. by rewrite (Exists_cons _ cur).
Qed.

Lemma merge_ranges_spec l :
  Sorted apart (merge_ranges l) /\ (forall x, covered x (merge_ranges l) <-> covered x l).
Proof.
  unfold merge_ranges. pose proof (merge_sort_Permutation range_le l) as Hp.
  pose proof (StronglySorted_merge_sort range_le l) as Hs.
  destruct (merge_sort range_le l) as [|r l'] eqn:E.
  - apply Permutation_nil in Hp as ->. split; [constructor|done].
  - destruct (merge_from_spec l' r Hs) as (_ & Hsort & Hcov). split; [done|].
    intros x. rewrite Hcov. unfold covered. by rewrite Hp.
Qed.

Lemma itemsize_pos d : 0 < itemsize d.
Proof. unfold itemsize. split_ifs; lia. Qed.

Lemma zprod_pos l : Forall (fun x => 0 < x) l -> 0 < zprod l.
Proof. induction 1; simpl; lia. Qed.

(** Byte [y] of a tensor's file bytes, as the plan reads it. *)
Definition wanted (i : info) (s : option spec) (y : Z) : Prop :=
  0 <= y < (data_offsets i).2 - (data_offsets i).1 /\
  match s with
  | None => True
  | Some (dim, start, length) =>
      forall row inner, slice_geometry i (dim, start, length) = Ok (1, row, inner) ->
                        start <= y / inner < start + length
  end.

(** A header whose entries are the tensors they describe: as many bytes as the shape needs. *)
Definition sized (i : info) : Prop :=
  Forall (fun d => 0 < d) (shape i) /\
  (data_offsets i).2 - (data_offsets i).1 = itemsize (dtype i) * zprod (shape i).

(** A slice inside the sliced dimension. *)
Definition inside (i : info) (s : option spec) : Prop :=
  match s with
  | None => True
  | Some (dim, start, length) =>
      exists n, shape i !! Z.to_nat dim = Some n /\ 0 <= start /\ 0 <= length /\ start + length <= n
  end.

Lemma zprod_app l k : zprod (l ++ k) = zprod l * zprod k.
Proof. induction l as [|x l IH]; simpl; rewrite ?IH; lia. Qed.

(** The geometry of a slice of a sized tensor. *)
Lemma slice_geometry_sized i dim start len n :
  sized i -> shape i !! Z.to_nat dim = Some n ->
  exists outer inner, slice_geometry i (dim, start, len) = Ok (outer, n * inner, inner) /\
    0 < outer /\ 0 < inner /\ 0 < n /\
    (data_offsets i).2 - (data_offsets i).1 = outer * (n * inner).
Proof.
  intros [Hpos Hsz] Hn. unfold slice_geometry. rewrite Hn.
  pose proof (take_drop_middle _ _ _ Hn) as Hsplit. eexists _, _. split; [done|].
  pose proof (itemsize_pos (dtype i)). rewrite Hsz.
  assert (0 < zprod (take (Z.to_nat dim) (shape i))) by (apply zprod_pos; by apply Forall_take).
  assert (0 < zprod (drop (S (Z.to_nat dim)) (shape i))) by (apply zprod_pos; by apply Forall_drop).
  assert (0 < n) by (rewrite Forall_forall in Hpos; apply Hpos; by eapply list_elem_of_lookup_2).
  rewrite <- Hsplit at 3. rewrite zprod_app. simpl. repeat split; lia.
Qed.

#[local] Arguments slice_geometry : simpl never.

Lemma entry_range_wanted base h k s i r :
  hget h k = Ok i -> sized i -> inside i s -> entry_range base h (k, s) = Ok r ->
  forall x, (exists r', r = Some r' /\ r'.1 <= x < r'.2) <-> wanted i s (x - base - (data_offsets i).1).
Proof.
  intros Hk Hsz Hin. unfold entry_range, wanted. simpl. rewrite Hk. simpl.
  destruct (data_offsets i) as [a b] eqn:Hoff. simpl.
  destruct (b <=? a) eqn:E; [intros [= <-] x; split; [naive_solver|lia]|].
  destruct s as [[[dim start] len]|].
  - destruct Hin as (n & Hn & Hst & Hlen & Hle).
    destruct (slice_geometry_sized i dim start len n Hsz Hn) as (outer & inner & Hg & Ho & Hi & Hnp & Htot).
    rewrite Hg. simpl. rewrite Hoff in Htot. simpl in Htot. intros [= <-] x.
    destruct (outer =? 1) eqn:E1.
    + assert (outer = 1) as -> by lia. simpl.
      set (y := x - base - a).
      assert (Hy : base + (a + start * inner) <= x < base + (a + (start + len) * inner) <->
                   start * inner <= y < (start + len) * inner) by (unfold y; lia).
      assert (Hdiv : start * inner <= y < (start + len) * inner <-> start <= y / inner < start + len).
      { pose proof (Z.div_mod y inner ltac:(lia)). pose proof (Z.mod_pos_bound y inner Hi). nia. }
      split.
      * intros (r' & [= <-] & Hx). simpl in Hx. apply Hy in Hx. split; [nia|].
        intros row inner' Heq. injection Heq as _ <-. by apply Hdiv.
      * intros [Hb Hw]. eexists. split; [done|]. simpl. apply Hy, Hdiv. eapply Hw. done.
    + split.
      * intros (r' & [= <-] & Hx). simpl in Hx. split; [lia|]. intros row inner' Heq. injection Heq as Heq _. lia.
      * intros [Hb _]. eexists. split; [done|]. simpl. lia.
  - intros [= <-] x. split; [intros (r' & [= <-] & Hx); simpl in Hx; lia|].
    intros [Hx _]. eexists. split; [done|]. simpl. lia.
Qed.

(** The merged ranges of a read plan cover exactly the file bytes the plan wants (whole
    tensors, or only the rank's rows where the slice is contiguous in the file), and no two
    of them overlap or touch. *)
Theorem plan_ranges_exact base h p rs :
  Forall (fun e => exists i, hget h e.1 = Ok i /\ sized i /\ inside i e.2) p ->
  plan_ranges base h p = Ok rs ->
  Sorted apart rs /\
  forall x, covered x rs <->
    exists k s i, (k, s) ∈ p /\ hget h k = Ok i /\ wanted i s (x - base - (data_offsets i).1).
Proof.
  intros Hp. unfold plan_ranges. destruct (mapR (entry_range base h) p) as [os|] eqn:E; [|done].
  intros [= <-]. destruct (merge_ranges_spec (omap id os)) as [Hs Hc]. split; [done|].
  intros x. rewrite Hc. unfold covered. rewrite Exists_exists. rewrite Forall_forall in Hp. split.
  - intros (r & Hr & Hx). apply list_elem_of_omap in Hr as (o & Ho & Hr). simpl in Hr. subst o.
    apply list_elem_of_lookup in Ho as [j Hj].
    destruct (p !! j) as [[k s]|] eqn:Hpj.
    + destruct (mapR_Ok_lookup _ _ _ _ _ E Hpj) as (o & Hj' & He). simplify_eq.
      destruct (Hp (k, s) ltac:(by eapply list_elem_of_lookup_2)) as (i & Hi & Hsz & Hin).
      exists k, s, i. split; [by eapply list_elem_of_lookup_2|]. split; [done|].
      apply (entry_range_wanted base h k s i (Some r) Hi Hsz Hin He). eauto.
    + apply lookup_ge_None in Hpj. apply lookup_lt_Some in Hj.
      rewrite (mapR_Ok_length _ _ _ E) in Hj. lia.
  - intros (k & s & i & Hin & Hk & Hw). apply list_elem_of_lookup in Hin as [j Hj].
    destruct (mapR_Ok_lookup _ _ _ _ _ E Hj) as (o & Hj' & He).
    destruct (Hp (k, s) ltac:(by eapply list_elem_of_lookup_2)) as (i' & Hi & Hsz & Hin).
    simpl in Hi, Hin. rewrite Hk in Hi. injection Hi as <-.
    pose proof (proj2 (entry_range_wanted base h k s _ o Hk Hsz Hin He x) Hw) as (r & Hr & Hx). subst o.
    exists r. split; [|done]. apply list_elem_of_omap. exists (Some r). split; [by eapply list_elem_of_lookup_2|done].
Qed.

Lemma plan_ranges_exact_witness :
  let p := [("layers.0.experts.0.w1.weight", Some (0, 4, 4)); ("layers.0.experts.3.w2.weight", Some (1, 0, 4));
            ("layers.0.gate.weight", None)] in
  plan_ranges 100 ex_header p = Ok [(116, 180)] /\
  (covered 120 [(116, 180)] <->
   exists k s i, (k, s) ∈ p /\ hget ex_header k = Ok i /\ wanted i s (120 - 100 - (data_offsets i).1)).
Proof.
  intros p. assert (E : plan_ranges 100 ex_header p = Ok [(116, 180)]) by (vm_compute; reflexivity).
  split; [exact E|]. apply (plan_ranges_exact 100 ex_header p); [|exact E].
  unfold p. repeat (apply Forall_cons_2;
    [eexists; split; [vm_compute; reflexivity|]; split;
       [split; [repeat constructor; lia | vm_compute; reflexivity]
       | simpl; first [exact I | eexists; split; [reflexivity|lia]]] |]).
  apply Forall_nil_2.
Defined.

(** ** Slabs *)

Definition m_name (m : member) : string := m.1.1.
Definition m_off (m : member) : Z := m.1.2.
Definition m_kept (m : member) : Z := m.2.

(** Members in the order and at the offsets of a buffer of [n] bytes: aligned, disjoint, inside. *)
Definition placed (n : Z) (ms : list member) : Prop :=
  StronglySorted (fun m m' => m_off m + m_kept m <= m_off m') ms /\
  Forall (fun m => 0 <= m_off m /\ m_off m mod SLAB_ALIGN = 0 /\ 0 < m_kept m /\ m_off m + m_kept m <= n) ms.

Definition slab_ok (slab : Z) (s : Z * list member) : Prop :=
  s.2 <> [] /\ placed s.1 s.2 /\ (s.1 <= slab \/ exists name, s.2 = [(name, 0, s.1)]).

Lemma align_spec n : n <= align n < n + SLAB_ALIGN /\ align n mod SLAB_ALIGN = 0.
Proof. apply align_up_spec. unfold SLAB_ALIGN. lia. Qed.

(** Aligning cannot leave a slab whose size is a multiple of the alignment. *)
Lemma align_le n slab : slab mod SLAB_ALIGN = 0 -> n <= slab -> align n <= slab.
Proof.
  intros Hs Hn. pose proof (align_spec n) as [H1 H2]. unfold SLAB_ALIGN in *.
  pose proof (Z.div_mod slab 4096 ltac:(lia)). pose proof (Z.div_mod (align n) 4096 ltac:(lia)). lia.
Qed.

Lemma placed_snoc n n' ms name kept :
  placed n ms -> 0 <= n -> n mod SLAB_ALIGN = 0 -> 0 < kept -> n + kept <= n' ->
  placed n' (ms ++ [(name, n, kept)]).
Proof.
  intros [Hs Hf] Hn Hal Hk Hle. split.
  - revert Hs Hf. induction ms as [|m ms IH]; intros Hs Hf; simpl; [repeat constructor|].
    apply StronglySorted_inv in Hs as [Hs Hm]. apply Forall_cons in Hf as [Hf Hfs].
    constructor; [by apply IH|]. apply Forall_app. split; [done|]. repeat constructor.
    unfold m_off at 2. simpl. lia.
  - apply Forall_app. split.
    + eapply Forall_impl; [exact Hf|]. simpl. intros m Hm. lia.
    + repeat constructor; unfold m_off, m_kept; simpl; try done; lia.
Qed.

Lemma placed_le n n' ms : placed n ms -> n <= n' -> placed n' ms.
Proof.
  intros [Hs Hf] Hle. split; [done|]. eapply Forall_impl; [exact Hf|]. simpl. intros m Hm. lia.
Qed.

Lemma placed_one name kept : 0 < kept -> placed kept [(name, 0, kept)].
Proof.
  intros Hk. apply (placed_snoc 0 kept [] name kept); try done; try lia. split; constructor.
Qed.

Lemma pack_slabs slab items cur used :
  0 <= slab -> slab mod SLAB_ALIGN = 0 ->
  placed used cur -> 0 <= used <= slab -> used mod SLAB_ALIGN = 0 -> (cur = [] -> used = 0) ->
  Forall (slab_ok slab) (pack slab cur used items).
Proof.
  intros Hs Hal. revert cur used. induction items as [|[name kept] rest IH]; intros cur used Hp Hu Hua Hnil; simpl.
  - destruct cur as [|m cur]; [constructor|]. rewrite Z.min_l by lia.
    constructor; [|constructor]. split; [done|]. split; [done|]. simpl. lia.
  - destruct (kept <=? 0) eqn:E1; [by apply IH|].
    destruct (slab <? kept) eqn:E2.
    { constructor; [|by apply IH]. split; [done|]. split; [apply placed_one; lia|]. right. eauto. }
    pose proof (align_spec kept) as [Ha1 Ha2].
    destruct (match cur with [] => false | _ => true end && (slab <? used + kept)) eqn:E3.
    + apply andb_true_iff in E3 as [E3 _]. constructor.
      * split; [by destruct cur|]. split; [done|]. simpl. lia.
      * apply IH; [| |done|done].
        -- eapply placed_le; [apply placed_one|]; lia.
        -- pose proof (align_le kept slab Hal). lia.
    + assert (Hfit : used + kept <= slab).
      { apply andb_false_iff in E3 as [E3|E3]; [|lia]. destruct cur; [|done].
        rewrite Hnil by done. lia. }
      pose proof (align_spec (used + kept)) as [Hb1 Hb2]. pose proof (align_le (used + kept) slab Hal Hfit).
      apply IH; [| lia | done | by destruct cur].
      eapply placed_le; [apply (placed_snoc used (used + kept)); try done; lia|lia].
Qed.

Definition item_of (m : member) : string * Z := (m_name m, m_kept m).

(** What is packed: every item with bytes, once. *)
Lemma pack_items slab items cur used :
  map item_of (concat (map snd (pack slab cur used items))) ≡ₚ
  map item_of cur ++ List.filter (fun x => 0 <? x.2) items.
Proof.
  revert cur used. induction items as [|[name kept] rest IH]; intros cur used; simpl.
  - destruct cur as [|m cur]; [done|]. simpl. by rewrite !app_nil_r.
  - destruct (kept <=? 0) eqn:E1.
    { replace (0 <? kept) with false by lia. apply IH. }
    replace (0 <? kept) with true by lia.
    destruct (slab <? kept); simpl.
    { rewrite IH. unfold item_of at 1. simpl. apply Permutation_middle. }
    destruct (_ && _); simpl.
    { rewrite map_app, IH. simpl. done. }
    { rewrite IH, map_app. simpl. by rewrite <- app_assoc. }
Qed.

(** A slab size is a multiple of the alignment (0, or a power of two of at least 1 MiB). *)
Lemma slab_bytes_spec num den :
  0 < den -> 0 <= slab_bytes num den /\ slab_bytes num den mod SLAB_ALIGN = 0.
Proof.
  intros Hd. unfold slab_bytes. destruct (num <=? 0) eqn:E; [split; [lia|done]|].
  rewrite !Z.shiftl_1_l. set (n := Z.max _ _).
  assert (H20 : 20 <= Z.log2 n) by (apply Z.log2_le_pow2; unfold n; lia).
  split; [lia|]. unfold SLAB_ALIGN. change 4096 with (2 ^ 12).
  replace (Z.log2 n) with (12 + (Z.log2 n - 12)) by lia. rewrite Z.pow_add_r by lia.
  rewrite Z.mul_comm. apply Z_mod_mult.
Qed.

(** The slabs of a plan hold every tensor with bytes to keep exactly once, at
    page-aligned, pairwise disjoint regions of exactly its kept size inside its slab; a slab
    is at most the configured size, or the buffer of one larger tensor. *)
Theorem slab_layout_correct h p num den slabs :
  0 < den -> slab_layout h p (slab_bytes num den) = Ok slabs ->
  Forall (slab_ok (slab_bytes num den)) slabs /\
  exists items, mapR (kept_of h p) (merge_sort name_le (map fst p)) = Ok items /\
    map item_of (concat (map snd slabs)) ≡ₚ List.filter (fun x => 0 <? x.2) items.
Proof.
  intros Hden. unfold slab_layout.
  destruct (mapR (kept_of h p) (merge_sort name_le (map fst p))) as [items|] eqn:E; [|done].
  intros [= <-]. destruct (slab_bytes_spec num den Hden) as [Hs Hal]. split.
  - apply pack_slabs; try done; try lia. split; constructor.
  - exists items. split; [done|]. apply (pack_items (slab_bytes num den) items [] 0).
Qed.

Lemma slab_layout_correct_witness :
  let p := [("layers.0.experts.0.w1.weight", Some (0, 4, 4)); ("layers.0.experts.3.w2.weight", Some (1, 0, 4));
            ("layers.0.gate.weight", None)] in
  let got := [(12288, [("layers.0.experts.0.w1.weight", 0, 16); ("layers.0.experts.3.w2.weight", 4096, 16);
                      ("layers.0.gate.weight", 8192, 16)])] in
  slab_layout ex_header p (slab_bytes 1 2) = Ok got /\
  Forall (slab_ok (slab_bytes 1 2)) got /\ slab_layout ex_header p 0 <> Ok got.
Proof.
  intros p got. assert (E : slab_layout ex_header p (slab_bytes 1 2) = Ok got) by (vm_compute; reflexivity).
  split; [exact E|]. split; [|vm_compute; discriminate].
  apply (slab_layout_correct ex_header p 1 2 got ltac:(reflexivity) E).
Defined.
