(* ===== verification/FastLoadRead.v ===== *)
(** * Fast checkpoint loading: reads, the wrapped shard handle and pacing (adapter/fast_load.py)

    The chunked reads of whole tensors and of slices, the stand-in for a sliced
    tensor, the decision which shards are opened eagerly, the handle's lookups with
    their fallback, the search for escaped slabs and the byte budget of the weight
    copies.  A file is the list of its bytes; [preadv] says how many bytes one read
    returns.  The thread pool's scheduling, allocation of host buffers, memory
    telemetry and the engine's own load functions are not modelled. *)
From S2P Require Import Prelude PyStr FastLoad.
#[local] Open Scope string_scope.
#[local] Open Scope list_scope.
#[local] Open Scope Z_scope.

Definition CHUNK : Z := Z.shiftl 8 20.

Section Reads.
Context (file : list Z) (preadv : Z -> Z -> Z).

(** [_read_into]: fill a buffer of [n] bytes from offset [off], of which [got] are filled
    already; [None] when [fuel] rounds were not enough. *)
Fixpoint read_loop (fuel : nat) (off n got : Z) (buf : list Z) : option (res (list Z)) :=
  if got <? n then
    match fuel with
    | O => None
    | S f =>
        let r := preadv (off + got) (n - got) in
        if r <=? 0 then Some (Raise IOError)
        else read_loop f off n (got + r) (buf ++ bytes_at file (off + got) r)
    end
  else Some (Ok buf).

Definition read_into (off n : Z) : option (res (list Z)) := read_loop (Z.to_nat n) off n 0 [].

(** Sequential reads of consecutive parts: the first failure ends them. *)
Fixpoint read_all (parts : list (Z * Z)) : option (res (list Z)) :=
  match parts with
  | [] => Some (Ok [])
  | (off, n) :: rest =>
      match read_into off n with
      | Some (Ok b) =>
          match read_all rest with
          | Some (Ok bs) => Some (Ok (b ++ bs))
          | r => r
          end
      | r => r
      end
  end.

(** [for c in range(0, n, _CHUNK)]: the chunks of a read of [n] bytes at [off]. *)
Definition chunks (off n : Z) : list (Z * Z) :=
  map (fun k => (off + k * CHUNK, Z.min CHUNK (n - k * CHUNK))) (zrange 0 (cdiv n CHUNK)).

(** A tensor read from a file: its shape and its bytes in row-major order. *)
Record tensor := Tensor { t_shape : list Z; t_bytes : list Z }.

Definition read_tensor (base : Z) (i : info) : option (res tensor) :=
  let '(a, b) := data_offsets i in
  let n := b - a in
  if n =? 0 then Some (Ok (Tensor (shape i) []))
  else match read_all (chunks (base + a) n) with
       | Some (Ok bs) => Some (Ok (Tensor (shape i) bs))
       | Some (Raise e) => Some (Raise e)
       | None => None
       end.

(** [src[:, start:start + length, :]] of [k] whole rows: the kept part of each row. *)
Fixpoint keep_rows (k : nat) (row lo len : Z) (bs : list Z) : list Z :=
  match k with
  | O => []
  | S k' => bytes_at bs lo len ++ keep_rows k' row lo len (drop (Z.to_nat row) bs)
  end.

(** The bounce-buffer loop: groups of [rows] whole rows from row [r0] on. *)
Fixpoint read_groups (fuel : nat) (off rows row lo len outer r0 : Z) : option (res (list Z)) :=
  if r0 <? outer then
    match fuel with
    | O => None
    | S f =>
        let k := Z.min rows (outer - r0) in
        match read_into (off + r0 * row) (k * row) with
        | Some (Ok bs) =>
            match read_groups f off rows row lo len outer (r0 + rows) with
            | Some (Ok rest) => Some (Ok (keep_rows (Z.to_nat k) row lo len bs ++ rest))
            | r => r
            end
        | r => r
        end
    end
  else Some (Ok []).

Definition read_slice (base : Z) (i : info) (s : spec) : option (res tensor) :=
  let '(dim, start, length) := s in
  let part_shape := take (Z.to_nat dim) (shape i) ++ [length] ++ drop (S (Z.to_nat dim)) (shape i) in
  match slice_geometry i s with
  | Raise e => Some (Raise e)
  | Ok (outer, row, inner) =>
      let n := outer * length * inner in
      if n =? 0 then Some (Ok (Tensor part_shape []))
      else
        let a := (data_offsets i).1 in
        let got :=
          if outer =? 1 then read_all (chunks (base + a + start * inner) n)
          else if row =? 0 then Some (Raise ZeroDivisionError)
          else let rows := Z.max 1 (CHUNK / row) in
               read_groups (Z.to_nat outer) (base + a) rows row (start * inner) (length * inner) outer 0 in
        match got with
        | Some (Ok bs) => Some (Ok (Tensor part_shape bs))
        | Some (Raise e) => Some (Raise e)
        | None => None
        end
  end.
End Reads.

(** ** The stand-in for a sliced tensor *)

Section StandIn.
Context {T : Type} (tdim : T -> Z) (tsize : T -> Z -> Z) (narrow : T -> Z -> Z -> Z -> res T).

Record standin := StandIn { part : T; full_shape : list Z; s_dim : Z; s_start : Z }.

(** [TpSliceTensor._narrow]. *)
Definition tp_narrow (x : standin) (dim0 start length : Z) : res T :=
  let dim := if dim0 <? 0 then dim0 + zlen (full_shape x) else dim0 in
  let lo := s_start x in
  let hi := lo + tsize (part x) (s_dim x) in
  if negb (dim =? s_dim x) || (start <? lo) || (hi <? start + length) || (length <? 0)
  then Raise RuntimeError
  else if (start =? lo) && (length =? tsize (part x) dim) then Ok (part x)
  else narrow (part x) dim (start - lo) length.
End StandIn.
Arguments standin : clear implicits.
Arguments StandIn {T} _ _ _ _.

(** ** The wrapped handle *)

Section Shard.
Context {T : Type}.

Inductive loaded := Whole (t : T) | Sliced (s : standin T) | Stock (r : res T).

(** [_EagerShard]: the reads not handed out yet, the slice specs, the failures so far. *)
Record shard := Shard {
  futures : gmap string (res T);
  specs : gmap string spec;
  read_failures : Z }.

(** [get_tensor]: the resident tensor once, the stock handle otherwise or when the read failed. *)
Definition get_tensor (inner : string -> res T) (h : header) (sh : shard) (name : string) : loaded * shard :=
  match futures sh !! name with
  | None => (Stock (inner name), sh)
  | Some fut =>
      let sh' := Shard (delete name (futures sh)) (specs sh) (read_failures sh) in
      let failed := (Stock (inner name), Shard (futures sh') (specs sh) (read_failures sh + 1)) in
      match fut with
      | Raise _ => failed
      | Ok t =>
          match specs sh !! name with
          | None => (Whole t, sh')
          | Some (dim, start, _) =>
              match hget h name with
              | Ok i => (Sliced (StandIn t (shape i) dim start), sh')
              | Raise _ => failed
              end
          end
      end
  end.
End Shard.
Arguments loaded : clear implicits.
Arguments shard : clear implicits.

(** What opening a shard yields: the stock handle, an empty shard, or an eager one with a plan. *)
Inductive opened := OpenStock | OpenEmpty | OpenEager (p : plan).

(** Whether routed experts are read eagerly at all: not when every rank would read every expert whole. *)
Definition read_experts (tp lay_ep moe_tp : option (Z * Z)) : bool :=
  negb (bool_decide (tp = None) &&
        match lay_ep with Some (_, size) => size =? 1 | None => false end &&
        match moe_tp with Some (_, size) => 1 <? size | None => true end).

(** [_wrap_open] on a safetensors path; [device_ok] = opened for the CPU. *)
Definition wrap_open (h : header) (phase : string) (ep0 moe_tp0 : option (Z * Z)) (n_experts : option Z)
    (mode : slice_mode) (device_ok : bool) : res opened :=
  let target := String.eqb phase "target" in
  let ep := if target then ep0 else None in
  let n_routed := if bool_decide (is_Some ep) then n_experts else None in
  let lay_ep := if target then ep else if bool_decide (mode <> Off) then ep0 else None in
  let moe_tp := if bool_decide (is_Some lay_ep) || bool_decide (mode = On) then moe_tp0 else None in
  let tp := tp_slicing lay_ep moe_tp mode in
  let experts := read_experts tp lay_ep moe_tp in
  names ← needed_names h phase ep n_routed;
  if String.eqb phase "draft" && match names with [] => true | _ => false end then Ok OpenEmpty
  else
    p ← (if bool_decide (is_Some tp) || negb experts
         then read_plan h phase ep n_routed tp experts
         else Ok (map (fun k => (k, None)) names));
    if match p with [] => true | _ => false end || negb device_ok then Ok OpenStock
    else Ok (OpenEager p).

(** ** Escaped slabs *)

(** [bisect_right(l, x) - 1] on a sorted list: the last index whose element is at most [x]. *)
Fixpoint last_le (l : list Z) (x : Z) : option nat :=
  match l with
  | [] => None
  | y :: l' => if x <? y then None
               else match last_le l' x with Some k => Some (S k) | None => Some 0%nat end
  end.

(** A slab that outlived the load: base address, size and members. *)
Record live_slab := LiveSlab { l_base : Z; l_size : Z; l_members : list member }.

Definition slab_le (x y : live_slab) : Prop := l_base x <= l_base y.

#[export] Instance slab_le_dec : RelDecision slab_le.
Proof. intros x y. unfold slab_le. apply _. Defined.

(** The tensor of a slab a pointer belongs to, by name. *)
Definition holder (slabs : list live_slab) (ptr : Z) : option (Z * option string) :=
  match last_le (map l_base slabs) ptr with
  | None => None
  | Some i =>
      match slabs !! i with
      | None => None
      | Some s =>
          if l_base s + l_size s <=? ptr then None
          else Some (l_base s, match last_le (map m_off (l_members s)) (ptr - l_base s) with
                               | Some j => m_name <$> l_members s !! j
                               | None => None
                               end)
      end
  end.

(** [_escaped_slabs]: for every live slab, the tensors whose views point into it. *)
Definition escaped_slabs (alive : list live_slab) (ptrs : list Z) : list (live_slab * list (option string)) :=
  let spans := merge_sort slab_le alive in
  map (fun s => (s, omap (fun ptr => match holder spans ptr with
                                     | Some (b, name) => if b =? l_base s then Some name else None
                                     | None => None
                                     end) ptrs)) alive.

(** ** Pacing *)

(** The budget's state: bytes charged, and per slab key the copies in flight and its charge. *)
Record pace := Pace { inflight : Z; held : gmap Z (Z * Z) }.

(** One copy's charge: the slab it reads from, if any, and its bytes. *)
Definition charge := (option Z * Z)%type.

(** [_charge]: a view of a live slab charges the slab, anything else its own bytes. *)
Definition charge_of (slab_size : gmap Z (Z * bool)) (storage : option Z) (nbytes : Z) : charge :=
  match storage with
  | Some ptr => match (slab_size !! ptr : option (Z * bool)) with
                | Some (n, expired) => if expired then (None, nbytes) else (Some ptr, n)
                | None => (None, nbytes)
                end
  | None => (None, nbytes)
  end.

Definition is_held (st : pace) (key : option Z) : bool :=
  match key with Some k => bool_decide (is_Some (held st !! k)) | None => false end.

(** Admission under the lock; [None] = the submitting thread waits. *)
Definition admit_copy (budget : Z) (st : pace) (c : charge) : option pace :=
  let '(key, nbytes) := c in
  let size := Z.max 1 nbytes in
  if negb (is_held st key) && (0 <? inflight st) && (budget <? inflight st + size) then None
  else match key with
       | None => Some (Pace (inflight st + size) (held st))
       | Some k =>
           match held st !! k with
           | Some (n, b) => Some (Pace (inflight st) (<[k := (n + 1, b)]> (held st)))
           | None => Some (Pace (inflight st + size) (<[k := (1, size)]> (held st)))
           end
       end.

(** [release]: when a copy is done, or was never queued. *)
Definition release (st : pace) (c : charge) : res pace :=
  let '(key, nbytes) := c in
  match key with
  | None => Ok (Pace (inflight st - Z.max 1 nbytes) (held st))
  | Some k =>
      match held st !! k with
      | None => Raise KeyError
      | Some (n, b) =>
          if n - 1 =? 0 then Ok (Pace (inflight st - b) (delete k (held st)))
          else Ok (Pace (inflight st) (<[k := (n - 1, b)]> (held st)))
      end
  end.

(** * Properties *)

(** ** Reads *)

(** The kept part of each of the rows [a .. b). *)
Definition kept_rows (file : list Z) (off row lo len a b : Z) : list Z :=
  concat (map (fun o => bytes_at file (off + o * row + lo) len) (zrange a b)).

Lemma kept_rows_app file off row lo len a b c :
  a <= b <= c -> kept_rows file off row lo len a c = kept_rows file off row lo len a b ++ kept_rows file off row lo len b c.
Proof. intros H. unfold kept_rows. rewrite (zrange_app a b c H), map_app, concat_app. done. Qed.

Lemma keep_rows_eq file off row lo len (k : nat) r0 :
  0 <= off -> 0 <= r0 -> 0 <= lo -> 0 <= len -> lo + len <= row ->
  keep_rows k row lo len (bytes_at file (off + r0 * row) (Z.of_nat k * row)) =
  kept_rows file off row lo len r0 (r0 + Z.of_nat k).
Proof.
  intros Ho Hr Hlo Hlen Hle. revert r0 Hr. induction k as [|k IH]; intros r0 Hr.
  - simpl. unfold kept_rows. rewrite zrange_nil by lia. done.
  - simpl keep_rows. rewrite (kept_rows_app _ _ _ _ _ r0 (r0 + 1)) by lia. f_equal.
    + unfold kept_rows. rewrite zrange_cons, zrange_nil by lia. simpl. rewrite app_nil_r.
      rewrite bytes_at_sub by nia. done.
    + rewrite bytes_at_drop by nia.
      replace (r0 + Z.of_nat (S k)) with ((r0 + 1) + Z.of_nat k) by lia. rewrite <- IH by lia.
      f_equal. f_equal; lia.
Qed.

Section ReadProps.
Context (file : list Z) (preadv : Z -> Z -> Z).

(** [os.preadv]: at least one byte and at most what was asked and what is left; none past the end. *)
Definition pread_ok : Prop :=
  forall off n, 0 <= off -> 0 < n ->
    if off <? zlen file then 0 < preadv off n <= Z.min n (zlen file - off) else preadv off n = 0.
Hypothesis Hpread : pread_ok.

Lemma read_loop_exact fuel off n got :
  0 <= off -> 0 <= got <= n -> n - got <= Z.of_nat fuel -> off + n <= zlen file ->
  read_loop file preadv fuel off n got (bytes_at file off got) = Some (Ok (bytes_at file off n)).
Proof.
  revert got. induction fuel as [|f IH]; intros got Ho Hg Hf Hn; simpl.
  - replace (got <? n) with false by lia. repeat f_equal. lia.
  - destruct (got <? n) eqn:E; [|repeat f_equal; lia].
    pose proof (Hpread (off + got) (n - got) ltac:(lia) ltac:(lia)) as Hp.
    replace (off + got <? zlen file) with true in Hp by lia.
    replace (preadv (off + got) (n - got) <=? 0) with false by lia.
    rewrite <- bytes_at_app by lia. apply IH; lia.
Qed.

Lemma read_into_exact off n :
  0 <= off -> 0 <= n -> off + n <= zlen file -> read_into file preadv off n = Some (Ok (bytes_at file off n)).
Proof. intros. apply (read_loop_exact (Z.to_nat n) off n 0); lia. Qed.

(** A read past the end of the file raises; it never returns short. *)
Lemma read_loop_short fuel off n got buf :
  0 <= off -> 0 <= got < n -> n - got <= Z.of_nat fuel -> zlen file < off + n ->
  read_loop file preadv fuel off n got buf = Some (Raise IOError).
Proof.
  revert got buf. induction fuel as [|f IH]; intros got buf Ho Hg Hf Hn; [lia|]. simpl.
  replace (got <? n) with true by lia.
  pose proof (Hpread (off + got) (n - got) ltac:(lia) ltac:(lia)) as Hp.
  destruct (off + got <? zlen file) eqn:E.
  - replace (preadv (off + got) (n - got) <=? 0) with false by lia. apply IH; lia.
  - by rewrite Hp.
Qed.

Lemma read_chunks_exact off n :
  0 <= off -> 0 <= n -> off + n <= zlen file ->
  read_all file preadv (chunks off n) = Some (Ok (bytes_at file off n)).
Proof.
  intros Ho Hn Hle. unfold chunks.
  assert (Hc : CHUNK = 8388608) by reflexivity. pose proof (cdiv_spec n CHUNK ltac:(lia)) as Hcd.
  assert (Hgen : forall a b, 0 <= a <= b -> b = cdiv n CHUNK ->
    read_all file preadv (map (fun k => (off + k * CHUNK, Z.min CHUNK (n - k * CHUNK))) (zrange a b)) =
    Some (Ok (bytes_at file (off + a * CHUNK) (n - a * CHUNK)))).
  { apply (zrange_ind (fun a b => 0 <= a <= b -> b = cdiv n CHUNK -> _)).
    - intros a b Hba Ha ->. rewrite zrange_nil by done. simpl. unfold bytes_at.
      replace (Z.to_nat (n - a * CHUNK)) with 0%nat by nia. done.
    - intros a b Hab IH Ha ->. rewrite zrange_cons by done. simpl.
      rewrite read_into_exact by nia. rewrite IH by lia.
      destruct (Z.le_gt_cases CHUNK (n - a * CHUNK)).
      + rewrite Z.min_l by lia. do 2 f_equal.
        replace (n - a * CHUNK) with (CHUNK + (n - (a + 1) * CHUNK)) by lia.
        rewrite bytes_at_app by lia. f_equal. f_equal. lia.
      + rewrite Z.min_r by lia. unfold bytes_at at 2.
        replace (Z.to_nat (n - (a + 1) * CHUNK)) with 0%nat by lia. simpl. by rewrite app_nil_r. }
  rewrite (Hgen 0 (cdiv n CHUNK)) by (nia || done). by rewrite Z.add_0_r, Z.sub_0_r.
Qed.

Lemma read_groups_exact fuel off rows row lo len outer r0 :
  0 <= off -> 0 < rows -> 0 <= lo -> 0 <= len -> lo + len <= row -> 0 <= r0 -> outer - r0 <= Z.of_nat fuel ->
  off + outer * row <= zlen file ->
  read_groups file preadv fuel off rows row lo len outer r0 =
    Some (Ok (kept_rows file off row lo len r0 (Z.max r0 outer))).
Proof.
  intros Ho Hrows Hlo Hlen Hle. revert r0. induction fuel as [|f IH]; intros r0 Hr Hf Hn; simpl.
  - replace (r0 <? outer) with false by lia. rewrite Z.max_l by lia.
    unfold kept_rows. by rewrite zrange_nil by lia.
  - destruct (r0 <? outer) eqn:E.
    + set (k := Z.min rows (outer - r0)). assert (Hk : 0 < k <= outer - r0) by lia.
      rewrite read_into_exact by nia. rewrite IH by lia.
      pose proof (keep_rows_eq file off row lo len (Z.to_nat k) r0 Ho Hr Hlo Hlen Hle) as Hkeep.
      rewrite Z2Nat.id in Hkeep by lia. rewrite Hkeep. do 2 f_equal.
      rewrite (Z.max_r r0) by lia. destruct (Z.le_gt_cases rows (outer - r0)).
      * rewrite Z.max_r by lia. replace k with rows by lia. symmetry. apply kept_rows_app. lia.
      * rewrite Z.max_l by lia. replace (r0 + k) with outer by lia.
        unfold kept_rows at 2. rewrite zrange_nil by lia. simpl. by rewrite app_nil_r.
    + rewrite Z.max_l by lia. unfold kept_rows. by rewrite zrange_nil by lia.
Qed.

Lemma kept_rows_length off row lo len a b :
  0 <= off -> 0 <= lo -> 0 <= len -> lo + len <= row -> 0 <= a <= b -> off + b * row <= zlen file ->
  zlen (kept_rows file off row lo len a b) = (b - a) * len.
Proof.
  intros Ho Hlo Hlen Hle. revert a b. apply (zrange_ind (fun a b => 0 <= a <= b -> _ -> _)).
  - intros a b Hba Hab Hn. unfold kept_rows. rewrite zrange_nil by lia. simpl.
    replace (b - a) with 0 by lia. done.
  - intros a b Hab IH Ha Hn. unfold kept_rows in *. rewrite zrange_cons by lia. simpl.
    rewrite zlen_app, IH, bytes_at_length by nia. lia.
Qed.

Lemma kept_rows_lookup off row lo len outer o t :
  0 <= off -> 0 <= lo -> 0 <= len -> lo + len <= row -> off + outer * row <= zlen file ->
  0 <= o < outer -> 0 <= t < len ->
  kept_rows file off row lo len 0 outer !! Z.to_nat (o * len + t) = file !! Z.to_nat (off + o * row + lo + t).
Proof.
  intros Ho Hlo Hlen Hle Hn Hoo Ht.
  rewrite (kept_rows_app _ _ _ _ _ 0 o) by lia.
  pose proof (kept_rows_length off row lo len 0 o Ho Hlo Hlen Hle ltac:(lia) ltac:(nia)) as Hl.
  unfold zlen in Hl. rewrite lookup_app_r by nia.
  replace (Z.to_nat (o * len + t) - length (kept_rows file off row lo len 0 o))%nat with (Z.to_nat t) by nia.
  rewrite (kept_rows_app _ _ _ _ _ o (o + 1)) by lia.
  assert (Hone : kept_rows file off row lo len o (o + 1) = bytes_at file (off + o * row + lo) len).
  { unfold kept_rows. rewrite zrange_cons, zrange_nil by lia. simpl. apply app_nil_r. }
  rewrite Hone. pose proof (bytes_at_length file (off + o * row + lo) len ltac:(nia) Hlen ltac:(nia)) as Hl2.
  unfold zlen in Hl2. rewrite lookup_app_l by lia. by rewrite bytes_at_lookup by nia.
Qed.

(** C13: the eager reads return the file's bytes: a whole tensor its own bytes; a slice, as
    many bytes as the plan accounts for it, element by element the bytes of the whole
    tensor at the rank's position of the sliced dimension. *)
Theorem eager_reads_exact base i dim start len n :
  sized i -> shape i !! Z.to_nat dim = Some n -> 0 <= start -> 0 <= len -> start + len <= n ->
  0 <= base + (data_offsets i).1 -> base + (data_offsets i).2 <= zlen file ->
  let whole := bytes_at file (base + (data_offsets i).1) ((data_offsets i).2 - (data_offsets i).1) in
  read_tensor file preadv base i = Some (Ok (Tensor (shape i) whole)) /\
  exists outer inner nread bs,
    slice_geometry i (dim, start, len) = Ok (outer, n * inner, inner) /\
    read_slice file preadv base i (dim, start, len) =
      Some (Ok (Tensor (take (Z.to_nat dim) (shape i) ++ [len] ++ drop (S (Z.to_nat dim)) (shape i)) bs)) /\
    spec_bytes i (Some (dim, start, len)) = Ok (nread, zlen bs) /\
    forall o j k, 0 <= o < outer -> 0 <= j < len -> 0 <= k < inner ->
      bs !! Z.to_nat ((o * len + j) * inner + k) = whole !! Z.to_nat ((o * n + start + j) * inner + k).
Proof.
  intros Hsz Hn Hst Hlen Hle Hlo Hhi whole.
  destruct (slice_geometry_sized i dim start len n Hsz Hn) as (outer & inner & Hg & Ho & Hi & Hnp & Htot).
  unfold whole, read_tensor, read_slice, spec_bytes. clear whole. rewrite Hg.
  destruct (data_offsets i) as [a b]. simpl in *.
  assert (Hrow : 0 < outer * (n * inner)) by nia.
  replace (b - a =? 0) with false by lia. rewrite read_chunks_exact by lia. split; [done|].
  exists outer, inner. destruct (outer * len * inner =? 0) eqn:Ez.
  { assert (len = 0) as -> by nia. eexists _, []. split; [done|]. split; [done|]. split.
    - do 2 f_equal. unfold zlen. simpl. lia.
    - lia. }
  assert (Hfile : base + a + outer * (n * inner) <= zlen file) by lia.
  set (bs := kept_rows file (base + a) (n * inner) (start * inner) (len * inner) 0 outer).
  assert (Hbs : zlen bs = outer * len * inner)
    by (unfold bs; rewrite kept_rows_length by nia; lia).
  eexists _, bs. split; [done|]. split; [|split].
  - assert (Hgot : (if outer =? 1
      then read_all file preadv (chunks (base + a + start * inner) (outer * len * inner))
      else if n * inner =? 0 then Some (Raise ZeroDivisionError)
      else read_groups file preadv (Z.to_nat outer) (base + a) (Z.max 1 (CHUNK / (n * inner))) (n * inner)
             (start * inner) (len * inner) outer 0) = Some (Ok bs)); [|by rewrite Hgot].
    destruct (outer =? 1) eqn:E1.
    + assert (outer = 1) as -> by lia. rewrite read_chunks_exact by nia. unfold bs, kept_rows.
      rewrite zrange_cons, zrange_nil by lia. simpl. rewrite app_nil_r.
      do 2 f_equal. f_equal; lia.
    + replace (n * inner =? 0) with false by nia. rewrite read_groups_exact by nia.
      rewrite Z.max_r by lia. done.
  - simpl. by rewrite Hbs.
  - intros o j k Ho' Hj Hk. unfold bs.
    replace ((o * len + j) * inner + k) with (o * (len * inner) + (j * inner + k)) by ring.
    rewrite (kept_rows_lookup (base + a) (n * inner) (start * inner) (len * inner) outer o (j * inner + k)) by nia.
    assert (Hin : 0 <= (o * n + start + j) * inner + k < b - a).
    { assert (o * n + start + j + 1 <= outer * n) by nia. nia. }
    rewrite bytes_at_lookup by lia. do 2 f_equal. ring.
Qed.
End ReadProps.

Lemma eager_reads_exact_witness :
  let file := zrange 0 140 in
  let preadv := fun off n => Z.max 0 (Z.min (Z.min n 3) (zlen file - off)) in
  let i := Info "U8" [4; 8] (32, 64) in
  exists outer inner nread bs,
    slice_geometry i (1, 4, 2) = Ok (outer, 8 * inner, inner) /\
    read_slice file preadv 20 i (1, 4, 2) = Some (Ok (Tensor [4; 2] bs)) /\
    spec_bytes i (Some (1, 4, 2)) = Ok (nread, zlen bs).
Proof.
  intros file preadv i.
  assert (Hp : pread_ok file preadv).
  { intros off n Ho Hn. unfold preadv. destruct (off <? zlen file) eqn:E; lia. }
  destruct (eager_reads_exact file preadv Hp 20 i 1 4 2 8) as (_ & outer & inner & nread & bs & H1 & H2 & H3 & _).
  - split; [repeat constructor; lia | reflexivity].
  - reflexivity.
  - lia.
  - lia.
  - lia.
  - vm_compute; discriminate.
  - vm_compute; discriminate.
  - exists outer, inner, nread, bs. split; [exact H1|]. split; [exact H2|exact H3].
Defined.

(** ** The wrapped handle *)

Section ShardProps.
Context {T : Type} (tsize : T -> Z -> Z) (narrow : T -> Z -> Z -> Z -> res T).

(** [torch.narrow]: a narrow of a narrow along the same dimension, and the size of its result. *)
Record narrow_laws : Prop := {
  narrow_narrow t d a n t' b m :
    narrow t d a n = Ok t' -> 0 <= b -> 0 <= m -> b + m <= n -> narrow t' d b m = narrow t d (a + b) m;
  narrow_size t d a n t' : narrow t d a n = Ok t' -> tsize t' d = n }.
Hypothesis Hnarrow : narrow_laws.

(** A stand-in answers a narrow inside its slice as the full tensor would, and raises otherwise. *)
Lemma tp_narrow_exact full shape_ dim lo len t dim0 start length :
  narrow full dim lo len = Ok t ->
  let d := if dim0 <? 0 then dim0 + zlen shape_ else dim0 in
  tp_narrow tsize narrow (StandIn t shape_ dim lo) dim0 start length =
    if (d =? dim) && (lo <=? start) && (start + length <=? lo + len) && (0 <=? length)
    then narrow full dim start length else Raise RuntimeError.
Proof.
  intros Ht d. unfold tp_narrow. simpl. fold d.
  pose proof (narrow_size Hnarrow _ _ _ _ _ Ht) as Hsz. rewrite Hsz.
  destruct (d =? dim) eqn:Ed; [|done]. apply Z.eqb_eq in Ed as ->. rewrite Hsz. simpl.
  destruct (Z.leb_spec lo start).
  - replace (start <? lo) with false by lia. simpl. destruct (Z.leb_spec (start + length) (lo + len)).
    + replace (lo + len <? start + length) with false by lia. simpl. destruct (Z.leb_spec 0 length).
      * replace (length <? 0) with false by lia. simpl.
        destruct ((start =? lo) && (length =? len)) eqn:E.
        { apply andb_true_iff in E as [E1 E2]. apply Z.eqb_eq in E1, E2. by subst. }
        rewrite (narrow_narrow Hnarrow full dim lo len) by (done || lia). f_equal. lia.
      * by replace (length <? 0) with true by lia.
    + by replace (lo + len <? start + length) with true by lia.
  - by replace (start <? lo) with true by lia.
Qed.

(** The results still held are the stock tensors, or the rank's slices of them. *)
Definition faithful (inner : string -> res T) (h : header) (sh : shard T) : Prop :=
  forall name t, futures sh !! name = Some (Ok t) ->
    match specs sh !! name with
    | None => inner name = Ok t
    | Some (dim, start, len) => exists full, inner name = Ok full /\ narrow full dim start len = Ok t
    end.

(** What a caller gets is what the stock handle has. *)
Definition serves (inner : string -> res T) (h : header) (name : string) (x : loaded T) : Prop :=
  match x with
  | Whole t => inner name = Ok t
  | Stock r => r = inner name
  | Sliced s =>
      exists full i len, inner name = Ok full /\ hget h name = Ok i /\ full_shape s = shape i /\
        forall dim0 start length,
          let d := if dim0 <? 0 then dim0 + zlen (shape i) else dim0 in
          tp_narrow tsize narrow s dim0 start length =
            if (d =? s_dim s) && (s_start s <=? start) && (start + length <=? s_start s + len) && (0 <=? length)
            then narrow full (s_dim s) start length else Raise RuntimeError
  end.

(** Every lookup on the wrapped handle yields the stock tensor, a stand-in whose narrows
    inside the rank's slice equal the stock tensor's (and raise outside it), or the stock
    handle's own answer, which it always is after a failed read (counted); a resident
    tensor is handed out once, and the handle stays faithful. *)
Theorem get_tensor_faithful inner h sh name x sh' :
  faithful inner h sh -> get_tensor inner h sh name = (x, sh') ->
  serves inner h name x /\ faithful inner h sh' /\ futures sh' !! name = None /\
  (forall e, futures sh !! name = Some (Raise e) ->
     x = Stock (inner name) /\ read_failures sh' = read_failures sh + 1) /\
  (forall name', name' <> name -> futures sh' !! name' = futures sh !! name').
Proof.
  intros Hf. unfold get_tensor.
  assert (Hdel : forall n, faithful inner h (Shard (delete name (futures sh)) (specs sh) n)).
  { intros n name' t. simpl. intros [_ Ht]%lookup_delete_Some. by apply Hf. }
  destruct (futures sh !! name) as [fut|] eqn:E.
  - assert (Hstock : serves inner h name (Stock (inner name))) by done.
    destruct fut as [t|e].
    + pose proof (Hf name t E) as Hft. destruct (specs sh !! name) as [[[dim start] len]|].
      * destruct (hget h name) as [i|] eqn:Eh; intros [= <- <-]; simpl;
          (split; [|split; [apply Hdel|split; [by rewrite lookup_delete_eq|split; [done|]]]]);
          try (by intros; rewrite lookup_delete_ne by congruence); [|done].
        destruct Hft as (full & Hfull & Hnar). exists full, i, len.
        split; [done|]. split; [done|]. split; [done|]. intros dim0 st l. by apply tp_narrow_exact.
      * intros [= <- <-]; simpl. split; [done|]. split; [apply Hdel|].
        split; [by rewrite lookup_delete_eq|]. split; [done|].
        intros; by rewrite lookup_delete_ne by congruence.
    + intros [= <- <-]; simpl. split; [done|]. split; [apply Hdel|].
      split; [by rewrite lookup_delete_eq|]. split; [done|]. intros; by rewrite lookup_delete_ne by congruence.
  - intros [= <- <-]. done.
Qed.
End ShardProps.

(** One-dimensional tensors for the witness. *)
Definition row_narrow (t : list Z) (d a n : Z) : res (list Z) :=
  if (d =? 0) && (0 <=? a) && (0 <=? n) && (a + n <=? zlen t) then Ok (bytes_at t a n) else Raise RuntimeError.

Lemma row_narrow_laws : narrow_laws (fun t _ => zlen t) row_narrow.
Proof.
  split; unfold row_narrow.
  - intros t d a n t' b m H Hb Hm Hbm. destruct ((d =? 0) && _ && _ && _) eqn:E; [|done].
    injection H as <-. rewrite !andb_true_iff in E. destruct E as [[[E1 E2] E3] E4].
    rewrite bytes_at_length by lia. rewrite bytes_at_sub by lia.
    replace ((d =? 0) && (0 <=? b) && (0 <=? m) && (b + m <=? n)) with true by lia.
    by replace ((d =? 0) && (0 <=? a + b) && (0 <=? m) && (a + b + m <=? zlen t)) with true by lia.
  - intros t d a n t' H. destruct ((d =? 0) && _ && _ && _) eqn:E; [|done].
    injection H as <-. rewrite !andb_true_iff in E. apply bytes_at_length; lia.
Qed.

Lemma get_tensor_faithful_witness :
  let inner := fun name => if String.eqb name "a.experts.1.w1.weight" then Ok (zrange 0 8) else Raise KeyError in
  let h := [("a.experts.1.w1.weight", Info "U8" [8] (0, 8))] in
  let sh : shard (list Z) := Shard {[ "a.experts.1.w1.weight" := Ok [4; 5; 6; 7] ]}
                                   {[ "a.experts.1.w1.weight" := (0, 4, 4) ]} 0 in
  exists x sh', get_tensor inner h sh "a.experts.1.w1.weight" = (x, sh') /\
    serves (fun t _ => zlen t) row_narrow inner h "a.experts.1.w1.weight" x.
Proof.
  intros inner h sh.
  destruct (get_tensor inner h sh "a.experts.1.w1.weight") as [x sh'] eqn:E.
  exists x, sh'. split; [reflexivity|].
  refine (proj1 (get_tensor_faithful (fun t _ => zlen t) row_narrow row_narrow_laws inner h sh
                   "a.experts.1.w1.weight" x sh' _ E)).
  intros name t Ht. simpl in Ht. apply lookup_singleton_Some in Ht as [<- [= <-]].
  simpl. exists (zrange 0 8). split; reflexivity.
Defined.

(** ** Pacing *)

Definition held_sum (m : gmap Z (Z * Z)) : Z := map_fold (fun _ x acc => x.2 + acc) 0 m.

Lemma held_sum_insert m k x : m !! k = None -> held_sum (<[k := x]> m) = x.2 + held_sum m.
Proof. intros H. unfold held_sum. rewrite map_fold_insert_L; [done| |done]. intros. lia. Qed.

Lemma held_sum_delete m k x : m !! k = Some x -> held_sum m = x.2 + held_sum (delete k m).
Proof.
  intros H. rewrite <- (insert_delete_id m k x H) at 1. apply held_sum_insert. apply lookup_delete_eq.
Qed.

Lemma held_sum_update m k x y : m !! k = Some x -> y.2 = x.2 -> held_sum (<[k := y]> m) = held_sum m.
Proof.
  intros H Hy. rewrite <- insert_delete_eq, held_sum_insert by apply lookup_delete_eq.
  rewrite (held_sum_delete m k x H). lia.
Qed.

(** The copies in flight that read from slab [k], and the charges of those that read from none. *)
Definition copies (k : Z) (cs : list charge) : Z :=
  zlen (List.filter (fun c => bool_decide (c.1 = Some k)) cs).
Definition loose (cs : list charge) : list Z :=
  omap (fun c : charge => match c.1 with None => Some (Z.max 1 c.2) | Some _ => None end) cs.

(** The budget's state agrees with the copies in flight, and the budget is kept unless one
    single charge exceeds it. *)
Definition pace_inv (budget : Z) (st : pace) (cs : list charge) : Prop :=
  (forall k, match held st !! k with
             | Some (n, b) => n = copies k cs /\ 0 < n /\ 0 < b
             | None => copies k cs = 0
             end) /\
  inflight st = held_sum (held st) + zsum (loose cs) /\
  (inflight st <= budget \/ Z.of_nat (size (held st)) + zlen (loose cs) = 1).

(** The two events, in any order: a copy is admitted, or one in flight ends. *)
Inductive pace_step (budget : Z) : pace * list charge -> pace * list charge -> Prop :=
  | step_admit st cs c st' :
      admit_copy budget st c = Some st' -> pace_step budget (st, cs) (st', c :: cs)
  | step_release st cs1 c cs2 st' :
      release st c = Ok st' -> pace_step budget (st, cs1 ++ c :: cs2) (st', cs1 ++ cs2).

Lemma copies_app k cs cs' : copies k (cs ++ cs') = copies k cs + copies k cs'.
Proof. unfold copies. by rewrite List.filter_app, zlen_app. Qed.

Lemma copies_cons k c cs : copies k (c :: cs) = (if bool_decide (c.1 = Some k) then 1 else 0) + copies k cs.
Proof. unfold copies. simpl. destruct (bool_decide _); autorewrite with zlen; lia. Qed.

Lemma copies_nonneg k cs : 0 <= copies k cs.
Proof. apply zlen_nonneg. Qed.

Lemma loose_pos cs : Forall (fun x => 0 < x) (loose cs).
Proof.
  apply Forall_forall. intros x Hx. unfold loose in Hx. apply list_elem_of_omap in Hx as ([key n] & _ & Hx).
  simpl in Hx. destruct key; [done|]. injection Hx as <-. lia.
Qed.

Lemma held_sum_pos m : (forall k n b, m !! k = Some (n, b) -> 0 < b) -> 0 <= held_sum m.
Proof.
  induction m as [|k [n b] m Hk IH] using map_ind; intros H; [done|].
  rewrite held_sum_insert by done. simpl.
  assert (0 < b) by (apply (H k n b), lookup_insert_eq).
  assert (0 <= held_sum m); [|lia]. apply IH. intros k' n' b' Hk'. apply (H k' n' b').
  rewrite lookup_insert_ne; [done|]. congruence.
Qed.

Lemma zsum_pos l : Forall (fun x => 0 < x) l -> zlen l <= zsum l.
Proof. induction 1; simpl; autorewrite with zlen; unfold zlen in *; simpl in *; lia. Qed.

Lemma held_size_le m : (forall k n b, m !! k = Some (n, b) -> 0 < b) -> Z.of_nat (size m) <= held_sum m.
Proof.
  induction m as [|k [n b] m Hk IH] using map_ind; intros H; [done|].
  rewrite held_sum_insert, map_size_insert_None by done. simpl.
  assert (0 < b) by (apply (H k n b), lookup_insert_eq).
  assert (Z.of_nat (size m) <= held_sum m); [|lia]. apply IH. intros k' n' b' Hk'. apply (H k' n' b').
  rewrite lookup_insert_ne; [done|]. congruence.
Qed.

(** Every charge is at least one byte, so the bytes in flight bound the charges. *)
Lemma charges_le budget st cs :
  pace_inv budget st cs -> Z.of_nat (size (held st)) + zlen (loose cs) <= inflight st.
Proof.
  intros (Hheld & -> & _). pose proof (zsum_pos _ (loose_pos cs)).
  assert (Z.of_nat (size (held st)) <= held_sum (held st)); [|lia].
  apply held_size_le. intros k n b Hk. specialize (Hheld k). rewrite Hk in Hheld. lia.
Qed.

Lemma admit_inv budget st cs c st' :
  pace_inv budget st cs -> admit_copy budget st c = Some st' -> pace_inv budget st' (c :: cs).
Proof.
  intros Hinv Had. pose proof (charges_le _ _ _ Hinv) as Hcharges. destruct Hinv as (Hheld & Hsum & Hbound).
  destruct c as [key nb]. unfold admit_copy in Had.
  destruct (negb (is_held st key) && _ && _) eqn:Ewait; [done|].
  assert (Hroom : is_held st key = true \/ inflight st <= 0 \/ inflight st + Z.max 1 nb <= budget).
  { destruct (is_held st key); [by left|]. right. simpl in Ewait. lia. }
  clear Ewait. pose proof (zlen_nonneg (loose cs)). destruct key as [k|].
  - simpl in Hroom. pose proof (Hheld k) as Hk. destruct (held st !! k) as [[n b]|] eqn:E; injection Had as <-.
    + split; [|split].
      * intros k'. simpl. rewrite copies_cons. simpl. destruct (decide (k' = k)) as [->|Hne].
        -- rewrite lookup_insert_eq, bool_decide_eq_true_2 by done. lia.
        -- rewrite lookup_insert_ne, bool_decide_eq_false_2 by congruence. apply Hheld.
      * simpl. rewrite (held_sum_update _ k (n, b)) by done. done.
      * simpl. destruct Hbound as [|Hone]; [by left|]. right. rewrite map_size_insert_Some by eauto. done.
    + split; [|split].
      * intros k'. simpl. rewrite copies_cons. simpl. destruct (decide (k' = k)) as [->|Hne].
        -- rewrite lookup_insert_eq, bool_decide_eq_true_2 by done. lia.
        -- rewrite lookup_insert_ne, bool_decide_eq_false_2 by congruence. apply Hheld.
      * simpl. rewrite held_sum_insert by done. simpl. lia.
      * simpl. rewrite map_size_insert_None by done.
        destruct Hroom as [Hbad|[Hz|Hle]]; [|right; change (loose ((Some k, nb) :: cs)) with (loose cs); lia|by left].
        apply bool_decide_eq_true in Hbad as [? Hbad]. congruence.
  - injection Had as <-. split; [|split].
    + intros k'. simpl. rewrite copies_cons. rewrite bool_decide_eq_false_2 by done. apply Hheld.
    + simpl. lia.
    + simpl. change (loose ((None, nb) :: cs)) with (Z.max 1 nb :: loose cs). autorewrite with zlen.
      destruct Hroom as [|[Hz|Hle]]; [done|right; lia|by left].
Qed.

Lemma idle (m : gmap Z (Z * Z)) l : Z.of_nat (size m) + zlen l = 0 -> held_sum m + zsum l = 0.
Proof.
  intros H. pose proof (zlen_nonneg l). assert (size m = 0%nat) as ->%map_size_empty_inv by lia.
  destruct l; [done|]. autorewrite with zlen in *. pose proof (zlen_nonneg l). lia.
Qed.

Lemma release_inv budget st cs1 c cs2 :
  0 <= budget -> pace_inv budget st (cs1 ++ c :: cs2) ->
  exists st', release st c = Ok st' /\ pace_inv budget st' (cs1 ++ cs2).
Proof.
  intros Hb (Hheld & Hsum & Hbound). destruct c as [key nb]. unfold release.
  assert (Hcopies : forall k, copies k (cs1 ++ @cons charge (key, nb) cs2) =
                    (if bool_decide (key = Some k) then 1 else 0) + copies k (cs1 ++ cs2)).
  { intros k. rewrite !copies_app, copies_cons. simpl. lia. }
  assert (Hloose : loose (cs1 ++ @cons charge (key, nb) cs2) =
                   loose cs1 ++ match key with None => [Z.max 1 nb] | Some _ => [] end ++ loose cs2).
  { unfold loose. rewrite omap_app. by destruct key. }
  assert (Hloose' : loose (cs1 ++ cs2) = loose cs1 ++ loose cs2) by (unfold loose; apply omap_app).
  rewrite Hloose in Hsum, Hbound. rewrite zsum_app in Hsum. rewrite zlen_app in Hbound.
  destruct key as [k|].
  - pose proof (Hheld k) as Hk. rewrite Hcopies, bool_decide_eq_true_2 in Hk by done.
    pose proof (copies_nonneg k (cs1 ++ cs2)) as Hnn.
    destruct (held st !! k) as [[n b]|] eqn:E; [|lia].
    destruct (n - 1 =? 0) eqn:En; eexists; (split; [done|]); (split; [|split]); simpl.
    + intros k'. specialize (Hheld k'). rewrite Hcopies in Hheld. destruct (decide (k' = k)) as [->|Hne].
      * rewrite lookup_delete_eq. lia.
      * rewrite lookup_delete_ne by congruence. rewrite bool_decide_eq_false_2 in Hheld by congruence. exact Hheld.
    + rewrite (held_sum_delete _ k (n, b) E) in Hsum. rewrite Hloose', zsum_app. simpl in Hsum. lia.
    + left. rewrite (held_sum_delete _ k (n, b) E) in Hsum. simpl in Hsum, Hbound.
      destruct Hbound as [|Hone]; [lia|].
      pose proof (map_size_delete_Some k (held st) ltac:(eauto)) as Hsz.
      pose proof (map_size_ne_0_lookup_2 (held st) k ltac:(eauto)) as Hne0.
      pose proof (idle (delete k (held st)) (loose cs1 ++ loose cs2)) as Hidle.
      rewrite zlen_app, zsum_app in Hidle. lia.
    + intros k'. specialize (Hheld k'). rewrite Hcopies in Hheld. destruct (decide (k' = k)) as [->|Hne].
      * rewrite lookup_insert_eq. rewrite bool_decide_eq_true_2, E in Hheld by done. lia.
      * rewrite lookup_insert_ne by congruence. rewrite bool_decide_eq_false_2 in Hheld by congruence. exact Hheld.
    + rewrite (held_sum_update _ k (n, b)) by done. rewrite Hloose', zsum_app. simpl in Hsum. lia.
    + rewrite Hloose', zlen_app. rewrite map_size_insert_Some by eauto. simpl in *. lia.
  - eexists. split; [done|]. split; [|split]; simpl.
    + intros k'. specialize (Hheld k'). by rewrite Hcopies in Hheld.
    + rewrite Hloose', zsum_app. simpl in Hsum. lia.
    + left. simpl in Hsum, Hbound. destruct Hbound as [|Hone]; [lia|].
      pose proof (idle (held st) (loose cs1 ++ loose cs2)) as Hidle.
      rewrite zlen_app, zsum_app in Hidle. autorewrite with zlen in Hone. lia.
Qed.

Lemma pace_inv_step budget x y :
  0 <= budget -> pace_step budget x y -> pace_inv budget x.1 x.2 -> pace_inv budget y.1 y.2.
Proof.
  intros Hb [st cs c st' Had|st cs1 c cs2 st' Hrel] Hinv; simpl in *; [by eapply admit_inv|].
  destruct (release_inv budget st cs1 c cs2 Hb Hinv) as (st2 & Hst2 & Hinv2). congruence.
Qed.

Lemma pace_inv_reach budget x y :
  0 <= budget -> rtc (pace_step budget) x y -> pace_inv budget x.1 x.2 -> pace_inv budget y.1 y.2.
Proof. intros Hb. induction 1; [done|]. eauto using pace_inv_step. Qed.

Lemma pace_inv_idle budget st : pace_inv budget st [] -> inflight st = 0 /\ held st = ∅.
Proof.
  intros (Hheld & Hsum & _). assert (Hemp : held st = ∅).
  { apply map_empty. intros k. specialize (Hheld k). destruct (held st !! k) as [[n b]|]; [|done].
    unfold copies in Hheld. simpl in Hheld. unfold zlen in Hheld. simpl in Hheld. lia. }
  split; [|done]. rewrite Hsum, Hemp. done.
Qed.

(** C18: whatever the order of submissions and completions: every copy in flight can be
    released, the budget's state is the copies in flight (a slab charged once for all of
    its copies), the bytes in flight never exceed the budget unless a single charge does,
    a submission waits only while a copy is in flight, and when none is, it is admitted. *)
Theorem pacing_bounded budget st cs :
  0 <= budget -> rtc (pace_step budget) (Pace 0 ∅, []) (st, cs) ->
  pace_inv budget st cs /\
  (forall c, c ∈ cs -> exists st', release st c = Ok st') /\
  (forall c, admit_copy budget st c = None -> cs <> []) /\
  (cs = [] -> inflight st = 0 /\ held st = ∅).
Proof.
  intros Hb Hreach. pose proof (pace_inv_reach budget _ _ Hb Hreach) as Hinv. simpl in Hinv.
  assert (H0 : pace_inv budget (Pace 0 ∅) []).
  { split; [|split; [done|left; simpl; lia]]. intros k. simpl. by rewrite lookup_empty. }
  specialize (Hinv H0). split; [done|]. split; [|split].
  - intros c Hc. apply list_elem_of_split in Hc as (cs1 & cs2 & ->).
    destruct (release_inv budget st cs1 c cs2 Hb Hinv) as (st' & Hst' & _). eauto.
  - intros [key nb] Hwait ->. destruct (pace_inv_idle _ _ Hinv) as [Hz _].
    unfold admit_copy in Hwait. rewrite Hz in Hwait. rewrite andb_false_r in Hwait. simpl in Hwait.
    destruct key as [k|]; [|done]. destruct (held st !! k) as [[? ?]|]; done.
  - intros ->. by eapply pace_inv_idle.
Qed.

Lemma pacing_bounded_witness :
  let st1 := Pace 8 {[ 7 := (1, 8) ]} in
  let st2 := Pace 8 {[ 7 := (2, 8) ]} in
  let st3 := Pace 8 {[ 7 := (1, 8) ]} in
  pace_inv 6 st3 [(Some 7, 8)] /\ admit_copy 6 st3 (None, 1) = None.
Proof.
  intros st1 st2 st3. split; [|reflexivity].
  apply (pacing_bounded 6 st3 [(Some 7, 8)]); [lia|].
  apply (rtc_l _ _ (st1, [(Some 7, 8)])); [apply step_admit; vm_compute; reflexivity|].
  apply (rtc_l _ _ (st2, [(Some 7, 3); (Some 7, 8)])); [apply step_admit; vm_compute; reflexivity|].
  apply (rtc_l _ _ (st3, [(Some 7, 8)])); [|apply rtc_refl].
  apply (step_release 6 st2 [] (Some 7, 3) [(Some 7, 8)]). vm_compute; reflexivity.
Defined.

(** ** Which shards are read eagerly *)

Lemma needed_names_in h phase ep n names k :
  needed_names h phase ep n = Ok names -> k ∈ names ->
  k ∈ map fst h /\ (if String.eqb phase "draft" then startswith DRAFT_PREFIX k = true else skipped k = false).
Proof.
  unfold needed_names. intros H Hk.
  assert (Hdense : k ∈ List.filter (fun k => negb (skipped k) && bool_decide (expert_id k = None)) (map fst h) ->
                   k ∈ map fst h /\ skipped k = false).
  { intros [H1 H2]%mem_filter. split; [done|]. by apply andb_true_iff in H2 as [H2%negb_true_iff _]. }
  destruct (String.eqb phase "draft"); [simplify_eq; by apply mem_filter in Hk|].
  destruct ep as [[rank size]|]; [|simplify_eq; by apply Hdense].
  destruct n as [n|]; [|simplify_eq; by apply Hdense].
  destruct (size =? 0); [done|]. destruct (negb (n mod size =? 0)); simplify_eq; [by apply Hdense|].
  apply mem_filter in Hk as [H1 H2]. split; [done|]. by apply andb_true_iff in H2 as [H2%negb_true_iff _].
Qed.

Lemma mapR_in {A B} (f : A -> res B) l ys y : mapR f l = Ok ys -> y ∈ ys -> exists x, x ∈ l /\ f x = Ok y.
Proof.
  revert ys. induction l as [|x l IH]; intros ys; simpl; [intros [= <-] H; by apply not_elem_of_nil in H|].
  destruct (f x) eqn:E; [|done]. destruct (mapR f l) eqn:E2; [|done]. intros [= <-] [->|H]%elem_of_cons.
  - exists x. split; [left|done].
  - destruct (IH _ eq_refl H) as (z & Hz & Hf). exists z. split; [by right|done].
Qed.

Lemma read_plan_in h phase ep n tp experts p k s :
  read_plan h phase ep n tp experts = Ok p -> (k, s) ∈ p ->
  exists names i, needed_names h phase ep n = Ok names /\ k ∈ names /\ hget h k = Ok i /\
    slice_spec k i tp = Ok s /\ (experts = false -> expert_id k = None).
Proof.
  unfold read_plan. destruct (needed_names h phase ep n) as [names|] eqn:E; [|done]. simpl. intros Hp Hin.
  destruct (mapR_in _ _ _ _ Hp Hin) as (k' & Hk' & He). unfold plan_entry in He.
  destruct (hget h k') as [i|] eqn:Ei; [|done]. simpl in He.
  destruct (slice_spec k' i tp) as [s'|] eqn:Es; [|done]. simpl in He. injection He as -> ->.
  exists names, i. destruct experts; [by repeat split|].
  apply mem_filter in Hk' as [H1 H2]. apply bool_decide_eq_true in H2. by repeat split.
Qed.

(** A draft load sees a shard without draft tensors as empty; an eager shard reads only
    tensors of the shard that its load consumes; and when every rank holds a slice of every
    expert, no routed expert tensor is read eagerly except by its slice specification
    (none at all with slicing off). *)
Theorem wrap_open_correct h phase ep tp n mode device_ok o :
  wrap_open h phase ep tp n mode device_ok = Ok o ->
  match o with
  | OpenStock => True
  | OpenEmpty => phase = "draft" /\ forall k, k ∈ map fst h -> startswith DRAFT_PREFIX k = false
  | OpenEager p =>
      device_ok = true /\ p <> [] /\
      forall k s, (k, s) ∈ p ->
        k ∈ map fst h /\
        (if String.eqb phase "draft" then startswith DRAFT_PREFIX k = true else skipped k = false) /\
        (forall r0 rank size e, phase = "target" -> ep = Some (r0, 1) -> tp = Some (rank, size) -> 1 < size ->
           expert_id k = Some e ->
           mode <> Off /\ exists i, hget h k = Ok i /\ slice_spec k i (Some (rank, size)) = Ok s)
  end.
Proof.
  unfold wrap_open. intros H.
  set (ep' := if String.eqb phase "target" then ep else None) in *.
  set (lay := if String.eqb phase "target" then ep' else if bool_decide (mode <> Off) then ep else None) in *.
  set (moe := if bool_decide (is_Some lay) || bool_decide (mode = On) then tp else None) in *.
  set (slicing := tp_slicing lay moe mode) in *.
  set (experts := read_experts slicing lay moe) in *.
  set (nr := if bool_decide (is_Some ep') then n else None) in *.
  destruct (needed_names h phase ep' nr) as [names|] eqn:En; [|done]. simpl in H.
  destruct (String.eqb phase "draft" && match names with [] => true | _ => false end) eqn:Ed.
  { injection H as <-. apply andb_true_iff in Ed as [Ed1 Ed2]. apply String.eqb_eq in Ed1 as ->.
    split; [done|]. intros k Hk. destruct names; [|done]. destruct (startswith DRAFT_PREFIX k) eqn:Es; [|done].
    unfold needed_names in En. simpl in En. injection En as En.
    assert (k ∈ List.filter (startswith DRAFT_PREFIX) (map fst h)) as Hin by (by apply mem_filter).
    rewrite En in Hin. by apply not_elem_of_nil in Hin. }
  destruct (if bool_decide (is_Some slicing) || negb experts then _ else _) as [p|] eqn:Ep; [|done]. simpl in H.
  destruct (match p with [] => true | _ => false end || negb device_ok) eqn:Eo; injection H as <-; [done|].
  apply orb_false_iff in Eo as [Eo1 Eo2]. apply negb_false_iff in Eo2.
  split; [done|]. split; [by destruct p|]. intros k s Hin.
  assert (Hk : k ∈ names).
  { destruct (bool_decide (is_Some slicing) || negb experts).
    - destruct (read_plan_in _ _ _ _ _ _ _ _ _ Ep Hin) as (names' & i & Hn & Hk & _). congruence.
    - injection Ep as <-. apply list_elem_of_fmap in Hin as (k' & [= -> ->] & Hk'). done. }
  destruct (needed_names_in _ _ _ _ _ _ En Hk) as [H1 H2]. split; [done|]. split; [done|].
  intros r0 rank size e -> -> -> Hsize He.
  assert (Hcase : (slicing = None /\ experts = false) \/ (mode <> Off /\ slicing = Some (rank, size))).
  { unfold slicing, experts, moe, lay, ep', read_experts. simpl. unfold slicing, moe, lay, ep'. simpl.
    assert (E1 : (size <=? 1) = false) by lia. assert (E2 : (1 <? size) = true) by lia. rewrite E2.
    destruct mode; simpl; [left|right|right]; rewrite ?E1; done. }
  clearbody experts slicing. destruct Hcase as [[-> ->]|[Hmode ->]]; simpl in Ep;
    destruct (read_plan_in _ _ _ _ _ _ _ _ _ Ep Hin) as (names' & i & _ & _ & Hi & Hs & Hne).
  - rewrite Hne in He; done.
  - split; [done|]. by exists i.
Qed.

Lemma wrap_open_correct_witness :
  exists p s, wrap_open ex_header "target" (Some (0, 1)) (Some (1, 2)) (Some 4) Auto true = Ok (OpenEager p) /\
    ("layers.0.experts.3.w2.weight", s) ∈ p /\
    (exists i, hget ex_header "layers.0.experts.3.w2.weight" = Ok i /\
               slice_spec "layers.0.experts.3.w2.weight" i (Some (1, 2)) = Ok s).
Proof.
  destruct (wrap_open ex_header "target" (Some (0, 1)) (Some (1, 2)) (Some 4) Auto true) as [[| |p]|] eqn:E;
    try (vm_compute in E; discriminate E).
  exists p, (Some (1, 4, 4)). split; [reflexivity|].
  assert (Hin : ("layers.0.experts.3.w2.weight", Some (1, 4, 4)) ∈ p).
  { vm_compute in E. injection E as <-. right. left. }
  split; [exact Hin|].
  destruct (wrap_open_correct ex_header "target" (Some (0, 1)) (Some (1, 2)) (Some 4) Auto true (OpenEager p) E)
    as (_ & _ & H).
  destruct (H _ _ Hin) as (_ & _ & H3).
  destruct (H3 0 1 2 3 eq_refl eq_refl eq_refl ltac:(lia) eq_refl) as [_ H4]. exact H4.
Defined.

(** ** Escaped slabs *)

Lemma last_le_at l x k y :
  StronglySorted Z.le l -> l !! k = Some y -> y <= x -> (forall z, l !! S k = Some z -> x < z) ->
  last_le l x = Some k.
Proof.
  revert k. induction l as [|z l IH]; intros k Hs Hk Hy Hnext; [done|].
  apply StronglySorted_inv in Hs as [Hs Hz]. simpl. destruct k as [|k].
  - simpl in Hk. injection Hk as ->. replace (x <? y) with false by lia.
    destruct l as [|w l']; [done|]. specialize (Hnext w eq_refl). simpl. by replace (x <? w) with true by lia.
  - simpl in Hk. rewrite Forall_forall in Hz. specialize (Hz y ltac:(by eapply list_elem_of_lookup_2)).
    replace (x <? z) with false by lia. by rewrite (IH k Hs Hk Hy Hnext).
Qed.

(** A strongly sorted list under a relation that implies order of the keys. *)
Lemma sorted_keys {A} (R : A -> A -> Prop) (P : A -> Prop) (key : A -> Z) l :
  (forall x y, P x -> R x y -> key x <= key y) -> StronglySorted R l -> Forall P l ->
  StronglySorted Z.le (map key l).
Proof.
  intros H. induction 1 as [|x l Hs IH Hx]; intros HP; simpl; [constructor|].
  apply Forall_cons in HP as [HPx HP]. constructor; [by apply IH|].
  apply Forall_fmap. eapply Forall_impl; [exact Hx|]. simpl. auto.
Qed.

Lemma sorted_next {A} (R : A -> A -> Prop) l k (x y : A) :
  StronglySorted R l -> l !! k = Some x -> l !! S k = Some y -> R x y.
Proof.
  revert k. induction l as [|z l IH]; intros k Hs Hx Hy; [done|]. apply StronglySorted_inv in Hs as [Hs Hz].
  destruct k as [|k]; simpl in *.
  - injection Hx as ->. rewrite Forall_forall in Hz. apply Hz. by eapply list_elem_of_lookup_2.
  - by apply (IH k).
Qed.

(** Live slabs that do not overlap, each holding its members as packed. *)
Definition slabs_ok (slabs : list live_slab) : Prop :=
  StronglySorted (fun s s' => l_base s + l_size s <= l_base s') slabs /\
  Forall (fun s => 0 < l_size s /\ placed (l_size s) (l_members s)) slabs.

Lemma holder_member slabs s m ptr :
  slabs_ok slabs -> s ∈ slabs -> m ∈ l_members s ->
  l_base s + m_off m <= ptr < l_base s + m_off m + m_kept m ->
  holder slabs ptr = Some (l_base s, Some (m_name m)).
Proof.
  intros [Hs Hf] Hin Hm Hptr. rewrite Forall_forall in Hf. destruct (Hf s Hin) as (Hsz & Hms & Hmf).
  rewrite Forall_forall in Hmf. destruct (Hmf m Hm) as (Hoff & _ & Hk & Hend).
  apply list_elem_of_lookup in Hin as [i Hi]. apply list_elem_of_lookup in Hm as [j Hj].
  unfold holder. rewrite (last_le_at _ ptr i (l_base s)).
  - rewrite Hi. replace (l_base s + l_size s <=? ptr) with false by lia.
    rewrite (last_le_at _ (ptr - l_base s) j (m_off m)); [by rewrite Hj| | |lia|].
    + eapply sorted_keys; [|exact Hms|apply Forall_forall; exact Hmf]. simpl. intros x y Hx Hxy. lia.
    + rewrite list_lookup_fmap, Hj. done.
    + intros z Hz. rewrite list_lookup_fmap in Hz. destruct (l_members s !! S j) as [m'|] eqn:Ej; [|done].
      injection Hz as <-. pose proof (sorted_next _ _ _ _ _ Hms Hj Ej) as Hn. simpl in Hn. lia.
  - eapply sorted_keys; [|exact Hs|apply Forall_forall; exact Hf]. simpl. lia.
  - by rewrite list_lookup_fmap, Hi.
  - lia.
  - intros z Hz. rewrite list_lookup_fmap in Hz. destruct (slabs !! S i) as [s'|] eqn:Ei; [|done].
    injection Hz as <-. pose proof (sorted_next _ _ _ _ _ Hs Hi Ei) as Hn. simpl in Hn. lia.
Qed.

(** After a load every slab still alive is reported together with the tensors whose views
    hold it: a pointer into a member's region of a live slab is reported under that slab and
    that member's name. *)
Theorem escaped_slabs_named alive ptrs s m ptr :
  slabs_ok (merge_sort slab_le alive) -> s ∈ alive -> m ∈ l_members s -> ptr ∈ ptrs ->
  l_base s + m_off m <= ptr < l_base s + m_off m + m_kept m ->
  map fst (escaped_slabs alive ptrs) = alive /\
  exists names, (s, names) ∈ escaped_slabs alive ptrs /\ Some (m_name m) ∈ names.
Proof.
  intros Hok Hs Hm Hp Hptr. unfold escaped_slabs. split.
  - rewrite map_map. simpl. by rewrite map_id.
  - eexists. split; [apply list_elem_of_fmap; exists s; split; [reflexivity|done]|].
    apply list_elem_of_omap. exists ptr. split; [done|].
    rewrite (holder_member _ s m ptr Hok) by (done || by rewrite merge_sort_Permutation).
    by rewrite Z.eqb_refl.
Qed.

Lemma escaped_slabs_named_witness :
  let s1 := LiveSlab 8192 4112 [("a", 0, 16); ("b", 4096, 16)] in
  let s2 := LiveSlab 1000 64 [("c", 0, 64)] in
  escaped_slabs [s1; s2] [12290; 5] = [(s1, [Some "b"]); (s2, [])] /\
  exists names, (s1, names) ∈ escaped_slabs [s1; s2] [12290; 5] /\ Some "b" ∈ names.
Proof.
  intros s1 s2. split; [vm_compute; reflexivity|].
  refine (proj2 (escaped_slabs_named [s1; s2] [12290; 5] s1 ("b", 4096, 16) 12290 _ _ _ _ _)).
  - replace (merge_sort slab_le [s1; s2]) with [s2; s1] by reflexivity.
    split; [repeat constructor; vm_compute; discriminate|].
    repeat constructor; vm_compute; try discriminate; reflexivity.
  - left.
  - right. left.
  - left.
  - split; vm_compute; [discriminate|reflexivity].
Defined.
