(* ===== verification/ReplicatedSplit.v ===== *)
(** * Column split of replicated linear layers (adapter/replicated_split.py)

    Every rank computes a slice of a replicated layer's output columns and the slices
    are all-gathered.  A matrix is its list of rows; the quantized linear is a
    parameter (the stock layer, and a rank's run on a window of the weight rows), as is
    the RoCE columns kernel.  The ranks run the same program: one step of the model is
    the call on every rank, and the agreement over the group is the conjunction over
    the ranks.  Logging is not modelled. *)
From S2P Require Import Prelude PyStr.
#[local] Open Scope string_scope.
#[local] Open Scope list_scope.
#[local] Open Scope Z_scope.

Definition TILE : Z := 128.
Definition PACK : Z := 16.

(** ** Geometry *)

(** [_ranges]: tile-aligned column ranges, as even as possible, and the widest one. *)
Definition ranges_of (n world : Z) : res (list (Z * Z) * Z) :=
  let tiles := n / TILE in
  if world =? 0 then Raise ZeroDivisionError
  else
    let base := tiles / world in
    let extra := tiles mod world in
    let counts := map (fun r => base + (if r <? extra then 1 else 0)) (zrange 0 world) in
    let starts := map (fun r => zsum (take (Z.to_nat r) counts) * TILE) (zrange 0 world) in
    match counts with
    | [] => Raise ValueError
    | c :: cs => Ok (zip_with (fun s c => (s, s + c * TILE)) starts counts, foldl Z.max c cs * TILE)
    end.

Definition window (n lo width : Z) : Z := Z.min lo (n - width).

Definition compact_layout (ranges : list (Z * Z)) : list Z * list Z :=
  (map (fun x => x.2 - x.1) ranges, map fst ranges).

(** [compact_layout] in 16-byte packs, when every width and offset is whole packs. *)
Definition pack_layout (ranges : list (Z * Z)) (element_size : Z) : option (list Z * list Z * Z) :=
  let '(widths, dst) := compact_layout ranges in
  if existsb (fun v => negb ((v * element_size) mod PACK =? 0)) (widths ++ dst) then None
  else Some (map (fun w => w * element_size / PACK) widths, map (fun d => d * element_size / PACK) dst,
             zsum widths * element_size / PACK).

(** ** Matrices *)

#[local] Abbreviation mat A := (list (list A)) (only parsing).

Section Matrices.
Context {A : Type} (zero : A).

Definition ncols (m : mat A) : Z := match m with [] => 0 | r :: _ => zlen r end.

(** [m[:, lo:hi]]. *)
Definition cols (m : mat A) (lo hi : Z) : mat A := map (fun r => py_slice r lo hi) m.

(** [torch.cat(ms, dim=-1)] of matrices with the same rows, which is also the all-gather along
    the columns. *)
Definition hcat (ms : list (mat A)) : mat A :=
  match ms with
  | [] => []
  | m :: _ => imap (fun i _ => concat (map (fun m' => default [] (m' !! i)) ms)) m
  end.

Definition padded (local : mat A) (width : Z) : mat A :=
  if ncols local <? width
  then map (fun r => r ++ replicate (Z.to_nat (width - ncols local)) zero) local
  else local.

Definition assemble (gathered : mat A) (ranges : list (Z * Z)) (width : Z) (offs : list Z) : mat A :=
  if forallb (fun x => x.2 - x.1 =? width) ranges then gathered
  else hcat (imap (fun r '((a, b), o) =>
                     cols gathered (Z.of_nat r * width + o) (Z.of_nat r * width + o + (b - a)))
                  (zip ranges offs)).

(** [stacked]: the parts gathered along a new first dimension. *)
Definition assemble_stacked (stacked : list (mat A)) (ranges : list (Z * Z)) (offs : list Z) : mat A :=
  hcat (zip_with (fun m '((a, b), o) => cols m o (o + (b - a))) stacked (zip ranges offs)).
End Matrices.

(** ** The decision *)

(** A layer's split: the weight rows this rank's proxy holds, and the gather's geometry. *)
Record split := Split { w_lo : Z; w_hi : Z; s_ranges : list (Z * Z); s_width : Z; s_offs : list Z }.

#[export] Instance split_eq_dec : EqDecision split.
Proof. solve_decision. Defined.

(** Lists of one length whose elements are related pairwise. *)
Fixpoint all2 {A} (f : A -> A -> bool) (l k : list A) : bool :=
  match l, k with
  | [], [] => true
  | x :: l', y :: k' => f x y && all2 f l' k'
  | _, _ => false
  end.

Section Layer.
Context {A X : Type} `{EqDecision A} (zero : A).
(** The layer: the stock forward, a rank's run on the weight rows [lo .. hi), the rows of an
    input, the weight's rows [n] and whether its dtype is the split's. *)
Context (stock : X -> mat A) (part : Z -> Z -> Z -> X -> mat A) (rows : X -> Z) (n : Z) (fp8 : bool).
(** The random inputs of the exactness check, the knobs, and the group's size. *)
Context (samples : list X) (WINDOW : bool) (MAX_M world : Z).

(** [torch.equal] compares values: NaN differs from itself and the two zeros are equal. *)
Context (veq : A -> A -> bool).
Definition torch_equal (a b : mat A) : bool := all2 (all2 veq) a b.

(** [_slice_exact]: the proxy's columns equal the stock columns on every input. *)
Definition slice_exact (rank w0 w1 : Z) (inputs : list X) : bool :=
  forallb (fun x => let p := part rank w0 w1 x in
                    (ncols p =? w1 - w0) && torch_equal (cols (stock x) w0 w1) p) inputs.

(** [decide]: the (window, slice) candidates of a rank. *)
Definition decide_rank (rank : Z) (x : X) : res (option split * option split) :=
  if negb ((n mod TILE =? 0) && (world <=? n / TILE) && fp8) then Ok (None, None)
  else
    g ← ranges_of n world;
    let '(ranges, width) := g in
    match ranges !! Z.to_nat rank with
    | None => Raise IndexError
    | Some (n0, n1) =>
        let inputs := x :: samples in
        let slice := if slice_exact rank n0 n1 inputs
                     then Some (Split n0 n1 ranges width (map (fun _ => 0) (zrange 0 world))) else None in
        let wins := map (fun y => window n y.1 width) ranges in
        let offs := zip_with (fun y w => y.1 - w) ranges wins in
        let w0 := window n n0 width in
        let win := if negb WINDOW then None
                   else if (w0 =? n0) && (n1 - n0 =? width)
                   then match slice with Some s => Some (Split n0 n1 ranges width offs) | None => None end
                   else if slice_exact rank w0 (w0 + width) inputs
                   then Some (Split w0 (w0 + width) ranges width offs) else None in
        Ok (win, slice)
    end.

(** A failed check is no candidate. *)
Definition candidates (x : X) (rank : Z) : option split * option split :=
  match decide_rank rank x with Ok c => c | Raise _ => (None, None) end.

Definition group : list Z := zrange 0 world.

(** [_build] on every rank: the windows if every rank has one, else the slices, else none. *)
Definition build (x : X) : option (list split) :=
  let cs := map (candidates x) group in
  if forallb (fun c => bool_decide (is_Some c.1)) cs then Some (omap fst cs)
  else if forallb (fun c => bool_decide (is_Some c.2)) cs then Some (omap snd cs)
  else None.

(** ** The gather *)

(** The RoCE columns kernel on every rank's own columns, whether a call would go to it, and
    whether each rank can run it. *)
Context (COMPACT : bool) (roce_columns : list (mat A) -> list Z -> mat A)
        (roce_admits : list (mat A) -> list Z -> bool) (can_launch : list (mat A) -> bool).

Definition old_gather (locals : list (mat A)) (sp : split) : mat A :=
  assemble (hcat (map (fun l => padded zero l (s_width sp)) locals)) (s_ranges sp) (s_width sp) (s_offs sp).

Definition run_compact (roce : bool) (locals : list (mat A)) (sp : split) : mat A :=
  if roce
  then roce_columns (zip_with (fun l '((a, b), o) => cols l o (o + (b - a))) locals
                              (zip (s_ranges sp) (s_offs sp)))
                    (compact_layout (s_ranges sp)).1
  else assemble_stacked (map (fun l => padded zero l (s_width sp)) locals) (s_ranges sp) (s_offs sp).

(** [_check_compact]: every rank can launch, and the variant equals the old path bit for bit
    ([same_bits] is equality of the elements' bits). *)
Definition check_compact (roce : bool) (locals : list (mat A)) (sp : split) : bool :=
  (negb roce || can_launch locals) && bool_decide (run_compact roce locals sp = old_gather locals sp).

(** [gather]: the verdicts so far per (variant, rows), the capture flag. *)
Definition gather (checked : gmap (bool * Z) bool) (capturing : bool) (locals : list (mat A)) (m : Z) (sp : split)
  : mat A * gmap (bool * Z) bool :=
  if COMPACT then
    let roce := roce_admits locals (compact_layout (s_ranges sp)).1 in
    let key := (roce, m) in
    let checked' := match checked !! key with
                    | Some _ => checked
                    | None => if capturing then checked
                              else <[key := check_compact roce locals sp]> checked
                    end in
    match checked' !! key with
    | Some true => (run_compact roce locals sp, checked')
    | _ => (old_gather locals sp, checked')
    end
  else (old_gather locals sp, checked).

(** ** The layer's forward *)

(** The layer's state: undecided, off, or the ranks' splits; and the gather's verdicts. *)
Inductive status := Undecided | Off | On (sps : list split).
Record layer := Layer { l_status : status; l_checked : gmap (bool * Z) bool }.

(** The ranks' GEMMs and the gather. *)
Definition split_forward (ly : layer) (sps : list split) (capturing : bool) (x : X) : mat A * layer :=
  match sps with
  | [] => (stock x, ly)
  | sp :: _ =>
      let locals := zip_with (fun rank s => part rank (w_lo s) (w_hi s) x) group sps in
      let '(y, ck) := gather (l_checked ly) capturing locals (rows x) sp in
      (y, Layer (l_status ly) ck)
  end.

Definition forward (ly : layer) (capturing extra_args : bool) (x : X) : mat A * layer :=
  match l_status ly with
  | Off => (stock x, ly)
  | st =>
      if extra_args || (rows x <=? 0) || (MAX_M <? rows x) then (stock x, ly)
      else if world =? 1 then (stock x, ly)
      else match st with
           | On sps => split_forward ly sps capturing x
           | _ =>
               if capturing then (stock x, ly)
               else match build x with
                    | Some sps => split_forward (Layer (On sps) (l_checked ly)) sps capturing x
                    | None => (stock x, Layer Off (l_checked ly))
                    end
           end
  end.
End Layer.
#[local] Arguments slice_exact : simpl never.

(** * Properties *)

(** ** The ranges tile the columns *)

Fixpoint spans (s : Z) (counts : list Z) : list (Z * Z) :=
  match counts with [] => [] | c :: cs => (s, s + c * TILE) :: spans (s + c * TILE) cs end.

Lemma zip_spans (cs pre : list Z) :
  zip_with (fun s c => (s, s + c * TILE))
    (map (fun r => zsum (take (Z.to_nat r) (pre ++ cs)) * TILE) (zrange (zlen pre) (zlen pre + zlen cs))) cs =
  spans (zsum pre * TILE) cs.
Proof.
  revert pre. induction cs as [|c cs IH]; intros pre.
  - rewrite zip_with_nil_r. done.
  - autorewrite with zlen. pose proof (zlen_nonneg cs). rewrite zrange_cons by lia. simpl.
    replace (take (Z.to_nat (zlen pre)) (pre ++ c :: cs)) with pre.
    2: { unfold zlen. rewrite Nat2Z.id. by rewrite take_app_length. }
    f_equal. specialize (IH (pre ++ [c])). rewrite <- app_assoc in IH. simpl in IH.
    assert (Hl : zlen (pre ++ [c]) = zlen pre + 1) by (rewrite zlen_app; done).
    rewrite zsum_app in IH. simpl in IH. rewrite Hl in IH.
    replace (zlen pre + (1 + zlen cs)) with (zlen pre + 1 + zlen cs) by lia.
    rewrite IH. f_equal. lia.
Qed.

(** Ranges that follow one another from [s] to [t], each of at most [width] columns. *)
Inductive tiles_from (width t : Z) : Z -> list (Z * Z) -> Prop :=
  | tiles_nil : tiles_from width t t []
  | tiles_cons s e l : s <= e <= s + width -> tiles_from width t e l -> tiles_from width t s ((s, e) :: l).

Lemma spans_tile width s cs :
  Forall (fun c => 0 <= c * TILE <= width) cs -> tiles_from width (s + zsum cs * TILE) s (spans s cs).
Proof.
  intros H. revert s. induction H as [|c cs Hc _ IH]; intros s; simpl.
  - replace (s + 0 * TILE) with s by lia. constructor.
  - constructor; [lia|]. specialize (IH (s + c * TILE)).
    replace (s + (c + zsum cs) * TILE) with (s + c * TILE + zsum cs * TILE) by lia. exact IH.
Qed.

Lemma foldl_max_ge l c : c <= foldl Z.max c l /\ Forall (fun x => x <= foldl Z.max c l) l.
Proof.
  revert c. induction l as [|x l IH]; intros c; simpl; [split; [lia|constructor]|].
  destruct (IH (Z.max c x)) as [H1 H2]. split; [lia|]. constructor; [lia|done].
Qed.

Lemma counts_sum base extra a b :
  0 <= a <= b -> 
  zsum (map (fun r => base + (if r <? extra then 1 else 0)) (zrange a b)) =
  (b - a) * base + (Z.max a (Z.min extra b) - a).
Proof.
  revert a b. apply (zrange_ind (fun a b => 0 <= a <= b -> _)).
  - intros a b H1 H2. rewrite zrange_nil by lia. simpl. assert (b = a) as -> by lia. lia.
  - intros a b H1 IH H2. rewrite zrange_cons by lia. simpl. rewrite IH by lia.
    destruct (a <? extra) eqn:E; lia.
Qed.

(** The ranges of a divisible weight tile its columns, and the widest is the gather's width. *)
Lemma ranges_tile n world ranges width :
  0 < world -> 0 <= n -> n mod TILE = 0 -> ranges_of n world = Ok (ranges, width) ->
  tiles_from width n 0 ranges /\ zlen ranges = world /\ 0 <= width <= n.
Proof.
  intros Hw Hn Hm. unfold ranges_of. replace (world =? 0) with false by lia.
  set (base := n / TILE / world). set (extra := (n / TILE) mod world).
  set (counts := map _ (zrange 0 world)).
  assert (HT : TILE = 128) by reflexivity.
  pose proof (Z.div_mod n TILE ltac:(lia)) as Hdiv. pose proof (Z.div_mod (n / TILE) world ltac:(lia)) as Hdw.
  pose proof (Z.mod_pos_bound (n / TILE) world Hw) as Hex. fold base extra in Hdw, Hex.
  assert (0 <= n / TILE) by (apply Z.div_pos; lia). assert (Hb : 0 <= base) by (apply Z.div_pos; lia).
  assert (Hlen : zlen counts = world) by (unfold counts; rewrite zlen_map, zrange_length; lia).
  assert (Hsum : zsum counts = n / TILE) by (unfold counts; rewrite counts_sum by lia; nia).
  assert (Hpos : Forall (fun c => 0 <= c) counts).
  { apply Forall_fmap, Forall_forall. intros r _. simpl. destruct (r <? extra); lia. }
  pose proof (zip_spans counts []) as Hz. rewrite zlen_nil, Z.add_0_l, Hlen in Hz. simpl in Hz.
  destruct counts as [|c cs] eqn:Ec; [done|]. intros [= <- <-]. rewrite Hz.
  destruct (foldl_max_ge cs c) as [Hc1 Hc2]. set (mx := foldl Z.max c cs) in *.
  assert (Hall : Forall (fun x => 0 <= x * TILE <= mx * TILE) (c :: cs)).
  { apply Forall_cons in Hpos as [Hp1 Hp2]. constructor; [lia|].
    rewrite Forall_forall in *. intros x Hx. specialize (Hc2 x Hx). specialize (Hp2 x Hx). simpl in *. lia. }
  pose proof (spans_tile (mx * TILE) 0 (c :: cs) Hall) as Ht. split; [|split].
  - replace n with (0 + zsum (c :: cs) * TILE) at 1 by lia. exact Ht.
  - clear -Hlen. rewrite <- Hlen. generalize (0 * TILE). generalize (c :: cs). intros l.
    induction l as [|x l IH]; intros s; [done|]. simpl. autorewrite with zlen. by rewrite IH.
  - assert (Hmx : mx <= zsum (c :: cs)).
    { assert (Hin : forall l, Forall (fun x => 0 <= x) l -> Forall (fun x => x <= zsum l) l).
      { induction 1 as [|x l Hx Hl IH]; [constructor|]. simpl. pose proof (zsum_nonneg l Hl). constructor; [lia|].
        eapply Forall_impl; [exact IH|]. simpl. lia. }
      assert (Hmem : mx = c \/ mx ∈ cs).
      { unfold mx. clear. revert c. induction cs as [|x cs IH]; intros c; simpl; [by left|].
        destruct (IH (Z.max c x)) as [->|H]; [|right; by right].
        destruct (Z.max_spec c x) as [[_ ->]|[_ ->]]; [right; left|by left]. }
      specialize (Hin _ Hpos). rewrite Forall_forall in Hin.
      destruct Hmem as [->|Hmem]; apply Hin; [left|by right]. }
    assert (0 <= mx) by (apply Forall_cons in Hpos as [? _]; lia). nia.
Qed.

(** ** Assembling the parts *)

Section Assembly.
Context {A : Type} (zero : A).

(** A rank's own columns of its part. *)
Definition own (local : mat A) (x : Z * Z * Z) : mat A :=
  let '((a, b), o) := x in cols local o (o + (b - a)).

#[local] Arguments own : simpl never.

(** A part of [M] rows of one length that holds the rank's own columns inside the gather's width. *)
Definition part_ok (M : nat) (width : Z) (local : mat A) (x : Z * Z * Z) : Prop :=
  let '((a, b), o) := x in
  length local = M /\ exists L, Forall (fun r => zlen r = L) local /\ L <= width /\
    0 <= o /\ a <= b /\ o + (b - a) <= L.

Lemma hcat_lookup (ms : list (mat A)) M i :
  ms <> [] -> Forall (fun m => length m = M) ms -> (i < M)%nat ->
  hcat ms !! i = Some (concat (map (fun m => default [] (m !! i)) ms)).
Proof.
  intros Hne Hall Hi. unfold hcat. destruct ms as [|m ms]; [done|].
  apply Forall_cons in Hall as [Hm _]. rewrite list_lookup_imap.
  destruct (lookup_lt_is_Some_2 m i ltac:(lia)) as [r Hr]. by rewrite Hr.
Qed.

Lemma hcat_length (ms : list (mat A)) M :
  ms <> [] -> Forall (fun m => length m = M) ms -> length (hcat ms) = M.
Proof.
  intros Hne Hall. unfold hcat. destruct ms as [|m ms]; [done|].
  apply Forall_cons in Hall as [Hm _]. by rewrite length_imap.
Qed.

(** Matrices assembled from parts that agree row by row are equal. *)
Lemma hcat_ext (ms ms' : list (mat A)) M :
  ms <> [] -> Forall (fun m => length m = M) ms -> Forall (fun m => length m = M) ms' ->
  length ms = length ms' ->
  (forall k i m m', ms !! k = Some m -> ms' !! k = Some m' -> (i < M)%nat -> default [] (m !! i) = default [] (m' !! i)) ->
  hcat ms = hcat ms'.
Proof.
  intros Hne H1 H2 Hlen Hrows. apply list_eq. intros i.
  assert (Hne' : ms' <> []) by (destruct ms, ms'; done).
  destruct (decide (i < M)%nat) as [Hi|Hi].
  - rewrite (hcat_lookup _ M), (hcat_lookup _ M) by done. f_equal. f_equal.
    apply list_eq. intros k. rewrite !list_lookup_fmap.
    destruct (ms !! k) as [m|] eqn:E, (ms' !! k) as [m'|] eqn:E'; simpl.
    + f_equal. by eapply Hrows.
    + apply lookup_lt_Some in E. apply lookup_ge_None in E'. lia.
    + apply lookup_lt_Some in E'. apply lookup_ge_None in E. lia.
    + done.
  - rewrite !lookup_ge_None_2; [done|rewrite (hcat_length _ M); done || lia|rewrite (hcat_length _ M); done || lia].
Qed.

Lemma py_slice_app_l (l k : list A) lo hi :
  0 <= lo <= hi -> hi <= zlen l -> py_slice (l ++ k) lo hi = py_slice l lo hi.
Proof.
  intros H1 H2. rewrite !py_slice_in by (autorewrite with zlen; pose proof (zlen_nonneg k); lia).
  unfold zlen in *. rewrite drop_app_le by lia. rewrite take_app_le; [done|]. rewrite length_drop. lia.
Qed.

(** A column of a concatenation of equally long blocks lies in one block. *)
Lemma py_slice_blocks (w : Z) (bs : list (list A)) r b lo hi :
  Forall (fun b => zlen b = w) bs -> bs !! r = Some b -> 0 <= lo <= hi -> hi <= w ->
  py_slice (concat bs) (Z.of_nat r * w + lo) (Z.of_nat r * w + hi) = py_slice b lo hi.
Proof.
  intros Hall Hr Hlo Hhi. revert r Hr. induction Hall as [|b0 bs Hb0 Hall IH]; intros r Hr; [done|].
  assert (Hw : 0 <= w) by lia. destruct r as [|r]; simpl in Hr.
  - injection Hr as ->. simpl concat. rewrite py_slice_app_l by lia. done.
  - specialize (IH r Hr). simpl concat. rewrite <- IH.
    assert (Hbound : Z.of_nat r * w + hi <= zlen (concat bs)).
    { clear IH. assert (Hc : zlen (concat bs) = zlen bs * w).
      { clear -Hall. induction Hall as [|x bs Hx _ IHb]; [done|]. simpl. autorewrite with zlen. rewrite IHb. lia. }
      rewrite Hc. apply lookup_lt_Some in Hr. unfold zlen. nia. }
    rewrite !py_slice_in by (autorewrite with zlen; try lia; nia).
    replace (Z.of_nat (S r) * w + hi - (Z.of_nat (S r) * w + lo)) with (Z.of_nat r * w + hi - (Z.of_nat r * w + lo)) by lia.
    f_equal. unfold zlen in *. rewrite drop_app_ge by lia. f_equal. lia.
Qed.

Lemma py_slice_all (l : list A) : py_slice l 0 (zlen l) = l.
Proof.
  rewrite py_slice_in by (pose proof (zlen_nonneg l); lia). unfold zlen.
  rewrite Z.sub_0_r, Nat2Z.id. simpl. rewrite drop_0. by rewrite take_ge.
Qed.

Lemma cols_lookup (m : mat A) lo hi i r : m !! i = Some r -> cols m lo hi !! i = Some (py_slice r lo hi).
Proof. intros H. unfold cols. by rewrite list_lookup_fmap, H. Qed.

Lemma padded_ok M width local x :
  (0 < M)%nat -> part_ok M width local x ->
  length (padded zero local width) = M /\
  Forall (fun r => zlen r = width) (padded zero local width) /\
  own (padded zero local width) x = own local x.
Proof.
  destruct x as [[a b] o]. intros HM (Hlen & L & Hrows & HL & Ho & Hab & Hfit).
  assert (Hn : ncols local = L).
  { destruct local as [|r l]; [simpl in Hlen; lia|]. by apply Forall_cons in Hrows as [? _]. }
  unfold padded. rewrite Hn. destruct (L <? width) eqn:E; [|by replace width with L by lia].
  split; [by rewrite length_map|]. split.
  - apply Forall_fmap. eapply Forall_impl; [exact Hrows|]. intros r Hr. simpl in *. autorewrite with zlen. lia.
  - unfold own, cols. rewrite map_map. apply map_ext_Forall. eapply Forall_impl; [exact Hrows|].
    intros r Hr. simpl in *. apply py_slice_app_l; lia.
Qed.

Lemma own_length local x : length (own local x) = length local.
Proof. destruct x as [[a b] o]. unfold own, cols. by rewrite length_map. Qed.

(** The stacked assembly is the concatenation of the own columns. *)
Lemma assemble_stacked_own M width locals ranges offs :
  (0 < M)%nat -> Forall2 (part_ok M width) locals (zip ranges offs) ->
  assemble_stacked (map (fun l => padded zero l width) locals) ranges offs =
  hcat (zip_with own locals (zip ranges offs)).
Proof.
  intros HM Hok. unfold assemble_stacked. f_equal.
  generalize dependent (zip ranges offs). intros xs Hok. induction Hok as [|l [[a b] o] ls xs Hl _ IH]; [done|].
  simpl. f_equal; [|apply IH]. destruct (padded_ok _ _ _ _ HM Hl) as (_ & _ & H). exact H.
Qed.

(** When every rank's range is as wide as the window, each window is the rank's own columns. *)
Lemma own_whole M width locals xs :
  (0 < M)%nat -> Forall2 (part_ok M width) locals xs -> Forall (fun x : Z * Z * Z => x.1.2 - x.1.1 = width) xs ->
  map (fun l => padded zero l width) locals = zip_with own locals xs.
Proof.
  intros HM Hok. induction Hok as [|l [[a b] o] ls xs Hl Hls IH]; intros Hxs; [done|].
  apply Forall_cons in Hxs as [Hw Hxs]. simpl. rewrite IH by done. f_equal.
  destruct (padded_ok _ _ _ _ HM Hl) as (_ & Hpw & <-).
  destruct Hl as (_ & L & Hrows & HL & Ho & Hab & Hfit). simpl in Hw. assert (o = 0) as -> by lia.
  unfold own, cols. symmetry. rewrite <- (map_id (padded zero l width)) at 2.
  apply map_ext_Forall. eapply Forall_impl; [exact Hpw|]. intros r Hr. simpl in *.
  rewrite Z.add_0_l, Hw. rewrite <- Hr. apply py_slice_all.
Qed.

(** The padded gather and reorder is the concatenation of the own columns. *)
Lemma assemble_own M width locals ranges offs :
  (0 < M)%nat -> locals <> [] -> length ranges = length offs ->
  Forall2 (part_ok M width) locals (zip ranges offs) ->
  assemble (hcat (map (fun l => padded zero l width) locals)) ranges width offs =
  hcat (zip_with own locals (zip ranges offs)).
Proof.
  intros HM Hne Hro Hok. set (ps := map (fun l => padded zero l width) locals).
  assert (Hlen : length locals = length ranges).
  { apply Forall2_length in Hok. rewrite Hok, length_zip_with. lia. }
  assert (Hps : Forall (fun m => length m = M) ps).
  { unfold ps. apply Forall_fmap. clear -Hok HM. induction Hok as [|l x ls xs Hl _ IH]; [constructor|].
    constructor; [by apply (padded_ok M width l x)|done]. }
  assert (Hpne : ps <> []) by (unfold ps; by destruct locals).
  unfold assemble. destruct (forallb _ ranges) eqn:Eq.
  - f_equal. unfold ps. rewrite forallb_forall in Eq.
    apply (own_whole M); [done..|]. apply Forall_forall. intros [[a b] o] Hx. simpl. apply elem_of_zip_l in Hx.
    apply list_elem_of_In in Hx. specialize (Eq _ Hx). simpl in Eq. lia.
  - assert (Hxl : length (zip ranges offs) = length locals) by (symmetry; by eapply Forall2_length).
    assert (Hg : length (hcat ps) = M) by (by apply hcat_length).
    apply (hcat_ext _ _ M).
    + intros Hnil. apply (f_equal length) in Hnil. rewrite length_imap, Hxl in Hnil. by destruct locals.
    + apply Forall_forall. intros m Hm. apply list_elem_of_lookup in Hm as [k Hk].
      rewrite list_lookup_imap in Hk. destruct (zip ranges offs !! k) as [[[a b] o]|]; [|done].
      injection Hk as <-. unfold cols. by rewrite length_map.
    + clear -Hok. induction Hok as [|l x ls xs Hl _ IH]; simpl; [constructor|]. constructor; [|done].
      rewrite own_length. destruct x as [[? ?] ?]. apply Hl.
    + rewrite length_imap, Hxl, length_zip_with. lia.
    + intros k i m m' Hm Hm' Hi.
      rewrite list_lookup_imap in Hm. destruct (zip ranges offs !! k) as [[[a b] o]|] eqn:Ex; [|done].
      injection Hm as <-. rewrite lookup_zip_with_Some in Hm'. destruct Hm' as (l & x & -> & Hl & Hx).
      rewrite Ex in Hx. injection Hx as <-. pose proof (Forall2_lookup_lr _ _ _ _ _ _ Hok Hl Ex) as Hpart.
      destruct (padded_ok _ _ _ _ HM Hpart) as (Hpl & Hpw & <-).
      destruct Hpart as (_ & L & _ & HL & Ho & Hab & Hfit).
      rewrite (cols_lookup _ _ _ _ _ (hcat_lookup ps M i Hpne Hps Hi)). simpl.
      destruct (lookup_lt_is_Some_2 (padded zero l width) i ltac:(lia)) as [r Hr].
      unfold own. rewrite (cols_lookup _ _ _ _ _ Hr). simpl.
      rewrite <- Z.add_assoc. apply py_slice_blocks; try lia.
      * apply Forall_fmap. unfold ps. apply Forall_fmap. clear -Hok HM Hi.
        induction Hok as [|l x ls xs Hl _ IH]; constructor; [|done]. simpl.
        destruct (padded_ok _ _ _ _ HM Hl) as (Hpl & Hpw & _).
        destruct (lookup_lt_is_Some_2 (padded zero l width) i ltac:(lia)) as [r Hr]. rewrite Hr. simpl.
        rewrite Forall_forall in Hpw. apply Hpw. by eapply list_elem_of_lookup_2.
      * unfold ps. rewrite !list_lookup_fmap, Hl. simpl. by rewrite Hr.
Qed.
End Assembly.

(** ** The stock columns, cut and put together again *)

Section Whole.
Context {A : Type}.

Lemma tiles_bounds width t s l : tiles_from width t s l -> s <= t.
Proof. induction 1; lia. Qed.

Lemma tiles_lookup width t s l r a b :
  tiles_from width t s l -> l !! r = Some (a, b) -> s <= a /\ a <= b /\ b <= t /\ b - a <= width.
Proof.
  intros H. revert r. induction H as [|s e l Hse Hl IH]; intros r Hr; [done|].
  pose proof (tiles_bounds _ _ _ _ Hl). destruct r as [|r]; simpl in Hr; [simplify_eq; lia|].
  specialize (IH r Hr). lia.
Qed.

Lemma py_slice_join (row : list A) a b c :
  0 <= a <= b -> b <= c <= zlen row -> py_slice row a b ++ py_slice row b c = py_slice row a c.
Proof.
  intros H1 H2. rewrite !py_slice_in by lia. unfold zlen in *.
  replace (Z.to_nat (c - a)) with (Z.to_nat (b - a) + Z.to_nat (c - b))%nat by lia.
  rewrite <- take_take_drop, drop_drop. do 3 f_equal. lia.
Qed.

Lemma tiles_concat width t s l (row : list A) :
  tiles_from width t s l -> 0 <= s -> t <= zlen row ->
  concat (map (fun x => py_slice row x.1 x.2) l) = py_slice row s t.
Proof.
  intros H Hs Ht. induction H as [|s e l Hse Hl IH]; simpl.
  - rewrite py_slice_in by lia. by rewrite Z.sub_diag.
  - pose proof (tiles_bounds _ _ _ _ Hl). rewrite IH by lia. apply py_slice_join; lia.
Qed.

(** The columns of a matrix cut along tiling ranges concatenate to the matrix. *)
Lemma hcat_tiles width n ranges (m : mat A) :
  tiles_from width n 0 ranges -> ranges <> [] -> Forall (fun r => zlen r = n) m ->
  hcat (map (fun x => cols m x.1 x.2) ranges) = m.
Proof.
  intros Ht Hne Hm. apply list_eq. intros i.
  assert (Hall : Forall (fun c => length c = length m) (map (fun x => cols m x.1 x.2) ranges)).
  { apply Forall_fmap, Forall_forall. intros x _. simpl. unfold cols. by rewrite length_map. }
  assert (Hne' : map (fun x => cols m x.1 x.2) ranges <> []) by (by destruct ranges).
  destruct (m !! i) as [row|] eqn:Hi.
  - rewrite (hcat_lookup _ (length m)) by (done || by eapply lookup_lt_Some). f_equal. rewrite map_map.
    rewrite Forall_forall in Hm. pose proof (Hm row ltac:(by eapply list_elem_of_lookup_2)) as Hrow.
    erewrite map_ext; [rewrite (tiles_concat width n 0 ranges row Ht) by lia; rewrite <- Hrow; apply py_slice_all|].
    intros x. unfold cols. rewrite list_lookup_fmap, Hi. done.
  - apply lookup_ge_None in Hi. apply lookup_ge_None. by rewrite (hcat_length _ (length m)).
Qed.

Lemma py_slice_sub (row : list A) lo hi o w :
  0 <= lo -> 0 <= o -> 0 <= w -> o + w <= hi - lo -> hi <= zlen row ->
  py_slice (py_slice row lo hi) o (o + w) = py_slice row (lo + o) (lo + o + w).
Proof.
  intros. assert (Hl : zlen (py_slice row lo hi) = hi - lo).
  { rewrite py_slice_in by lia. unfold zlen in *. rewrite length_take, length_drop. lia. }
  rewrite py_slice_in by lia. rewrite py_slice_in by lia. rewrite (py_slice_in row (lo + o)) by lia.
  rewrite skipn_firstn_comm, take_take, drop_drop. f_equal; [lia|]. f_equal. lia.
Qed.

(** ** Equality of values *)

Context (veq : A -> A -> bool).

Definition approx (a b : mat A) : Prop := Forall2 (Forall2 (fun x y => veq x y = true)) a b.

Lemma all2_Forall2 {B} (f : B -> B -> bool) l k : all2 f l k = true <-> Forall2 (fun x y => f x y = true) l k.
Proof.
  revert k. induction l as [|x l IH]; intros [|y k]; simpl; try (split; [done|by inversion 1]).
  rewrite andb_true_iff, IH. split; [intros [H1 H2]; by constructor|by inversion 1].
Qed.

Lemma torch_equal_approx a b : torch_equal veq a b = true -> approx a b.
Proof.
  unfold torch_equal, approx. rewrite all2_Forall2. intros H. eapply Forall2_impl; [exact H|].
  intros l k Hlk. by apply all2_Forall2 in Hlk.
Qed.

#[export] Instance cols_approx : Proper (approx ==> eq ==> eq ==> approx) (@cols A).
Proof.
  intros a b Hab lo ? <- hi ? <-. unfold approx, cols in *. rewrite Forall2_fmap.
  eapply Forall2_impl; [exact Hab|]. intros r r' Hr. unfold py_slice.
  pose proof (Forall2_length _ _ _ Hr) as Hlen. unfold zlen. rewrite Hlen. apply Forall2_take, Forall2_drop, Hr.
Qed.

Lemma hcat_approx (ms ms' : list (mat A)) : Forall2 approx ms ms' -> approx (hcat ms) (hcat ms').
Proof.
  intros H. unfold hcat. destruct H as [|m m' ms ms' Hm Hms]; [constructor|].
  apply Forall2_lookup. intros i. rewrite !list_lookup_imap.
  pose proof (Forall2_length _ _ _ Hm) as Hlen.
  destruct (m !! i) as [r|] eqn:Er; destruct (m' !! i) as [r'|] eqn:Er'; simpl.
  - constructor.
    assert (Hrow : forall l l', Forall2 approx l l' ->
      Forall2 (fun x y => veq x y = true) (concat (map (fun m => default [] (m !! i)) l))
                                           (concat (map (fun m => default [] (m !! i)) l'))).
    { induction 1 as [|c c' l l' Hc _ IH]; simpl; [constructor|]. apply Forall2_app; [|done].
      destruct (c !! i) as [x|] eqn:Ex.
      - destruct (Forall2_lookup_l _ _ _ _ _ Hc Ex) as (y & -> & Hxy). exact Hxy.
      - apply lookup_ge_None in Ex. rewrite (Forall2_length _ _ _ Hc) in Ex.
        rewrite (lookup_ge_None_2 c' i Ex). constructor. }
    apply (Hrow (m :: ms) (m' :: ms')). by constructor.
  - apply lookup_lt_Some in Er. apply lookup_ge_None in Er'. lia.
  - apply lookup_lt_Some in Er'. apply lookup_ge_None in Er. lia.
  - constructor.
Qed.
End Whole.

(** ** The decision and the forward *)

Section Props.
Context {A X : Type} `{EqDecision A} (zero : A).
Context (stock : X -> mat A) (part : Z -> Z -> Z -> X -> mat A) (rows : X -> Z) (n : Z) (fp8 : bool).
Context (samples : list X) (WINDOW : bool) (MAX_M world : Z) (veq : A -> A -> bool).
Context (COMPACT : bool) (roce_columns : list (mat A) -> list Z -> mat A)
        (roce_admits : list (mat A) -> list Z -> bool) (can_launch : list (mat A) -> bool).
Hypothesis Hn : 0 <= n.
Hypothesis Hworld : 0 < world.
(** The stock layer's output has one row of [n] columns per input row. *)
Hypothesis Hstock : forall x, 0 < rows x -> zlen (stock x) = rows x /\ Forall (fun r => zlen r = n) (stock x).

#[local] Abbreviation exact r s x :=
  (torch_equal veq (cols (stock x) (w_lo s) (w_hi s)) (part r (w_lo s) (w_hi s) x) = true).

(** Every rank's GEMM on its window equals the stock columns of the window, for this input. *)
Definition exact_on (sps : list split) (x : X) : Prop :=
  forall r s, sps !! r = Some s -> exact (Z.of_nat r) s x.

(** The ranks' splits: one geometry, and every rank's window holds its own range. *)
Definition layout_ok (sps : list split) : Prop :=
  zlen sps = world /\ exists ranges width offs,
    tiles_from width n 0 ranges /\ zlen ranges = world /\ length ranges = length offs /\
    forall r s, sps !! r = Some s ->
      s_ranges s = ranges /\ s_width s = width /\ s_offs s = offs /\
      exists a b o, ranges !! r = Some (a, b) /\ offs !! r = Some o /\ a = w_lo s + o /\ 0 <= o /\
        0 <= w_lo s /\ a <= b /\ b <= w_hi s /\ w_hi s <= n /\ w_hi s - w_lo s <= width.

Lemma slice_exact_cons rank w0 w1 x :
  slice_exact stock part veq rank w0 w1 (x :: samples) = true ->
  torch_equal veq (cols (stock x) w0 w1) (part rank w0 w1 x) = true.
Proof.
  unfold slice_exact. simpl. intros H0. apply andb_true_iff in H0 as [H0 _]. by apply andb_true_iff in H0 as [_ H0].
Qed.

(** What a rank's candidates are. *)
Lemma decide_rank_cases rank x win slice :
  decide_rank stock part n fp8 samples WINDOW world veq rank x = Ok (win, slice) ->
  (win = None /\ slice = None) \/
  exists ranges width n0 n1,
    n mod TILE = 0 /\ ranges_of n world = Ok (ranges, width) /\ ranges !! Z.to_nat rank = Some (n0, n1) /\
    (forall s, slice = Some s ->
       s = Split n0 n1 ranges width (map (fun _ => 0) (zrange 0 world)) /\ exact rank s x) /\
    (forall s, win = Some s ->
       s = Split (window n n0 width) (window n n0 width + width) ranges width
             (zip_with (fun y w => y.1 - w) ranges (map (fun y => window n y.1 width) ranges)) /\ exact rank s x).
Proof.
  unfold decide_rank. destruct (negb (_ && _ && _)) eqn:Eg; [intros [= <- <-]; by left|].
  apply negb_false_iff in Eg. rewrite !andb_true_iff in Eg. destruct Eg as [[Eg _] _].
  destruct (ranges_of n world) as [[ranges width]|]; [|done]. simpl.
  destruct (ranges !! Z.to_nat rank) as [[n0 n1]|] eqn:Er; [|done]. intros [= <- <-]. right.
  exists ranges, width, n0, n1. split; [lia|]. split; [done|]. split; [done|].
  assert (Hex : forall w0 w1, slice_exact stock part veq rank w0 w1 (x :: samples) = true ->
    torch_equal veq (cols (stock x) w0 w1) (part rank w0 w1 x) = true) by (intros; by apply slice_exact_cons).
  split.
  - intros s Hs. destruct (slice_exact stock part veq rank n0 n1 _) eqn:E; [|done]. injection Hs as <-.
    split; [done|]. simpl. by apply Hex.
  - intros s Hs. destruct (negb WINDOW); [done|].
    destruct ((window n n0 width =? n0) && (n1 - n0 =? width)) eqn:Ew.
    + apply andb_true_iff in Ew as [E1 E2]. assert (Hw : window n n0 width = n0) by lia. rewrite Hw.
      destruct (slice_exact stock part veq rank n0 n1 _) eqn:E; [|done]. injection Hs as <-.
      replace (n0 + width) with n1 by lia. split; [done|]. simpl. by apply Hex.
    + destruct (slice_exact stock part veq rank (window n n0 width) _ _) eqn:E; [|done]. injection Hs as <-.
      split; [done|]. simpl. by apply Hex.
Qed.

Lemma omap_all {B C} (f : B -> option C) l :
  forallb (fun c => bool_decide (is_Some (f c))) l = true ->
  length (omap f l) = length l /\
  forall k y, omap f l !! k = Some y -> exists c, l !! k = Some c /\ f c = Some y.
Proof.
  induction l as [|c l IH]; simpl; [intros _; split; [done|intros [|k] y Hk; done]|].
  rewrite andb_true_iff, bool_decide_eq_true. intros [[y Hy] Hl]. destruct (IH Hl) as [H1 H2].
  unfold omap in *. simpl. rewrite Hy. simpl. split; [by f_equal|].
  intros [|k] z Hk; simpl in Hk; [injection Hk as <-; by exists c|by apply H2].
Qed.

Lemma candidate_lookup k x c :
  map (candidates stock part n fp8 samples WINDOW world veq x) (group world) !! k = Some c ->
  0 <= Z.of_nat k < world /\ c = candidates stock part n fp8 samples WINDOW world veq x (Z.of_nat k).
Proof.
  rewrite list_lookup_fmap. intros (r & E & ->)%fmap_Some.
  unfold group, zrange in E. apply lookup_seqZ in E as [-> E]. split; [lia|]. done.
Qed.

(** Every rank's own range lies in the window it computes. *)
Lemma window_holds width ranges r a b :
  tiles_from width n 0 ranges -> ranges !! r = Some (a, b) -> 0 <= width <= n ->
  0 <= window n a width <= a /\ a <= b <= window n a width + width /\ window n a width + width <= n.
Proof.
  intros Ht Hr Hw. destruct (tiles_lookup _ _ _ _ _ _ _ Ht Hr) as (H1 & H2 & H3 & H4). unfold window. lia.
Qed.

(** Splits that are all windows, or all slices, of the ranks have one geometry. *)
Lemma build_layout (b : bool) x sps :
  zlen sps = world ->
  (forall k s, sps !! k = Some s -> exists win slice,
     decide_rank stock part n fp8 samples WINDOW world veq (Z.of_nat k) x = Ok (win, slice) /\
     (if b then win else slice) = Some s) ->
  layout_ok sps.
Proof.
  intros Hlen Hsome. split; [done|].
  destruct (sps !! 0%nat) as [s0|] eqn:E0; [|apply lookup_ge_None in E0; unfold zlen in Hlen; lia].
  destruct (Hsome _ _ E0) as (win0 & slice0 & Hd0 & Hp0).
  destruct (decide_rank_cases _ _ _ _ Hd0) as [[-> ->]|(ranges & width & _ & _ & Hm & Hr0 & _)]; [by destruct b|].
  destruct (ranges_tile n world ranges width Hworld Hn Hm Hr0) as (Ht & Hrl & Hwid).
  set (offs := if b then zip_with (fun y w => y.1 - w) ranges (map (fun y => window n y.1 width) ranges)
               else map (fun _ => 0) (zrange 0 world)).
  exists ranges, width, offs. split; [done|]. split; [done|]. split.
  { unfold offs. destruct b; [rewrite length_zip_with, length_map; lia|].
    rewrite length_map. pose proof (zrange_length 0 world ltac:(lia)). unfold zlen in *. lia. }
  intros k s Hk. destruct (Hsome _ _ Hk) as (win & slice & Hd & Hp).
  destruct (decide_rank_cases _ _ _ _ Hd) as [[-> ->]|(ranges' & width' & n0 & n1 & _ & Hr & Hkr & Hs & Hw)];
    [by destruct b|].
  rewrite Hr0 in Hr. injection Hr as <- <-. rewrite Nat2Z.id in Hkr.
  destruct (window_holds _ _ _ _ _ Ht Hkr Hwid) as (W1 & W2 & W3).
  destruct (tiles_lookup _ _ _ _ _ _ _ Ht Hkr) as (T1 & T2 & T3 & T4).
  destruct b; [destruct (Hw s Hp) as [-> _]|destruct (Hs s Hp) as [-> _]]; simpl; (split; [done|]);
    (split; [done|]); (split; [done|]); exists n0, n1.
  - exists (n0 - window n n0 width). split; [done|]. split; [|lia].
    unfold offs. rewrite lookup_zip_with, Hkr. simpl. rewrite list_lookup_fmap, Hkr. done.
  - exists 0. split; [done|]. split; [|lia]. unfold offs. rewrite list_lookup_fmap.
    assert (Hkw : (k < length (zrange 0 world))%nat).
    { pose proof (zrange_length 0 world ltac:(lia)). apply lookup_lt_Some in Hk. unfold zlen in *. lia. }
    destruct (lookup_lt_is_Some_2 _ _ Hkw) as [z ->]. done.
Qed.

Lemma build_ok x sps :
  build stock part n fp8 samples WINDOW world veq x = Some sps -> layout_ok sps /\ exact_on sps x.
Proof.
  unfold build. set (cs := map _ (group world)).
  assert (Hlen : zlen cs = world) by (unfold cs, group; rewrite zlen_map, zrange_length; lia).
  assert (Hcs : forall k c, cs !! k = Some c ->
            0 <= Z.of_nat k < world /\ c = candidates stock part n fp8 samples WINDOW world veq x (Z.of_nat k))
    by (intros k c; apply candidate_lookup).
  assert (Hcase : forall b : bool, let proj := if b then (@fst (option split) (option split)) else snd in
    forallb (fun c => bool_decide (is_Some (proj c))) cs = true ->
    layout_ok (omap proj cs) /\ exact_on (omap proj cs) x).
  { intros b proj Hall. destruct (omap_all proj cs Hall) as [Hl Hlook].
    assert (Hsome : forall k s, omap proj cs !! k = Some s -> exists win slice,
              decide_rank stock part n fp8 samples WINDOW world veq (Z.of_nat k) x = Ok (win, slice) /\
              (if b then win else slice) = Some s).
    { intros k s Hk. destruct (Hlook k s Hk) as (c & Hc & Hp). destruct (Hcs k c Hc) as [Hr ->].
      unfold candidates in Hp. destruct (decide_rank _ _ _ _ _ _ _ _ _ x) as [[win slice]|] eqn:E.
      - exists win, slice. unfold proj in Hp. by destruct b.
      - unfold proj in Hp. by destruct b. }
    split.
    - apply (build_layout b x); [|exact Hsome]. unfold zlen in *. lia.
    - intros r s Hr. destruct (Hsome r s Hr) as (win & slice & Hd & Hp).
      destruct (decide_rank_cases _ _ _ _ Hd) as [[-> ->]|(ranges & width & n0 & n1 & _ & _ & _ & Hs & Hw)].
      + by destruct b.
      + destruct b; [by apply Hw|by apply Hs]. }
  destruct (forallb _ cs) eqn:E1; [intros [= <-]; by apply (Hcase true)|].
  destruct (forallb (fun c => bool_decide (is_Some c.2)) cs) eqn:E2; [intros [= <-]; by apply (Hcase false)|done].
Qed.

(** One rank's part: its shape, and its own columns. *)
Lemma part_exact M width x s r a b o :
  0 < rows x -> M = length (stock x) -> exact r s x ->
  a = w_lo s + o -> 0 <= o -> 0 <= w_lo s -> a <= b -> b <= w_hi s -> w_hi s <= n -> w_hi s - w_lo s <= width ->
  part_ok M width (part r (w_lo s) (w_hi s) x) ((a, b), o) /\
  approx veq (cols (stock x) a b) (own (part r (w_lo s) (w_hi s) x) ((a, b), o)).
Proof.
  intros Hrows -> Hex -> Ho Hlo Hab Hb Hhi Hwd. destruct (Hstock x Hrows) as [_ Hst].
  apply torch_equal_approx in Hex. set (l := part r (w_lo s) (w_hi s) x) in *. split.
  - split.
    + apply Forall2_length in Hex. unfold cols in Hex. by rewrite length_map in Hex.
    + exists (w_hi s - w_lo s). split; [|lia]. apply Forall_forall. intros row Hrow.
      apply list_elem_of_lookup in Hrow as [i Hi].
      destruct (Forall2_lookup_r _ _ _ _ _ Hex Hi) as (row' & Hi' & Hrr). apply Forall2_length in Hrr.
      unfold cols in Hi'. rewrite list_lookup_fmap in Hi'. apply fmap_Some in Hi' as (full & Hf & ->).
      rewrite Forall_forall in Hst. pose proof (Hst full ltac:(by eapply list_elem_of_lookup_2)) as Hfl. simpl in Hfl.
      rewrite py_slice_in in Hrr by lia. unfold zlen in *. rewrite length_take, length_drop in Hrr. lia.
  - unfold own. replace (cols (stock x) (w_lo s + o) b)
      with (cols (cols (stock x) (w_lo s) (w_hi s)) o (o + (b - (w_lo s + o)))).
    + by apply cols_approx.
    + unfold cols. rewrite map_map. apply map_ext_Forall. eapply Forall_impl; [exact Hst|].
      intros row Hrow. simpl in *. rewrite py_slice_sub by lia. f_equal. lia.
Qed.

Lemma group_lookup k : (Z.of_nat k < world) -> group world !! k = Some (Z.of_nat k).
Proof. intros H0. unfold group, zrange. apply lookup_seqZ. lia. Qed.

Lemma gathers_exact sps sp rest x :
  layout_ok sps -> exact_on sps x -> sps = sp :: rest -> 0 < rows x ->
  let locals := zip_with (fun r s => part r (w_lo s) (w_hi s) x) (group world) sps in
  approx veq (stock x) (old_gather zero locals sp) /\
  run_compact zero roce_columns false locals sp = old_gather zero locals sp.
Proof.
  intros (Hlen & ranges & width & offs & Ht & Hrl & Hro & Hgeo) Hex Esps Hrows locals.
  destruct (Hgeo 0%nat sp ltac:(by rewrite Esps)) as (Hr & Hw & Ho & _).
  destruct (Hstock x Hrows) as [HM Hst]. set (M := length (stock x)).
  assert (HM0 : (0 < M)%nat) by (unfold M, zlen in *; lia).
  set (xs := zip ranges offs).
  assert (Hlocals : forall k l xk, locals !! k = Some l -> xs !! k = Some xk ->
            part_ok M width l xk /\ approx veq (cols (stock x) xk.1.1 xk.1.2) (own l xk)).
  { intros k l xk Hl Hxk. unfold locals in Hl. apply lookup_zip_with_Some in Hl as (r & s & -> & Hgk & Hs).
    apply lookup_zip_with_Some in Hxk as (ab & o' & -> & Hab & Ho').
    unfold group, zrange in Hgk. apply lookup_seqZ in Hgk as [-> Hkw].
    destruct (Hgeo k s Hs) as (_ & _ & _ & a & b & o & Hab' & Ho'' & H1 & H2 & H3 & H4 & H5 & H6 & H7).
    rewrite Hab in Hab'. injection Hab' as ->. rewrite Ho' in Ho''. injection Ho'' as ->.
    simpl fst. simpl snd. apply part_exact; try done. by apply (Hex k). }
  assert (Hll : length locals = length xs).
  { unfold locals, xs. rewrite !length_zip_with. pose proof (zrange_length 0 world ltac:(lia)).
    unfold group, zlen in *. lia. }
  assert (Hok : Forall2 (part_ok M width) locals xs).
  { apply Forall2_same_length_lookup_2; [done|]. intros k l xk Hl Hxk. by apply (Hlocals k). }
  assert (Hne : locals <> []).
  { intros E. rewrite E in Hll. unfold xs in Hll. rewrite length_zip_with in Hll. unfold zlen in *. simpl in Hll. lia. }
  unfold old_gather, run_compact. rewrite Hr, Hw, Ho.
  rewrite (assemble_own zero M width) by done. rewrite (assemble_stacked_own zero M width) by done.
  split; [|done]. fold xs.
  assert (Hrne : ranges <> []) by (intros ->; unfold zlen in Hrl; simpl in Hrl; lia).
  rewrite <- (hcat_tiles width n ranges (stock x) Ht Hrne Hst) at 1. apply hcat_approx.
  apply Forall2_same_length_lookup_2.
  { rewrite length_map, length_zip_with, <- Hll. unfold xs in Hll. rewrite length_zip_with in Hll. lia. }
  intros k m m' Hm Hm'. rewrite list_lookup_fmap in Hm. apply fmap_Some in Hm as (ab & Hab & ->).
  apply lookup_zip_with_Some in Hm' as (l & xk & -> & Hl & Hxk).
  destruct (Hlocals k l xk Hl Hxk) as [_ H1]. unfold xs in Hxk.
  apply lookup_zip_with_Some in Hxk as (ab' & o' & -> & Hab' & _). rewrite Hab in Hab'. by injection Hab' as <-.
Qed.

(** The gather gives the old path's matrix, whatever the kernel: a variant is used only after
    its comparison with the old path on this very call, or a positive verdict before it. *)
Lemma gather_exact checked capturing locals m sp y checked' :
  run_compact zero roce_columns false locals sp = old_gather zero locals sp ->
  (checked !! (true, m) = Some true -> run_compact zero roce_columns true locals sp = old_gather zero locals sp) ->
  gather zero COMPACT roce_columns roce_admits can_launch checked capturing locals m sp = (y, checked') ->
  y = old_gather zero locals sp.
Proof.
  intros Hmin Hroce. unfold gather. destruct COMPACT; [|by intros [= <- _]].
  set (roce := roce_admits locals _). destruct (checked !! (roce, m)) as [[|]|] eqn:E; simpl.
  - rewrite E. intros [= <- _]. destruct roce; [by apply Hroce|done].
  - rewrite E. by intros [= <- _].
  - destruct capturing; [rewrite E; by intros [= <- _]|]. rewrite lookup_insert_eq.
    destruct (check_compact _ _ _ _ _ _) eqn:Ec; [|by intros [= <- _]].
    intros [= <- _]. unfold check_compact in Ec. apply andb_true_iff in Ec as [_ Ec].
    by apply bool_decide_eq_true in Ec.
Qed.

(** A split in use came from a decision. *)
Definition decided (ly : layer) : Prop :=
  match l_status ly with
  | On sps => exists x0, build stock part n fp8 samples WINDOW world veq x0 = Some sps
  | _ => True
  end.

(** C19: at the call that decides (and at every call on an input on which the ranks' windows
    equal the stock columns) the layer returns the stock output, the very matrix or one
    equal to it in value, whichever of the split, the padded gather, the compact variants
    and the RoCE kernel the call takes; only a RoCE verdict recorded by an earlier call has
    to be trusted.  The split in use always comes from a decision of all ranks. *)
Theorem split_forward_exact ly capturing extra x y ly' :
  forward zero stock part rows n fp8 samples WINDOW MAX_M world veq COMPACT roce_columns roce_admits can_launch
    ly capturing extra x = (y, ly') ->
  decided ly ->
  (forall sps, l_status ly = On sps -> exact_on sps x) ->
  (l_checked ly !! (true, rows x) = Some true ->
     forall locals sp, run_compact zero roce_columns true locals sp = old_gather zero locals sp) ->
  (y = stock x \/ approx veq (stock x) y) /\ decided ly'.
Proof.
  intros Hf Hdec Hon Hroce. unfold forward in Hf. destruct ly as [st ck]. simpl in *.
  assert (Hsplit : forall sps st', build stock part n fp8 samples WINDOW world veq x = Some sps \/
      (decided (Layer (On sps) ck) /\ exact_on sps x) -> 0 < rows x ->
      decided (Layer st' ck) ->
      split_forward zero stock part rows world COMPACT roce_columns roce_admits can_launch (Layer st' ck) sps capturing x
        = (y, ly') -> (y = stock x \/ approx veq (stock x) y) /\ decided ly').
  { intros sps st' Hsps Hr Hd Hs.
    assert (Hlay : layout_ok sps /\ exact_on sps x).
    { destruct Hsps as [Hb|[[x0 Hb] He]]; [by apply build_ok|]. split; [by apply (build_ok x0)|done]. }
    destruct Hlay as [Hlay Hex]. unfold split_forward in Hs. simpl in Hs.
    destruct sps as [|sp rest] eqn:Esps; [injection Hs as <- <-; by split; [left|]|].
    rewrite <- Esps in *. destruct (gather _ _ _ _ _ _ _ _ _ _) as [y' ck'] eqn:Eg. injection Hs as <- <-.
    destruct (gathers_exact sps sp rest x Hlay Hex Esps Hr) as [H1 H2]. split; [|done].
    right. erewrite gather_exact; [exact H1|exact H2| |exact Eg]. intros Hck. by apply Hroce. }
  destruct st as [| |sps]; simpl in Hf.
  - destruct (extra || (rows x <=? 0) || (MAX_M <? rows x)) eqn:Eg; [injection Hf as <- <-; by split; [left|]|].
    destruct (world =? 1); [injection Hf as <- <-; by split; [left|]|].
    destruct capturing eqn:Ecap; [injection Hf as <- <-; by split; [left|]|].
    destruct (build _ _ _ _ _ _ _ _ x) as [sps|] eqn:Eb; [|injection Hf as <- <-; by split; [left|]].
    apply (Hsplit sps (On sps)); [by left|blia|by exists x|done].
  - injection Hf as <- <-. by split; [left|].
  - destruct (extra || (rows x <=? 0) || (MAX_M <? rows x)) eqn:Eg; [injection Hf as <- <-; by split; [left|]|].
    destruct (world =? 1); [injection Hf as <- <-; by split; [left|]|].
    apply (Hsplit sps (On sps)); [right; split; [done|by apply Hon]|blia|done|done].
Qed.
End Props.

Definition ex_stock (x : Z) : list (list Z) := [map (fun c => x * c) (zrange 0 384)].

Definition ex_part (_ : Z) (lo hi : Z) (x : Z) : list (list Z) := cols (ex_stock x) lo hi.

Definition ex_fwd :=
  forward 0 ex_stock ex_part (fun _ => 1) 384 true [1; 6] true 96 2 Z.eqb true
    (fun owns _ => hcat owns) (fun _ _ => true) (fun _ => true) (Layer Undecided ∅) false false 5.

Lemma split_forward_exact_witness :
  exists y ly', ex_fwd = (y, ly') /\ (y = ex_stock 5 \/ approx Z.eqb (ex_stock 5) y) /\
    decided ex_stock ex_part 384 true [1; 6] true 2 Z.eqb ly'.
Proof.
  destruct ex_fwd as [y ly'] eqn:E. exists y, ly'. split; [reflexivity|].
  apply (split_forward_exact 0 ex_stock ex_part (fun _ => 1) 384 true [1; 6] true 96 2 Z.eqb true
           (fun owns _ => hcat owns) (fun _ _ => true) (fun _ => true) ltac:(lia) ltac:(lia)
           ltac:(intros x _; split; [reflexivity|constructor; [reflexivity|constructor]])
           (Layer Undecided ∅) false false 5 y ly' E).
  - exact I.
  - discriminate.
  - discriminate.
Defined.
