(* ===== verification/HeapTrim.v ===== *)
(** * Heap trimming in tokenizer gaps (adapter/heap_trim2.py)

    The trimmer of the tokenizer process: when it returns the allocator's free memory
    to the system.  Every reading of the outside world (clocks, resident and free
    bytes, the activity counters at the two gates) is an input of a step, so the
    theorems hold for every interleaving with the request path; Python's float parser
    is an argument, times and costs are rationals.  Hook installation on the engine's
    classes, the import machinery and the log texts are not modelled. *)
From S2P Require Import Prelude PyStr.
From Stdlib Require Import QArith Lqa.
#[local] Open Scope string_scope.
#[local] Open Scope list_scope.
#[local] Open Scope Z_scope.

Definition qlt (a b : Q) : bool := negb (Qle_bool b a).

(** A Python float. *)
Inductive fval := Fin (q : Q) | NaN | Inf (pos : bool).

(** [x >= v]. *)
Definition fge (x : Q) (v : fval) : bool :=
  match v with Fin q => Qle_bool q x | NaN => false | Inf pos => negb pos end.

(** ** Which process arms *)

Definition basename (s : string) : string :=
  match rsplit1 (Ascii.ascii_of_nat 47) s with Some (_, b) => b | None => s end.

Fixpoint runs_module (l : list string) : bool :=
  match l with
  | [] => false
  | a :: rest => (String.eqb a "-m" && match rest with b :: _ => String.eqb b "sglang.launch_server" | [] => false end)
                 || runs_module rest
  end.

Definition server_role (argv orig_argv : list string) : bool :=
  match argv with
  | a :: _ => String.eqb (basename a) "launch_server.py" || runs_module orig_argv
  | [] => runs_module orig_argv
  end.

Definition enabled (env : environ) (argv orig_argv : list string) : bool :=
  String.eqb (lower (strip (env_get env "DSV41_TOKENIZER_HEAP" ""))) "trim2" && server_role argv orig_argv.

(** ** Configuration *)

Record config := Config {
  idle_s : Q; poll_s : Q; min_bytes : Z; min_interval_s : Q; max_busy_s : Q; info_every_s : Q;
  budget_ms : Q; max_defer_s : Q; log_min_s : fval; summary_s : fval; cfg_ms_per_gib : Q }.

(** A setting that must be finite and not negative. *)
Definition in_range (v : fval) : res Q :=
  match v with
  | Fin q => if Qle_bool 0 q then Ok q else Raise ValueError
  | _ => Raise ValueError
  end.

(** [int(v)]. *)
Definition py_trunc (v : fval) : res Z :=
  match v with
  | Fin q => Ok (Z.quot (Qnum q) (Zpos (Qden q)))
  | NaN => Raise ValueError
  | Inf _ => Raise OverflowError
  end.

Definition load_config (py_float : string -> res fval) (env : environ) : res config :=
  let f k d := py_float (env_get env ("DSV41_TOKENIZER_TRIM2_" +:+ k) d) in
  idle ← f "IDLE_S" "1.5"; poll ← f "POLL_S" "1.0"; mib ← f "MIN_MIB" "256"; n ← py_trunc mib;
  interval ← f "MIN_INTERVAL_S" "120"; busy ← f "MAX_BUSY_S" "30"; info ← f "INFO_EVERY_S" "30";
  budget ← f "BUDGET_MS" "50"; defer ← f "MAX_DEFER_S" "60"; logm ← f "LOG_MIN_S" "10";
  summ ← f "SUMMARY_S" "600"; ms ← f "MS_PER_GIB" "40";
  let bytes := Z.shiftl n 20 in
  idle' ← in_range idle; poll' ← in_range poll; interval' ← in_range interval; busy' ← in_range busy;
  info' ← in_range info; budget' ← in_range budget; defer' ← in_range defer; ms' ← in_range ms;
  if Qle_bool poll' 0 || (bytes <=? 0) then Raise ValueError
  else Ok (Config idle' poll' bytes interval' busy' info' budget' defer' logm summ ms').

(** ** Activity *)

Record activity := Activity {
  inflight : Z; entries : Z; a_last : Q; last_receive : option Q }.

Definition enter (a : activity) (now : Q) : activity :=
  Activity (inflight a + 1) (entries a + 1) now (last_receive a).

(** [exit]: and whether the gap callback runs. *)
Definition exit_ (a : activity) (now : Q) : activity * bool :=
  let a' := Activity (inflight a - 1) (entries a) now (last_receive a) in
  (a', inflight a' =? 0).

Definition quiet (a : activity) (idle now : Q) : bool :=
  (inflight a =? 0) && Qle_bool idle (now - a_last a)%Q.

Definition between (a : activity) : bool := inflight a =? 0.

Definition outputs_quiet (a : activity) (idle wall : Q) : bool :=
  match last_receive a with None => true | Some ts => Qle_bool idle (wall - ts)%Q end.

(** ** The trimmer *)

Record trimmer := Trimmer {
  ms_per_gib : Q; r0 : Z; f0 : Z;
  last_trim : option Q; last_info : option Q; deferred_since : option Q; busy_since : option Q;
  due_since : option Q;
  n : gmap string Z; returned_kb : Z; hold_ms : list Q; info_ms_max : Q; last_line : option Q }.

Definition init_trimmer (cfg : config) (rss : Z) : trimmer :=
  Trimmer (cfg_ms_per_gib cfg) rss 0 None None None None None ∅ 0 [] 0 None.

Definition bump (k : string) (d : Z) (m : gmap string Z) : gmap string Z := <[k := default 0 (m !! k) + d]> m.

Definition set_waits (t : trimmer) (busy due : option Q) (m : gmap string Z) : trimmer :=
  Trimmer (ms_per_gib t) (r0 t) (f0 t) (last_trim t) (last_info t) (deferred_since t) busy due m
          (returned_kb t) (hold_ms t) (info_ms_max t) (last_line t).

Definition set_idle (t : trimmer) (info deferred : option Q) (m : gmap string Z) (info_ms : Q) : trimmer :=
  Trimmer (ms_per_gib t) (r0 t) (f0 t) (last_trim t) info deferred (busy_since t) (due_since t) m
          (returned_kb t) (hold_ms t) info_ms (last_line t).

Definition grown (t : trimmer) (r f : Z) : Z := Z.max (Z.shiftl (r - r0 t) 10) (f - f0 t).

Definition est_of (t : trimmer) (r f : Z) : Q := (ms_per_gib t * inject_Z (Z.min f (grown t r f)) / inject_Z (2 ^ 30))%Q.

(** What a step reads: its clock, the activity at the two gates with the clock there, the
    resident and free bytes, the time the free-bytes walk took, the wall clock. *)
Record reads := Reads {
  e_now : Q; e_act1 : activity; e_t1 : Q; e_rss : Z; e_free : Z; e_info_ms : Q;
  e_wall : Q; e_act2 : activity; e_t2 : Q }.

(** What a trim reads: the bytes before it when the caller has none, the activity, the
    duration of the call, the resident bytes after it and the clock at its end. *)
Record trim_reads := TrimReads { x_rss : Z; x_free : Z; x_act : activity; x_ms : Q; x_rss1 : Z; x_end : Q }.

Inductive how := Trim | Forced | BusyTrim.

#[export] Instance how_eq_dec : EqDecision how.
Proof. solve_decision. Defined.

(** A trim a step hands to the lock: its readings, and whether a gap is required. *)
Record order := Order { o_how : how; o_read : option (Z * Z * Q); o_wait_gap : bool }.

Inductive outcome :=
  | NoHook | Interval | Busy | Due | Small | Defer | Abort
  | Trimmed (h : how).

(** [Trimmer.step] up to the lock: an outcome, or a trim to run under it. *)
Definition step (cfg : config) (hooked : bool) (t : trimmer) (e : reads) : trimmer * (outcome + order) :=
  if negb hooked then (t, inl NoHook)
  else
    let now := e_now e in
    let in_interval := match last_trim t with
                       | Some l => qlt (now - l)%Q (min_interval_s cfg)
                       | None => false
                       end in
    if negb (quiet (e_act1 e) (idle_s cfg) (e_t1 e)) then
      if Qle_bool (max_busy_s cfg) 0 || (Z.shiftl (e_rss e - r0 t) 10 <? min_bytes cfg)
      then (set_waits t None (due_since t) (n t), inl (if in_interval then Interval else Busy))
      else
        let '(since, m) := match busy_since t with
                           | None => (now, bump "busy_waits" 1 (n t))
                           | Some s => (s, n t)
                           end in
        let t1 := set_waits t (Some since) (due_since t) m in
        if in_interval then (t1, inl Interval)
        else if qlt (now - since)%Q (max_busy_s cfg) then (t1, inl Busy)
        else
          let due := default now (due_since t1) in
          let t2 := set_waits t1 (busy_since t1) (Some due) (n t1) in
          if qlt (now - due)%Q (max_busy_s cfg) then (t2, inl Due)
          else (t2, inr (Order BusyTrim None false))
    else
      let t1 := set_waits t None None (n t) in
      if in_interval then (t1, inl Interval)
      else
        let r := e_rss e in
        if (Z.shiftl (r - r0 t) 10 <? min_bytes cfg) &&
           match last_info t with Some l => qlt (now - l)%Q (info_every_s cfg) | None => false end
        then (set_idle t1 (last_info t) None (n t1) (info_ms_max t), inl Small)
        else
          let f := e_free e in
          let worst := if Qle_bool (info_ms_max t) (e_info_ms e) then e_info_ms e else info_ms_max t in
          let t2 := set_idle t1 (Some now) (deferred_since t) (n t1) worst in
          let g := grown t r f in
          if (f <? min_bytes cfg) || (g <? min_bytes cfg)
          then (set_idle t2 (last_info t2) None (n t2) worst, inl Small)
          else
            let est := est_of t r f in
            let costly := qlt (budget_ms cfg) est && negb (outputs_quiet (e_act2 e) (idle_s cfg) (e_wall e)) in
            let '(since, m) := match deferred_since t with
                               | None => (now, bump "deferred" 1 (n t2))
                               | Some s => (s, n t2)
                               end in
            let t3 := if costly then set_idle t2 (last_info t2) (Some since) m worst else t2 in
            if costly && (Qle_bool (max_defer_s cfg) 0 || qlt (now - since)%Q (max_defer_s cfg))
            then (t3, inl Defer)
            else if negb (quiet (e_act2 e) (idle_s cfg) (e_t2 e))
            then (set_idle t3 (last_info t3) (deferred_since t3) (bump "aborted" 1 (n t3)) worst, inl Abort)
            else (t3, inr (Order (if costly then Forced else Trim) (Some (r, f, est)) true)).

(** The last [k] elements: [del l[:-k]]. *)
Definition keep_last {A} (k : nat) (l : list A) : list A := drop (length l - k) l.

(** [Trimmer._trim], under the lock. *)
Definition run_trim (cfg : config) (t : trimmer) (o : order) (x : trim_reads) : trimmer * outcome :=
  let '(r, f, est) := match o_read o with
                      | Some y => y
                      | None => (x_rss x, x_free x, est_of t (x_rss x) (x_free x))
                      end in
  let busy := bool_decide (o_how o = BusyTrim) in
  if busy && (f <? min_bytes cfg) then (set_waits t None None (n t), Small)
  else if busy && o_wait_gap o && negb (between (x_act x))
  then (set_waits t (busy_since t) (due_since t) (bump "aborted" 1 (n t)), Abort)
  else
    let back := Z.max 0 (r - x_rss1 x) in
    let over := qlt (budget_ms cfg) (x_ms x) in
    let one (b : bool) := if b then 1 else 0 in
    let m := bump "over_budget" (one over)
               (bump "busy" (one busy) (bump "forced" (one (bool_decide (o_how o = Forced))) (bump "trims" 1 (n t)))) in
    let learned := if 64 * 1024 <=? back
                   then ((1 # 2) * ms_per_gib t + (1 # 2) * x_ms x / (inject_Z back / inject_Z (2 ^ 20)))%Q
                   else ms_per_gib t in
    let logged := over || negb (bool_decide (o_how o = Trim)) ||
                  match last_line t with None => true | Some l => fge (x_end x - l)%Q (log_min_s cfg) end in
    (Trimmer learned (x_rss1 x) f (Some (x_end x)) (last_info t) None None None
       (if logged then <["suppressed" := 0]> m else bump "suppressed" 1 m)
       (returned_kb t + back) (keep_last 4096 (hold_ms t ++ [x_ms x])) (info_ms_max t)
       (if logged then Some (x_end x) else last_line t),
     Trimmed (o_how o)).

(** [Trimmer.gap]: what the thread that ended the last tokenization does, when the lock is free. *)
Definition gap (cfg : config) (t : trimmer) (x : trim_reads) : trimmer * option outcome :=
  match due_since t with
  | None => (t, None)
  | Some _ => let '(t', o) := run_trim cfg t (Order BusyTrim None true) x in (t', Some o)
  end.

(** A poll whose trim runs at once. *)
Definition poll (cfg : config) (hooked : bool) (t : trimmer) (e : reads) (x : trim_reads) : trimmer * outcome :=
  let '(t1, d) := step cfg hooked t e in
  match d with inl o => (t1, o) | inr ord => run_trim cfg t1 ord x end.

(** [maybe_summary]: whether the summary is due, and the time it was last written. *)
Definition maybe_summary (cfg : config) (last_summary now : Q) : bool * Q :=
  if fge (now - last_summary)%Q (summary_s cfg) then (true, now) else (false, last_summary).

(** * Properties *)

Lemma qlt_true a b : qlt a b = true <-> (a < b)%Q.
Proof.
  unfold qlt. rewrite negb_true_iff. destruct (Qle_bool b a) eqn:E.
  - apply Qle_bool_iff in E. split; [done|lra].
  - split; [intros _|done]. apply Qnot_le_lt. intros H. apply Qle_bool_iff in H. congruence.
Qed.

Lemma qlt_false a b : qlt a b = false <-> (b <= a)%Q.
Proof. unfold qlt. rewrite negb_false_iff. apply Qle_bool_iff. Qed.

Lemma Qle_bool_false a b : Qle_bool a b = false <-> (b < a)%Q.
Proof. rewrite <- qlt_true. unfold qlt. by rewrite negb_true_iff. Qed.

(** ** The rate limit *)

(** Runs of the trimmer in which a poll's trim follows its decision at once: its state, the
    time, and the end times of the trims so far (latest first). *)
Inductive runs (cfg : config) : trimmer -> Q -> list Q -> Prop :=
  | runs_init rss now : runs cfg (init_trimmer cfg rss) now []
  | runs_poll t now ts hooked e x t' o :
      runs cfg t now ts -> (now <= e_now e)%Q -> (e_now e <= x_end x)%Q -> poll cfg hooked t e x = (t', o) ->
      runs cfg t' (x_end x) (match o with Trimmed _ => x_end x :: ts | _ => ts end)
  | runs_gap t now ts x t' o :
      runs cfg t now ts -> (now <= x_end x)%Q -> gap cfg t x = (t', o) ->
      runs cfg t' (x_end x) (match o with Some (Trimmed _) => x_end x :: ts | _ => ts end).

(** Under the lock a trim either runs, and is the last one, or leaves the rate limit's state
    except for dropping a due busy trim. *)
Lemma run_trim_cases cfg t ord x t' o :
  run_trim cfg t ord x = (t', o) ->
  (exists h, o = Trimmed h /\ last_trim t' = Some (x_end x) /\ due_since t' = None) \/
  ((forall h, o <> Trimmed h) /\ last_trim t' = last_trim t /\ (due_since t' = None \/ due_since t' = due_since t)).
Proof.
  unfold run_trim. destruct (match o_read ord with Some y => y | None => _ end) as [[r f] est].
  destruct (bool_decide (o_how ord = BusyTrim) && (f <? min_bytes cfg)).
  { intros [= <- <-]. right. split; [done|]. split; [done|]. by left. }
  destruct (_ && _ && _).
  { intros [= <- <-]. right. split; [done|]. split; [done|]. by right. }
  intros [= <- <-]. left. eauto.
Qed.

(** A step keeps the last trim; it marks a busy trim due, or orders a trim, only outside the interval. *)
Lemma step_cases cfg hooked t e t1 d :
  step cfg hooked t e = (t1, d) ->
  last_trim t1 = last_trim t /\
  (due_since t1 = None \/ due_since t1 = due_since t \/
   (due_since t1 = Some (e_now e) /\ forall l, last_trim t = Some l -> (min_interval_s cfg <= e_now e - l)%Q)) /\
  (forall ord, d = inr ord -> forall l, last_trim t = Some l -> (min_interval_s cfg <= e_now e - l)%Q).
Proof.
  unfold step. destruct hooked; [|intros [= <- <-]; split; [done|]; split; [tauto|done]]. simpl.
  assert (Hint : match last_trim t with Some l => qlt (e_now e - l)%Q (min_interval_s cfg) | None => false end = false ->
                 forall l, last_trim t = Some l -> (min_interval_s cfg <= e_now e - l)%Q).
  { intros H l Hl. rewrite Hl in H. by apply qlt_false. }
  destruct (match last_trim t with Some l => _ | None => false end).
  - repeat case_match; intros [= <- <-]; simpl; (split; [done|]); (split; [tauto|done]).
  - specialize (Hint eq_refl).
    destruct (negb (quiet (e_act1 e) (idle_s cfg) (e_t1 e))).
    + destruct (_ || _); [intros [= <- <-]; simpl; split; [done|]; split; [tauto|done]|].
      destruct (match busy_since t with None => _ | Some s => _ end) as [since m]. simpl.
      destruct (qlt _ _); [intros [= <- <-]; simpl; split; [done|]; split; [tauto|done]|].
      assert (Hdue : Some (default (e_now e) (due_since t)) = due_since t \/
                     Some (default (e_now e) (due_since t)) = Some (e_now e)) by (destruct (due_since t); simpl; auto).
      destruct (qlt _ _); intros [= <- <-]; simpl; (split; [done|]); (split; [|done]);
        destruct Hdue as [->|Hd]; [tauto|right; right; split; [exact Hd|done]|tauto|right; right; split; [exact Hd|done]].
    + repeat case_match; intros [= <- <-]; simpl; (split; [done|]); (split; [tauto|done]).
Qed.

Definition spaced (cfg : config) (later earlier : Q) : Prop := (min_interval_s cfg <= later - earlier)%Q.

Definition rate_inv (cfg : config) (t : trimmer) (now : Q) (ts : list Q) : Prop :=
  last_trim t = head ts /\
  (forall l, last_trim t = Some l -> (l <= now)%Q) /\
  (forall d, due_since t = Some d -> (d <= now)%Q /\ forall l, last_trim t = Some l -> spaced cfg d l) /\
  Sorted (spaced cfg) ts.

Lemma rate_inv_trim cfg t now ts x t' :
  rate_inv cfg t now ts -> (now <= x_end x)%Q ->
  (forall l, last_trim t = Some l -> spaced cfg (x_end x) l) ->
  last_trim t' = Some (x_end x) -> due_since t' = None -> rate_inv cfg t' (x_end x) (x_end x :: ts).
Proof.
  intros (Hh & _ & _ & Hs) Hx Hsp Hl Hd. split; [by rewrite Hl|]. split; [|split].
  - intros l. rewrite Hl. intros [= <-]. lra.
  - by rewrite Hd.
  - constructor; [done|]. destruct ts as [|l ts]; [constructor|]. constructor. apply Hsp. by rewrite Hh.
Qed.

Lemma rate_inv_keep cfg t now ts now' t' :
  rate_inv cfg t now ts -> (now <= now')%Q -> last_trim t' = last_trim t ->
  (due_since t' = None \/ due_since t' = due_since t \/
   exists d, due_since t' = Some d /\ (d <= now')%Q /\ forall l, last_trim t = Some l -> spaced cfg d l) ->
  rate_inv cfg t' now' ts.
Proof.
  intros (Hh & Hl & Hd & Hs) Hx Hl' Hd'. split; [by rewrite Hl'|]. split; [|split; [|done]].
  - intros l. rewrite Hl'. intros H%Hl. lra.
  - intros d Hdd. rewrite Hl'. destruct Hd' as [E|[E|(d' & E & H1 & H2)]]; rewrite E in Hdd; [done| |].
    + destruct (Hd d Hdd) as [H1 H2]. split; [lra|done].
    + by injection Hdd as <-.
Qed.

(** As long as a poll's trim follows its decision at once, two trims are never closer
    than the configured interval, whatever the activity, the readings and the order of
    polls and gaps. *)
Theorem trims_rate_limited cfg t now ts :
  runs cfg t now ts -> last_trim t = head ts /\ Sorted (spaced cfg) ts.
Proof.
  intros H. assert (Hinv : rate_inv cfg t now ts); [|by destruct Hinv as (? & _ & _ & ?)].
  induction H as [rss now|t now ts hooked e x t' o _ IH H1 H2 Hp|t now ts x t' o _ IH H1 Hg].
  - split; [done|]. split; [done|]. split; [done|constructor].
  - unfold poll in Hp. destruct (step cfg hooked t e) as [t1 d] eqn:Es.
    destruct (step_cases _ _ _ _ _ _ Es) as (Hl1 & Hd1 & Hord).
    assert (Hinv1 : rate_inv cfg t1 (e_now e) ts).
    { eapply rate_inv_keep; [exact IH|done|done|]. destruct Hd1 as [?|[?|[Hd1 Hsp]]]; [tauto|tauto|].
      right; right. exists (e_now e). split; [done|]. split; [lra|done]. }
    destruct d as [o'|ord].
    + injection Hp as <- <-. destruct o'; try (eapply rate_inv_keep; [exact Hinv1|done|done|by auto]).
      exfalso. revert Es. unfold step. clear. repeat case_match; intros [= ? ?]; simplify_eq.
    + destruct (run_trim_cases _ _ _ _ _ _ Hp) as [(h & -> & Hl & Hd)|(Hno & Hl & Hd)].
      * eapply rate_inv_trim; [exact Hinv1|done| |done|done].
        intros l. rewrite Hl1. intros Hll. pose proof (Hord ord eq_refl l Hll). unfold spaced. lra.
      * destruct o; try (eapply rate_inv_keep; [exact Hinv1|done|done|tauto]). by destruct (Hno h).
  - unfold gap in Hg. destruct (due_since t) as [d|] eqn:Ed.
    + destruct (run_trim _ _ _ _) as [t2 o2] eqn:Er. injection Hg as <- <-.
      destruct (run_trim_cases _ _ _ _ _ _ Er) as [(h & -> & Hl & Hd)|(Hno & Hl & Hd)].
      * eapply rate_inv_trim; [exact IH|done| |done|done]. intros l Hll.
        destruct IH as (_ & _ & Hdue & _). destruct (Hdue d Ed) as [Hd1 Hd2].
        specialize (Hd2 l Hll). unfold spaced in *. lra.
      * destruct o2; try (eapply rate_inv_keep; [exact IH|done|done|tauto]). by destruct (Hno h).
    + injection Hg as <- <-. eapply rate_inv_keep; [exact IH|done|done|auto].
Qed.

(** The default settings, and a run on a busy process that has grown by 300 MiB. *)
Definition ex_cfg : config := Config (3 # 2) 1 (256 * 2 ^ 20) 120 30 30 50 60 (Fin 10) (Fin 600) 40.
Definition ex_act : activity := Activity 1 7 0 None.
Definition ex_reads (now : Q) : reads := Reads now ex_act now (1000 + 300 * 1024) (400 * 2 ^ 20) 1 now ex_act now.
Definition ex_x (end_ : Q) : trim_reads :=
  TrimReads (1000 + 300 * 1024) (400 * 2 ^ 20) (Activity 0 7 end_ None) 20 2000 end_.
Definition ex_t0 : trimmer := init_trimmer ex_cfg 1000.
Definition ex_t1 : trimmer := (poll ex_cfg true ex_t0 (ex_reads 0) (ex_x 0)).1.
Definition ex_t2 : trimmer := (poll ex_cfg true ex_t1 (ex_reads 30) (ex_x 30)).1.
Definition ex_t3 : trimmer := (gap ex_cfg ex_t2 (ex_x 40)).1.

Lemma ex_runs : runs ex_cfg ex_t2 30 [].
Proof.
  apply (runs_poll ex_cfg ex_t1 0 [] true (ex_reads 30) (ex_x 30) ex_t2 Due); [|vm_compute; discriminate..|vm_compute; reflexivity].
  apply (runs_poll ex_cfg ex_t0 0 [] true (ex_reads 0) (ex_x 0) ex_t1 Busy); [apply runs_init|vm_compute; discriminate..|vm_compute; reflexivity].
Qed.

Lemma trims_rate_limited_witness :
  (gap ex_cfg ex_t2 (ex_x 40)).2 = Some (Trimmed BusyTrim) /\ last_trim ex_t3 = Some 40%Q /\ Sorted (spaced ex_cfg) [40%Q].
Proof.
  split; [vm_compute; reflexivity|]. apply (trims_rate_limited ex_cfg ex_t3 40 [40%Q]).
  apply (runs_gap ex_cfg ex_t2 30 [] (ex_x 40) ex_t3 (Some (Trimmed BusyTrim))); [exact ex_runs|vm_compute; discriminate|].
  vm_compute; reflexivity.
Defined.

(** The rate limit does not survive a gap between a poll's decision and its trim: the
    decision is not repeated under the lock, so the thread that ends a tokenization and the
    polling thread can both trim, at the same instant. *)
Theorem gap_race_breaks_rate_limit :
  exists t ts e ord t1 t2 t3 x1 x2,
    runs ex_cfg t 30 ts /\ (30 <= e_now e)%Q /\ step ex_cfg true t e = (t1, inr ord) /\
    (e_now e <= x_end x1)%Q /\ gap ex_cfg t1 x1 = (t2, Some (Trimmed BusyTrim)) /\
    (x_end x1 <= x_end x2)%Q /\ run_trim ex_cfg t2 ord x2 = (t3, Trimmed BusyTrim) /\
    ~ spaced ex_cfg (x_end x2) (x_end x1).
Proof.
  exists ex_t2, [], (ex_reads 60), (Order BusyTrim None false).
  eexists _, _, _, (ex_x 61), (ex_x 61). split; [exact ex_runs|]. split; [vm_compute; discriminate|].
  split; [vm_compute; reflexivity|]. split; [vm_compute; discriminate|].
  split; [vm_compute; reflexivity|]. split; [vm_compute; discriminate|].
  split; [vm_compute; reflexivity|]. unfold spaced. vm_compute. auto.
Qed.

(** ** When a poll trims *)

(** A poll orders an ordinary trim only when the heap holds and has grown by the minimum,
    both gates were quiet and the predicted hold fits the budget or the outputs are quiet; a
    forced one only after the deferral limit; a busy one only after the growth was seen for
    the busy limit and the trim was due for as long again; otherwise it does not trim. *)
Theorem step_trims_justified cfg hooked t e t1 ord :
  step cfg hooked t e = (t1, inr ord) ->
  hooked = true /\
  match o_how ord with
  | BusyTrim =>
      quiet (e_act1 e) (idle_s cfg) (e_t1 e) = false /\ (0 < max_busy_s cfg)%Q /\
      min_bytes cfg <= Z.shiftl (e_rss e - r0 t) 10 /\
      (exists s d, busy_since t1 = Some s /\ due_since t1 = Some d /\
         (busy_since t = Some s \/ s = e_now e) /\ (due_since t = Some d \/ d = e_now e) /\
         (max_busy_s cfg <= e_now e - s)%Q /\ (max_busy_s cfg <= e_now e - d)%Q)
  | h =>
      quiet (e_act1 e) (idle_s cfg) (e_t1 e) = true /\ quiet (e_act2 e) (idle_s cfg) (e_t2 e) = true /\
      exists r f est, o_read ord = Some (r, f, est) /\ r = e_rss e /\ f = e_free e /\
        min_bytes cfg <= f /\ min_bytes cfg <= grown t r f /\ est = est_of t r f /\
        match h with
        | Trim => (est <= budget_ms cfg)%Q \/ outputs_quiet (e_act2 e) (idle_s cfg) (e_wall e) = true
        | _ => (budget_ms cfg < est)%Q /\ (0 < max_defer_s cfg)%Q /\
               exists s, deferred_since t1 = Some s /\ (deferred_since t = Some s \/ s = e_now e) /\
                 (max_defer_s cfg <= e_now e - s)%Q
        end
  end.
Proof.
  unfold step. destruct hooked; [|done]. simpl.
  destruct (match last_trim t with Some l => _ | None => false end); [repeat case_match; done|].
  destruct (quiet (e_act1 e) (idle_s cfg) (e_t1 e)) eqn:Eq; simpl.
  - destruct (_ && _); [done|].
    destruct ((e_free e <? min_bytes cfg) || (grown t (e_rss e) (e_free e) <? min_bytes cfg)) eqn:Em; [done|].
    apply orb_false_iff in Em as [Em1 Em2].
    destruct (qlt (budget_ms cfg) (est_of t (e_rss e) (e_free e))) eqn:Eb; simpl.
    + apply qlt_true in Eb. destruct (outputs_quiet (e_act2 e) (idle_s cfg) (e_wall e)) eqn:Eo; simpl.
      * destruct (match deferred_since t with None => _ | Some s => _ end) as [since m].
        destruct (quiet (e_act2 e) (idle_s cfg) (e_t2 e)) eqn:Eq2; simpl; [|done]. intros [= <- <-]. simpl.
        split; [done|]. split; [done|]. split; [done|]. exists (e_rss e), (e_free e), (est_of t (e_rss e) (e_free e)).
        repeat split; try lia; by right.
      * assert (Hs : exists s m, match deferred_since t with None => (e_now e, bump "deferred" 1 (n t)) | Some s => (s, n t) end = (s, m)
                   /\ (deferred_since t = Some s \/ s = e_now e)) by (destruct (deferred_since t); eauto).
        destruct Hs as (s & m & -> & Hs).
        destruct (Qle_bool (max_defer_s cfg) 0 || qlt (e_now e - s)%Q (max_defer_s cfg)) eqn:Ed; [done|].
        apply orb_false_iff in Ed as [Ed1 Ed2]. apply Qle_bool_false in Ed1. apply qlt_false in Ed2.
        destruct (quiet (e_act2 e) (idle_s cfg) (e_t2 e)) eqn:Eq2; simpl; [|done]. intros [= <- <-]. simpl.
        split; [done|]. split; [done|]. split; [done|]. exists (e_rss e), (e_free e), (est_of t (e_rss e) (e_free e)).
        repeat split; try lia; try done. exists s. repeat split; done.
    + apply qlt_false in Eb. destruct (match deferred_since t with None => _ | Some s => _ end) as [since m].
      destruct (quiet (e_act2 e) (idle_s cfg) (e_t2 e)) eqn:Eq2; simpl; [|done]. intros [= <- <-]. simpl.
      split; [done|]. split; [done|]. split; [done|]. exists (e_rss e), (e_free e), (est_of t (e_rss e) (e_free e)).
      repeat split; try lia; by left.
  - destruct (Qle_bool (max_busy_s cfg) 0 || (Z.shiftl (e_rss e - r0 t) 10 <? min_bytes cfg)) eqn:Eg; [done|].
    apply orb_false_iff in Eg as [Eg1 Eg2]. apply Qle_bool_false in Eg1.
    assert (Hs : exists s m, match busy_since t with None => (e_now e, bump "busy_waits" 1 (n t)) | Some s => (s, n t) end = (s, m)
               /\ (busy_since t = Some s \/ s = e_now e)) by (destruct (busy_since t); eauto).
    destruct Hs as (s & m & -> & Hs). simpl.
    destruct (qlt (e_now e - s)%Q (max_busy_s cfg)) eqn:E1; [done|]. apply qlt_false in E1.
    destruct (qlt (e_now e - default (e_now e) (due_since t))%Q (max_busy_s cfg)) eqn:E2; [done|]. apply qlt_false in E2.
    intros [= <- <-]. simpl. split; [done|]. split; [done|]. split; [done|]. split; [lia|].
    exists s, (default (e_now e) (due_since t)). repeat split; try done. destruct (due_since t); simpl; auto.
Qed.

Lemma step_trims_justified_witness :
  let e := Reads 100 (Activity 0 3 90 None) 100 (1000 + 300 * 1024) (400 * 2 ^ 20) 1 100 (Activity 0 3 90 None) 100 in
  exists t1 est, step ex_cfg true ex_t0 e = (t1, inr (Order Trim (Some (1000 + 300 * 1024, 400 * 2 ^ 20, est)) true)) /\
    min_bytes ex_cfg <= grown ex_t0 (1000 + 300 * 1024) (400 * 2 ^ 20).
Proof.
  intros e. eexists _, _. split; [vm_compute; reflexivity|].
  destruct (step_trims_justified ex_cfg true ex_t0 e _ _ (ltac:(vm_compute; reflexivity)
    : step ex_cfg true ex_t0 e = (_, inr (Order Trim (Some (1000 + 300 * 1024, 400 * 2 ^ 20, est_of ex_t0 (1000 + 300 * 1024) (400 * 2 ^ 20))) true))))
    as (_ & _ & _ & r & f & est & Hr & _ & _ & _ & Hg & _).
  injection Hr as <- <- _. exact Hg.
Defined.
