(* ===== verification/L2Prefetch.v ===== *)
(** * L2 prefetch plans (adapter/l2_prefetch.py)

    Which weight bytes a decode forward prefetches at which of its windows, and how
    the plans are learned: the event sequence of an eager forward becomes windows,
    the windows a plan of address segments, and a shape is frozen once a graph of it
    is captured.  Addresses are integers, a forward's signature is an integer, the
    knobs are the values the environment gives.  Streams are reduced to the pending
    join marks; the CUDA library, the tensor tables on the device, the wrappers
    installed on the engine's classes and the log lines are not modelled. *)
From S2P Require Import Prelude PyStr.
#[local] Open Scope string_scope.
#[local] Open Scope list_scope.
#[local] Open Scope Z_scope.

Definition seg := (Z * Z)%type.       (* address, bytes *)
Definition pos := (Z * Z)%type.       (* queue index, offset *)

(** A queue item: address, bytes, output rows if known, and whether it is a wo_a weight. *)
Record qitem := QItem { q_ptr : Z; q_bytes : Z; q_rows : option Z; q_wo_a : bool }.

(** ** Taking bytes from a queue *)

(** The loop of [_take] over the rest of the queue, at index [i] and offset [off]. *)
Fixpoint take_from (q : list qitem) (i off left : Z) : list seg * pos :=
  match q with
  | [] => ([], (i, off))
  | it :: q' =>
      if left <? 16 then ([], (i, off))
      else
        let avail := q_bytes it - off in
        let t := Z.land (Z.min avail left) (Z.lnot 15) in
        let out := if 0 <? t then [(q_ptr it + off, t)] else [] in
        if left <? avail then (out, (i, off + t))
        else let '(more, e) := take_from q' (i + 1) 0 (left - t) in (out ++ more, e)
  end.

Definition take_q (q : list qitem) (start : pos) (budget : Z) : list seg * pos :=
  take_from (drop (Z.to_nat start.1) q) start.1 start.2 budget.

Definition seg_bytes (l : list seg) : Z := zsum (map snd l).

(** ** Windows *)

Inductive event :=
  | EvMoe (k : Z)                          (* "m": the router ran *)
  | EvColl (k : Z)                         (* "c": a collective *)
  | EvEngram (k : Z)                       (* "e": the Engram row join *)
  | EvLinear (k : Z)                       (* "L": an MXFP8 linear ended *)
  | EvWoa (ptr bytes : Z)                  (* "w": wo_a bytes *)
  | EvRead (ptr bytes : Z) (rows : option Z).   (* "r": a weight read *)

#[export] Instance event_eq_dec : EqDecision event.
Proof. solve_decision. Defined.

Definition wkey := (string * Z)%type.

Record window := Window { w_key : wkey; w_budget : Z; w_queue : list qitem; w_ahead : bool }.

(** The sub-gates and sizes a plan is made with. *)
Record knobs := Knobs {
  k_woa : bool; k_ahead : bool; k_engram : bool;
  k_mb : Z; k_moe_mb : Z; k_engram_mb : Z; k_woa_mb : Z; k_wob_mb : Z; k_skip : Z }.

(** The windows so far, the index of the current one, and the last linear: its window, how
    long that window's queue was, and its number. *)
Record wstate := WState { s_windows : list window; s_cur : option nat; s_last : option (nat * nat * Z) }.

Definition push (w : window) (it : qitem) : window :=
  Window (w_key w) (w_budget w) (w_queue w ++ [it]) (w_ahead w).

(** [cur[2].append(it)], when there is a current window. *)
Definition append_cur (st : wstate) (it : qitem) : wstate :=
  match s_cur st with
  | Some i => WState (alter (fun w => push w it) i (s_windows st)) (s_cur st) (s_last st)
  | None => st
  end.

Definition open_window (st : wstate) (w : window) : wstate :=
  WState (s_windows st ++ [w]) (Some (length (s_windows st))) None.

Definition on_event (kn : knobs) (st : wstate) (ev : event) : wstate :=
  match ev with
  | EvMoe k => WState (s_windows st ++ [Window ("m", k) (k_moe_mb kn) [] false]) (s_cur st) (s_last st)
  | EvColl k => open_window st (Window ("c", k) (k_mb kn) [] (k_ahead kn))
  | EvEngram k => open_window st (Window ("e", k) (k_engram_mb kn) [] true)
  | EvLinear k =>
      match s_cur st with
      | Some i => WState (s_windows st) (s_cur st)
                    (Some (i, length (from_option w_queue [] (s_windows st !! i)), k))
      | None => st
      end
  | EvWoa ptr bytes =>
      let st1 :=
        match s_last st with
        | Some (owner, p, lin) =>
            if k_woa kn && bool_decide (s_cur st = Some owner) then
              let q := from_option w_queue [] (s_windows st !! owner) in
              open_window
                (WState (alter (fun w => Window (w_key w) (w_budget w) (take p (w_queue w)) (w_ahead w))
                               owner (s_windows st)) (s_cur st) (s_last st))
                (Window ("l", lin) (k_woa_mb kn) (drop p q) (k_ahead kn))
            else st
        | None => st
        end in
      append_cur st1 (QItem ptr bytes None true)
  | EvRead ptr bytes rows => append_cur st (QItem ptr bytes rows false)
  end.

(** SKIP_N: narrow weights leave a window; one left empty looks ahead. *)
Definition skip_window (skip : Z) (w : window) : window :=
  let kept := List.filter (fun it => match q_rows it with None => true | Some r => skip <? r end) (w_queue w) in
  let emptied := match w_queue w, kept with _ :: _, [] => true | _, _ => false end in
  Window (w_key w) (w_budget w) kept (emptied || w_ahead w).

Definition windows (kn : knobs) (events : list event) : list window :=
  let ws := s_windows (foldl (on_event kn) (WState [] None None) events) in
  if 0 <? k_skip kn then map (skip_window (k_skip kn)) ws else ws.

(** ** Plans *)

(** A window's segments, and for a MoE window the segments to demote. *)
Record item := Item { it_segs : list seg; it_old : option (list seg) }.

Record pstate := PState {
  p_plan : gmap wkey item; p_start : pos; p_cover : gmap nat pos; p_moe : list (wkey * list seg) }.

Definition pos_lt (a b : pos) : bool := (a.1 <? b.1) || ((a.1 =? b.1) && (a.2 <? b.2)).

(** The MoE window at index [j]: the queues after it up to the next mark. *)
Fixpoint moe_take (j : nat) (rest : list window) (left : Z) (cover : gmap nat pos) : list seg * gmap nat pos :=
  match rest with
  | [] => ([], cover)
  | w :: rest' =>
      if String.eqb (w_key w).1 "m" || (left <? 16) then ([], cover)
      else
        let '(more, e) := take_q (w_queue w) (0, 0) left in
        let '(segs, cover') := moe_take (S j) rest' (left - seg_bytes more) (<[j := e]> cover) in
        (more ++ segs, cover')
  end.

Definition set_plan (st : pstate) (key : wkey) (segs : list seg) (start : pos) : pstate :=
  PState (match segs with [] => p_plan st | _ => <[key := Item segs None]> (p_plan st) end)
         start (p_cover st) (p_moe st).

Definition leading_woa (q : list qitem) : nat :=
  let fix go (l : list qitem) : nat :=
    match l with it :: l' => if q_wo_a it then S (go l') else 0%nat | [] => 0%nat end in go q.

(** One iteration of [_make_plan] at window [j]; [rest] are the windows after it. *)
Definition plan_window (kn : knobs) (st : pstate) (j : nat) (w : window) (rest : list window) : pstate :=
  if String.eqb (w_key w).1 "m" then
    let '(segs, cover) := moe_take (S j) rest (w_budget w) (p_cover st) in
    PState (p_plan st) (p_start st) cover
           (p_moe st ++ match segs with [] => [] | _ => [(w_key w, segs)] end)
  else
    let start := match p_cover st !! j with
                 | Some c => if pos_lt (p_start st) c then c else p_start st
                 | None => p_start st
                 end in
    if String.eqb (w_key w).1 "l" && (0 <? k_wob_mb kn) then
      let nw := leading_woa (w_queue w) in
      let '(segs, _) := take_q (take nw (w_queue w)) (0, 0) (w_budget w) in
      let '(more, _) := take_q (drop nw (w_queue w)) (0, 0) (k_wob_mb kn) in
      set_plan st (w_key w) (segs ++ more) (0, 0)
    else
      let '(segs, e) := take_q (w_queue w) start (w_budget w) in
      let left := w_budget w - seg_bytes segs in
      match rest with
      | w' :: _ =>
          if w_ahead w && (zlen (w_queue w) <=? e.1) && (16 <=? left) then
            let '(more, start') := take_q (w_queue w') (default (0, 0) (p_cover st !! S j)) left in
            set_plan st (w_key w) (segs ++ more) start'
          else set_plan st (w_key w) segs (0, 0)
      | [] => set_plan st (w_key w) segs (0, 0)
      end.

Fixpoint plan_windows (kn : knobs) (st : pstate) (j : nat) (ws : list window) : pstate :=
  match ws with
  | [] => st
  | w :: rest => plan_windows kn (plan_window kn st j w rest) (S j) rest
  end.

(** The MoE items, each demoting the previous one's segments (the first one the last's). *)
Definition moe_items (l : list (wkey * list seg)) : list (wkey * item) :=
  imap (fun i '(key, segs) =>
          let prev := match i with O => last l | S i' => l !! i' end in
          (key, Item segs (Some (match l with [_] => [] | _ => from_option snd [] prev end)))) l.

Definition pstate0 : pstate := PState ∅ (0, 0) ∅ [].

Definition make_plan_ws (kn : knobs) (ws : list window) : gmap wkey item :=
  let st := plan_windows kn pstate0 0 ws in
  foldl (fun m '(key, it) => <[key := it]> m) (p_plan st) (moe_items (p_moe st)).

Definition make_plan (kn : knobs) (events : list event) : gmap wkey item := make_plan_ws kn (windows kn events).

(** ** Learning and replaying *)

Definition counts := (Z * Z * Z * Z)%type.

(** A learned shape: its collectives, its plan, what it was learned from. *)
Record entry := Entry { e_n : Z; e_plan : gmap wkey item; e_rec : list event; e_counts : counts }.

Record state := State {
  sig : option Z; idx : Z; lin : Z; eng : Z; moe : Z;
  learning : gmap Z (list event); plans : gmap Z entry; frozen : gset Z;
  pending : bool; pending2 : bool; forks : list (Z * wkey) }.

Definition set_counts (st : state) (i l e m : Z) : state :=
  State (sig st) i l e m (learning st) (plans st) (frozen st) (pending st) (pending2 st) (forks st).

Definition begin_forward (st : state) (s : Z) (capturing : bool) : state :=
  State (Some s) 0 0 0 0
        (if bool_decide (s ∈ frozen st) || capturing then learning st else <[s := []]> (learning st))
        (plans st) (frozen st) (pending st) (pending2 st) (forks st).

Definition rec (st : state) (ev : event) : state :=
  match sig st with
  | Some s =>
      match learning st !! s with
      | Some l => State (sig st) (idx st) (lin st) (eng st) (moe st) (<[s := l ++ [ev]]> (learning st))
                    (plans st) (frozen st) (pending st) (pending2 st) (forks st)
      | None => st
      end
  | None => st
  end.

Definition join (st : state) : state :=
  State (sig st) (idx st) (lin st) (eng st) (moe st) (learning st) (plans st) (frozen st) false (pending2 st) (forks st).

Definition fork (st : state) (s : Z) (key : wkey) (second : bool) : state :=
  State (sig st) (idx st) (lin st) (eng st) (moe st) (learning st) (plans st) (frozen st)
        (pending st || negb second) (pending2 st || second) (forks st ++ [(s, key)]).

(** Launch the window [key] of the current shape's plan, unless the forward has run past
    what was learned ([k] against the learned count of its kind). *)
Definition launch (st : state) (key : wkey) (second : bool) (count : entry -> Z) : state :=
  match sig st with
  | Some s =>
      match plans st !! s with
      | Some e =>
          if (count e <? key.2) || (e_n e <? idx st) then st
          else match e_plan e !! key with
               | Some _ => fork st s key second
               | None => st
               end
      | None => st
      end
  | None => st
  end.

Definition before_collective (st : state) (skip_ag : bool) : state :=
  match sig st with
  | None => st
  | Some _ =>
      let st1 := join st in
      let st2 := rec (set_counts st1 (idx st1 + 1) (lin st1) (eng st1) (moe st1)) (EvColl (idx st1 + 1)) in
      if skip_ag then st2 else launch st2 ("c", idx st2) false e_n
  end.

Definition after_linear (st : state) : state :=
  match sig st with
  | None => st
  | Some _ =>
      let st1 := rec (set_counts st (idx st) (lin st + 1) (eng st) (moe st)) (EvLinear (lin st + 1)) in
      launch st1 ("l", lin st1) true (fun e => (e_counts e).1.1.2)
  end.

Definition after_router (st : state) : state :=
  let st1 := rec (set_counts st (idx st) (lin st) (eng st) (moe st + 1)) (EvMoe (moe st + 1)) in
  launch st1 ("m", moe st1) true (fun e => (e_counts e).2).

Definition before_engram (st : state) (gate : bool) : state :=
  match sig st with
  | None => st
  | Some _ =>
      if negb gate then st
      else
        let st1 := rec (set_counts st (idx st) (lin st) (eng st + 1) (moe st)) (EvEngram (eng st + 1)) in
        launch st1 ("e", eng st1) true (fun e => (e_counts e).1.2)
  end.

Definition end_forward (kn : knobs) (st : state) (capturing : bool) : state :=
  match sig st with
  | None => State None (idx st) (lin st) (eng st) (moe st) (learning st) (plans st) (frozen st) false false (forks st)
  | Some s =>
      let learned := learning st !! s in
      let cs : counts := (idx st, lin st, eng st, moe st) in
      let fresh l := match plans st !! s with
                     | None => true
                     | Some old => negb (bool_decide (e_counts old = cs /\ e_rec old = l))
                     end in
      let plans' := match learned with
                    | Some l =>
                        if negb capturing && negb (idx st =? 0) && fresh l
                        then <[s := Entry (idx st) (make_plan kn l) l cs]> (plans st) else plans st
                    | None => plans st
                    end in
      State None (idx st) (lin st) (eng st) (moe st) (delete s (learning st)) plans'
            (if capturing then {[s]} ∪ frozen st else frozen st) false false (forks st)
  end.

(** What happens around one forward after another ([_bracket]: a forward inside another one,
    or one that is not decode-like, does nothing). *)
Inductive op :=
  | OpBegin (s : Z) (capturing : bool)
  | OpCollective (skip_ag : bool)
  | OpLinear
  | OpRouter
  | OpEngram (gate : bool)
  | OpWeight (ev : event)
  | OpEnd (kn : knobs) (capturing : bool).

Definition run_op (st : state) (o : op) : state :=
  match o with
  | OpBegin s capturing => match sig st with None => begin_forward st s capturing | Some _ => st end
  | OpCollective skip_ag => before_collective st skip_ag
  | OpLinear => after_linear st
  | OpRouter => after_router st
  | OpEngram gate => before_engram st gate
  | OpWeight ev => rec st ev
  | OpEnd kn capturing => match sig st with Some _ => end_forward kn st capturing | None => st end
  end.

Definition init_state : state := State None 0 0 0 0 ∅ ∅ ∅ false false [].

(** * Properties *)

Lemma land_not15 x : Z.land x (Z.lnot 15) = 16 * (x / 16).
Proof.
  rewrite <- Z.ldiff_land. change 15 with (Z.ones 4). rewrite Z.ldiff_ones_r by lia.
  rewrite Z.shiftl_mul_pow2, Z.shiftr_div_pow2 by lia. change (2 ^ 4) with 16. lia.
Qed.

Lemma land_not15_bounds x : 0 <= x -> 0 <= Z.land x (Z.lnot 15) <= x /\ x - Z.land x (Z.lnot 15) < 16.
Proof.
  intros Hx. rewrite land_not15. pose proof (Z.div_mod x 16 ltac:(lia)).
  pose proof (Z.mod_pos_bound x 16 ltac:(lia)). lia.
Qed.

(** Position [k] of a queue in bytes from its start. *)
Definition base (q : list qitem) (k : Z) : Z := zsum (map q_bytes (take (Z.to_nat k) q)).

(** Segments of a queue between two byte positions: each inside one weight, of whole 16-byte
    units, in order, none overlapping. *)
Inductive pieces (q : list qitem) : Z -> list seg -> Z -> Prop :=
  | pieces_nil lo hi : lo <= hi -> pieces q lo [] hi
  | pieces_cons lo k it off t segs hi :
      0 <= k -> q !! Z.to_nat k = Some it -> 0 <= off -> 0 < t -> t mod 16 = 0 -> off + t <= q_bytes it ->
      lo <= base q k + off -> pieces q (base q k + off + t) segs hi ->
      pieces q lo ((q_ptr it + off, t) :: segs) hi.

Lemma pieces_weaken q lo lo' segs hi hi' :
  pieces q lo segs hi -> lo' <= lo -> hi <= hi' -> pieces q lo' segs hi'.
Proof.
  intros H. revert lo'. induction H as [lo hi H|lo k it off t segs hi H1 H2 H3 H4 H5 H6 H7 H8 IH]; intros lo' Hlo Hhi.
  - apply pieces_nil. lia.
  - apply (pieces_cons q lo' k it off t segs); try done; [lia|]. apply IH; lia.
Qed.

Lemma pieces_app q lo a mid b hi : pieces q lo a mid -> pieces q mid b hi -> pieces q lo (a ++ b) hi.
Proof.
  intros Ha Hb. induction Ha as [lo mid Hle|lo k it off t segs mid H1 H2 H3 H4 H5 H6 H7 H8 IH]; simpl.
  - by eapply pieces_weaken.
  - apply (pieces_cons q lo k it off t); try done. by apply IH.
Qed.

Lemma seg_bytes_app a b : seg_bytes (a ++ b) = seg_bytes a + seg_bytes b.
Proof. unfold seg_bytes. by rewrite map_app, zsum_app. Qed.

Lemma base_S q k it : 0 <= k -> q !! Z.to_nat k = Some it -> base q (k + 1) = base q k + q_bytes it.
Proof.
  intros Hk H. unfold base. replace (Z.to_nat (k + 1)) with (S (Z.to_nat k)) by lia.
  rewrite (take_S_r _ _ _ H), map_app, zsum_app. simpl. lia.
Qed.

(** A position of a queue: an index with an offset inside the weight there. *)
Definition pos_ok (q : list qitem) (p : pos) : Prop :=
  0 <= p.1 <= zlen q /\ 0 <= p.2 /\
  match q !! Z.to_nat p.1 with Some it => p.2 <= q_bytes it | None => p.2 = 0 end.

Definition at_pos (q : list qitem) (p : pos) : Z := base q p.1 + p.2.

Lemma take_from_spec q i off left segs e :
  Forall (fun it => 0 <= q_bytes it) q -> pos_ok q (i, off) ->
  take_from (drop (Z.to_nat i) q) i off left = (segs, e) ->
  pieces q (at_pos q (i, off)) segs (at_pos q e) /\ pos_ok q e /\
  seg_bytes segs <= Z.max 0 left /\ (left - seg_bytes segs < 16 \/ e.1 = zlen q).
Proof.
  intros Hq. remember (drop (Z.to_nat i) q) as rest eqn:Hrest. revert i off left segs e Hrest.
  induction rest as [|it rest IH]; intros i off left segs e Hrest Hp; simpl.
  - intros [= <- <-]. split; [constructor; unfold at_pos; simpl; lia|]. split; [done|]. split; [unfold seg_bytes; simpl; lia|].
    right. simpl. destruct Hp as (Hi & _). symmetry in Hrest. apply (f_equal length) in Hrest.
    rewrite length_drop in Hrest. simpl in *. unfold zlen in *. lia.
  - destruct Hp as (Hi & Hoff & Hit). simpl in Hi, Hoff, Hit.
    assert (Hlk : q !! Z.to_nat i = Some it) by (rewrite <- (Nat.add_0_r (Z.to_nat i)), <- lookup_drop, <- Hrest; done).
    rewrite Hlk in Hit.
    destruct (left <? 16) eqn:E.
    { intros [= <- <-]. split; [constructor; unfold at_pos; simpl; lia|].
      split; [split; [done|]; split; [done|]; simpl; by rewrite Hlk|]. split; [unfold seg_bytes; simpl; lia|].
      left. unfold seg_bytes. simpl. lia. }
    pose (avail := q_bytes it - off). assert (Havail : avail = q_bytes it - off) by done.
    change (q_bytes it - off) with avail. clearbody avail. set (t := Z.land (Z.min avail left) (Z.lnot 15)).
    destruct (land_not15_bounds (Z.min avail left) ltac:(lia)) as [Ht1 Ht2]. fold t in Ht1, Ht2.
    assert (Hmod : t mod 16 = 0) by (unfold t; rewrite land_not15, Z.mul_comm; apply Z_mod_mult).
    clearbody t. set (out := if 0 <? t then [(q_ptr it + off, t)] else []).
    assert (Hout : pieces q (at_pos q (i, off)) out (at_pos q (i, off) + t) /\ seg_bytes out = t).
    { unfold out. destruct (0 <? t) eqn:Et.
      - split; [|unfold seg_bytes; simpl; lia]. apply (pieces_cons q _ i it off t []); try done; try lia.
        apply pieces_nil. unfold at_pos. simpl. apply Z.le_refl.
      - split; [constructor; lia|unfold seg_bytes; simpl; lia]. }
    destruct Hout as [Hout Hsum]. destruct (left <? avail) eqn:Ela.
    + intros [= <- <-]. split; [eapply pieces_weaken; [exact Hout|lia|unfold at_pos; simpl; lia]|].
      split; [split; [done|]; simpl; split; [lia|]; rewrite Hlk; lia|]. split; [lia|]. left. lia.
    + destruct (take_from rest (i + 1) 0 (left - t)) as [more e'] eqn:Er. intros [= <- <-].
      assert (Hrest' : rest = drop (Z.to_nat (i + 1)) q).
      { replace (Z.to_nat (i + 1)) with (Z.to_nat i + 1)%nat by lia. rewrite <- drop_drop, <- Hrest. done. }
      assert (Hp' : pos_ok q (i + 1, 0)).
      { split; [|split; [simpl; lia|]]; simpl.
        - apply lookup_lt_Some in Hlk. unfold zlen. lia.
        - destruct (q !! Z.to_nat (i + 1)) as [it'|] eqn:E'; [|done].
          rewrite Forall_forall in Hq. apply Hq. by eapply list_elem_of_lookup_2. }
      destruct (IH _ _ _ _ _ Hrest' Hp' Er) as (H1 & H2 & H3 & H4).
      rewrite seg_bytes_app, Hsum. split; [|split; [done|split; lia]].
      eapply pieces_app; [exact Hout|]. eapply pieces_weaken; [exact H1| |lia].
      unfold at_pos. simpl. rewrite (base_S q i it) by (done || lia). lia.
Qed.

(** ** Plans *)

Lemma take_q_spec q start budget segs e :
  Forall (fun it => 0 <= q_bytes it) q -> pos_ok q start -> take_q q start budget = (segs, e) ->
  pieces q (at_pos q start) segs (at_pos q e) /\ pos_ok q e /\
  seg_bytes segs <= Z.max 0 budget /\ (budget - seg_bytes segs < 16 \/ e.1 = zlen q).
Proof. destruct start as [i off]. apply take_from_spec. Qed.

Lemma pos_ok_start q : Forall (fun it => 0 <= q_bytes it) q -> pos_ok q (0, 0).
Proof.
  intros Hq. split; [simpl; pose proof (zlen_nonneg q); lia|]. split; [simpl; lia|]. simpl.
  destruct q as [|it q]; [done|]. by apply Forall_cons in Hq as [H _].
Qed.

Lemma at_pos_nonneg q p : Forall (fun it => 0 <= q_bytes it) q -> pos_ok q p -> 0 <= at_pos q p.
Proof.
  intros Hq (_ & Hp & _). unfold at_pos, base. assert (0 <= zsum (map q_bytes (take (Z.to_nat p.1) q))); [|lia].
  apply zsum_nonneg, Forall_fmap. by apply Forall_take.
Qed.

(** What a plan holds for a window. *)
Definition segs_of (m : gmap wkey item) (key : wkey) : list seg := from_option it_segs [] (m !! key).

(** A window's share of a plan: what it takes of its own queue after the part [prev] the
    window before it took, and what it takes of the next window's. *)
Definition share_ok (m : gmap wkey item) (w : window) (prev own more : list seg) : Prop :=
  segs_of m (w_key w) = own ++ more /\
  seg_bytes (own ++ more) <= Z.max 0 (w_budget w) /\
  (exists hi, pieces (w_queue w) 0 (prev ++ own) hi /\
     (w_budget w - seg_bytes own < 16 \/ hi >= base (w_queue w) (zlen (w_queue w)))) /\
  (w_ahead w = false -> more = []).

Lemma segs_of_set_plan st key segs start :
  p_plan st !! key = None -> segs_of (p_plan (set_plan st key segs start)) key = segs.
Proof.
  intros H. unfold segs_of, set_plan. destruct segs as [|x segs]; simpl; [by rewrite H|]. by rewrite lookup_insert_eq.
Qed.

Lemma set_plan_ne st key segs start key' :
  key' <> key -> p_plan (set_plan st key segs start) !! key' = p_plan st !! key'.
Proof. intros H. unfold set_plan. destruct segs; simpl; [done|]. by rewrite lookup_insert_ne. Qed.

(** One window that is neither a MoE mark nor split for wo_b. *)
Lemma plan_window_spec kn st j w rest prev st' :
  (w_key w).1 <> "m" -> k_wob_mb kn <= 0 -> p_cover st = ∅ -> p_plan st !! w_key w = None ->
  Forall (fun w => Forall (fun it => 0 <= q_bytes it) (w_queue w)) (w :: rest) ->
  pos_ok (w_queue w) (p_start st) -> pieces (w_queue w) 0 prev (at_pos (w_queue w) (p_start st)) ->
  plan_window kn st j w rest = st' ->
  p_cover st' = ∅ /\ p_moe st' = p_moe st /\ (forall key, key <> w_key w -> p_plan st' !! key = p_plan st !! key) /\
  exists own more, share_ok (p_plan st') w prev own more /\
    match rest with
    | w' :: _ => pos_ok (w_queue w') (p_start st') /\ pieces (w_queue w') 0 more (at_pos (w_queue w') (p_start st'))
    | [] => True
    end.
Proof.
  intros Hm Hwob Hcov Hnone Hbytes Hst Hprev <-. apply Forall_cons in Hbytes as [Hq Hrest].
  unfold plan_window. apply String.eqb_neq in Hm. rewrite Hm, Hcov, !lookup_empty.
  replace (0 <? k_wob_mb kn) with false by lia. rewrite andb_false_r.
  destruct (take_q (w_queue w) (p_start st) (w_budget w)) as [own e] eqn:Et.
  destruct (take_q_spec _ _ _ _ _ Hq Hst Et) as (P1 & P2 & P3 & P4).
  set (left := w_budget w - seg_bytes own) in *.
  assert (Hown : exists hi, pieces (w_queue w) 0 (prev ++ own) hi /\
            (w_budget w - seg_bytes own < 16 \/ hi >= base (w_queue w) (zlen (w_queue w)))).
  { exists (at_pos (w_queue w) e). split; [by eapply pieces_app|]. destruct P4 as [|He]; [by left|right].
    unfold at_pos. rewrite He. destruct P2 as (_ & ? & _). lia. }
  assert (Hplain : forall start, 
    share_ok (p_plan (set_plan st (w_key w) own start)) w prev own []).
  { intros start. unfold share_ok. rewrite segs_of_set_plan by done. rewrite app_nil_r. done. }
  assert (Hzero : match rest with
    | w' :: _ => pos_ok (w_queue w') (0, 0) /\ pieces (w_queue w') 0 [] (at_pos (w_queue w') (0, 0))
    | [] => True end).
  { destruct rest as [|w' rest']; [done|]. apply Forall_cons in Hrest as [Hq' _].
    split; [by apply pos_ok_start|]. apply pieces_nil. apply at_pos_nonneg; [done|]. by apply pos_ok_start. }
  destruct rest as [|w' rest'].
  { split; [done|]. split; [done|]. split; [intros; by apply set_plan_ne|]. by exists own, []. }
  apply Forall_cons in Hrest as [Hq' _]. simpl default.
  destruct (w_ahead w && (zlen (w_queue w) <=? e.1) && (16 <=? left)) eqn:Ea.
  - rewrite !andb_true_iff in Ea. destruct Ea as [[Ea _] Eleft].
    destruct (take_q (w_queue w') (0, 0) left) as [more start'] eqn:Et'.
    destruct (take_q_spec _ _ _ _ _ Hq' (pos_ok_start _ Hq') Et') as (Q1 & Q2 & Q3 & _).
    split; [done|]. split; [done|]. split; [intros; by apply set_plan_ne|]. exists own, more. split.
    + unfold share_ok. rewrite segs_of_set_plan by done. split; [done|]. rewrite seg_bytes_app.
      split; [lia|]. split; [done|]. by rewrite Ea.
    + simpl. split; [done|]. eapply pieces_weaken; [exact Q1|apply at_pos_nonneg; [done|by apply pos_ok_start]|lia].
  - split; [done|]. split; [done|]. split; [intros; by apply set_plan_ne|]. by exists own, [].
Qed.

Lemma plan_windows_spec kn ws : forall st j prev,
  Forall (fun w => (w_key w).1 <> "m") ws -> k_wob_mb kn <= 0 -> NoDup (map w_key ws) ->
  Forall (fun w => Forall (fun it => 0 <= q_bytes it) (w_queue w)) ws ->
  p_cover st = ∅ -> (forall w, w ∈ ws -> p_plan st !! w_key w = None) ->
  match ws with
  | w :: _ => pos_ok (w_queue w) (p_start st) /\ pieces (w_queue w) 0 prev (at_pos (w_queue w) (p_start st))
  | [] => True
  end ->
  let st' := plan_windows kn st j ws in
  p_moe st' = p_moe st /\
  (forall key, key ∉ map w_key ws -> p_plan st' !! key = p_plan st !! key) /\
  exists own more : nat -> list seg, forall i w, ws !! i = Some w ->
    share_ok (p_plan st') w (match i with O => prev | S i' => more i' end) (own i) (more i).
Proof.
  induction ws as [|w ws IH]; intros st j prev Hm Hwob Hnd Hq Hcov Hnone Hprev; simpl.
  { split; [done|]. split; [done|]. exists (fun _ => []), (fun _ => []). intros i w Hi. done. }
  apply Forall_cons in Hm as [Hm1 Hm]. apply NoDup_cons in Hnd as [Hnd1 Hnd]. destruct Hprev as [Hp1 Hp2].
  destruct (plan_window_spec kn st j w ws prev _ Hm1 Hwob Hcov ltac:(apply Hnone; left) Hq Hp1 Hp2 eq_refl)
    as (Hcov1 & Hmoe1 & Hother1 & own0 & more0 & Hshare0 & Hnext).
  set (st1 := plan_window kn st j w ws) in *. apply Forall_cons in Hq as [_ Hq].
  destruct (IH st1 (S j) more0 Hm Hwob Hnd Hq Hcov1) as (Hmoe & Hother & own & more & Hshares).
  { intros w' Hw'. rewrite Hother1; [apply Hnone; by right|]. intros E. apply Hnd1. rewrite <- E.
    by apply list_elem_of_fmap_2. }
  { exact Hnext. }
  split; [by rewrite Hmoe|]. split.
  { intros key Hkey. rewrite not_elem_of_cons in Hkey. destruct Hkey as [Hk1 Hk2]. by rewrite Hother, Hother1. }
  exists (fun i => match i with O => own0 | S i' => own i' end), (fun i => match i with O => more0 | S i' => more i' end).
  intros [|i] w' Hi; simpl in Hi.
  - injection Hi as <-. destruct Hshare0 as (S1 & S2 & S3 & S4). unfold share_ok.
    split; [|done]. rewrite <- S1. unfold segs_of. by rewrite Hother.
  - by destruct i; apply (Hshares _ _ Hi).
Qed.


(** Two collectives, a linear and its wo_a window, with look-ahead. *)
Definition ex_knobs : knobs := Knobs true true false 100 100 100 64 0 512.
Definition ex_events : list event :=
  [EvColl 1; EvRead 1000 40 (Some 256); EvRead 2000 70 None; EvLinear 1; EvWoa 3000 50; EvColl 2; EvRead 4000 300 (Some 4096)].


(** ** Learning *)

(** Only the running forward's shape is being learned, and no frozen one; a learned shape saw a
    collective, and its plan is the plan of the events it was learned from. *)
Definition learn_inv (st : state) : Prop :=
  0 <= idx st /\
  (forall s l, learning st !! s = Some l -> sig st = Some s /\ s ∉ frozen st) /\
  (forall s e, plans st !! s = Some e -> 0 < e_n e /\ exists kn, e_plan e = make_plan kn (e_rec e)).

Lemma rec_other st ev :
  sig (rec st ev) = sig st /\ idx (rec st ev) = idx st /\ plans (rec st ev) = plans st /\
  frozen (rec st ev) = frozen st /\ forks (rec st ev) = forks st /\
  (forall s, is_Some (learning (rec st ev) !! s) -> is_Some (learning st !! s)).
Proof.
  unfold rec. destruct (sig st) as [s|] eqn:Es; [|repeat split; done].
  destruct (learning st !! s) as [l|] eqn:El; [|repeat split; done].
  simpl. repeat split; try done. intros s'. destruct (decide (s' = s)) as [->|Hne]; [by rewrite El|].
  by rewrite lookup_insert_ne.
Qed.

(** What launching a window leaves unchanged, and when it forks. *)
Lemma launch_spec st key second count :
  let st' := launch st key second count in
  sig st' = sig st /\ idx st' = idx st /\ learning st' = learning st /\ plans st' = plans st /\
  frozen st' = frozen st /\
  (forks st' = forks st \/
   exists s e, sig st = Some s /\ plans st !! s = Some e /\ is_Some (e_plan e !! key) /\ idx st <= e_n e /\
     key.2 <= count e /\ forks st' = forks st ++ [(s, key)]).
Proof.
  unfold launch. destruct (sig st) as [s|] eqn:Es; [|by repeat split; auto].
  destruct (plans st !! s) as [e|] eqn:Ep; [|by repeat split; auto].
  destruct (_ || _) eqn:E; [by repeat split; auto|]. apply orb_false_iff in E as [E1 E2].
  destruct (e_plan e !! key) as [it|] eqn:Ei; [|by repeat split; auto].
  simpl. rewrite Es. repeat split; try done. right. exists s, e. repeat split; try done; lia.
Qed.

Lemma learn_inv_same st st' :
  learn_inv st -> 0 <= idx st' -> sig st' = sig st -> plans st' = plans st -> frozen st' = frozen st ->
  (forall s, is_Some (learning st' !! s) -> is_Some (learning st !! s)) -> learn_inv st'.
Proof.
  intros (_ & Hl & Hp) Hi Hs Hpl Hf Hle. split; [done|]. rewrite Hs, Hpl, Hf. split; [|done].
  intros s l Hsl. destruct (Hle s ltac:(by exists l)) as [l' Hl']. by apply (Hl s l').
Qed.

(** One event of a forward: nothing learned or frozen changes, and a fork is a window of the
    current shape's plan, within the learned collectives. *)
Definition forks_plan (st st' : state) : Prop :=
  forks st' = forks st \/
  exists s e key, sig st = Some s /\ plans st !! s = Some e /\ is_Some (e_plan e !! key) /\ idx st' <= e_n e /\
    forks st' = forks st ++ [(s, key)].

Definition same_learned (st st' : state) : Prop :=
  sig st' = sig st /\ plans st' = plans st /\ frozen st' = frozen st /\
  (forall s, is_Some (learning st' !! s) -> is_Some (learning st !! s)).

(** Counting, recording and launching, the body of every hook. *)
Lemma hook_spec st i l e m ev key second count :
  let st1 := rec (set_counts st i l e m) ev in
  let st2 := launch st1 key second count in
  idx st1 = i /\ idx st2 = i /\ same_learned st st1 /\ same_learned st st2 /\ forks st1 = forks st /\ forks_plan st st2.
Proof.
  intros st1 st2. destruct (rec_other (set_counts st i l e m) ev) as (R1 & R2 & R3 & R4 & R5 & R6).
  fold st1 in R1, R2, R3, R4, R5, R6. destruct (launch_spec st1 key second count) as (L1 & L2 & L3 & L4 & L5 & L6).
  fold st2 in L1, L2, L3, L4, L5, L6. simpl in *.
  assert (S1 : same_learned st st1) by (by repeat split).
  split; [done|]. split; [by rewrite L2|]. split; [done|]. split.
  { split; [by rewrite L1|]. split; [by rewrite L4|]. split; [by rewrite L5|]. intros s. rewrite L3. apply R6. }
  split; [done|]. unfold forks_plan. rewrite L2, R2. destruct L6 as [->|(s & en & H1 & H2 & H3 & H4 & _ & ->)].
  - by left.
  - right. exists s, en, key. rewrite R5. rewrite R1 in H1. rewrite R3 in H2. repeat split; try done. lia.
Qed.

Lemma run_op_event st o :
  match o with OpBegin _ _ | OpEnd _ _ => True | _ =>
    same_learned st (run_op st o) /\ idx st <= idx (run_op st o) /\ forks_plan st (run_op st o)
  end.
Proof.
  assert (Hrefl : same_learned st st /\ idx st <= idx st /\ forks_plan st st)
    by (split; [by repeat split|split; [lia|by left]]).
  destruct o as [|skip_ag| | |gate|ev|]; simpl; try done.
  - unfold before_collective. destruct (sig st) as [s|] eqn:Es; [|done].
    destruct (hook_spec (join st) (idx st + 1) (lin st) (eng st) (moe st) (EvColl (idx st + 1)) ("c", idx st + 1) false e_n)
      as (H1 & H2 & H3 & H4 & H5 & H6). simpl in *.
    destruct skip_ag.
    + split; [exact H3|]. split; [lia|]. left. exact H5.
    + rewrite H1. split; [exact H4|]. split; [lia|]. exact H6.
  - unfold after_linear. destruct (sig st) as [s|] eqn:Es; [|done].
    destruct (hook_spec st (idx st) (lin st + 1) (eng st) (moe st) (EvLinear (lin st + 1))
                ("l", lin (rec (set_counts st (idx st) (lin st + 1) (eng st) (moe st)) (EvLinear (lin st + 1)))) true
                (fun e => (e_counts e).1.1.2)) as (H1 & H2 & H3 & H4 & H5 & H6).
    split; [exact H4|]. split; [lia|]. exact H6.
  - unfold after_router.
    destruct (hook_spec st (idx st) (lin st) (eng st) (moe st + 1) (EvMoe (moe st + 1))
                ("m", moe (rec (set_counts st (idx st) (lin st) (eng st) (moe st + 1)) (EvMoe (moe st + 1)))) true
                (fun e => (e_counts e).2)) as (H1 & H2 & H3 & H4 & H5 & H6).
    split; [exact H4|]. split; [lia|]. exact H6.
  - unfold before_engram. destruct (sig st) as [s|] eqn:Es; [|done]. destruct gate; simpl; [|done].
    destruct (hook_spec st (idx st) (lin st) (eng st + 1) (moe st) (EvEngram (eng st + 1))
                ("e", eng (rec (set_counts st (idx st) (lin st) (eng st + 1) (moe st)) (EvEngram (eng st + 1)))) true
                (fun e => (e_counts e).1.2)) as (H1 & H2 & H3 & H4 & H5 & H6).
    split; [exact H4|]. split; [lia|]. exact H6.
  - destruct (rec_other st ev) as (R1 & R2 & R3 & R4 & R5 & R6). split; [by repeat split|]. split; [lia|by left].
Qed.

Lemma begin_inv st s capturing : learn_inv st -> sig st = None -> learn_inv (begin_forward st s capturing).
Proof.
  intros (Hi & Hl & Hp) Hs. split; [done|]. split; [|done]. simpl. intros s' l.
  assert (Hnone : learning st !! s' = None).
  { destruct (learning st !! s') as [l'|] eqn:E; [|done]. destruct (Hl s' l' E). congruence. }
  destruct (bool_decide (s ∈ frozen st) || capturing) eqn:E; [by rewrite Hnone|].
  apply orb_false_iff in E as [E _]. apply bool_decide_eq_false in E.
  destruct (decide (s' = s)) as [->|Hne]; [done|]. rewrite lookup_insert_ne by congruence. by rewrite Hnone.
Qed.

(** The end of a forward: nothing stays in learning; a learned plan replaces an earlier one of a
    shape that is not frozen. *)
Lemma end_spec kn st s capturing :
  learn_inv st -> sig st = Some s ->
  learn_inv (end_forward kn st capturing) /\ frozen st ⊆ frozen (end_forward kn st capturing) /\
  (forall s', s' ∈ frozen st -> plans (end_forward kn st capturing) !! s' = plans st !! s') /\
  forks (end_forward kn st capturing) = forks st.
Proof.
  intros (Hi & Hl & Hp) Hs. unfold end_forward. rewrite Hs. simpl.
  assert (Hnone : forall s' l, delete s (learning st) !! s' = Some l -> False).
  { intros s' l [Hne H]%lookup_delete_Some. destruct (Hl s' l H) as [H' _]. congruence. }
  split; [|split; [|split; [|done]]].
  - split; [done|]. split; [intros s' l H; by destruct (Hnone s' l H)|]. simpl.
    destruct (learning st !! s) as [l|]; [|done]. destruct (_ && _) eqn:E; [|done].
    intros s' e. destruct (decide (s' = s)) as [->|Hne]; [|rewrite lookup_insert_ne by congruence; apply Hp].
    rewrite lookup_insert_eq. intros [= <-]. simpl. rewrite !andb_true_iff in E. split; [lia|]. by exists kn.
  - destruct capturing; set_solver.
  - intros s' Hs'. destruct (learning st !! s) as [l|] eqn:El; [|done]. destruct (_ && _); [|done].
    destruct (Hl s l El) as [_ Hfr]. rewrite lookup_insert_ne; [done|]. congruence.
Qed.

(** In every run of forwards: once a shape was captured its plan never changes again, a
    plan is the plan of a recorded forward that saw a collective, and every prefetch launched
    is a window of the current shape's plan, no further than the collectives it learned. *)
Theorem captured_plans_stable ops :
  let st := foldl run_op init_state ops in
  (forall s e, plans st !! s = Some e -> 0 < e_n e /\ exists kn, e_plan e = make_plan kn (e_rec e)) /\
  forall o, frozen st ⊆ frozen (run_op st o) /\
    (forall s, s ∈ frozen st -> plans (run_op st o) !! s = plans st !! s) /\
    forks_plan st (run_op st o).
Proof.
  intros st. assert (Hstep : forall st o, learn_inv st ->
    learn_inv (run_op st o) /\ frozen st ⊆ frozen (run_op st o) /\
    (forall s, s ∈ frozen st -> plans (run_op st o) !! s = plans st !! s) /\ forks_plan st (run_op st o)).
  { clear st. intros st o Hinv. pose proof (run_op_event st o) as Hev.
    destruct o; try (destruct Hev as ((E1 & E2 & E3 & E4) & E5 & E6); split;
      [destruct Hinv as (Hi & Hrest); apply (learn_inv_same st); try done; lia|];
      rewrite E2, E3; split; [done|split; [done|exact E6]]).
    - simpl. destruct (sig st) as [s'|] eqn:Es; [split; [done|split; [done|split; [done|by left]]]|].
      split; [by apply begin_inv|]. split; [done|]. split; [done|]. by left.
    - simpl. destruct (sig st) as [s'|] eqn:Es; [|split; [done|split; [done|split; [done|by left]]]].
      destruct (end_spec kn st s' capturing Hinv Es) as (H1 & H2 & H3 & H4).
      split; [done|]. split; [done|]. split; [done|]. by left. }
  assert (Hinv : learn_inv st).
  { unfold st. assert (H0 : learn_inv init_state) by (split; [done|]; split; intros ? ? H; simpl in H; by rewrite lookup_empty in H).
    revert H0. generalize init_state. induction ops as [|o ops IH]; intros st0 H0; simpl; [done|].
    apply IH. by apply Hstep. }
  split; [apply Hinv|]. intros o. by apply Hstep.
Qed.

Lemma captured_plans_stable_witness :
  let ops := [OpBegin 7 false; OpCollective false; OpWeight (EvRead 1000 40 None); OpEnd ex_knobs false;
              OpBegin 7 true; OpCollective false; OpEnd ex_knobs true] in
  let st := foldl run_op init_state ops in
  forks st = [(7, ("c", 1))] /\ 7 ∈ frozen st /\
  plans (run_op st (OpBegin 7 false)) !! 7 = plans st !! 7.
Proof.
  intros ops st. split; [vm_compute; reflexivity|].
  assert (Hin : 7 ∈ frozen st) by (apply (bool_decide_unpack _); vm_compute; exact I). split; [exact Hin|].
  destruct (proj2 (captured_plans_stable ops) (OpBegin 7 false)) as (_ & H & _). apply H. exact Hin.
Defined.
