(* ===== verification/AbVariant.v ===== *)
(** * In-boot A/B variants: flags and graph sets (adapter/ab_variant.py)

    The flag side of the harness: the variant specifications, the configuration with
    its refusals and the union of the gates read at install time, the reads an
    adapter makes through [env]; and the graph side: one set of CUDA graphs per
    variant, captured with that variant current, replayed by the runtime variant.
    [os.environ] is a finite map.  [float()] and the comparison of its results, the
    JSON text of the base values and SHA-256 are parameters; the graph debug dumps,
    the log lines and the import hooks are not modelled. *)
From Stdlib Require Import Ascii.
From stdpp Require Import pretty.
From S2P Require Import Prelude PyStr.
#[local] Open Scope string_scope.
#[local] Open Scope list_scope.
#[local] Open Scope Z_scope.

(** ** The registry *)

Definition UNION_BOOL : list string :=
  ["DSV41_L2_PREFETCH"; "DSV41_L2_PREFETCH_WOA"; "DSV41_L2_PREFETCH_DRAFT";
   "DSV41_L2_PREFETCH_ENGRAM"; "DSV41_L2_PREFETCH_LMHEAD"; "DSV41_CERT_HEAD";
   "DSV41_MOE_LAUNCH_PREPARED"].

Definition UNION_PARTS : list (string * list string) :=
  [("DSV41_FUSE_QUANT", ["qnorm"; "wo_a"; "hcpad"]);
   ("DSV41_SPEC_SYNC_FREE", ["draft"; "accept"; "vcap"; "merge"]);
   ("DSV41_EAGER_GLUE", ["fence"; "stage"; "vcap"; "vcapk"; "tvglue"; "dglue"])].

Definition RUNTIME : list string :=
  ["DSV41_L2_PREFETCH_AHEAD"; "DSV41_L2_PREFETCH_MB"; "DSV41_L2_PREFETCH_WOA_MB";
   "DSV41_L2_PREFETCH_ENGRAM_MB"; "DSV41_L2_PREFETCH_AG"; "DSV41_L2_PREFETCH_SKIP_N";
   "DSV41_L2_PREFETCH_WOB_MB"; "DSV41_L2_PREFETCH_MOE"; "DSV41_L2_PREFETCH_MOE_MB";
   "DSV41_ROCE_TWOSHOT_ROWS"; "DSV41_INDEXER_NOSYNC"; "DSV41_BLOCK_VERIFY_FOLD"].

Definition KNOWN : list string := UNION_BOOL ++ map fst UNION_PARTS ++ RUNTIME.

Definition MB_DEFAULTS : list (string * Z) :=
  [("DSV41_L2_PREFETCH_MB", 6); ("DSV41_L2_PREFETCH_WOA_MB", 6);
   ("DSV41_L2_PREFETCH_ENGRAM_MB", 12); ("DSV41_L2_PREFETCH_SKIP_N", 0);
   ("DSV41_L2_PREFETCH_WOB_MB", 0); ("DSV41_L2_PREFETCH_MOE_MB", 10)].

Definition OFF : list string := [""; "0"; "off"; "false"; "no"].

(** A dict's lookup in a literal table. *)
Fixpoint assoc {A} (k : string) (l : list (string * A)) : option A :=
  match l with
  | [] => None
  | (k', v) :: l' => if String.eqb k k' then Some v else assoc k l'
  end.

(** [sorted] on strings: by code points. *)
Fixpoint insert_sorted (s : string) (l : list string) : list string :=
  match l with
  | [] => [s]
  | t :: l' => if String.leb s t then s :: l else t :: insert_sorted s l'
  end.

Definition sort_strings (l : list string) : list string := foldr insert_sorted [] l.

(** ** Values *)

Definition truthy (value : option string) : bool :=
  match value with
  | None => false
  | Some v => negb (one_of (lower (strip v)) OFF)
  end.

(** [re.split(r"[;\s]+", s)]: the first part is the one being read. *)
Fixpoint re_split (in_sep : bool) (s : string) : list string :=
  match s with
  | "" => [""]
  | String c s' =>
      if is_space c || Ascii.eqb c ";" then
        if in_sep then re_split true s' else "" :: re_split true s'
      else match re_split false s' with
           | p :: ps => String c p :: ps
           | [] => [String c ""]
           end
  end.

(** One item of a specification added to [out]. *)
Definition parse_item (out : gmap string string) (item : string) : res (gmap string string) :=
  if String.eqb item "" then Ok out
  else match split1 "=" item with
       | None => Raise RuntimeError
       | Some (key, value) =>
           let key := strip key in
           if negb (one_of key KNOWN) then Raise RuntimeError
           else Ok (<[key := strip value]> out)
       end.

Definition parse_spec (text : string) : res (gmap string string) :=
  fold_left (fun r item => match r with Ok out => parse_item out item | Raise e => Raise e end)
    (re_split false (strip text)) (Ok ∅).

(** [value or "0"]. *)
Definition or_zero (value : option string) : string :=
  match value with None => "0" | Some v => if String.eqb v "" then "0" else v end.

Definition parse_parts (value : option string) (all_parts : list string)
    : res (gset string) :=
  let raw := lower (strip (or_zero value)) in
  if one_of raw OFF then Ok ∅
  else if one_of raw ["1"; "on"; "true"; "all"] then Ok (list_to_set all_parts)
  else
    let parts : gset string :=
      list_to_set (filter (fun p => negb (String.eqb p "")) (map strip (split_all "," raw))) in
    let bad := parts ∖ list_to_set all_parts in
    if bool_decide (bad = ∅) then Ok parts else Raise RuntimeError.

Definition fold_value (value : option string) : res string :=
  let v := lower (strip (or_zero value)) in
  if one_of v OFF then Ok "off"
  else if String.eqb v "check" then Ok "check"
  else if one_of v ["1"; "on"; "true"; "yes"] then Ok "on"
  else Raise RuntimeError.

(** [s.replace(" ", "")]. *)
Fixpoint no_blanks (s : string) : string :=
  match s with
  | "" => ""
  | String c s' => if Ascii.eqb c " " then no_blanks s' else String c (no_blanks s')
  end.

(** [f"{i}"] for a variant number. *)
Definition num (i : nat) : string := pretty (N.of_nat i).

(** What a variant's value of a key means to the adapters. *)
Inductive nval (flt : Type) :=
  | NNone
  | NParts (p : gset string)
  | NFloat (f : flt)
  | NBool (b : bool)
  | NInt (z : Z)
  | NStr (s : string).
Arguments NNone {flt}.
Arguments NParts {flt} _.
Arguments NFloat {flt} _.
Arguments NBool {flt} _.
Arguments NInt {flt} _.
Arguments NStr {flt} _.

(** [os.environ], and the base values ([None] for a variable that was not set). *)
#[local] Abbreviation envmap := (gmap string string).
#[local] Abbreviation basemap := (gmap string (option string)).

(** [s.get(k, base.get(k))]. *)
Definition value_of (s : gmap string string) (base : basemap) (k : string) : option string :=
  match s !! k with Some v => Some v | None => mjoin (base !! k) end.

(** [environ.get(k, "")]. *)
Definition get_empty (env : envmap) (k : string) : string :=
  match env !! k with Some v => v | None => "" end.

(** ** Configuration *)

(** The module's globals. *)
Record module (flt : Type) := Module_ {
  ACTIVE : bool;
  N : nat;
  specs : list (gmap string string);
  base : basemap;
  runtime : nat;
  capture : option nat;
  FILE : string;
  POLL_S : flt;
  MAX_BS : option Z;
  START_NS : Z;
  REVERSE : bool;
  DUMP_DIR : option string;
  DUMP_SIZES : gset Z;
  CONFIG_HASH : string }.
Arguments Module_ {flt} _ _ _ _ _ _ _ _ _ _ _ _ _ _.
Arguments ACTIVE {flt} _.
Arguments N {flt} _.
Arguments specs {flt} _.
Arguments base {flt} _.
Arguments runtime {flt} _.
Arguments capture {flt} _.
Arguments FILE {flt} _.
Arguments POLL_S {flt} _.
Arguments MAX_BS {flt} _.
Arguments START_NS {flt} _.
Arguments REVERSE {flt} _.
Arguments DUMP_DIR {flt} _.
Arguments DUMP_SIZES {flt} _.
Arguments CONFIG_HASH {flt} _.

(** What the checks of [configure] leave before anything is changed. *)
Record plan (flt : Type) := Plan {
  p_n : nat;
  p_specs : list (gmap string string);
  p_base : basemap;
  p_max_bs : option Z;
  p_poll_s : flt;
  p_flag : string;
  p_reverse : bool }.
Arguments Plan {flt} _ _ _ _ _ _ _.
Arguments p_n {flt} _.
Arguments p_specs {flt} _.
Arguments p_base {flt} _.
Arguments p_max_bs {flt} _.
Arguments p_poll_s {flt} _.
Arguments p_flag {flt} _.
Arguments p_reverse {flt} _.

Section Configure.
Context {flt : Type} (py_float : string -> res flt) (flt_of : Z -> flt)
  (flt_eqb : flt -> flt -> bool).
Context (json_loads : string -> res basemap) (json_dumps : basemap -> string).
Context (config_hash : nat -> list (gmap string string) -> basemap -> option Z -> bool -> string).

Definition norm_key (cfg : string -> option string) (key : string) : res (nval flt) :=
  let value := cfg key in
  let l2 := truthy (cfg "DSV41_L2_PREFETCH") in
  if startswith "DSV41_L2_PREFETCH_" key && negb l2 then Ok NNone
  else match assoc key UNION_PARTS with
  | Some all_parts => NParts <$> parse_parts value all_parts
  | None =>
  match assoc key MB_DEFAULTS with
  | Some d =>
      match value with
      | None => Ok (NFloat (flt_of d))
      | Some v => if String.eqb v "" then Ok (NFloat (flt_of d)) else NFloat <$> py_float v
      end
  | None =>
  if String.eqb key "DSV41_L2_PREFETCH_AG" then
    Ok (NBool (match value with None => true | Some v => negb (String.eqb (strip v) "0") end))
  else if String.eqb key "DSV41_ROCE_TWOSHOT_ROWS" then
    match value with
    | None => Ok (NInt 0)
    | Some v => if String.eqb (strip v) "" then Ok (NInt 0) else NInt <$> py_int v
    end
  else if String.eqb key "DSV41_CERT_HEAD" then
    let v := lower (strip (or_zero value)) in
    Ok (NStr (if one_of v OFF then "0" else if String.eqb v "check" then "check" else "1"))
  else if String.eqb key "DSV41_MOE_LAUNCH_PREPARED" then
    let v := no_blanks (lower (strip (or_zero value))) in
    Ok (NStr (if one_of v OFF then "off"
              else if contains "direct" v then "plan,direct" else "plan"))
  else if String.eqb key "DSV41_BLOCK_VERIFY_FOLD" then NStr <$> fold_value value
  else Ok (NBool (truthy value))
  end end.

Definition norm (cfg : string -> option string) : res (list (nval flt)) :=
  mapR (norm_key cfg) (sort_strings KNOWN).

Definition nval_eqb (a b : nval flt) : bool :=
  match a, b with
  | NNone, NNone => true
  | NParts p, NParts q => bool_decide (p = q)
  | NFloat f, NFloat g => flt_eqb f g
  | NBool x, NBool y => Bool.eqb x y
  | NInt x, NInt y => x =? y
  | NStr s, NStr t => String.eqb s t
  | _, _ => false
  end.

Fixpoint eff_eqb (a b : list (nval flt)) : bool :=
  match a, b with
  | [], [] => true
  | x :: a', y :: b' => nval_eqb x y && eff_eqb a' b'
  | _, _ => false
  end.

(** [re.fullmatch(r"DSV41_AB_V\d+", k) and int(k[10:]) >= n]. *)
Definition extra_key (n : Z) (k : string) : bool :=
  match after_prefix "DSV41_AB_V" k with
  | Some rest => isdigit rest && match py_int rest with Ok i => n <=? i | Raise _ => false end
  | None => false
  end.

Definition extra_keys (env : envmap) (n : Z) : list string :=
  filter (fun k => extra_key n k) (map fst (map_to_list env)).

Definition read_specs (env : envmap) (n : nat) : res (list (gmap string string)) :=
  mapR (fun i => parse_spec (get_empty env ("DSV41_AB_V" +:+ num i))) (seq 0 n).

Definition read_base (env : envmap) : res basemap :=
  match env !! "DSV41_AB_BASE" with
  | Some text => json_loads text
  | None => Ok (list_to_map (map (fun k => (k, env !! k)) (sort_strings KNOWN)))
  end.

(** Some two of the effective configurations are equal. *)
Fixpoint has_same (effs : list (list (nval flt))) : bool :=
  match effs with
  | [] => false
  | e :: rest => existsb (eff_eqb e) rest || has_same rest
  end.

(** [configure] up to the first change it makes; [None]: not armed. *)
Definition check_config (env : envmap) : res (option (plan flt)) :=
  let raw_n := strip (get_empty env "DSV41_AB_VARIANTS") in
  n ← (if String.eqb raw_n "" then Ok 1 else py_int raw_n);
  if n <? 2 then Ok None
  else if 8 <? n then Raise RuntimeError
  else if negb (bool_decide (extra_keys env n = [])) then Raise RuntimeError
  else
    sp ← read_specs env (Z.to_nat n);
    b ← read_base env;
    effs ← mapR (fun s => norm (value_of s b)) sp;
    if has_same effs && negb (truthy (env !! "DSV41_AB_ALLOW_AA")) then Raise RuntimeError
    else
      let raw_bs := strip (get_empty env "DSV41_AB_MAX_BS") in
      max_bs ← (if String.eqb raw_bs "" then Ok None else Some <$> py_int raw_bs);
      poll ← py_float (match env !! "DSV41_AB_POLL_S" with Some v => v | None => "0.5" end);
      let raw_f := strip (get_empty env "DSV41_AB_FILE") in
      let flag := if String.eqb raw_f "" then "/state/ab_variant" else raw_f in
      let rev := String.eqb (lower (strip (get_empty env "DSV41_AB_CAPTURE_ORDER"))) "reverse" in
      Ok (Some (Plan (Z.to_nat n) sp b max_bs poll flag rev)).

(** The union of the install-time gates. *)
Definition union_bool (sp : list (gmap string string)) (b : basemap) (env : envmap) (key : string)
    : envmap :=
  if existsb (fun s => truthy (value_of s b key)) sp then <[key := "1"]> env else env.

Fixpoint parts_union (sp : list (gmap string string)) (b : basemap) (key : string)
    (all_parts : list string) : res (gset string) :=
  match sp with
  | [] => Ok ∅
  | s :: sp' =>
      match parse_parts (value_of s b key) all_parts with
      | Raise e => Raise e
      | Ok p => match parts_union sp' b key all_parts with
                | Raise e => Raise e
                | Ok u => Ok (p ∪ u)
                end
      end
  end.

(** [",".join(l)]. *)
Fixpoint join_comma (l : list string) : string :=
  match l with
  | [] => ""
  | [s] => s
  | s :: l' => s +:+ "," +:+ join_comma l'
  end.

Definition union_parts (sp : list (gmap string string)) (b : basemap) (r : res envmap)
    (entry : string * list string) : res envmap :=
  let '(key, all_parts) := entry in
  match r with
  | Raise e => Raise e
  | Ok env =>
      match parts_union sp b key all_parts with
      | Raise e => Raise e
      | Ok u =>
          if bool_decide (u = ∅) then Ok env
          else Ok (<[key := if bool_decide (u = list_to_set all_parts) then "1"
                            else join_comma (filter (fun p => bool_decide (p ∈ u)) all_parts)]> env)
      end
  end.

Definition union_env (sp : list (gmap string string)) (b : basemap) (env : envmap) : res envmap :=
  let env1 := match env !! "DSV41_AB_BASE" with
              | Some _ => env
              | None => <["DSV41_AB_BASE" := json_dumps b]> env
              end in
  fold_left (union_parts sp b) UNION_PARTS (Ok (fold_left (union_bool sp b) UNION_BOOL env1)).

(** [DSV41_AB_DUMP_SIZES], parsed last. *)
Definition dump_sizes (env : envmap) : res (gset Z) :=
  let text := match env !! "DSV41_AB_DUMP_SIZES" with Some v => v | None => "1" end in
  sizes ← mapR py_int (filter (fun x => negb (String.eqb (strip x) "")) (split_all "," text));
  Ok (list_to_set sizes).

(** [configure(environ)] at time [now]: the module, the environment and what it returns. *)
Definition configure (now : Z) (m : module flt) (env : envmap)
    : module flt * envmap * res bool :=
  match check_config env with
  | Raise e => (m, env, Raise e)
  | Ok None =>
      (Module_ false 1 [∅] ∅ (runtime m) (capture m) (FILE m) (POLL_S m) (MAX_BS m) (START_NS m)
         (REVERSE m) (DUMP_DIR m) (DUMP_SIZES m) (CONFIG_HASH m), env, Ok false)
  | Ok (Some p) =>
      match union_env (p_specs p) (p_base p) env with
      | Raise e => (m, env, Raise e)
      | Ok env' =>
          let raw_d := strip (get_empty env' "DSV41_AB_DUMP_DIR") in
          let dir := if String.eqb raw_d "" then None else Some raw_d in
          let armed sizes hash :=
            Module_ true (p_n p) (p_specs p) (p_base p) 0 None (p_flag p) (p_poll_s p) (p_max_bs p)
              now (p_reverse p) dir sizes hash in
          match dump_sizes env' with
          | Raise e => (armed (DUMP_SIZES m) (CONFIG_HASH m), env', Raise e)
          | Ok sizes =>
              (armed sizes
                 (config_hash (p_n p) (p_specs p) (p_base p) (p_max_bs p) (p_reverse p)), env', Ok true)
          end
      end
  end.

(** ** Flag reads *)

Definition current (m : module flt) : nat :=
  match capture m with Some v => v | None => runtime m end.

Definition env_for (m : module flt) (variant : nat) (name : string) (default : option string)
    : res (option string) :=
  match specs m !! variant with
  | None => Raise IndexError
  | Some spec =>
      Ok (match spec !! name with
          | Some v => Some v
          | None => match mjoin (base m !! name) with Some v => Some v | None => default end
          end)
  end.

Definition env (os : envmap) (m : module flt) (name : string) (default : option string)
    : res (option string) :=
  if negb (ACTIVE m) || negb (one_of name KNOWN) then
    Ok (match os !! name with Some v => Some v | None => default end)
  else env_for m (current m) name default.

(** [parts(name, all_parts)] with its cache, keyed by the name and the value. *)
Definition parts (os : envmap) (m : module flt) (cache : gmap (string * option string) (gset string))
    (name : string) (all_parts : list string)
    : gmap (string * option string) (gset string) * res (gset string) :=
  match env os m name (Some "0") with
  | Raise e => (cache, Raise e)
  | Ok value =>
      match cache !! (name, value) with
      | Some got => (cache, Ok got)
      | None => match parse_parts value all_parts with
                | Raise e => (cache, Raise e)
                | Ok got => (<[(name, value) := got]> cache, Ok got)
                end
      end
  end.

Definition sig_tag (m : module flt) : list nat := if ACTIVE m then [current m] else [].

End Configure.

(** ** Graph sets *)

Inductive ev :=
  | EHook                              (* post_warmup_hook() *)
  | ECapture (current_variant set_ : nat).

Section Backend.
Context {shape graph out : Type} `{Countable shape}.

(** One set: [self._graphs] and [self._outputs]. *)
#[local] Abbreviation gset_ := (gmap shape graph * gmap shape out)%type.

(** A backend: its sets ([None]: [_sets] has not run, one pair of dicts), the set its
    attributes point at, the shapes captured once, and the replay counts of its kind. *)
Record backend := Backend {
  sets : option (list gset_);
  own : gset_;
  active : nat;
  shared : gset shape;
  counts : option (list nat);
  trace : list ev }.

Definition set_sets (b : backend) (l : list gset_) : backend :=
  Backend (Some l) (own b) (active b) (shared b) (counts b) (trace b).
Definition set_active (b : backend) (v : nat) : backend :=
  Backend (sets b) (own b) v (shared b) (counts b) (trace b).
Definition add_trace (b : backend) (e : ev) : backend :=
  Backend (sets b) (own b) (active b) (shared b) (counts b) (trace b ++ [e]).

(** What the harness reads of the module. *)
Record knobs := Knobs { k_active : bool; k_N : nat; k_max_bs : option Z; k_reverse : bool }.

(** The size of a shape key, if it has one; the engine's own [capture_one] (given the
    current variant and the dicts it fills), the hook it is given, and its [replay]. *)
Context (size : shape -> option Z)
  (orig_capture : nat -> shape -> gset_ -> gset_ * option exn)
  (post_warmup_hook : option (list ev -> option exn))
  (orig_replay : gset_ -> shape -> res out).

Definition variants_for (k : knobs) (s : shape) : nat :=
  match k_max_bs k, size s with
  | Some limit, Some sz => if sz <=? limit then k_N k else 1
  | _, _ => k_N k
  end.

(** [_check_ranks]: the MAX of [h, -h] over the ranks' hashes. *)
Definition check_ranks (h : Z) (hashes : list Z) : bool :=
  (foldr Z.max h hashes =? h) && (- foldr Z.max (- h) (map Z.opp hashes) =? h).

Definition get_sets (k : knobs) (ranks_ok : bool) (b : backend) : backend * res (list gset_) :=
  match sets b with
  | Some l => (b, Ok l)
  | None =>
      if negb ranks_ok then (b, Raise RuntimeError)
      else
        let l := own b :: replicate (k_N k - 1) (∅, ∅) in
        (Backend (Some l) (own b) (active b) ∅ (counts b) (trace b), Ok l)
  end.

(** One turn of the capture loop for variant [v]: the hook unless it is the first, the
    switch of the dicts, and the capture with [v] current. *)
Definition run_hook (first : bool) (b : backend) : backend * option exn :=
  match first, post_warmup_hook with
  | false, Some hook => (add_trace b EHook, hook (trace b))
  | _, _ => (b, None)
  end.

Definition capture_set (v : nat) (s : shape) (b : backend) : backend * option exn :=
  let l := default [] (sets b) in
  match l !! v with
  | None => (b, Some IndexError)
  | Some g =>
      let b := add_trace (set_active b v) (ECapture v v) in
      let '(g', e) := orig_capture v s g in
      (set_sets b (<[v := g']> l), e)
  end.

Fixpoint capture_loop (first : bool) (order : list nat) (s : shape) (b : backend)
    : backend * option exn :=
  match order with
  | [] => (b, None)
  | v :: rest =>
      match run_hook first b with
      | (b1, Some e) => (b1, Some e)
      | (b1, None) =>
          match capture_set v s b1 with
          | (b2, Some e) => (b2, Some e)
          | (b2, None) => capture_loop false rest s b2
          end
      end
  end.

Definition capture_order (k : knobs) (s : shape) : list nat :=
  let n := variants_for k s in
  if k_reverse k && Nat.eqb n (k_N k) then reverse (seq 0 n) else seq 0 n.

(** The patched [capture_one]; [cur] is the variant current outside it. *)
Definition capture_one (k : knobs) (cur : nat) (ranks_ok : bool) (s : shape) (b : backend)
    : backend * option exn :=
  if negb (k_active k) then
    let '(g, e) := orig_capture cur s (own b) in
    (Backend (sets b) g (active b) (shared b) (counts b) (trace b), e)
  else
    match get_sets k ranks_ok b with
    | (b, Raise e) => (b, Some e)
    | (b, Ok _) =>
        match capture_loop true (capture_order k s) s b with
        | (b, Some e) => (set_active b 0, Some e)
        | (b, None) =>
            let b := set_active b 0 in
            if Nat.ltb (variants_for k s) (k_N k)
            then (Backend (sets b) (own b) (active b) (shared b ∪ {[s]}) (counts b) (trace b), None)
            else (b, None)
        end
    end.

Definition bump (l : list nat) (i : nat) : list nat := alter S i l.

(** The patched [replay] under the runtime variant [r]: the set it runs and its result. *)
Definition replay (k : knobs) (r : nat) (s : shape) (b : backend)
    : backend * option nat * res out :=
  match sets b with
  | None => (b, None, orig_replay (own b) s)
  | Some l =>
      match l !! r with
      | None => (b, None, Raise IndexError)
      | Some gr =>
          let v := if bool_decide (is_Some (gr.1 !! s)) then r else 0%nat in
          let c := default (replicate (k_N k + 1) 0%nat) (counts b) in
          let b := Backend (sets b) (own b) (active b) (shared b)
                     (Some (bump c (if Nat.eqb v r then v else k_N k))) (trace b) in
          if Nat.eqb v 0 then
            (b, Some (active b), orig_replay (default gr (l !! active b)) s)
          else
            (set_active b 0, Some v, orig_replay (default gr (l !! v)) s)
      end
  end.

(** The patched [cleanup]: every set is cleared, then the engine's own clears what the
    attributes point at. *)
Definition cleanup (orig_cleanup : gset_ -> gset_) (b : backend) : backend :=
  let g := match sets b with Some _ => (∅, ∅) | None => own b end in
  Backend None (orig_cleanup g) (active b) (shared b) (counts b) (trace b).

(** The operations of a run. *)
Inductive bop :=
  | OCapture (ranks_ok : bool) (s : shape)
  | OReplay (r : nat) (s : shape).

Definition brun (k : knobs) (b : backend) (o : bop) : backend :=
  match o with
  | OCapture ok s => (capture_one k 0 ok s b).1
  | OReplay r s => (replay k r s b).1.1
  end.

End Backend.

(** The knobs of a configured module. *)
Definition knobs_of {flt} (m : module flt) : knobs :=
  Knobs (ACTIVE m) (N m) (MAX_BS m) (REVERSE m).

(** ** Lemmas on the environment *)

(** Writes in order; the last write of a key wins. *)
Definition writes (W : list (string * string)) (env : envmap) : envmap :=
  fold_left (fun e kv => <[kv.1 := kv.2]> e) W env.

Fixpoint last_val (W : list (string * string)) (k : string) : option string :=
  match W with
  | [] => None
  | (k', v) :: W' => match last_val W' k with
                     | Some u => Some u
                     | None => if String.eqb k k' then Some v else None
                     end
  end.

Lemma writes_lookup W env k :
  writes W env !! k = match last_val W k with Some v => Some v | None => env !! k end.
Proof.
  unfold writes. revert env. induction W as [|[k' v] W IH]; intros env; simpl; [done|].
  rewrite IH. destruct (last_val W k) as [u|]; [done|].
  destruct (String.eqb_spec k k') as [->|Hne].
  - apply lookup_insert_eq.
  - by apply lookup_insert_ne.
Qed.

Lemma writes_idemp W env : writes W (writes W env) = writes W env.
Proof. apply map_eq; intros k. rewrite !writes_lookup. by destruct (last_val W k). Qed.

Lemma writes_app W1 W2 env : writes (W1 ++ W2) env = writes W2 (writes W1 env).
Proof. apply fold_left_app. Qed.

Lemma last_val_in W k v : last_val W k = Some v -> k ∈ map fst W.
Proof.
  induction W as [|[k' u] W IH]; simpl; [done|].
  destruct (last_val W k) as [w|].
  - intros ?. right. apply IH. congruence.
  - destruct (String.eqb_spec k k') as [->|]; [by left | done].
Qed.

Section Union.
Context (sp : list (gmap string string)) (b : basemap).

Definition bool_writes (keys : list string) : list (string * string) :=
  map (fun k => (k, "1"))
    (filter (fun k => Is_true (existsb (fun s => truthy (value_of s b k)) sp)) keys).

Lemma union_bool_writes keys env :
  fold_left (union_bool sp b) keys env = writes (bool_writes keys) env.
Proof.
  revert env. induction keys as [|k keys IH]; intros env; simpl; [done|].
  rewrite IH. unfold union_bool, bool_writes. rewrite filter_cons.
  destruct (existsb _ sp); destruct (decide _) as [Hd|Hd]; [done| |done|done].
  by destruct Hd.
Qed.

Lemma union_parts_raise e l : fold_left (union_parts sp b) l (Raise e) = Raise e.
Proof. induction l as [|[k a] l IH]; simpl; [done|exact IH]. Qed.

(** What one entry of the parts union writes. *)
Definition part_write (key : string) (all_parts : list string) (u : gset string)
    : list (string * string) :=
  if bool_decide (u = ∅) then []
  else [(key, if bool_decide (u = list_to_set all_parts) then "1"
              else join_comma (filter (fun p => bool_decide (p ∈ u)) all_parts))].

Lemma union_parts_writes l env env' :
  fold_left (union_parts sp b) l (Ok env) = Ok env' ->
  exists us, Forall2 (fun kv u => parts_union sp b kv.1 kv.2 = Ok u) l us /\
    env' = writes (concat (zip_with (fun kv u => part_write kv.1 kv.2 u) l us)) env /\
    forall env2, fold_left (union_parts sp b) l (Ok env2) =
      Ok (writes (concat (zip_with (fun kv u => part_write kv.1 kv.2 u) l us)) env2).
Proof.
  revert env. induction l as [|[k a] l IH]; intros env; simpl.
  - intros [= ->]. exists []. by repeat split.
  - destruct (parts_union sp b k a) as [u|e] eqn:Hu; [|by rewrite union_parts_raise].
    assert (Hw : forall e2, (if bool_decide (u = ∅) then Ok e2 else
        Ok (<[k := if bool_decide (u = list_to_set a) then "1"
             else join_comma (filter (fun p => bool_decide (p ∈ u)) a)]> e2)) =
        Ok (writes (part_write k a u) e2)).
    { intros e2. unfold part_write. by case_bool_decide. }
    rewrite Hw. intros Hf. destruct (IH _ Hf) as (us & HF & -> & Hall).
    exists (u :: us). simpl. split; [by constructor|]. split; [by rewrite writes_app|].
    intros env2. by rewrite Hw, writes_app.
Qed.

End Union.

Lemma last_val_app W1 W2 k :
  last_val (W1 ++ W2) k = match last_val W2 k with Some v => Some v | None => last_val W1 k end.
Proof.
  induction W1 as [|[k' v] W1 IH]; simpl; [by destruct (last_val W2 k)|].
  rewrite IH. by destruct (last_val W2 k).
Qed.

Lemma last_val_bool sp b keys k :
  last_val (bool_writes sp b keys) k =
    if bool_decide (k ∈ keys) && existsb (fun s => truthy (value_of s b k)) sp
    then Some "1" else None.
Proof.
  unfold bool_writes. induction keys as [|k' keys IH]; simpl; [done|].
  rewrite filter_cons.
  destruct (String.eqb_spec k k') as [->|Hne].
  - rewrite (bool_decide_eq_true_2 (k' ∈ k' :: keys)) by by left. simpl.
    destruct (existsb _ sp) eqn:E; destruct (decide _) as [Hd|Hd]; try by (destruct Hd).
    + simpl. rewrite IH. rewrite String.eqb_refl. by destruct (_ && _).
    + rewrite IH. simpl. by rewrite andb_false_r.
  - assert (bool_decide (k ∈ k' :: keys) = bool_decide (k ∈ keys)) as ->.
    { apply bool_decide_ext. set_solver. }
    destruct (decide _); simpl; rewrite IH; [|done].
    destruct (String.eqb_spec k k'); [done|]. by destruct (_ && _).
Qed.

(** The names that [configure] may write. *)
Definition quiet (k : string) : bool := one_of k KNOWN || String.eqb k "DSV41_AB_BASE".

(** [environ.setdefault("DSV41_AB_BASE", ...)]. *)
Definition set_base (json_dumps : basemap -> string) (b : basemap) (env : envmap) : envmap :=
  match env !! "DSV41_AB_BASE" with
  | Some _ => env
  | None => <["DSV41_AB_BASE" := json_dumps b]> env
  end.

Lemma one_of_true s l : one_of s l = true <-> s ∈ l.
Proof.
  unfold one_of. rewrite existsb_exists. split.
  - intros (x & Hx & He). apply String.eqb_eq in He as ->. by apply list_elem_of_In.
  - intros Hs. exists s. split; [by apply list_elem_of_In | apply String.eqb_refl].
Qed.

Lemma part_write_keys key a u : forall k v, (k, v) ∈ part_write key a u -> k = key.
Proof. unfold part_write. case_bool_decide; set_solver. Qed.

Lemma last_val_pair W k v : last_val W k = Some v -> (k, v) ∈ W.
Proof.
  induction W as [|[k' u] W IH]; simpl; [done|].
  destruct (last_val W k) as [w|].
  - intros [= ->]. right. by apply IH.
  - destruct (String.eqb_spec k k') as [->|]; [|done]. intros [= ->]. by left.
Qed.

Lemma part_writes_keys (l : list (string * list string)) us k v :
  (k, v) ∈ concat (zip_with (fun kv u => part_write kv.1 kv.2 u) l us) -> k ∈ map fst l.
Proof.
  revert us. induction l as [|[k0 a] l IH]; intros [|u us]; simpl; [set_solver..|].
  intros [Hin|Hin]%elem_of_app.
  - apply part_write_keys in Hin as ->. by left.
  - right. by apply (IH us).
Qed.

Lemma union_env_writes json_dumps sp b env env' :
  union_env json_dumps sp b env = Ok env' ->
  exists us W, Forall2 (fun kv u => parts_union sp b kv.1 kv.2 = Ok u) UNION_PARTS us /\
    W = bool_writes sp b UNION_BOOL ++
        concat (zip_with (fun kv u => part_write kv.1 kv.2 u) UNION_PARTS us) /\
    env' = writes W (set_base json_dumps b env) /\
    (forall env2, union_env json_dumps sp b env2 = Ok (writes W (set_base json_dumps b env2))) /\
    (forall k v, last_val W k = Some v -> k ∈ KNOWN).
Proof.
  unfold union_env. fold (set_base json_dumps b env). intros Hu.
  destruct (union_parts_writes _ _ _ _ _ Hu) as (us & HF & He & Hall).
  exists us. eexists. split; [exact HF|]. split; [reflexivity|]. split; [|split].
  - by rewrite He, union_bool_writes, writes_app.
  - intros env2. fold (set_base json_dumps b env2). rewrite Hall. f_equal.
    by rewrite union_bool_writes, writes_app.
  - intros k v. rewrite last_val_app. unfold KNOWN. rewrite !elem_of_app.
    destruct (last_val (concat _) k) as [w|] eqn:Hw.
    + intros _. right. left. apply (part_writes_keys _ us k w). by apply last_val_pair.
    + rewrite last_val_bool. destruct (bool_decide _) eqn:Hk; [|done]. intros _. left.
      by apply bool_decide_eq_true in Hk.
Qed.

Lemma union_env_loud json_dumps sp b env env' k :
  union_env json_dumps sp b env = Ok env' -> quiet k = false -> env' !! k = env !! k.
Proof.
  intros Hu [Hk Hb]%orb_false_iff.
  destruct (union_env_writes _ _ _ _ _ Hu) as (us & W & _ & _ & -> & _ & HK).
  rewrite writes_lookup. destruct (last_val W k) as [v|] eqn:Hv.
  - apply HK, one_of_true in Hv. congruence.
  - unfold set_base. apply String.eqb_neq in Hb.
    destruct (env !! "DSV41_AB_BASE"); [done|]. apply lookup_insert_ne. congruence.
Qed.

Lemma quiet_not_variant k : quiet k = true -> after_prefix "DSV41_AB_V" k = None.
Proof.
  unfold quiet. intros [Hk|Hk]%orb_true_iff.
  - apply one_of_true in Hk.
    assert (Hall : forallb (fun k => negb (startswith "DSV41_AB_V" k)) KNOWN = true) by reflexivity.
    rewrite forallb_forall in Hall. apply list_elem_of_In, Hall in Hk.
    unfold startswith in Hk. by destruct (after_prefix _ k).
  - by apply String.eqb_eq in Hk as ->.
Qed.

Lemma loud_variant i : quiet ("DSV41_AB_V" +:+ i) = false.
Proof.
  destruct (quiet _) eqn:E; [|done]. apply quiet_not_variant in E.
  by rewrite after_prefix_app in E.
Qed.

(** ** [configure], twice *)

Lemma extra_keys_nil env n :
  extra_keys env n = [] <-> forall k, is_Some (env !! k) -> extra_key n k = false.
Proof.
  unfold extra_keys. split.
  - intros Hf k [v Hv]. destruct (extra_key n k) eqn:E; [|done].
    assert (Hin : k ∈ filter (fun k => Is_true (extra_key n k)) (map fst (map_to_list env))).
    { apply list_elem_of_filter. split; [by rewrite E|]. apply list_elem_of_fmap.
      exists (k, v). split; [done|]. by apply elem_of_map_to_list. }
    rewrite Hf in Hin. set_solver.
  - intros Hall. apply filter_none, Forall_forall. intros k Hk.
    apply list_elem_of_fmap in Hk as ([k' v] & -> & Hin). apply elem_of_map_to_list in Hin.
    intros Ht. by rewrite Hall in Ht by eauto.
Qed.

Lemma extra_key_quiet n k : quiet k = true -> extra_key n k = false.
Proof. intros Hq%quiet_not_variant. unfold extra_key. by rewrite Hq. Qed.

Section Twice.
Context {flt : Type} (py_float : string -> res flt) (flt_of : Z -> flt)
  (flt_eqb : flt -> flt -> bool).
Context (json_loads : string -> res basemap) (json_dumps : basemap -> string).

Lemma check_config_ext env env' :
  (forall k, quiet k = false -> env' !! k = env !! k) ->
  read_base json_loads env' = read_base json_loads env ->
  check_config py_float flt_of flt_eqb json_loads env' =
  check_config py_float flt_of flt_eqb json_loads env.
Proof.
  intros Hl Hb. unfold check_config. unfold get_empty.
  rewrite !(Hl "DSV41_AB_VARIANTS"), !(Hl "DSV41_AB_ALLOW_AA"), !(Hl "DSV41_AB_MAX_BS"),
    !(Hl "DSV41_AB_POLL_S"), !(Hl "DSV41_AB_FILE"), !(Hl "DSV41_AB_CAPTURE_ORDER") by reflexivity.
  rewrite Hb.
  assert (Hs : forall n, read_specs env' n = read_specs env n).
  { intros n. unfold read_specs. induction (seq 0 n) as [|i l IH]; simpl; [done|].
    rewrite IH. unfold get_empty. by rewrite (Hl _ (loud_variant (num i))). }
  assert (Hx : forall n, bool_decide (extra_keys env' n = []) = bool_decide (extra_keys env n = [])).
  { intros n. apply bool_decide_ext. rewrite !extra_keys_nil.
    split; intros Hall k Hk; destruct (quiet k) eqn:Hq; try by apply extra_key_quiet.
    - apply Hall. by rewrite Hl.
    - apply Hall. by rewrite <- Hl. }
  match goal with |- mbind _ ?r = _ => destruct r as [n|e]; [|done] end.
  simpl. by rewrite Hs, Hx.
Qed.

Lemma check_config_base env p :
  check_config py_float flt_of flt_eqb json_loads env = Ok (Some p) ->
  read_base json_loads env = Ok (p_base p).
Proof.
  unfold check_config.
  match goal with |- mbind _ ?r = _ -> _ => destruct r as [n|e]; [|done] end. simpl.
  case_match; [done|]. case_match; [done|]. case_match; [done|].
  destruct (read_specs _ _) as [sp|e]; simpl; [|done].
  destruct (read_base _ _) as [b|e]; simpl; [|done].
  destruct (mapR _ sp) as [effs|e]; simpl; [|done].
  case_match; [done|].
  match goal with |- mbind _ ?r = _ -> _ => destruct r as [mb|e]; [|done] end. simpl.
  destruct (py_float _) as [po|e]; simpl; [|done].
  by intros [= <-].
Qed.

End Twice.

(** A child process that runs [configure] again, on the environment the first
    process left, whose gates are already unioned, decides on the same variants: the
    same specifications, the same pre-union base values (they travel in
    DSV41_AB_BASE), the same configuration hash, and it leaves the environment as it
    is; this holds whatever its own module held before, when the JSON text of the base
    values reads back. *)
Theorem configure_child_agrees {flt} (py_float : string -> res flt) flt_of flt_eqb json_loads
    json_dumps config_hash now now2 (m m2 m' : module flt) env env'
    (Hjson : json_loads (json_dumps (base m')) = Ok (base m'))
    (Hc : configure py_float flt_of flt_eqb json_loads json_dumps config_hash now m env =
          (m', env', Ok true)) :
  configure py_float flt_of flt_eqb json_loads json_dumps config_hash now2 m2 env' =
    (Module_ true (N m') (specs m') (base m') 0 None (FILE m') (POLL_S m') (MAX_BS m') now2
       (REVERSE m') (DUMP_DIR m') (DUMP_SIZES m') (CONFIG_HASH m'), env', Ok true).
Proof.
  revert Hc. unfold configure at 1.
  destruct (check_config _ _ _ _ env) as [[p|]|e] eqn:Hp; [|done..].
  destruct (union_env _ _ _ env) as [e1|e] eqn:Hu; [|done].
  destruct (dump_sizes e1) as [sizes|e] eqn:Hd; [|done]. intros [= <- <-]. simpl in *.
  assert (Hr : read_base json_loads e1 = Ok (p_base p)).
  { destruct (union_env_writes _ _ _ _ _ Hu) as (us & W & _ & _ & -> & _ & HK).
    unfold read_base. rewrite writes_lookup.
    destruct (last_val W "DSV41_AB_BASE") as [v|] eqn:Hv.
    { apply HK, one_of_true in Hv. discriminate. }
    pose proof (check_config_base _ _ _ _ _ _ Hp) as Hb. unfold read_base in Hb. unfold set_base.
    destruct (env !! "DSV41_AB_BASE") as [t|] eqn:Hbase; [by rewrite Hbase|].
    by rewrite lookup_insert_eq, Hjson. }
  unfold configure.
  rewrite (check_config_ext _ _ _ _ env e1), Hp.
  - destruct (union_env_writes _ _ _ _ _ Hu) as (us & W & _ & _ & He & Hall & HK).
    rewrite Hall.
    assert (set_base json_dumps (p_base p) e1 = e1) as ->.
    { unfold set_base. subst e1. rewrite writes_lookup.
      destruct (last_val W _); [done|]. unfold set_base.
      destruct (env !! "DSV41_AB_BASE") eqn:Hbase; [by rewrite Hbase|]. by rewrite lookup_insert_eq. }
    assert (writes W e1 = e1) as -> by (subst e1; apply writes_idemp).
    by rewrite Hd.
  - intros k. apply (union_env_loud _ _ _ _ _ _ Hu).
  - rewrite Hr. symmetry. by apply (check_config_base _ _ _ _ _ _ Hp).
Qed.

(** ** The union *)

Lemma parse_parts_subset value all_parts P :
  parse_parts value all_parts = Ok P -> P ⊆ list_to_set all_parts.
Proof.
  unfold parse_parts. case_match; [intros [= <-]; set_solver|].
  case_match; [by intros [= <-]|]. case_bool_decide as Hb; [|done]. intros [= <-]. set_solver.
Qed.

Lemma parts_union_spec sp b key all_parts u :
  parts_union sp b key all_parts = Ok u ->
  u ⊆ list_to_set all_parts /\
  (forall s, s ∈ sp -> exists P, parse_parts (value_of s b key) all_parts = Ok P /\ P ⊆ u) /\
  (forall p, p ∈ u -> exists s P, s ∈ sp /\ parse_parts (value_of s b key) all_parts = Ok P /\ p ∈ P).
Proof.
  revert u. induction sp as [|s sp IH]; intros u; simpl; [intros [= <-]; set_solver|].
  destruct (parse_parts _ _) as [P|e] eqn:HP; [|done].
  destruct (parts_union sp b key all_parts) as [u'|e]; [|done]. intros [= <-].
  destruct (IH u' eq_refl) as (H1 & H2 & H3). pose proof (parse_parts_subset _ _ _ HP).
  split; [set_solver|]. split.
  - intros s' [->|Hs]%elem_of_cons; [exists P; set_solver|].
    destruct (H2 _ Hs) as (P' & ? & ?). exists P'. set_solver.
  - intros p [Hp|Hp]%elem_of_union.
    + exists s, P. set_solver.
    + destruct (H3 _ Hp) as (s' & P' & ? & ? & ?). exists s', P'. set_solver.
Qed.

Fixpoint sublists (l : list string) : list (list string) :=
  match l with
  | [] => [[]]
  | x :: l' => map (cons x) (sublists l') ++ sublists l'
  end.

Lemma filter_sublists (P : string -> Prop) `{!forall x, Decision (P x)} l :
  filter P l ∈ sublists l.
Proof.
  induction l as [|x l IH]; [by left|]. rewrite filter_cons. simpl. apply elem_of_app.
  case_decide; [left; by apply list_elem_of_fmap_2 | by right].
Qed.

(** Every non-empty selection of parts reads back from its comma list, every full one
    from "1". *)
Definition reads_back (all_parts l : list string) : bool :=
  match l, parse_parts (Some (join_comma l)) all_parts with
  | [], _ => true
  | _, Ok P => bool_decide (P = list_to_set l)
  | _, Raise _ => false
  end.

Lemma union_parts_read_back :
  forallb (fun kv => forallb (reads_back kv.2) (sublists kv.2)) UNION_PARTS = true.
Proof. vm_compute. reflexivity. Qed.

Lemma part_write_reads_back key all_parts u :
  (key, all_parts) ∈ UNION_PARTS -> u ⊆ list_to_set all_parts -> u <> ∅ ->
  exists v, part_write key all_parts u = [(key, v)] /\ parse_parts (Some v) all_parts = Ok u.
Proof.
  intros Hin Hsub Hne. unfold part_write. rewrite bool_decide_eq_false_2 by done.
  eexists. split; [done|]. case_bool_decide as Hall; [by rewrite Hall|].
  pose proof union_parts_read_back as Hr. rewrite forallb_forall in Hr.
  apply list_elem_of_In, Hr in Hin. rewrite forallb_forall in Hin. simpl in Hin.
  specialize (Hin (filter (fun p => Is_true (bool_decide (p ∈ u))) all_parts)).
  rewrite <- list_elem_of_In in Hin. specialize (Hin (filter_sublists _ _)).
  assert (Hset : list_to_set (filter (fun p => Is_true (bool_decide (p ∈ u))) all_parts) = u).
  { apply set_eq. intros p. rewrite elem_of_list_to_set, list_elem_of_filter, bool_decide_spec.
    set_solver. }
  revert Hin Hset. unfold reads_back.
  destruct (filter _ all_parts) as [|x l] eqn:Hf.
  - intros _ Hs. exfalso. apply Hne. by rewrite <- Hs.
  - destruct (parse_parts _ _) as [P|e]; [|done]. intros HP%bool_decide_eq_true <-. by rewrite HP.
Qed.

Lemma check_config_inv {flt} (py_float : string -> res flt) flt_of flt_eqb json_loads env p :
  check_config py_float flt_of flt_eqb json_loads env = Ok (Some p) ->
  exists effs, (2 <= p_n p <= 8)%nat /\ length (p_specs p) = p_n p /\
    mapR (fun s => norm py_float flt_of (value_of s (p_base p))) (p_specs p) = Ok effs /\
    (truthy (env !! "DSV41_AB_ALLOW_AA") = false -> has_same flt_eqb effs = false).
Proof.
  unfold check_config.
  match goal with |- mbind _ ?r = _ -> _ => destruct r as [n|e]; [|done] end. simpl.
  destruct (Z.ltb_spec n 2); [done|]. destruct (Z.ltb_spec 8 n); [done|]. case_match; [done|].
  destruct (read_specs _ _) as [sp|e] eqn:Hsp; simpl; [|done].
  destruct (read_base _ _) as [b|e]; simpl; [|done].
  destruct (mapR _ sp) as [effs|e] eqn:He; simpl; [|done].
  destruct (has_same _ _ && _) eqn:Hs; [done|].
  match goal with |- mbind _ ?r = _ -> _ => destruct r as [mb|e]; [|done] end. simpl.
  destruct (py_float _) as [po|e]; simpl; [|done]. intros [= <-]. simpl.
  exists effs. split; [lia|]. split.
  { unfold read_specs in Hsp. apply mapR_Ok_length in Hsp. rewrite length_seq in Hsp. lia. }
  split; [done|]. intros Ha. rewrite Ha in Hs. by rewrite andb_true_r in Hs.
Qed.

Lemma has_same_false {flt} (flt_eqb : flt -> flt -> bool) effs i j a b :
  has_same flt_eqb effs = false -> (i < j)%nat -> effs !! i = Some a -> effs !! j = Some b ->
  eff_eqb flt_eqb a b = false.
Proof.
  revert i j. induction effs as [|e effs IH]; intros i j; simpl; [done|].
  intros [Hx Hs]%orb_false_iff Hij Hi Hj.
  destruct j as [|j]; [lia|]. destruct i as [|i]; simpl in *.
  - simplify_eq. destruct (eff_eqb flt_eqb a b) eqn:E; [|done].
    assert (existsb (eff_eqb flt_eqb a) effs = true); [|congruence].
    apply existsb_exists. exists b. split; [|done]. apply list_elem_of_In. by eapply list_elem_of_lookup_2.
  - apply (IH i j); [done|lia|done..].
Qed.

Lemma last_val_part (l : list (string * list string)) us i key all_parts u :
  NoDup (map fst l) -> l !! i = Some (key, all_parts) -> us !! i = Some u ->
  last_val (concat (zip_with (fun kv u => part_write kv.1 kv.2 u) l us)) key =
  last_val (part_write key all_parts u) key.
Proof.
  revert us i. induction l as [|[k a] l IH]; intros [|u0 us] [|i]; try done; simpl;
    intros [Hk Hnd]%NoDup_cons Hl Hu; rewrite last_val_app; simplify_eq.
  - destruct (last_val (concat _) key) as [v|] eqn:Hv; [|done].
    exfalso. apply Hk. apply last_val_pair in Hv. by apply part_writes_keys in Hv.
  - rewrite (IH us i) by done. destruct (last_val (part_write key _ _) key) eqn:E; [done|].
    destruct (last_val (part_write k a u0) key) eqn:E2; [|done].
    apply last_val_pair, part_write_keys in E2 as ->. exfalso. apply Hk.
    apply list_elem_of_fmap. exists (k, all_parts). split; [done|]. by eapply list_elem_of_lookup_2.
Qed.

Lemma union_env_bool json_dumps sp b env env' key :
  union_env json_dumps sp b env = Ok env' -> key ∈ UNION_BOOL ->
  env' !! key = if existsb (fun s => truthy (value_of s b key)) sp then Some "1" else env !! key.
Proof.
  intros Hu Hk. destruct (union_env_writes _ _ _ _ _ Hu) as (us & W & HF & -> & -> & _).
  rewrite writes_lookup, last_val_app.
  assert (Hn : (key ∉ map fst UNION_PARTS) /\ key <> "DSV41_AB_BASE").
  { assert (Hc : forallb (fun k => negb (one_of k (map fst UNION_PARTS)) &&
      negb (String.eqb k "DSV41_AB_BASE")) UNION_BOOL = true) by reflexivity.
    rewrite forallb_forall in Hc. apply list_elem_of_In, Hc in Hk.
    apply andb_true_iff in Hk as [H1%negb_true_iff H2%negb_true_iff%String.eqb_neq].
    split; [|done]. intros Hin%one_of_true. congruence. }
  destruct (last_val (concat _) key) as [w|] eqn:Hw.
  { exfalso. apply (proj1 Hn). by apply last_val_pair, part_writes_keys in Hw. }
  rewrite last_val_bool, bool_decide_eq_true_2 by done. simpl.
  destruct (existsb _ _); [done|]. unfold set_base.
  destruct (env !! "DSV41_AB_BASE"); [done|]. apply lookup_insert_ne. intros <-. by apply Hn.
Qed.

Lemma union_env_parts json_dumps sp b env env' key all_parts :
  union_env json_dumps sp b env = Ok env' -> (key, all_parts) ∈ UNION_PARTS ->
  exists u, parts_union sp b key all_parts = Ok u /\
    (u = ∅ -> env' !! key = env !! key) /\
    (u <> ∅ -> parse_parts (env' !! key) all_parts = Ok u).
Proof.
  intros Hu Hk. destruct (union_env_writes _ _ _ _ _ Hu) as (us & W & HF & -> & -> & _).
  pose proof Hk as [i Hi]%list_elem_of_lookup_1.
  destruct (Forall2_lookup_l _ _ _ _ _ HF Hi) as (u & Hui & Hpu). simpl in Hpu.
  exists u. split; [done|].
  assert (Hb : (key ∉ UNION_BOOL) /\ key <> "DSV41_AB_BASE").
  { assert (Hc : forallb (fun kv => negb (one_of kv.1 UNION_BOOL) &&
      negb (String.eqb kv.1 "DSV41_AB_BASE")) UNION_PARTS = true) by reflexivity.
    rewrite forallb_forall in Hc. apply list_elem_of_In, Hc in Hk.
    apply andb_true_iff in Hk as [H1%negb_true_iff H2%negb_true_iff%String.eqb_neq].
    split; [|done]. intros Hin%one_of_true.
    assert (Hf : one_of key UNION_BOOL = false) by exact H1. congruence. }
  rewrite writes_lookup, last_val_app.
  assert (Hnd : NoDup (map fst UNION_PARTS)) by (eapply bool_decide_unpack; vm_compute; exact I).
  rewrite (last_val_part _ _ _ _ _ _ Hnd Hi Hui).
  rewrite last_val_bool, bool_decide_eq_false_2 by apply Hb. split.
  - intros ->. simpl. unfold set_base.
    destruct (env !! "DSV41_AB_BASE"); [done|]. apply lookup_insert_ne. intros <-. by apply Hb.
  - intros Hne. destruct (parts_union_spec _ _ _ _ _ Hpu) as (Hsub & _ & _).
    destruct (part_write_reads_back _ _ _ Hk Hsub Hne) as (v & -> & Hv).
    simpl. by rewrite String.eqb_refl.
Qed.

Lemma configure_armed {flt} (py_float : string -> res flt) flt_of flt_eqb json_loads json_dumps
    config_hash now (m m' : module flt) env env' :
  configure py_float flt_of flt_eqb json_loads json_dumps config_hash now m env =
    (m', env', Ok true) ->
  exists p, check_config py_float flt_of flt_eqb json_loads env = Ok (Some p) /\
    union_env json_dumps (p_specs p) (p_base p) env = Ok env' /\
    N m' = p_n p /\ specs m' = p_specs p /\ base m' = p_base p.
Proof.
  unfold configure. destruct (check_config _ _ _ _ env) as [[p|]|e]; [|done..].
  destruct (union_env _ _ _ env) as [e1|e] eqn:Hu; [|done].
  destruct (dump_sizes e1) as [sizes|e]; [|done]. intros [= <- <-]. by exists p.
Qed.

Lemma env_for_value {flt} (m : module flt) v key value :
  env_for m v key None = Ok value <->
  exists s, specs m !! v = Some s /\ value = value_of s (base m) key.
Proof.
  unfold env_for, value_of. destruct (specs m !! v) as [s|]; [|by split; [|intros (? & ? & ?)]].
  split.
  - intros [= <-]. exists s. split; [done|]. destruct (s !! key); [done|]. by destruct (mjoin _).
  - intros (s' & [= <-] & ->). destruct (s !! key); [done|]. by destruct (mjoin _).
Qed.

(** After [configure] has armed, the environment covers every variant: a gate that
    is on in some variant is on in [os.environ], a list of parts there names exactly
    the parts some variant enables (whichever way it is spelled), a list or gate that
    no variant enables and every variable outside the registry keep their value, and
    unless A/A runs are allowed no two variants have the same effective behaviour. *)
Theorem union_covers_variants {flt} (py_float : string -> res flt) flt_of flt_eqb json_loads
    json_dumps config_hash now (m m' : module flt) env env'
    (Hc : configure py_float flt_of flt_eqb json_loads json_dumps config_hash now m env =
          (m', env', Ok true)) :
  (2 <= N m' <= 8)%nat /\ length (specs m') = N m' /\
  (forall key, key ∈ UNION_BOOL ->
     (exists v value, env_for m' v key None = Ok value /\ truthy value = true) /\
       env' !! key = Some "1" \/
     (forall v value, env_for m' v key None = Ok value -> truthy value = false) /\
       env' !! key = env !! key) /\
  (forall key all_parts, (key, all_parts) ∈ UNION_PARTS ->
     exists u : gset string,
       (forall p, p ∈ u <-> exists v value P,
          env_for m' v key None = Ok value /\ parse_parts value all_parts = Ok P /\ p ∈ P) /\
       (u <> ∅ -> parse_parts (env' !! key) all_parts = Ok u) /\
       (u = ∅ -> env' !! key = env !! key)) /\
  (forall key, quiet key = false -> env' !! key = env !! key) /\
  (truthy (env !! "DSV41_AB_ALLOW_AA") = false ->
   forall i j si sj, (i < j)%nat -> specs m' !! i = Some si -> specs m' !! j = Some sj ->
     exists a b, norm py_float flt_of (value_of si (base m')) = Ok a /\
       norm py_float flt_of (value_of sj (base m')) = Ok b /\ eff_eqb flt_eqb a b = false).
Proof.
  destruct (configure_armed _ _ _ _ _ _ _ _ _ _ _ Hc) as (p & Hp & Hu & HN & Hs & Hb).
  destruct (check_config_inv _ _ _ _ _ _ Hp) as (effs & Hn & Hlen & Heff & Haa).
  rewrite HN, Hs. split; [done|]. split; [done|]. split; [|split; [|split]].
  - intros key Hk. pose proof (union_env_bool _ _ _ _ _ _ Hu Hk) as He.
    destruct (existsb _ _) eqn:E.
    + left. split; [|done]. apply existsb_exists in E as (s & Hin & Ht).
      apply list_elem_of_In, list_elem_of_lookup_1 in Hin as [v Hv].
      exists v, (value_of s (p_base p) key). rewrite env_for_value, Hs, Hb. eauto.
    + right. split; [|done]. intros v value (s & Hv & ->)%env_for_value.
      rewrite Hb. apply not_true_is_false. intros Ht. rewrite Hs in Hv.
      assert (existsb (fun s => truthy (value_of s (p_base p) key)) (p_specs p) = true); [|congruence].
      apply existsb_exists. exists s. split; [|done]. apply list_elem_of_In.
      by eapply list_elem_of_lookup_2.
  - intros key all_parts Hk. destruct (union_env_parts _ _ _ _ _ _ _ Hu Hk) as (u & Hpu & H0 & H1).
    exists u. split; [|done]. destruct (parts_union_spec _ _ _ _ _ Hpu) as (_ & Hl & Hr).
    intros q. split.
    + intros (s & P & Hin & HP & Hq)%Hr. apply list_elem_of_lookup_1 in Hin as [v Hv].
      exists v, (value_of s (p_base p) key), P. rewrite env_for_value, Hs, Hb. eauto.
    + intros (v & value & P & (s & Hv & ->)%env_for_value & HP & Hq).
      rewrite Hs in Hv. rewrite Hb in HP.
      destruct (Hl s) as (P' & HP' & ?); [by eapply list_elem_of_lookup_2|].
      rewrite HP in HP'. simplify_eq. set_solver.
  - intros key Hq. by apply (union_env_loud _ _ _ _ _ _ Hu).
  - intros Ha i j si sj Hij Hi Hj.
    destruct (mapR_Ok_lookup _ _ _ _ _ Heff Hi) as (a & Hea & Hna).
    destruct (mapR_Ok_lookup _ _ _ _ _ Heff Hj) as (b & Heb & Hnb).
    exists a, b. rewrite Hb. split; [done|]. split; [done|].
    by apply (has_same_false _ _ _ _ _ _ (Haa Ha) Hij Hea Heb).
Qed.

(** ** Capture and replay *)

Section GraphSets.
Context {shape graph out : Type} `{Countable shape}.
#[local] Abbreviation gs := (gmap shape graph * gmap shape out)%type.
Context (size : shape -> option Z) (orig_capture : nat -> shape -> gs -> gs * option exn)
  (post_warmup_hook : option (list ev -> option exn)) (orig_replay : gs -> shape -> res out).
Context (k : knobs) (cap : nat -> shape -> graph).
Context (Hact : k_active k = true) (HN : (1 <= k_N k)%nat).

(** The engine's [capture_one] stores the shape's graph, recorded under the current
    variant, and touches no other shape, also when it raises. *)
Context (Hcap : forall v s g g' e, orig_capture v s g = (g', e) ->
  (forall s', g'.1 !! s' = g.1 !! s' \/ s' = s /\ g'.1 !! s' = Some (cap v s)) /\
  (e = None -> g'.1 !! s = Some (cap v s))).

#[local] Abbreviation vf := (variants_for size k).
#[local] Abbreviation bk := (backend (shape:=shape) (graph:=graph) (out:=out)).

(** Every graph of set [v] was recorded under variant [v], for a shape that has one. *)
Definition sets_ok (l : list gs) : Prop :=
  length l = k_N k /\
  forall v g s gr, l !! v = Some g -> g.1 !! s = Some gr -> gr = cap v s /\ (v < vf s)%nat.

Definition backend_ok (b : bk) : Prop :=
  match sets b with None => own b = (∅, ∅) | Some l => sets_ok l end.

(** Shape [s] has a graph in each of its sets. *)
Definition captured (s : shape) (vs : list nat) (b : bk) : Prop :=
  exists l, sets b = Some l /\
    forall v, v ∈ vs -> exists g, l !! v = Some g /\ g.1 !! s = Some (cap v s).

Lemma vf_bound s : (1 <= vf s <= k_N k)%nat.
Proof. unfold variants_for. destruct (k_max_bs k), (size s); try case_match; lia. Qed.

Lemma order_elem s v : v ∈ capture_order size k s <-> (v < vf s)%nat.
Proof.
  unfold capture_order. case_match; rewrite ?elem_of_reverse, elem_of_seq; lia.
Qed.

Lemma capture_set_ok v s b b' e l :
  sets b = Some l -> sets_ok l -> (v < vf s)%nat -> capture_set orig_capture v s b = (b', e) ->
  exists l', sets b' = Some l' /\ sets_ok l' /\ trace b' = trace b ++ [ECapture v v] /\
    (e = None -> exists g, l' !! v = Some g /\ g.1 !! s = Some (cap v s)) /\
    (forall w t g, l !! w = Some g -> g.1 !! t = Some (cap w t) ->
       exists g', l' !! w = Some g' /\ g'.1 !! t = Some (cap w t)).
Proof.
  intros Hs [Hlen Hok] Hv. unfold capture_set. rewrite Hs. simpl.
  assert (Hlt : (v < length l)%nat) by (pose proof (vf_bound s); lia).
  destruct (lookup_lt_is_Some_2 l v Hlt) as [g Hg]. rewrite Hg.
  destruct (orig_capture v s g) as [g' e'] eqn:Ho. intros [= <- <-]. simpl.
  destruct (Hcap _ _ _ _ _ Ho) as [Hch Hnew].
  exists (<[v := g']> l). split; [done|]. split; [|split; [done|split]].
  - split; [by rewrite length_insert|]. intros w gw t gr Hw Ht.
    destruct (decide (w = v)) as [->|Hne].
    + rewrite list_lookup_insert_eq in Hw by done. simplify_eq.
      destruct (Hch t) as [Heq|[-> Heq]]; rewrite Heq in Ht; [|by simplify_eq].
      by apply (Hok v g).
    + rewrite list_lookup_insert_ne in Hw by done. by apply (Hok w gw).
  - intros He. exists g'. rewrite list_lookup_insert_eq by done. auto.
  - intros w t gw Hw Ht. destruct (decide (w = v)) as [->|Hne].
    + rewrite list_lookup_insert_eq by done. exists g'. split; [done|].
      assert (gw = g) as -> by congruence.
      destruct (Hch t) as [E|[E1 E2]]; [by rewrite E | by subst t].
    + rewrite list_lookup_insert_ne by done. eauto.
Qed.

(** The events of a capture of the variants in [order]. *)
Fixpoint capture_events (first : bool) (order : list nat) : list ev :=
  match order with
  | [] => []
  | v :: rest => (if first then [] else match post_warmup_hook with Some _ => [EHook] | None => [] end)
                 ++ ECapture v v :: capture_events false rest
  end.

Lemma run_hook_ok first (b b' : bk) e :
  run_hook post_warmup_hook first b = (b', e) ->
  sets b' = sets b /\ own b' = own b /\
  trace b' = trace b ++ (if first then [] else
    match post_warmup_hook with Some _ => [EHook] | None => [] end).
Proof.
  unfold run_hook. destruct first, post_warmup_hook; intros [= <- <-]; simpl; by rewrite ?app_nil_r.
Qed.

Lemma capture_loop_ok order first s b b' e l :
  sets b = Some l -> sets_ok l -> Forall (fun v => (v < vf s)%nat) order ->
  capture_loop orig_capture post_warmup_hook first order s b = (b', e) ->
  exists l', sets b' = Some l' /\ sets_ok l' /\
    (e = None -> trace b' = trace b ++ capture_events first order) /\
    (e = None -> forall v, v ∈ order -> exists g, l' !! v = Some g /\ g.1 !! s = Some (cap v s)) /\
    (forall w t g, l !! w = Some g -> g.1 !! t = Some (cap w t) ->
       exists g', l' !! w = Some g' /\ g'.1 !! t = Some (cap w t)).
Proof.
  revert first b l. induction order as [|v order IH]; intros first b l Hs Hok Hord; simpl.
  { intros [= <- <-]. exists l. rewrite app_nil_r. split; [done|]. split; [done|]. split; [done|].
    split; [set_solver | eauto]. }
  apply Forall_cons in Hord as [Hv Hord].
  destruct (run_hook _ first b) as [b1 [x|]] eqn:Hh;
    destruct (run_hook_ok _ _ _ _ Hh) as (Hs1 & _ & Ht1).
  { intros [= <- <-]. exists l. rewrite Hs1. split; [done|]. split; [done|]. split; [done|].
    split; [done | eauto]. }
  destruct (capture_set _ v s b1) as [b2 e2] eqn:Hc.
  destruct (capture_set_ok v s b1 b2 e2 l) as (l2 & Hs2 & Hok2 & Ht2 & Hn2 & Hp2);
    [congruence | done..|].
  destruct e2 as [x|].
  { intros [= <- <-]. exists l2. split; [done|]. split; [done|]. split; [done|]. by split. }
  intros Hl. destruct (IH false b2 l2 Hs2 Hok2 Hord Hl) as (l3 & Hs3 & Hok3 & Ht3 & Hn3 & Hp3).
  exists l3. split; [done|]. split; [done|]. split; [|split].
  - intros He. rewrite (Ht3 He), Ht2, Ht1. by rewrite <- !app_assoc.
  - intros He w [->|Hw]%elem_of_cons; [|by apply Hn3].
    destruct (Hn2 eq_refl) as (g & Hg & Hgs). by apply (Hp3 v s g).
  - intros w t g Hg Ht. destruct (Hp2 w t g Hg Ht) as (g' & Hg' & Ht'). by apply (Hp3 w t g').
Qed.

Lemma capture_one_ok ok s b b' e :
  backend_ok b -> active b = 0%nat ->
  capture_one size orig_capture post_warmup_hook k 0 ok s b = (b', e) ->
  backend_ok b' /\ active b' = 0%nat /\
  (e = None -> trace b' = trace b ++ capture_events true (capture_order size k s) /\
     captured s (seq 0 (vf s)) b') /\
  (forall t vs, captured t vs b -> captured t vs b').
Proof.
  intros Hb Ha. unfold capture_one. rewrite Hact. simpl.
  destruct (get_sets k ok b) as [b1 r] eqn:Hg.
  assert (Hg' : match r with
    | Raise _ => b1 = b
    | Ok l => sets b1 = Some l /\ sets_ok l /\ active b1 = 0%nat /\ trace b1 = trace b /\
        (forall t vs, captured t vs b -> captured t vs b1)
    end).
  { unfold get_sets in Hg. unfold backend_ok in Hb. destruct (sets b) as [l|] eqn:Hs.
    - injection Hg as <- <-. rewrite Hs. auto.
    - destruct ok; injection Hg as <- <-; [|done]. simpl. split; [done|]. split.
      + split; [simpl; rewrite length_replicate; lia|]. intros [|v] g t gr; simpl.
        * intros [= <-]. by rewrite Hb.
        * intros [-> _]%lookup_replicate. done.
      + split; [done|]. split; [done|]. intros t vs (l & Hl & _). congruence. }
  destruct r as [l|x]; [|subst b1; intros [= <- <-]; split; [done|]; split; [done|]; by split].
  destruct Hg' as (Hs1 & Hok1 & Ha1 & Ht1 & Hc1).
  destruct (capture_loop _ _ true _ s b1) as [b2 e2] eqn:Hl.
  destruct (capture_loop_ok _ _ _ _ _ _ _ Hs1 Hok1
    ltac:(apply Forall_forall; intros v; apply order_elem) Hl)
    as (l2 & Hs2 & Hok2 & Ht2 & Hn2 & Hp2).
  assert (Hpres : forall t vs, captured t vs b -> exists l0, Some l2 = Some l0 /\
      forall v, v ∈ vs -> exists g, l0 !! v = Some g /\ g.1 !! t = Some (cap v t)).
  { intros t vs (l0 & Hl0 & Hall)%Hc1. exists l2. split; [done|]. intros v Hv.
    rewrite Hs1 in Hl0. injection Hl0 as <-. destruct (Hall v Hv) as (g & Hgv & Hgt).
    by apply (Hp2 v t g). }
  unfold backend_ok, captured. destruct e2 as [x|].
  - intros [= <- <-]. simpl. rewrite Hs2. split; [done|]. split; [done|]. by split.
  - intros Hfin. assert (He : e = None /\ sets b' = Some l2 /\ active b' = 0%nat /\ trace b' = trace b2)
      by (destruct (Nat.ltb _ _); injection Hfin as <- <-; simpl; auto).
    destruct He as (-> & -> & -> & ->). split; [done|]. split; [done|]. split; [|done].
    intros _. split; [by rewrite Ht2, Ht1|]. exists l2. split; [done|]. intros v Hv.
    apply Hn2; [done|]. apply order_elem. apply elem_of_seq in Hv. lia.
Qed.

Lemma replay_ok r s b :
  let '(b', v, res) := replay orig_replay k r s b in
  active b = 0%nat -> active b' = 0%nat /\ sets b' = sets b /\ own b' = own b.
Proof.
  unfold replay. destruct (sets b) as [l|] eqn:Hs; [|done].
  destruct (l !! r) as [gr|]; [|by rewrite Hs]. by destruct (Nat.eqb _ 0).
Qed.

Lemma brun_ok b o :
  backend_ok b -> active b = 0%nat ->
  let b' := brun size orig_capture post_warmup_hook orig_replay k b o in
  backend_ok b' /\ active b' = 0%nat /\ forall t vs, captured t vs b -> captured t vs b'.
Proof.
  intros Hb Ha. destruct o as [ok s|r s]; simpl.
  - destruct (capture_one _ _ _ k 0 ok s b) as [b' e] eqn:Hc. simpl.
    by destruct (capture_one_ok _ _ _ _ _ Hb Ha Hc) as (? & ? & _ & ?).
  - pose proof (replay_ok r s b) as Hr. destruct (replay _ k r s b) as [[b' v] res]. simpl.
    destruct (Hr Ha) as (Ha' & Hs' & Ho'). unfold backend_ok, captured. by rewrite Hs', Ho'.
Qed.

Lemma bruns_ok ops b :
  backend_ok b -> active b = 0%nat ->
  let b' := fold_left (brun size orig_capture post_warmup_hook orig_replay k) ops b in
  backend_ok b' /\ active b' = 0%nat /\ forall t vs, captured t vs b -> captured t vs b'.
Proof.
  revert b. induction ops as [|o ops IH]; intros b Hb Ha; simpl; [done|].
  destruct (brun_ok b o Hb Ha) as (Hb1 & Ha1 & Hc1).
  destruct (IH _ Hb1 Ha1) as (? & ? & Hc2). split; [done|]. split; [done|]. auto.
Qed.

(** A replay of a captured shape runs the graph of the runtime variant, or the shared
    one of variant 0. *)
Lemma replay_captured r s b :
  backend_ok b -> active b = 0%nat -> captured s (seq 0 (vf s)) b -> (r < k_N k)%nat ->
  let v := if Nat.ltb r (vf s) then r else 0%nat in
  exists g, g.1 !! s = Some (cap v s) /\ (replay orig_replay k r s b).1.2 = Some v /\
    (replay orig_replay k r s b).2 = orig_replay g s.
Proof.
  intros Hb Ha (l & Hl & Hall) Hr v. unfold backend_ok in Hb. rewrite Hl in Hb.
  destruct Hb as [Hlen Hok]. unfold replay. rewrite Hl.
  destruct (lookup_lt_is_Some_2 l r) as [gr Hgr]; [lia|]. rewrite Hgr.
  assert (Hv : (if bool_decide (is_Some (gr.1 !! s)) then r else 0%nat) = v).
  { subst v. destruct (Nat.ltb_spec r (vf s)) as [Hlt|Hge].
    - destruct (Hall r) as (g & Hg & Hgs); [apply elem_of_seq; lia|].
      rewrite Hgr in Hg. injection Hg as <-. by rewrite bool_decide_eq_true_2 by eauto.
    - rewrite bool_decide_eq_false_2; [done|]. intros [x Hx].
      destruct (Hok _ _ _ _ Hgr Hx). lia. }
  rewrite Hv. pose proof (vf_bound s).
  assert (Hlt : (v < vf s)%nat) by (subst v; destruct (Nat.ltb_spec r (vf s)); lia).
  destruct (Hall v) as (g & Hg & Hgs); [apply elem_of_seq; lia|].
  exists g. split; [done|]. destruct (Nat.eqb_spec v 0) as [Hv0|Hv0]; simpl.
  - rewrite Ha, <- Hv0, Hg. done.
  - by rewrite Hg.
Qed.

End GraphSets.

(** From a fresh backend, after any captures (also ones that raise half way) and
    replays, a capture of a shape that returns has run the engine's capture once per
    variant the shape has, each with that variant current and into that variant's
    dicts, with the warm-up reset between two captures; and however the run goes on,
    replaying the shape under any runtime variant runs the graph recorded under that
    variant, or variant 0's for a shape too large to have its own, from dicts that the
    engine sees again at variant 0 afterwards. *)
Theorem replay_runs_captured_variant {shape graph out : Type} `{Countable shape}
    (size : shape -> option Z) orig_capture post_warmup_hook orig_replay (k : knobs)
    (cap : nat -> shape -> graph)
    (Hact : k_active k = true) (HN : (1 <= k_N k)%nat)
    (Hcap : forall v s (g g' : gmap shape graph * gmap shape out) e,
       orig_capture v s g = (g', e) ->
       (forall s', g'.1 !! s' = g.1 !! s' \/ s' = s /\ g'.1 !! s' = Some (cap v s)) /\
       (e = None -> g'.1 !! s = Some (cap v s)))
    (ops1 ops2 : list bop) ok s b1 b2 b3
    (H1 : b1 = fold_left (brun size orig_capture post_warmup_hook orig_replay k) ops1
                 (Backend None (∅, ∅) 0 ∅ None []))
    (H2 : capture_one size orig_capture post_warmup_hook k 0 ok s b1 = (b2, None))
    (H3 : b3 = fold_left (brun size orig_capture post_warmup_hook orig_replay k) ops2 b2) :
  trace b2 = trace b1 ++ capture_events post_warmup_hook true (capture_order size k s) /\
  (forall v, v ∈ capture_order size k s <-> (v < variants_for size k s)%nat) /\
  active b3 = 0%nat /\
  forall r, (r < k_N k)%nat ->
    let v := if Nat.ltb r (variants_for size k s) then r else 0%nat in
    exists g, g.1 !! s = Some (cap v s) /\ (replay orig_replay k r s b3).1.2 = Some v /\
      (replay orig_replay k r s b3).2 = orig_replay g s /\
      active (replay orig_replay k r s b3).1.1 = 0%nat.
Proof.
  destruct (bruns_ok size orig_capture post_warmup_hook orig_replay k cap Hact HN Hcap ops1
    (Backend None (∅, ∅) 0 ∅ None []) eq_refl eq_refl) as (Hb1 & Ha1 & _).
  rewrite <- H1 in Hb1, Ha1.
  destruct (capture_one_ok size orig_capture post_warmup_hook k cap Hact HN Hcap
    _ _ _ _ _ Hb1 Ha1 H2) as (Hb2 & Ha2 & Ht & _).
  destruct (Ht eq_refl) as [Htr Hc2].
  destruct (bruns_ok size orig_capture post_warmup_hook orig_replay k cap Hact HN Hcap ops2 b2
    Hb2 Ha2) as (Hb3 & Ha3 & Hc3). rewrite <- H3 in Hb3, Ha3, Hc3.
  split; [done|]. split; [by intros v; apply order_elem|]. split; [done|]. intros r Hr v.
  destruct (replay_captured size orig_replay k cap HN r s b3 Hb3 Ha3 (Hc3 _ _ Hc2) Hr)
    as (g & Hg & Hv & Hres).
  exists g. split; [done|]. split; [done|]. split; [done|].
  pose proof (replay_ok orig_replay k r s b3) as Hr'.
  destruct (replay orig_replay k r s b3) as [[b4 v4] res]. by destruct (Hr' Ha3).
Qed.

(** ** Witnesses *)

Definition ex_env : envmap :=
  {["DSV41_AB_VARIANTS" := "3"; "DSV41_AB_V0" := "DSV41_L2_PREFETCH_WOA=0";
    "DSV41_AB_V1" := "DSV41_L2_PREFETCH_WOA=1; DSV41_FUSE_QUANT=qnorm";
    "DSV41_AB_V2" := "DSV41_FUSE_QUANT=wo_a,qnorm"; "DSV41_L2_PREFETCH" := "1"]}.

Definition ex_base : basemap := list_to_map (map (fun k => (k, ex_env !! k)) (sort_strings KNOWN)).

Definition ex_float (s : string) : res Z :=
  match s with "0.5" => Ok 500 | _ => Raise ValueError end.

Definition ex_module : module Z :=
  Module_ false 1 [∅] ∅ 0 None "/state/ab_variant" 500 None 0 false None ∅ "".

Definition ex_configure (m : module Z) (env : envmap) :=
  configure ex_float (fun z => 1000 * z) Z.eqb (fun _ => Ok ex_base) (fun _ => "{}")
    (fun _ _ _ _ _ => "cafe") 7 m env.

Example ex_configure_ok : (ex_configure ex_module ex_env).2 = Ok true.
Proof. vm_compute. reflexivity. Qed.

Example ex_union : (ex_configure ex_module ex_env).1.2 !! "DSV41_FUSE_QUANT" = Some "qnorm,wo_a".
Proof. vm_compute. reflexivity. Qed.

Lemma configure_child_agrees_witness :
  (configure ex_float (fun z => 1000 * z) Z.eqb (fun _ => Ok ex_base) (fun _ => "{}")
     (fun _ _ _ _ _ => "cafe") 9 ex_module (ex_configure ex_module ex_env).1.2).2 = Ok true.
Proof.
  rewrite (configure_child_agrees ex_float (fun z => 1000 * z) Z.eqb (fun _ => Ok ex_base)
    (fun _ => "{}") (fun _ _ _ _ _ => "cafe") 7 9 ex_module ex_module
    (ex_configure ex_module ex_env).1.1 ex_env (ex_configure ex_module ex_env).1.2).
  - reflexivity.
  - vm_compute. reflexivity.
  - vm_compute. reflexivity.
Defined.

Lemma union_covers_variants_witness :
  exists u : gset string, u ≠ ∅ /\
    parse_parts ((ex_configure ex_module ex_env).1.2 !! "DSV41_FUSE_QUANT")
      ["qnorm"; "wo_a"; "hcpad"] = Ok u.
Proof.
  destruct (union_covers_variants ex_float (fun z => 1000 * z) Z.eqb (fun _ => Ok ex_base)
    (fun _ => "{}") (fun _ _ _ _ _ => "cafe") 7 ex_module
    (ex_configure ex_module ex_env).1.1 ex_env (ex_configure ex_module ex_env).1.2
    ltac:(vm_compute; reflexivity)) as (_ & _ & _ & Hp & _).
  destruct (Hp "DSV41_FUSE_QUANT" ["qnorm"; "wo_a"; "hcpad"] ltac:(left)) as (u & Hu & Hne & _).
  assert (Hq : u <> ∅).
  { intros He. assert (Hin : "qnorm" ∈ u); [|rewrite He in Hin; by apply elem_of_empty in Hin].
    apply Hu. exists 1%nat, (Some "qnorm"), {["qnorm"]}. split; [vm_compute; reflexivity|].
    split; [vm_compute; reflexivity | by apply elem_of_singleton]. }
  exists u. split; [exact Hq | exact (Hne Hq)].
Defined.

(** An engine whose graphs are the variant and the shape they were recorded for. *)
Definition ex_capture (v s : nat) (g : gmap nat (nat * nat) * gmap nat nat)
    : (gmap nat (nat * nat) * gmap nat nat) * option exn := ((<[s := (v, s)]> g.1, g.2), None).

Definition ex_replay (g : gmap nat (nat * nat) * gmap nat nat) (s : nat) : res nat :=
  match g.1 !! s with Some (v, _) => Ok v | None => Raise KeyError end.

Definition ex_knobs : knobs := Knobs true 3 (Some 4) true.

Definition ex_ops : list (bop (shape:=nat)) := [OCapture true 4%nat; OReplay 2 4%nat; OReplay 1 8%nat].

Lemma replay_runs_captured_variant_witness :
  (replay ex_replay ex_knobs 2 4%nat
     (fold_left (brun (fun s => Some (Z.of_nat s)) ex_capture None ex_replay ex_knobs)
        ex_ops (Backend None (∅, ∅) 0 ∅ None []))).2 = Ok 2%nat.
Proof.
  destruct (replay_runs_captured_variant (fun s : nat => Some (Z.of_nat s)) ex_capture None
    ex_replay ex_knobs (fun v s => (v, s)) eq_refl ltac:(simpl; lia)
    ltac:(intros v s g g' e [= <- <-]; simpl; split;
          [intros s'; destruct (decide (s' = s)) as [->|];
             [right; by rewrite lookup_insert_eq | left; by rewrite lookup_insert_ne]
          | intros _; apply lookup_insert_eq])
    [] (drop 1 ex_ops) true 4%nat _ _ _ eq_refl ltac:(vm_compute; reflexivity) eq_refl)
    as (_ & _ & _ & Hr).
  destruct (Hr 2%nat ltac:(simpl; lia)) as (g & Hg & _ & Hres & _).
  transitivity (ex_replay g 4%nat); [exact Hres|]. unfold ex_replay. by rewrite Hg.
Defined.
