(* ===== verification/AbReceiver.v ===== *)
(** * In-boot A/B variants: the switch (adapter/ab_variant.py)

    How a switch reaches every rank: rank 0 polls the flag file, appends a marker to
    the requests it pulled, the engine broadcasts them, and every rank strips the
    markers and applies them before the batch of that iteration.  Times and file keys
    are integers in one unit, the flag file is what [stat] and [read] return, the
    collective is a function from a rank's values to the reduced ones, and a request is
    either the engine's or a marker.  The JSON of the acknowledgement, the log lines
    and the replay counts it carries are not modelled. *)
From Stdlib Require Import Ascii.
From S2P Require Import Prelude PyStr.
#[local] Open Scope string_scope.
#[local] Open Scope list_scope.
#[local] Open Scope Z_scope.

(** [st_mtime_ns], [st_size], [st_ino]. *)
#[local] Abbreviation fkey := (Z * Z * Z)%type.
(** A variant and its token. *)
#[local] Abbreviation want := (Z * option string)%type.

(** [_poll]. *)
Record poll := Poll {
  checked : Z;
  key : option fkey;
  file : option want;
  announced : option want;
  bad : option fkey }.

Inductive req (R : Type) :=
  | Raw (r : R)
  | Marker (variant : Z) (token : option string) (config : string).
Arguments Raw {R} _.
Arguments Marker {R} _ _ _.

Definition is_marker {R} (r : req R) : bool :=
  match r with Marker _ _ _ => true | Raw _ => false end.

(** [s.split()]: the fields between blanks. *)
Fixpoint fields_from (s : string) : string * list string :=
  match s with
  | "" => ("", [])
  | String c s' =>
      let '(w, ws) := fields_from s' in
      if is_space c then ("", if String.eqb w "" then ws else w :: ws)
      else (String c w, ws)
  end.

Definition fields (s : string) : list string :=
  let '(w, ws) := fields_from s in if String.eqb w "" then ws else w :: ws.

(** The globals the receiver reads. *)
Record conf := Conf {
  c_N : Z;
  c_poll_s : Z;
  c_start : Z;
  c_hash : string }.

(** Reading the flag file's text. *)
Definition parse_flag (n : Z) (content : option string) : res want :=
  match content with
  | None => Raise IOError
  | Some text =>
      match fields text with
      | [] => Raise IndexError
      | f0 :: rest =>
          match py_int f0 with
          | Raise e => Raise e
          | Ok v => if (0 <=? v) && (v <? n) then Ok (v, head rest) else Raise ValueError
          end
      end
  end.

(** [_read_file] at time [now], when [stat] gives [st] and reading gives [content]. *)
Definition read_file (c : conf) (now : Z) (st : option fkey) (content : option string) (p : poll)
    : poll * option want :=
  if now - checked p <? c_poll_s c then (p, file p)
  else
    let p := Poll now (key p) (file p) (announced p) (bad p) in
    match st with
    | None => (p, file p)
    | Some k =>
        if bool_decide (key p = Some k) then (p, file p)
        else
          let p := Poll (checked p) (Some k) (file p) (announced p) (bad p) in
          if k.1.1 <? c_start c then
            (Poll (checked p) (key p) (file p) (announced p) (Some k), file p)
          else
            match parse_flag (c_N c) content with
            | Ok w => (Poll (checked p) (key p) (Some w) (announced p) (bad p), Some w)
            | Raise _ => (Poll (checked p) (key p) (file p) (announced p) (Some k), file p)
            end
    end.

(** What MAX-reducing [[v, -v, seq, -seq]] tells a rank. *)
Record ranks := Ranks {
  world : Z;
  variant_range : Z * Z;
  seq_range : Z * Z;
  agree : bool }.

(** The acknowledgement rank 0 writes. *)
Record ackrec := Ack {
  a_variant : Z;
  a_token : option string;
  a_seq : Z;
  a_config : string;
  a_ranks : option ranks }.

(** A rank: [_runtime], [_poll], what [_state] holds, and the ack file ([mtime] and,
    when this process wrote it, its record). *)
Record rank := Rank {
  runtime : Z;
  rpoll : poll;
  rseq : Z;
  token : option string;
  leader : bool;
  rranks : option ranks;
  stale_checked : bool;
  ack : option (Z * option ackrec) }.

(** [_drop_stale_ack]; [unlink_ok]: the file can be removed. *)
Definition drop_stale_ack (c : conf) (unlink_ok : bool) (s : rank) : rank :=
  let a := match ack s with
           | Some (mtime, r) => if (mtime <? c_start c) && unlink_ok then None else Some (mtime, r)
           | None => None
           end in
  Rank (runtime s) (rpoll s) (rseq s) (token s) (leader s) (rranks s) true a.

(** What an iteration of rank 0 finds: the time, the flag file, and whether the
    deployment is one the harness does not support (DP attention, PP). *)
Record view := View {
  v_now : Z;
  v_stat : option fkey;
  v_content : option string;
  v_unlink_ok : bool;
  v_unsupported : bool }.

(** The patched [_pull_raw_reqs] on what the engine's own one returned. *)
Definition pull_raw_reqs {R} (c : conf) (w : view) (reqs : option (list (req R))) (s : rank)
    : rank * option (list (req R)) :=
  match reqs with
  | None => (s, None)
  | Some l =>
      let s := Rank (runtime s) (rpoll s) (rseq s) (token s) true (rranks s) (stale_checked s) (ack s) in
      let s := if stale_checked s then s else drop_stale_ack c (v_unlink_ok w) s in
      if v_unsupported w then (s, Some l)
      else
        let '(p, wanted) := read_file c (v_now w) (v_stat w) (v_content w) (rpoll s) in
        let set p := Rank (runtime s) p (rseq s) (token s) (leader s) (rranks s)
                       (stale_checked s) (ack s) in
        match wanted with
        | Some wt =>
            if bool_decide (announced p = Some wt) then (set p, Some l)
            else (set (Poll (checked p) (key p) (file p) (Some wt) (bad p)),
                  Some (l ++ [Marker wt.1 wt.2 (c_hash c)]))
        | None => (set p, Some l)
        end
  end.

(** [_apply] *)
Definition apply_marker {R} (c : conf) (s : rank) (m : req R) : rank * option exn :=
  match m with
  | Raw _ => (s, None)
  | Marker v t cfg =>
      if negb (String.eqb cfg (c_hash c)) then (s, Some RuntimeError)
      else (Rank v (rpoll s) (rseq s + 1) t (leader s) (rranks s) (stale_checked s) (ack s), None)
  end.

Fixpoint apply_markers {R} (c : conf) (s : rank) (ms : list (req R)) : rank * option exn :=
  match ms with
  | [] => (s, None)
  | m :: ms' => match apply_marker c s m with
                | (s', None) => apply_markers c s' ms'
                | (s', Some e) => (s', Some e)
                end
  end.

(** [_check_ranks_agree] after the collective returned [t]; [None]: a single rank. *)
Definition check_ranks_agree (n : Z) (t : Z * Z * Z * Z) (s : rank) : option ranks :=
  if n <=? 1 then None
  else
    let '(v_max, nv_min, s_max, ns_min) := t in
    let v_min := - nv_min in
    let s_min := - ns_min in
    Some (Ranks n (v_min, v_max) (s_min, s_max)
      ((v_min =? v_max) && (v_max =? runtime s) && (s_min =? s_max) && (s_max =? rseq s))).

(** [_write_ack] at time [now_ns]. *)
Definition write_ack (c : conf) (now_ns : Z) (s : rank) : rank :=
  Rank (runtime s) (rpoll s) (rseq s) (token s) (leader s) (rranks s) (stale_checked s)
    (Some (now_ns, Some (Ack (runtime s) (token s) (rseq s) (c_hash c) (rranks s)))).

(** The patched [recv_requests] on what the engine's own one returned; [n] ranks, and
    [all_reduce] what the collective gives this rank. *)
Definition recv_requests {R} (c : conf) (n now_ns : Z) (all_reduce : Z * Z * Z * Z)
    (reqs : list (req R)) (s : rank) : rank * res (list (req R)) :=
  let markers := filter (fun r => is_marker r) reqs in
  match markers with
  | [] => (s, Ok reqs)
  | _ =>
      match apply_markers c s markers with
      | (s, Some e) => (s, Raise e)
      | (s, None) =>
          let s := Rank (runtime s) (rpoll s) (rseq s) (token s) (leader s)
                     (check_ranks_agree n all_reduce s) (stale_checked s) (ack s) in
          let s := if leader s then write_ack c now_ns s else s in
          match rranks s with
          | Some r => if agree r then (s, Ok (filter (fun r => negb (is_marker r)) reqs))
                      else (s, Raise RuntimeError)
          | None => (s, Ok (filter (fun r => negb (is_marker r)) reqs))
          end
      end
  end.

(** ** All ranks *)

(** What a rank contributes to the collective, after its markers. *)
Definition contribution {R} (c : conf) (reqs : list (req R)) (s : rank) : Z * Z * Z * Z :=
  let s' := (apply_markers c s (filter (fun r => is_marker r) reqs)).1 in
  (runtime s', - runtime s', rseq s', - rseq s').

Definition max4 (a b : Z * Z * Z * Z) : Z * Z * Z * Z :=
  let '(a1, a2, a3, a4) := a in
  let '(b1, b2, b3, b4) := b in
  (Z.max a1 b1, Z.max a2 b2, Z.max a3 b3, Z.max a4 b4).

(** [dist.all_reduce(t, op=MAX)] over the ranks' contributions. *)
Definition reduce_max (l : list (Z * Z * Z * Z)) : Z * Z * Z * Z :=
  match l with [] => (0, 0, 0, 0) | t :: ts => foldr max4 t ts end.

(** One scheduler iteration of a group: rank 0 pulls, the requests are broadcast, every
    rank receives them; [now_ns] is the wall clock of a write. *)
Definition iteration {R} (c : conf) (w : view) (now_ns : Z) (raw : list R) (rs : list rank)
    : list rank * list (res (list (req R))) :=
  match rs with
  | [] => ([], [])
  | r0 :: others =>
      let '(r0, pulled) := pull_raw_reqs c w (Some (map Raw raw)) r0 in
      let reqs := default [] pulled in
      let rs := r0 :: others in
      let t := reduce_max (map (contribution c reqs) rs) in
      let outs := map (recv_requests c (zlen rs) now_ns t reqs) rs in
      (map fst outs, map snd outs)
  end.

Definition boot_poll : poll := Poll (-1000000000) None None None None.

(** A rank at start; [a]: the ack file an earlier boot left, if any. *)
Definition boot (a : option (Z * option ackrec)) : rank :=
  Rank 0 boot_poll 0 None false None false a.

(** ** Polling *)

Definition valid_want (c : conf) (w : option want) : Prop :=
  match w with Some (v, _) => 0 <= v < c_N c | None => True end.

Lemma parse_flag_valid c content w :
  parse_flag (c_N c) content = Ok w -> valid_want c (Some w).
Proof.
  unfold parse_flag. destruct content as [text|]; [|done].
  destruct (fields text) as [|f0 rest]; [done|]. destruct (py_int f0) as [v|]; [|done].
  destruct (_ && _) eqn:E; [|done]. intros [= <-]. simpl. blia.
Qed.

Lemma read_file_valid c now st content p :
  valid_want c (file p) ->
  valid_want c (read_file c now st content p).2 /\
  file (read_file c now st content p).1 = (read_file c now st content p).2 /\
  announced (read_file c now st content p).1 = announced p.
Proof.
  intros Hv. unfold read_file. case_match; [done|]. destruct st as [k|]; [|done].
  case_bool_decide; [done|]. simpl. case_match; [done|].
  destruct (parse_flag _ _) as [w|e] eqn:Hp; [|done]. simpl. by apply parse_flag_valid in Hp.
Qed.

(** A poll that finds a new, valid file of this boot returns it. *)
Lemma read_file_new c now k content p w :
  c_poll_s c <= now - checked p -> key p <> Some k -> c_start c <= k.1.1 ->
  parse_flag (c_N c) content = Ok w -> (read_file c now (Some k) content p).2 = Some w.
Proof.
  intros Ht Hk Hs Hw. unfold read_file.
  destruct (Z.ltb_spec (now - checked p) (c_poll_s c)); [lia|]. simpl.
  rewrite bool_decide_eq_false_2 by done. destruct (Z.ltb_spec k.1.1 (c_start c)); [lia|].
  by rewrite Hw.
Qed.

(** ** The ranks stay in step *)

#[local] Arguments reduce_max : simpl never.

Section Lockstep.
Context {R : Type} (c : conf).

Lemma markers_raw (l : list R) : filter (fun r => Is_true (is_marker r)) (map Raw l) = [].
Proof. induction l as [|x l IH]; [done|]. simpl. rewrite filter_cons. simpl. exact IH. Qed.

Lemma raw_kept (l : list R) : filter (fun r => Is_true (negb (is_marker r))) (map Raw l) = map Raw l.
Proof. induction l as [|x l IH]; [done|]. simpl. rewrite filter_cons. simpl. by rewrite IH. Qed.

Lemma reduce_max_same (l : list (Z * Z * Z * Z)) t :
  l <> [] -> Forall (fun u => u = t) l -> reduce_max l = t.
Proof.
  destruct l as [|u l]; [done|]. intros _ [-> Hl]%Forall_cons. unfold reduce_max.
  induction Hl as [|u l -> _ IH]; [done|]. simpl. rewrite IH.
  destruct t as [[[a b] d] e]. simpl. by rewrite !Z.max_id.
Qed.

(** Every rank at the same variant and sequence number. *)
Definition same_step (v q : Z) (rs : list rank) : Prop :=
  Forall (fun r => runtime r = v /\ rseq r = q) rs.

(** What rank 0 holds. *)
Definition leader_ok (r0 : rank) : Prop :=
  valid_want c (file (rpoll r0)) /\
  match announced (rpoll r0) with Some w => runtime r0 = w.1 | None => runtime r0 = 0 end /\
  (stale_checked r0 = true ->
   match ack r0 with
   | Some (_, Some a) => a_variant a = runtime r0 /\ a_seq a = rseq r0 /\
       a_config a = c_hash c /\ match a_ranks a with Some k => agree k = true | None => True end
   | Some (_, None) => False
   | None => True
   end) /\
  (stale_checked r0 = false ->
   match ack r0 with Some (mtime, _) => mtime < c_start c | None => True end).

Definition group_ok (rs : list rank) : Prop :=
  match rs with
  | [] => False
  | r0 :: others => leader_ok r0 /\ 0 <= runtime r0 < c_N c /\ same_step (runtime r0) (rseq r0) rs /\
      Forall (fun r => leader r = false) others
  end.

(** The pull changes neither the variant nor the sequence number, and appends a marker
    exactly when it announces a new variant. *)
Lemma pull_ok w (raw : list R) r0 r0' pulled :
  leader_ok r0 -> v_unlink_ok w = true ->
  pull_raw_reqs c w (Some (map Raw raw)) r0 = (r0', pulled) ->
  runtime r0' = runtime r0 /\ rseq r0' = rseq r0 /\ leader r0' = true /\ stale_checked r0' = true /\
  valid_want c (file (rpoll r0')) /\
  match ack r0' with
  | Some (_, Some a) => a_variant a = runtime r0 /\ a_seq a = rseq r0 /\
      a_config a = c_hash c /\ match a_ranks a with Some k => agree k = true | None => True end
  | Some (_, None) => False
  | None => True
  end /\
  ((pulled = Some (map Raw raw) /\ announced (rpoll r0') = announced (rpoll r0) /\
    (v_unsupported w = true \/ (read_file c (v_now w) (v_stat w) (v_content w) (rpoll r0)).2 = None \/
     announced (rpoll r0) = (read_file c (v_now w) (v_stat w) (v_content w) (rpoll r0)).2)) \/
   exists v t, pulled = Some (map Raw raw ++ [Marker v t (c_hash c)]) /\ 0 <= v < c_N c /\
     announced (rpoll r0') = Some (v, t) /\
     (read_file c (v_now w) (v_stat w) (v_content w) (rpoll r0)).2 = Some (v, t)).
Proof.
  intros (Hf & Han & Hack & Hstale) Hu. unfold pull_raw_reqs. simpl.
  set (s := Rank _ _ _ _ true _ _ _).
  set (s1 := if stale_checked r0 then s else drop_stale_ack c (v_unlink_ok w) s).
  assert (Hs1 : runtime s1 = runtime r0 /\ rseq s1 = rseq r0 /\ leader s1 = true /\
    stale_checked s1 = true /\ rpoll s1 = rpoll r0 /\
    match ack s1 with
    | Some (_, Some a) => a_variant a = runtime r0 /\ a_seq a = rseq r0 /\
        a_config a = c_hash c /\ match a_ranks a with Some k => agree k = true | None => True end
    | Some (_, None) => False
    | None => True
    end).
  { subst s1 s. destruct (stale_checked r0) eqn:Hst; simpl.
    - repeat split; try done. exact (Hack eq_refl).
    - repeat split; try done. specialize (Hstale eq_refl). unfold drop_stale_ack. simpl.
      destruct (ack r0) as [[mt r]|]; [|done]. destruct (Z.ltb_spec mt (c_start c)); [|lia].
      by rewrite Hu. }
  clearbody s1. destruct Hs1 as (Hr & Hq & Hl & Hst & Hp & Ha).
  destruct (v_unsupported w).
  { intros [= <- <-]. rewrite Hp. repeat split; try done. left. auto. }
  rewrite Hp.
  destruct (read_file_valid c (v_now w) (v_stat w) (v_content w) (rpoll r0) Hf) as (Hv & Hfile & Hann).
  destruct (read_file c _ _ _ (rpoll r0)) as [p wanted]. simpl in *.
  destruct wanted as [[v t]|].
  - case_bool_decide as Hb; intros [= <- <-]; simpl.
    + repeat split; try done; [by rewrite Hfile|]. left. rewrite Hann in Hb. auto.
    + repeat split; try done; [by rewrite Hfile|]. right. by exists v, t.
  - intros [= <- <-]. simpl. repeat split; try done; [by rewrite Hfile|]. left. auto.
Qed.

Lemma marker_filters (raw : list R) v t :
  filter (fun r => Is_true (is_marker r)) (map Raw raw ++ [Marker v t (c_hash c)]) =
    [Marker v t (c_hash c)] /\
  filter (fun r => Is_true (negb (is_marker r))) (map Raw raw ++ [Marker v t (c_hash c)]) =
    map Raw raw.
Proof. rewrite !filter_app, markers_raw, raw_kept. split; [done | apply app_nil_r]. Qed.

(** Receiving a marker of this configuration, when the collective confirms it. *)
Lemma recv_marker n now_ns (raw : list R) v t s :
  exists s', recv_requests c n now_ns (v, - v, rseq s + 1, - (rseq s + 1))
      (map Raw raw ++ [Marker v t (c_hash c)]) s = (s', Ok (map Raw raw)) /\
    runtime s' = v /\ rseq s' = rseq s + 1 /\ leader s' = leader s /\ rpoll s' = rpoll s /\
    stale_checked s' = stale_checked s /\
    (leader s = true -> exists k, ack s' = Some (now_ns, Some (Ack v t (rseq s + 1) (c_hash c) k)) /\
       match k with Some r => agree r = true | None => True end).
Proof.
  unfold recv_requests. destruct (marker_filters raw v t) as [-> ->]. simpl.
  rewrite String.eqb_refl. simpl. unfold check_ranks_agree. simpl.
  assert (Hag : ((- - v =? v) && (v =? v) && (- - (rseq s + 1) =? rseq s + 1) &&
    (rseq s + 1 =? rseq s + 1)) = true) by blia.
  destruct (n <=? 1), (leader s) eqn:Hl; simpl; rewrite ?Hag; eexists; (split; [reflexivity|]);
    simpl; repeat split; try done; intros _; eexists; split; try reflexivity; simpl; try done.
Qed.

Lemma contribution_marker (raw : list R) v t s :
  contribution c (map Raw raw ++ [Marker v t (c_hash c)]) s = (v, - v, rseq s + 1, - (rseq s + 1)).
Proof.
  unfold contribution. destruct (marker_filters raw v t) as [-> _]. simpl.
  by rewrite String.eqb_refl.
Qed.

(** Requests without a marker pass through every rank untouched. *)
Lemma recv_raw n now_ns tt (raw : list R) s : recv_requests c n now_ns tt (map Raw raw) s = (s, Ok (map Raw raw)).
Proof. unfold recv_requests. by rewrite markers_raw. Qed.
Lemma recv_raw_all n now_ns tt (raw : list R) l : map (fun s => (recv_requests c n now_ns tt (map Raw raw) s).1) l = l.
Proof. induction l as [|o l IH]; [done|]. cbn [map]. by rewrite recv_raw, IH. Qed.

(** What an iteration does to a group in step. *)
Lemma iteration_ok w now_ns (raw : list R) rs :
  group_ok rs -> v_unlink_ok w = true ->
  let rs' := (iteration c w now_ns raw rs).1 in
  group_ok rs' /\ length rs' = length rs /\
  (exists r0', head rs' = Some r0' /\ stale_checked r0' = true) /\
  Forall (fun out => out = Ok (map Raw raw)) (iteration c w now_ns raw rs).2 /\
  (v_unsupported w = false -> forall r0 want, head rs = Some r0 ->
     (read_file c (v_now w) (v_stat w) (v_content w) (rpoll r0)).2 = Some want ->
     exists r0', head rs' = Some r0' /\ runtime r0' = want.1).
Proof.
  destruct rs as [|r0 others]; [done|]. intros (Hl & Hb & Hsame & Hoth) Hu. unfold iteration.
  destruct (pull_raw_reqs c w _ r0) as [r0' pulled] eqn:Hp.
  destruct (pull_ok w raw r0 r0' pulled Hl Hu Hp)
    as (Hr & Hq & Hlead & Hst & Hvf & Hack & Hcase).
  apply Forall_cons in Hsame as [_ Hsame].
  destruct Hcase as [(-> & Hann & Hwhy) | (v & t & -> & Hv & Hann & Hread)]; simpl.
  - rewrite !map_map, recv_raw, recv_raw_all. simpl. split; [|split; [done|split; [by eauto|split]]].
    + split; [|rewrite Hr, Hq; split; [done|]; split; [by constructor|done]].
      split; [done|]. split; [|split; [intros _; by rewrite Hr, Hq|congruence]].
      rewrite Hann, Hr. apply Hl.
    + constructor; [done|]. apply Forall_map, Forall_true. intros s. by rewrite recv_raw.
    + intros Hun r want [= <-] Hw. exists r0'. split; [done|]. rewrite Hr.
      destruct Hwhy as [?|[?|Ha]]; [congruence..|]. rewrite Hw in Ha.
      destruct Hl as (_ & Hla & _). by rewrite Ha in Hla.
  - set (reqs := map Raw raw ++ [Marker v t (c_hash c)]).
    assert (Ht : reduce_max (contribution c reqs r0' :: map (contribution c reqs) others) =
      (v, - v, rseq r0 + 1, - (rseq r0 + 1))).
    { apply reduce_max_same; [done|]. constructor; [by unfold reqs; rewrite contribution_marker, Hq|].
      apply Forall_map. eapply Forall_impl; [exact Hsame|]. intros s [_ Hs].
      unfold reqs. simpl. by rewrite contribution_marker, Hs. }
    rewrite Ht, !map_map.
    set (n := zlen (r0' :: others)).
    assert (Hothers : Forall (fun s => exists s', recv_requests c n now_ns
        (v, - v, rseq r0 + 1, - (rseq r0 + 1)) reqs s = (s', Ok (map Raw raw)) /\
        (runtime s' = v /\ rseq s' = rseq r0 + 1) /\ leader s' = false) others).
    { apply Forall_forall. intros s Hs. rewrite Forall_forall in Hsame, Hoth.
      destruct (Hsame s Hs) as [_ Hsq]. destruct (recv_marker n now_ns raw v t s)
        as (s' & He & H1 & H2 & H3 & _). rewrite <- Hsq. exists s'. split; [exact He|].
      split; [done|]. rewrite H3. by apply Hoth. }
    destruct (recv_marker n now_ns raw v t r0') as (s0 & He & H1 & H2 & H3 & H4 & H5 & H6).
    rewrite Hq in He, H2, H6. fold reqs in He. rewrite He. simpl.
    destruct (H6 Hlead) as (k & Hk & Hkr).
    split; [|split; [by rewrite length_map|split; [|split]]].
    + split; [|rewrite H1; split; [done|]; split].
      * split; [by rewrite H4|]. rewrite H4, Hann, H5, Hst. split; [done|]. split; [|done].
        intros _. rewrite Hk. simpl. repeat split; done.
      * constructor; [done|]. apply Forall_map. eapply Forall_impl; [exact Hothers|].
        simpl. intros s (s' & -> & Hs' & _). simpl. by rewrite H2.
      * apply Forall_map. eapply Forall_impl; [exact Hothers|]. simpl. by intros s (s' & -> & _ & ?).
    + exists s0. split; [done|]. by rewrite H5.
    + constructor; [done|]. apply Forall_map. eapply Forall_impl; [exact Hothers|].
      simpl. by intros s (s' & -> & _).
    + intros _ r want [= <-] Hw. exists s0. split; [done|]. rewrite Hread in Hw. by simplify_eq.
Qed.

End Lockstep.

(** The group after a number of iterations. *)
Definition run {R} (c : conf) (ins : list (view * Z * list R)) (rs : list rank) : list rank :=
  fold_left (fun rs i => (iteration c i.1.1 i.1.2 i.2 rs).1) ins rs.

Lemma run_ok {R} c (ins : list (view * Z * list R)) rs :
  group_ok c rs -> Forall (fun i => v_unlink_ok i.1.1 = true) ins ->
  group_ok c (run c ins rs) /\ length (run c ins rs) = length rs.
Proof.
  revert rs. induction ins as [|[[w now_ns] raw] ins IH]; intros rs Hg; simpl; [done|].
  intros [Hu Hins]%Forall_cons. destruct (iteration_ok c w now_ns raw rs Hg Hu) as (Hg' & Hl & _).
  destruct (IH _ Hg' Hins) as [H1 H2]. split; [done|]. by rewrite H2, Hl.
Qed.


Definition ex_conf : conf := Conf 2 5 100 "cafe".

Definition ex_view (now mtime : Z) (text : string) : view :=
  View now (Some (mtime, 3, 77)) (Some text) true false.

Definition ex_ins : list (view * Z * list nat) :=
  [(ex_view 10 50 "1 old", 120, [4; 5]%nat); (ex_view 20 130 "1 go", 131, [6]%nat)].

Example ex_run : map runtime (run ex_conf ex_ins [boot (Some (60, None)); boot None; boot None]) =
  [1; 1; 1].
Proof. vm_compute. reflexivity. Qed.

