(* ===== verification/PrefillSp.v ===== *)
(** * Prefill sequence parallel (adapter/prefill_sp.py)

    The row partition of a prefill chunk over the TP ranks, the collectives that move
    rows, the tail rows of bounded replay, the Engram on the shard with its self-check,
    the patched attention and MoE, and the layer loop, on all ranks at once: a tensor a
    rank holds is a list of rows, and what every rank holds is a list over the ranks.
    The engine's own layers, sublayers, Engram and collectives are parameters: a layer
    on one rank is a program that returns its rows or calls its attention or MoE.  The
    MXFP8 gathers, the debug comparisons, the drift guard's hashes and the kernels
    behind the row-count gates are not modelled. *)
From S2P Require Import Prelude.
#[local] Open Scope list_scope.
#[local] Open Scope Z_scope.

(** ** The row partition *)

Record plan := Plan { rows : Z; world : Z; sharded : bool; exact : bool }.

Definition shard (p : plan) : Z := rows p / world p.
Definition lo (p : plan) (rank : nat) : Z := Z.of_nat rank * shard p.
Definition hi (p : plan) (rank : nat) : Z := (Z.of_nat rank + 1) * shard p.
Definition in_rows (p : plan) : Z := if sharded p then shard p else rows p.
Definition ranks (p : plan) : list nat := seq 0 (Z.to_nat (world p)).

Definition eligible_rows (rows world min_rows : Z) : bool :=
  (1 <? world) && (min_rows <=? rows) && (rows mod world =? 0).

Definition shard_range (rows world rank : Z) : Z * Z :=
  let s := rows / world in (rank * s, (rank + 1) * s).

(** [tail_plan]: true for 'full', false for 'owners'. *)
Definition tail_plan (rows world tail_len : Z) : bool := rows <=? world * tail_len.

Definition owner_local (shard idx : Z) : Z * Z := let owner := idx / shard in (owner, idx - owner * shard).

(** [sp_logical_rows] for [n] rows, under the plan in force and [inner] gathered calls. *)
Definition sp_logical_rows (ctx : option plan) (inner n : Z) : Z :=
  match ctx with
  | None => n
  | Some p => if (0 <? inner) || negb (sharded p) then n
              else if n =? shard p then rows p else n
  end.

(** What [_plan] looks at. *)
Record chunk := Chunk {
  c_off : bool;              (* MODE == "off" *)
  c_shard : bool;            (* MODE == "shard" *)
  c_exact : bool;            (* EXACT *)
  c_min_rows : Z;
  c_compiling : bool;        (* torch.compile or graph capture *)
  c_extend : bool;           (* extend without speculation *)
  c_breakable : bool;        (* breakable CUDA graph or context parallel *)
  c_scattered : bool;
  c_tensor_ok : bool;        (* [M, 4, D] bf16, contiguous, on the device *)
  c_rows : Z;
  c_world : Z;
  c_static_ok : bool }.      (* _static_check passes *)

Definition make_plan (c : chunk) : res (option plan) :=
  if c_off c then Ok None
  else if c_compiling c then Ok None
  else if negb (c_extend c) then Ok None
  else if c_breakable c then Ok None
  else if c_scattered c then Ok None
  else if negb (c_tensor_ok c) then Ok None
  else if negb (eligible_rows (c_rows c) (c_world c) (c_min_rows c)) then Ok None
  else if negb (c_static_ok c) then Raise RuntimeError
  else Ok (Some (Plan (c_rows c) (c_world c) (c_shard c) (c_exact c && c_shard c))).

(** The tail of bounded replay: a contiguous run to the last row or a list of rows, then
    padding. *)
Record tail := Tail { contiguous_start : option Z; token_indices : list Z; pad_rows : Z }.

(** [t[i]]: a row of a tensor. *)
Definition index {A} (l : list A) (i : Z) : res A :=
  let j := if i <? 0 then i + zlen l else i in
  match (if 0 <=? j then l !! Z.to_nat j else None) with
  | Some x => Ok x
  | None => Raise IndexError
  end.

Definition clamp (x a b : Z) : Z := Z.min (Z.max x a) b.

(** ** What the engine gives *)

(** A layer on one rank: it returns its residual rows and pre, or calls its attention or
    its MoE on rows and goes on with the result. *)
Inductive prog (T : Type) :=
  | Ret (R pre : list T)
  | Attn (x : list T) (k : list T -> prog T)
  | Moe (x : list T) (k : list T -> prog T).
Arguments Ret {T} _ _.
Arguments Attn {T} _ _.
Arguments Moe {T} _ _.

Record engine (T : Type) := Engine {
  zero : T;
  all_reduce : list (list T) -> list T;
  reduce_scatter : list (list T) -> list T;   (* every rank's block, in rank order *)
  layer : nat -> Z -> list T -> option (list T) -> prog T;  (* with the gates' row count *)
  attn_part : nat -> bool -> nat -> list T -> list T;       (* layer, late, rank: partial *)
  moe_part : nat -> bool -> nat -> list T -> list T;
  engram_of : nat -> option nat;                            (* layer_hash_index *)
  shared : nat -> bool;                                     (* host-shared table *)
  lookup : nat -> nat -> list T;                            (* engram, rank: its rows *)
  wkv : nat -> list T -> list T;
  apply_gate : nat -> list T -> list T -> list T;
  engram_late : nat -> list T -> list T;
  torch_equal : list T -> list T -> bool;
  mean : list T -> list T;
  tail_rows_e : list T -> list T;                           (* tail.rows *)
  tail_ids_e : list Z -> list Z }.
Arguments zero {T} _.
Arguments all_reduce {T} _ _.
Arguments reduce_scatter {T} _ _.
Arguments layer {T} _ _ _ _ _.
Arguments attn_part {T} _ _ _ _ _.
Arguments moe_part {T} _ _ _ _ _.
Arguments engram_of {T} _ _.
Arguments shared {T} _ _.
Arguments lookup {T} _ _ _.
Arguments wkv {T} _ _ _.
Arguments apply_gate {T} _ _ _ _.
Arguments engram_late {T} _ _ _.
Arguments torch_equal {T} _ _ _.
Arguments mean {T} _ _.
Arguments tail_rows_e {T} _ _.
Arguments tail_ids_e {T} _ _.

(** The model's configuration, as the loop reads it. *)
Record model := Model {
  start_layer : nat;
  end_layer : nat;
  late_layer_start : nat;
  tail_writes_source_kv : bool;
  vision : bool;                 (* deepseek_v41 with vision layers *)
  image_token_id : Z;
  dspark_layers : list nat;      (* [] without capture_dspark *)
  WKV_SHARD : bool }.

Section Sp.
Context {T : Type} (E : engine T).
#[local] Abbreviation tensor := (list T).

(** ** Collectives *)

Definition blk {A} (p : plan) (t : list A) (rank : nat) : list A := py_slice t (lo p rank) (hi p rank).

Definition blocks (p : plan) (t : tensor) : list tensor := map (blk p t) (ranks p).

(** Every rank's copy of the same tensor. *)
Definition everywhere {A} (p : plan) (t : A) : list A := map (fun _ => t) (ranks p).

Definition gather_rows (xs : list tensor) : tensor := concat xs.

Definition reduce_rows (p : plan) (xs : list tensor) : list tensor :=
  if exact p then blocks p (all_reduce E xs) else blocks p (reduce_scatter E xs).

Definition reduce_out (p : plan) (xs : list tensor) : list tensor :=
  if sharded p then reduce_rows p xs
  else everywhere p (gather_rows (blocks p (reduce_scatter E xs))).

(** [_tail_real_rows] on every rank's shard; every rank gets the same rows. *)
Definition tail_real_rows (p : plan) (tl : tail) (ts : list tensor) : res tensor :=
  let n_tail := match contiguous_start tl with
                | Some start => rows p - start
                | None => zlen (token_indices tl)
                end in
  if tail_plan (rows p) (world p) n_tail || (n_tail =? 0) then
    let full := gather_rows ts in
    match contiguous_start tl with
    | Some start => Ok (py_slice full start (zlen full))
    | None => mapR (index full) (token_indices tl)
    end
  else
    let idx := match contiguous_start tl with
               | Some start => zrange start (rows p)
               | None => token_indices tl
               end in
    let owners := map (owner_local (shard p)) idx in
    match mapR (fun t => mapR (fun ol => index t (clamp ol.2 0 (shard p - 1))) owners) ts with
    | Raise e => Raise e
    | Ok buf =>
        mapR (fun jo => match index buf jo.2.1 with
                        | Raise e => Raise e
                        | Ok mine => index mine (Z.of_nat jo.1)
                        end) (imap pair owners)
    end.

Definition tail_rows (p : plan) (tl : tail) (ts : list tensor) : res tensor :=
  match tail_real_rows p tl ts with
  | Raise e => Raise e
  | Ok real => if pad_rows tl =? 0 then Ok real
               else Ok (real ++ replicate (Z.to_nat (pad_rows tl)) (zero E))
  end.

(** ** Attention and MoE *)

(** A call of the patched attention or MoE by every rank under the plan in force: the
    rows are gathered, every rank runs the sublayer without its all-reduce, and the
    partials are reduced; a call the patch does not recognise is the engine's own, with
    its all-reduce.  Ranks that part ways would hang; the model raises. *)
Definition sublayer (p : plan) (ctx : option plan) (part : nat -> tensor -> tensor)
    (xs : list tensor) : res (list tensor) :=
  let stock := everywhere p (all_reduce E (zip_with part (ranks p) xs)) in
  match ctx with
  | None => Ok stock
  | Some q =>
      let ours := map (fun x => zlen x =? in_rows q) xs in
      if forallb negb ours then Ok stock
      else if negb (forallb id ours) then Raise RuntimeError
      else
        let xf := gather_rows xs in
        let outs := zip_with (fun r x => part r (if sharded q then xf else x)) (ranks p) xs in
        if forallb (fun o => zlen o =? rows q) outs then Ok (reduce_out q outs)
        else Raise RuntimeError
  end.

Definition attn_forward (p : plan) (ctx : option plan) (i : nat) (late : bool) (xs : list tensor)
    : res (list tensor) := sublayer p ctx (attn_part E i late) xs.

Definition moe_forward (p : plan) (ctx : option plan) (i : nat) (late : bool) (xs : list tensor)
    : res (list tensor) := sublayer p ctx (moe_part E i late) xs.

Definition attn_arg (q : prog T) : res tensor :=
  match q with Attn x _ => Ok x | _ => Raise RuntimeError end.
Definition moe_arg (q : prog T) : res tensor :=
  match q with Moe x _ => Ok x | _ => Raise RuntimeError end.
Definition resume (q : prog T) (o : tensor) : prog T :=
  match q with Attn _ k => k o | Moe _ k => k o | Ret R pre => Ret R pre end.
Definition returned (q : prog T) : res (tensor * tensor) :=
  match q with Ret R pre => Ok (R, pre) | _ => Raise RuntimeError end.

(** A layer on all ranks in lockstep: rank 0's program [q] and the others' [qs]. *)
Fixpoint run_layer (p : plan) (ctx : option plan) (i : nat) (late : bool) (q : prog T)
    (qs : list (prog T)) : res (list (tensor * tensor)) :=
  match q with
  | Ret R pre =>
      match mapR returned qs with
      | Ok rest => Ok ((R, pre) :: rest)
      | Raise e => Raise e
      end
  | Attn x k =>
      match mapR attn_arg qs with
      | Raise e => Raise e
      | Ok xs =>
          match attn_forward p ctx i late (x :: xs) with
          | Ok (o :: os) => run_layer p ctx i late (k o) (zip_with resume qs os)
          | Ok [] => Raise RuntimeError
          | Raise e => Raise e
          end
      end
  | Moe x k =>
      match mapR moe_arg qs with
      | Raise e => Raise e
      | Ok xs =>
          match moe_forward p ctx i late (x :: xs) with
          | Ok (o :: os) => run_layer p ctx i late (k o) (zip_with resume qs os)
          | Ok [] => Raise RuntimeError
          | Raise e => Raise e
          end
      end
  end.

(** ** Engram on the shard *)

(** [_WKV_OK]: per Engram and row count, agreed by the ranks. *)
#[local] Abbreviation wkv_cache := (gmap (nat * Z) bool).

Definition wkv_shard (p : plan) (wkv_on_shard : bool) (e : nat) (embs : list tensor)
    (cache : wkv_cache) : wkv_cache * list tensor :=
  let full := wkv E e (gather_rows embs) in
  if negb wkv_on_shard then (cache, blocks p full)
  else
    let parts := map (wkv E e) embs in
    match cache !! (e, rows p) with
    | None =>
        let mine := blocks p full in
        let ok := forallb id (zip_with (torch_equal E) mine parts) in
        (<[(e, rows p) := ok]> cache, if ok then parts else mine)
    | Some true => (cache, parts)
    | Some false => (cache, blocks p full)
    end.

Definition sp_engram (p : plan) (wkv_on_shard : bool) (e : nat) (xs : list tensor)
    (cache : wkv_cache) : wkv_cache * list tensor :=
  let partial := negb (shared E e) in
  let embs := map (lookup E e) (ranks p) in
  if sharded p then
    let embs := if partial then reduce_rows p embs else zip_with (blk p) embs (ranks p) in
    let '(cache, kvs) := wkv_shard p wkv_on_shard e embs cache in
    (cache, zip_with (apply_gate E e) xs kvs)
  else
    let embs := if partial then reduce_out p embs else embs in
    (cache, zip_with (fun x emb => apply_gate E e x (wkv E e emb)) xs embs).

(** [torch.where((vis == image_token_id)[:, None, None], before, after)]. *)
Definition where_image (token : Z) (vis : list Z) (before after : tensor) : tensor :=
  zip_with (fun v ba => if v =? token then ba.1 else ba.2) vis (zip before after).

(** ** The layer loop *)

(** What the loop carries: every rank's residual and pre, whether the late layers have
    begun, the token ids, what the KV write of the last source layer was given, the
    auxiliary rows captured for the draft, and the self-check's results. *)
Record state := State {
  s_rows : list tensor;
  s_pre : option (list tensor);
  s_late : bool;
  s_ids : list Z;
  s_kv : option (list tensor * list tensor);
  s_aux : list (list tensor);
  s_cache : wkv_cache }.

(** The hand-over to the late layers at [late_layer_start]. *)
Definition enter_tail (m : model) (p : plan) (tl : tail) (s : state) : res state :=
  match s_pre s with
  | None => Raise AttributeError
  | Some pre =>
      let kv := if tail_writes_source_kv m then
                  Some (if sharded p
                        then (everywhere p (gather_rows (s_rows s)), everywhere p (gather_rows pre))
                        else (s_rows s, pre))
                else s_kv s in
      let ids := tail_ids_e E (s_ids s) in
      if sharded p then
        match tail_rows p tl (s_rows s), tail_rows p tl pre with
        | Ok R, Ok pr => Ok (State (everywhere p R) (Some (everywhere p pr)) true ids kv
                               (s_aux s) (s_cache s))
        | Raise e, _ => Raise e
        | _, Raise e => Raise e
        end
      else Ok (State (map (tail_rows_e E) (s_rows s)) (Some (map (tail_rows_e E) pre)) true ids kv
                 (s_aux s) (s_cache s))
  end.

(** The Engram of a layer, if it has one, and the vision rows it must not change. *)
Definition engram_step (m : model) (p : plan) (i : nat) (s : state) : state :=
  match engram_of E i with
  | None => s
  | Some e =>
      let before := s_rows s in
      let '(cache, after) :=
        if s_late s then (s_cache s, map (engram_late E e) before)
        else sp_engram p (WKV_SHARD m) e before (s_cache s) in
      let after :=
        if vision m then
          if negb (s_late s) && sharded p
          then zip_with (fun r ba => where_image (image_token_id m) (blk p (s_ids s) r) ba.1 ba.2)
                 (ranks p) (zip before after)
          else zip_with (where_image (image_token_id m) (s_ids s)) before after
        else after in
      State after (s_pre s) (s_late s) (s_ids s) (s_kv s) (s_aux s) cache
  end.

(** The rows captured for the draft at a layer it reads. *)
Definition capture_step (m : model) (p : plan) (tl : option tail) (i : nat) (s : state) : res state :=
  if negb (bool_decide (i ∈ dspark_layers m)) then Ok s
  else
    let aux :=
      if negb (s_late s) && sharded p then
        match tl with
        | Some t => everywhere p <$> tail_rows p t (s_rows s)
        | None => Ok (everywhere p (gather_rows (s_rows s)))
        end
      else match tl with
           | Some _ => if Nat.ltb i (late_layer_start m) then Ok (map (tail_rows_e E) (s_rows s))
                       else Ok (s_rows s)
           | None => Ok (s_rows s)
           end in
    match aux with
    | Raise e => Raise e
    | Ok a => Ok (State (s_rows s) (s_pre s) (s_late s) (s_ids s) (s_kv s)
                    (s_aux s ++ [map (mean E) a]) (s_cache s))
    end.

(** The layer itself, with the plan in force only inside the full-row region. *)
Definition layer_step (p : plan) (i : nat) (s : state) : res state :=
  let ctx := if s_late s then None else Some p in
  let prog_of r R := layer E i (sp_logical_rows ctx 0 (zlen R)) R
                       (match s_pre s with Some pre => pre !! r | None => None end) in
  match zip_with prog_of (ranks p) (s_rows s) with
  | [] => Raise RuntimeError
  | q :: qs =>
      match run_layer p ctx i (s_late s) q qs with
      | Raise e => Raise e
      | Ok out => Ok (State (map fst out) (Some (map snd out)) (s_late s) (s_ids s) (s_kv s)
                        (s_aux s) (s_cache s))
      end
  end.

Definition loop_body (m : model) (p : plan) (tl : option tail) (i : nat) (s : state) : res state :=
  match (match tl with
         | Some t => if Nat.eqb i (late_layer_start m) then enter_tail m p t s else Ok s
         | None => Ok s
         end) with
  | Raise e => Raise e
  | Ok s => match capture_step m p tl i (engram_step m p i s) with
            | Raise e => Raise e
            | Ok s => layer_step p i s
            end
  end.

Fixpoint loop (m : model) (p : plan) (tl : option tail) (todo : list nat) (s : state)
    : res state :=
  match todo with
  | [] => Ok s
  | i :: todo' => match loop_body m p tl i s with
                  | Raise e => Raise e
                  | Ok s' => loop m p tl todo' s'
                  end
  end.

(** [_sp_forward_layers] on the chunk's rows [hidden] and ids, with the tail of bounded
    replay if there is one; every rank starts from the same rows. *)
Definition sp_forward_layers (m : model) (p : plan) (tl : option tail) (hidden : tensor)
    (ids : list Z) (cache : wkv_cache) : res state :=
  let s0 := State (if sharded p then blocks p hidden else everywhere p hidden) None false ids None
              [] cache in
  match loop m p tl (seq (start_layer m) (end_layer m - start_layer m)) s0 with
  | Raise e => Raise e
  | Ok s =>
      if s_late s then Ok s
      else if sharded p then
        match s_pre s with
        | None => Raise AttributeError
        | Some pre => Ok (State (everywhere p (gather_rows (s_rows s)))
                            (Some (everywhere p (gather_rows pre))) false (s_ids s) (s_kv s)
                            (s_aux s) (s_cache s))
        end
      else Ok s
  end.

(** ** The reference: every row on every rank

    The stock forward over all rows at once, its sublayers and Engram lookups reduced by
    [red]: the engine's own is [all_reduce]. *)
Fixpoint run_full (red : list tensor -> tensor) (p : plan) (i : nat) (late : bool) (q : prog T)
    : tensor * tensor :=
  match q with
  | Ret R pre => (R, pre)
  | Attn x k =>
      run_full red p i late (k (red (map (fun r => attn_part E i late r x) (ranks p))))
  | Moe x k =>
      run_full red p i late (k (red (map (fun r => moe_part E i late r x) (ranks p))))
  end.

Record full_state := Full {
  f_rows : tensor;
  f_pre : option tensor;
  f_late : bool;
  f_ids : list Z;
  f_kv : option (tensor * tensor);
  f_aux : list tensor }.

Definition full_enter (m : model) (s : full_state) : res full_state :=
  match f_pre s with
  | None => Raise AttributeError
  | Some pre =>
      Ok (Full (tail_rows_e E (f_rows s)) (Some (tail_rows_e E pre)) true (tail_ids_e E (f_ids s))
            (if tail_writes_source_kv m then Some (f_rows s, pre) else f_kv s) (f_aux s))
  end.

Definition full_engram (red : list tensor -> tensor) (m : model) (p : plan) (i : nat)
    (s : full_state) : full_state :=
  match engram_of E i with
  | None => s
  | Some e =>
      let after :=
        if f_late s then engram_late E e (f_rows s)
        else
          let emb := if shared E e then lookup E e 0 else red (map (lookup E e) (ranks p)) in
          apply_gate E e (f_rows s) (wkv E e emb) in
      Full (if vision m then where_image (image_token_id m) (f_ids s) (f_rows s) after else after)
        (f_pre s) (f_late s) (f_ids s) (f_kv s) (f_aux s)
  end.

Definition full_capture (m : model) (tl : option tail) (i : nat) (s : full_state) : full_state :=
  if negb (bool_decide (i ∈ dspark_layers m)) then s
  else
    let aux := match tl with
               | Some _ => if f_late s then f_rows s else tail_rows_e E (f_rows s)
               | None => f_rows s
               end in
    Full (f_rows s) (f_pre s) (f_late s) (f_ids s) (f_kv s) (f_aux s ++ [mean E aux]).

Definition full_layer (red : list tensor -> tensor) (p : plan) (i : nat) (s : full_state)
    : full_state :=
  let '(R, pre) := run_full (if f_late s then all_reduce E else red) p i (f_late s)
                     (layer E i (zlen (f_rows s)) (f_rows s) (f_pre s)) in
  Full R (Some pre) (f_late s) (f_ids s) (f_kv s) (f_aux s).

Fixpoint full_loop (red : list tensor -> tensor) (m : model) (p : plan) (tl : option tail)
    (todo : list nat) (s : full_state) : res full_state :=
  match todo with
  | [] => Ok s
  | i :: todo' =>
      match (match tl with
             | Some _ => if Nat.eqb i (late_layer_start m) then full_enter m s else Ok s
             | None => Ok s
             end) with
      | Raise e => Raise e
      | Ok s => full_loop red m p tl todo'
                  (full_layer red p i (full_capture m tl i (full_engram red m p i s)))
      end
  end.

(** The stock forward of a chunk. *)
Definition full_forward (red : list tensor -> tensor) (m : model) (p : plan) (tl : option tail)
    (hidden : tensor) (ids : list Z) : res full_state :=
  full_loop red m p tl (seq (start_layer m) (end_layer m - start_layer m))
    (Full hidden None false ids None []).

End Sp.

(** ** The partition *)

(** A plan that [_plan] makes: the rows split evenly over more than one rank. *)
Definition plan_ok (p : plan) : Prop :=
  1 < world p /\ 0 < rows p /\ rows p mod world p = 0 /\ (exact p = true -> sharded p = true).

Section Partition.
Context (p : plan) (Hp : plan_ok p).

Lemma rows_shard : rows p = world p * shard p.
Proof. destruct Hp as (Hw & _ & Hm & _). unfold shard. apply Z.div_exact in Hm; lia. Qed.

Lemma shard_pos : 0 < shard p.
Proof. destruct Hp as (Hw & Hr & _ & _). pose proof rows_shard. nia. Qed.

Lemma ranks_elem r : r ∈ ranks p <-> Z.of_nat r < world p.
Proof. unfold ranks. rewrite elem_of_seq. lia. Qed.

Lemma ranks_cons : ranks p = 0%nat :: seq 1 (Z.to_nat (world p) - 1).
Proof.
  destruct Hp as (Hw & _). unfold ranks.
  replace (Z.to_nat (world p)) with (S (Z.to_nat (world p) - 1)) at 1 by lia. reflexivity.
Qed.

Lemma blk_bounds r : r ∈ ranks p -> 0 <= lo p r /\ lo p r <= hi p r <= rows p.
Proof.
  intros Hr%ranks_elem. pose proof rows_shard. pose proof shard_pos. unfold lo, hi. nia.
Qed.

Lemma blk_take {A} (t : list A) r :
  zlen t = rows p -> r ∈ ranks p ->
  blk p t r = take (Z.to_nat (shard p)) (drop (r * Z.to_nat (shard p)) t).
Proof.
  intros Ht Hr. destruct (blk_bounds r Hr). pose proof shard_pos. unfold blk.
  rewrite py_slice_in by lia. unfold lo, hi. f_equal; [f_equal; lia|]. f_equal. nia.
Qed.

Lemma blk_len {A} (t : list A) r : zlen t = rows p -> r ∈ ranks p -> zlen (blk p t r) = shard p.
Proof.
  intros Ht Hr. rewrite blk_take by done. pose proof shard_pos. pose proof rows_shard.
  apply ranks_elem in Hr. unfold zlen in *. rewrite length_take, length_drop. nia.
Qed.

Lemma blk_lookup {A} (t : list A) r k :
  zlen t = rows p -> r ∈ ranks p -> (k < Z.to_nat (shard p))%nat ->
  blk p t r !! k = t !! (r * Z.to_nat (shard p) + k)%nat.
Proof. intros Ht Hr Hk. rewrite blk_take by done. by rewrite lookup_take_lt, lookup_drop by lia. Qed.

Lemma concat_takes {A} (s n : nat) (t : list A) b :
  (length t = (b + n) * s)%nat ->
  concat (map (fun r => take s (drop (r * s) t)) (seq b n)) = drop (b * s) t.
Proof.
  revert b. induction n as [|n IH]; intros b Hl; simpl.
  - rewrite drop_ge; [done|]. lia.
  - rewrite IH by lia. replace (S b * s)%nat with (b * s + s)%nat by lia.
    rewrite <- drop_drop. apply take_drop.
Qed.

(** Gathering the blocks gives the tensor back. *)
Lemma gather_blocks {A} (t : list A) : zlen t = rows p -> concat (map (blk p t) (ranks p)) = t.
Proof.
  intros Ht. pose proof rows_shard. pose proof shard_pos. destruct Hp as (Hw & _).
  rewrite (map_ext_in (blk p t) (fun r => take (Z.to_nat (shard p)) (drop (r * Z.to_nat (shard p)) t))).
  - unfold ranks. rewrite concat_takes; [by rewrite drop_0|]. unfold zlen in Ht. nia.
  - intros r Hr%list_elem_of_In. by apply blk_take.
Qed.

Lemma everywhere_elem {A} (t u : A) : u ∈ everywhere p t -> u = t.
Proof. unfold everywhere. intros (r & -> & _)%list_elem_of_fmap. done. Qed.

(** An owner and its local row are the row's position. *)
Lemma owner_local_spec i :
  0 <= i < rows p ->
  let '(o, l) := owner_local (shard p) i in
  0 <= o < world p /\ 0 <= l < shard p /\ i = o * shard p + l.
Proof.
  intros Hi. unfold owner_local. pose proof shard_pos. pose proof rows_shard.
  pose proof (Z.div_mod i (shard p) ltac:(lia)). pose proof (Z.mod_pos_bound i (shard p) ltac:(lia)).
  assert (0 <= i / shard p < world p) by (split; [apply Z.div_pos; lia | apply Z.div_lt_upper_bound; nia]).
  nia.
Qed.

Lemma index_nat {A} (l : list A) i x :
  0 <= i -> l !! Z.to_nat i = Some x -> index l i = Ok x.
Proof.
  intros Hi Hl. unfold index. destruct (Z.ltb_spec i 0); [lia|].
  destruct (Z.leb_spec 0 i); [|lia]. by rewrite Hl.
Qed.

End Partition.

(** ** The tail rows *)

Lemma mapR_map {A B} (f : A -> res B) (g : A -> B) l :
  (forall x, x ∈ l -> f x = Ok (g x)) -> mapR f l = Ok (map g l).
Proof.
  induction l as [|x l IH]; intros Hf; simpl; [done|].
  rewrite Hf by by left. rewrite IH; [done|]. intros y Hy. apply Hf. by right.
Qed.

(** [tail.real_rows] of all rows. *)
Definition real_rows {A} (tl : tail) (t : list A) : res (list A) :=
  match contiguous_start tl with
  | Some start => Ok (py_slice t start (zlen t))
  | None => mapR (index t) (token_indices tl)
  end.

Definition tail_ok (p : plan) (tl : tail) : Prop :=
  match contiguous_start tl with
  | Some start => 0 <= start <= rows p
  | None => Forall (fun i => 0 <= i < rows p) (token_indices tl)
  end.

Section TailRows.
Context {T : Type} (E : engine T) (p : plan) (Hp : plan_ok p).

Lemma row_lookup (t : list T) i : 0 <= i < zlen t -> t !! Z.to_nat i = Some (nth (Z.to_nat i) t (zero E)).
Proof.
  intros Hi. unfold zlen in Hi. destruct (lookup_lt_is_Some_2 t (Z.to_nat i)) as [x Hx]; [lia|].
  by rewrite Hx, list.nth_lookup, Hx.
Qed.

Lemma index_nth (t : list T) i : 0 <= i < zlen t -> index t i = Ok (nth (Z.to_nat i) t (zero E)).
Proof. intros Hi. apply index_nat; [lia|]. by apply row_lookup. Qed.

Lemma drop_zrange (t : list T) start :
  0 <= start <= zlen t ->
  map (fun i => nth (Z.to_nat i) t (zero E)) (zrange start (zlen t)) = drop (Z.to_nat start) t.
Proof.
  intros Hs. apply list_eq. intros k. rewrite lookup_drop, list_lookup_fmap.
  unfold zrange. destruct (decide (Z.of_nat k < zlen t - start)) as [Hk|Hk].
  - rewrite lookup_seqZ_lt by lia. simpl. unfold zlen in *.
    replace (Z.to_nat start + k)%nat with (Z.to_nat (start + Z.of_nat k)) by lia.
    symmetry. apply row_lookup. unfold zlen. lia.
  - rewrite lookup_seqZ_ge by lia. simpl. symmetry. apply lookup_ge_None_2. unfold zlen in *. lia.
Qed.

(** The owners' path fetches the rows at the positions asked for. *)
Lemma owners_rows (t : list T) idx :
  zlen t = rows p -> Forall (fun i => 0 <= i < rows p) idx ->
  let owners := map (owner_local (shard p)) idx in
  match mapR (fun t' => mapR (fun ol => index t' (clamp ol.2 0 (shard p - 1))) owners) (blocks p t) with
  | Raise e => Raise e
  | Ok buf => mapR (fun jo => match index buf jo.2.1 with
                              | Raise e => Raise e
                              | Ok mine => index mine (Z.of_nat jo.1)
                              end) (imap pair owners)
  end = Ok (map (fun i => nth (Z.to_nat i) t (zero E)) idx).
Proof.
  intros Ht Hidx owners. set (pick t' := map (fun ol : Z * Z => nth (Z.to_nat ol.2) t' (zero E)) owners).
  assert (Hown : forall ol, ol ∈ owners -> 0 <= ol.1 < world p /\ 0 <= ol.2 < shard p).
  { intros ol (i & -> & Hi)%list_elem_of_fmap. rewrite Forall_forall in Hidx.
    pose proof (owner_local_spec p Hp i (Hidx i Hi)). destruct (owner_local _ i). simpl. tauto. }
  rewrite (mapR_map _ pick).
  2: { intros t' (r & -> & Hr)%list_elem_of_fmap. apply mapR_map. intros ol Hol.
    destruct (Hown ol Hol) as [_ Hl]. unfold clamp. rewrite Z.max_l, Z.min_l by lia.
    apply index_nth. rewrite (blk_len p Hp) by done. lia. }
  assert (Hall : forall jo, jo ∈ imap pair owners ->
    match index (map pick (blocks p t)) jo.2.1 with
    | Raise e => Raise e
    | Ok mine => index mine (Z.of_nat jo.1)
    end = Ok (nth (Z.to_nat (jo.2.1 * shard p + jo.2.2)) t (zero E))).
  { intros [j ol] Hj. apply elem_of_lookup_imap in Hj as (j' & ol' & [= <- <-] & Hj). simpl.
    destruct (Hown ol) as [Ho Hl]; [by eapply list_elem_of_lookup_2|].
    pose proof (shard_pos p Hp). pose proof (rows_shard p Hp).
    assert (Hr : Z.to_nat ol.1 ∈ ranks p) by (apply ranks_elem; lia).
    rewrite (index_nat _ ol.1 (pick (blk p t (Z.to_nat ol.1)))).
    2: lia.
    2: { unfold blocks, ranks. rewrite !list_lookup_fmap, lookup_seq_lt by lia. simpl. done. }
    apply index_nat; [lia|]. rewrite Nat2Z.id. unfold pick. rewrite list_lookup_fmap, Hj. simpl.
    f_equal.
    assert (Hb : blk p t (Z.to_nat ol.1) !! Z.to_nat ol.2 =
      t !! Z.to_nat (ol.1 * shard p + ol.2)).
    { rewrite (blk_lookup p Hp) by (done || lia). f_equal. nia. }
    rewrite !row_lookup in Hb; [by injection Hb|nia|rewrite (blk_len p Hp) by done; lia]. }
  rewrite (mapR_map _ _ _ Hall). f_equal. apply list_eq. intros k.
  rewrite !list_lookup_fmap, list_lookup_imap. unfold owners. rewrite list_lookup_fmap.
  destruct (idx !! k) as [i|] eqn:Hi; [|done]. simpl. f_equal. f_equal. f_equal.
  rewrite Forall_lookup in Hidx. pose proof (owner_local_spec p Hp i (Hidx k i Hi)).
  destruct (owner_local _ i). simpl. lia.
Qed.

Lemma tail_real_rows_spec tl (t : list T) :
  zlen t = rows p -> tail_ok p tl -> tail_real_rows p tl (blocks p t) = real_rows tl t.
Proof.
  intros Ht Htl. unfold tail_real_rows, gather_rows, real_rows.
  unfold tail_ok in Htl. cbv zeta. destruct (_ || _).
  { unfold blocks. by rewrite (gather_blocks p Hp) by done. } destruct (contiguous_start tl) as [start|].
  - rewrite owners_rows; [|done|apply Forall_forall; intros i Hi%zrange_elem; lia].
    rewrite <- Ht, drop_zrange by lia. rewrite py_slice_in by lia. f_equal. symmetry. apply take_ge.
    rewrite length_drop. unfold zlen. lia.
  - rewrite owners_rows by done. symmetry. apply mapR_map. intros i Hi.
    rewrite Forall_forall in Htl. apply index_nth. rewrite Ht. by apply Htl.
Qed.

End TailRows.

#[local] Arguments sublayer : simpl never.
#[local] Arguments attn_forward : simpl never.
#[local] Arguments moe_forward : simpl never.
#[local] Arguments tail_rows : simpl never.
#[local] Arguments wkv_shard : simpl never.
#[local] Arguments reduce_rows : simpl never.
#[local] Arguments reduce_out : simpl never.

(** ** What the engine promises *)

Section Laws.
Context {T : Type} (E : engine T) (p : plan).

(** A layer does its work row by row between its attention and MoE calls: run on the
    blocks, it makes the same calls with the blocks of the same rows. *)
Inductive lockstep : list (prog T) -> prog T -> Prop :=
  | LRet R pre :
      zlen R = rows p -> zlen pre = rows p ->
      lockstep (map (fun r => Ret (blk p R r) (blk p pre r)) (ranks p)) (Ret R pre)
  | LAttn x k ks :
      zlen x = rows p ->
      (forall o, zlen o = rows p -> lockstep (map (fun r => ks r (blk p o r)) (ranks p)) (k o)) ->
      lockstep (map (fun r => Attn (blk p x r) (ks r)) (ranks p)) (Attn x k)
  | LMoe x k ks :
      zlen x = rows p ->
      (forall o, zlen o = rows p -> lockstep (map (fun r => ks r (blk p o r)) (ranks p)) (k o)) ->
      lockstep (map (fun r => Moe (blk p x r) (ks r)) (ranks p)) (Moe x k).

(** The wkv GEMM of [e] gives the same rows on the blocks of [t] as on [t]. *)
Definition wkv_exact (e : nat) (t : list T) : Prop :=
  forall r, r ∈ ranks p -> blk p (wkv E e t) r = wkv E e (blk p t r).

Definition same_len (n : Z) (ts : list (list T)) : Prop := ts <> [] /\ Forall (fun t => zlen t = n) ts.

Class EngineLaws (m : model) (tl : option tail) : Prop := {
  all_reduce_len n ts : same_len n ts -> zlen (all_reduce E ts) = n;
  reduce_scatter_len n ts : same_len n ts -> zlen (reduce_scatter E ts) = n;
  attn_len i late r x : zlen (attn_part E i late r x) = zlen x;
  moe_len i late r x : zlen (moe_part E i late r x) = zlen x;
  lookup_len e r : zlen (lookup E e r) = rows p;
  lookup_shared e r : shared E e = true -> lookup E e r = lookup E e 0;
  wkv_len e t : zlen (wkv E e t) = zlen t;
  (* a GEMM's exactness on the blocks depends on the shape alone *)
  wkv_shape e t t' : zlen t = rows p -> zlen t' = rows p -> wkv_exact e t -> wkv_exact e t';
  torch_equal_sound a b : torch_equal E a b = true -> a = b;
  gate_len e x kv : zlen x = rows p -> zlen kv = rows p -> zlen (apply_gate E e x kv) = rows p;
  gate_local e x kv r : zlen x = rows p -> zlen kv = rows p -> r ∈ ranks p ->
    blk p (apply_gate E e x kv) r = apply_gate E e (blk p x r) (blk p kv r);
  (* row-local between the calls, with the gates keyed on the chunk's row count *)
  layer_local i R pre : zlen R = rows p -> match pre with Some t => zlen t = rows p | None => True end ->
    lockstep (map (fun r => layer E i (rows p) (blk p R r) ((fun t => blk p t r) <$> pre)) (ranks p))
      (layer E i (rows p) R pre);
  tail_rows_law t : zlen t = rows p ->
    match tl with
    | Some u => tail_ok p u /\ exists real, real_rows u t = Ok real /\
        tail_rows_e E t = real ++ replicate (Z.to_nat (pad_rows u)) (zero E)
    | None => True
    end }.

End Laws.

(** The reduction a plan uses at its sites. *)
Definition plan_red {T} (E : engine T) (p : plan) : list (list T) -> list T :=
  if exact p then all_reduce E else reduce_scatter E.

Section Run.
Context {T : Type} (E : engine T) (p : plan) (Hp : plan_ok p) (m : model) (tl : option tail).
Context `{!EngineLaws E p m tl}.

Lemma plan_red_len n ts : same_len n ts -> zlen (plan_red E p ts) = n.
Proof. unfold plan_red. destruct (exact p); [eapply all_reduce_len | eapply reduce_scatter_len]; done. Qed.

Lemma same_len_parts n (part : nat -> list T -> list T) x :
  (forall r, zlen (part r x) = n) -> same_len n (map (fun r => part r x) (ranks p)).
Proof.
  intros Hl. split; [by rewrite (ranks_cons p Hp)|]. apply Forall_map, Forall_forall. intros r _. apply Hl.
Qed.

Lemma zip_with_map {A B C D} (f : B -> C -> D) (g : A -> B) (h : A -> C) l :
  zip_with f (map g l) (map h l) = map (fun x => f (g x) (h x)) l.
Proof. induction l as [|x l IH]; simpl; [done|]. by rewrite IH. Qed.

Lemma zip_with_map_r {A C D} (f : A -> C -> D) (h : A -> C) l :
  zip_with f l (map h l) = map (fun x => f x (h x)) l.
Proof. induction l as [|x l IH]; simpl; [done|]. by rewrite IH. Qed.

Lemma zip_with_map_l {A C D} (f : C -> A -> D) (h : A -> C) l :
  zip_with f (map h l) l = map (fun x => f (h x) x) l.
Proof. induction l as [|x l IH]; simpl; [done|]. by rewrite IH. Qed.

Lemma forallb_map_true {A} (f : A -> bool) l : (forall x, x ∈ l -> f x = true) -> forallb f l = true.
Proof. intros Hf. apply forallb_forall. intros x Hx. apply Hf. by apply list_elem_of_In. Qed.

(** What a call returns on every rank when the plan is in force. *)
Definition spread (late : bool) (t : list T) : list (list T) :=
  if negb late && sharded p then blocks p t else everywhere p t.

(** A reduction site hands every rank what it holds of the reduced rows. *)
Lemma reduce_out_spread ts :
  same_len (rows p) ts -> reduce_out E p ts = spread false (plan_red E p ts).
Proof.
  intros Hts. unfold reduce_out, reduce_rows, plan_red, spread. simpl.
  destruct (sharded p) eqn:Hs; [by destruct (exact p)|].
  assert (exact p = false) as ->.
  { destruct (exact p) eqn:He; [|done]. destruct Hp as (_ & _ & _ & H). by rewrite H in Hs. }
  unfold gather_rows, blocks. rewrite (gather_blocks p Hp); [done|].
  by eapply reduce_scatter_len.
Qed.

(** A call under the plan, on the spread rows. *)
Lemma sublayer_plan (part : nat -> list T -> list T) x :
  zlen x = rows p -> (forall r y, zlen (part r y) = zlen y) ->
  sublayer E p (Some p) part (spread false x) =
    Ok (spread false (plan_red E p (map (fun r => part r x) (ranks p)))).
Proof.
  intros Hx Hpart. unfold sublayer, spread. simpl.
  assert (Hlen : forall r, r ∈ ranks p ->
    zlen (if sharded p then blk p x r else x) = in_rows p).
  { intros r Hr. unfold in_rows. destruct (sharded p); [by apply (blk_len p Hp) | done]. }
  assert (Hxs : (if sharded p then blocks p x else everywhere p x) =
    map (fun r => if sharded p then blk p x r else x) (ranks p))
    by (unfold blocks, everywhere; by destruct (sharded p)).
  rewrite Hxs, map_map.
  assert (Hours : map (fun r => zlen (if sharded p then blk p x r else x) =? in_rows p) (ranks p) =
    map (fun _ => true) (ranks p)).
  { apply map_ext_in. intros r Hr%list_elem_of_In. rewrite Hlen by done. lia. }
  rewrite Hours.
  assert (Hneg : forallb negb (map (fun _ : nat => true) (ranks p)) = false)
    by (rewrite (ranks_cons p Hp); done).
  rewrite Hneg. rewrite (forallb_map_true id); [|by intros b (? & -> & _)%list_elem_of_fmap]. simpl.
  rewrite zip_with_map_r.
  set (outs := map _ (ranks p)).
  assert (Houts : outs = map (fun r => part r x) (ranks p)).
  { subst outs. apply map_ext_in. intros r Hr. destruct (sharded p); [|done].
    unfold gather_rows. by rewrite (gather_blocks p Hp). }
  rewrite Houts. rewrite (forallb_map_true (fun o => zlen o =? rows p)).
  2: { intros o (r & -> & _)%list_elem_of_fmap. rewrite Hpart. lia. }
  f_equal. apply reduce_out_spread, same_len_parts. intros r. by rewrite Hpart.
Qed.

(** A call of the engine's own, on the same rows everywhere. *)
Lemma sublayer_stock (part : nat -> list T -> list T) x :
  sublayer E p None part (everywhere p x) =
    Ok (everywhere p (all_reduce E (map (fun r => part r x) (ranks p)))).
Proof. unfold sublayer, everywhere. by rewrite zip_with_map_r. Qed.

(** ** A layer on all ranks *)

(** What rank [r] holds of [t] inside the region. *)
Definition arg (t : list T) (r : nat) : list T := if sharded p then blk p t r else t.

Lemma spread_arg t : spread false t = map (arg t) (ranks p).
Proof. unfold spread, arg, blocks, everywhere. simpl. by destruct (sharded p). Qed.

#[local] Abbreviation rest := (seq 1 (Z.to_nat (world p) - 1)).

Lemma map_ranks {A} (f : nat -> A) : map f (ranks p) = f 0%nat :: map f rest.
Proof. by rewrite (ranks_cons p Hp). Qed.

(** The ranks' programs for [q], whose sharded form is [qs]. *)
Definition progs_of (qs : list (prog T)) (q : prog T) : list (prog T) :=
  if sharded p then qs else everywhere p q.

Lemma progs_of_map (f : nat -> prog T) q :
  progs_of (map f (ranks p)) q = map (fun r => if sharded p then f r else q) (ranks p).
Proof. unfold progs_of, everywhere. by destruct (sharded p). Qed.

(** One call in lockstep, for either sublayer: [mk] is the call, [get] its argument. *)
Lemma run_layer_call (mk : list T -> (list T -> prog T) -> prog T) get part x ks k :
  (forall x k, get (mk x k) = Ok x) -> (forall x k o, resume (mk x k) o = k o) ->
  (forall r y, zlen (part r y) = zlen y) -> zlen x = rows p ->
  let o := plan_red E p (map (fun r => part r x) (ranks p)) in
  let kk r := if sharded p then ks r else k in
  exists os, mapR get (map (fun r => mk (arg x r) (kk r)) rest) = Ok (map (arg x) rest) /\
    sublayer E p (Some p) part (arg x 0 :: map (arg x) rest) = Ok (arg o 0 :: os) /\
    zip_with resume (map (fun r => mk (arg x r) (kk r)) rest) os = map (fun r => kk r (arg o r)) rest.
Proof.
  intros Hget Hres Hpart Hx o kk. exists (map (arg o) rest). split; [|split].
  - rewrite (mapR_map get (fun q => default [] (match get q with Ok t => Some t | _ => None end))).
    + f_equal. rewrite map_map. apply map_ext. intros r. by rewrite Hget.
    + intros q (r & -> & _)%list_elem_of_fmap. by rewrite Hget.
  - pose proof (sublayer_plan part x Hx Hpart) as Hs. rewrite !spread_arg in Hs. fold o in Hs.
    by rewrite (map_ranks (arg x)), (map_ranks (arg o)) in Hs.
  - rewrite zip_with_map. apply map_ext. intros r. apply Hres.
Qed.

(** The case of a call in [run_layer_plan], for the call [mk] of a sublayer [part]. *)
Ltac lockstep_call mk get part Hpart :=
  match goal with
  | Hx : zlen ?x = rows p, IH : forall o, zlen o = rows p -> let _ := _ in _ |- _ =>
      set (o := plan_red E p _);
      assert (Ho : zlen o = rows p) by (apply plan_red_len, same_len_parts; intros; by rewrite Hpart);
      destruct (IH o Ho) as (H1 & H2 & H3); split; [done|]; split; [done|]; revert H3;
      rewrite !progs_of_map, !(map_ranks (fun r => if sharded p then _ else _));
      match goal with
      | |- context [if sharded p then mk (blk p x 0) (?ks 0%nat) else mk x ?k] =>
          destruct (run_layer_call mk get part x ks k) as (os & E1 & E2 & E3);
            [done|done|intros; by rewrite Hpart|done|]; fold o in E2, E3;
          assert (Hm : map (fun r => if sharded p then mk (blk p x r) (ks r) else mk x k) rest =
            map (fun r => mk (arg x r) (if sharded p then ks r else k)) rest)
            by (apply map_ext; intros r; unfold arg; by destruct (sharded p));
          assert (Hm2 : map (fun r => if sharded p then ks r (blk p o r) else k o) rest =
            map (fun r => (if sharded p then ks r else k) (arg o r)) rest)
            by (apply map_ext; intros r; unfold arg; by destruct (sharded p));
          assert (Hq : (if sharded p then mk (blk p x 0) (ks 0%nat) else mk x k) =
            mk (arg x 0) (if sharded p then ks 0%nat else k))
            by (unfold arg; by destruct (sharded p));
          rewrite Hm, Hm2, Hq; simpl; try unfold attn_forward; try unfold moe_forward; rewrite E1, E2, E3; intros <-; f_equal;
          unfold arg; by destruct (sharded p)
      end
  end.

Lemma run_layer_plan i qs q :
  lockstep p qs q ->
  let out := run_full E (plan_red E p) p i false q in
  zlen out.1 = rows p /\ zlen out.2 = rows p /\
  match progs_of qs q with
  | q0 :: rs => run_layer E p (Some p) i false q0 rs =
                  Ok (map (fun r => (arg out.1 r, arg out.2 r)) (ranks p))
  | [] => False
  end.
Proof.
  induction 1 as [R pre HR Hpre | x k ks Hx Hk IH | x k ks Hx Hk IH]; simpl.
  - split; [done|]. split; [done|]. rewrite progs_of_map, !map_ranks.
    assert (Hr : (if sharded p then Ret (blk p R 0) (blk p pre 0) else Ret R pre) =
      Ret (arg R 0) (arg pre 0)) by (unfold arg; by destruct (sharded p)).
    rewrite Hr. simpl. rewrite (mapR_map returned (fun q => default ([], [])
      (match returned q with Ok t => Some t | _ => None end))).
    + f_equal. f_equal. rewrite map_map. apply map_ext. intros r. unfold arg. by destruct (sharded p).
    + intros q (r & -> & _)%list_elem_of_fmap. by destruct (sharded p).
  - lockstep_call (@Attn T) (@attn_arg T) (attn_part E i false) (attn_len E p (m:=m) (tl:=tl) i false).
  - lockstep_call (@Moe T) (@moe_arg T) (moe_part E i false) (moe_len E p (m:=m) (tl:=tl) i false).
Qed.

(** Outside the region every rank runs the engine's own layer on the same rows. *)
Lemma run_layer_stock i late q :
  run_layer E p None i late q (map (fun _ => q) rest) =
    Ok (everywhere p (run_full E (all_reduce E) p i late q)).
Proof.
  assert (Hx : forall (x : list T), x :: map (fun _ => x) rest = everywhere p x)
    by (intros x; unfold everywhere; by rewrite (ranks_cons p Hp)).
  induction q as [R pre|x k IH|x k IH]; cbn [run_layer run_full].
  - rewrite (mapR_map returned (fun _ => (R, pre))).
    + rewrite map_map. unfold everywhere. by rewrite (ranks_cons p Hp).
    + by intros q (? & -> & _)%list_elem_of_fmap.
  - rewrite (mapR_map attn_arg (fun _ => x)) by (by intros q (? & -> & _)%list_elem_of_fmap).
    try unfold attn_forward; try unfold moe_forward. rewrite map_map, Hx, sublayer_stock. unfold everywhere at 1. rewrite map_ranks.
    rewrite zip_with_map. simpl. apply IH.
  - rewrite (mapR_map moe_arg (fun _ => x)) by (by intros q (? & -> & _)%list_elem_of_fmap).
    try unfold attn_forward; try unfold moe_forward. rewrite map_map, Hx, sublayer_stock. unfold everywhere at 1. rewrite map_ranks.
    rewrite zip_with_map. simpl. apply IH.
Qed.

(** ** The Engram *)

(** The self-check only ever recorded truths. *)
Definition cache_ok (c : gmap (nat * Z) bool) : Prop :=
  forall e, c !! (e, rows p) = Some true -> forall t, zlen t = rows p -> wkv_exact E p e t.

Lemma wkv_shard_ok on e emb c :
  cache_ok c -> zlen emb = rows p ->
  let '(c', kvs) := wkv_shard E p on e (blocks p emb) c in
  cache_ok c' /\ kvs = blocks p (wkv E e emb).
Proof.
  intros Hc Hemb. unfold wkv_shard, gather_rows.
  assert (Hg : concat (blocks p emb) = emb) by (unfold blocks; by apply gather_blocks).
  rewrite Hg. destruct on; simpl; [|done].
  assert (Hex : wkv_exact E p e emb -> map (wkv E e) (blocks p emb) = blocks p (wkv E e emb)).
  { intros Hx. unfold blocks. rewrite map_map. apply map_ext_in. intros r Hr%list_elem_of_In.
    symmetry. by apply Hx. }
  destruct (c !! (e, rows p)) as [[]|] eqn:Hk; [|done|].
  { split; [done|]. apply Hex. by apply Hc. }
  set (ok := forallb id _). assert (Hok : ok = true -> wkv_exact E p e emb).
  { subst ok. unfold blocks. rewrite map_map, zip_with_map, forallb_forall. intros Hall r Hr.
    apply (torch_equal_sound E p (m:=m) (tl:=tl)). apply Hall. apply in_map_iff.
    exists r. split; [done|]. by apply list_elem_of_In. }
  split.
  - intros e' He' t Ht. destruct (decide ((e, rows p) = (e', rows p))) as [Heq|Hne].
    + injection Heq as <-. rewrite lookup_insert_eq in He'. injection He' as Ho.
      eapply (wkv_shape E p (tl:=tl) (m:=m) e emb); [done..|]. by apply Hok.
    + rewrite lookup_insert_ne in He' by done. by apply (Hc e').
  - destruct ok eqn:Ho; [|done]. apply Hex. by apply Hok.
Qed.

(** The Engram's embedding rows of the reference. *)
Definition full_emb (e : nat) : list T :=
  if shared E e then lookup E e 0 else plan_red E p (map (lookup E e) (ranks p)).

Lemma full_emb_len e : zlen (full_emb e) = rows p.
Proof.
  unfold full_emb. destruct (shared E e); [by eapply lookup_len|]. apply plan_red_len.
  split; [by rewrite map_ranks|]. apply Forall_map, Forall_forall. intros r _. by eapply lookup_len.
Qed.

Lemma sp_engram_ok on e R c :
  cache_ok c -> zlen R = rows p ->
  let '(c', out) := sp_engram E p on e (spread false R) c in
  cache_ok c' /\ out = spread false (apply_gate E e R (wkv E e (full_emb e))).
Proof.
  intros Hc HR. pose proof (full_emb_len e) as Hlen. unfold sp_engram.
  assert (Hsame : same_len (rows p) (map (lookup E e) (ranks p))).
  { split; [by rewrite map_ranks|]. apply Forall_map, Forall_forall. intros r _. by eapply lookup_len. }
  assert (Hout : reduce_out E p (map (lookup E e) (ranks p)) =
    spread false (plan_red E p (map (lookup E e) (ranks p)))) by by apply reduce_out_spread.
  assert (Hsh : shared E e = true -> map (lookup E e) (ranks p) = everywhere p (lookup E e 0)).
  { intros He. apply map_ext. intros r. by eapply lookup_shared. }
  unfold spread in *. simpl in *. unfold reduce_out in Hout. destruct (sharded p) eqn:Hs; simpl.
  - assert (Hembs : (if negb (shared E e) then reduce_rows E p (map (lookup E e) (ranks p))
      else zip_with (blk p) (map (lookup E e) (ranks p)) (ranks p)) = blocks p (full_emb e)).
    { unfold full_emb. destruct (shared E e) eqn:He; simpl; [|done]. rewrite Hsh by done.
      unfold everywhere. by rewrite zip_with_map_l. }
    rewrite Hembs. pose proof (wkv_shard_ok on e (full_emb e) c Hc Hlen) as Hw.
    destruct (wkv_shard E p on e (blocks p (full_emb e)) c) as [c' kvs]. destruct Hw as [Hc' ->].
    split; [done|]. unfold blocks. rewrite zip_with_map. apply map_ext_in.
    intros r Hr%list_elem_of_In. symmetry. apply (gate_local E p (m:=m) (tl:=tl)); [done| |done].
    by rewrite (wkv_len E p (m:=m) (tl:=tl)).
  - split; [done|]. assert (Hembs : (if negb (shared E e) then reduce_out E p (map (lookup E e) (ranks p))
      else map (lookup E e) (ranks p)) = everywhere p (full_emb e)).
    { unfold full_emb, reduce_out. rewrite Hs. destruct (shared E e) eqn:He; simpl; auto. }
    rewrite Hembs. unfold everywhere. by rewrite zip_with_map.
Qed.

(** The vision rows. *)
Lemma where_len token vis (a b : list T) :
  zlen vis = rows p -> zlen a = rows p -> zlen b = rows p ->
  zlen (where_image token vis a b) = rows p.
Proof. intros H1 H2 H3. unfold where_image, zlen in *. rewrite length_zip_with, length_zip_with. lia. Qed.

Lemma where_blk token vis (a b : list T) r :
  zlen vis = rows p -> zlen a = rows p -> zlen b = rows p -> r ∈ ranks p ->
  blk p (where_image token vis a b) r = where_image token (blk p vis r) (blk p a r) (blk p b r).
Proof.
  intros H1 H2 H3 Hr. rewrite !(blk_take p Hp) by (done || by apply where_len).
  unfold where_image. by rewrite !zip_with_drop, !zip_with_take.
Qed.

(** ** One turn of the loop *)

(** The ranks' state against the reference's. *)
Record rel (s : state) (f : full_state) : Prop := Rel {
  rel_rows : s_rows s = spread (s_late s) (f_rows f);
  rel_pre : s_pre s = spread (s_late s) <$> f_pre f;
  rel_late : s_late s = f_late f;
  rel_ids : s_ids s = f_ids f;
  rel_kv : s_kv s = (fun ab => (everywhere p ab.1, everywhere p ab.2)) <$> f_kv f;
  rel_aux : s_aux s = map (everywhere p) (f_aux f);
  rel_cache : cache_ok (s_cache s);
  rel_len : s_late s = false -> zlen (f_rows f) = rows p /\ zlen (f_ids f) = rows p /\
            match f_pre f with Some t => zlen t = rows p | None => True end }.

Lemma gather_spread t : sharded p = true -> zlen t = rows p -> gather_rows (spread false t) = t.
Proof.
  intros Hs Ht. unfold spread, gather_rows, blocks. simpl. rewrite Hs. by apply gather_blocks.
Qed.

Lemma tail_rows_ok u t :
  tl = Some u -> zlen t = rows p -> tail_rows E p u (blocks p t) = Ok (tail_rows_e E t).
Proof.
  intros Htl Ht. pose proof (tail_rows_law E p (m:=m) (tl:=tl) t Ht) as Hl. rewrite Htl in Hl.
  destruct Hl as (Hok & real & Hreal & ->). unfold tail_rows.
  rewrite (tail_real_rows_spec E p Hp u t Ht Hok), Hreal.
  destruct (Z.eqb_spec (pad_rows u) 0) as [->|]; [by rewrite app_nil_r | done].
Qed.

Lemma enter_ok u s f f' :
  tl = Some u -> rel s f -> s_late s = false -> full_enter E m f = Ok f' ->
  exists s', enter_tail E m p u s = Ok s' /\ rel s' f'.
Proof.
  intros Htl [Hr Hpre Hl Hids Hkv Haux Hc Hlen] Hlate. destruct (Hlen Hlate) as (L1 & L2 & L3).
  unfold full_enter, enter_tail. rewrite Hpre. destruct (f_pre f) as [pre|]; [|done]. simpl.
  intros [= <-]. rewrite Hr, Hlate. destruct (sharded p) eqn:Hs.
  - rewrite !gather_spread by done. unfold spread. rewrite Hs. simpl.
    rewrite !(tail_rows_ok u) by done. eexists. split; [done|].
    constructor; simpl; rewrite ?Hids; try done. by destruct (tail_writes_source_kv m).
  - eexists. split; [done|]. unfold spread. rewrite Hs. simpl.
    constructor; simpl; rewrite ?Hids; try done; try by destruct (tail_writes_source_kv m).
    all: unfold spread, everywhere; simpl; by rewrite map_map.
Qed.

Lemma engram_ok i s f :
  rel s f -> rel (engram_step E m p i s) (full_engram E (plan_red E p) m p i f).
Proof.
  intros [Hr Hpre Hl Hids Hkv Haux Hc Hlen]. unfold engram_step, full_engram.
  destruct (engram_of E i) as [e|]; [|done]. rewrite <- Hl. destruct (s_late s) eqn:Hlate; simpl.
  - assert (Hm : map (engram_late E e) (s_rows s) = everywhere p (engram_late E e (f_rows f)))
      by (rewrite Hr; unfold spread, everywhere; simpl; by rewrite map_map).
    constructor; simpl; rewrite ?Hids; try done.
    rewrite Hm. unfold spread; simpl. destruct (vision m); [|done].
    rewrite Hr. unfold spread, everywhere. simpl. by rewrite zip_with_map.
  - destruct (Hlen eq_refl) as (L1 & L2 & L3). rewrite Hr.
    pose proof (sp_engram_ok (WKV_SHARD m) e (f_rows f) (s_cache s) Hc L1) as Hsp.
    destruct (sp_engram E p (WKV_SHARD m) e (spread false (f_rows f)) (s_cache s)) as [c' out].
    destruct Hsp as [Hc' ->]. fold (full_emb e). set (after := apply_gate E e _ _).
    assert (La : zlen after = rows p).
    { apply (gate_len E p (m:=m) (tl:=tl)); [done|]. rewrite (wkv_len E p (m:=m) (tl:=tl)).
      apply full_emb_len. }
    constructor; simpl; rewrite ?Hlate; try done.
    + destruct (vision m); [|done]. unfold spread. simpl. rewrite Hids. destruct (sharded p) eqn:Hs.
      * unfold blocks. rewrite zip_with_map, zip_with_map_r. apply map_ext_in.
        intros r Hin%list_elem_of_In. simpl. symmetry. by apply where_blk.
      * unfold everywhere. by rewrite zip_with_map.
    + intros _. split; [|done]. destruct (vision m); [by apply where_len | done].
Qed.

Lemma capture_ok i s f :
  rel s f -> (tl <> None -> s_late s = negb (Nat.ltb i (late_layer_start m))) ->
  exists s', capture_step E m p tl i s = Ok s' /\ rel s' (full_capture E m tl i f) /\
    s_late s' = s_late s.
Proof.
  intros Hrel Hi. destruct Hrel as [Hr Hpre Hl Hids Hkv Haux Hc Hlen].
  unfold capture_step, full_capture. destruct (negb (bool_decide (i ∈ dspark_layers m))); [exists s; split; [done|]; split; [by constructor|done]|].
  rewrite <- Hl.
  assert (Haux' : forall a t, a = everywhere p t -> map (everywhere p) (f_aux f ++ [mean E t]) =
    s_aux s ++ [map (mean E) a]).
  { intros a t ->. rewrite map_app, Haux. unfold everywhere. simpl. by rewrite map_map. }
  set (aux := if negb (s_late s) && sharded p then _ else _).
  set (t := match tl with Some _ => _ | None => _ end).
  pose proof tail_rows_ok as Htail. pose proof gather_spread as Hgather.
  assert (Ha : exists a, aux = Ok a /\ a = everywhere p t).
 { subst aux t. rewrite Hr. destruct (s_late s) eqn:Hlate; simpl.
    - unfold spread. simpl. destruct tl as [u|]; [|by eauto].
      assert (Hlt : Nat.ltb i (late_layer_start m) = false)
        by (by rewrite <- (negb_involutive (Nat.ltb _ _)), <- Hi).
      rewrite Hlt. by eauto.
    - destruct (Hlen eq_refl) as (L1 & _). destruct (sharded p) eqn:Hs.
      + destruct tl as [u|] eqn:Htl.
        * unfold spread. rewrite Hs. simpl. rewrite (Htail u) by done. simpl. by eauto.
        * rewrite Hgather by done. by eauto.
      + unfold spread. rewrite Hs. simpl. destruct tl as [u|]; [|by eauto].
        assert (Hlt : Nat.ltb i (late_layer_start m) = true)
          by (by rewrite <- (negb_involutive (Nat.ltb _ _)), <- Hi).
        rewrite Hlt. eexists. split; [done|]. unfold everywhere. by rewrite map_map. }
  destruct Ha as (a & -> & Ha). eexists. split; [done|]. split; [|done].
  constructor; simpl; try done. by rewrite (Haux' a t Ha).
Qed.

Lemma layer_ok i s f :
  rel s f -> exists s', layer_step E p i s = Ok s' /\ rel s' (full_layer E (plan_red E p) p i f) /\
    s_late s' = s_late s.
Proof.
  intros [Hr Hpre Hl Hids Hkv Haux Hc Hlen]. unfold layer_step, full_layer. rewrite <- Hl.
  destruct (s_late s) eqn:Hlate.
  - assert (Hz : forall (pr : option (list T)),
      zip_with (fun r R => layer E i (sp_logical_rows None 0 (zlen R)) R
        (match spread true <$> pr with Some q => q !! r | None => None end)) (ranks p)
        (everywhere p (f_rows f)) = everywhere p (layer E i (zlen (f_rows f)) (f_rows f) pr)).
    { intros pr. unfold everywhere at 1. rewrite zip_with_map_r. apply map_ext_in.
      intros r Hin'%list_elem_of_In. simpl. f_equal. destruct pr as [q|]; [|done]. simpl.
      unfold spread, everywhere, ranks. simpl. apply ranks_elem in Hin'.
      by rewrite list_lookup_fmap, lookup_seq_lt by lia. }
    rewrite Hr, Hpre. unfold spread at 2. simpl. rewrite Hz. unfold everywhere. rewrite map_ranks.
    rewrite run_layer_stock. eexists. split; [done|].
    destruct (run_full E (all_reduce E) p i true _) as [R' pre']. split; [|done].
    constructor; simpl; try done; unfold spread, everywhere; simpl; by rewrite map_map.
  - destruct (Hlen eq_refl) as (L1 & L2 & L3).
    pose proof (layer_local E p (m:=m) (tl:=tl) i (f_rows f) (f_pre f) L1 L3) as Hlock.
    destruct (run_layer_plan i _ _ Hlock) as (H1 & H2 & H3). rewrite progs_of_map in H3.
    assert (Hz : zip_with (fun r R => layer E i (sp_logical_rows (Some p) 0 (zlen R)) R
        (match s_pre s with Some pr => pr !! r | None => None end)) (ranks p) (s_rows s) =
      map (fun r => if sharded p then layer E i (rows p) (blk p (f_rows f) r)
                      ((fun t => blk p t r) <$> f_pre f)
                    else layer E i (rows p) (f_rows f) (f_pre f)) (ranks p)).
    { rewrite Hr, Hpre, spread_arg, zip_with_map_r. apply map_ext_in. intros r Hr'%list_elem_of_In.
      assert (Hkey : sp_logical_rows (Some p) 0 (zlen (arg (f_rows f) r)) = rows p).
      { unfold sp_logical_rows, arg. simpl. destruct (sharded p); [|done]. simpl.
        by rewrite (blk_len p Hp), Z.eqb_refl. }
      rewrite Hkey. assert (Hp' : match spread false <$> f_pre f with Some pr => pr !! r | None => None end =
        (fun t => arg t r) <$> f_pre f).
      { destruct (f_pre f) as [t|]; [|done]. simpl. rewrite spread_arg. unfold ranks.
        apply ranks_elem in Hr'. by rewrite list_lookup_fmap, lookup_seq_lt by lia. }
      rewrite Hp'. unfold arg. by destruct (sharded p), (f_pre f). }
    rewrite Hz, L1. rewrite map_ranks in H3 |- *. rewrite H3. eexists. split; [done|].
    destruct (run_full E (plan_red E p) p i false _) as [R' pre']. simpl in *. split; [|done].
    constructor; simpl; try done; rewrite ?spread_arg; by rewrite map_map.
Qed.

(** ** The loop *)

(** Whether the late layers have begun before layer [a]. *)
Definition late_at (a : nat) (s : state (T:=T)) : Prop :=
  s_late s = match tl with Some _ => Nat.ltb (late_layer_start m) a | None => false end.

Lemma body_ok a s f f1 :
  rel s f -> late_at a s ->
  (match tl with
   | Some _ => if Nat.eqb a (late_layer_start m) then full_enter E m f else Ok f
   | None => Ok f
   end) = Ok f1 ->
  exists s', loop_body E m p tl a s = Ok s' /\ late_at (S a) s' /\
    rel s' (full_layer E (plan_red E p) p a
              (full_capture E m tl a (full_engram E (plan_red E p) m p a f1))).
Proof.
  intros Hrel Hlate Henter. unfold loop_body. pose proof enter_ok as Hent.
  assert (H1 : exists s1, (match tl with
      | Some t => if Nat.eqb a (late_layer_start m) then enter_tail E m p t s else Ok s
      | None => Ok s
      end) = Ok s1 /\ rel s1 f1 /\
      s_late s1 = match tl with Some _ => negb (Nat.ltb a (late_layer_start m)) | None => false end).
  { unfold late_at in Hlate. destruct tl as [u|]; [|injection Henter as <-; by exists s].
    destruct (Nat.eqb_spec a (late_layer_start m)) as [Ha|Ha].
    - destruct (Hent u s f f1 eq_refl Hrel) as (s1 & E1 & R1);
        [rewrite Hlate; apply Nat.ltb_ge; lia | done |].
      exists s1. split; [done|]. split; [done|]. rewrite (rel_late _ _ R1).
      unfold full_enter in Henter. destruct (f_pre f); [|done]. injection Henter as <-. simpl.
      symmetry. apply negb_true_iff, Nat.ltb_ge. lia.
    - injection Henter as <-. exists s. split; [done|]. split; [done|]. rewrite Hlate.
      destruct (Nat.ltb_spec (late_layer_start m) a), (Nat.ltb_spec a (late_layer_start m)); done || lia. }
  destruct H1 as (s1 & -> & R1 & L1).
  pose proof (engram_ok a s1 f1 R1) as R2.
  assert (L2 : s_late (engram_step E m p a s1) = s_late s1).
  { unfold engram_step. destruct (engram_of E a); [|done]. by destruct (if s_late s1 then _ else _). }
  destruct (capture_ok a _ _ R2) as (s3 & -> & R3 & L3).
  { intros Htl. rewrite L2, L1. by destruct tl. }
  destruct (layer_ok a _ _ R3) as (s4 & -> & R4 & L4).
  exists s4. split; [done|]. split; [|done]. unfold late_at. rewrite L4, L3, L2, L1.
  destruct tl; [|done].
  destruct (Nat.ltb_spec (late_layer_start m) (S a)), (Nat.ltb_spec a (late_layer_start m)); done || lia.
Qed.

Lemma loop_ok n a s f f' :
  rel s f -> late_at a s -> full_loop E (plan_red E p) m p tl (seq a n) f = Ok f' ->
  exists s', loop E m p tl (seq a n) s = Ok s' /\ rel s' f'.
Proof.
  revert a s f. induction n as [|n IH]; intros a s f Hrel Hlate; cbn [seq loop full_loop].
  - intros [= <-]. by exists s.
  - destruct (match tl with Some _ => _ | None => _ end) as [f1|e] eqn:He; [|done].
    intros Hf. destruct (body_ok a s f f1 Hrel Hlate He) as (s' & -> & Hl' & Hr').
    by apply (IH (S a) s' _ Hr' Hl' Hf).
Qed.

End Run.

Lemma make_plan_ok c p :
  0 < c_min_rows c -> make_plan c = Ok (Some p) ->
  plan_ok p /\ rows p = c_rows c /\ world p = c_world c /\ c_min_rows c <= rows p /\
  sharded p = c_shard c /\ exact p = c_exact c && c_shard c.
Proof.
  intros Hm. unfold make_plan. destruct (c_off c); [done|]. destruct (c_compiling c); [done|].
  destruct (c_extend c); [|done]. destruct (c_breakable c); [done|].
  destruct (c_scattered c); [done|]. destruct (c_tensor_ok c); [|done].
  destruct (eligible_rows _ _ _) eqn:He; [|done]. destruct (c_static_ok c); [|done].
  intros [= <-].
  unfold eligible_rows in He. simpl. split; [|repeat split; blia].
  unfold plan_ok. simpl. repeat split; try blia. by intros [_ ?]%andb_true_iff.
Qed.


(** The row partition of a plan is exact: every row of the chunk lies in exactly one
    rank's range, the rank and local row [owner_local] names, gathering the ranks'
    blocks gives the chunk back, and the tail rows come out of the blocks as from the
    whole chunk whichever way they are gathered; gathering by owner is chosen only when
    it moves fewer rows than gathering everything. *)
Theorem row_partition_exact {T} (E : engine T) (c : chunk) (p : plan) (t : list T) (tl : tail)
    (Hmin : 0 < c_min_rows c) (Hplan : make_plan c = Ok (Some p)) (Ht : zlen t = rows p)
    (Htl : tail_ok p tl) :
  (forall i, 0 <= i < rows p ->
     let '(o, l) := owner_local (shard p) i in
     Z.to_nat o ∈ ranks p /\ blk p t (Z.to_nat o) !! Z.to_nat l = t !! Z.to_nat i /\
     forall r, r ∈ ranks p -> (let '(a, b) := shard_range (rows p) (world p) (Z.of_nat r) in a <= i < b) <->
       Z.of_nat r = o) /\
  gather_rows (blocks p t) = t /\
  tail_real_rows p tl (blocks p t) = real_rows tl t /\
  (forall n, tail_plan (rows p) (world p) n = false -> world p * n < rows p).
Proof.
  destruct (make_plan_ok c p Hmin Hplan) as (Hp & _). split; [|split; [|split]].
  - intros i Hi. pose proof (owner_local_spec p Hp i Hi) as Ho. pose proof (shard_pos p Hp).
    destruct (owner_local (shard p) i) as [o l]. destruct Ho as (Ho & Hl & ->).
    assert (Hr : Z.to_nat o ∈ ranks p) by (apply ranks_elem; lia).
    split; [done|]. split; [rewrite (blk_lookup p Hp) by (done || lia); f_equal; nia|].
    intros r Hr'%ranks_elem. unfold shard_range. fold (shard p). nia.
  - by apply gather_blocks.
  - by apply tail_real_rows_spec.
  - intros n. unfold tail_plan. lia.
Qed.

(** ** A toy engine

    Integers as rows, two ranks, a layer that scales with the gates' row count, a
    sublayer that mixes all rows, an Engram, and a tail of two rows and one padding row. *)

Lemma blk_map {A B} (f : A -> B) p t r : blk p (map f t) r = map f (blk p t r).
Proof. unfold blk, py_slice. rewrite zlen_map. by rewrite <- firstn_map, <- skipn_map. Qed.

Lemma blk_zip {A B C} (f : A -> B -> C) p a b r :
  zlen a = zlen b -> blk p (zip_with f a b) r = zip_with f (blk p a r) (blk p b r).
Proof.
  intros Hl. assert (Hz : zlen (zip_with f a b) = zlen a).
  { unfold zlen in *. rewrite length_zip_with. lia. }
  unfold blk, py_slice. rewrite Hz, <- Hl. by rewrite zip_with_drop, zip_with_take.
Qed.

Definition ex_chunk : chunk := Chunk false true true 4 false true false false true 4 2 true.

Definition ex_p : plan := Plan 4 2 true true.

Definition ex_model : model := Model 0 3 2 true true 7 [1%nat] true.

Definition ex_tail : tail := Tail (Some 2) [] 1.

Definition ex_sum (ts : list (list Z)) : list Z :=
  match ts with [] => [] | t :: rest => foldr (zip_with Z.add) t rest end.

Definition ex_part (i : nat) (late : bool) (r : nat) (x : list Z) : list Z :=
  map (fun v => v * (Z.of_nat r + 1) + zsum x) x.

Definition ex_engine : engine Z := Engine Z 0 ex_sum ex_sum
  (fun i n R pre => Attn (map (Z.mul n) R) (fun o =>
     Moe (zip_with Z.sub o (default R pre)) (fun o2 => Ret (zip_with Z.add R o2) o)))
  ex_part ex_part
  (fun i => if Nat.eqb i 1 then Some 0%nat else None) (fun _ => false)
  (fun _ r => [Z.of_nat r; 1; 2; 3]) (fun _ => map (Z.mul 3)) (fun _ => zip_with Z.add)
  (fun _ => map Z.opp) (fun a b => bool_decide (a = b)) id
  (fun t => drop 2 t ++ [0]) (fun t => drop 2 t ++ [0]).

Lemma ex_sum_len n ts : same_len n ts -> zlen (ex_sum ts) = n.
Proof.
  intros [Hne Hall]. destruct ts as [|t ts]; [done|]. apply Forall_cons in Hall as [Ht Hall]. simpl.
  induction Hall as [|u ts Hu Hall IH]; simpl; [done|].
  unfold zlen in *. rewrite length_zip_with. specialize (IH ltac:(done)). lia.
Qed.

#[export] Instance ex_laws : EngineLaws ex_engine ex_p ex_model (Some ex_tail).
Proof.
  assert (Hz : forall a b : list Z, zlen a = 4 -> zlen b = 4 ->
    forall f : Z -> Z -> Z, zlen (zip_with f a b) = 4).
  { intros a b Ha Hb f. unfold zlen in *. rewrite length_zip_with. lia. }
  constructor; cbn -[ranks blk ex_sum map].
  - apply ex_sum_len.
  - apply ex_sum_len.
  - intros. apply zlen_map.
  - intros. apply zlen_map.
  - done.
  - done.
  - intros. apply zlen_map.
  - intros e t t' _ _ _ r _. simpl. apply blk_map.
  - intros a b. by apply bool_decide_eq_true.
  - intros e x kv Hx Hkv. by apply Hz.
  - intros e x kv r Hx Hkv _. apply blk_zip. congruence.
  - intros i R pre HR Hpre.
    assert (Hd : zlen (default R pre) = 4) by (by destruct pre).
    assert (Hdb : forall r, default (blk ex_p R r) ((fun t => blk ex_p t r) <$> pre) =
      blk ex_p (default R pre) r) by (intros r; by destruct pre).
    set (k2 r (o o2 : list Z) := Ret (zip_with Z.add (blk ex_p R r) o2) o).
    set (k1 r (o : list Z) := Moe (zip_with Z.sub o (blk ex_p (default R pre) r)) (k2 r o)).
    rewrite (map_ext _ (fun r => Attn (blk ex_p (map (Z.mul 4) R) r) (k1 r)))
      by (intros r; by rewrite blk_map, Hdb).
    constructor; [by rewrite zlen_map|]. intros o Ho.
    change (rows ex_p) with 4 in *. rewrite (map_ext _ (fun r => Moe (blk ex_p (zip_with Z.sub o (default R pre)) r) (k2 r (blk ex_p o r))))
      by (intros r; unfold k1; by rewrite blk_zip by congruence).
    constructor; [by apply Hz|]. intros o2 Ho2. change (rows ex_p) with 4 in *.
    rewrite (map_ext _ (fun r => Ret (blk ex_p (zip_with Z.add R o2) r) (blk ex_p o r)))
      by (intros r; unfold k2; by rewrite blk_zip by congruence).
    constructor; [by apply Hz | done].
  - intros t Ht. split; [unfold tail_ok; simpl; lia|]. exists (drop 2 t). split; [|done].
    unfold real_rows. simpl. rewrite py_slice_in by (simpl; lia). f_equal. apply take_ge.
    rewrite length_drop. unfold zlen in *. lia.
Defined.

Definition ex_hidden : list Z := [10; 20; 30; 40].

Definition ex_f : full_state :=
  match full_forward ex_engine ex_sum ex_model ex_p (Some ex_tail) ex_hidden [1; 7; 2; 7] with
  | Ok f => f
  | Raise _ => Full [] None false [] None []
  end.


Lemma row_partition_exact_witness :
  tail_real_rows ex_p (Tail None [3; 0] 0) (blocks ex_p ex_hidden) = Ok [40; 10].
Proof.
  destruct (row_partition_exact ex_engine ex_chunk ex_p ex_hidden (Tail None [3; 0] 0)
    ltac:(simpl; lia) eq_refl eq_refl ltac:(repeat constructor; simpl; lia)) as (_ & _ & Ht & _).
  rewrite Ht. reflexivity.
Defined.
