(* ===== verification/Tp3Pad.v ===== *)
(** * Padding a checkpoint to an odd TP size (adapter/tp3_pad.py)

    The padded head, group, expert and vision-head counts, the padded vocabulary, and
    the loaders that copy the real slice of a checkpoint tensor and pad the rest.  A
    tensor is the list of its slices along the output dimension.  The engine's
    [pad_or_narrow_weight], its own loaders and [pad_vocab_size] are parameters; the
    log lines and the monkey-patching are not modelled. *)
From S2P Require Import Prelude PyStr.
#[local] Open Scope string_scope.
#[local] Open Scope list_scope.
#[local] Open Scope Z_scope.

(** ** Configuration *)

(** [_tp()]: TP_SIZE, else TP, else 3. *)
Definition tp (env : environ) : res Z :=
  py_int (match env "TP_SIZE" with Some v => v | None => env_get env "TP" "3" end).

Definition enabled (env : environ) : res bool :=
  if one_of (env_get env "DSV41_TP_PAD" "1") ["0"; "false"; "off"] then Ok false
  else match tp env with Ok n => Ok (1 <? n) | Raise e => Raise e end.

Definition ceil_to (n d : Z) : Z := (n + d - 1) / d * d.

Definition legal_local : list Z := [8; 16; 32; 64; 128].

Definition is_legal (h : Z) : bool := existsb (Z.eqb h) legal_local.

(** The head counts and group counts [pad_dsv41_hf_config] computes. *)
Definition pad_heads (tp heads groups : Z) : Z * Z :=
  let per := Z.max (heads / groups) 1 in
  let '(new_heads, new_groups) :=
    if heads mod tp =? 0 then (heads, groups)
    else (ceil_to groups tp * per, ceil_to groups tp) in
  if is_legal (new_heads / tp) then (new_heads, new_groups)
  else
    let target_local := match find (fun h => new_heads / tp <=? h) legal_local with
                        | Some h => h
                        | None => 128
                        end in
    let new_heads := target_local * tp in
    let new_groups := new_heads / per in
    if new_groups * per =? new_heads then (new_heads, new_groups)
    else let new_groups := ceil_to new_groups tp in (new_groups * per, new_groups).

(** A text config's attributes; 0 where absent. *)
Record text := Text { num_attention_heads : Z; o_groups : Z; dspark_n_routed_experts : Z }.

Record vision := Vision { v_attention_heads : option Z; v_heads : option Z }.

(** The HF config: its text config if it has one (else it is its own), its own head
    count if it has that attribute, and the vision config. *)
Record hf := Hf { text_config : option text; own : text; has_heads : bool; vision_config : option vision }.

Definition pad_text (tp : Z) (t : text) : text :=
  let heads := num_attention_heads t in
  let groups := o_groups t in
  let '(h, g) := if negb (heads =? 0) && negb (groups =? 0) then pad_heads tp heads groups
                 else (heads, groups) in
  let draft := dspark_n_routed_experts t in
  Text h g (if negb (draft =? 0) && negb (draft mod tp =? 0) then ceil_to draft tp else draft).

Definition vision_count (v : vision) : Z :=
  let a := default 0 (v_attention_heads v) in if a =? 0 then default 0 (v_heads v) else a.

Definition pad_vision (tp : Z) (v : vision) : vision :=
  let vh := vision_count v in
  if negb (vh =? 0) && negb (vh mod tp =? 0) then
    Vision ((fun _ => ceil_to vh tp) <$> v_attention_heads v) ((fun _ => ceil_to vh tp) <$> v_heads v)
  else v.

Definition pad_dsv41_hf_config (tp : Z) (c : hf) : hf :=
  let v := pad_vision tp <$> vision_config c in
  match text_config c with
  | Some t =>
      let t' := pad_text tp t in
      let changed := negb ((num_attention_heads t' =? num_attention_heads t) && (o_groups t' =? o_groups t)) in
      Hf (Some t')
        (if changed && has_heads c
         then Text (num_attention_heads t') (o_groups (own c)) (dspark_n_routed_experts (own c))
         else own c)
        (has_heads c) v
  | None => Hf None (pad_text tp (own c)) (has_heads c) v
  end.

(** The padded vocabulary, over the engine's own [pad_vocab_size]. *)
Definition pad_vocab_size (orig : Z -> Z -> Z) (tp vocab_size pad_to : Z) : Z :=
  orig vocab_size (if 1 <? tp then Z.lcm pad_to tp else pad_to).

(** ** Loaders *)

Section Load.
Context {A : Type} (zero one : A).
(** The engine's [pad_or_narrow_weight(w, dim, start, shard_size)] and its own loaders. *)
Context (pad_or_narrow : list A -> Z -> Z -> list A).

(** [w.narrow(dim, start, n)]: raises outside the tensor. *)
Definition narrow (w : list A) (start n : Z) : res (list A) :=
  if (0 <=? start) && (0 <=? n) && (start + n <=? zlen w) then Ok (py_slice w start (start + n))
  else Raise RuntimeError.

(** [w.narrow(dim, real, n - real).fill_(1.0)] for a tensor of [n] slices. *)
Definition fill_ones (w : list A) (real : Z) : list A :=
  py_slice w 0 real ++ replicate (Z.to_nat (zlen w - real)) one.

(** [self.data[slices].copy_(w[slices])] after filling the data. *)
Definition overlap_copy (fill : A) (n : Z) (w : list A) : list A :=
  let k := Z.min n (zlen w) in py_slice w 0 k ++ replicate (Z.to_nat (n - k)) fill.

(** The patched [load_column_parallel_weight] of a parameter of [shard_size] slices;
    [fp32]: the tensor is fp32 (block scales). *)
Definition load_column_parallel_weight (fp32 : bool) (shard_size tp_rank : Z) (w : list A)
    : res (list A) :=
  let start := tp_rank * shard_size in
  let end_ := start + shard_size in
  match
    (if (zlen w <? end_) || (zlen w <=? start) then
       let real := Z.max 0 (zlen w - start) in
       let w' := pad_or_narrow w start shard_size in
       Ok (if fp32 && (real <? zlen w') then fill_ones w' real else w')
     else narrow w start shard_size)
  with
  | Raise e => Raise e
  | Ok w' => if zlen w' =? shard_size then Ok w'
             else Ok (overlap_copy (if fp32 then one else zero) shard_size w')
  end.

(** The patched [ColumnParallelLinear.weight_loader]; [orig] is the engine's. *)
Definition column_weight_loader (orig : list A -> res (list A)) (fp32 : bool)
    (shard_size tp_rank : Z) (w : list A) : res (list A) :=
  let start := tp_rank * shard_size in
  if zlen w <? start + shard_size then
    let real := zlen w - start in
    let w' := pad_or_narrow w start shard_size in
    let w' := if fp32 && (0 <=? real) && (real <? shard_size) then fill_ones w' real else w' in
    if zlen w' =? shard_size then Ok w' else orig w
  else orig w.

End Load.

(** ** Lemmas *)

Lemma ceil_to_spec n d : 0 < d -> n <= ceil_to n d < n + d /\ ceil_to n d mod d = 0.
Proof.
  intros Hd. unfold ceil_to. pose proof (Z.div_mod (n + d - 1) d ltac:(lia)).
  pose proof (Z.mod_pos_bound (n + d - 1) d Hd). split; [nia | by apply Z_mod_mult].
Qed.

Lemma is_legal_true h : is_legal h = true <-> h = 8 \/ h = 16 \/ h = 32 \/ h = 64 \/ h = 128.
Proof. unfold is_legal. simpl. blia. Qed.

(** The target is the least legal local count that covers the one needed. *)
Lemma target_spec l h :
  find (fun h => l <=? h) legal_local = Some h ->
  is_legal h = true /\ l <= h /\ forall k, is_legal k = true -> l <= k -> h <= k.
Proof.
  simpl. intros Hf. repeat (case_match; [injection Hf as <-; split; [done|]; split; [lia|];
    intros k Hk%is_legal_true Hl; lia|]). done.
Qed.

Lemma target_none l : find (fun h => l <=? h) legal_local = None -> 128 < l.
Proof. simpl. intros Hf. repeat (case_match; [done|]). lia. Qed.

(** ** Head counts *)

(** Heads that come in groups of a size that divides every legal local count. *)
Definition grouped (heads groups : Z) : Prop :=
  0 < groups /\ exists per, (8 mod per = 0 /\ 0 < per) /\ heads = groups * per.

(** The head count before the local counts are looked at. *)
Definition even_heads (tp heads groups : Z) : Z :=
  if heads mod tp =? 0 then heads else ceil_to groups tp * (heads / groups).

Lemma legal_mod h per : is_legal h = true -> 8 mod per = 0 -> 0 < per -> exists q, h = q * per.
Proof.
  intros Hh%is_legal_true H8 Hp. apply Z.mod_divide in H8; [|lia]. destruct H8 as [q Hq].
  assert (Hm : exists m, h = m * 8).
  { destruct Hh as [->|[->|[->|[->| ->]]]]; [exists 1|exists 2|exists 4|exists 8|exists 16]; lia. }
  destruct Hm as [m ->]. exists (m * q). rewrite Hq. ring.
Qed.

Lemma mod_mul_div a b : 0 < b -> a mod b = 0 -> a = a / b * b.
Proof. intros Hb Hm. pose proof (Z.div_mod a b ltac:(lia)). lia. Qed.

Section Heads.
Context (tp heads groups per : Z) (Htp : 0 < tp) (Hg : 0 < groups) (Hper : 0 < per)
  (H8 : 8 mod per = 0) (Hh : heads = groups * per).

Lemma per_def : Z.max (heads / groups) 1 = per.
Proof. rewrite Hh, Z.mul_comm, Z.div_mul by lia. lia. Qed.

Lemma even_heads_spec :
  let e := even_heads tp heads groups in
  e mod tp = 0 /\ heads <= e /\ exists eg, e = eg * per /\ groups <= eg /\
    (heads mod tp <> 0 -> eg = ceil_to groups tp /\ eg mod tp = 0) /\
    (heads mod tp = 0 -> e = heads /\ eg = groups) /\
    forall k, is_legal k = true -> heads <= k * tp -> e <= k * tp.
Proof.
  unfold even_heads. destruct (ceil_to_spec groups tp Htp) as [Hc Hcm].
  destruct (Z.eqb_spec (heads mod tp) 0) as [Hm|Hm].
  - split; [done|]. split; [lia|]. exists groups. by repeat split.
  - assert (Hdiv : heads / groups = per) by (rewrite Hh, Z.mul_comm, Z.div_mul; lia).
    rewrite Hdiv. split.
    { rewrite (mod_mul_div _ tp Htp Hcm). replace (ceil_to groups tp / tp * tp * per) with
        (ceil_to groups tp / tp * per * tp) by ring. apply Z_mod_mult. }
    split; [nia|]. exists (ceil_to groups tp). split; [done|]. split; [lia|]. split; [done|].
    split; [done|]. intros k Hk Hle. destruct (legal_mod k per Hk H8 Hper) as [q ->].
    pose proof (mod_mul_div _ tp Htp Hcm). set (c := ceil_to groups tp / tp) in *.
    assert (Hgq : groups <= q * tp) by nia.
    assert (Hcq : c <= q).
    { destruct (Z.le_gt_cases c q) as [|Hgt]; [done|]. exfalso.
      assert ((q + 1) * tp <= c * tp) by (apply Z.mul_le_mono_nonneg_r; lia). lia. }
    rewrite H. assert (c * tp <= q * tp) by (apply Z.mul_le_mono_nonneg_r; lia). nia.
Qed.

(** [pad_heads] in its two cases. *)
Lemma pad_heads_cases :
  let e := even_heads tp heads groups in
  pad_heads tp heads groups =
    if is_legal (e / tp) then (e, if heads mod tp =? 0 then groups else ceil_to groups tp)
    else match find (fun h => e / tp <=? h) legal_local with
         | Some h => (h * tp, h * tp / per)
         | None => (128 * tp, 128 * tp / per)
         end.
Proof.
  unfold pad_heads. rewrite per_def. unfold even_heads.
  assert (Hdiv : heads / groups = per) by (rewrite Hh, Z.mul_comm, Z.div_mul; lia). rewrite Hdiv.
  assert (Hq : forall h, is_legal h = true -> (h * tp / per * per =? h * tp) = true).
  { intros h Hl. destruct (legal_mod h per Hl H8 Hper) as [q ->].
    replace (q * per * tp) with (q * tp * per) by ring. rewrite Z.div_mul by lia. apply Z.eqb_refl. }
  destruct (heads mod tp =? 0); cbv zeta.
  - destruct (is_legal (heads / tp)); [done|].
    destruct (find _ legal_local) as [h|] eqn:Hf.
    + destruct (target_spec _ _ Hf) as [Hl _]. by rewrite Hq.
    + by rewrite Hq.
  - destruct (is_legal _); [done|].
    destruct (find _ legal_local) as [h|] eqn:Hf.
    + destruct (target_spec _ _ Hf) as [Hl _]. by rewrite Hq.
    + by rewrite Hq.
Qed.

(** Padded counts: legal, grouped as before, at least as many, and the least such. *)
Lemma pad_heads_spec :
  even_heads tp heads groups / tp <= 128 ->
  let '(h, g) := pad_heads tp heads groups in
  h mod tp = 0 /\ is_legal (h / tp) = true /\ h = g * per /\ heads <= h /\ groups <= g /\
  ((h, g) = (heads, groups) \/ g mod tp = 0) /\
  (forall k, is_legal k = true -> heads <= k * tp -> h <= k * tp).
Proof.
  intros H128. rewrite pad_heads_cases.
  destruct even_heads_spec as (Hm & Hle & eg & Heq & Hgle & Hne & He & Hmin).
  set (e := even_heads tp heads groups) in *.
  pose proof (mod_mul_div e tp Htp Hm) as Hdm.
  destruct (is_legal (e / tp)) eqn:Hl.
  - assert (Heg : (if heads mod tp =? 0 then groups else ceil_to groups tp) = eg).
    { destruct (Z.eqb_spec (heads mod tp) 0) as [H0|H0]; [by apply He in H0 as [_ ->]|].
      by destruct (Hne H0) as [-> _]. }
    rewrite Heg. split; [done|]. split; [done|]. split; [done|]. split; [done|]. split; [done|].
    split; [|done]. destruct (Z.eq_dec (heads mod tp) 0) as [H0|H0].
    + left. destruct (He H0) as [-> ->]. done.
    + right. by apply Hne.
  - destruct (find _ legal_local) as [h|] eqn:Hf.
    2: { apply target_none in Hf. lia. }
    destruct (target_spec _ _ Hf) as (Hlh & Hge & Hleast).
    destruct (legal_mod h per Hlh H8 Hper) as [q Hq].
    assert (Hdiv : h * tp / per = q * tp).
    { rewrite Hq. replace (q * per * tp) with (q * tp * per) by ring. apply Z.div_mul. lia. }
    rewrite Hdiv. split; [apply Z_mod_mult|]. split; [by rewrite Z.div_mul by lia|].
    split; [rewrite Hq; ring|]. split; [nia|]. split; [nia|]. split; [right; apply Z_mod_mult|].
    intros k Hk Hkl. apply Z.mul_le_mono_nonneg_r; [lia|]. apply Hleast; [done|].
    apply Z.div_le_upper_bound; [done|]. rewrite Z.mul_comm. by apply Hmin.
Qed.

End Heads.

(** ** The config *)

(** A text config whose heads the padding can serve: no heads, or grouped heads that need
    at most 128 per rank. *)
Definition text_ok (tp : Z) (t : text) : Prop :=
  0 <= dspark_n_routed_experts t /\
  (num_attention_heads t = 0 \/ o_groups t = 0 \/
   grouped (num_attention_heads t) (o_groups t) /\
   even_heads tp (num_attention_heads t) (o_groups t) / tp <= 128).

Definition the_text (c : hf) : text := match text_config c with Some t => t | None => own c end.

Lemma ceil_to_id n d : 0 < d -> n mod d = 0 -> ceil_to n d = n.
Proof. intros Hd Hm. destruct (ceil_to_spec n d Hd) as [Hc Hcm].
  pose proof (mod_mul_div n d Hd Hm). pose proof (mod_mul_div _ d Hd Hcm).
  assert (n / d = ceil_to n d / d) by nia. lia.
Qed.

Lemma pad_heads_id tp heads groups :
  heads mod tp = 0 -> is_legal (heads / tp) = true -> pad_heads tp heads groups = (heads, groups).
Proof. intros Hm Hl. unfold pad_heads. by rewrite Hm, Z.eqb_refl, Hl. Qed.

Lemma pad_text_idemp tp t : 0 < tp -> text_ok tp t -> pad_text tp (pad_text tp t) = pad_text tp t.
Proof.
  intros Htp [Hd Hok]. destruct t as [heads groups draft]. simpl in *. unfold pad_text. simpl.
  assert (Hdraft : let d' := if negb (draft =? 0) && negb (draft mod tp =? 0) then ceil_to draft tp else draft in
    (if negb (d' =? 0) && negb (d' mod tp =? 0) then ceil_to d' tp else d') = d').
  { cbv zeta. destruct (negb (draft =? 0) && negb (draft mod tp =? 0)) eqn:E; [|by rewrite E].
    destruct (ceil_to_spec draft tp Htp) as [_ ->]. simpl. by rewrite andb_false_r. }
  cbv zeta in Hdraft.
  destruct (negb (heads =? 0) && negb (groups =? 0)) eqn:E.
  - destruct Hok as [->|[->|((Hg & per & (H8 & Hper) & Hh) & H128)]]; [done|by rewrite andb_comm in E|].
    pose proof (pad_heads_spec tp heads groups per Htp Hg Hper H8 Hh H128) as Hs.
    destruct (pad_heads tp heads groups) as [h g]. destruct Hs as (Hm & Hl & _). simpl.
    rewrite (pad_heads_id tp h g Hm Hl), Hdraft. by destruct (negb (h =? 0) && negb (g =? 0)).
  - simpl. by rewrite E, Hdraft.
Qed.

Lemma pad_vision_idemp tp v : 0 < tp -> pad_vision tp (pad_vision tp v) = pad_vision tp v.
Proof.
  intros Htp.
  destruct (negb (vision_count v =? 0) && negb (vision_count v mod tp =? 0)) eqn:E;
    unfold pad_vision at 2 3; rewrite E; [|unfold pad_vision; by rewrite E].
  set (n := ceil_to (vision_count v) tp).
  assert (Hm : n mod tp = 0) by by apply ceil_to_spec.
  unfold pad_vision. assert (Hn : forall w, vision_count w = n \/ vision_count w = 0 ->
    (negb (vision_count w =? 0) && negb (vision_count w mod tp =? 0)) = false).
  { intros w [->| ->]; [by rewrite Hm, andb_false_r | done]. }
  rewrite Hn; [done|]. unfold vision_count. destruct v as [[a|] [b|]]; simpl; auto;
    destruct (n =? 0) eqn:E0; auto.
Qed.

(** Padding a config gives counts the kernels and the TP split accept: for heads that
    come in groups whose size divides 8 and need at most 128 per rank, the padded head
    count splits evenly into a legal local count, keeps the heads per group, loses no
    head and no group, and is the least such count; a group count that was changed, and
    the draft expert count, become multiples of the TP size; and padding again (as the
    engine's constructor does, first the config and then its text config) changes
    nothing. *)
Theorem pad_config_legal tp c
    (Htp : 0 < tp) (Hok : text_ok tp (the_text c)) :
  let t := the_text c in
  let t' := the_text (pad_dsv41_hf_config tp c) in
  let h := num_attention_heads t' in
  (num_attention_heads t <> 0 -> o_groups t <> 0 ->
   h mod tp = 0 /\ is_legal (h / tp) = true /\ num_attention_heads t <= h /\ o_groups t <= o_groups t' /\
   h / o_groups t' = num_attention_heads t / o_groups t /\
   (o_groups t' <> o_groups t -> o_groups t' mod tp = 0) /\
   forall k, is_legal k = true -> num_attention_heads t <= k * tp -> h <= k * tp) /\
  (dspark_n_routed_experts t' mod tp = 0 /\
   dspark_n_routed_experts t <= dspark_n_routed_experts t' < dspark_n_routed_experts t + tp) /\
  pad_dsv41_hf_config tp (pad_dsv41_hf_config tp c) = pad_dsv41_hf_config tp c /\
  pad_text tp t' = t'.
Proof.
  intros t t' h.
  assert (Ht' : t' = pad_text tp t) by (subst t' t; unfold pad_dsv41_hf_config, the_text; by destruct (text_config c)).
  pose proof (pad_text_idemp tp t Htp Hok) as Hid. destruct Hok as [Hd Hok]. fold t in Hd, Hok.
  split; [|split; [|split]].
  - intros Hh0 Hg0. subst h. rewrite Ht'. unfold pad_text.
    assert (E : (negb (num_attention_heads t =? 0) && negb (o_groups t =? 0)) = true) by blia.
    rewrite E. destruct Hok as [?|[?|((Hg & per & (H8 & Hper) & Hh) & H128)]]; [done..|].
    pose proof (pad_heads_spec tp _ _ per Htp Hg Hper H8 Hh H128) as Hs.
    destruct (pad_heads tp _ _) as [h g]. simpl.
    destruct Hs as (H1 & H2 & H3 & H4 & H5 & H6 & H7).
    split; [done|]. split; [done|]. split; [done|]. split; [done|]. split; [|split; [|done]].
    + rewrite H3, Hh, !(Z.mul_comm _ per), !Z.div_mul; lia.
    + intros Hne. destruct H6 as [[= -> ->]|]; done.
  - rewrite Ht'. unfold pad_text. destruct (if negb _ && negb _ then pad_heads _ _ _ else _) as [h' g'].
    simpl. destruct (Z.eqb_spec (dspark_n_routed_experts t) 0) as [->|Hd0]; simpl.
    + rewrite Zmod_0_l. lia.
    + destruct (Z.eqb_spec (dspark_n_routed_experts t mod tp) 0); simpl; [lia|].
      destruct (ceil_to_spec (dspark_n_routed_experts t) tp Htp). lia.
  - rewrite <- Ht' in Hid. unfold pad_dsv41_hf_config in *. unfold the_text in *.
    assert (Hv : forall v : option vision, pad_vision tp <$> (pad_vision tp <$> v) = pad_vision tp <$> v)
      by (intros [v|]; simpl; [by rewrite pad_vision_idemp | done]).
    destruct (text_config c) as [t0|]; cbn [text_config own has_heads vision_config] in *; subst t' t;
      rewrite Hid, Hv; [|done]. by rewrite !Z.eqb_refl.
  - by rewrite Ht'.
Qed.

(** ** The loaders *)

Section Loaders.
Context {A : Type} (zero one : A) (pad_or_narrow : list A -> Z -> Z -> list A).

(** The engine's [pad_or_narrow_weight]: the slices of the tensor from [start], then zeros,
    [n] in all. *)
Definition pads_with_zeros : Prop := forall w start n,
  0 <= start -> 0 <= n -> zlen w < start + n ->
  pad_or_narrow w start n =
    drop (Z.to_nat start) w ++ replicate (Z.to_nat (n - Z.max 0 (zlen w - start))) zero.

Context (Hpad : pads_with_zeros).

(** The slices rank [r] should hold: the tensor's, then [fill]. *)
Definition wanted (fill : A) (s r : Z) (w : list A) : list A :=
  let mine := take (Z.to_nat s) (drop (Z.to_nat (r * s)) w) in
  mine ++ replicate (Z.to_nat s - length mine) fill.

Lemma wanted_whole fill s r (w : list A) :
  0 <= r -> 0 < s -> zlen w < (r + 1) * s ->
  wanted fill s r w = drop (Z.to_nat (r * s)) w ++
    replicate (Z.to_nat (s - Z.max 0 (zlen w - r * s))) fill.
Proof.
  intros Hr Hs Hw. unfold wanted, zlen in *.
  rewrite take_ge by (rewrite length_drop; nia). f_equal. f_equal. rewrite length_drop. nia.
Qed.

Lemma load_column_ok (fp32 : bool) s r (w : list A) :
  0 < s -> 0 <= r ->
  load_column_parallel_weight zero one pad_or_narrow fp32 s r w =
    Ok (wanted (if fp32 then one else zero) s r w).
Proof.
  intros Hs Hr. unfold load_column_parallel_weight. cbv zeta.
  destruct ((zlen w <? r * s + s) || (zlen w <=? r * s)) eqn:E.
  - assert (Hw : zlen w < r * s + s) by blia.
    rewrite Hpad by nia. set (real := Z.max 0 (zlen w - r * s)).
    set (w' := drop _ w ++ _).
    assert (Hlen : zlen w' = s).
    { subst w'. rewrite zlen_app, zlen_replicate. unfold zlen in *. rewrite length_drop. subst real. nia. }
    assert (Hd : zlen (drop (Z.to_nat (r * s)) w) = real)
      by (unfold zlen in *; rewrite length_drop; subst real; nia).
    rewrite wanted_whole by (nia || done). fold real.
    destruct fp32; simpl.
    + assert (Hones : (if real <? zlen w' then fill_ones one w' real else w') =
        drop (Z.to_nat (r * s)) w ++ replicate (Z.to_nat (s - real)) one).
      { rewrite Hlen. destruct (Z.ltb_spec real s) as [Hlt|Hge].
        - unfold fill_ones. rewrite Hlen. f_equal. rewrite py_slice_in by lia.
          subst w'. rewrite drop_0, Z.sub_0_r. apply take_app_length'. unfold zlen in Hd. lia.
        - subst w'. f_equal. by replace (Z.to_nat (s - real)) with 0%nat by lia. }
      rewrite Hones. rewrite zlen_app, zlen_replicate, Hd.
      destruct (Z.eqb_spec (real + Z.of_nat (Z.to_nat (s - real))) s); [done|lia].
    + by rewrite Hlen, Z.eqb_refl.
  - assert (Hw : r * s + s <= zlen w) by blia. unfold narrow.
    assert (Hin : ((0 <=? r * s) && (0 <=? s) && (r * s + s <=? zlen w)) = true) by (assert (0 <= r * s) by nia; blia).
    rewrite Hin, py_slice_in by nia. replace (r * s + s - r * s) with s by lia.
    assert (Hl : length (take (Z.to_nat s) (drop (Z.to_nat (r * s)) w)) = Z.to_nat s)
      by (rewrite length_take, length_drop; unfold zlen in Hw; nia).
    unfold zlen at 1. rewrite Hl, Z2Nat.id, Z.eqb_refl by lia. unfold wanted.
    rewrite Hl, Nat.sub_diag. simpl. by rewrite app_nil_r.
Qed.

(** The shards of [n] ranks from the [b]-th on, one after the other. *)
Lemma wanted_concat fill s (w : list A) n b :
  0 < s -> zlen w <= (Z.of_nat b + Z.of_nat n) * s ->
  concat (map (fun r => wanted fill s (Z.of_nat r) w) (seq b n)) =
    drop (Z.to_nat (Z.of_nat b * s)) w ++
    replicate (n * Z.to_nat s - (length w - Z.to_nat (Z.of_nat b * s))) fill.
Proof.
  intros Hs. revert b. induction n as [|n IH]; intros b Hw; simpl.
  { rewrite drop_ge by (unfold zlen in Hw; nia). done. }
  rewrite IH by nia. replace (Z.to_nat (Z.of_nat (S b) * s)) with (Z.to_nat (Z.of_nat b * s) + Z.to_nat s)%nat by nia.
  rewrite <- drop_drop. unfold wanted. set (d := drop (Z.to_nat (Z.of_nat b * s)) w).
  assert (Hd : length d = (length w - Z.to_nat (Z.of_nat b * s))%nat) by (subst d; apply length_drop).
  rewrite <- Hd. rewrite <- (take_drop (Z.to_nat s) d) at 4. rewrite <- !app_assoc. f_equal.
  rewrite length_take. destruct (le_lt_dec (Z.to_nat s) (length d)) as [Hle|Hlt].
  - rewrite Nat.min_l, Nat.sub_diag by done. simpl. f_equal. f_equal.
    rewrite Hd in Hle |- *. lia.
  - rewrite Nat.min_r, drop_ge by lia. simpl. rewrite <- replicate_add. f_equal. rewrite Hd in Hlt |- *. lia.
Qed.

(** The ranks' shards of a padded column-parallel parameter are the checkpoint tensor
    followed by padding: zeros for a weight, ones (a positive power of two) for fp32
    block scales, also when a rank's whole shard is padding; no slice is lost, repeated
    or moved, and no rank raises.  The padded [weight_loader] loads the same shards
    whenever it pads, except that it leaves a rank's fp32 scales at zero when its whole
    shard lies past the end of the tensor. *)
Theorem column_shards_exact (fp32 : bool) s (n : nat) (w : list A) orig
    (Hs : 0 < s) (Hw : zlen w <= Z.of_nat n * s) :
  let fill := if fp32 then one else zero in
  mapR (fun r => load_column_parallel_weight zero one pad_or_narrow fp32 s (Z.of_nat r) w) (seq 0 n) =
    Ok (map (fun r => wanted fill s (Z.of_nat r) w) (seq 0 n)) /\
  concat (map (fun r => wanted fill s (Z.of_nat r) w) (seq 0 n)) =
    w ++ replicate (n * Z.to_nat s - length w) fill /\
  (forall r, zlen (wanted fill s (Z.of_nat r) w) = s) /\
  (forall r, zlen w < Z.of_nat r * s + s ->
     column_weight_loader one pad_or_narrow orig fp32 s (Z.of_nat r) w =
       Ok (if fp32 && (zlen w <? Z.of_nat r * s) then replicate (Z.to_nat s) zero
           else wanted fill s (Z.of_nat r) w)).
Proof.
  intros fill. split; [|split; [|split]].
  - induction (seq 0 n) as [|r l IH]; simpl; [done|]. by rewrite load_column_ok, IH by lia.
  - rewrite wanted_concat by lia. simpl. f_equal. f_equal. lia.
  - intros r. unfold wanted, zlen. rewrite length_app, length_replicate, length_take. lia.
  - intros r Hlt. pose proof (load_column_ok fp32 s (Z.of_nat r) w Hs ltac:(lia)) as Hl.
    unfold load_column_parallel_weight in Hl. unfold column_weight_loader. cbv zeta in *.
    assert (E : (zlen w <? Z.of_nat r * s + s) = true) by lia. rewrite E in *. simpl in Hl.
    set (w' := pad_or_narrow w _ s) in *.
    assert (Hw' : zlen w' = s).
    { subst w'. rewrite Hpad by nia. rewrite zlen_app, zlen_replicate. unfold zlen in *.
      rewrite length_drop. nia. }
    destruct (Z.ltb_spec (zlen w) (Z.of_nat r * s)) as [Hpast|Hin].
    + assert (E2 : (0 <=? zlen w - Z.of_nat r * s) = false) by lia. rewrite E2, andb_false_r. simpl.
      rewrite Hw', Z.eqb_refl. f_equal. destruct fp32; simpl.
      * subst w'. rewrite Hpad by nia. rewrite drop_ge by (unfold zlen in Hpast; nia). simpl.
        f_equal. lia.
      * simpl in Hl. rewrite Hw', Z.eqb_refl in Hl. by injection Hl.
    + assert (E2 : (0 <=? zlen w - Z.of_nat r * s) = true) by lia. rewrite E2, andb_true_r.
      rewrite Z.max_r, Hw' in Hl by lia. set (real := zlen w - Z.of_nat r * s) in *.
      set (w'' := if fp32 && (real <? s) then fill_ones one w' real else w') in *.
      assert (Hw'' : zlen w'' = s).
      { subst w''. destruct (fp32 && (real <? s)) eqn:Ef; [|done]. unfold fill_ones.
        rewrite py_slice_in, zlen_app, zlen_replicate by blia. unfold zlen in *.
        rewrite length_take, drop_0. blia. }
      rewrite Hw'', Z.eqb_refl in Hl |- *. rewrite andb_false_r. exact Hl.
Qed.

End Loaders.

(** An engine whose [pad_or_narrow_weight] pads with zeros. *)
Definition ex_pad (w : list Z) (start n : Z) : list Z :=
  drop (Z.to_nat start) w ++ replicate (Z.to_nat (n - Z.max 0 (zlen w - start))) 0.

(** Four fp32 scales on three ranks of three: the [weight_loader] leaves the last rank's
    scales at zero, the parameter's loader sets them to one. *)
Example column_loader_zero_scales :
  column_weight_loader 1 ex_pad (fun w => Ok w) true 3 2 [2; 4; 8; 16] = Ok [0; 0; 0] /\
  load_column_parallel_weight 0 1 ex_pad true 3 2 [2; 4; 8; 16] = Ok [1; 1; 1].
Proof. split; reflexivity. Qed.

(** More than 128 heads per rank: the padding drops heads. *)
Example pad_drops_heads : pad_heads 4 1024 128 = (512, 64).
Proof. reflexivity. Qed.

Example pad_v41 : pad_heads 3 64 8 = (96, 12).
Proof. reflexivity. Qed.

Lemma column_shards_exact_witness :
  concat (map (fun r => wanted 1 3 (Z.of_nat r) [2; 4; 8; 16]) (seq 0 3)) =
    [2; 4; 8; 16; 1; 1; 1; 1; 1].
Proof.
  exact (proj1 (proj2 (column_shards_exact 0 1 ex_pad (fun _ _ _ _ _ _ => eq_refl) true 3 3
    [2; 4; 8; 16] (fun w => Ok w) ltac:(lia) ltac:(unfold zlen; simpl; lia)))).
Defined.

Definition ex_hf : hf :=
  Hf (Some (Text 64 8 128)) (Text 64 8 0) true (Some (Vision (Some 16) None)).

Lemma pad_config_legal_witness :
  num_attention_heads (the_text (pad_dsv41_hf_config 3 ex_hf)) mod 3 = 0.
Proof.
  destruct (pad_config_legal 3 ex_hf ltac:(lia)
    ltac:(split; [simpl; lia|]; right; right; split;
          [split; [simpl; lia|exists 8; split; [split; [reflexivity|lia]|reflexivity]]
          |vm_compute; discriminate])) as (Hh & _).
  apply Hh; vm_compute; discriminate.
Defined.
