(* ===== verification/VerifyCap.v ===== *)
(** * Verify caps (adapter/verify_cap.py)

    How many of a request's verify rows are live, and the remap that gives the dead rows
    the anchor row's experts.  Confidences are an abstract type with the tensor
    operations the code applies to them; a row of the router's weights or ids is an
    abstract value; the Triton kernel is a set of lanes that may run in any order.  The
    acceptance cutoff's use by the engine, the parsing of the thresholds, the log file
    and the installers are not modelled. *)
From S2P Require Import Prelude.
#[local] Open Scope list_scope.
#[local] Open Scope Z_scope.

Definition MAX_BS : Z := 64.
Definition E_TARGET : Z := 384.
Definition K_TARGET : Z := 6.

(** ** Live lengths *)

(** The thresholds: one for every draft, or one per draft. *)
Inductive thresholds (F : Type) := One (t : F) | Each (ts : list F).
Arguments One {F} _.
Arguments Each {F} _.

(** [_state] as the caps use it. *)
Record state (F : Type) := State {
  live : option (list Z);
  in_verify : bool;
  src : option (list Z);
  fixed : option Z;
  thr : option (thresholds F);
  kmin : Z }.
Arguments State {F} _ _ _ _ _ _.
Arguments live {F} _.
Arguments in_verify {F} _.
Arguments src {F} _.
Arguments fixed {F} _.
Arguments thr {F} _.
Arguments kmin {F} _.

Definition set_live {F} (s : state F) (l : list Z) : state F :=
  State (Some l) (in_verify s) (src s) (fixed s) (thr s) (kmin s).

Section Live.
Context (STRIDE : Z).

(** [live_buf]: made on first use, never under graph capture. *)
Definition live_buf {F} (capturing : bool) (s : state F) : state F * res (list Z) :=
  match live s with
  | Some b => (s, Ok b)
  | None =>
      if capturing then (s, Raise AssertionError)
      else
        let b := replicate (Z.to_nat MAX_BS)
                   (match fixed s with Some k => 1 + k | None => STRIDE end) in
        (set_live s b, Ok b)
  end.

Definition cutoff {F} (enabled : bool) (bs : Z) (s : state F) : res (option (list Z)) :=
  if enabled then match (live_buf false s).2 with
                  | Ok b => Ok (Some (py_slice b 0 bs))
                  | Raise e => Raise e
                  end
  else Ok None.

(** The tensor operations: clamping to [0, 1], the running product, the comparison. *)
Context {F : Type} (clamp01 : F -> F) (cumprod : list F -> list F) (ge : F -> F -> bool).

(** [thr_t]: the thresholds of [n] drafts, the last one repeated. *)
Definition thr_at (t : thresholds F) (i : nat) : option F :=
  match t with
  | One t => Some t
  | Each ts => match ts !! i with Some x => Some x | None => last ts end
  end.

(** The leading ones of a row: [(cum >= thr).cumprod(dim=1).sum(dim=1)]. *)
Fixpoint leading (l : list bool) : Z :=
  match l with
  | true :: l' => 1 + leading l'
  | _ => 0
  end.

Definition passes (t : thresholds F) (row : list F) : list bool :=
  imap (fun i c => match thr_at t i with Some x => ge c x | None => false end)
    (cumprod (map clamp01 row)).

(** [k.clamp(min=kmin, max=STRIDE - 1)]: torch takes the maximum first. *)
Definition live_of (t : thresholds F) (kmin : Z) (row : list F) : Z :=
  1 + Z.min (Z.max (leading (passes t row)) kmin) (STRIDE - 1).

(** [set_live_from_confidence] on one rank, before the ranks share the result. *)
Definition set_live_from_confidence (confidence : option (list (list F))) (bs : Z) (s : state F)
    : state F * res unit :=
  match thr s, confidence with
  | Some t, Some conf =>
      match live_buf false s with
      | (s, Raise e) => (s, Raise e)
      | (s, Ok b) =>
          let k := map (live_of t (kmin s)) conf in
          if negb ((zlen k =? bs) && (bs <=? zlen b)) then (s, Raise RuntimeError)
          else (set_live s (k ++ drop (length k) b), Ok ())
      end
  | _, _ => (s, Ok ())
  end.

(** [share_live] on every rank: rank 0's first [bs] entries, unless the ranks are alone. *)
Definition share_live (bs : Z) (bufs : list (list Z)) : list (list Z) :=
  match bufs with
  | b0 :: _ => map (fun b => py_slice b0 0 bs ++ drop (Z.to_nat bs) b) bufs
  | [] => []
  end.

End Live.

(** ** The remap *)

Section Remap.
Context (STRIDE : Z) {R : Type}.

Definition is_dead (live : list Z) (req pos : Z) : bool :=
  match live !! Z.to_nat req with Some l => l <=? pos | None => true end.

(** [_src_rows] without its cache: the row each verify row takes its router output from. *)
Definition src_row (live : list Z) (r : Z) : Z :=
  let req := r / STRIDE in
  let pos := r mod STRIDE in
  if is_dead live (Z.min req (MAX_BS - 1)) pos then req * STRIDE else r.

(** [_src_rows], kept in [_state] until the next forward. *)
Definition src_rows {F} (m : Z) (s : state F) (live : list Z) : state F * list Z :=
  match src s with
  | Some l => if zlen l =? m then (s, l)
              else let l := map (src_row live) (zrange 0 m) in
                   (State (VerifyCap.live s) (in_verify s) (Some l) (fixed s) (thr s) (kmin s), l)
  | None => let l := map (src_row live) (zrange 0 m) in
            (State (VerifyCap.live s) (in_verify s) (Some l) (fixed s) (thr s) (kmin s), l)
  end.

(** [t.index_select(0, src)]. *)
Definition index_select (t : list R) (src : list Z) : res (list R) :=
  mapR (fun i => match (if 0 <=? i then t !! Z.to_nat i else None) with
                 | Some x => Ok x
                 | None => Raise IndexError
                 end) src.

(** A lane of [_remap_kernel] on the rows in memory: a dead row takes the anchor's. *)
Definition lane (live : list Z) (m : Z) (t : list R) (r : Z) : list R :=
  let req := r / STRIDE in
  let pos := r mod STRIDE in
  if (r <? m) && is_dead live req pos then
    match t !! Z.to_nat (req * STRIDE) with Some x => <[Z.to_nat r := x]> t | None => t end
  else t.

(** The kernel, its lanes in some order. *)
Definition remap_kernel (live : list Z) (m : Z) (order : list Z) (t : list R) : list R :=
  fold_left (lane live m) order t.

(** When the patched gate remaps a router output of [m] rows. *)
Definition verify_gate (in_verify : bool) (experts topk m : Z) : bool :=
  in_verify && (experts =? E_TARGET) && (topk =? K_TARGET) && negb (m =? 0) &&
  (m mod STRIDE =? 0) && (m / STRIDE <=? MAX_BS).

(** [remap_dead_rows]: the kernel on contiguous tensors of six columns and at most 1024
    rows, else a gather. *)
Definition remap_dead_rows {F} (kernel : bool) (order : list Z) (live : list Z) (s : state F)
    (t : list R) : state F * res (list R) :=
  let m := zlen t in
  if kernel && (m <=? 1024) then (s, Ok (remap_kernel live m order t))
  else let '(s, l) := src_rows m s live in (s, index_select t l).

End Remap.

(** The patched model forward around a body: the source rows are forgotten, the target
    verify is marked, and the mark is restored however the body ends. *)
Definition forward {F A} (is_target_verify : bool) (body : state F -> state F * A) (s : state F)
    : state F * A :=
  let prev := in_verify s in
  let s := State (live s) is_target_verify None (fixed s) (thr s) (kmin s) in
  let '(s, a) := body s in
  (State (live s) prev (src s) (fixed s) (thr s) (kmin s), a).

(** ** The stopping rule *)

Lemma leading_bounds l : 0 <= leading l <= zlen l.
Proof. induction l as [|[] l IH]; simpl; rewrite ?zlen_cons; unfold zlen in *; simpl; lia. Qed.

Lemma leading_spec l j :
  (j < length l)%nat -> (Z.of_nat j < leading l <-> forall i, (i <= j)%nat -> l !! i = Some true).
Proof.
  revert j. induction l as [|b l IH]; intros j Hj; simpl in *; [lia|]. destruct b.
  - pose proof (leading_bounds l). destruct j as [|j].
    + split; [|lia]. intros _ i Hi. by replace i with 0%nat by lia.
    + rewrite (Nat2Z.inj_succ j). transitivity (Z.of_nat j < leading l); [lia|].
      rewrite IH by lia. split.
      * intros Hall [|i] Hi; [done|]. apply Hall. lia.
      * intros Hall i Hi. apply (Hall (S i)). lia.
  - split; [lia|]. intros Hall. by specialize (Hall 0%nat ltac:(lia)).
Qed.

Section Stopping.
Context {F : Type} (STRIDE : Z) (clamp01 : F -> F) (cumprod : list F -> list F) (ge : F -> F -> bool).

(** A running product: as long as its input, its first entries a function of the input's. *)
Context (Hlen : forall l, length (cumprod l) = length l)
  (Hprefix : forall l l' j, take j l = take j l' -> take j (cumprod l) = take j (cumprod l')).

#[local] Abbreviation live_of := (live_of STRIDE clamp01 cumprod ge).
#[local] Abbreviation passes := (passes clamp01 cumprod ge).

Lemma passes_len t row : length (passes t row) = length row.
Proof. unfold VerifyCap.passes. by rewrite length_imap, Hlen, length_map. Qed.

Lemma passes_prefix t row row' j : take j row = take j row' -> take j (passes t row) = take j (passes t row').
Proof.
  intros Heq. assert (Hc : take j (cumprod (map clamp01 row)) = take j (cumprod (map clamp01 row'))).
  { apply Hprefix. by rewrite !firstn_map, Heq. }
  unfold VerifyCap.passes. apply list_eq. intros i. destruct (decide (i < j)%nat) as [Hi|Hi].
  - rewrite !lookup_take_lt, !list_lookup_imap by done.
    rewrite <- (lookup_take_lt (cumprod (map clamp01 row)) j i), Hc by done. by rewrite lookup_take_lt.
  - by rewrite !lookup_take_ge by lia.
Qed.

(** The live length of a request is a stopping rule on the draft confidences: it is
    between 1 and the stride; below the minimum a draft is always verified, and above it
    draft [j] is verified exactly when every draft up to [j] passes its threshold; so
    whether a draft is verified is a function of the confidences up to that draft alone,
    never of the drafts after it; and after sharing every rank holds rank 0's lengths for
    the batch. *)
Theorem live_is_stopping_rule t kmin row row' (bs : Z) (bufs : list (list Z)) b0 conf
    (Hstride : 1 < STRIDE) (Hkmin : 0 <= kmin < STRIDE)
    (Hrow : zlen row = STRIDE - 1) (Hrow' : zlen row' = STRIDE - 1)
    (Hconf : zlen conf = bs)
    (Hb0 : b0 = map (live_of t kmin) conf ++ drop (length conf) b0)
    (Hbufs : head bufs = Some b0) :
  1 <= live_of t kmin row <= STRIDE /\
  (forall j, (j < length row)%nat ->
     (Z.of_nat j + 1 < live_of t kmin row <->
      Z.of_nat j < kmin \/ forall i, (i <= j)%nat -> passes t row !! i = Some true)) /\
  (forall j, (j < length row)%nat -> take (S j) row = take (S j) row' ->
     (Z.of_nat j + 1 < live_of t kmin row <-> Z.of_nat j + 1 < live_of t kmin row')) /\
  Forall (fun b => py_slice b 0 bs = map (live_of t kmin) conf) (share_live bs bufs).
Proof.
  assert (Hspec : forall r, zlen r = STRIDE - 1 -> forall j, (j < length r)%nat ->
    (Z.of_nat j + 1 < live_of t kmin r <->
     Z.of_nat j < kmin \/ forall i, (i <= j)%nat -> passes t r !! i = Some true)).
  { intros r Hr j Hj. unfold VerifyCap.live_of.
    pose proof (leading_spec (passes t r) j ltac:(by rewrite passes_len)) as Hl.
    pose proof (leading_bounds (passes t r)) as Hb. unfold zlen in *. rewrite passes_len in Hb.
    rewrite <- Hl. lia. }
  split; [|split; [by apply Hspec|split]].
  - unfold VerifyCap.live_of. pose proof (leading_bounds (passes t row)). lia.
  - intros j Hj Heq. rewrite !Hspec by (done || unfold zlen in *; lia).
    pose proof (passes_prefix t row row' (S j) Heq) as Hp.
    assert (Hi : forall i, (i <= j)%nat -> passes t row !! i = passes t row' !! i).
    { intros i Hi. rewrite <- (lookup_take_lt _ (S j) i), Hp by lia. by rewrite lookup_take_lt by lia. }
    split; (intros [?|Hall]; [by left|right]; intros i Hle; specialize (Hall i Hle)).
    + by rewrite <- Hi.
    + by rewrite Hi.
  - destruct bufs as [|b bufs]; [done|]. injection Hbufs as ->. unfold share_live.
    assert (Hs : py_slice b0 0 bs = map (live_of t kmin) conf).
    { rewrite Hb0. unfold zlen in Hconf.
      rewrite py_slice_in by (rewrite ?zlen_app, ?zlen_map; unfold zlen; lia).
      rewrite drop_0. apply take_app_length'. rewrite length_map. lia. }
    apply Forall_map, Forall_forall. intros x _. rewrite Hs.
    rewrite py_slice_in by (rewrite ?zlen_app, ?zlen_map; unfold zlen in *; lia).
    rewrite drop_0. apply take_app_length'. rewrite length_map. unfold zlen in Hconf. lia.
Qed.

End Stopping.

(** ** The remap leaves live rows alone *)

Section RemapProps.
Context (STRIDE : Z) {R : Type} (Hstride : 0 < STRIDE).

(** No request's anchor row is dead. *)
Definition anchors_live (live : list Z) (m : Z) : Prop :=
  forall req, 0 <= req < m / STRIDE -> exists l, live !! Z.to_nat req = Some l /\ 1 <= l.

Definition dead_row (live : list Z) (r : Z) : bool := is_dead live (r / STRIDE) (r mod STRIDE).

Definition anchor (r : Z) : Z := r / STRIDE * STRIDE.

Lemma anchor_bounds m r :
  m mod STRIDE = 0 -> 0 <= r < m -> 0 <= anchor r <= r /\ 0 <= r / STRIDE < m / STRIDE.
Proof.
  intros Hm Hr. unfold anchor. pose proof (Z.div_mod r STRIDE ltac:(lia)).
  pose proof (Z.mod_pos_bound r STRIDE Hstride). pose proof (Z.div_mod m STRIDE ltac:(lia)).
  assert (0 <= r / STRIDE) by (apply Z.div_pos; lia). split; [nia|]. split; [done|].
  apply Z.div_lt_upper_bound; [done|]. lia.
Qed.

Lemma anchor_not_dead live m r :
  m mod STRIDE = 0 -> anchors_live live m -> 0 <= r < m -> dead_row live (anchor r) = false.
Proof.
  intros Hm Ha Hr. destruct (anchor_bounds m r Hm Hr) as [_ Hq]. unfold dead_row, anchor.
  rewrite Z.div_mul, Z_mod_mult by lia. destruct (Ha _ Hq) as (l & Hl & ?). unfold is_dead.
  rewrite Hl. lia.
Qed.

(** One lane changes its own row only. *)
Lemma lane_lookup live m (t : list R) r i :
  m mod STRIDE = 0 -> zlen t = m -> 0 <= r -> 0 <= i < m ->
  lane STRIDE live m t r !! Z.to_nat i =
    if (i =? r) && dead_row live i then t !! Z.to_nat (anchor i) else t !! Z.to_nat i.
Proof.
  intros Hm Ht Hr Hi. unfold lane. fold (dead_row live r). fold (anchor r).
  destruct (Z.ltb_spec r m) as [Hrm|Hrm]; simpl.
  2: { destruct (Z.eqb_spec i r); [lia | done]. }
  destruct (Z.eqb_spec i r) as [->|Hne]; simpl.
  - destruct (dead_row live r); [|done]. destruct (anchor_bounds m r Hm ltac:(lia)).
    unfold zlen in Ht. destruct (lookup_lt_is_Some_2 t (Z.to_nat (anchor r))) as [x Hx]; [lia|].
    rewrite Hx. apply list_lookup_insert_eq. lia.
  - destruct (dead_row live r); [|done]. destruct (t !! Z.to_nat (anchor r)); [|done].
    apply list_lookup_insert_ne. lia.
Qed.

Lemma lane_length live m (t : list R) r : length (lane STRIDE live m t r) = length t.
Proof. unfold lane. case_match; [|done]. case_match; [apply length_insert|done]. Qed.

(** The kernel, whatever the order of its lanes. *)
Lemma kernel_lookup live m order (t : list R) i :
  m mod STRIDE = 0 -> zlen t = m -> anchors_live live m -> Forall (fun r => 0 <= r) order -> 0 <= i < m ->
  remap_kernel STRIDE live m order t !! Z.to_nat i =
    if bool_decide (i ∈ order) && dead_row live i then t !! Z.to_nat (anchor i) else t !! Z.to_nat i.
Proof.
  intros Hm Ht Ha Hord Hi. unfold remap_kernel. revert t Ht.
  induction Hord as [|r order Hr Hord IH]; intros t Ht; simpl; [done|].
  assert (Ht' : zlen (lane STRIDE live m t r) = m) by (unfold zlen in *; by rewrite lane_length).
  rewrite (IH _ Ht'). destruct (anchor_bounds m i Hm Hi) as [Hab _].
  rewrite (lane_lookup live m t r (anchor i)) by (done || lia).
  rewrite (anchor_not_dead live m i Hm Ha Hi), andb_false_r.
  rewrite (lane_lookup live m t r i) by done.
  assert (Hdec : bool_decide (i ∈ r :: order) = (i =? r) || bool_decide (i ∈ order)).
  { destruct (Z.eqb_spec i r) as [->|Hne]; simpl.
    - apply bool_decide_eq_true_2. by left.
    - apply bool_decide_ext. set_solver. }
  rewrite Hdec. destruct (i =? r), (bool_decide (i ∈ order)), (dead_row live i); done.
Qed.

Lemma kernel_length live m order (t : list R) : length (remap_kernel STRIDE live m order t) = length t.
Proof.
  unfold remap_kernel. revert t. induction order as [|r order IH]; intros t; simpl; [done|].
  by rewrite IH, lane_length.
Qed.

(** The gather the kernel replaces. *)
Lemma select_lookup live (t : list R) m :
  m mod STRIDE = 0 -> zlen t = m -> m / STRIDE <= MAX_BS ->
  exists u, index_select t (map (src_row STRIDE live) (zrange 0 m)) = Ok u /\ length u = length t /\
    forall i, 0 <= i < m -> u !! Z.to_nat i = t !! Z.to_nat (if dead_row live i then anchor i else i).
Proof.
  intros Hm Ht Hbs. unfold index_select.
  set (f := fun i => match (if 0 <=? i then t !! Z.to_nat i else None) with
                     | Some x => Ok x | None => Raise IndexError end).
  assert (Hsrc : forall i, 0 <= i < m ->
    src_row STRIDE live i = if dead_row live i then anchor i else i).
  { intros i Hi. destruct (anchor_bounds m i Hm Hi) as [_ Hq]. unfold src_row, dead_row, anchor.
    by rewrite Z.min_l by lia. }
  assert (Hin : forall i, 0 <= i < m -> 0 <= (if dead_row live i then anchor i else i) < m).
  { intros i Hi. destruct (anchor_bounds m i Hm Hi). destruct (dead_row live i); lia. }
  destruct (mapR_total f (map (src_row STRIDE live) (zrange 0 m))) as [u Hu].
  { intros x (i & -> & Hi%zrange_elem)%list_elem_of_fmap. rewrite Hsrc by done. unfold f.
    pose proof (Hin i Hi). destruct (Z.leb_spec 0 (if dead_row live i then anchor i else i)); [|lia].
    unfold zlen in Ht. destruct (lookup_lt_is_Some_2 t (Z.to_nat (if dead_row live i then anchor i else i)))
      as [x Hx]; [lia|]. rewrite Hx. by eexists. }
  exists u. split; [exact Hu|]. split.
  - apply mapR_Ok_length in Hu. rewrite Hu, length_map. unfold zrange. rewrite length_seqZ.
    unfold zlen in Ht. lia.
  - intros i Hi.
    destruct (mapR_Ok_lookup f _ u (Z.to_nat i) (if dead_row live i then anchor i else i) Hu) as (y & Hy & Hf).
    { rewrite list_lookup_fmap. unfold zrange. rewrite lookup_seqZ_lt by lia. simpl.
      rewrite Z2Nat.id by lia. by rewrite Hsrc. }
    rewrite Hy. unfold f in Hf. destruct (0 <=? _); [|done].
    destruct (t !! Z.to_nat (if dead_row live i then anchor i else i)); [|done]. congruence.
Qed.

(** C38: The remap of a verify batch, in place by the kernel with its lanes in any order or
    by a gather, gives one result: a live row keeps its own router output, a dead row has
    its request's anchor's; so the rows of a request use only experts of its live rows,
    and the two ways agree row for row. *)
Theorem remap_exact {F} live (t : list R) order (s : state F)
    (Hm : zlen t mod STRIDE = 0) (Hbs : zlen t / STRIDE <= MAX_BS)
    (Hlive : anchors_live live (zlen t))
    (Horder : forall i, 0 <= i < zlen t -> i ∈ order) (Hlanes : Forall (fun r => 0 <= r) order)
    (Hsrc : src s = None) :
  let u := remap_kernel STRIDE live (zlen t) order t in
  (remap_dead_rows STRIDE true order live s t).2 = Ok u /\
  (remap_dead_rows STRIDE false order live s t).2 = Ok u /\
  forall req pos l, 0 <= req < zlen t / STRIDE -> 0 <= pos < STRIDE -> live !! Z.to_nat req = Some l ->
    u !! Z.to_nat (req * STRIDE + pos) = t !! Z.to_nat (req * STRIDE + (if pos <? l then pos else 0)).
Proof.
  intros u.
  assert (Hu : forall i, 0 <= i < zlen t ->
    u !! Z.to_nat i = t !! Z.to_nat (if dead_row live i then anchor i else i)).
  { intros i Hi. subst u. rewrite (kernel_lookup live (zlen t)) by done.
    rewrite bool_decide_eq_true_2 by by apply Horder. simpl. by destruct (dead_row live i). }
  destruct (select_lookup live t (zlen t) Hm eq_refl Hbs) as (v & Hv & Hlv & Hvl).
  assert (Huv : u = v).
  { apply list_eq. intros i. destruct (decide (i < length t)%nat) as [Hi|Hi].
    - rewrite <- (Nat2Z.id i), Hu, Hvl by (unfold zlen; lia). done.
    - rewrite !lookup_ge_None_2; [done|lia|]. subst u. rewrite kernel_length. lia. }
  assert (Hsel : (remap_dead_rows STRIDE false order live s t).2 = Ok u).
  { unfold remap_dead_rows. simpl. unfold src_rows. rewrite Hsrc. simpl. by rewrite Hv, Huv. }
  split; [|split; [done|]].
  - unfold remap_dead_rows. simpl. destruct (zlen t <=? 1024); [done|]. exact Hsel.
  - intros req pos l Hreq Hpos Hl.
    assert (Hi : 0 <= req * STRIDE + pos < zlen t).
    { pose proof (Z.div_mod (zlen t) STRIDE ltac:(lia)). nia. }
    rewrite Hu by done. unfold dead_row, anchor.
    assert (Hdiv : (req * STRIDE + pos) / STRIDE = req).
    { rewrite Z.div_add_l by lia. rewrite Z.div_small by lia. lia. }
    assert (Hmod : (req * STRIDE + pos) mod STRIDE = pos).
    { rewrite Z.add_comm, Z_mod_plus_full. by apply Z.mod_small. }
    rewrite Hdiv, Hmod. unfold is_dead. rewrite Hl.
    destruct (Z.leb_spec l pos), (Z.ltb_spec pos l); try lia; [by rewrite Z.add_0_r | done].
Qed.

End RemapProps.

(** ** Witnesses *)

(** Confidences in percent. *)
Fixpoint ex_cumprod (acc : Z) (l : list Z) : list Z :=
  match l with [] => [] | c :: l' => acc * c / 100 :: ex_cumprod (acc * c / 100) l' end.

Lemma ex_cumprod_len acc l : length (ex_cumprod acc l) = length l.
Proof. revert acc. induction l as [|c l IH]; intros acc; simpl; [done|]. by rewrite IH. Qed.

Lemma ex_cumprod_prefix acc l l' j :
  take j l = take j l' -> take j (ex_cumprod acc l) = take j (ex_cumprod acc l').
Proof.
  revert acc l l'. induction j as [|j IH]; intros acc [|c l] [|c' l']; simpl; try done.
  intros [= -> Heq]. f_equal. by apply IH.
Qed.

Definition ex_live_of (row : list Z) : Z :=
  live_of 6 (fun c => Z.min 100 (Z.max 0 c)) (ex_cumprod 100) (fun c t => t <=? c) (One 30) 1 row.

Example ex_live : ex_live_of [90; 80; 60; 50; 99] = 4.
Proof. reflexivity. Qed.

Lemma live_is_stopping_rule_witness :
  3 + 1 < ex_live_of [90; 80; 60; 90; 1] <-> 3 + 1 < ex_live_of [90; 80; 60; 90; 100].
Proof.
  destruct (live_is_stopping_rule 6 (fun c => Z.min 100 (Z.max 0 c)) (ex_cumprod 100)
    (fun c t => t <=? c) (ex_cumprod_len 100) (ex_cumprod_prefix 100) (One 30) 1
    [90; 80; 60; 90; 1] [90; 80; 60; 90; 100] 1 [[4; 6]] [4; 6] [[90; 80; 60; 50; 99]]
    ltac:(lia) ltac:(lia) eq_refl eq_refl eq_refl eq_refl eq_refl) as (_ & _ & Hs & _).
  apply (Hs 3%nat); [simpl; lia | reflexivity].
Defined.

Definition ex_state : state Z := State (Some [2; 3]) true None None (Some (One 30)) 1.

Lemma remap_exact_witness :
  (remap_dead_rows 3 true [5; 1; 0; 2; 4; 3; 6; 7] [2; 3] ex_state [10; 11; 12; 20; 21; 22]).2 =
    (remap_dead_rows 3 false [5; 1; 0; 2; 4; 3; 6; 7] [2; 3] ex_state [10; 11; 12; 20; 21; 22]).2.
Proof.
  destruct (remap_exact 3 ltac:(lia) [2; 3] [10; 11; 12; 20; 21; 22] [5; 1; 0; 2; 4; 3; 6; 7] ex_state
    eq_refl ltac:(vm_compute; discriminate)
    ltac:(intros req Hreq; change (zlen [10; 11; 12; 20; 21; 22] / 3) with 2 in Hreq;
          assert (req = 0 \/ req = 1) as [-> | ->] by lia; eexists; split; [reflexivity|lia|reflexivity|lia])
    ltac:(intros i Hi; change (zlen [10; 11; 12; 20; 21; 22]) with 6 in Hi;
          apply list_elem_of_In; simpl; lia)
    ltac:(repeat constructor; lia) eq_refl) as (E1 & E2 & _).
  rewrite E1, E2. reflexivity.
Defined.
