(* ===== verification/SpecSyncFree.v ===== *)
(** * Broadcasts of a speculative step (adapter/spec_sync_free.py)

    Which of the decode step's rank-0 broadcasts run, run packed, or run audited, on all
    ranks at once; and the noise stream that replaces the draws of each rank's own
    generator.  A tensor is a reference into every rank's store, because a merged
    broadcast writes the first two tensors after they were handed back.  The Philox
    generator, the engine's sampler and sync sites, the counters' readout, the checks of
    the engine's source and the installers are not modelled. *)
From Stdlib Require Import Ascii.
From S2P Require Import Prelude PyStr.
#[local] Open Scope string_scope.
#[local] Open Scope list_scope.
#[local] Open Scope Z_scope.

(** ** The gate *)

(** [s.replace(";", ",")]. *)
Fixpoint semi_to_comma (s : string) : string :=
  match s with
  | "" => ""
  | String c s' => String (if Ascii.eqb c ";" then ascii_of_nat 44 else c) (semi_to_comma s')
  end.

Definition parts4 : gset string := {["draft"; "accept"; "vcap"; "merge"]}.

(** [_TOKENS] *)
Definition tokens (spec : string) : res (gset string) :=
  let raw := map strip (split_all (ascii_of_nat 44) (semi_to_comma (lower (strip spec)))) in
  let t : gset string :=
    list_to_set (filter (fun x => negb (String.eqb x "")) raw) ∖ {["0"; "off"; "false"]} in
  let t := if bool_decide ("all" ∈ t) then t ∪ parts4 else t in
  if bool_decide (t ∖ (parts4 ∪ {["audit"; "all"; "1"; "on"]}) = ∅) then
    Ok (if bool_decide (t ∩ {["1"; "on"]} = ∅) then t else t ∪ parts4)
  else Raise ValueError.

(** The module's switches. *)
Record flags := Flags {
  ENABLED : bool;
  AUDIT : bool;
  SKIP_DRAFT : bool;
  SKIP_ACCEPT : bool;
  SKIP_VCAP : bool;
  MERGE : bool;
  NOISE : bool }.

Definition flags_of (t : gset string) : flags :=
  let has x := bool_decide (x ∈ t) in
  let audit := has "audit" in
  let skip_accept := has "accept" && negb audit in
  Flags (negb (bool_decide (t = ∅))) audit (has "draft" && negb audit) skip_accept
    (has "vcap" && negb audit) (has "merge" && negb skip_accept) (has "draft" || audit).

(** [_live]: what is skipped or merged now; [ab]: the parts of the A/B variant in force. *)
Record live_flags := Live { skip_draft : bool; skip_accept : bool; skip_vcap : bool; merge : bool }.

Definition live (f : flags) (ab : option (gset string)) : live_flags :=
  match ab with
  | Some p =>
      if AUDIT f then Live (SKIP_DRAFT f) (SKIP_ACCEPT f) (SKIP_VCAP f) (MERGE f)
      else let has x := bool_decide (x ∈ p) in
           Live (has "draft") (has "accept") (has "vcap") (has "merge" && negb (has "accept"))
  | None => Live (SKIP_DRAFT f) (SKIP_ACCEPT f) (SKIP_VCAP f) (MERGE f)
  end.

(** ** The sync sites *)

(** The engine's sites: the two of the draft, the verify epilogue's, the others. *)
Inductive site := GRAPH_SAMPLE | GRAPH_GREEDY | ACCEPT_GRAPH | OTHER.

Definition site_name (s : site) : option string :=
  match s with
  | GRAPH_SAMPLE | GRAPH_GREEDY => Some "draft"
  | ACCEPT_GRAPH => Some "accept"
  | OTHER => None
  end.

#[local] Abbreviation tensor := (list Z).
#[local] Abbreviation store := (gmap nat (list Z)).

(** A mismatch and a check count, per site. *)
#[local] Abbreviation counts := (gmap string (Z * Z)).

(** All ranks: their stores and counters ([None]: not made yet), the references the merge
    holds (the same on every rank, which run in lockstep), and the broadcasts so far. *)
Record world := World {
  stores : list store;
  counters : option (list counts);
  pending : list nat;
  bcasts : nat }.

(** Rank 0's tensor [r]. *)
Definition root (w : world) (r : nat) : option tensor :=
  match stores w with s0 :: _ => s0 !! r | [] => None end.

Definition write (o : option tensor) (r : nat) (s : store) : store :=
  match o with Some v => <[r := v]> s | None => s end.

(** [group.broadcast(values, src=0)] *)
Definition broadcast (r : nat) (w : world) : world :=
  World (map (write (root w r) r) (stores w)) (counters w) (pending w) (S (bcasts w)).

Definition bump (name : string) (differs : bool) (c : counts) : counts :=
  let '(d, n) := default (0, 0) (c !! name) in
  <[name := (d + (if differs then 1 else 0), n + 1)]> c.

(** [_audited_broadcast]; [capturing]: a graph is being captured. *)
Definition audited_broadcast (capturing : bool) (name : string) (r : nat) (w : world) : world :=
  let made := match counters w with
              | Some c => Some c
              | None => if capturing then None else Some (map (fun _ => ∅) (stores w))
              end in
  let differs s := bool_decide (s !! r <> root w r) in
  let w' := broadcast r (World (stores w) made (pending w) (bcasts w)) in
  match made with
  | None => w'
  | Some c => World (stores w') (Some (zip_with (fun s => bump name (differs s)) (stores w) c))
                (pending w') (bcasts w')
  end.

Definition same_shapes (s : store) (a b c : nat) : bool :=
  match s !! a, s !! b, s !! c with
  | Some x, Some y, Some z => Nat.eqb (length x) (length y) && Nat.eqb (length y) (length z)
  | _, _, _ => false
  end.

(** [_merged_accept]: the first two are held, the third sends all three in one
    broadcast, each copied back into its tensor. *)
Definition merged_accept (r : nat) (w : world) : world * option exn :=
  let pend := pending w ++ [r] in
  match pend with
  | [a; b; c] =>
      let w0 := World (stores w) (counters w) [] (bcasts w) in
      if forallb (fun s => same_shapes s a b c) (stores w) then
        let copy s := write (root w c) c (write (root w b) b (write (root w a) a s)) in
        (World (map copy (stores w)) (counters w) [] (S (bcasts w)), None)
      else (w0, Some RuntimeError)
  | _ => (World (stores w) (counters w) pend (bcasts w), None)
  end.

(** The patched [sync] of a tensor at a site; [installed]: the site is one of the
    object's. *)
Definition sync (f : flags) (ab : option (gset string)) (capturing installed : bool) (s : site)
    (r : nat) (w : world) : world * option exn :=
  if negb installed then (w, None)
  else match site_name s with
  | None => (broadcast r w, None)
  | Some name =>
      if AUDIT f then (audited_broadcast capturing name r w, None)
      else
        let l := live f ab in
        if String.eqb name "draft" && skip_draft l then (w, None)
        else if String.eqb name "accept" then
          if skip_accept l then (w, None)
          else if merge l then merged_accept r w
          else (broadcast r w, None)
        else (broadcast r w, None)
  end.

(** [tp_broadcast] of verify_cap's live lengths. *)
Definition tp_broadcast (f : flags) (ab : option (gset string)) (capturing : bool) (r : nat)
    (w : world) : world :=
  if AUDIT f then audited_broadcast capturing "vcap" r w
  else if skip_vcap (live f ab) then w
  else broadcast r w.

(** The engine's own sync: a broadcast at its sites. *)
Definition stock_sync (installed : bool) (r : nat) (w : world) : world :=
  if installed then broadcast r w else w.

(** ** The noise *)

(** [RankInvariantNoise] *)
Record noise := Noise { seed : Z; ctr : Z; step : Z }.

(** [_NoiseSlice.exponential_] with [fill_exp_noise]: the Philox key of the draw. *)
Definition draw (n : noise) : noise * res Z :=
  let n' := Noise (seed n) (ctr n) (step n + 1) in
  if (0 <=? step n) && (step n <? 64) then (n', Ok (seed n + ctr n * 64 + step n))
  else (n', Raise AssertionError).

Fixpoint draws (k : nat) (n : noise) : noise * res (list Z) :=
  match k with
  | O => (n, Ok [])
  | S k' =>
      match draw n with
      | (n, Raise e) => (n, Raise e)
      | (n, Ok key) =>
          match draws k' n with
          | (n, Ok keys) => (n, Ok (key :: keys))
          | (n, Raise e) => (n, Raise e)
          end
      end
  end.

(** The patched sampler [__call__] that draws [k] times. *)
Definition call (k : nat) (n : noise) : noise * res (list Z) :=
  match draws k (Noise (seed n) (ctr n) 0) with
  | (n, Ok keys) => (Noise (seed n) (ctr n + 1) (step n), Ok keys)
  | (n, Raise e) => (n, Raise e)
  end.

Fixpoint calls (ks : list nat) (n : noise) : noise * res (list (list Z)) :=
  match ks with
  | [] => (n, Ok [])
  | k :: ks' =>
      match call k n with
      | (n, Raise e) => (n, Raise e)
      | (n, Ok keys) =>
          match calls ks' n with
          | (n, Ok rest) => (n, Ok (keys :: rest))
          | (n, Raise e) => (n, Raise e)
          end
      end
  end.

(** ** Every rank holds rank 0's values *)

(** The writes of the broadcasts of [rs]. *)
Definition take_root (w : world) (rs : list nat) (s : store) : store :=
  fold_left (fun s r => write (root w r) r s) rs s.

(** On tensor [r] the ranks already agree. *)
Definition agree (w : world) (r : nat) : Prop := forall s, s ∈ stores w -> s !! r = root w r.

Lemma write_id (s : store) r : write (s !! r) r s = s.
Proof. destruct (s !! r) as [v|] eqn:E; simpl; [by apply insert_id | done]. Qed.

Lemma write_root (s : store) o r q : write o r s !! q = if decide (r = q) then match o with Some v => Some v | None => s !! q end else s !! q.
Proof.
  destruct o as [v|]; simpl; [|by case_decide]. case_decide as E; [subst; apply lookup_insert_eq|].
  by apply lookup_insert_ne.
Qed.

(** Rank 0 keeps its own values. *)
Lemma root_copy w (f : store -> store) c p n r :
  (forall s, s !! r = root w r -> f s !! r = root w r) ->
  root (World (map f (stores w)) c p n) r = root w r.
Proof. intros Hf. unfold root in *. simpl. destruct (stores w) as [|s0 l]; [done|]. by apply Hf. Qed.

Lemma root_broadcast w q r : root (broadcast q w) r = root w r.
Proof.
  apply root_copy. intros s Hs. rewrite write_root. case_decide as E; [|done]. subst.
  by destruct (root w r).
Qed.

Lemma take_root_ext w w' rs s : (forall r, root w r = root w' r) -> take_root w rs s = take_root w' rs s.
Proof. intros Hr. unfold take_root. revert s. induction rs as [|r rs IH]; intros s; simpl; [done|]. by rewrite Hr, IH. Qed.

Lemma take_root_agree w rs s :
  s ∈ stores w -> (forall r, r ∈ rs -> agree w r) -> take_root w rs s = s.
Proof.
  intros Hs. unfold take_root. revert s Hs. induction rs as [|r rs IH]; intros s Hs Ha; simpl; [done|].
  rewrite <- (Ha r ltac:(by left) s Hs), write_id. apply IH; [done|]. intros q Hq. apply Ha. by right.
Qed.

Lemma take_root_other w rs s q : q ∉ rs -> take_root w rs s !! q = s !! q.
Proof.
  unfold take_root. revert s. induction rs as [|r rs IH]; intros s Hq; simpl; [done|].
  rewrite IH, write_root by set_solver. rewrite decide_False by set_solver. done.
Qed.

Lemma take_root_app w rs rs' s : take_root w (rs ++ rs') s = take_root w rs' (take_root w rs s).
Proof. apply fold_left_app. Qed.

(** A run of syncs that may broadcast, each at most changing the counters. *)
Definition same_stores (w w' : world) : Prop := stores w = stores w' /\ pending w = pending w'.

Lemma stock_run rs w :
  let w' := fold_left (fun w r => stock_sync true r w) rs w in
  stores w' = map (take_root w rs) (stores w) /\ pending w' = pending w /\
  bcasts w' = (bcasts w + length rs)%nat /\ forall r, root w' r = root w r.
Proof.
  revert w. induction rs as [|r rs IH]; intros w; cbn [fold_left].
  - split; [unfold take_root; simpl; by rewrite map_id|]. repeat split; simpl; lia.
  - change (stock_sync true r w) with (broadcast r w). destruct (IH (broadcast r w)) as (H1 & H2 & H3 & H4). split; [|split; [done|split]].
    + rewrite H1. simpl. rewrite map_map. apply map_ext. intros s.
      unfold take_root at 2. simpl. apply take_root_ext, root_broadcast.
    + rewrite H3. simpl. lia.
    + intros q. by rewrite H4, root_broadcast.
Qed.

Section Syncs.
Context (f : flags) (ab : option (gset string)) (capturing : bool).

#[local] Abbreviation l := (live f ab).

(** A run of syncs of the sites [rs]; the first exception ends it. *)
Fixpoint syncs (reqs : list (site * nat)) (w : world) : world * option exn :=
  match reqs with
  | [] => (w, None)
  | (s, r) :: reqs' =>
      match sync f ab capturing true s r w with
      | (w', None) => syncs reqs' w'
      | (w', Some e) => (w', Some e)
      end
  end.

Definition is_draft (s : site) : Prop := s = GRAPH_SAMPLE \/ s = GRAPH_GREEDY.

Lemma audited_stores name r w :
  stores (audited_broadcast capturing name r w) = stores (broadcast r w) /\
  pending (audited_broadcast capturing name r w) = pending w /\
  bcasts (audited_broadcast capturing name r w) = S (bcasts w).
Proof. unfold audited_broadcast. by destruct (match counters w with Some _ => _ | None => _ end). Qed.

(** One draft sync. *)
Lemma sync_draft s r w :
  is_draft s -> ((AUDIT f = false /\ skip_draft l = true) -> agree w r) ->
  exists w', sync f ab capturing true s r w = (w', None) /\
    stores w' = map (take_root w [r]) (stores w) /\ pending w' = pending w /\
    bcasts w' = (bcasts w + if negb (AUDIT f) && skip_draft l then 0 else 1)%nat.
Proof.
  intros Hs Ha. assert (Hn : site_name s = Some "draft") by (by destruct Hs as [-> | ->]).
  unfold sync. rewrite Hn. simpl. destruct (AUDIT f) eqn:Haud; simpl.
  - eexists. split; [done|]. destruct (audited_stores "draft" r w) as (-> & -> & ->).
    split; [done|]. split; [done|lia].
  - destruct (skip_draft l) eqn:Hsk.
    + exists w. split; [done|]. split; [|split; [done|lia]].
      transitivity (map id (stores w)); [by rewrite map_id|]. apply map_ext_in.
      intros s' Hs'%list_elem_of_In. symmetry. apply take_root_agree; [done|].
      intros q ->%list_elem_of_singleton. by apply Ha.
    + eexists. split; [done|]. split; [done|]. split; [done|simpl; lia].
Qed.

Lemma root_step w w' r q : stores w' = map (take_root w [r]) (stores w) -> root w' q = root w q.
Proof.
  intros Hw. assert (Hr : forall x, root w x = match stores w with s0 :: _ => s0 !! x | [] => None end) by done.
  unfold root at 1. rewrite Hw, Hr. unfold take_root. destruct (stores w) as [|s0 rest]; [done|].
  simpl. by rewrite Hr, write_id.
Qed.

(** Agreement survives syncs: a rank's value is rank 0's or unchanged. *)
Lemma agree_step w w' r q :
  stores w' = map (take_root w [r]) (stores w) -> agree w q -> agree w' q.
Proof.
  intros Hw Ha. pose proof (root_step w w' r q Hw) as Hroot.
  intros s Hs. rewrite Hw in Hs. apply list_elem_of_fmap in Hs as (s1 & -> & Hs1).
  rewrite Hroot. unfold take_root. simpl. rewrite write_root. case_decide as E; [|by apply Ha].
  subst. destruct (root w q) eqn:Eq; [done|]. rewrite <- Eq. by apply Ha.
Qed.

(** The draft's syncs. *)
Lemma syncs_draft reqs w :
  Forall (fun sr => is_draft sr.1) reqs ->
  (AUDIT f = false /\ skip_draft l = true -> forall r, r ∈ map snd reqs -> agree w r) ->
  exists w', syncs reqs w = (w', None) /\
    stores w' = map (take_root w (map snd reqs)) (stores w) /\ pending w' = pending w /\
    (forall q, root w' q = root w q) /\ (forall q, agree w q -> agree w' q) /\
    bcasts w' = (bcasts w + if negb (AUDIT f) && skip_draft l then 0 else length reqs)%nat.
Proof.
  revert w. induction reqs as [|[s r] reqs IH]; intros w; simpl.
  - intros _ _. exists w. split; [done|]. split; [unfold take_root; simpl; by rewrite map_id|].
    repeat split; auto. case_match; lia.
  - intros [Hs Hd]%Forall_cons Ha. simpl in Hs.
    destruct (sync_draft s r w Hs) as (w1 & -> & S1 & P1 & B1).
    { intros H. apply (Ha H). by left. }
    destruct (IH w1 Hd) as (w2 & -> & S2 & P2 & R2 & A2 & B2).
    { intros H q Hq. apply (agree_step w w1 r q S1). apply (Ha H). by right. }
    exists w2. split; [done|]. split.
    { rewrite S2, S1, map_map. apply map_ext. intros s'. unfold take_root at 3. simpl.
      apply take_root_ext. intros q. by apply root_step with r. }
    split; [congruence|]. split; [intros q; rewrite R2; by apply root_step with r|].
    split; [intros q Hq; apply A2; by apply (agree_step w w1 r q S1)|].
    rewrite B2, B1. destruct (negb (AUDIT f) && skip_draft l); lia.
Qed.

(** The epilogue's three syncs. *)
Lemma syncs_accept a b c w :
  pending w = [] ->
  (AUDIT f = false /\ skip_accept l = true -> agree w a /\ agree w b /\ agree w c) ->
  (AUDIT f = false /\ skip_accept l = false /\ merge l = true ->
   forall s, s ∈ stores w -> same_shapes s a b c = true) ->
  exists w', syncs [(ACCEPT_GRAPH, a); (ACCEPT_GRAPH, b); (ACCEPT_GRAPH, c)] w = (w', None) /\
    stores w' = map (take_root w [a; b; c]) (stores w) /\ pending w' = [] /\
    bcasts w' = (bcasts w + if AUDIT f then 3 else if skip_accept l then 0 else if merge l then 1 else 3)%nat.
Proof.
  intros Hp Hskip Hmerge. unfold syncs, sync. simpl. destruct (AUDIT f) eqn:Haud; simpl.
  - eexists. split; [done|].
    set (w1 := audited_broadcast capturing "accept" a w).
    set (w2 := audited_broadcast capturing "accept" b w1).
    destruct (audited_stores "accept" a w) as (S1 & P1 & B1). fold w1 in S1, P1, B1.
    destruct (audited_stores "accept" b w1) as (S2 & P2 & B2). fold w2 in S2, P2, B2.
    destruct (audited_stores "accept" c w2) as (S3 & P3 & B3).
    assert (R1 : forall q, root w1 q = root w q) by (intros q; by apply root_step with a).
    assert (R2 : forall q, root w2 q = root w1 q) by (intros q; by apply root_step with b).
    split; [|split; [congruence|lia]]. rewrite S3. simpl. rewrite S2. simpl. rewrite S1. simpl.
    rewrite !map_map. apply map_ext. intros s. unfold take_root. simpl. by rewrite !R2, !R1.
  - destruct (skip_accept l) eqn:Hsk.
    + exists w. split; [done|]. split; [|split; [done|lia]].
      transitivity (map id (stores w)); [by rewrite map_id|]. apply map_ext_in.
      intros s Hs%list_elem_of_In. symmetry. apply take_root_agree; [done|].
      destruct (Hskip ltac:(done)) as (Ha & Hb & Hc). intros q Hq. set_solver.
    + destruct (merge l) eqn:Hm; simpl.
      * unfold merged_accept. simpl. rewrite Hp. simpl.
        assert (Hall : forallb (fun s => same_shapes s a b c) (stores w) = true).
        { apply forallb_forall. intros s Hs. apply Hmerge; [done|]. by apply list_elem_of_In. }
        rewrite Hall. eexists. split; [done|]. split; [done|]. split; [done|simpl; lia].
      * eexists. split; [done|]. simpl. split; [|split; [done|lia]].
        rewrite !map_map. apply map_ext. intros s. unfold take_root. simpl.
        by rewrite !root_broadcast.
Qed.

End Syncs.

(** C37: Whatever tokens are set, the patched syncs of a step, the draft's and then the epilogue's three, leave every
    rank's tensors exactly as the stock broadcasts do: always when a site's broadcasts
    run, run audited or run packed (the three tensors of one shape), and when they are
    dropped as long as the ranks agree on those tensors already; nothing raises, the
    merge holds nothing back, and the broadcasts are counted: none for a dropped site,
    one for the packed epilogue. *)
Theorem sync_matches_stock t ab capturing reqs a b c (w : world)
    (Hpend : pending w = [])
    (Hdraft : Forall (fun sr => is_draft sr.1) reqs)
    (Hskipd : AUDIT (flags_of t) = false -> skip_draft (live (flags_of t) ab) = true ->
              forall r, r ∈ map snd reqs -> agree w r)
    (Hskipa : AUDIT (flags_of t) = false -> skip_accept (live (flags_of t) ab) = true ->
              agree w a /\ agree w b /\ agree w c)
    (Hshapes : forall s, s ∈ stores w -> same_shapes s a b c = true)
    (Hfresh : forall r, r ∈ map snd reqs -> r <> a /\ r <> b /\ r <> c) :
  let all := reqs ++ [(ACCEPT_GRAPH, a); (ACCEPT_GRAPH, b); (ACCEPT_GRAPH, c)] in
  let f := flags_of t in
  exists w', syncs f ab capturing all w = (w', None) /\
    stores w' = stores (fold_left (fun w r => stock_sync true r w) (map snd all) w) /\
    pending w' = [] /\
    bcasts w' = (bcasts w + (if negb (AUDIT f) && skip_draft (live f ab) then 0 else length reqs) +
      if AUDIT f then 3 else if skip_accept (live f ab) then 0
      else if merge (live f ab) then 1 else 3)%nat.
Proof.
  intros all f.
  destruct (syncs_draft f ab capturing reqs w Hdraft) as (w1 & E1 & S1 & P1 & R1 & A1 & B1).
  { intros [H1 H2]. by apply Hskipd. }
  assert (Hsame : forall s, s ∈ stores w -> forall q, q ∈ [a; b; c] -> take_root w (map snd reqs) s !! q = s !! q).
  { intros s _ q Hq. apply take_root_other. intros Hin. destruct (Hfresh q Hin) as (? & ? & ?). set_solver. }
  destruct (syncs_accept f ab capturing a b c w1) as (w2 & E2 & S2 & P2 & B2).
  { congruence. }
  { intros [H1 H2]. destruct (Hskipa H1 H2) as (? & ? & ?). auto. }
  { intros _ s Hs. rewrite S1 in Hs. apply list_elem_of_fmap in Hs as (s0 & -> & Hs0).
    unfold same_shapes. rewrite !Hsame by (done || set_solver). by apply Hshapes. }
  exists w2. split; [|split; [|split; [done|]]].
  - subst all. revert E1 E2. clear. intros E1 E2. revert w E1.
    induction reqs as [|[s r] reqs IH]; intros w E1; simpl in *; [by simplify_eq|].
    destruct (sync f ab capturing true s r w) as [w' [e|]]; [done|]. by apply IH.
  - destruct (stock_run (map snd all) w) as (H & _). rewrite H, S2, S1, map_map. apply map_ext. intros s.
    subst all. rewrite map_app, take_root_app. cbn [map snd]. by apply take_root_ext.
  - rewrite B2, B1. done.
Qed.

(** ** The noise stream *)

Lemma draws_ok k n :
  0 <= step n -> step n + Z.of_nat k <= 64 ->
  draws k n = (Noise (seed n) (ctr n) (step n + Z.of_nat k),
               Ok (map (fun i => seed n + ctr n * 64 + step n + Z.of_nat i) (seq 0 k))).
Proof.
  revert n. induction k as [|k IH]; intros n Hs Hk.
  { simpl. rewrite Z.add_0_r. by destruct n. }
  cbn [draws]. unfold draw. assert (E : ((0 <=? step n) && (step n <? 64)) = true) by blia. rewrite E.
  rewrite IH by (simpl; lia). simpl. f_equal; [f_equal; lia|]. f_equal. f_equal; [lia|].
  rewrite <- seq_shift, map_map. apply map_ext. intros i. lia.
Qed.

(** The keys of calls that draw [ks] times, from counter [c] on. *)
Fixpoint call_keys (s c : Z) (ks : list nat) : list (list Z) :=
  match ks with
  | [] => []
  | k :: ks' => map (fun i => s + c * 64 + Z.of_nat i) (seq 0 k) :: call_keys s (c + 1) ks'
  end.

Lemma calls_ok ks n :
  Forall (fun k => (k <= 64)%nat) ks ->
  exists st, calls ks n = (Noise (seed n) (ctr n + Z.of_nat (length ks)) st,
                           Ok (call_keys (seed n) (ctr n) ks)).
Proof.
  revert n. induction ks as [|k ks IH]; intros n.
  { intros _. exists (step n). simpl. rewrite Z.add_0_r. by destruct n. }
  intros [Hk Hks]%Forall_cons. cbn [calls]. unfold call. rewrite draws_ok by (simpl; lia). simpl.
  match goal with |- context [calls ks ?m] => destruct (IH m Hks) as (st & ->) end. simpl.
  exists st. f_equal; [f_equal; lia|]. f_equal. f_equal. apply map_ext. intros i. lia.
Qed.

Lemma call_keys_bound s c ks x :
  Forall (fun k => (k <= 64)%nat) ks -> x ∈ concat (call_keys s c ks) -> s + c * 64 <= x.
Proof.
  intros Hks. revert c. induction Hks as [|k ks Hk Hks IH]; intros c; simpl; [set_solver|].
  intros [(i & -> & _)%list_elem_of_fmap|Hin]%elem_of_app; [lia|]. specialize (IH _ Hin). lia.
Qed.

Lemma call_keys_NoDup s c ks :
  Forall (fun k => (k <= 64)%nat) ks -> NoDup (concat (call_keys s c ks)).
Proof.
  intros Hks. revert c. induction Hks as [|k ks Hk Hks IH]; intros c; simpl; [constructor|].
  apply NoDup_app. split; [|split; [|apply IH]].
  - apply NoDup_fmap_2_strong; [|apply NoDup_seq]. intros i j _ _ Heq. lia.
  - intros x (i & -> & Hi%elem_of_seq)%list_elem_of_fmap Hin. apply call_keys_bound in Hin; [lia|done].
Qed.

(** The draft noise is the same on every rank and never repeats: samplers with one
    seed and counter that make the same calls, each drawing at most once per Markov step
    and at most 64 times, draw the same keys whatever step an earlier call stopped at,
    every draw of every call has its own key, and the counter ends one further per call;
    a call that draws more raises. *)
Theorem noise_keys_distinct (n n' : noise) (ks : list nat)
    (Hseed : seed n' = seed n) (Hctr : ctr n' = ctr n)
    (Hks : Forall (fun k => (k <= 64)%nat) ks) :
  exists m m' keys, calls ks n = (m, Ok keys) /\ calls ks n' = (m', Ok keys) /\
    map length keys = ks /\ NoDup (concat keys) /\
    seed m = seed m' /\ ctr m = ctr m' /\ ctr m = ctr n + Z.of_nat (length ks) /\
    forall k, (64 < k)%nat -> (call k m).2 = Raise AssertionError.
Proof.
  destruct (calls_ok ks n Hks) as (st & E). destruct (calls_ok ks n' Hks) as (st' & E').
  rewrite Hseed, Hctr in E'. eexists _, _, _. split; [exact E|]. split; [exact E'|].
  split; [|split; [by apply call_keys_NoDup|split; [done|split; [done|split; [done|]]]]].
  - generalize (ctr n). clear. induction ks as [|k ks IH]; intros c; simpl; [done|].
    by rewrite length_map, length_seq, IH.
  - intros k Hk. unfold call.
    assert (Hd : forall j m, 64 < step m + Z.of_nat j -> 0 <= step m <= 64 -> (draws j m).2 = Raise AssertionError).
    { induction j as [|j IH]; intros m Hj Hs; [simpl in *; lia|]. cbn [draws]. unfold draw.
      destruct (Z.ltb_spec (step m) 64) as [Hlt|Hge].
      - assert (E0 : (0 <=? step m) = true) by lia. rewrite E0. simpl.
        specialize (IH (Noise (seed m) (ctr m) (step m + 1))). simpl in IH.
        destruct (draws j _) as [m2 [v|e]]; simpl in *; [|by apply IH; lia].
        by specialize (IH ltac:(lia) ltac:(lia)).
      - by rewrite andb_false_r. }
    match goal with |- context [draws k ?m0] => specialize (Hd k m0); destruct (draws k m0) as [m2 [v|e]] end;
      simpl in *; [by specialize (Hd ltac:(lia) ltac:(lia)) | by apply Hd; lia].
Qed.

(** ** Witnesses *)

Definition ex_world : world :=
  World [{[1%nat := [7]; 2%nat := [1; 2]; 3%nat := [3; 3]; 4%nat := [0; 1]]};
         {[1%nat := [7]; 2%nat := [1; 5]; 3%nat := [3; 4]; 4%nat := [0; 2]]}] None [] 0.

Example ex_tokens : tokens " draft;merge " = Ok {["draft"; "merge"]}.
Proof. vm_compute. reflexivity. Qed.

Example ex_tokens_bad : tokens "drafts" = Raise ValueError.
Proof. vm_compute. reflexivity. Qed.

Lemma sync_matches_stock_witness :
  exists w', syncs (flags_of {["draft"; "merge"]}) None true
      [(GRAPH_SAMPLE, 1%nat); (ACCEPT_GRAPH, 2%nat); (ACCEPT_GRAPH, 3%nat); (ACCEPT_GRAPH, 4%nat)]
      ex_world = (w', None) /\ bcasts w' = 1%nat.
Proof.
  destruct (sync_matches_stock {["draft"; "merge"]} None true [(GRAPH_SAMPLE, 1%nat)]
    2 3 4 ex_world eq_refl
    ltac:(constructor; [left; reflexivity | constructor])
    ltac:(intros _ _ r Hr s Hs; apply list_elem_of_In in Hr; destruct Hr as [<- | []];
          apply list_elem_of_In in Hs; destruct Hs as [<- | [<- | []]]; vm_compute; reflexivity)
    ltac:(intros _ Hf; vm_compute in Hf; discriminate)
    ltac:(intros s Hs; apply list_elem_of_In in Hs; destruct Hs as [<- | [<- | []]]; vm_compute; reflexivity)
    ltac:(intros r Hr; apply list_elem_of_In in Hr; destruct Hr as [<- | []]; simpl; lia))
    as (w' & E & _ & _ & B).
  exists w'. split; [exact E | exact B].
Defined.

Lemma noise_keys_distinct_witness :
  (calls [2; 1]%nat (Noise 5 3 9)).2 = (calls [2; 1]%nat (Noise 5 3 0)).2.
Proof.
  destruct (noise_keys_distinct (Noise 5 3 9) (Noise 5 3 0) [2; 1]%nat eq_refl eq_refl
    ltac:(repeat constructor; lia)) as (m & m' & keys & E & E' & _).
  rewrite E, E'. reflexivity.
Defined.
