(* ===== verification/BlockVerify.v ===== *)
(** * Block verification (adapter/block_verify.py)

    The accepted length and the correction token of a drafted block.  The tensor code is
    translated for one request over an abstract arithmetic [Arith], because the kernels of
    BlockVerifyFold promise the same bits whatever the arithmetic rounds; the theorem that
    the sampler is lossless takes the rationals, where the operations are exact.  A row of
    probabilities is the list of its entries, a drafted token is an index into it, the
    random draws are arguments.  The engine's samplers, the mixed greedy batches, the
    device dispatch and the installer are not modelled. *)
From S2P Require Import Prelude PyStr Dist.
#[local] Open Scope string_scope.
#[local] Open Scope list_scope.
#[local] Open Scope Z_scope.

(** ** Arithmetic *)

Class Arith (F : Type) := {
  fzero : F;
  fone : F;
  feps : F;                      (* 1e-30 *)
  fmul : F -> F -> F;
  fsub : F -> F -> F;
  fadd : F -> F -> F;
  fdiv : F -> F -> F;
  fmin : F -> F -> F;            (* torch.minimum *)
  fmax : F -> F -> F;            (* clamp_min *)
  fle : F -> F -> bool;
  flt : F -> F -> bool;
  fsum : list F -> F }.          (* sum(-1) *)

(** [argmax(dim=-1)]: the first index of a largest entry. *)
Definition argmax {F} `{Arith F} (l : list F) : nat := argmax_by flt l.

(** ** The rule *)

Section Accept.
Context {F : Type} `{Arith F}.
#[local] Abbreviation rows := (list (list F)).

(** [gather(-1, X)]: entry [X i] of row [i]. *)
Definition gather (t : rows) (X : list nat) : list F := zip_with (fun row x => nth x row fzero) t X.

(** [arange(g) < live]; no [live], every position. *)
Definition alive (live : option Z) (i : nat) : bool :=
  match live with None => true | Some l => Z.of_nat i <? l end.

(** [draft_probs * alive]. *)
Definition masked_draft (live : option Z) (dp : rows) : rows :=
  match live with
  | None => dp
  | Some _ => imap (fun i row => map (fun q => fmul q (if alive live i then fone else fzero)) row) dp
  end.

Definition ratio (live : option Z) (X : list nat) (tp dp : rows) : list F :=
  let r := zip_with (fun p q => fdiv p (fmax q feps)) (gather (take (length X) tp) X) (gather dp X) in
  match live with
  | None => r
  | Some _ => imap (fun i x => if alive live i then x else fzero) r
  end.

(** [cur = minimum(cur * ratio[:, i], 1)] for every [i]. *)
Fixpoint saturate (cur : F) (ratio : list F) : list F :=
  match ratio with
  | [] => []
  | r :: rs => let c := fmin (fmul cur r) fone in c :: saturate c rs
  end.

Definition row_of (t : rows) (i : nat) : list F := nth i t [].

(** [(w * p - q).clamp_min(0)] along a row. *)
Definition excess (w : F) (p q : list F) : list F :=
  zip_with (fun t d => fmax (fsub (fmul w t) d) fzero) p q.

(** The acceptance threshold of [i + 1] drafts, [w] the saturated product there. *)
Definition threshold (g : nat) (tp dp : rows) (i : nat) (w : F) : F :=
  if Nat.eqb i (g - 1) then w
  else let s := fsum (excess w (row_of tp (S i)) (row_of dp (S i))) in
       fdiv s (fmax (fadd s (fsub fone w)) feps).

Definition thresholds (live : option Z) (X : list nat) (tp dp : rows) : list F :=
  imap (threshold (length X) tp (masked_draft live dp)) (saturate fone (ratio live X tp dp)).

(** [where(ok, idx, 0).max(dim=1)] over the positions from [i] on. *)
Fixpoint last_ok (i : nat) (ok : list bool) : nat :=
  match ok with
  | [] => 0%nat
  | b :: ok' => Nat.max (if b then S i else 0%nat) (last_ok (S i) ok')
  end.

Definition oks (live : option Z) (eta h : list F) : list bool :=
  imap (fun i b => b && alive live i) (zip_with fle eta h).

(** The row the correction token is drawn from, up to its mass. *)
Definition residual (live : option Z) (X : list nat) (tp dp : rows) (tau : nat) : list F :=
  let wt := nth tau (fone :: saturate fone (ratio live X tp dp)) fzero in
  let p_row := row_of tp tau in
  let q_pad := masked_draft live dp ++ [map (fun _ => fzero) (row_of tp 0)] in
  excess wt p_row (row_of q_pad tau).

Definition normalised (res p_row : list F) : list F :=
  let mass := fsum res in
  if flt fzero mass then map (fun r => fdiv r (fmax mass feps)) res else p_row.

(** [(res / gumbel).argmax(dim=-1)]. *)
Definition race (res gumbel : list F) : nat := argmax (zip_with fdiv res gumbel).

Definition block_accept_probs (X : list nat) (tp dp : rows) (eta gumbel : list F) (live : option Z)
  : nat * nat :=
  let tau := last_ok 0 (oks live eta (thresholds live X tp dp)) in
  (tau, race (normalised (residual live X tp dp tau) (row_of tp tau)) gumbel).
End Accept.

#[export] Instance arith_Q : Arith Q := {
  fzero := 0; fone := 1; feps := 1 # 10 ^ 30;
  fmul := Qmult; fsub := Qminus; fadd := Qplus; fdiv := Qdiv;
  fmin a b := if Qle_bool a b then a else b;
  fmax a b := if Qle_bool a b then b else a;
  fle := Qle_bool;
  flt a b := negb (Qle_bool b a);
  fsum := qsum }.

(** Two drafts over two tokens. *)
Example accept_all :
  block_accept_probs [0%nat; 1%nat] [[1#2; 1#2]; [1#4; 3#4]; [1; 0]]%Q [[1#2; 1#2]; [1#2; 1#2]]%Q
                     [1; 1]%Q [1; 1]%Q None = (2%nat, 0%nat).
Proof. vm_compute. reflexivity. Qed.
Example accept_one :
  block_accept_probs [0%nat; 0%nat] [[1#2; 1#2]; [1#4; 3#4]; [1; 0]]%Q [[1#2; 1#2]; [1#2; 1#2]]%Q
                     [1#2; 3#4]%Q [1; 1]%Q None = (1%nat, 1%nat).
Proof. vm_compute. reflexivity. Qed.

(** ** A step of the decoder

    The draft of [g] tokens, the draws, the verdict, and what the target goes on with: the
    positions the draft did not reach are sampled from the target in later steps. *)

Section Step.
Context (V g : nat) (live : option Z).
(** The next-token rows of the target and of the draft after a prefix of the block. *)
Context (p q : list nat -> list Q).
(** One uniform draw, and the exponential draws of a race. *)
Context (U : dist Q) (G : dist (list Q)).
#[local] Open Scope Q_scope.

Definition target_probs (X : list nat) : list (list Q) := map (fun i => p (take i X)) (seq 0 (S g)).
Definition draft_probs (X : list nat) : list (list Q) := map (fun i => q (take i X)) (seq 0 g).

(** [n] more tokens after [pre], each from the row its prefix gives. *)
Fixpoint extend (row : list nat -> list Q) (n : nat) (pre : list nat) : dist (list nat) :=
  match n with
  | O => dret pre
  | S n' => dbind (categorical (row pre)) (fun x => extend row n' (pre ++ [x]))
  end.

Definition accepted (X : list nat) (eta gumbel : list Q) : nat * nat :=
  block_accept_probs X (target_probs X) (draft_probs X) eta gumbel live.

Definition speculate : dist (list nat) :=
  dbind (extend q g []) (fun X =>
  dbind (iid g U) (fun eta =>
  dbind G (fun gumbel =>
  let '(tau, y) := accepted X eta gumbel in extend p (g - tau) (take tau X ++ [y])))).

(** The rows are probability rows over [V] tokens; a token the draft can propose has a
    probability above the floor of the ratio. *)
Definition prob_row (row : list Q) : Prop :=
  length row = V /\ Forall (fun x => 0 <= x) row /\ qsum row == 1.

Definition drafted (X : list nat) : Prop :=
  forall i x, X !! i = Some x -> (x < V)%nat /\ 0 < nth x (q (take i X)) 0.

Class RowLaws : Prop := {
  target_row X : drafted X -> (length X <= g)%nat -> prob_row (p X);
  draft_row X : drafted X -> (length X < g)%nat -> prob_row (q X);
  above_floor X x : drafted X -> (length X < g)%nat -> nth x (q X) 0 == 0 \/ feps <= nth x (q X) 0;
  (* no denominator of a threshold meets the floor unless it is zero *)
  den_above_floor X i :
    drafted X -> length X = g -> (S i < g)%nat -> alive live i = true ->
    let w := nth i (saturate fone (ratio live X (target_probs X) (draft_probs X))) 0 in
    let s := fsum (excess w (row_of (target_probs X) (S i))
                          (row_of (masked_draft live (draft_probs X)) (S i))) in
    fadd s (fsub fone w) == 0 \/ feps <= fadd s (fsub fone w) }.

(** [torch.rand]: the draw is at most a threshold with that probability;
    [exponential_]: the race over a row picks an index in proportion to its entry. *)
Class DrawLaws : Prop := {
  rand_mass : E U (fun _ => 1) == 1;
  rand_law X i :
    drafted X -> length X = g -> (i < g)%nat -> alive live i = true ->
    let h := nth i (thresholds live X (target_probs X) (draft_probs X)) 0 in
    E U (fun eta => ind (fle eta h)) == h;
  race_law X tau f :
    drafted X -> length X = g -> (tau <= g)%nat ->
    let res := residual live X (target_probs X) (draft_probs X) tau in
    0 < qsum res ->
    E G (fun gumbel => f (race (normalised res (row_of (target_probs X) tau)) gumbel))
    == qsum_on (seq 0 V) (fun x => nth x res 0 / qsum res * f x) }.
End Step.

Arguments target_row {V g live p q _} X _ _.
Arguments draft_row {V g live p q _} X _ _.
Arguments above_floor {V g live p q _} X x _ _.
Arguments den_above_floor {V g live p q _} X i _ _ _ _.
Arguments rand_mass {V g live p q U G _}.
Arguments rand_law {V g live p q U G _} X i _ _ _ _.
Arguments race_law {V g live p q U G _} X tau f _ _ _ _.

(** ** Prefix forms

    The same quantities as functions of the accepted prefix. *)

Section Prefix.
Context (V g : nat) (live : option Z) (p q : list nat -> list Q).
#[local] Open Scope Q_scope.

Definition live_drafts : nat := match live with None => g | Some l => Nat.min g (Z.to_nat l) end.
#[local] Abbreviation L := live_drafts.

Definition rat (pre : list nat) (x : nat) : Q :=
  if alive live (length pre) then nth x (p pre) 0 / fmax (nth x (q pre) 0) feps else 0.

(** The saturated product after a prefix. *)
Fixpoint walk (seen rest : list nat) (w : Q) : Q :=
  match rest with [] => w | x :: rest' => walk (seen ++ [x]) rest' (fmin (w * rat seen x) 1) end.
Definition weight_of (pre : list nat) : Q := walk [] pre 1.

(** The draft's row after a prefix, zero where no draft is verified. *)
Definition q_live (pre : list nat) : list Q :=
  match live with
  | None => q pre
  | Some _ => map (fun x => x * (if alive live (length pre) then 1 else 0)) (q pre)
  end.

Definition hit_of (pre : list nat) : Q :=
  if Nat.eqb (length pre - 1) (g - 1) then weight_of pre
  else let s := fsum (excess (weight_of pre) (p pre) (q_live pre)) in fdiv s (fmax (fadd s (fsub 1 (weight_of pre))) feps).

Definition rest_of (pre : list nat) : list Q :=
  excess (weight_of pre) (p pre) (if (length pre <? g)%nat then q_live pre else map (fun _ => 0) (p [])).

Lemma alive_live_drafts i : (i < g)%nat -> alive live i = (i <? L)%nat.
Proof.
  intros Hi. unfold alive, live_drafts. destruct live as [l|].
  - apply eq_bool_prop_intro. rewrite !Is_true_true, Z.ltb_lt, Nat.ltb_lt. lia.
  - symmetry. by apply Nat.ltb_lt.
Qed.

Lemma live_drafts_le : (L <= g)%nat.
Proof. unfold live_drafts. destruct live; lia. Qed.

Lemma walk_snoc seen rest x w :
  walk seen (rest ++ [x]) w = fmin (walk seen rest w * rat (seen ++ rest) x) 1.
Proof.
  revert seen w. induction rest as [|y rest IH]; intros seen w; cbn [walk app].
  - by rewrite app_nil_r.
  - rewrite IH. f_equal. by rewrite <- app_assoc.
Qed.

Lemma weight_snoc pre x : weight_of (pre ++ [x]) = fmin (weight_of pre * rat pre x) 1.
Proof. unfold weight_of. by rewrite walk_snoc. Qed.

Lemma saturate_walk seen rest w :
  saturate w (imap (fun i x => rat (seen ++ take i rest) x) rest) =
  map (fun i => walk seen (take (S i) rest) w) (seq 0 (length rest)).
Proof.
  revert seen w. induction rest as [|x rest IH]; intros seen w; [reflexivity|].
  cbn [imap saturate length seq map]. rewrite take_0, app_nil_r. cbn [take walk].
  change (fmul w (rat seen x)) with (w * rat seen x). change fone with 1.
  f_equal. rewrite <- fmap_S_seq, map_map.
  rewrite <- IH. f_equal. apply imap_ext. intros i y _. unfold compose. cbn [take].
  by rewrite <- app_assoc.
Qed.

#[local] Abbreviation tp := (target_probs g p).
#[local] Abbreviation dp := (draft_probs g q).

Lemma row_of_target X i : (i <= g)%nat -> row_of (tp X) i = p (take i X).
Proof.
  intros Hi. unfold row_of, target_probs. apply nth_lookup_Some with (d := []).
  by rewrite list_lookup_fmap, lookup_seq_lt by lia.
Qed.

Lemma row_of_draft X i : (i < g)%nat -> row_of (dp X) i = q (take i X).
Proof.
  intros Hi. unfold row_of, draft_probs. apply nth_lookup_Some with (d := []).
  by rewrite list_lookup_fmap, lookup_seq_lt by lia.
Qed.

Lemma row_of_masked X i : length X = g -> (i < g)%nat -> row_of (masked_draft live (dp X)) i = q_live (take i X).
Proof.
  intros HX Hi. unfold masked_draft, q_live. destruct live as [l|]; [|by apply row_of_draft].
  rewrite length_take_le by lia.
  unfold row_of. apply nth_lookup_Some with (d := []).
  rewrite list_lookup_imap. unfold draft_probs. by rewrite list_lookup_fmap, lookup_seq_lt by lia.
Qed.

Lemma ratio_prefix X : length X = g -> ratio live X (tp X) (dp X) = imap (fun i x => rat (take i X) x) X.
Proof.
  intros HX. apply list_eq. intros i. rewrite list_lookup_imap.
  set (z := zip_with (fun a b => fdiv a (fmax b feps)) (gather (take (length X) (tp X)) X) (gather (dp X) X)).
  assert (Hz : z !! i = (fun x => nth x (p (take i X)) 0 / fmax (nth x (q (take i X)) 0) feps) <$> X !! i).
  { unfold z, gather. rewrite !lookup_zip_with. destruct (X !! i) as [x|] eqn:Ex.
    - apply lookup_lt_Some in Ex as Hi. rewrite lookup_take_lt by lia. unfold target_probs, draft_probs.
      rewrite !list_lookup_fmap, !lookup_seq_lt by lia. done.
    - destruct (take _ _ !! i), (draft_probs _ _ _ !! i); done. }
  unfold ratio. fold z. unfold rat.
  destruct (X !! i) as [x|] eqn:Ex.
  - apply lookup_lt_Some in Ex as Hi. rewrite length_take_le by lia. simpl in Hz |- *.
    destruct live as [l|]; [rewrite list_lookup_imap|]; rewrite Hz; simpl; done.
  - simpl in Hz |- *. destruct live as [l|]; [rewrite list_lookup_imap|]; by rewrite Hz.
Qed.

Lemma saturate_prefix X :
  length X = g ->
  saturate fone (ratio live X (tp X) (dp X)) = map (fun i => weight_of (take (S i) X)) (seq 0 g).
Proof. intros HX. rewrite ratio_prefix by done. rewrite <- HX at 1. exact (saturate_walk [] X 1). Qed.

Lemma thresholds_prefix X :
  length X = g -> thresholds live X (tp X) (dp X) = map (fun i => hit_of (take (S i) X)) (seq 0 g).
Proof.
  intros HX. unfold thresholds. rewrite saturate_prefix by done.
  apply list_eq. intros i. rewrite list_lookup_imap, !list_lookup_fmap.
  destruct (seq 0 g !! i) as [j|] eqn:Ej; [|done]. apply lookup_seq in Ej as [-> Hi]. simpl. f_equal.
  unfold threshold, hit_of. rewrite HX, length_take_le by lia.
  replace (S i - 1)%nat with i by lia. destruct (Nat.eqb_spec i (g - 1)); [done|].
  rewrite row_of_target by lia. by rewrite row_of_masked by lia.
Qed.

Lemma residual_prefix X tau :
  length X = g -> (tau <= g)%nat -> residual live X (tp X) (dp X) tau = rest_of (take tau X).
Proof.
  intros HX Ht. unfold residual, rest_of. rewrite saturate_prefix by done. rewrite row_of_target by done.
  rewrite length_take_le by lia. f_equal.
  - destruct tau as [|t]; [done|]. cbn [nth]. apply nth_lookup_Some with (d := fzero).
    by rewrite list_lookup_fmap, lookup_seq_lt by lia.
  - assert (Hm : length (masked_draft live (dp X)) = g).
    { unfold masked_draft, draft_probs. destruct live; rewrite ?length_imap, length_map, length_seq; done. }
    destruct (Nat.ltb_spec tau g).
    + rewrite <- row_of_masked by done. unfold row_of. by rewrite app_nth1 by lia.
    + replace tau with g by lia. unfold row_of at 1. rewrite app_nth2, Hm, Nat.sub_diag by lia. simpl.
      by rewrite row_of_target, take_0 by lia.
Qed.
End Prefix.

(** ** Losslessness *)

Section Lossless.
Context {V g : nat} {live : option Z} {p q : list nat -> list Q} {U : dist Q} {G : dist (list Q)}.
Context {rows : RowLaws V g live p q} {draws : DrawLaws V g live p q U G}.
#[local] Open Scope Q_scope.
#[local] Abbreviation L := (live_drafts g live).
#[local] Abbreviation W := (weight_of live p q).
#[local] Abbreviation hit := (hit_of g live p q).
#[local] Abbreviation rest_row := (rest_of g live p q).
#[local] Abbreviation tokens := (seq 0 V).
#[local] Abbreviation px pre x := (nth x (p pre) 0).
#[local] Abbreviation qx pre x := (nth x (q pre) 0).

Lemma fmin_spec a b : (a <= b /\ fmin a b = a) \/ (b < a /\ fmin a b = b).
Proof.
  unfold fmin, arith_Q. destruct (Qle_bool a b) eqn:E.
  - left. split; [by apply Qle_bool_iff | done].
  - right. split; [|done]. apply Qnot_le_lt. by rewrite <- Qle_bool_iff, E.
Qed.

Lemma fmax_spec a b : (a <= b /\ fmax a b = b) \/ (b < a /\ fmax a b = a).
Proof.
  unfold fmax, arith_Q. destruct (Qle_bool a b) eqn:E.
  - left. split; [by apply Qle_bool_iff | done].
  - right. split; [|done]. apply Qnot_le_lt. by rewrite <- Qle_bool_iff, E.
Qed.

Lemma feps_pos : 0 < feps.
Proof. done. Qed.

Lemma drafted_snoc pre x : drafted V q (pre ++ [x]) <-> drafted V q pre /\ (x < V)%nat /\ 0 < qx pre x.
Proof.
  unfold drafted. split.
  - intros H. split; [|].
    + intros i y Hi. destruct (H i y) as [H1 H2]; [by apply lookup_app_l_Some|]. split; [done|].
      apply lookup_lt_Some in Hi. by rewrite take_app_le in H2 by lia.
    + specialize (H (length pre) x). rewrite take_app_length in H. apply H. by apply list_lookup_middle.
  - intros (H & Hx & Hq) i y Hi. destruct (decide (i < length pre)%nat) as [Hl|Hl].
    + rewrite lookup_app_l in Hi by done. rewrite take_app_le by lia. by apply H.
    + rewrite lookup_app_r in Hi by lia. apply list_lookup_singleton_Some in Hi as [Hi ->].
      replace i with (length pre) by lia. by rewrite take_app_length.
Qed.

Lemma drafted_nil : drafted V q [].
Proof. intros i x Hi. done. Qed.

Lemma prob_row_nth row x : prob_row V row -> 0 <= nth x row 0.
Proof.
  intros (_ & Hn & _). destruct (row !! x) as [y|] eqn:E.
  - rewrite (nth_lookup_Some _ _ _ _ E). rewrite Forall_forall in Hn. apply Hn.
    by eapply list_elem_of_lookup_2.
  - rewrite nth_overflow; [lra | by apply lookup_ge_None].
Qed.

Lemma prob_row_sum row : prob_row V row -> qsum_on tokens (fun x => nth x row 0) == 1.
Proof.
  intros (Hl & _ & Hs). rewrite <- Hs, <- Hl. clear. unfold qsum_on.
  induction row as [|x row IH]; [done|]. cbn [length seq map qsum foldr nth].
  rewrite <- fmap_S_seq, map_map. cbn [nth]. change (foldr Qplus 0) with qsum. by rewrite IH.
Qed.

Lemma E_row row (T : nat -> Q) :
  prob_row V row -> E (categorical row) T == qsum_on tokens (fun x => nth x row 0 * T x).
Proof. intros (Hl & _ & _). by rewrite E_categorical, Hl. Qed.

(** Tokens of weight zero do not matter. *)
Lemma E_row_ext row (T T' : nat -> Q) :
  prob_row V row -> (forall x, (x < V)%nat -> 0 < nth x row 0 -> T x == T' x) ->
  E (categorical row) T == E (categorical row) T'.
Proof.
  intros Hr H. rewrite !E_row by done. apply qsum_on_ext. intros x Hx.
  apply elem_of_seq in Hx. pose proof (prob_row_nth row x Hr).
  destruct (Qlt_le_dec 0 (nth x row 0)) as [Hq|Hq].
  - rewrite H by (done || lia). lra.
  - assert (Hz : nth x row 0 == 0) by lra. rewrite Hz. lra.
Qed.

Lemma rat_nonneg pre x : drafted V q pre -> (length pre < g)%nat -> 0 <= rat live p q pre x.
Proof.
  intros Hd Hl. unfold rat. destruct (alive _ _); [|lra].
  pose proof (prob_row_nth _ x (target_row pre Hd ltac:(lia))).
  apply Qle_shift_div_l; [|lra]. pose proof feps_pos. destruct (fmax_spec (qx pre x) feps) as [[_ ->]|[? ->]]; lra.
Qed.

Lemma W_bounds pre : drafted V q pre -> (length pre <= g)%nat -> 0 <= W pre <= 1.
Proof.
  induction pre as [|x pre IH] using rev_ind; intros Hd Hl.
  - unfold weight_of. simpl. lra.
  - rewrite length_app in Hl. simpl in Hl. apply drafted_snoc in Hd as (Hd & _).
    destruct (IH Hd ltac:(lia)) as [H0 H1]. pose proof (rat_nonneg pre x Hd ltac:(lia)).
    rewrite weight_snoc. assert (0 <= W pre * rat live p q pre x) by (apply Qmult_le_0_compat; done).
    destruct (fmin_spec (W pre * rat live p q pre x) 1) as [[? ->]|[? ->]]; lra.
Qed.

Lemma draft_weight pre x :
  drafted V q pre -> (length pre < L)%nat ->
  qx pre x * W (pre ++ [x]) == fmin (W pre * px pre x) (qx pre x).
Proof.
  intros Hd Hl. pose proof (live_drafts_le g live) as HL.
  destruct (W_bounds pre Hd ltac:(lia)) as [H0 _].
  pose proof (prob_row_nth _ x (target_row pre Hd ltac:(lia))) as Hp.
  assert (0 <= W pre * px pre x) by (by apply Qmult_le_0_compat).
  destruct (above_floor pre x Hd ltac:(lia)) as [Hz|Hf].
  - destruct (fmin_spec (W pre * px pre x) (qx pre x)) as [[? ->]|[? ->]]; rewrite ?Hz; lra.
  - rewrite weight_snoc. unfold rat. rewrite (alive_live_drafts g) by lia.
    destruct (Nat.ltb_spec (length pre) L); [|lia]. pose proof feps_pos.
    assert (Hm : fmax (qx pre x) feps == qx pre x) by (destruct (fmax_spec (qx pre x) feps) as [[? ->]|[? ->]]; lra).
    assert (Hdiv : qx pre x * (W pre * (px pre x / fmax (qx pre x) feps)) == W pre * px pre x).
    { rewrite Hm. field. lra. }
    destruct (fmin_spec (W pre * (px pre x / fmax (qx pre x) feps)) 1) as [[Ha ->]|[Ha ->]].
    + rewrite Hdiv. destruct (fmin_spec (W pre * px pre x) (qx pre x)) as [[? ->]|[Hb ->]]; [done|].
      exfalso. rewrite <- Hdiv in Hb. nra.
    + destruct (fmin_spec (W pre * px pre x) (qx pre x)) as [[Hb ->]|[? ->]]; [|lra].
      exfalso. rewrite <- Hdiv in Hb. nra.
Qed.

Lemma nth_excess w (a b : list Q) x :
  (x < length a)%nat -> length a = length b ->
  nth x (excess w a b) 0 = fmax (w * nth x a 0 - nth x b 0) 0.
Proof.
  intros Hx Hab. destruct (lookup_lt_is_Some_2 a x Hx) as [y Hy].
  destruct (lookup_lt_is_Some_2 b x ltac:(lia)) as [z Hz].
  rewrite (nth_lookup_Some _ _ _ _ Hy), (nth_lookup_Some _ _ _ _ Hz).
  apply nth_lookup_Some with (d := 0). unfold excess. by rewrite lookup_zip_with, Hy, Hz.
Qed.

Lemma nth_map_0 (h : Q -> Q) l x : h 0 == 0 -> nth x (map h l) 0 == h (nth x l 0).
Proof.
  intros H0. revert x. induction l as [|y l IH]; intros [|x]; simpl; try done; by rewrite ?H0.
Qed.

(** The draft's weight of a token where it counts. *)
Definition q_eff (pre : list nat) (x : nat) : Q := if (length pre <? L)%nat then qx pre x else 0.

Lemma q_live_nth pre x :
  drafted V q pre -> (length pre < g)%nat -> length (q_live live q pre) = V /\
  nth x (q_live live q pre) 0 == q_eff pre x.
Proof.
  intros Hd Hl. destruct (draft_row pre Hd Hl) as (Hlen & _).
  pose proof (alive_live_drafts g live _ Hl) as Ha. unfold q_live, q_eff.
  rewrite <- Ha. destruct live as [l|]; [|done].
  split; [by rewrite length_map|].
  rewrite nth_map_0 by lra. destruct (alive _ _); lra.
Qed.

Lemma nth_excess_live pre x :
  drafted V q pre -> (length pre < g)%nat -> (x < V)%nat ->
  nth x (excess (W pre) (p pre) (q_live live q pre)) 0 == fmax (W pre * px pre x - q_eff pre x) 0.
Proof.
  intros Hd Hl Hx. destruct (target_row pre Hd ltac:(lia)) as (Hlp & _).
  destruct (q_live_nth pre x Hd Hl) as [Hlq Hq].
  rewrite nth_excess by lia.
  destruct (fmax_spec (W pre * px pre x - nth x (q_live live q pre) 0) 0) as [[? ->]|[? ->]],
    (fmax_spec (W pre * px pre x - q_eff pre x) 0) as [[? ->]|[? ->]]; lra.
Qed.

Lemma nth_rest_row pre x :
  drafted V q pre -> (length pre <= g)%nat -> (x < V)%nat ->
  nth x (rest_row pre) 0 == fmax (W pre * px pre x - q_eff pre x) 0.
Proof.
  intros Hd Hl Hx. unfold rest_of. destruct (Nat.ltb_spec (length pre) g) as [Hg|Hg].
  - by apply nth_excess_live.
  - destruct (target_row pre Hd Hl) as (Hlp & _).
    destruct (target_row [] drafted_nil ltac:(simpl; lia)) as (Hl0 & _).
    rewrite nth_excess by (rewrite ?length_map; lia).
    unfold q_eff. pose proof (live_drafts_le g live). destruct (Nat.ltb_spec (length pre) L); [lia|].
    pose proof (nth_map_0 (fun _ => 0) (p []) x ltac:(done)) as Hz. cbv beta in Hz.
    destruct (fmax_spec (W pre * px pre x - nth x (map (fun _ => 0) (p [])) 0) 0) as [[? ->]|[? ->]],
      (fmax_spec (W pre * px pre x - 0) 0) as [[? ->]|[? ->]]; lra.
Qed.

Lemma length_rest_row pre : drafted V q pre -> (length pre <= g)%nat -> length (rest_row pre) = V.
Proof.
  intros Hd Hl. unfold rest_of, excess. rewrite length_zip_with.
  destruct (target_row pre Hd Hl) as (Hlp & _).
  destruct (target_row [] drafted_nil ltac:(simpl; lia)) as (Hl0 & _).
  destruct (Nat.ltb_spec (length pre) g) as [Hg|Hg].
  - destruct (q_live_nth pre 0 Hd Hg) as [Hq _]. lia.
  - rewrite length_map. lia.
Qed.

Lemma qsum_nth l : qsum l == qsum_on (seq 0 (length l)) (fun x => nth x l 0).
Proof.
  induction l as [|x l IH]; [done|]. cbn [length seq qsum foldr]. rewrite qsum_on_cons, <- fmap_S_seq, qsum_on_map.
  cbn [nth]. change (foldr Qplus 0 l) with (qsum l). by rewrite IH.
Qed.

(** What is accepted past [pre], weighted by [T]. *)
Definition past (T : list nat -> Q) (pre : list nat) : Q :=
  if (length pre <? L)%nat then qsum_on tokens (fun x => qx pre x * (W (pre ++ [x]) * T (pre ++ [x]))) else 0.

Lemma past_rest T pre :
  drafted V q pre -> (length pre <= L)%nat ->
  past T pre + qsum_on tokens (fun x => nth x (rest_row pre) 0 * T (pre ++ [x]))
  == W pre * qsum_on tokens (fun x => px pre x * T (pre ++ [x])).
Proof.
  intros Hd Hl. pose proof (live_drafts_le g live). rewrite <- qsum_on_scale.
  transitivity (qsum_on tokens (fun x => (W pre * px pre x - nth x (rest_row pre) 0) * T (pre ++ [x])) +
                qsum_on tokens (fun x => nth x (rest_row pre) 0 * T (pre ++ [x]))).
  2: { rewrite <- qsum_on_plus. apply qsum_on_ext. intros x _. lra. }
  apply Qplus_comp; [|done]. unfold past. destruct (W_bounds pre Hd ltac:(lia)) as [H0 _].
  destruct (Nat.ltb_spec (length pre) L) as [Hlt|Hge].
  - apply qsum_on_ext. intros x Hx. apply elem_of_seq in Hx.
    rewrite Qmult_assoc, draft_weight, nth_rest_row by (done || lia).
    unfold q_eff. destruct (Nat.ltb_spec (length pre) L); [|lia].
    destruct (fmin_spec (W pre * px pre x) (qx pre x)) as [[? ->]|[? ->]],
      (fmax_spec (W pre * px pre x - qx pre x) 0) as [[? ->]|[? ->]]; try lra;
      apply Qmult_comp; lra.
  - transitivity (qsum_on tokens (fun _ : nat => 0 * 0)).
    + rewrite qsum_on_scale. lra.
    + apply qsum_on_ext. intros x Hx. apply elem_of_seq in Hx.
      rewrite nth_rest_row by (done || lia). unfold q_eff.
      destruct (Nat.ltb_spec (length pre) L); [lia|].
      pose proof (prob_row_nth _ x (target_row pre Hd ltac:(lia))).
      assert (0 <= W pre * px pre x) by (by apply Qmult_le_0_compat).
      destruct (fmax_spec (W pre * px pre x - 0) 0) as [[? ->]|[? ->]]; [|lra].
      assert (Hz : W pre * px pre x == 0) by lra. rewrite Hz. lra.
Qed.

Lemma past_mass pre :
  drafted V q pre -> (length pre <= L)%nat -> past (fun _ => 1) pre + qsum (rest_row pre) == W pre.
Proof.
  intros Hd Hl. pose proof (live_drafts_le g live) as HL. pose proof (past_rest (fun _ => 1) pre Hd Hl) as H. cbv beta in H.
  rewrite qsum_nth, length_rest_row by (done || lia).
  assert (H1 : forall h : nat -> Q, qsum_on tokens (fun x => h x * 1) == qsum_on tokens h)
    by (intros h; apply qsum_on_ext; intros; lra).
  rewrite !H1 in H. pose proof (prob_row_sum (p pre) (target_row pre Hd ltac:(lia))) as Hp.
  rewrite Hp in H. lra.
Qed.

#[local] Instance qlt_dec (a b : Q) : Decision (a < b).
Proof. destruct (Qlt_le_dec a b); [by left | right; lra]. Defined.

Lemma draft_has_token pre :
  drafted V q pre -> (length pre < g)%nat -> exists x, (x < V)%nat /\ 0 < qx pre x.
Proof.
  intros Hd Hl. pose proof (draft_row pre Hd Hl) as Hr.
  destruct (decide (Exists (fun x => 0 < qx pre x) tokens)) as [He|Hn].
  - apply Exists_exists in He as (x & Hx & Hq). apply elem_of_seq in Hx. exists x. split; [lia|done].
  - exfalso. pose proof (prob_row_sum _ Hr) as Hs.
    rewrite (qsum_on_ext _ _ (fun _ => 0 * 0)) in Hs; [rewrite qsum_on_scale in Hs; lra|].
    intros x Hx. pose proof (prob_row_nth _ x Hr).
    assert (~ 0 < qx pre x) by (intros Hq; apply Hn, Exists_exists; eauto). lra.
Qed.

(** A drafted prefix is the beginning of a whole draft. *)
Lemma draft_extends pre :
  drafted V q pre -> (length pre <= g)%nat ->
  exists X, drafted V q X /\ length X = g /\ take (length pre) X = pre.
Proof.
  remember (g - length pre)%nat as n eqn:Hn. revert pre Hn.
  induction n as [|n IH]; intros pre Hn Hd Hl.
  - exists pre. split; [done|]. split; [lia|]. by rewrite take_ge by lia.
  - destruct (draft_has_token pre Hd ltac:(lia)) as (x & Hx & Hq).
    destruct (IH (pre ++ [x])) as (X & HX & HlX & Ht);
      [rewrite length_app; simpl; lia | by apply drafted_snoc | rewrite length_app; simpl; lia |].
    exists X. split; [done|]. split; [done|].
    rewrite length_app in Ht. simpl in Ht.
    apply (f_equal (take (length pre))) in Ht. rewrite take_take, take_app_length in Ht.
    rewrite <- Ht at 2. f_equal. lia.
Qed.

Lemma hit_exact pre :
  drafted V q pre -> (0 < length pre <= L)%nat ->
  hit pre * (1 - past (fun _ => 1) pre) == qsum (rest_row pre).
Proof.
  intros Hd Hl. pose proof (live_drafts_le g live) as HL. pose proof (past_mass pre Hd ltac:(lia)) as Hm.
  destruct (W_bounds pre Hd ltac:(lia)) as [H0 H1]. unfold hit_of.
  destruct (Nat.eqb_spec (length pre - 1) (g - 1)) as [Hg|Hg].
  - unfold past in *. destruct (Nat.ltb_spec (length pre) L); [lia|]. lra.
  - set (S0 := fsum (excess (W pre) (p pre) (q_live live q pre))).
    assert (HS : S0 = qsum (rest_row pre)).
    { unfold rest_of. destruct (Nat.ltb_spec (length pre) g); [done|lia]. }
    cbn zeta. rewrite <- HS in *. change (fdiv S0 (fmax (fadd S0 (fsub 1 (W pre))) feps))
      with (S0 / fmax (S0 + (1 - W pre)) feps).
    assert (Hnn : 0 <= S0).
    { rewrite HS, qsum_nth. apply qsum_on_nonneg. intros x Hx. apply elem_of_seq in Hx.
      rewrite length_rest_row in Hx by (done || lia). rewrite nth_rest_row by (done || lia).
      destruct (fmax_spec (W pre * px pre x - q_eff pre x) 0) as [[? ->]|[? ->]]; lra. }
    assert (Hden : S0 + (1 - W pre) == 0 \/ feps <= S0 + (1 - W pre)).
    { destruct (Nat.eqb_spec (length pre) L) as [HeL|HeL].
      - right. unfold past in Hm. destruct (Nat.ltb_spec (length pre) L); [lia|].
        assert (feps <= 1) by (vm_compute; discriminate). lra.
      - destruct (draft_extends pre Hd ltac:(lia)) as (X & HX & HlX & Ht).
        pose proof (den_above_floor X (length pre - 1) HX HlX ltac:(lia)) as Hf.
        rewrite (alive_live_drafts g) in Hf by lia.
        specialize (Hf ltac:(apply Nat.ltb_lt; lia)). cbv zeta in Hf.
        rewrite saturate_prefix in Hf by done.
        rewrite (nth_lookup_Some _ _ _ (W (take (S (length pre - 1)) X))) in Hf
          by (rewrite list_lookup_fmap, lookup_seq_lt by lia; done).
        rewrite row_of_target in Hf by lia. rewrite row_of_masked in Hf by lia.
        replace (S (length pre - 1))%nat with (length pre) in Hf by lia. by rewrite Ht in Hf. }
    destruct Hden as [Hz|He].
    + assert (HS0 : S0 == 0) by lra. generalize (fmax (S0 + (1 - W pre)) feps). intros d.
      unfold Qdiv. rewrite HS0.
      assert (Hp1 : 1 - past (fun _ => 1) pre == 0) by lra. rewrite Hp1. lra.
    + pose proof feps_pos.
      assert (Hx : fmax (S0 + (1 - W pre)) feps == S0 + (1 - W pre))
        by (destruct (fmax_spec (S0 + (1 - W pre)) feps) as [[? ->]|[? ->]]; lra).
      rewrite Hx. assert (Hp1 : 1 - past (fun _ => 1) pre == S0 + (1 - W pre)) by lra. rewrite Hp1.
      field. lra.
Qed.

(** Test functions agree on the drafts that can occur. *)
Lemma E_draft_ext n pre (h h' : list nat -> Q) :
  drafted V q pre -> (length pre + n = g)%nat ->
  (forall X, drafted V q X -> length X = g -> take (length pre) X = pre -> h X == h' X) ->
  E (extend q n pre) h == E (extend q n pre) h'.
Proof.
  revert pre. induction n as [|n IH]; intros pre Hd Hl Hh; cbn [extend].
  - rewrite !E_ret. apply Hh; [done|lia|]. by rewrite take_ge by lia.
  - rewrite !E_bind. apply E_row_ext; [apply draft_row; [done|lia]|]. intros x Hx Hq.
    apply IH; [by apply drafted_snoc | rewrite length_app; simpl; lia |].
    intros X HX HlX Ht. apply Hh; [done..|]. rewrite length_app in Ht. simpl in Ht.
    apply (f_equal (take (length pre))) in Ht. rewrite take_take, take_app_length in Ht.
    rewrite <- Ht at 2. f_equal. lia.
Qed.

(** The expectation over the draws of the thresholds [hs] from position [i] on, [k] drafts
    accepted so far. *)
Fixpoint flags (i : nat) (hs : list Q) (Phi : nat -> Q) (k : nat) : Q :=
  match hs with
  | [] => Phi k
  | h :: hs' =>
      if alive live i then h * flags (S i) hs' Phi (S i) + (1 - h) * flags (S i) hs' Phi k
      else flags (S i) hs' Phi k
  end.

Lemma E_flags hs i k Phi :
  (forall j h, hs !! j = Some h -> alive live (i + j)%nat = true -> E U (fun eta => ind (fle eta h)) == h) ->
  (k <= i)%nat ->
  E (iid (length hs) U)
    (fun eta => Phi (Nat.max k (last_ok i (imap (fun j b => b && alive live (i + j)%nat) (zip_with fle eta hs)))))
  == flags i hs Phi k.
Proof.
  revert i k. induction hs as [|h hs IH]; intros i k Hlaw Hk; cbn [length iid flags].
  { rewrite E_ret. simpl. by rewrite Nat.max_0_r. }
  assert (IH' : forall k', (k' <= S i)%nat -> E (iid (length hs) U)
    (fun eta => Phi (Nat.max k' (last_ok (S i) (imap (fun j b => b && alive live (S i + j)%nat) (zip_with fle eta hs)))))
    == flags (S i) hs Phi k').
  { intros k' Hk'. apply IH; [|done]. intros j h' Hj Ha. apply (Hlaw (S j) h'); [done|].
    by rewrite Nat.add_succ_r. }
  rewrite E_bind.
  transitivity (E U (fun eta => if fle eta h && alive live i then flags (S i) hs Phi (S i) else flags (S i) hs Phi k)).
  - apply E_ext. intros eta _. rewrite E_bind.
    set (b := fle eta h && alive live i).
    transitivity (E (iid (length hs) U) (fun etas => Phi (Nat.max (if b then S i else k)
      (last_ok (S i) (imap (fun j b' => b' && alive live (S i + j)%nat) (zip_with fle etas hs)))))).
    + apply E_ext. intros etas _. rewrite E_ret. cbn [zip_with imap last_ok]. rewrite Nat.add_0_r.
      change (fle eta h && alive live i) with b.
      rewrite (imap_ext _ (fun j b' => b' && alive live (S i + j)%nat))
        by (intros j b' _; unfold compose; by rewrite Nat.add_succ_r).
      generalize (last_ok (S i) (imap (fun j b' => b' && alive live (S i + j)%nat) (zip_with fle etas hs))).
      intros r. replace (Nat.max k (Nat.max (if b then S i else 0%nat) r))
        with (Nat.max (if b then S i else k) r) by (destruct b; lia). done.
    + destruct b; apply IH'; lia.
  - destruct (alive live i) eqn:Ea.
    + pose proof (Hlaw 0%nat h eq_refl) as Hh. rewrite Nat.add_0_r in Hh.
      transitivity (E U (fun eta => if fle eta h then flags (S i) hs Phi (S i) else flags (S i) hs Phi k)).
      { apply E_ext. intros eta _. by rewrite andb_true_r. }
      apply E_event; [apply rand_mass | by apply Hh].
    + transitivity (E U (fun _ => flags (S i) hs Phi k)).
      { apply E_ext. intros eta _. by rewrite andb_false_r. }
      rewrite E_const, rand_mass. lra.
Qed.

Context (f : list nat -> Q).

(** What the target alone would give after [pre]; and what a step gives that ends its draft there. *)
Definition Tgt (pre : list nat) : Q := E (extend p (S g - length pre) pre) f.
Definition Val (pre : list nat) : Q :=
  E G (fun gumbel => Tgt (pre ++ [race (normalised (rest_row pre) (p pre)) gumbel])).

Lemma Tgt_step pre :
  drafted V q pre -> (length pre <= g)%nat ->
  Tgt pre == qsum_on tokens (fun x => px pre x * Tgt (pre ++ [x])).
Proof.
  intros Hd Hl. unfold Tgt. replace (S g - length pre)%nat with (S (g - length pre)) by lia.
  cbn [extend]. rewrite E_bind, E_row by (by apply target_row).
  apply qsum_on_ext. intros x _. rewrite length_app. simpl.
  by replace (S g - (length pre + 1))%nat with (g - length pre)%nat by lia.
Qed.

Lemma Val_rest pre :
  drafted V q pre -> (length pre <= g)%nat ->
  qsum (rest_row pre) * Val pre == qsum_on tokens (fun x => nth x (rest_row pre) 0 * Tgt (pre ++ [x])).
Proof.
  intros Hd Hl.
  assert (Hnn : forall x, x ∈ tokens -> 0 <= nth x (rest_row pre) 0).
  { intros x Hx. apply elem_of_seq in Hx. rewrite nth_rest_row by (done || lia).
    destruct (fmax_spec (W pre * px pre x - q_eff pre x) 0) as [[? ->]|[? ->]]; lra. }
  assert (Hsum : qsum (rest_row pre) == qsum_on tokens (fun x => nth x (rest_row pre) 0))
    by (by rewrite qsum_nth, length_rest_row by done).
  destruct (Qlt_le_dec 0 (qsum (rest_row pre))) as [Hpos|Hle].
  - destruct (draft_extends pre Hd Hl) as (X & HX & HlX & Ht).
    pose proof (race_law X (length pre) (fun y => Tgt (pre ++ [y])) HX HlX Hl) as Hr. cbv zeta in Hr.
    rewrite residual_prefix, Ht, row_of_target, Ht in Hr by done.
    unfold Val. rewrite (Hr Hpos), <- qsum_on_scale. apply qsum_on_ext. intros x _. field. lra.
  - pose proof (qsum_on_nonneg _ _ Hnn). assert (Hz : qsum (rest_row pre) == 0) by lra.
    rewrite Hz, Qmult_0_l. rewrite Hz in Hsum.
    pose proof (qsum_on_zero _ _ Hnn (Qeq_sym _ _ Hsum)) as H0.
    rewrite (qsum_on_ext _ _ (fun _ => 0 * 0)); [rewrite qsum_on_scale; lra|].
    intros x Hx. rewrite (H0 x Hx). lra.
Qed.

(** The step, drawing the draft token by token; [k] drafts accepted so far. *)
Fixpoint verify (n : nat) (pre : list nat) (k : nat) : Q :=
  match n with
  | O => Val (take k pre)
  | S n' =>
      E (categorical (q pre)) (fun x =>
        let pre' := pre ++ [x] in
        if (length pre <? L)%nat
        then hit pre' * verify n' pre' (S (length pre)) + (1 - hit pre') * verify n' pre' k
        else verify n' pre' k)
  end.

Lemma E_verify n pre k :
  drafted V q pre -> (length pre + n = g)%nat -> (k <= length pre)%nat ->
  E (extend q n pre) (fun X => flags (length pre) (map (fun i => hit (take (S i) X)) (seq (length pre) n))
                                     (fun t => Val (take t X)) k)
  == verify n pre k.
Proof.
  revert pre k. induction n as [|n IH]; intros pre k Hd Hl Hk; cbn [extend seq map flags verify].
  - by rewrite E_ret.
  - rewrite E_bind. apply E_row_ext; [apply draft_row; [done|lia]|]. intros x Hx Hq. cbv zeta.
    assert (Hd' : drafted V q (pre ++ [x])) by (by apply drafted_snoc).
    assert (Hl' : length (pre ++ [x]) = S (length pre)) by (rewrite length_app; simpl; lia).
    rewrite (alive_live_drafts g) by lia.
    set (F k' := fun X => flags (S (length pre)) (map (fun i => hit (take (S i) X)) (seq (S (length pre)) n))
                                (fun t => Val (take t X)) k').
    assert (HF : forall k', (k' <= S (length pre))%nat -> E (extend q n (pre ++ [x])) (F k') == verify n (pre ++ [x]) k').
    { intros k' Hk'. rewrite <- Hl' in Hk'. rewrite <- IH by (done || lia). by rewrite Hl'. }
    destruct (Nat.ltb_spec (length pre) L) as [Ha|Ha]; [|apply HF; lia].
    rewrite <- !HF by lia.
    transitivity (E (extend q n (pre ++ [x]))
      (fun X => hit (pre ++ [x]) * F (S (length pre)) X + (1 - hit (pre ++ [x])) * F k X)).
    + apply E_draft_ext; [done|lia|]. intros X HX HlX Ht. rewrite Hl' in Ht. by rewrite Ht.
    + by rewrite E_plus, !E_mult.
Qed.

Lemma verify_split n pre k :
  drafted V q pre -> (length pre + n = g)%nat -> (k <= length pre)%nat ->
  verify n pre k == past Tgt pre + (1 - past (fun _ => 1) pre) * Val (take k pre).
Proof.
  revert pre k. induction n as [|n IH]; intros pre k Hd Hl Hk; cbn [verify].
  - pose proof (live_drafts_le g live). unfold past. destruct (Nat.ltb_spec (length pre) L); [lia|]. lra.
  - assert (Hr : prob_row V (q pre)) by (apply draft_row; [done|lia]).
    assert (Hstep : forall x, (x < V)%nat -> 0 < qx pre x ->
      (let pre' := pre ++ [x] in
       if (length pre <? L)%nat
       then hit pre' * verify n pre' (S (length pre)) + (1 - hit pre') * verify n pre' k
       else verify n pre' k) ==
      (if (length pre <? L)%nat then W (pre ++ [x]) * Tgt (pre ++ [x]) + (1 - W (pre ++ [x])) * Val (take k pre)
       else Val (take k pre))).
    { intros x Hx Hq. cbv zeta.
      assert (Hd' : drafted V q (pre ++ [x])) by (by apply drafted_snoc).
      assert (Hl' : length (pre ++ [x]) = S (length pre)) by (rewrite length_app; simpl; lia).
      assert (Hk' : take k (pre ++ [x]) = take k pre) by (by rewrite take_app_le by lia).
      destruct (Nat.ltb_spec (length pre) L) as [Ha|Ha].
      - rewrite !IH by (done || lia). rewrite Hk'.
        replace (take (S (length pre)) (pre ++ [x])) with (pre ++ [x]) by (by rewrite take_ge by lia).
        pose proof (hit_exact _ Hd' ltac:(lia)) as Hh.
        pose proof (past_mass _ Hd' ltac:(lia)) as Hm.
        pose proof (past_rest Tgt _ Hd' ltac:(lia)) as Hp.
        pose proof (live_drafts_le g live).
        rewrite <- Val_rest, <- Tgt_step in Hp by (done || lia).
        rewrite <- Hp, <- Hh. rewrite <- Hm, <- Hh. lra.
      - rewrite IH by (done || lia). rewrite Hk'. unfold past.
        destruct (Nat.ltb_spec (length (pre ++ [x])) L); [lia|]. lra. }
    rewrite (E_row_ext _ _ _ Hr Hstep), E_row by done. unfold past.
    pose proof (prob_row_sum _ Hr) as Hs.
    destruct (Nat.ltb_spec (length pre) L) as [Ha|Ha].
    + rewrite (qsum_on_ext _ _ (fun x => qx pre x * (W (pre ++ [x]) * Tgt (pre ++ [x])) +
        (Val (take k pre) * qx pre x + - Val (take k pre) * (qx pre x * (W (pre ++ [x]) * 1))))) by (intros; lra).
      rewrite !qsum_on_plus, !qsum_on_scale, Hs. lra.
    + rewrite (qsum_on_ext _ _ (fun x => Val (take k pre) * qx pre x)) by (intros; lra).
      rewrite qsum_on_scale, Hs. lra.
Qed.

Lemma last_ok_bound i ok : (last_ok i ok <= i + length ok)%nat.
Proof.
  revert i. induction ok as [|b ok IH]; intros i; simpl; [lia|]. specialize (IH (S i)). destruct b; lia.
Qed.

Lemma oks_length eta h : length (oks live eta h) = Nat.min (length eta) (length h).
Proof. unfold oks. by rewrite length_imap, length_zip_with. Qed.

Lemma speculate_verify : E (speculate g live p q U G) f == verify g [] 0.
Proof.
  unfold speculate. rewrite E_bind, <- E_verify by (done || apply drafted_nil).
  apply E_draft_ext; [apply drafted_nil | done |]. intros X HX HlX _.
  rewrite E_bind.
  transitivity (E (iid (length (map (fun i => hit (take (S i) X)) (seq 0 g))) U) (fun eta =>
    (fun t => Val (take t X)) (Nat.max 0 (last_ok 0 (imap (fun j b => b && alive live (0 + j)%nat)
      (zip_with fle eta (map (fun i => hit (take (S i) X)) (seq 0 g)))))))).
  2: { apply (E_flags (map (fun i => hit (take (S i) X)) (seq 0 g)) 0 0 (fun t => Val (take t X))); [|done]. intros j h Hj Ha.
       apply lookup_lt_Some in Hj as Hlt. rewrite length_map, length_seq in Hlt.
       pose proof (rand_law X j HX HlX Hlt Ha) as Hr. cbv zeta in Hr.
       rewrite thresholds_prefix in Hr by done. by rewrite (nth_lookup_Some _ _ _ _ Hj) in Hr. }
  rewrite length_map, length_seq. apply E_ext. intros eta _. rewrite Nat.max_0_l. cbn [plus].
  change (imap (fun j b => b && alive live j)
    (zip_with fle eta (map (fun i => hit (take (S i) X)) (seq 0 g))))
    with (oks live eta (map (fun i => hit (take (S i) X)) (seq 0 g))).
  set (tau := last_ok 0 (oks live eta (map (fun i => hit (take (S i) X)) (seq 0 g)))).
  assert (Htau : (tau <= g)%nat).
  { pose proof (last_ok_bound 0 (oks live eta (map (fun i => hit (take (S i) X)) (seq 0 g)))) as Hb.
    rewrite oks_length, length_map, length_seq in Hb. lia. }
  rewrite E_bind. unfold Val. apply E_ext. intros gumbel _.
  unfold accepted, block_accept_probs. rewrite thresholds_prefix by done. fold tau.
  rewrite residual_prefix, row_of_target by done. unfold Tgt.
  rewrite length_app, length_take_le by lia. simpl length.
  by replace (S g - (tau + 1))%nat with (g - tau)%nat by lia.
Qed.

(** C1: block verification is lossless: whatever the target's and the draft's rows, with any
    number of drafts verified, the tokens a step commits, continued by the target, have
    exactly the distribution of [g + 1] tokens sampled from the target alone. *)
Theorem block_verify_lossless : E (speculate g live p q U G) f == E (extend p (S g) []) f.
Proof.
  rewrite speculate_verify, verify_split by (done || apply drafted_nil).
  pose proof (past_mass [] drafted_nil ltac:(simpl; lia)) as Hm.
  pose proof (past_rest Tgt [] drafted_nil ltac:(simpl; lia)) as Hp.
  rewrite <- Val_rest, <- Tgt_step in Hp by (apply drafted_nil || (simpl; lia)).
  assert (HW : W [] = 1) by done. rewrite HW in *.
  assert (HT : E (extend p (S g) []) f == Tgt []) by done. rewrite HT.
  rewrite take_nil. assert (Hs : 1 - past (fun _ => 1) [] == qsum (rest_row [])) by lra.
  rewrite Hs. lra.
Qed.
End Lossless.

(** Two drafts over two tokens, from a uniform draft. *)
Definition ex_p (pre : list nat) : list Q :=
  (match length pre with O => [3#4; 1#4] | S O => [1#4; 3#4] | _ => [1#2; 1#2] end)%Q.
Definition ex_q (pre : list nat) : list Q := ([1#2; 1#2])%Q.
Definition ex_U : dist Q := ([(1#4, 1#4); (1#2, 1#4); (3#4, 1#4); (1, 1#4)])%Q.
Definition ex_G : dist (list Q) := ([([1; 2], 1#2); ([2; 1], 1#2)])%Q.
Definition ex_drafts : list (list nat) := [[0; 0]; [0; 1]; [1; 0]; [1; 1]]%nat.

Lemma ex_drafted X : drafted 2 ex_q X -> length X = 2%nat -> X ∈ ex_drafts.
Proof.
  intros Hd Hl. destruct X as [|a [|b [|]]]; try done.
  destruct (Hd 0%nat a eq_refl) as [Ha _]. destruct (Hd 1%nat b eq_refl) as [Hb _].
  unfold ex_drafts. destruct a as [|[|]]; [| |lia]; (destruct b as [|[|]]; [| |lia]); set_solver.
Qed.

Lemma ex_row (a b : Q) : (0 <= a -> 0 <= b -> a + b == 1 -> prob_row 2 [a; b])%Q.
Proof. intros Ha Hb Hs. split; [done|]. split; [by repeat constructor|]. simpl. lra. Qed.

#[local] Instance ex_rows : RowLaws 2 2 None ex_p ex_q.
Proof.
  split.
  - intros X _ _. unfold ex_p. destruct X as [|a [|b X]]; simpl; apply ex_row; lra.
  - intros X _ _. apply ex_row; lra.
  - intros X x _ _. destruct x as [|[|x]]; [by right; vm_compute | by right; vm_compute |].
    left. by destruct x.
  - intros X i Hd Hl Hi _. apply ex_drafted in Hd; [|done].
    assert (Hall : Forall (fun X => forall i, (S i < 2)%nat ->
      let w := nth i (saturate fone (ratio None X (target_probs 2 ex_p X) (draft_probs 2 ex_q X))) 0%Q in
      let s := fsum (excess w (row_of (target_probs 2 ex_p X) (S i))
                              (row_of (masked_draft None (draft_probs 2 ex_q X)) (S i))) in
      (fadd s (fsub fone w) == 0 \/ feps <= fadd s (fsub fone w))%Q) ex_drafts).
    { repeat apply Forall_cons_2; try apply Forall_nil_2; (intros [|m] Hk; [clear Hk | lia]);
        vm_compute; first [left; reflexivity | right; discriminate]. }
    rewrite Forall_forall in Hall. by apply Hall.
Qed.

(** The race over the residual row picks each token as often as its share. *)
Definition ex_race_ok (X : list nat) (tau : nat) : bool :=
  let res := residual None X (target_probs 2 ex_p X) (draft_probs 2 ex_q X) tau in
  let row := normalised res (row_of (target_probs 2 ex_p X) tau) in
  let a := race row [1; 2]%Q in let b := race row [2; 1]%Q in
  let share x := (ind (Nat.eqb a x) * (1#2) + ind (Nat.eqb b x) * (1#2))%Q in
  Qeq_bool (qsum res) 0 ||
  ((Nat.ltb a 2 && Nat.ltb b 2) && Qeq_bool (share 0%nat) (nth 0 res 0 / qsum res)%Q &&
   Qeq_bool (share 1%nat) (nth 1 res 0 / qsum res)%Q).

#[local] Instance ex_draws : DrawLaws 2 2 None ex_p ex_q ex_U ex_G.
Proof.
  split.
  - reflexivity.
  - intros X i Hd Hl Hi _. apply ex_drafted in Hd; [|done].
    assert (Hall : Forall (fun X => Forall (fun i =>
      let h := nth i (thresholds None X (target_probs 2 ex_p X) (draft_probs 2 ex_q X)) 0%Q in
      (E ex_U (fun eta => ind (fle eta h)) == h)%Q) [0; 1]%nat) ex_drafts)
      by (repeat apply Forall_cons_2; try apply Forall_nil_2; vm_compute; reflexivity).
    rewrite Forall_forall in Hall. specialize (Hall X Hd). rewrite Forall_forall in Hall. apply Hall.
    destruct i as [|[|]]; [set_solver..|lia].
  - intros X tau f Hd Hl Ht. apply ex_drafted in Hd; [|done]. cbv zeta. intros Hpos.
    assert (Hall : forallb (fun X => forallb (ex_race_ok X) [0; 1; 2]%nat) ex_drafts = true)
      by (vm_compute; reflexivity).
    rewrite forallb_forall in Hall. apply list_elem_of_In in Hd. specialize (Hall X Hd).
    rewrite forallb_forall in Hall. specialize (Hall tau). unfold ex_race_ok in Hall.
    unfold E, ex_G, qsum_on. cbn [map fst snd seq qsum foldr].
    set (res := residual None X (target_probs 2 ex_p X) (draft_probs 2 ex_q X) tau) in *.
    set (a := race _ [1; 2]%Q) in *. set (b := race _ [2; 1]%Q) in *.
    apply orb_true_iff in Hall as [Hz|Hok].
    + apply Qeq_bool_iff in Hz. lra.
    + apply andb_true_iff in Hok as [Hok H1]. apply andb_true_iff in Hok as [Hab H0].
      apply Qeq_bool_iff in H0, H1.
      rewrite <- H0, <- H1. destruct a as [|[|a]], b as [|[|b]]; try discriminate; simpl; lra.
    + destruct tau as [|[|[|]]]; simpl; [tauto..|lia].
Qed.

Lemma block_verify_lossless_witness :
  (E (speculate 2 None ex_p ex_q ex_U ex_G) (fun z => ind (bool_decide (z = [0; 1; 0]%nat))) == 9 # 32)%Q.
Proof.
  rewrite (block_verify_lossless (fun z => ind (bool_decide (z = [0; 1; 0]%nat)))).
  vm_compute. reflexivity.
Defined.
