(* ===== verification/BlockVerifyFold.v ===== *)
(** * Folded block verification (adapter/block_verify_fold.py, adapter/block_verify.py)

    The three kernels that compute the verdict of BlockVerify in a few launches, the host
    function that runs them, and the dispatch that picks a path per call.  A device tensor
    is a function from addresses to values; a launch is the list of its programs, in any
    order, and a program the list of its stores.  The arithmetic is abstract: all that is
    asked of it are the sums of a single lane.  The debug output, the receipts and the
    counters' log lines are not modelled. *)
From S2P Require Import Prelude PyStr Dist BlockVerify AbVariant.
#[local] Open Scope string_scope.
#[local] Open Scope list_scope.
#[local] Open Scope Z_scope.

(** ** Tensors in memory *)

(** Row [b] of a contiguous [n, V] tensor; rows [b] of a contiguous [n, g, V] tensor. *)
Definition row2 {A} (m : Z -> A) (V : nat) (b : nat) : list A :=
  map (fun x : nat => m (Z.of_nat b * Z.of_nat V + Z.of_nat x)) (seq 0 V).
Definition rows3 {A} (m : Z -> A) (g V : nat) (b : nat) : list (list A) :=
  map (fun i : nat => row2 m V (b * g + i)) (seq 0 g).

(** The smallest power of two that is at least [n]: [while p < n: p *= 2]. *)
Fixpoint pow2_loop (fuel : nat) (p n : Z) : option Z :=
  if p <? n then match fuel with O => None | S f => pow2_loop f (p * 2) n end else Some p.
Definition pow2 (n : Z) : Z := default 0 (pow2_loop (Z.to_nat n) 1 n).

(** What the kernels use beyond the elementwise arithmetic: [tl.sum] over the lanes of a
    block of [GP], and the exponential of IEEE facts a sum of one lane and zeros needs. *)
Class Lanes (F : Type) `{Arith F} := {
  tsum : list F -> F;
  ftwo : F }.

Class LaneLaws (F : Type) `{Lanes F} : Prop := {
  tsum_one n i x : (i < n)%nat -> tsum (map (fun j => if Nat.eqb j i then x else fzero) (seq 0 n)) = x;
  tsum_zero n : tsum (replicate n fzero) = fzero;
  mul_zero : fmul fzero fzero = fzero }.

Section Fold.
Context {F : Type} `{LaneLaws F}.

(** ** The kernels *)

Section Kernels.
Context (TP DP : Z -> F) (X : Z -> Z) (sxb sxg : Z) (LIVE : option (Z -> Z)) (LIVE_SUB : Z).
Context (V G GP : nat) (CH : Z).

Definition lanes : list nat := seq 0 GP.

(** [tl.sum(tl.where(gi == i, v, 0.0))]. *)
Definition pick (v : nat -> F) (i : nat) : F := tsum (map (fun j => if Nat.eqb j i then v j else fzero) lanes).

Definition alive_lane (b i : nat) : bool :=
  (i <? G)%nat && match LIVE with None => true | Some live => Z.of_nat i <? live (Z.of_nat b) - LIVE_SUB end.

Definition ratio_lane (b i : nat) : F :=
  let gok := (i <? G)%nat in
  let x := if gok then X (Z.of_nat b * sxb + Z.of_nat i * sxg) else 0 in
  let p_tok := if gok then TP (Z.of_nat (b * S G + i) * Z.of_nat V + x) else fzero in
  let q_tok := if gok then DP (Z.of_nat (b * G + i) * Z.of_nat V + x) else fzero in
  if alive_lane b i then fdiv p_tok (fmax q_tok feps) else fzero.

(** [for i in tl.static_range(G): cur = minimum(cur * ratio_i, 1); w = where(gi == i, cur, w)]. *)
Fixpoint w_loop (b : nat) (todo : list nat) (cur : F) (w : nat -> F) : nat -> F :=
  match todo with
  | [] => w
  | i :: todo' =>
      let cur' := fmin (fmul cur (pick (ratio_lane b) i)) fone in
      w_loop b todo' cur' (fun j => if Nat.eqb j i then cur' else w j)
  end.
Definition scalars_w (b : nat) : nat -> F := w_loop b (seq 0 G) fone (fun _ => fzero).

(** One lane's [alive] as 1.0 / 0.0. *)
Definition alive_sum (b i : nat) : F :=
  tsum (map (fun j => if Nat.eqb j i && alive_lane b j then fone else fzero) lanes).

(** The offsets of program [c] that are inside the row. *)
Definition offsets (c : Z) : list Z := filter (fun o => o < Z.of_nat V) (zrange (c * CH) (c * CH + CH)).

Definition term (b i : nat) (o : Z) : F :=
  let w_i := pick (scalars_w b) i in
  let t := TP (Z.of_nat (b * S G + i + 1) * Z.of_nat V + o) in
  let q := DP (Z.of_nat (b * G + i + 1) * Z.of_nat V + o) in
  let q := match LIVE with None => q | Some _ => fmul q (alive_sum b (S i)) end in
  fmax (fsub (fmul w_i t) q) fzero.

Definition terms_kernel (b : nat) (c : Z) : list (Z * F) :=
  flat_map (fun i => map (fun o => (Z.of_nat (b * (G - 1) + i) * Z.of_nat V + o, term b i o)) (offsets c))
           (seq 0 (G - 1)).

Definition decide_h (b : nat) (S_ : Z -> F) (i : nat) : F :=
  let s := if (i <? G - 1)%nat then S_ (Z.of_nat (b * (G - 1) + i)) else fzero in
  let w := scalars_w b i in
  if Nat.eqb i (G - 1) then w else fdiv s (fmax (fadd s (fsub fone w)) feps).

Definition decide_tau (b : nat) (S_ ETA : Z -> F) : nat :=
  foldr Nat.max 0%nat
    (map (fun i => let eta := if (i <? G)%nat then ETA (Z.of_nat (b * G + i)) else ftwo in
                   if fle eta (decide_h b S_ i) && alive_lane b i then S i else 0%nat) lanes).

Definition decide_wt (b tau : nat) : F := if Nat.eqb tau 0 then fone else pick (scalars_w b) (tau - 1).

Definition res_lane (b tau : nat) (o : Z) : F :=
  let p := TP (Z.of_nat (b * S G + tau) * Z.of_nat V + o) in
  let q := if (tau <? G)%nat then DP (Z.of_nat (b * G + tau) * Z.of_nat V + o) else fzero in
  let q := match LIVE with None => q | Some _ => fmul q (alive_sum b tau) end in
  fmax (fsub (fmul (decide_wt b tau) p) q) fzero.

(** The stores to RES and those to TAU. *)
Definition residual_kernel (S_ ETA : Z -> F) (b : nat) (c : Z) : list (Z * F) * list (Z * nat) :=
  let tau := decide_tau b S_ ETA in
  (map (fun o => (Z.of_nat b * Z.of_nat V + o, res_lane b tau o)) (offsets c),
   if c =? 0 then [(Z.of_nat b, tau)] else []).

Definition key_lane (RES MASS GUM : Z -> F) (TAU : Z -> nat) (b : nat) (o : Z) : F :=
  let tau := TAU (Z.of_nat b) in
  let mass := MASS (Z.of_nat b) in
  let r := RES (Z.of_nat b * Z.of_nat V + o) in
  let p := TP (Z.of_nat (b * S G + tau) * Z.of_nat V + o) in
  let rn := if flt fzero mass then fdiv r (fmax mass feps) else p in
  fdiv rn (GUM (Z.of_nat b * Z.of_nat V + o)).

Definition keys_kernel (RES MASS GUM : Z -> F) (TAU : Z -> nat) (b : nat) (c : Z) : list (Z * F) :=
  map (fun o => (Z.of_nat b * Z.of_nat V + o, key_lane RES MASS GUM TAU b o)) (offsets c).
End Kernels.

(** ** The host function *)

(** [fold], for the programs of each launch in the order they ran ([terms], [resid], [keys]);
    [init] is what the freshly allocated outputs hold. *)
Definition fold (CHUNK : Z) (TP DP : Z -> F) (X : Z -> Z) (sxb sxg : Z) (eta gumbel : Z -> F)
    (live : option (Z -> Z)) (live_sub : Z) (V g : nat) (init : Z -> F) (init_tau : Z -> nat)
    (terms resid keys : list (nat * Z)) (b : nat) : nat * nat :=
  let ch := Z.min CHUNK (pow2 (Z.of_nat V)) in
  let gp := Z.to_nat (Z.max 2 (pow2 (Z.of_nat g + 1))) in
  let TERMS := run_stores init
    (flat_map (fun bc => terms_kernel TP DP X sxb sxg live live_sub V g gp ch bc.1 bc.2) terms) in
  let s := if (1 <? g)%nat
           then (fun a => fsum (row2 TERMS V (Z.to_nat a)))     (* terms.sum(-1), contiguous *)
           else (fun _ => fzero) in
  let out := map (fun bc => residual_kernel TP DP X sxb sxg live live_sub V g gp ch s eta bc.1 bc.2) resid in
  let RES := run_stores init (flat_map fst out) in
  let TAU := run_stores init_tau (flat_map snd out) in
  let mass := fun a => fsum (row2 RES V (Z.to_nat a)) in
  let KEYS := run_stores init
    (flat_map (fun bc => keys_kernel TP V g ch RES mass gumbel TAU bc.1 bc.2) keys) in
  (TAU (Z.of_nat b), argmax (row2 KEYS V b)).

(** The programs of a launch over [(bs, nch)]. *)
Definition launch (CHUNK : Z) (V bs : nat) : list (nat * Z) :=
  let ch := Z.min CHUNK (pow2 (Z.of_nat V)) in
  let nch := (Z.of_nat V + ch - 1) / ch in
  flat_map (fun b => map (fun c => (b, c)) (zrange 0 nch)) (seq 0 bs).
End Fold.

(** ** Launches *)

Lemma pow2_loop_spec fuel p n :
  0 < p -> n - p <= Z.of_nat fuel -> exists r, pow2_loop fuel p n = Some r /\ n <= r /\ 0 < r.
Proof.
  revert p. induction fuel as [|f IH]; intros p Hp Hf; simpl; destruct (Z.ltb_spec p n); try lia.
  - exists p. split; [done|lia].
  - apply IH; lia.
  - exists p. split; [done|lia].
Qed.

Lemma pow2_spec n : n <= pow2 n /\ 0 < pow2 n.
Proof.
  unfold pow2. destruct (pow2_loop_spec (Z.to_nat n) 1 n) as (r & -> & H & H'); [lia..|]. done.
Qed.

Lemma launch_elem CHUNK V bs b c :
  0 < CHUNK -> (0 < V)%nat ->
  let ch := Z.min CHUNK (pow2 (Z.of_nat V)) in
  (b, c) ∈ launch CHUNK V bs <-> (b < bs)%nat /\ 0 <= c < (Z.of_nat V + ch - 1) / ch.
Proof.
  intros HC HV ch. unfold launch. fold ch. rewrite list_elem_of_In, in_flat_map. split.
  - intros (b' & Hb & Hc). apply in_map_iff in Hc as (c' & [= -> ->] & Hc).
    apply in_seq in Hb. apply list_elem_of_In, zrange_elem in Hc. lia.
  - intros [Hb Hc]. exists b. split; [apply in_seq; lia|]. apply in_map_iff. exists c. split; [done|].
    by apply list_elem_of_In, zrange_elem.
Qed.

Lemma offsets_elem V CH c o : o ∈ offsets V CH c <-> o < Z.of_nat V /\ c * CH <= o < c * CH + CH.
Proof. unfold offsets. by rewrite list_elem_of_filter, zrange_elem. Qed.

Lemma offset_program V CH o :
  0 < CH -> 0 <= o < Z.of_nat V ->
  exists c, 0 <= c < (Z.of_nat V + CH - 1) / CH /\ o ∈ offsets V CH c.
Proof.
  intros HC Ho. exists (o / CH). rewrite offsets_elem.
  pose proof (Z.div_mod o CH ltac:(lia)). pose proof (Z.mod_pos_bound o CH HC).
  split; [|lia]. split; [apply Z.div_pos; lia|].
  apply Z.div_lt_upper_bound; [done|].
  pose proof (Z.div_mod (Z.of_nat V + CH - 1) CH ltac:(lia)).
  pose proof (Z.mod_pos_bound (Z.of_nat V + CH - 1) CH HC). lia.
Qed.

(** Row and column of an address. *)
Lemma flat_inj (V a b : Z) o o' :
  0 <= o < V -> 0 <= o' < V -> a * V + o = b * V + o' -> a = b /\ o = o'.
Proof.
  intros Ho Ho' Hab. pose proof (Z.div_mod_unique V a b o o' ltac:(lia) ltac:(lia)) as Hu. lia.
Qed.

(** A launch whose programs store [val b i o] at [addr b i o] for [i < n] and the offsets of
    their chunk, at addresses no other triple has: every row is complete, in any order of
    the programs. *)
Lemma launch_writes {A} (m : Z -> A) CHUNK V bs progs n (addr : nat -> nat -> Z -> Z) (val : nat -> nat -> Z -> A) b i o :
  0 < CHUNK -> (0 < V)%nat -> progs ≡ₚ launch CHUNK V bs ->
  let ch := Z.min CHUNK (pow2 (Z.of_nat V)) in
  (forall b i o b' i' o', (i < n)%nat -> (i' < n)%nat -> 0 <= o < Z.of_nat V -> 0 <= o' < Z.of_nat V ->
     addr b i o = addr b' i' o' -> b = b' /\ i = i' /\ o = o') ->
  (b < bs)%nat -> (i < n)%nat -> 0 <= o < Z.of_nat V ->
  run_stores m (flat_map (fun bc => flat_map (fun i => map (fun o => (addr bc.1 i o, val bc.1 i o))
                                                            (offsets V ch bc.2)) (seq 0 n)) progs) (addr b i o)
  = val b i o.
Proof.
  intros HC HV Hp ch Hinj Hb Hi Ho. pose proof (pow2_spec (Z.of_nat V)).
  assert (Hch : 0 < ch) by (unfold ch; lia).
  apply run_stores_at.
  - destruct (offset_program V ch o Hch Ho) as (c & Hc & Hoc).
    apply list_elem_of_In, in_flat_map. exists (b, c). split.
    + apply list_elem_of_In. rewrite Hp. by apply launch_elem.
    + apply in_flat_map. exists i. split; [apply in_seq; lia|].
      apply in_map_iff. exists o. split; [done|]. by apply list_elem_of_In.
  - intros v' Hv. apply list_elem_of_In, in_flat_map in Hv as ([b' c] & Hbc & Hv).
    apply in_flat_map in Hv as (i' & Hi' & Hv). apply in_seq in Hi'.
    apply in_map_iff in Hv as (o' & [= Ha <-] & Ho'). cbn [fst snd] in *.
    apply list_elem_of_In in Hbc, Ho'. rewrite Hp in Hbc. apply launch_elem in Hbc as [_ Hc]; [|done..].
    apply offsets_elem in Ho'. destruct (Hinj b' i' o' b i o) as (-> & -> & ->); [lia|lia|nia|done..].
Qed.

Lemma launch_writes_row {A} (m : Z -> A) CHUNK V bs progs (val : nat -> Z -> A) b o :
  0 < CHUNK -> (0 < V)%nat -> progs ≡ₚ launch CHUNK V bs ->
  let ch := Z.min CHUNK (pow2 (Z.of_nat V)) in
  (b < bs)%nat -> 0 <= o < Z.of_nat V ->
  run_stores m (flat_map (fun bc => map (fun o => (Z.of_nat bc.1 * Z.of_nat V + o, val bc.1 o)) (offsets V ch bc.2))
                  progs) (Z.of_nat b * Z.of_nat V + o) = val b o.
Proof.
  intros HC HV Hp ch Hb Ho.
  rewrite <- (launch_writes m CHUNK V bs progs 1 (fun b _ o => Z.of_nat b * Z.of_nat V + o)
                (fun b _ o => val b o) b 0 o HC HV Hp) by first
    [ lia | intros b1 i1 o1 b2 i2 o2 ? ? ? ? Hab; apply flat_inj in Hab; lia ].
  f_equal. apply flat_map_ext. intros bc. simpl. by rewrite app_nil_r.
Qed.

(** ** Rows *)

Lemma nth_row2 {A} (m : Z -> A) n b o d :
  0 <= o < Z.of_nat n -> nth (Z.to_nat o) (row2 m n b) d = m (Z.of_nat b * Z.of_nat n + o).
Proof.
  intros Ho. apply nth_lookup_Some. unfold row2.
  rewrite list_lookup_fmap, lookup_seq_lt by lia. simpl. do 2 f_equal. lia.
Qed.

Lemma row_of_rows3 {A} (m : Z -> A) g n b i : (i < g)%nat -> nth i (rows3 m g n b) [] = row2 m n (b * g + i).
Proof.
  intros Hi. apply nth_lookup_Some. unfold rows3. by rewrite list_lookup_fmap, lookup_seq_lt by lia.
Qed.

Lemma length_rows3 {A} (m : Z -> A) g n b : length (rows3 m g n b) = g.
Proof. unfold rows3. by rewrite length_map, length_seq. Qed.

Lemma zip_with_map_same {A B C D} (h : B -> C -> D) (u : A -> B) (v : A -> C) l :
  zip_with h (map u l) (map v l) = map (fun x => h (u x) (v x)) l.
Proof. induction l as [|x l IH]; simpl; [done|]. by rewrite IH. Qed.

Lemma last_ok_lanes (h : nat -> bool) k n :
  foldr Nat.max 0%nat (map (fun i => if h i then S i else 0%nat) (seq k n)) = last_ok k (map h (seq k n)).
Proof. revert k. induction n as [|n IH]; intros k; simpl; [done|]. by rewrite IH. Qed.

Lemma last_ok_app k l n : last_ok k (l ++ replicate n false) = last_ok k l.
Proof.
  revert k. induction l as [|b l IH]; intros k; simpl; [|by rewrite IH].
  revert k. induction n as [|n IH]; intros k; simpl; [done|]. by rewrite IH.
Qed.

(** Row [r] of a memory whose entries are known. *)
Lemma row2_map {A} (m : Z -> A) n r (val : Z -> A) :
  (forall o, 0 <= o < Z.of_nat n -> m (Z.of_nat r * Z.of_nat n + o) = val o) ->
  row2 m n r = map (fun x : nat => val (Z.of_nat x)) (seq 0 n).
Proof. intros Hm. unfold row2. apply map_ext_in. intros x Hx. apply in_seq in Hx. apply Hm. lia. Qed.

(** ** The lanes *)

Section Exact.
Context {F : Type} `{LaneLaws F}.
Context (TP DP : Z -> F) (X : Z -> Z) (sxb sxg : Z) (LIVE : option (Z -> Z)) (LIVE_SUB : Z).
Context (V G GP : nat) (HGP : (S G <= GP)%nat).

#[local] Abbreviation picks := (pick GP).
#[local] Abbreviation lane_alive := (alive_lane LIVE LIVE_SUB G).
#[local] Arguments alive_lane : simpl never.
#[local] Abbreviation w_of := (scalars_w TP DP X sxb sxg LIVE LIVE_SUB V G GP).

(** The request's data as the reference takes it. *)
Definition drafts (b : nat) : list nat :=
  map (fun i : nat => Z.to_nat (X (Z.of_nat b * sxb + Z.of_nat i * sxg))) (seq 0 G).
Definition live_of_row (b : nat) : option Z := (fun live => live (Z.of_nat b) - LIVE_SUB) <$> LIVE.

#[local] Abbreviation tp b := (rows3 TP (S G) V b).
#[local] Abbreviation dp b := (rows3 DP G V b).

Lemma pick_lane v i : (i < GP)%nat -> picks v i = v i.
Proof.
  intros Hi. unfold pick, lanes. etransitivity; [|exact (tsum_one GP i (v i) Hi)]. f_equal.
  apply map_ext. intros j. by destruct (Nat.eqb_spec j i) as [->|].
Qed.

Lemma alive_sum_lane b i :
  (i < GP)%nat -> alive_sum LIVE LIVE_SUB G GP b i = if lane_alive b i then fone else fzero.
Proof.
  intros Hi. unfold alive_sum, lanes. destruct (lane_alive b i) eqn:Ea.
  - etransitivity; [|exact (tsum_one GP i fone Hi)]. f_equal. apply map_ext. intros j.
    destruct (Nat.eqb_spec j i) as [->|]; [by rewrite Ea | done].
  - etransitivity; [|exact (tsum_zero GP)]. f_equal. apply list_eq. intros j. rewrite list_lookup_fmap.
    destruct (decide (j < GP)%nat) as [Hj|Hj].
    + rewrite lookup_seq_lt, lookup_replicate_2 by done. simpl. f_equal.
      destruct (Nat.eqb_spec j i) as [->|]; [by rewrite Ea | done].
    + rewrite lookup_seq_ge by lia. symmetry. apply lookup_replicate_None. lia.
Qed.

Lemma alive_lane_row b i : (i < G)%nat -> lane_alive b i = alive (live_of_row b) i.
Proof.
  intros Hi. unfold alive_lane, alive, live_of_row.
  destruct (Nat.ltb_spec i G); [|lia]. by destruct LIVE.
Qed.

(** Request [b]'s drafts are tokens of the vocabulary. *)
Definition tokens_ok (b : nat) : Prop :=
  forall i, (i < G)%nat -> 0 <= X (Z.of_nat b * sxb + Z.of_nat i * sxg) < Z.of_nat V.

Lemma length_drafts b : length (drafts b) = G.
Proof. unfold drafts. by rewrite length_map, length_seq. Qed.

Lemma ratio_lanes b :
  tokens_ok b ->
  ratio (live_of_row b) (drafts b) (tp b) (dp b)
  = map (ratio_lane TP DP X sxb sxg LIVE LIVE_SUB V G b) (seq 0 G).
Proof.
  intros Htok. apply list_eq. intros i.
  set (xi := X (Z.of_nat b * sxb + Z.of_nat i * sxg)).
  assert (Hz : zip_with (fun p q => fdiv p (fmax q feps)) (gather (take (length (drafts b)) (tp b)) (drafts b))
                 (gather (dp b) (drafts b)) !! i =
               if (i <? G)%nat
               then Some (fdiv (TP (Z.of_nat (b * S G + i) * Z.of_nat V + xi))
                               (fmax (DP (Z.of_nat (b * G + i) * Z.of_nat V + xi)) feps)) else None).
  { unfold gather. rewrite !lookup_zip_with, length_drafts. unfold rows3, drafts.
    destruct (Nat.ltb_spec i G) as [Hi|Hi].
    - rewrite lookup_take_lt by done. rewrite !list_lookup_fmap, !lookup_seq_lt by lia. simpl.
      pose proof (Htok i Hi). by rewrite !nth_row2 by done.
    - rewrite lookup_take_ge by lia. done. }
  unfold ratio. rewrite list_lookup_fmap. unfold ratio_lane. fold xi.
  destruct (Nat.ltb_spec i G) as [Hi|Hi].
  - pose proof (alive_lane_row b i Hi) as Ha. rewrite lookup_seq_lt by done. simpl.
    destruct (Nat.ltb_spec i G); [|lia]. rewrite Ha. unfold live_of_row, alive in *.
    destruct LIVE as [live|]; simpl in *; [rewrite list_lookup_imap|]; rewrite Hz; done.
  - rewrite lookup_seq_ge by lia. simpl. unfold live_of_row.
    destruct LIVE as [live|]; simpl; [rewrite list_lookup_imap|]; by rewrite Hz.
Qed.

Lemma w_loop_spec b n k cur w j :
  (k + n <= GP)%nat ->
  w_loop TP DP X sxb sxg LIVE LIVE_SUB V G GP b (seq k n) cur w j =
  if ((k <=? j) && (j <? k + n))%nat
  then nth (j - k) (saturate cur (map (ratio_lane TP DP X sxb sxg LIVE LIVE_SUB V G b) (seq k n))) fzero
  else w j.
Proof.
  revert k cur w. induction n as [|n IH]; intros k cur w Hk; cbn [seq w_loop map saturate].
  - destruct (Nat.leb_spec k j), (Nat.ltb_spec j (k + 0)); simpl; done || lia.
  - rewrite IH, pick_lane by lia.
    destruct (Nat.leb_spec (S k) j), (Nat.ltb_spec j (S k + n)), (Nat.leb_spec k j), (Nat.ltb_spec j (k + S n)),
      (Nat.eqb_spec j k); simpl; try lia; try done.
    + replace (j - k)%nat with (S (j - S k)) by lia. done.
    + subst. by rewrite Nat.sub_diag.
Qed.

Lemma scalars_w_nth b i :
  tokens_ok b -> (i < G)%nat -> w_of b i = nth i (saturate fone (ratio (live_of_row b) (drafts b) (tp b) (dp b))) fzero.
Proof.
  intros Htok Hi. unfold scalars_w. rewrite w_loop_spec by lia. rewrite ratio_lanes, Nat.sub_0_r by done.
  destruct (Nat.ltb_spec i (0 + G)); [done|lia].
Qed.

(** The draft's row as the kernels read it. *)
Definition q_lane (b i : nat) (o : Z) : F :=
  let q := if (i <? G)%nat then DP (Z.of_nat (b * G + i) * Z.of_nat V + o) else fzero in
  match LIVE with None => q | Some _ => fmul q (alive_sum LIVE LIVE_SUB G GP b i) end.

Lemma excess_lanes b w i :
  (i <= G)%nat ->
  excess w (row_of (tp b) i)
    (row_of (masked_draft (live_of_row b) (dp b) ++ [map (fun _ => fzero) (row_of (tp b) 0)]) i)
  = map (fun x : nat => fmax (fsub (fmul w (TP (Z.of_nat (b * S G + i) * Z.of_nat V + Z.of_nat x)))
                                   (q_lane b i (Z.of_nat x))) fzero) (seq 0 V).
Proof.
  intros Hi. unfold excess, row_of at 1. rewrite row_of_rows3 by lia.
  assert (Hq : row_of (masked_draft (live_of_row b) (dp b) ++ [map (fun _ => fzero) (row_of (tp b) 0)]) i
               = map (fun x : nat => q_lane b i (Z.of_nat x)) (seq 0 V)).
  { assert (Hlen : length (masked_draft (live_of_row b) (dp b)) = G).
    { unfold masked_draft, live_of_row. destruct LIVE; simpl; rewrite ?length_imap; apply length_rows3. }
    unfold row_of. destruct (decide (i = G)) as [->|Hne].
    - rewrite app_nth2, Hlen, Nat.sub_diag by lia. cbn [nth]. rewrite row_of_rows3 by lia.
      unfold row2. rewrite map_map. apply map_ext. intros x. unfold q_lane.
      rewrite Nat.ltb_irrefl, alive_sum_lane by lia. unfold alive_lane. rewrite Nat.ltb_irrefl. simpl.
      destruct LIVE; [by rewrite mul_zero | done].
    - rewrite app_nth1 by lia. unfold q_lane. destruct (Nat.ltb_spec i G); [|lia].
      pose proof (alive_sum_lane b i ltac:(lia)) as Hs. rewrite alive_lane_row in Hs by lia.
      unfold masked_draft, live_of_row in *. destruct LIVE as [live|]; simpl in *.
      + rewrite (nth_lookup_Some _ _ _ (map (fun q => fmul q (if alive (Some (live (Z.of_nat b) - LIVE_SUB)) i then fone else fzero))
                                            (row2 DP V (b * G + i)))).
        * unfold row2. rewrite map_map. apply map_ext. intros x. by rewrite Hs.
        * rewrite list_lookup_imap. unfold rows3. by rewrite list_lookup_fmap, lookup_seq_lt by lia.
      + by rewrite row_of_rows3. }
  rewrite Hq. unfold row2. by rewrite zip_with_map_same.
Qed.

Lemma masked_pad b i : (i < G)%nat ->
  row_of (masked_draft (live_of_row b) (dp b) ++ [map (fun _ => fzero) (row_of (tp b) 0)]) i
  = row_of (masked_draft (live_of_row b) (dp b)) i.
Proof.
  intros Hi. unfold row_of. apply app_nth1.
  unfold masked_draft, live_of_row. destruct LIVE; simpl; rewrite ?length_imap, length_rows3; lia.
Qed.

#[local] Abbreviation hs b := (thresholds (live_of_row b) (drafts b) (tp b) (dp b)).

Lemma length_saturate (cur : F) l : length (saturate cur l) = length l.
Proof. revert cur. induction l as [|r l IH]; intros cur; simpl; [done|]. by rewrite IH. Qed.

(** The thresholds, from the sums the host took of the terms. *)
Lemma decide_h_nth b S_ i :
  tokens_ok b -> (i < G)%nat ->
  (forall i, (i < G - 1)%nat ->
     S_ (Z.of_nat (b * (G - 1) + i)) =
     fsum (map (fun x : nat => term TP DP X sxb sxg LIVE LIVE_SUB V G GP b i (Z.of_nat x)) (seq 0 V))) ->
  hs b !! i = Some (decide_h TP DP X sxb sxg LIVE LIVE_SUB V G GP b S_ i).
Proof.
  intros Htok Hi HS. unfold thresholds. rewrite list_lookup_imap.
  set (sat := saturate fone (ratio (live_of_row b) (drafts b) (tp b) (dp b))).
  assert (Hlen : length sat = G).
  { unfold sat. by rewrite length_saturate, ratio_lanes, length_map, length_seq by done. }
  destruct (lookup_lt_is_Some_2 sat i ltac:(lia)) as [w Hw]. rewrite Hw. simpl. f_equal.
  assert (Hsw : w_of b i = w) by (rewrite scalars_w_nth by done; by apply nth_lookup_Some).
  unfold threshold, decide_h. rewrite length_drafts, Hsw.
  destruct (Nat.eqb_spec i (G - 1)); [done|]. destruct (Nat.ltb_spec i (G - 1)); [|lia].
  assert (Hs : S_ (Z.of_nat (b * (G - 1) + i)) =
               fsum (excess w (row_of (tp b) (S i)) (row_of (masked_draft (live_of_row b) (dp b)) (S i)))).
  { rewrite HS by done. f_equal. rewrite <- masked_pad by lia. rewrite excess_lanes by lia.
    apply map_ext. intros x. unfold term, q_lane. rewrite pick_lane, Hsw by lia.
    destruct (Nat.ltb_spec (S i) G); [|lia].
    replace (b * S G + S i)%nat with (b * S G + i + 1)%nat by lia.
    by replace (b * G + S i)%nat with (b * G + i + 1)%nat by lia. }
  by rewrite Hs.
Qed.

Lemma decide_tau_last_ok b S_ ETA :
  (forall i, (i < G)%nat -> hs b !! i = Some (decide_h TP DP X sxb sxg LIVE LIVE_SUB V G GP b S_ i)) ->
  decide_tau TP DP X sxb sxg LIVE LIVE_SUB V G GP b S_ ETA
  = last_ok 0 (oks (live_of_row b) (row2 ETA G b) (hs b)).
Proof.
  intros Hh. unfold decide_tau, lanes.
  set (okl := fun i => fle (if (i <? G)%nat then ETA (Z.of_nat (b * G + i)) else ftwo)
                        (decide_h TP DP X sxb sxg LIVE LIVE_SUB V G GP b S_ i) && lane_alive b i).
  change (foldr Nat.max 0%nat (map (fun i => if okl i then S i else 0%nat) (seq 0 GP)) =
          last_ok 0 (oks (live_of_row b) (row2 ETA G b) (hs b))).
  rewrite last_ok_lanes. replace GP with (G + (GP - G))%nat by lia. rewrite seq_app, map_app.
  assert (Hdead : map okl (seq (0 + G) (GP - G)) = replicate (GP - G) false).
  { apply list_eq. intros j. rewrite list_lookup_fmap. destruct (decide (j < GP - G)%nat).
    - rewrite lookup_seq_lt, lookup_replicate_2 by done. simpl. f_equal. unfold okl, alive_lane.
      destruct (Nat.ltb_spec (G + j) G); [lia|]. by rewrite andb_false_r.
    - rewrite lookup_seq_ge by lia. symmetry. apply lookup_replicate_None. lia. }
  rewrite Hdead, last_ok_app. f_equal. unfold oks, row2. apply list_eq. intros i.
  rewrite list_lookup_imap, lookup_zip_with, !list_lookup_fmap.
  destruct (decide (i < G)%nat) as [Hi|Hi].
  - rewrite lookup_seq_lt by done. simpl. rewrite (Hh i Hi). simpl. unfold okl.
    destruct (Nat.ltb_spec i G); [|lia]. rewrite alive_lane_row by done.
    by replace (Z.of_nat (b * G + i)) with (Z.of_nat b * Z.of_nat G + Z.of_nat i) by lia.
  - by rewrite lookup_seq_ge by lia.
Qed.

Lemma res_lanes b tau :
  tokens_ok b -> (tau <= G)%nat ->
  map (fun x : nat => res_lane TP DP X sxb sxg LIVE LIVE_SUB V G GP b tau (Z.of_nat x)) (seq 0 V)
  = residual (live_of_row b) (drafts b) (tp b) (dp b) tau.
Proof.
  intros Htok Ht. unfold residual. rewrite excess_lanes by done. apply map_ext. intros x.
  unfold res_lane, q_lane, decide_wt. do 3 f_equal.
  destruct tau as [|t]; [done|]. cbn [Nat.eqb nth]. rewrite pick_lane by lia.
  rewrite Nat.sub_1_r. cbn [Nat.pred]. rewrite scalars_w_nth by (done || lia). done.
Qed.
End Exact.

(** ** The verdict *)

Section FoldExact.
Context {F : Type} `{LaneLaws F}.
Context (CHUNK : Z) (TP DP : Z -> F) (X : Z -> Z) (sxb sxg : Z) (eta gumbel : Z -> F)
        (live : option (Z -> Z)) (live_sub : Z) (V g bs : nat) (init : Z -> F) (init_tau : Z -> nat).

Context (HC : 0 < CHUNK) (HV : (0 < V)%nat).
Context (HX : forall b, (b < bs)%nat -> tokens_ok X sxb sxg V g b).

(** The launch geometry, the reference's data, and the memory after each launch. *)
Definition ch : Z := Z.min CHUNK (pow2 (Z.of_nat V)).
Definition gp : nat := Z.to_nat (Z.max 2 (pow2 (Z.of_nat g + 1))).
#[local] Abbreviation Xb b := (drafts X sxb sxg g b).
#[local] Abbreviation tp b := (rows3 TP (S g) V b).
#[local] Abbreviation dp b := (rows3 DP g V b).
#[local] Abbreviation lv b := (live_of_row live live_sub b).
#[local] Abbreviation tau_of b := (last_ok 0 (oks (lv b) (row2 eta g b) (thresholds (lv b) (Xb b) (tp b) (dp b)))).

Definition TERMS (terms : list (nat * Z)) : Z -> F :=
  run_stores init (flat_map (fun bc => terms_kernel TP DP X sxb sxg live live_sub V g gp ch bc.1 bc.2) terms).
Definition sums (terms : list (nat * Z)) : Z -> F :=
  if (1 <? g)%nat then (fun a => fsum (row2 (TERMS terms) V (Z.to_nat a))) else (fun _ => fzero).
Definition resid_out (terms resid : list (nat * Z)) :=
  map (fun bc => residual_kernel TP DP X sxb sxg live live_sub V g gp ch (sums terms) eta bc.1 bc.2) resid.

Lemma ch_pos : 0 < ch.
Proof. unfold ch. pose proof (pow2_spec (Z.of_nat V)). lia. Qed.

Lemma gp_room : (S g <= gp)%nat.
Proof. unfold gp. pose proof (pow2_spec (Z.of_nat g + 1)). lia. Qed.

Lemma tau_bound b : (tau_of b <= g)%nat.
Proof.
  etransitivity; [apply last_ok_bound|].
  unfold oks. rewrite length_imap, length_zip_with. unfold row2. rewrite length_map, length_seq. lia.
Qed.

Lemma terms_sum terms b i :
  terms ≡ₚ launch CHUNK V bs -> (b < bs)%nat -> (i < g - 1)%nat ->
  sums terms (Z.of_nat (b * (g - 1) + i)) =
  fsum (map (fun x : nat => term TP DP X sxb sxg live live_sub V g gp b i (Z.of_nat x)) (seq 0 V)).
Proof.
  intros Ht Hb Hi. unfold sums. destruct (Nat.ltb_spec 1 g); [|lia]. f_equal. rewrite Nat2Z.id.
  apply (row2_map (TERMS terms) V (b * (g - 1) + i) (fun o => term TP DP X sxb sxg live live_sub V g gp b i o)).
  intros o Ho. apply (launch_writes init CHUNK V bs terms (g - 1)
    (fun b i o => Z.of_nat (b * (g - 1) + i) * Z.of_nat V + o)
    (fun b i o => term TP DP X sxb sxg live live_sub V g gp b i o) b i o HC HV Ht); [|done..].
  intros b1 i1 o1 b2 i2 o2 Hi1 Hi2 Ho1 Ho2 Hab. apply flat_inj in Hab as [Hab ->]; [|done..].
  rewrite !Nat2Z.inj_add, !Nat2Z.inj_mul in Hab. apply flat_inj in Hab; lia.
Qed.

Lemma kernel_tau terms b :
  terms ≡ₚ launch CHUNK V bs -> (b < bs)%nat ->
  decide_tau TP DP X sxb sxg live live_sub V g gp b (sums terms) eta = tau_of b.
Proof.
  intros Ht Hb. apply decide_tau_last_ok; [apply gp_room|]. intros i Hi. pose proof gp_room.
  apply decide_h_nth; auto. intros j Hj. by apply terms_sum.
Qed.

Lemma stored_tau terms resid b :
  terms ≡ₚ launch CHUNK V bs -> resid ≡ₚ launch CHUNK V bs -> (b < bs)%nat ->
  run_stores init_tau (flat_map snd (resid_out terms resid)) (Z.of_nat b) = tau_of b.
Proof.
  intros Ht Hr Hb. apply run_stores_at.
  - apply list_elem_of_In, in_flat_map. unfold resid_out. eexists. split.
    + apply in_map_iff. exists (b, 0). split; [reflexivity|]. apply list_elem_of_In. rewrite Hr.
      apply launch_elem; [done..|]. split; [done|]. fold ch. pose proof ch_pos.
      split; [done|]. apply Z.div_str_pos. lia.
    + simpl. left. f_equal. by apply kernel_tau.
  - intros v Hv. apply list_elem_of_In, in_flat_map in Hv as (o & Ho & Hv).
    apply in_map_iff in Ho as ([b1 c1] & <- & Hbc). simpl in Hv.
    apply list_elem_of_In in Hbc. rewrite Hr in Hbc. apply launch_elem in Hbc as [Hb1 _]; [|done..].
    destruct (c1 =? 0); simpl in Hv; [|done]. destruct Hv as [[= Hbb <-]|[]].
    apply Nat2Z.inj in Hbb as ->. by apply kernel_tau.
Qed.

Lemma stored_residual terms resid b :
  terms ≡ₚ launch CHUNK V bs -> resid ≡ₚ launch CHUNK V bs -> (b < bs)%nat ->
  row2 (run_stores init (flat_map fst (resid_out terms resid))) V b
  = residual (lv b) (Xb b) (tp b) (dp b) (tau_of b).
Proof.
  intros Ht Hr Hb. pose proof (tau_bound b).
  rewrite <- (res_lanes TP DP X sxb sxg live live_sub V g gp gp_room b) by auto.
  apply (row2_map _ V b (fun o => res_lane TP DP X sxb sxg live live_sub V g gp b (tau_of b) o)).
  intros o Ho. unfold resid_out.
  rewrite flat_map_concat_map, map_map, <- flat_map_concat_map. cbn [fst residual_kernel].
  rewrite (launch_writes_row init CHUNK V bs resid
    (fun b o => res_lane TP DP X sxb sxg live live_sub V g gp b
                  (decide_tau TP DP X sxb sxg live live_sub V g gp b (sums terms) eta) o) b o) by done.
  by rewrite kernel_tau.
Qed.

Lemma fold_exact terms resid keys b :
  (b < bs)%nat ->
  terms ≡ₚ launch CHUNK V bs -> resid ≡ₚ launch CHUNK V bs -> keys ≡ₚ launch CHUNK V bs ->
  fold CHUNK TP DP X sxb sxg eta gumbel live live_sub V g init init_tau terms resid keys b
  = block_accept_probs (Xb b) (tp b) (dp b) (row2 eta g b) (row2 gumbel V b) (lv b).
Proof.
  intros Hb Ht Hr Hk. unfold fold, block_accept_probs. fold ch gp. fold (TERMS terms). fold (sums terms).
  fold (resid_out terms resid).
  set (RES := run_stores init (flat_map fst _)). set (TAU := run_stores init_tau _).
  assert (HTAU : TAU (Z.of_nat b) = tau_of b) by (by apply stored_tau).
  assert (HRES : row2 RES V b = residual (lv b) (Xb b) (tp b) (dp b) (tau_of b)) by (by apply stored_residual).
  pose proof (tau_bound b) as Htr. rewrite HTAU. f_equal. unfold race. f_equal.
  etransitivity.
  { apply (row2_map _ V b (fun o => key_lane TP V g RES (fun a => fsum (row2 RES V (Z.to_nat a))) gumbel TAU b o)).
    intros o Ho. apply (launch_writes_row init CHUNK V bs keys
      (fun b o => key_lane TP V g RES (fun a => fsum (row2 RES V (Z.to_nat a))) gumbel TAU b o) b o); done. }
  unfold key_lane. rewrite HTAU, Nat2Z.id, <- HRES. unfold normalised.
  generalize (fsum (row2 RES V b)). intros mass. destruct (flt fzero mass).
  - unfold row2. rewrite map_map. by rewrite zip_with_map_same.
  - unfold row_of. rewrite row_of_rows3 by lia. unfold row2. by rewrite zip_with_map_same.
Qed.
End FoldExact.

(** ** Dispatch *)

(** The switches of the fold module: [ENABLED] and [CHECK]. *)
Definition fold_switches (env : environ) : bool * bool :=
  let mode := lower (strip (env_get env "DSV41_BLOCK_VERIFY_FOLD" "0")) in
  (negb (one_of mode ["0"; ""; "off"; "false"; "no"]), String.eqb mode "check").

Inductive fold_path := OnPath | CheckPath.

(** [_fold_mode]: the torch path is [None].  [fold_mod]: the switches, when the module could be
    imported; [ab]: the harness, when it could. *)
Definition fold_mode {flt} (os : gmap string string) (ab : option (module flt)) (fold_mod : option (bool * bool))
  : res (option fold_path) :=
  match fold_mod, ab with
  | Some _, Some m =>
      if ACTIVE m then
        v ← AbVariant.env os m "DSV41_BLOCK_VERIFY_FOLD" (Some "0");
        w ← fold_value v;
        Ok (if String.eqb w "off" then None else Some (if String.eqb w "check" then CheckPath else OnPath))
      else Ok (match fold_mod with
               | Some (true, check) => Some (if check then CheckPath else OnPath)
               | _ => None
               end)
  | _, _ => Ok (match fold_mod with
                | Some (true, check) => Some (if check then CheckPath else OnPath)
                | _ => None
                end)
  end.

(** [check_counts]: calls, rows, rows whose length differs, rows whose token differs. *)
Definition check_counts (c : Z * Z * Z * Z) (got ref : list (nat * nat)) : Z * Z * Z * Z :=
  let '(calls, rows, taus, toks) := c in
  let differ {A} `{EqDecision A} (pr : nat * nat -> A) :=
    zsum (zip_with (fun x y => if bool_decide (pr x = pr y) then 0 else 1) got ref) in
  (calls + 1, rows + zlen got, taus + differ fst, toks + differ snd).

Section Execute.
Context {F : Type} `{LaneLaws F}.
(** The call's tensors: [candidates] [bs * stride], [target_probs] and [draft_probs] flattened,
    the verify lengths, the draws, and the engine's own sampler. *)
Context (CHUNK : Z) (candidates : Z -> Z) (TP DP eta gumbel : Z -> F) (V bs gamma stride : nat)
        (cutoff : option (Z -> Z)) (init : Z -> F) (init_tau : Z -> nat)
        (orig : res (list (nat * nat))).

(** [candidates.view(bs, stride)[:, 1:gamma + 1]]. *)
Definition x_view : Z -> Z := fun a => candidates (a + 1).

(** The torch path: [live] is the verify length without the anchor. *)
Definition torch_row (b : nat) : nat * nat :=
  block_accept_probs (drafts x_view (Z.of_nat stride) 1 gamma b) (rows3 TP stride V b) (rows3 DP gamma V b)
    (row2 eta gamma b) (row2 gumbel V b) (live_of_row cutoff 1 b).

(** [_folded]: the fold's verdict, or in check mode the reference's after counting. *)
Definition folded (path : fold_path) (counters : Z * Z * Z * Z) (terms resid keys : list (nat * Z))
  : (Z * Z * Z * Z) * list (nat * nat) :=
  let got := map (fold CHUNK TP DP x_view (Z.of_nat stride) 1 eta gumbel cutoff 1 V gamma init init_tau
                       terms resid keys) (seq 0 bs) in
  match path with
  | OnPath => (counters, got)
  | CheckPath => let ref := map torch_row (seq 0 bs) in (check_counts counters got ref, ref)
  end.

(** [execute]; [mode]: what [_fold_mode] answers; [on_device]: the candidates are on the GPU. *)
Definition execute (env : environ) (mode : res (option fold_path)) (on_device : bool)
    (counters : Z * Z * Z * Z) (terms resid keys : list (nat * Z))
  : (Z * Z * Z * Z) * res (list (nat * nat)) :=
  if bool_decide (is_Some cutoff) && one_of (strip (env_get env "DSV41_VERIFY_CAP" "")) [""; "0"; "off"]
  then (counters, orig)
  else match mode with
       | Raise e => (counters, Raise e)
       | Ok (Some path) =>
           if on_device then
             if negb (Nat.eqb stride (gamma + 1)) then (counters, Raise AssertionError)
             else let '(c, out) := folded path counters terms resid keys in (c, Ok out)
           else (counters, Ok (map torch_row (seq 0 bs)))
       | Ok None => (counters, Ok (map torch_row (seq 0 bs)))
       end.

Lemma zsum_zip_same {A} `{EqDecision A} (pr : nat * nat -> A) l :
  zsum (zip_with (fun x y => if bool_decide (pr x = pr y) then 0 else 1) l l) = 0.
Proof. induction l as [|x l IH]; simpl; [done|]. rewrite bool_decide_true by done. exact IH. Qed.

(** C10: the verdicts do not depend on the path: with the fold kernels, their check mode or the
    tensor code, in whatever order the programs of each launch run and whatever the
    arithmetic rounds, a call gives every request the verdict of [block_accept_probs] on its
    verify length without the anchor, and check mode counts no difference. *)
Theorem fold_bit_identical env path on_device counters terms resid keys :
  0 < CHUNK -> (0 < V)%nat -> (0 < gamma)%nat -> stride = (gamma + 1)%nat ->
  (forall b i, (b < bs)%nat -> (i < gamma)%nat -> 0 <= candidates (Z.of_nat (b * stride + i + 1)) < Z.of_nat V) ->
  terms ≡ₚ launch CHUNK V bs -> resid ≡ₚ launch CHUNK V bs -> keys ≡ₚ launch CHUNK V bs ->
  bool_decide (is_Some cutoff) && one_of (strip (env_get env "DSV41_VERIFY_CAP" "")) [""; "0"; "off"] = false ->
  let '(c, out) := execute env (Ok path) on_device counters terms resid keys in
  out = Ok (map torch_row (seq 0 bs)) /\
  (c = counters \/
   c = (counters.1.1.1 + 1, counters.1.1.2 + Z.of_nat bs, counters.1.2, counters.2)).
Proof.
  intros HC HV Hg Hstride HX Ht Hr Hk Hcap. unfold execute. rewrite Hcap.
  destruct path as [path|]; [|by auto]. destruct on_device; [|by auto].
  rewrite Hstride, Nat.eqb_refl. cbn [negb].
  assert (Hfold : map (fold CHUNK TP DP x_view (Z.of_nat stride) 1 eta gumbel cutoff 1 V gamma init init_tau
                       terms resid keys) (seq 0 bs) = map torch_row (seq 0 bs)).
  { apply map_ext_in. intros b Hb. apply in_seq in Hb. unfold torch_row.
    rewrite (fold_exact CHUNK TP DP x_view (Z.of_nat stride) 1 eta gumbel cutoff 1 V gamma bs init init_tau HC HV)
      by (done || lia || (intros b' Hb' i Hi; unfold x_view;
            replace (Z.of_nat b' * Z.of_nat stride + Z.of_nat i * 1 + 1) with (Z.of_nat (b' * stride + i + 1)) by lia;
            by apply HX)).
    by replace stride with (S gamma) by lia. }
  unfold folded. rewrite Hfold. destruct path; [by auto|].
  destruct counters as [[[calls rows] taus] toks]. unfold check_counts. rewrite !zsum_zip_same. simpl.
  split; [done|]. right. unfold zlen. rewrite length_map, length_seq, !Z.add_0_r. done.
Qed.
End Execute.

(** ** The rationals *)

#[export] Instance lanes_Q : Lanes Q := { tsum := qsum; ftwo := 2%Q }.

Lemma Qplus_0_l_eq x : (0 + x)%Q = x.
Proof. destruct x as [n d]. unfold Qplus. simpl. by rewrite Z.mul_1_r. Qed.
Lemma Qplus_0_r_eq x : (x + 0)%Q = x.
Proof. destruct x as [n d]. unfold Qplus. simpl. by rewrite Z.mul_1_r, Z.add_0_r, Pos.mul_1_r. Qed.

#[export] Instance lane_laws_Q : LaneLaws Q.
Proof.
  assert (Hz : forall n, qsum (replicate n 0%Q) = 0%Q).
  { induction n as [|n IH]; [done|]. cbn [replicate qsum foldr]. change (foldr Qplus 0%Q) with qsum.
    by rewrite IH. }
  split.
  - intros n i x Hi. change (qsum (map (fun j => if Nat.eqb j i then x else 0%Q) (seq 0 n)) = x).
    replace (map (fun j => if Nat.eqb j i then x else 0%Q) (seq 0 n))
      with (replicate i 0%Q ++ x :: replicate (n - i - 1) 0%Q).
    + induction i as [|i IH] in n, Hi |- *; cbn [replicate app qsum foldr]; change (foldr Qplus 0%Q) with qsum.
      * by rewrite Hz, Qplus_0_r_eq.
      * rewrite Qplus_0_l_eq. replace (n - S i - 1)%nat with ((n - 1) - i - 1)%nat by lia. apply IH. lia.
    + apply list_eq. intros j. rewrite list_lookup_fmap.
      destruct (decide (j < n)%nat) as [Hj|Hj].
      * rewrite lookup_seq_lt by done. simpl. destruct (Nat.eqb_spec j i) as [->|Hne].
        -- rewrite lookup_app_r by (rewrite length_replicate; lia). by rewrite length_replicate, Nat.sub_diag.
        -- destruct (decide (j < i)%nat).
           ++ rewrite lookup_app_l by (rewrite length_replicate; lia). by rewrite lookup_replicate_2.
           ++ rewrite lookup_app_r, length_replicate by (rewrite length_replicate; lia).
              replace (j - i)%nat with (S (j - i - 1)) by lia. cbn [lookup list_lookup].
              apply lookup_replicate_2. lia.
      * rewrite lookup_seq_ge by lia. apply lookup_ge_None. rewrite length_app. simpl.
        rewrite !length_replicate. lia.
  - exact Hz.
  - done.
Qed.

(** One request, two drafts over two tokens, one token per program, the programs backwards. *)
Definition ex_mem (l : list Q) (a : Z) : Q := nth (Z.to_nat a) l 0%Q.
Definition ex_cand (a : Z) : Z := nth (Z.to_nat a) [1; 0; 0] 0.
Definition ex_TP : Z -> Q := ex_mem [1#2; 1#2; 1#4; 3#4; 1; 0]%Q.
Definition ex_DP : Z -> Q := ex_mem [1#2; 1#2; 1#2; 1#2]%Q.
Definition ex_exec (path : option fold_path) :=
  execute 1 ex_cand ex_TP ex_DP (ex_mem [1#2; 3#4]%Q) (ex_mem [1; 1]%Q) 2 1 2 3 (Some (fun _ => 3))
    (ex_mem []) (fun _ => 9%nat) (Raise RuntimeError)
    (fun k => if String.eqb k "DSV41_VERIFY_CAP" then Some "1" else None) (Ok path) true (0, 0, 0, 0)
    (rev (launch 1 2 1)) (rev (launch 1 2 1)) (launch 1 2 1).

Example ex_exec_on : ex_exec (Some OnPath) = ((0, 0, 0, 0), Ok [(1%nat, 1%nat)]).
Proof. vm_compute. reflexivity. Qed.

Lemma fold_bit_identical_witness : (ex_exec (Some CheckPath)).2 = Ok [(1%nat, 1%nat)].
Proof.
  pose proof (fold_bit_identical 1 ex_cand ex_TP ex_DP (ex_mem [1#2; 3#4]%Q) (ex_mem [1; 1]%Q) 2 1 2 3
    (Some (fun _ => 3)) (ex_mem []) (fun _ => 9%nat) (Raise RuntimeError)
    (fun k => if String.eqb k "DSV41_VERIFY_CAP" then Some "1" else None) (Some CheckPath) true (0, 0, 0, 0)
    (rev (launch 1 2 1)) (rev (launch 1 2 1)) (launch 1 2 1)) as H.
  unfold ex_exec. destruct (execute _ _ _ _ _ _ _ _ _ _ _ _ _ _ _ _ _ _ _ _ _) as [c out].
  destruct H as [-> _]; [lia | lia | lia | reflexivity | | | | reflexivity | reflexivity |].
  - intros b i _ _. unfold ex_cand. destruct (Z.to_nat _) as [|[|[|[|n]]]]; simpl; lia.
  - symmetry. apply Permutation_rev.
  - symmetry. apply Permutation_rev.
  - vm_compute. reflexivity.
Defined.
