(* ===== verification/CertFloat.v ===== *)
(** * Float arithmetic of the certified LM head (adapter/cert_head.py)

    The epilogue of the screen kernel for one row of the head and one token, over fp32
    values with an abstract rounding, and the proof that it brackets the exact logit: the
    error analysis of the bound, and the inequality of Cauchy and Schwarz that the bound
    rests on. *)
From Stdlib Require Export Qabs.
From S2P Require Import Prelude Dist.
#[local] Open Scope list_scope.
#[local] Open Scope Z_scope.

(** ** Values

    A value is a rational, an infinity or not a number; [rnd] rounds an exact result to
    fp32 and [bf] to bf16. *)
Inductive fp := NaN | NInf | Fin (q : Q) | PInf.

Definition isnan (a : fp) : bool := match a with NaN => true | _ => false end.
Definition isfinite (a : fp) : bool := match a with Fin _ => true | _ => false end.

Definition fp_lt (a b : fp) : bool :=
  match a, b with
  | NaN, _ | _, NaN => false
  | NInf, NInf => false
  | NInf, _ => true
  | _, NInf => false
  | PInf, _ => false
  | _, PInf => true
  | Fin x, Fin y => negb (Qle_bool y x)
  end.

Definition fp_le (a b : fp) : bool :=
  match a, b with NaN, _ | _, NaN => false | _, _ => negb (fp_lt b a) end.

Definition fp_neg (a : fp) : fp :=
  match a with NaN => NaN | NInf => PInf | PInf => NInf | Fin x => Fin (- x)%Q end.

Definition fp_abs (a : fp) : fp :=
  match a with NaN => NaN | NInf | PInf => PInf | Fin x => Fin (Qabs x) end.

Definition fp_max (a b : fp) : fp := if fp_lt a b then b else a.

(** *** The constants of the certificate *)
Definition infl_q : Q := Eval vm_compute in (1 + (1 # 2 ^ 18))%Q.
Definition infl_b : Q := Eval vm_compute in (1 + (1 # 2 ^ 20))%Q.
Definition infl_x : Q := Eval vm_compute in (1 + (1 # 2 ^ 16))%Q.
Definition slop_rel : Q := Eval vm_compute in (1 # 2 ^ 22)%Q.
Definition slop_abs : Q := Eval vm_compute in (1 # 2 ^ 126)%Q.
Definition x_abs : Q := Eval vm_compute in (1 # 2 ^ 59)%Q.
Definition INFL_Q : fp := Fin infl_q.
Definition INFL_B : fp := Fin infl_b.
Definition INFL_X : fp := Fin infl_x.
Definition SLOP_REL : fp := Fin slop_rel.
Definition SLOP_ABS : fp := Fin slop_abs.
Definition X_ABS : fp := Fin x_abs.

Section Float.
Context (rnd bf : Q -> fp).

Definition fp_add (a b : fp) : fp :=
  match a, b with
  | NaN, _ | _, NaN => NaN
  | PInf, NInf | NInf, PInf => NaN
  | PInf, _ | _, PInf => PInf
  | NInf, _ | _, NInf => NInf
  | Fin x, Fin y => rnd (x + y)%Q
  end.

Definition fp_sub (a b : fp) : fp := fp_add a (fp_neg b).

Definition fp_mul (a b : fp) : fp :=
  match a, b with
  | NaN, _ | _, NaN => NaN
  | Fin x, Fin y => rnd (x * y)%Q
  | Fin x, i | i, Fin x =>
      if Qeq_bool x 0 then NaN
      else if Qle_bool 0 x then i else fp_neg i
  | PInf, PInf | NInf, NInf => PInf
  | _, _ => NInf
  end.

Definition to_bf16 (a : fp) : fp := match a with Fin x => bf x | _ => a end.

(** ** The screen's epilogue for one row and one token *)

(** [for g in range(NG): qb += xg * r]. *)
Fixpoint qb_loop (qb : fp) (xg r : list fp) : fp :=
  match xg, r with
  | x :: xg', t :: r' => qb_loop (fp_add qb (fp_mul x t)) xg' r'
  | _, _ => qb
  end.

(** The bound [B], with [cacc2] the constant [2 * c_acc(K)]. *)
Definition bound (cacc2 : fp) (xg r : list fp) (xn nv : fp) : fp :=
  let qb := qb_loop (Fin 0) xg r in
  let B := fp_mul (fp_add (fp_mul qb INFL_Q) (fp_mul cacc2 (fp_mul xn nv))) INFL_B in
  if isnan B then PInf else B.

Definition slop (acc B : fp) : fp := fp_add (fp_mul (fp_add (fp_abs acc) B) SLOP_REL) SLOP_ABS.

Definition screen_lo (isstop : bool) (acc B : fp) : fp :=
  let lo := to_bf16 (fp_sub (fp_sub acc B) (slop acc B)) in
  let lo := if negb (isfinite acc) || isnan lo then NInf else lo in
  if isstop then NInf else lo.

Definition screen_hi (isstop : bool) (acc B : fp) : fp :=
  let hi := to_bf16 (fp_add (fp_add acc B) (slop acc B)) in
  let hi := if negb (isfinite acc) || isnan hi then PInf else hi in
  if isstop then PInf else hi.
End Float.

(** ** What is assumed of the rounding

    Round to nearest: a relative error of 2^-24 and an absolute one of 2^-150 where the
    result is finite, infinities only past [FMAX] and on the right side, the sign kept;
    the rounding to bf16 is monotone. *)
Definition u : Q := Eval vm_compute in (1 # 2 ^ 24)%Q.
Definition tiny : Q := Eval vm_compute in (1 # 2 ^ 150)%Q.

Class FloatLaws (rnd bf : Q -> fp) (FMAX : Q) := {
  FMAX_pos : (1 < FMAX)%Q;
  rnd_num q : rnd q <> NaN;
  rnd_fin q r : rnd q = Fin r -> (Qabs (r - q) <= u * Qabs q + tiny)%Q;
  rnd_max q r : rnd q = Fin r -> (Qabs r <= FMAX)%Q;
  rnd_over q : rnd q = PInf -> (FMAX < q)%Q;
  rnd_under q : rnd q = NInf -> (q < - FMAX)%Q;
  rnd_nonneg q r : rnd q = Fin r -> (0 <= q)%Q -> (0 <= r)%Q;
  bf_num q : bf q <> NaN;
  bf_mono p q : (p <= q)%Q -> fp_le (bf p) (bf q) = true }.

(** ** Bounds carried through the operations

    [above q a]: [a] is at least [q] if it is a number at all. *)
Definition above (q : Q) (a : fp) : Prop :=
  match a with Fin r => (q <= r)%Q | NInf => False | _ => True end.

Lemma Qabs_bounds x y : (Qabs x <= y)%Q -> (- y <= x <= y)%Q.
Proof. intros H. by apply Qabs_Qle_condition. Qed.

Lemma above_weaken p q a : above p a -> (q <= p)%Q -> above q a.
Proof. destruct a; simpl; try done. intros. lra. Qed.

Section Bounds.
Context {rnd bf : Q -> fp} {FMAX : Q} {L : FloatLaws rnd bf FMAX}.
#[local] Open Scope Q_scope.

(** Rounding a nonnegative result: the sign and the relative error. *)
Lemma rnd_pos q : 0 <= q -> above 0 (rnd q).
Proof.
  intros Hq. destruct (rnd q) as [| |r|] eqn:E; simpl; try done.
  - apply rnd_under in E. pose proof FMAX_pos. lra.
  - by eapply rnd_nonneg.
Qed.

Lemma rnd_rel q p : p <= q -> 0 <= q -> above (p * (1 - u) - tiny) (rnd q).
Proof.
  intros Hp Hq. destruct (rnd q) as [| |r|] eqn:E; simpl; try done.
  - apply rnd_under in E. pose proof FMAX_pos. lra.
  - apply rnd_fin in E. apply Qabs_bounds in E. rewrite (Qabs_pos q) in E by done.
    assert (p * (1 - u) <= q * (1 - u)) by (unfold u; lra). lra.
Qed.

Lemma add_pos a b : above 0 a -> above 0 b -> above 0 (fp_add rnd a b).
Proof. destruct a, b; simpl; try done. intros. apply rnd_pos. lra. Qed.

Lemma mul_pos a b : above 0 a -> above 0 b -> above 0 (fp_mul rnd a b).
Proof.
  destruct a as [| |x|], b as [| |y|]; simpl; try done; intros Hx Hy.
  - apply rnd_pos. nra.
  - destruct (Qeq_bool x 0); [done|]. apply Qle_bool_iff in Hx. by rewrite Hx.
  - destruct (Qeq_bool y 0); [done|]. apply Qle_bool_iff in Hy. by rewrite Hy.
Qed.

(** *** Finite results have finite arguments *)
Lemma add_fin a b r : fp_add rnd a b = Fin r -> exists x y, a = Fin x /\ b = Fin y /\ rnd (x + y) = Fin r.
Proof. destruct a, b; simpl; try done; eauto. Qed.

Lemma mul_fin a b r : fp_mul rnd a b = Fin r -> exists x y, a = Fin x /\ b = Fin y /\ rnd (x * y) = Fin r.
Proof. destruct a, b; simpl; intros H; repeat case_match; try done; eauto. Qed.

(** A finite rounded result, from below and from above. *)
Lemma rnd_ge q r p : rnd q = Fin r -> p <= q -> 0 <= q -> p * (1 - u) - tiny <= r.
Proof. intros E Hp Hq. pose proof (rnd_rel q p Hp Hq) as H. by rewrite E in H. Qed.

Lemma rnd_le q r p : rnd q = Fin r -> q <= p -> 0 <= q -> r <= p * (1 + u) + tiny.
Proof.
  intros E Hp Hq. apply rnd_fin in E. apply Qabs_bounds in E. rewrite (Qabs_pos q) in E by done.
  assert (q * (1 + u) <= p * (1 + u)) by (unfold u; lra). lra.
Qed.

(** ** The sum of the groups *)

Definition dot (a b : list Q) : Q := qsum (zip_with Qmult a b).

Lemma dot_nonneg a b : Forall (Qle 0) a -> Forall (Qle 0) b -> 0 <= dot a b.
Proof.
  unfold dot. intros Ha. revert b. induction Ha as [|x a Hx Ha IH]; intros b; [by simpl|].
  intros [|y b' Hy Hb]; simpl; [lra|]. specialize (IH b' Hb). nra.
Qed.

Lemma qb_loop_start xg r qb s : qb_loop rnd qb xg r = Fin s -> exists q0, qb = Fin q0.
Proof.
  revert r qb. induction xg as [|a xg IH]; intros [|b r] qb; cbn [qb_loop]; eauto.
  intros E. destruct (IH _ _ E) as [q1 E1]. destruct (add_fin _ _ _ E1) as (q0 & _ & -> & _). eauto.
Qed.

(** [k] steps that each lose a relative error [2 u] of the new term and [u] of the sum. *)
Lemma qb_loop_fin xg r : forall q0 s S0 j,
  length xg = length r ->
  qb_loop rnd (Fin q0) xg r = Fin s ->
  Forall (above 0) xg -> Forall (above 0) r -> 0 <= q0 -> 0 <= S0 -> 1 <= j -> j + inject_Z (zlen xg) <= 1000 ->
  S0 * (1 - j * u) - 2 * j * tiny <= q0 ->
  exists xs rs, xg = map Fin xs /\ r = map Fin rs /\ Forall (Qle 0) xs /\ Forall (Qle 0) rs /\ 0 <= s /\
    (S0 + dot xs rs) * (1 - (j + inject_Z (zlen xg)) * u) - 2 * (j + inject_Z (zlen xg)) * tiny <= s.
Proof.
  revert r. induction xg as [|a xg IH]; intros [|b r] q0 s S0 j; try done; cbn [qb_loop length].
  { intros _ [= <-] _ _ Hq HS Hj Hb H. exists [], []. repeat split; try done.
    change (dot [] []) with 0. change (inject_Z (zlen [])) with 0. lra. }
  intros [= Hlen] E Hxg Hr Hq HS Hj Hb H.
  apply Forall_cons_1 in Hxg as [Ha Hxg]. apply Forall_cons_1 in Hr as [Hb0 Hr].
  assert (exists x y q1, a = Fin x /\ b = Fin y /\ fp_add rnd (Fin q0) (fp_mul rnd a b) = Fin q1) as
    (x & y & q1 & -> & -> & E1).
  { destruct (qb_loop_start _ _ _ _ E) as [q1 E1].
    destruct (add_fin _ _ _ E1) as (w1 & w2 & _ & Em & _). destruct (mul_fin _ _ _ Em) as (x0 & y0 & -> & -> & _).
    by exists x0, y0, q1. }
  rewrite E1 in E. destruct (add_fin _ _ _ E1) as (? & m & [= <-] & Em & Er).
  destruct (mul_fin _ _ _ Em) as (? & ? & [= <-] & [= <-] & Erm).
  simpl in Ha, Hb0. assert (Hxy : 0 <= x * y) by nra.
  pose proof (rnd_ge _ _ _ Erm (Qle_refl _) Hxy) as Hm.
  pose proof (rnd_nonneg _ _ Erm Hxy) as Hm0.
  assert (H0 : 0 <= q0 + m) by lra.
  pose proof (rnd_ge _ _ _ Er (Qle_refl _) H0) as Hq1.
  pose proof (rnd_nonneg _ _ Er H0) as Hq10.
  assert (Hz : inject_Z (zlen (Fin x :: xg)) == 1 + inject_Z (zlen xg)).
  { rewrite zlen_cons, inject_Z_plus. reflexivity. }
  assert (Hn : 0 <= inject_Z (zlen xg)).
  { change 0 with (inject_Z 0). rewrite <- Zle_Qle. unfold zlen. lia. }
  destruct (IH r q1 s (S0 + x * y) (j + 1)) as (xs & rs & -> & -> & Hxs & Hrs & Hs & Hfin); try done.
  - lra.
  - lra.
  - lra.
  - assert (0 <= S0 * j) by nra. assert (x * y <= x * y * j) by nra.
    unfold u, tiny in *. lra.
  - exists (x :: xs), (y :: rs). repeat split; try done; try by apply Forall_cons_2.
    change (dot (x :: xs) (y :: rs)) with (x * y + dot xs rs). rewrite Hz. lra.
Qed.

(** ** The bound

    With at most 60 groups (the default is 40) the inflations cover the rounding of the sum. *)
Lemma bound_cases c xg r xn nv :
  length xg = length r -> Forall (above 0) xg -> Forall (above 0) r -> above 0 xn -> above 0 nv -> 0 <= c ->
  above 0 (bound rnd (Fin c) xg r xn nv) /\ isnan (bound rnd (Fin c) xg r xn nv) = false.
Proof.
  intros Hlen Hxg Hr Hxn Hnv Hc. unfold bound.
  assert (Hq : above 0 (qb_loop rnd (Fin 0) xg r)).
  { assert (H0 : above 0 (Fin 0)) by apply Qle_refl. revert H0. generalize (Fin 0).
    revert r Hlen Hr. induction Hxg as [|a xg Ha Hxg IH]; intros [|b r] Hlen Hr q0 Hq0; cbn [qb_loop]; try done.
    apply Forall_cons_1 in Hr as [Hb Hr]. apply IH; [by injection Hlen|done|].
    by apply add_pos, mul_pos. }
  match goal with |- context [isnan ?B] => assert (HB : above 0 B) by
    (apply mul_pos; [apply add_pos; apply mul_pos; try done; by apply mul_pos | done]); by destruct B end.
Qed.

Lemma bound_fin c xg r xn nv b :
  length xg = length r -> Forall (above 0) xg -> Forall (above 0) r -> above 0 xn -> above 0 nv ->
  0 <= c <= 1 -> (zlen xg <= 60)%Z ->
  bound rnd (Fin c) xg r xn nv = Fin b ->
  exists xs rs x n, xg = map Fin xs /\ r = map Fin rs /\ xn = Fin x /\ nv = Fin n /\
    0 <= x /\ 0 <= n /\ Forall (Qle 0) xs /\ Forall (Qle 0) rs /\ 0 <= b /\
    dot xs rs + c * (x * n) <= b + 200 * tiny.
Proof.
  intros Hlen Hxg Hr Hxn Hnv Hc HN E.
  pose proof (bound_cases c xg r xn nv Hlen Hxg Hr Hxn Hnv (proj1 Hc)) as [Hb _]. rewrite E in Hb. simpl in Hb.
  unfold bound in E. destruct (isnan _); [done|].
  destruct (mul_fin _ _ _ E) as (t4 & ? & E4 & [= <-] & EB).
  destruct (add_fin _ _ _ E4) as (t1 & t3 & E1 & E3 & R4).
  destruct (mul_fin _ _ _ E1) as (s & ? & Es & [= <-] & R1).
  destruct (mul_fin _ _ _ E3) as (? & t2 & [= <-] & E2 & R3).
  destruct (mul_fin _ _ _ E2) as (x & n & -> & -> & R2).
  assert (H60 : inject_Z (zlen xg) <= inject_Z 60) by (rewrite <- Zle_Qle; lia).
  change (inject_Z 60) with 60 in H60.
  assert (HZ : 0 <= inject_Z (zlen xg)).
  { change 0 with (inject_Z 0). rewrite <- Zle_Qle. unfold zlen. lia. }
  destruct (qb_loop_fin xg r 0 s 0 1) as (xs & rs & -> & -> & Hxs & Hrs & Hs & Hd); try done; [lra|].
  exists xs, rs, x, n. simpl in Hxn, Hnv. repeat (split; [done|]).
  pose proof (dot_nonneg xs rs Hxs Hrs) as Hd0. set (D := dot xs rs) in *.
  assert (Hs' : D * (1 - 61 * u) - 122 * tiny <= s).
  { set (k := inject_Z (zlen (map Fin xs))) in *. assert (D * k <= D * 60) by nra. unfold u, tiny in *. lra. }
  clear Hd. assert (Hxn' : 0 <= x * n) by nra.
  pose proof (rnd_ge _ _ _ R2 (Qle_refl _) Hxn') as G2. pose proof (rnd_nonneg _ _ R2 Hxn') as P2.
  assert (N3 : 0 <= c * t2) by nra.
  pose proof (rnd_ge _ _ _ R3 (Qle_refl _) N3) as G3. pose proof (rnd_nonneg _ _ R3 N3) as P3.
  assert (N1 : 0 <= s * infl_q) by (unfold infl_q; lra).
  pose proof (rnd_ge _ _ _ R1 (Qle_refl _) N1) as G1. pose proof (rnd_nonneg _ _ R1 N1) as P1.
  assert (N4 : 0 <= t1 + t3) by lra.
  pose proof (rnd_ge _ _ _ R4 (Qle_refl _) N4) as G4. pose proof (rnd_nonneg _ _ R4 N4) as P4.
  assert (N5 : 0 <= t4 * infl_b) by (unfold infl_b; lra).
  pose proof (rnd_ge _ _ _ EB (Qle_refl _) N5) as G5.
  assert (G3' : c * (x * n) * (1 - 2 * u) - 2 * tiny <= t3).
  { assert (c * (x * n * (1 - u) - tiny) <= c * t2) by nra.
    assert (c * tiny <= tiny) by (unfold tiny; lra).
    assert (0 <= c * (x * n)) by nra.
    unfold u, tiny in *. lra. }
  assert (0 <= c * (x * n)) by nra.
  clear - Hs' G1 G3' G4 G5 Hd0 H. set (C := c * (x * n)) in *.
  unfold u, tiny, infl_q, infl_b in *. lra.
Qed.

(** ** The epilogue *)

Lemma slop_cases a B :
  above 0 B -> isnan B = false ->
  above 0 (slop rnd (Fin a) B) /\ isnan (slop rnd (Fin a) B) = false.
Proof.
  intros HB HnB. unfold slop.
  assert (Ha : above 0 (fp_abs (Fin a))) by apply Qabs_nonneg.
  match goal with |- above 0 ?S /\ _ => assert (HS : above 0 S) by
    (apply add_pos; [apply mul_pos; [by apply add_pos|done]|done]) end.
  split; [exact HS|].
  assert (Hn : forall q, isnan (rnd q) = false) by (intros q; destruct (rnd q) eqn:E; try done; by apply rnd_num in E).
  assert (H1 : isnan (fp_add rnd (fp_abs (Fin a)) B) = false) by (destruct B; simpl; done || apply Hn).
  pose proof (add_pos _ _ Ha HB) as P1. revert H1 P1. generalize (fp_add rnd (fp_abs (Fin a)) B). intros t H1 P1.
  assert (H2 : isnan (fp_mul rnd t SLOP_REL) = false) by (destruct t; simpl; done || apply Hn).
  assert (P2 : above 0 (fp_mul rnd t SLOP_REL)) by by apply mul_pos.
  destruct (fp_mul rnd t SLOP_REL); simpl; done || apply Hn.
Qed.

(** The slop, where it is finite, is four units of the rounding, and no more than five. *)
Lemma slop_fin a b s :
  0 <= b -> slop rnd (Fin a) (Fin b) = Fin s ->
  0 <= s /\ (Qabs a + b) * (4 * u) * (1 - 4 * u) + slop_abs * (1 - u) - 4 * tiny <= s.
Proof.
  intros Hb E. unfold slop in E.
  destruct (add_fin _ _ _ E) as (m & ? & Em & [= <-] & R3).
  destruct (mul_fin _ _ _ Em) as (t & ? & Et & [= <-] & R2).
  destruct (add_fin _ _ _ Et) as (? & ? & [= <-] & [= <-] & R1).
  pose proof (Qabs_nonneg a) as Ha. set (A := Qabs a) in *.
  assert (N1 : 0 <= A + b) by lra.
  pose proof (rnd_ge _ _ _ R1 (Qle_refl _) N1) as G1. pose proof (rnd_nonneg _ _ R1 N1) as P1.
  assert (N2 : 0 <= t * slop_rel) by (unfold slop_rel; lra).
  pose proof (rnd_ge _ _ _ R2 (Qle_refl _) N2) as G2. pose proof (rnd_nonneg _ _ R2 N2) as P2.
  assert (N3 : 0 <= m + slop_abs) by (unfold slop_abs; lra).
  pose proof (rnd_ge _ _ _ R3 (Qle_refl _) N3) as G3. pose proof (rnd_nonneg _ _ R3 N3) as P3.
  split; [done|]. unfold slop_rel, slop_abs, u, tiny in *. lra.
Qed.

(** One rounded sum against the exact one. *)
Lemma rnd_sum q r : rnd q = Fin r -> q - u * Qabs q - tiny <= r <= q + u * Qabs q + tiny.
Proof. intros E. apply rnd_fin in E. apply Qabs_bounds in E. lra. Qed.

Lemma lo32_ok a b x :
  Qabs a <= FMAX -> 0 <= b -> a - b - 200 * tiny <= x ->
  match fp_sub rnd (fp_sub rnd (Fin a) (Fin b)) (slop rnd (Fin a) (Fin b)) with
  | NInf => True | Fin l => l <= x | _ => False end.
Proof.
  intros Ha Hb Hx. destruct (slop_cases a (Fin b) Hb eq_refl) as [HS HnS].
  apply Qabs_bounds in Ha as Ha'. unfold fp_sub at 1 2. cbn [fp_neg fp_add].
  destruct (rnd (a + - b)) as [| |s1|] eqn:E1.
  - by apply rnd_num in E1.
  - destruct (slop rnd (Fin a) (Fin b)); done.
  - destruct (slop rnd (Fin a) (Fin b)) as [| |s|] eqn:ES; try done. cbn [fp_neg fp_add].
    pose proof (rnd_max _ _ E1) as M1. apply Qabs_bounds in M1.
    pose proof (slop_fin a b s Hb ES) as [Hs0 Hs].
    destruct (rnd (s1 + - s)) as [| |l|] eqn:E2; [by apply rnd_num in E2|done| |].
    + pose proof (rnd_sum _ _ E1) as G1. pose proof (rnd_sum _ _ E2) as G2.
      assert (Qabs (a + - b) <= Qabs a + b).
      { apply Qabs_Qle_condition. pose proof (Qabs_bounds a (Qabs a) (Qle_refl _)). lra. }
      assert (Qabs (s1 + - s) <= (Qabs a + b) * (1 + u) + tiny + s).
      { apply Qabs_Qle_condition. pose proof (Qabs_bounds a (Qabs a) (Qle_refl _)). unfold u, tiny in *. lra. }
      pose proof (Qabs_nonneg a). unfold slop_abs, u, tiny in *. lra.
    + apply rnd_over in E2. lra.
  - apply rnd_over in E1. lra.
Qed.

Lemma hi32_ok a b x :
  Qabs a <= FMAX -> 0 <= b -> x <= a + b + 200 * tiny ->
  match fp_add rnd (fp_add rnd (Fin a) (Fin b)) (slop rnd (Fin a) (Fin b)) with
  | PInf => True | Fin h => x <= h | _ => False end.
Proof.
  intros Ha Hb Hx. destruct (slop_cases a (Fin b) Hb eq_refl) as [HS HnS].
  apply Qabs_bounds in Ha as Ha'. cbn [fp_add].
  destruct (rnd (a + b)) as [| |s1|] eqn:E1.
  - by apply rnd_num in E1.
  - apply rnd_under in E1. lra.
  - destruct (slop rnd (Fin a) (Fin b)) as [| |s|] eqn:ES; try done. cbn [fp_add].
    pose proof (rnd_max _ _ E1) as M1. apply Qabs_bounds in M1.
    pose proof (slop_fin a b s Hb ES) as [Hs0 Hs].
    destruct (rnd (s1 + s)) as [| |l|] eqn:E2; [by apply rnd_num in E2| | |done].
    + apply rnd_under in E2. lra.
    + pose proof (rnd_sum _ _ E1) as G1. pose proof (rnd_sum _ _ E2) as G2.
      assert (Qabs (a + b) <= Qabs a + b).
      { apply Qabs_Qle_condition. pose proof (Qabs_bounds a (Qabs a) (Qle_refl _)). lra. }
      assert (Qabs (s1 + s) <= (Qabs a + b) * (1 + u) + tiny + s).
      { apply Qabs_Qle_condition. pose proof (Qabs_bounds a (Qabs a) (Qle_refl _)). unfold u, tiny in *. lra. }
      pose proof (Qabs_nonneg a). unfold slop_abs, u, tiny in *. lra.
  - destruct (slop rnd (Fin a) (Fin b)); done.
Qed.

(** The screen's two values bracket the exact logit, whatever overflows on the way. *)
Lemma screen_brackets acc B l stop :
  above 0 B -> isnan B = false ->
  (forall a, acc = Fin a -> Qabs a <= FMAX) ->
  (forall a b, acc = Fin a -> B = Fin b -> Qabs (l - a) <= b + 200 * tiny) ->
  fp_le (screen_lo rnd bf stop acc B) (bf l) = true /\ fp_le (bf l) (screen_hi rnd bf stop acc B) = true.
Proof.
  intros HB HnB Hmax Hl. pose proof (bf_num l) as Hnl.
  assert (HlowN : fp_le NInf (bf l) = true) by (by destruct (bf l)).
  assert (HhiP : fp_le (bf l) PInf = true) by (by destruct (bf l)).
  unfold screen_lo, screen_hi. destruct stop; [done|].
  destruct acc as [| |a|]; cbn [isfinite negb orb]; try done.
  specialize (Hmax a eq_refl). destruct B as [| |b|]; try done.
  - specialize (Hl a b eq_refl eq_refl). apply Qabs_bounds in Hl.
    pose proof (lo32_ok a b l Hmax HB ltac:(lra)) as Hlo. pose proof (hi32_ok a b l Hmax HB ltac:(lra)) as Hhi.
    split.
    + destruct (fp_sub rnd (fp_sub rnd (Fin a) (Fin b)) _) as [| |l'|]; try done. cbn [to_bf16].
      destruct (isnan (bf l')); [done|]. by apply bf_mono.
    + destruct (fp_add rnd (fp_add rnd (Fin a) (Fin b)) _) as [| |l'|]; try done. cbn [to_bf16].
      destruct (isnan (bf l')); [done|]. by apply bf_mono.
Qed.

Lemma screen_lo_num acc B stop : isnan (screen_lo rnd bf stop acc B) = false.
Proof. unfold screen_lo. destruct stop; [done|]. by destruct (negb _ || isnan _) eqn:E; [|apply orb_false_iff in E as [_ ->]]. Qed.
End Bounds.

(** ** The order of the values *)
Lemma Qle_bool_gt x y : Qle_bool x y = false <-> (y < x)%Q.
Proof.
  split; intros H.
  - destruct (Qlt_le_dec y x) as [|Hle]; [done|]. apply Qle_bool_iff in Hle. congruence.
  - destruct (Qle_bool x y) eqn:E; [|done]. apply Qle_bool_iff in E. lra.
Qed.

Lemma fp_lt_Fin x y : fp_lt (Fin x) (Fin y) = true <-> (x < y)%Q.
Proof. simpl. rewrite negb_true_iff. apply Qle_bool_gt. Qed.

Lemma fp_lt_irrefl a : fp_lt a a = false.
Proof. destruct a as [| |x|]; try done. simpl. apply negb_false_iff, Qle_bool_iff, Qle_refl. Qed.

Lemma fp_lt_trans a b c : fp_lt a b = true -> fp_lt b c = true -> fp_lt a c = true.
Proof.
  destruct a as [| |x|], b as [| |y|], c as [| |z|]; try done. rewrite !fp_lt_Fin. intros. lra.
Qed.

Lemma fp_lt_split a b c : fp_lt a c = true -> isnan b = false -> fp_lt a b = true \/ fp_lt b c = true.
Proof.
  destruct a as [| |x|], b as [| |y|], c as [| |z|]; try done; try (by left); try (by right).
  rewrite !fp_lt_Fin. intros H _. destruct (Qlt_le_dec x y); [by left|right; lra].
Qed.

Lemma fp_le_iff a b : fp_le a b = true <-> isnan a = false /\ isnan b = false /\ fp_lt b a = false.
Proof. destruct a as [| |x|], b as [| |y|]; simpl; rewrite ?negb_true_iff; naive_solver. Qed.

Lemma fp_lt_le_trans a b c : fp_lt a b = true -> fp_le b c = true -> fp_lt a c = true.
Proof.
  intros H (_ & Hc & Hn)%fp_le_iff. destruct (fp_lt_split a c b H Hc) as [|H1]; [done|]. congruence.
Qed.

Lemma fp_le_lt_trans a b c : fp_le a b = true -> fp_lt b c = true -> fp_lt a c = true.
Proof.
  intros (Ha & _ & Hn)%fp_le_iff H. destruct (fp_lt_split b a c H Ha) as [H1|]; [|done]. congruence.
Qed.

Lemma fp_not_le a b : isnan a = false -> isnan b = false -> fp_le a b = false -> fp_lt b a = true.
Proof. intros Ha Hb H. destruct (fp_lt b a) eqn:E; [done|]. by rewrite (proj2 (fp_le_iff a b)) in H. Qed.

(** A fold of maxima over numbers: an element of the list, or the start; above all of them. *)
Lemma fp_max_fold l a :
  isnan a = false -> Forall (fun x => isnan x = false) l ->
  let T := foldl fp_max a l in
  isnan T = false /\ (T = a \/ T ∈ l) /\ fp_le a T = true /\ Forall (fun x => fp_le x T = true) l.
Proof.
  intros Ha Hl. revert a Ha. induction Hl as [|x l Hx Hl IH]; intros a Ha; cbn [foldl].
  { repeat split; [done|by left|apply fp_le_iff; by rewrite fp_lt_irrefl|constructor]. }
  assert (Hm : isnan (fp_max a x) = false) by (unfold fp_max; by case_match).
  destruct (IH (fp_max a x) Hm) as (HT & Hin & Hge & Hall). set (T := foldl fp_max (fp_max a x) l) in *.
  assert (Hstep : fp_le a (fp_max a x) = true /\ fp_le x (fp_max a x) = true).
  { unfold fp_max. destruct (fp_lt a x) eqn:E; rewrite !fp_le_iff, ?fp_lt_irrefl; repeat split; try done.
    destruct (fp_lt x a) eqn:E2; [|done]. pose proof (fp_lt_trans a x a E E2) as H. by rewrite fp_lt_irrefl in H. }
  assert (Htr : forall y, fp_le y (fp_max a x) = true -> fp_le y T = true).
  { intros y (Hy & _ & Hny)%fp_le_iff. apply fp_le_iff. repeat split; [done|done|].
    destruct (fp_lt T y) eqn:E; [|done].
    by rewrite (fp_le_lt_trans _ _ _ Hge E) in Hny. }
  split; [done|]. split; [|split; [by apply Htr, Hstep|constructor; [by apply Htr, Hstep|done]]].
  destruct Hin as [->|Hin]; [|right; by right]. unfold fp_max. case_match; [right; left|by left].
Qed.

(** ** Cauchy and Schwarz, without square roots *)
Section CauchySchwarz.
#[local] Open Scope Q_scope.

Definition sq (a : list Q) : Q := dot a a.

Lemma dot_cons x y a b : dot (x :: a) (y :: b) == x * y + dot a b.
Proof. reflexivity. Qed.

Lemma sq_nonneg a : 0 <= sq a.
Proof. unfold sq. induction a as [|x a IH]; [by simpl|]. rewrite dot_cons. nra. Qed.

Lemma dot_zero a b : sq a <= 0 -> dot a b == 0.
Proof.
  unfold sq. revert b. induction a as [|x a IH]; intros [|y b]; try reflexivity. rewrite !dot_cons. intros H.
  pose proof (sq_nonneg a) as Ha. unfold sq in Ha.
  assert (dot a a <= 0) by nra. assert (x * x <= 0) by nra. rewrite IH by done.
  assert (x == 0) as -> by nra. ring.
Qed.

Lemma dot_comm a b : dot a b == dot b a.
Proof. revert b. induction a as [|x a IH]; intros [|y b]; try reflexivity. rewrite !dot_cons, IH. ring. Qed.

Lemma dot_weighted a b r s : 2 * (r * s) * dot a b <= s * s * sq a + r * r * sq b.
Proof.
  revert b. induction a as [|x a IH]; intros [|y b].
  - unfold sq. change (dot [] []) with 0. lra.
  - change (dot [] (y :: b)) with 0. pose proof (sq_nonneg (y :: b)). change (sq []) with 0. nra.
  - change (dot (x :: a) []) with 0. pose proof (sq_nonneg (x :: a)). change (sq []) with 0. nra.
  - specialize (IH b). unfold sq in *. rewrite !dot_cons.
    assert (Hsq : forall z, 0 <= z * z) by (intros z; nra). specialize (Hsq (s * x - r * y)). nra.
Qed.

Lemma dot_bound a b r s :
  0 <= r -> 0 <= s -> sq a <= r * r -> sq b <= s * s -> dot a b <= r * s.
Proof.
  intros Hr Hs Ha Hb. destruct (Qlt_le_dec 0 (r * s)) as [Hrs|Hrs].
  - pose proof (dot_weighted a b r s) as H.
    assert (s * s * sq a <= s * s * (r * r)) by nra. assert (r * r * sq b <= r * r * (s * s)) by nra.
    apply (Qmult_le_l _ _ (r * s) Hrs). nra.
  - destruct (Qlt_le_dec 0 r) as [H1|H1].
    + assert (s == 0) as Hs0 by (destruct (Qlt_le_dec 0 s); [nra|lra]). rewrite dot_comm, dot_zero; [nra|]. rewrite Hs0 in Hb. lra.
    + assert (r == 0) as Hr0 by lra. rewrite dot_zero; [nra|]. rewrite Hr0 in Ha. lra.
Qed.

Lemma dot_opp a b : dot (map Qopp a) b == - dot a b.
Proof. revert b. induction a as [|x a IH]; intros [|y b]; try reflexivity. cbn [map]. rewrite !dot_cons, IH. ring. Qed.

Lemma sq_opp a : sq (map Qopp a) == sq a.
Proof. unfold sq. induction a as [|x a IH]; [reflexivity|]. cbn [map]. rewrite !dot_cons, IH. ring. Qed.

Lemma dot_bound_abs a b r s :
  0 <= r -> 0 <= s -> sq a <= r * r -> sq b <= s * s -> Qabs (dot a b) <= r * s.
Proof.
  intros Hr Hs Ha Hb. apply Qabs_Qle_condition.
  pose proof (dot_bound a b r s Hr Hs Ha Hb). pose proof (dot_bound (map Qopp a) b r s Hr Hs) as H2.
  rewrite sq_opp, dot_opp in H2. specialize (H2 Ha Hb). lra.
Qed.

Lemma dot_app a b c d : length a = length c -> dot (a ++ b) (c ++ d) == dot a c + dot b d.
Proof.
  revert c. induction a as [|x a IH]; intros [|y c]; try done.
  - intros _. change (dot [] []) with 0. simpl. lra.
  - intros [= H]. cbn [app]. rewrite !dot_cons, IH by done. ring.
Qed.

Lemma dot_sub a b x : length a = length b -> dot (zip_with Qminus a b) x == dot a x - dot b x.
Proof.
  revert b x. induction a as [|p a IH]; intros [|q b] [|y x]; try done; try reflexivity.
  intros [= H]. cbn [zip_with]. rewrite !dot_cons, IH by done. ring.
Qed.

(** By groups: the products of the groups' norms bound the product. *)
Lemma dot_groups (als xls : list (list Q)) rs gs :
  Forall2 (fun a r => 0 <= r /\ sq a <= r * r) als rs ->
  Forall2 (fun x g => 0 <= g /\ sq x <= g * g) xls gs ->
  Forall2 (fun a x => length a = length x) als xls ->
  Qabs (dot (concat als) (concat xls)) <= dot gs rs.
Proof.
  intros Ha. revert xls gs. induction Ha as [|a r als rs [Hr0 Hr] Ha IH]; intros xls gs Hx Hl.
  - apply Forall2_nil_inv_l in Hl. subst. apply Forall2_nil_inv_l in Hx. subst. apply Qle_refl.
  - destruct xls as [|x xls]; [by apply Forall2_cons_nil_inv in Hl|].
    apply Forall2_cons_1 in Hl as [Hax Hl]. destruct gs as [|g gs]; [by apply Forall2_cons_nil_inv in Hx|].
    apply Forall2_cons_1 in Hx as [[Hg0 Hg] Hx]. cbn [concat]. rewrite dot_app, dot_cons by done.
    specialize (IH xls gs Hx Hl). eapply Qle_trans; [apply Qabs_triangle|].
    pose proof (dot_bound_abs a x r g Hr0 Hg0 Hr Hg). lra.
Qed.

Lemma sq_groups (xls : list (list Q)) gs :
  Forall2 (fun x g => 0 <= g /\ sq x <= g * g) xls gs -> sq (concat xls) <= sq gs.
Proof.
  induction 1 as [|x g xls gs [_ H] _ IH]; [unfold sq; simpl; lra|].
  unfold sq in *. cbn [concat]. rewrite dot_app, dot_cons by done. lra.
Qed.
End CauchySchwarz.
