(* ===== verification/CertHead.v ===== *)
(** * The certified LM head (adapter/cert_head.py)

    A screen of the head's rows from a coarse copy decides which tiles of the exact logits
    can hold a row's argmax; the others are written as minus infinity.  Modelled: the
    settings and their agreement over the ranks, the float operations of the screen's
    epilogue with an abstract rounding, the atomic maximum over programs in any order, the
    refine kernel, the rule that arms a step, the host's flag and stop-id buffers, and the
    replacement of the head's matmul.  The matrix products, the norms and the tables are
    parameters, with the bounds they are built to satisfy as laws; table construction, the
    checks of the engine's module and the log lines are not modelled. *)
From S2P Require Import Prelude PyStr Dist CertFloat.
#[local] Open Scope string_scope.
#[local] Open Scope list_scope.
#[local] Open Scope Z_scope.

(** ** Settings *)

Definition OFF : list string := [""; "0"; "off"; "false"; "no"].
Definition MAX_M : Z := 128.
Definition NSTOP : Z := 64.
Definition CONFIG_KEYS : list string :=
  ["DSV41_CERT_HEAD"; "DSV41_CERT_HEAD_M"; "DSV41_CERT_HEAD_GROUP"; "DSV41_CERT_HEAD_TILE";
   "DSV41_CERT_HEAD_EXACT"].

Inductive head_mode := Stock | Certified | CheckOnly.

#[export] Instance head_mode_eq_dec : EqDecision head_mode.
Proof. solve_decision. Defined.

(** [mode()], from the value [env] gave: an empty value counts as "0". *)
Definition mode (v : string) : head_mode :=
  let v := lower (strip (if String.eqb v "" then "0" else v)) in
  if one_of v OFF then Stock else if String.eqb v "check" then CheckOnly else Certified.

Definition enabled_anywhere (env : environ) : bool :=
  negb (one_of (lower (strip (env_get env "DSV41_CERT_HEAD" "0"))) OFF).

(** [part.partition("-")], without the separator. *)
Definition partition_dash (s : string) : string * string := default (s, "") (split1 "-" s).

Definition parse_m_part (part : string) : res (list Z) :=
  let '(a, b) := partition_dash part in
  lo ← py_int a;
  hi ← py_int (if String.eqb b "" then a else b);
  if (1 <=? lo) && (lo <=? hi) && (hi <=? MAX_M) then Ok (zrange lo (hi + 1)) else Raise ValueError.

Definition parse_m (spec : string) : res (gset Z) :=
  ls ← mapR parse_m_part (filter (fun p => p <> "") (map strip (split_all (Ascii.ascii_of_nat 44) spec)));
  Ok (list_to_set (concat ls)).

(** [config_hash]: 56 bits of a digest of the settings, as a number. *)
Definition config_hash (digest : string -> Z) (env : environ) : Z :=
  digest (String.concat "|" (map (fun k => k +:+ "=" +:+ env_get env k "") CONFIG_KEYS)).

(** [tp_agree] on every rank, given whether its tables were built and its hash;
    [all_reduce] gives every rank what the MAX-all-reduce left in its tensor, or raises. *)
Definition tp_agree (all_reduce : list (list Z) -> list (res (list Z))) (ranks : list (bool * Z)) : list bool :=
  if zlen ranks =? 1 then map fst ranks
  else
    zip_with (fun (r : bool * Z) (t : res (list Z)) =>
      match t with
      | Ok [failed; hmax; hneg] =>
          if negb (failed =? 0) then false else if negb (hmax =? - hneg) then false else r.1
      | _ => false
      end) ranks
      (all_reduce (map (fun r : bool * Z => [if r.1 then 0 else 1; r.2; - r.2]) ranks)).

(** [c_acc(K)]: the accumulation bound per unit of the norms. *)
Definition c_acc (K : Z) : Q := (inject_Z K / 16 * 17 * (1 # 2 ^ 23))%Q.

Example parse_m_doc : parse_m "6, 12-14,," = Ok {[6; 12; 13; 14]}.
Proof. vm_compute. reflexivity. Qed.
Example parse_m_bad : parse_m "6,129" = Raise ValueError.
Proof. vm_compute. reflexivity. Qed.

(** [_xnorm_kernel] for one row: the groups' norms and the row's, inflated; [root] is the
    root of the sum of the squares. *)
Section Kernels.
Context (rnd bf : Q -> fp) (root : list fp -> fp) (mma_screen : list fp -> list fp -> fp).

(** [x.view(NG, G)]. *)
Fixpoint groups {A} (NG G : nat) (x : list A) : list (list A) :=
  match NG with O => [] | S n => take G x :: groups n G (drop G x) end.

Definition xnorm_xg (NG G : nat) (x : list fp) : list fp :=
  map (fun g => fp_add rnd (fp_mul rnd (root g) INFL_X) X_ABS) (groups NG G x).
Definition xnorm_xn (xg : list fp) : fp := fp_mul rnd (root xg) INFL_X.
Definition xnorm_bad (xn : fp) : bool := isnan xn || match xn with PInf => true | _ => false end.

(** ** A rank's tables *)
Record State := mkState {
  st_W : list (list Q);    (* V rows of K weights *)
  st_q : list (list Z);    (* int8 copy *)
  st_e : list (list Z);    (* an exponent byte per 32 weights *)
  st_rt : list (list fp);  (* residual norms, NG per row: [rt] transposed *)
  st_nv : list fp;
  st_V : nat; st_K : nat; st_group : nat;
  st_vstart : Z }.

(** A row of the screening copy as the kernel builds it: [(w * sc).to(bfloat16)]. *)
Definition deq (q e : list Z) : list fp :=
  imap (fun k w => let eb : Z := nth (k / 32)%nat e 0 in to_bf16 bf (rnd (inject_Z w * Qpower 2 (eb - 127))%Q)) q.

Definition c2 (st : State) : fp := let c := c_acc (Z.of_nat (st_K st)) in Fin (2 * c)%Q.
Definition NG (st : State) : nat := (st_K st / st_group st)%nat.

(** ** The screen kernel *)
Definition screen_acc (st : State) (x : list fp) (v : nat) : fp :=
  mma_screen x (deq (nth v (st_q st) []) (nth v (st_e st) [])).
Definition screen_B (st : State) (x : list fp) (v : nat) : fp :=
  let xg := xnorm_xg (NG st) (st_group st) x in
  bound rnd (c2 st) xg (nth v (st_rt st) []) (xnorm_xn xg) (nth v (st_nv st) NaN).
Definition isstop (st : State) (stop : list Z) (v : nat) : bool :=
  existsb (Z.eqb (st_vstart st + Z.of_nat v)) stop.

Definition lo_row (st : State) (stop : list Z) (x : list fp) : list fp :=
  map (fun v => screen_lo rnd bf (isstop st stop v) (screen_acc st x v) (screen_B st x v)) (seq 0 (st_V st)).
Definition hi_row (st : State) (stop : list Z) (x : list fp) : list fp :=
  map (fun v => screen_hi rnd bf (isstop st stop v) (screen_acc st x v) (screen_B st x v)) (seq 0 (st_V st)).

(** [tl.max(lof, axis=1)] of program [pid]: lanes past [V] hold minus infinity. *)
Definition program_max (SBN : nat) (lo : list fp) (pid : nat) : fp :=
  foldl fp_max NInf (map (fun i => nth (pid * SBN + i)%nat lo NInf) (seq 0 SBN)).

(** [tl.atomic_max(THR + m, ..)] by the programs in the order they ran. *)
Definition threshold (SBN : nat) (order : list nat) (lo : list fp) : fp :=
  foldl (fun T pid => fp_max T (program_max SBN lo pid)) NInf order.

(** ** The refine kernel *)

Definition lane_hit (V j : nat) (hi : list fp) (T : fp) : bool :=
  fp_le T (if (j <? V)%nat then nth j hi NInf else NInf).

Definition need (full : bool) (V BV pid : nat) (his : list (list fp)) (thr : list fp) (bad : list bool) : bool :=
  full
  || existsb (fun mt : list fp * fp => existsb (fun i => lane_hit V (pid * BV + i) mt.1 mt.2) (seq 0 BV))
       (zip his thr)
  || existsb id bad.

(** Columns of tile [pid]: [j < V]. *)
Definition tile_cols (V BV pid : nat) : list nat := filter (fun j => (j < V)%nat) (map (fun i => pid * BV + i)%nat (seq 0 BV)).

Definition refine_tile (exact : nat -> fp) (nd : bool) (V BV pid : nat) : list fp :=
  map (fun j => if nd then exact j else NInf) (tile_cols V BV pid).

Definition ntiles (V BV : nat) : nat := ((V + BV - 1) / BV)%nat.

(** ** [certified_logits]

    [hi0], [thr0] and [bad0] are the contents of the buffers before the launches, [order]
    the order of the screen's programs. *)
Definition certified_logits (exact_mm : list fp -> list fp -> fp) (SBN XBV : nat) (order : list nat)
    (hi0 : list (list fp)) (thr0 : list fp) (bad0 : list bool)
    (flag : Z) (stop : list Z) (st : State) (x : list (list fp)) : list (list fp) :=
  let full := flag =? 0 in
  let bad := if full then bad0
             else map (fun r => xnorm_bad (xnorm_xn (xnorm_xg (NG st) (st_group st) r))) x in
  let hi := if full then hi0 else map (hi_row st stop) x in
  let thr := if full then thr0 else map (fun r => threshold SBN order (lo_row st stop r)) x in
  map (fun r =>
    concat (map (fun pid =>
      refine_tile (fun j => to_bf16 bf (exact_mm r (map Fin (nth j (st_W st) []))))
        (need full (st_V st) XBV pid hi thr bad) (st_V st) XBV pid)
      (seq 0 (ntiles (st_V st) XBV)))) x.

(** [torch.matmul(x, W.T)] in bf16. *)
Definition stock_logits (stock_mm : list fp -> list fp -> fp) (st : State) (x : list (list fp)) : list (list fp) :=
  map (fun r => map (fun v => to_bf16 bf (stock_mm r (map Fin (nth v (st_W st) [])))) (seq 0 (st_V st))) x.
End Kernels.

(** ** Check mode *)

(** [torch.argmax] counts not a number as the largest value. *)
Definition arg_lt (a b : fp) : bool := if isnan a then false else isnan b || fp_lt a b.
Definition fp_ne (a b : fp) : bool := fp_lt a b || fp_lt b a || isnan a || isnan b.
Definition count {A} (p : A -> bool) (l : list A) : Z := zlen (filter (fun x => p x = true) l).

Record Counters := mkCounters {
  steps : Z; cert_steps : Z; arg_mismatch : Z; value_mismatch : Z;
  computed_mismatch : Z; full_mismatch : Z; n_rows : Z }.

Definition _check (flag : Z) (stock cert : list (list fp)) (c : Counters) : Counters :=
  let full := flag =? 0 in
  let pairs := zip stock cert in
  let top (r : list fp) := argmax_by arg_lt r in
  let cells := concat (map (fun ab : list fp * list fp => zip ab.1 ab.2) pairs) in
  {| steps := steps c + 1;
     cert_steps := cert_steps c + (if full then 0 else 1);
     arg_mismatch := arg_mismatch c + count (fun ab : list fp * list fp => negb (Nat.eqb (top ab.1) (top ab.2))) pairs;
     value_mismatch := value_mismatch c +
       count (fun ab : list fp * list fp => fp_ne (nth (top ab.1) ab.1 NaN) (nth (top ab.2) ab.2 NaN)) pairs;
     computed_mismatch := computed_mismatch c + count (fun ab : fp * fp => fp_ne ab.1 ab.2 && fp_ne ab.2 NInf) cells;
     full_mismatch := full_mismatch c + (if full then count (fun ab : fp * fp => fp_ne ab.1 ab.2) cells else 0);
     n_rows := n_rows c + zlen stock |}.

(** ** The engine's two methods *)

(** What [_get_logits] tests before it sets [ctx["on"]]; the setting lasts for that call. *)
Definition ctx_on (built self_is_lp same_head : bool) (target_verify : option bool) : bool :=
  built && self_is_lp && same_head && default false target_verify.

(** [_compute_lm_head]: which path a call takes, [M] rows of [dim] dimensions. *)
Definition route (QUALIFIED_M : gset Z) (on has_bias same_weight : bool) (md : head_mode) (M dim : Z) : head_mode :=
  if negb on || has_bias || (if md is Stock then true else false) || negb (bool_decide (M ∈ QUALIFIED_M))
     || negb (dim =? 2) || negb same_weight
  then Stock else md.

Definition _compute_lm_head (r : head_mode) (flag : Z) (stock cert : list (list fp)) (c : Counters) :
    list (list fp) * Counters :=
  match r with
  | Stock => (stock, c)
  | Certified => (cert, c)
  | CheckOnly => (stock, _check flag stock cert c)
  end.

(** ** The host side *)
Record Tokenizer := { additional_stop_token_ids : option (list (option Z)); eos_token_id : option Z }.
Record Req := mkReq {
  stop_token_ids : option (list (option Z));
  eos_token_ids : option (list (option Z));
  tokenizer : option Tokenizer;
  cert_stop : option (gset Z) }.

Definition compute_stop_ids (req : Req) : gset Z :=
  list_to_set (omap id
    (default [] (stop_token_ids req) ++ default [] (eos_token_ids req)
     ++ match tokenizer req with
        | None => []
        | Some tok => default [] (additional_stop_token_ids tok) ++ [eos_token_id tok]
        end)).

(** The ids, and the request with the cache filled. *)
Definition _req_stop_ids (req : Req) : gset Z * Req :=
  match cert_stop req with
  | Some got => (got, req)
  | None => let got := compute_stop_ids req in
            (got, mkReq (stop_token_ids req) (eos_token_ids req) (tokenizer req) (Some got))
  end.

Record Penalizers := { is_required : bool; penalizers : list (bool * string) (* prepared, type *) }.
Record SamplingInfo := {
  is_all_greedy : bool; has_custom_logit_processor : bool; logit_bias : bool; grammar_mask : bool;
  penalizer_orchestrator : option Penalizers }.
Record Batch := mkBatch {
  return_logprob : bool; has_grammar : bool; sampling_info : option SamplingInfo; reqs : list Req }.

Definition set_reqs (b : Batch) (rs : list Req) : Batch :=
  mkBatch (return_logprob b) (has_grammar b) (sampling_info b) rs.

(** [stops |= _req_stop_ids(req)] over the requests. *)
Definition union_stops (rs : list Req) : gset Z := ⋃ (map (fun r => (_req_stop_ids r).1) rs).

Definition sorted_ids (s : gset Z) : list Z := merge_sort Z.le (elements s).

Definition step_armed (b : Batch) : bool * list Z * Batch :=
  if return_logprob b || has_grammar b then (false, [], b)
  else match sampling_info b with
  | None => (true, [], b)
  | Some si =>
      if negb (is_all_greedy si) || has_custom_logit_processor si || logit_bias si || grammar_mask si
      then (false, [], b)
      else match penalizer_orchestrator si with
      | Some pen =>
          if negb (is_required pen) then (true, [], b)
          else if existsb (fun p : bool * string => p.1 && negb (String.eqb p.2 "BatchedMinNewTokensPenalizer"))
                    (penalizers pen)
          then (false, [], b)
          else
            let stops := union_stops (reqs b) in
            let b' := set_reqs b (map (fun r => (_req_stop_ids r).2) (reqs b)) in
            if NSTOP <? Z.of_nat (size stops) then (false, [], b') else (true, sorted_ids stops, b')
      | None => (true, [], b)
      end
  end.

Record Buffers := mkBuffers { flag : Z; flag_host : Z; stop : list Z; stop_host : list Z }.
Definition new_buffers : Buffers := mkBuffers 0 0 (replicate (Z.to_nat NSTOP) (-1)) [].

Definition set_flag (bufs : option Buffers) (armed : bool) : option Buffers :=
  match bufs with
  | None => None
  | Some b => let v := if armed then 1 else 0 in
              if flag_host b =? v then Some b else Some (mkBuffers v v (stop b) (stop_host b))
  end.

(** [t[:len(ids)] = ids] of a tensor of [NSTOP] slots: more ids than slots raise. *)
Definition set_stop (bufs : option Buffers) (ids : list Z) : res (option Buffers) :=
  match bufs with
  | None => Ok None
  | Some b =>
      if bool_decide (stop_host b = ids) then Ok bufs
      else if NSTOP <? zlen ids then Raise RuntimeError
      else Ok (Some (mkBuffers (flag b) (flag_host b) (ids ++ replicate (Z.to_nat NSTOP - length ids) (-1)) ids))
  end.

Record Host := mkHost { bufs : option Buffers; verify_calls : Z; armed_calls : Z }.

(** The calls of the engine, each before its forward runs. *)
Definition run_non_compact (h : Host) (b : Batch) : res (Host * Batch) :=
  let '(armed, stops, b') := step_armed b in
  bf1 ← (if armed && negb (bool_decide (stops = [])) then set_stop (bufs h) stops else Ok (bufs h));
  Ok (mkHost (set_flag bf1 armed) (verify_calls h + 1) (armed_calls h + (if armed then 1 else 0)), b').
Definition run_compact (h : Host) : Host := mkHost (set_flag (bufs h) false) (verify_calls h) (armed_calls h).
Definition run_idle_participation (h : Host) : Host := mkHost (set_flag (bufs h) false) (verify_calls h) (armed_calls h).

Inductive call := NonCompact (b : Batch) | Compact | Idle.

Fixpoint run (h : Host) (cs : list call) : res Host :=
  match cs with
  | [] => Ok h
  | NonCompact b :: cs' => hb ← run_non_compact h b; run (hb.1) cs'
  | Compact :: cs' => run (run_compact h) cs'
  | Idle :: cs' => run (run_idle_participation h) cs'
  end.

(** ** Agreement of the ranks *)

Fixpoint zmax (d : Z) (l : list Z) : Z := match l with [] => d | x :: l' => Z.max x (zmax d l') end.

Lemma zmax_ge d l x : x ∈ l -> x <= zmax d l.
Proof. induction 1; simpl; lia. Qed.

(** If a rank keeps its tables, all ranks built theirs from the same settings. *)
Lemma tp_agree_unanimous all_reduce ranks k :
  (forall ts i t, all_reduce ts !! i = Some (Ok t) ->
     t = [zmax 0 (map (fun u => nth 0 u 0) ts); zmax (nth 1 (nth 0 ts []) 0) (map (fun u => nth 1 u 0) ts);
          zmax (nth 2 (nth 0 ts []) 0) (map (fun u => nth 2 u 0) ts)]) ->
  1 < zlen ranks -> tp_agree all_reduce ranks !! k = Some true ->
  exists h, forall r, r ∈ ranks -> r = (true, h).
Proof.
  intros Hred Hn H. unfold tp_agree in H. destruct (zlen ranks =? 1) eqn:E1; [lia|].
  apply lookup_zip_with_Some in H as (r0 & t & H & _ & Ht).
  set (ts := map _ ranks) in *. destruct t as [t|]; [|done].
  rewrite (Hred ts k t Ht) in H.
  destruct (zmax 0 (map (fun u => nth 0 u 0) ts) =? 0) eqn:Ef; [|done]. cbn [negb] in H.
  destruct (zmax (nth 1 (nth 0 ts []) 0) (map (fun u => nth 1 u 0) ts) =? - zmax (nth 2 (nth 0 ts []) 0) (map (fun u => nth 2 u 0) ts)) eqn:Eh;
    [|done]. clear H.
  exists (zmax (nth 1 (nth 0 ts []) 0) (map (fun u => nth 1 u 0) ts)). intros [ok h] Hr.
  assert (Hin : [if ok then 0 else 1; h; - h] ∈ ts) by (apply list_elem_of_fmap; by exists (ok, h)).
  pose proof (zmax_ge 0 (map (fun u => nth 0 u 0) ts) (if ok then 0 else 1)
    ltac:(apply list_elem_of_fmap; by exists [if ok then 0 else 1; h; - h])) as H0.
  pose proof (zmax_ge (nth 1 (nth 0 ts []) 0) (map (fun u => nth 1 u 0) ts) h
    ltac:(apply list_elem_of_fmap; by exists [if ok then 0 else 1; h; - h])) as H1.
  pose proof (zmax_ge (nth 2 (nth 0 ts []) 0) (map (fun u => nth 2 u 0) ts) (- h)
    ltac:(apply list_elem_of_fmap; by exists [if ok then 0 else 1; h; - h])) as H2.
  destruct ok; [|lia]. f_equal. lia.
Qed.

(** ** The host's buffers *)

(** The stop ids the penalizer of a batch may mask. *)
Definition batch_stops (b : Batch) : gset Z :=
  match sampling_info b with
  | Some si => match penalizer_orchestrator si with
               | Some pen => if is_required pen then union_stops (reqs b) else ∅
               | None => ∅
               end
  | None => ∅
  end.

Definition buffers_ok (b : Buffers) : Prop :=
  flag b = flag_host b /\ zlen (stop_host b) <= NSTOP /\
  stop b = stop_host b ++ replicate (Z.to_nat NSTOP - length (stop_host b)) (-1).

Lemma new_buffers_ok : buffers_ok new_buffers.
Proof. done. Qed.

Lemma sorted_ids_spec s : (forall i, i ∈ sorted_ids s <-> i ∈ s) /\ zlen (sorted_ids s) = Z.of_nat (size s).
Proof.
  unfold sorted_ids, zlen. pose proof (merge_sort_Permutation Z.le (elements s)) as HP. split.
  - intros i. by rewrite HP, elem_of_elements.
  - by rewrite HP.
Qed.

Lemma step_armed_spec b stops b' :
  step_armed b = (true, stops, b') -> (forall i, i ∈ stops <-> i ∈ batch_stops b) /\ zlen stops <= NSTOP.
Proof.
  unfold step_armed, batch_stops. intros H.
  repeat (case_match; simplify_eq/=); try (split; [set_solver|done]).
  pose proof (sorted_ids_spec (union_stops (reqs b))) as [Hi Hl]. split; [done|]. blia.
Qed.

Lemma set_flag_spec bo armed :
  (forall b, bo = Some b -> buffers_ok b) ->
  (forall b, set_flag bo armed = Some b -> buffers_ok b /\ flag b = (if armed then 1 else 0)) /\
  (forall b, set_flag bo armed = Some b -> exists b0, bo = Some b0 /\ stop b = stop b0).
Proof.
  intros Hok. unfold set_flag. destruct bo as [b0|]; [|done]. destruct (Hok b0 eq_refl) as (Hf & Hl & Hs).
  destruct (flag_host b0 =? _) eqn:E; split; intros b [= <-]; [|eauto| |eauto].
  - split; [done|]. rewrite Hf. lia.
  - by split.
Qed.

Lemma set_stop_spec bo ids :
  (forall b, bo = Some b -> buffers_ok b) -> zlen ids <= NSTOP ->
  exists bo', set_stop bo ids = Ok bo' /\ (forall b, bo' = Some b -> buffers_ok b) /\
    (bo' = None <-> bo = None) /\ (forall b, bo' = Some b -> forall i, i ∈ ids -> i ∈ stop b).
Proof.
  intros Hok Hlen. unfold set_stop. destruct bo as [b0|]; [|exists None; by repeat split].
  destruct (Hok b0 eq_refl) as (Hf & Hl & Hs). case_bool_decide as E.
  - eexists. split; [done|]. split; [done|]. split; [done|]. intros b [= <-] i Hi. rewrite Hs, E. set_solver.
  - destruct (NSTOP <? zlen ids) eqn:E2; [lia|]. eexists. split; [done|]. split; [|split].
    + intros b [= <-]. done.
    + by split.
    + intros b [= <-] i Hi. simpl. set_solver.
Qed.

(** A call leaves the buffers in step, and never raises. *)
Lemma run_non_compact_spec h b :
  (forall bb, bufs h = Some bb -> buffers_ok bb) ->
  exists h' b', run_non_compact h b = Ok (h', b') /\
    (bufs h' = None <-> bufs h = None) /\
    forall bb, bufs h' = Some bb -> buffers_ok bb /\
      flag bb = (if (step_armed b).1.1 then 1 else 0) /\
      ((step_armed b).1.1 = true -> forall i, i ∈ batch_stops b -> i ∈ stop bb).
Proof.
  intros Hok. unfold run_non_compact. destruct (step_armed b) as [[armed stops] b'] eqn:Es. cbn [fst].
  assert (exists bo, (if armed && negb (bool_decide (stops = [])) then set_stop (bufs h) stops else Ok (bufs h)) = Ok bo
     /\ (forall bb, bo = Some bb -> buffers_ok bb) /\ (bo = None <-> bufs h = None)
     /\ (forall bb, bo = Some bb -> armed = true -> forall i, i ∈ stops -> i ∈ stop bb)) as (bo & -> & Hbo & HN & Hst).
  { destruct armed; cbn [andb]; [|by exists (bufs h)].
    case_bool_decide as En; cbn [negb]; [exists (bufs h); subst stops; repeat split; try done; set_solver|].
    destruct (set_stop_spec (bufs h) stops Hok) as (bo & -> & H1 & H2 & H3); [by eapply step_armed_spec|].
    exists bo. repeat split; try done; naive_solver. }
  cbn. eexists _, _. split; [done|]. cbn [bufs]. split.
  - rewrite <- HN. unfold set_flag. destruct bo; by repeat case_match.
  - intros bb Hbb. destruct (set_flag_spec bo armed Hbo) as [H1 H2].
    destruct (H1 bb Hbb) as [Hb1 Hb2]. destruct (H2 bb Hbb) as (b0 & -> & Hs). split; [done|]. split; [done|].
    intros -> i Hi. rewrite Hs. apply Hst; [done|done|]. by apply (step_armed_spec _ _ _ Es).
Qed.

Lemma run_spec cs h :
  (forall bb, bufs h = Some bb -> buffers_ok bb) ->
  exists h', run h cs = Ok h' /\ (bufs h' = None <-> bufs h = None) /\ forall bb, bufs h' = Some bb -> buffers_ok bb.
Proof.
  revert h. induction cs as [|c cs IH]; intros h Hok; [by exists h|].
  assert (Hf : forall bb, set_flag (bufs h) false = Some bb -> buffers_ok bb).
  { intros bb Hbb. destruct (set_flag_spec (bufs h) false Hok) as [H _]. by destruct (H bb Hbb). }
  assert (HN : set_flag (bufs h) false = None <-> bufs h = None).
  { unfold set_flag. destruct (bufs h); by repeat case_match. }
  destruct c as [b| |]; cbn [run].
  - destruct (run_non_compact_spec h b Hok) as (h1 & b1 & -> & H1 & H2). cbn.
    destruct (IH h1) as (h' & -> & H3 & H4); [intros bb Hbb; by apply H2|]. exists h'. split; [done|]. by rewrite H3.
  - destruct (IH (run_compact h)) as (h' & -> & H3 & H4); [done|]. exists h'. split; [done|]. by rewrite H3.
  - destruct (IH (run_idle_participation h)) as (h' & -> & H3 & H4); [done|]. exists h'. split; [done|]. by rewrite H3.
Qed.

(** ** What is assumed of the kernels' arithmetic and of the tables

    [root_fin]: the root of a sum of squares is accurate to 2^-17, below 2^-60 in absolute
    terms only; [root_normal]: without the latter for values that cannot underflow.
    [screen_err], [stock_err]: a matrix product is within [c_acc] of the exact product, per
    unit of the norms; [exact_eq]: the exact kernel is the stock one's equal (what the
    qualified row counts were tested for). *)
Definition root_slack : Q := Eval vm_compute in (1 + (1 # 2 ^ 17))%Q.
Definition root_abs : Q := Eval vm_compute in (1 # 2 ^ 60)%Q.

Class HeadLaws (rnd bf : Q -> fp) (FMAX : Q) (root : list fp -> fp)
    (mma_screen exact_mm stock_mm : list fp -> list fp -> fp) (K : nat) := {
  head_float :: FloatLaws rnd bf FMAX;
  root_pos l : above 0 (root l);
  root_fin l s : root l = Fin s ->
    exists xs, l = map Fin xs /\ (sq xs <= (s * root_slack + root_abs) * (s * root_slack + root_abs))%Q;
  root_normal xs s : root (map Fin xs) = Fin s -> Forall (Qle root_abs) xs ->
    (sq xs <= (s * root_slack) * (s * root_slack))%Q;
  screen_fin x w a : mma_screen x w = Fin a -> (Qabs a <= FMAX)%Q /\ exists xs ws, x = map Fin xs /\ w = map Fin ws;
  screen_err xs ws a n r : mma_screen (map Fin xs) (map Fin ws) = Fin a -> length xs = K -> length ws = K ->
    (0 <= n)%Q -> (0 <= r)%Q -> (sq xs <= n * n)%Q -> (sq ws <= r * r)%Q ->
    (Qabs (a - dot ws xs) <= c_acc (Z.of_nat K) * (n * r))%Q;
  stock_err xs ws a n r : stock_mm (map Fin xs) (map Fin ws) = Fin a -> length xs = K -> length ws = K ->
    (0 <= n)%Q -> (0 <= r)%Q -> (sq xs <= n * n)%Q -> (sq ws <= r * r)%Q ->
    (Qabs (a - dot ws xs) <= c_acc (Z.of_nat K) * (n * r))%Q;
  exact_eq x w : exact_mm x w = stock_mm x w }.

(** What [build_tables] promises of a shard: the residual norms and the row norms are
    upper bounds (an infinite residual norm promises nothing). *)
Record tables_ok (rnd bf : Q -> fp) (st : State) : Prop := {
  group_pos : (0 < st_group st)%nat;
  K_groups : st_K st = (NG st * st_group st)%nat;
  NG_range : (1 <= NG st <= 60)%nat;
  K_range : (2 * c_acc (Z.of_nat (st_K st)) <= 1)%Q;
  row_tables v : (v < st_V st)%nat ->
    let w := nth v (st_W st) [] in let D := deq rnd bf (nth v (st_q st) []) (nth v (st_e st) []) in
    let rt := nth v (st_rt st) [] in let nv := nth v (st_nv st) NaN in
    length w = st_K st /\ length D = st_K st /\ length rt = NG st /\ Forall (above 0) rt /\ above 0 nv /\
    (forall ds rs, D = map Fin ds -> rt = map Fin rs ->
       Forall2 (fun g r => (sq g <= r * r)%Q) (groups (NG st) (st_group st) (zip_with Qminus w ds)) rs) /\
    (forall n, nv = Fin n -> (sq w <= n * n)%Q /\ forall ds, D = map Fin ds -> (sq ds <= n * n)%Q) }.

(** ** The norms of a row *)

Lemma concat_groups {A} n G (x : list A) : length x = (n * G)%nat -> concat (groups n G x) = x.
Proof.
  revert x. induction n as [|n IH]; intros x Hx; simpl in *; [by destruct x|].
  rewrite IH by (rewrite length_drop; lia). apply take_drop.
Qed.

Lemma groups_length {A} n G (x : list A) : length x = (n * G)%nat -> Forall (fun g => length g = G) (groups n G x).
Proof.
  revert x. induction n as [|n IH]; intros x Hx; simpl in *; constructor.
  - rewrite length_take. lia.
  - apply IH. rewrite length_drop. lia.
Qed.

Lemma length_groups {A} n G (x : list A) : length (groups n G x) = n.
Proof. revert x. induction n; simpl; auto. Qed.

Lemma map_Fin_inj xs ys : map Fin xs = map Fin ys -> xs = ys.
Proof. revert ys. induction xs as [|x xs IH]; intros [|y ys]; simpl; try done. intros [= -> H]. f_equal. auto. Qed.

Section Cell.
Context {rnd bf : Q -> fp} {FMAX : Q} {root : list fp -> fp} {mma_screen exact_mm stock_mm : list fp -> list fp -> fp}
  {K : nat} {HL : HeadLaws rnd bf FMAX root mma_screen exact_mm stock_mm K}.
#[local] Open Scope Q_scope.

Lemma xg_one g v :
  fp_add rnd (fp_mul rnd (root g) INFL_X) X_ABS = Fin v ->
  exists q, g = map Fin q /\ root_abs <= v /\ sq q <= v * v.
Proof.
  intros E. destruct (add_fin _ _ _ E) as (t & ? & Et & [= <-] & R2).
  destruct (mul_fin _ _ _ Et) as (s & ? & Es & [= <-] & R1).
  destruct (root_fin g s Es) as (q & -> & Hq). pose proof (root_pos (map Fin q)) as Hs. rewrite Es in Hs. simpl in Hs.
  assert (N1 : 0 <= s * infl_x) by (unfold infl_x; lra).
  pose proof (rnd_ge _ _ _ R1 (Qle_refl _) N1) as G1. pose proof (rnd_nonneg _ _ R1 N1) as P1.
  assert (N2 : 0 <= t + x_abs) by (unfold x_abs; lra).
  pose proof (rnd_ge _ _ _ R2 (Qle_refl _) N2) as G2.
  exists q. split; [done|].
  assert (Hv : s * root_slack + root_abs <= v) by (unfold root_slack, root_abs, infl_x, x_abs, u, tiny in *; lra).
  assert (H0 : 0 <= s * root_slack) by (unfold root_slack; lra).
  assert (Ha : 0 <= root_abs) by (unfold root_abs; lra).
  split; [lra|]. eapply Qle_trans; [exact Hq|]. nra.
Qed.

Lemma xn_one gs v :
  xnorm_xn rnd root (map Fin gs) = Fin v -> gs <> [] -> Forall (Qle root_abs) gs ->
  0 <= v /\ sq gs <= v * v.
Proof.
  unfold xnorm_xn. intros E Hne Hgs. destruct (mul_fin _ _ _ E) as (s & ? & Es & [= <-] & R1).
  pose proof (root_normal gs s Es Hgs) as Hq. pose proof (root_pos (map Fin gs)) as Hs. rewrite Es in Hs. simpl in Hs.
  assert (N1 : 0 <= s * infl_x) by (unfold infl_x; lra).
  pose proof (rnd_ge _ _ _ R1 (Qle_refl _) N1) as G1. pose proof (rnd_nonneg _ _ R1 N1) as P1.
  assert (Hbig : root_abs * root_abs <= sq gs).
  { destruct gs as [|g gs]; [done|]. apply Forall_cons_1 in Hgs as [Hg _].
    pose proof (sq_nonneg gs). unfold sq in *. rewrite dot_cons.
    assert (0 <= root_abs) by (unfold root_abs; lra). nra. }
  assert (Hsr : root_abs <= s * root_slack).
  { destruct (Qlt_le_dec (s * root_slack) root_abs) as [Hlt|]; [|done].
    assert (0 <= s * root_slack) by (unfold root_slack; lra). nra. }
  assert (Hv : s * root_slack <= v) by (unfold root_slack, root_abs, infl_x, u, tiny in *; lra).
  split; [done|]. eapply Qle_trans; [exact Hq|].
  assert (0 <= s * root_slack) by (unfold root_slack; lra). nra.
Qed.

(** The norms of a row that is not flagged: finite, and upper bounds of the exact ones. *)
Lemma xnorm_good n G x :
  length x = (n * G)%nat -> (1 <= n)%nat ->
  xnorm_bad (xnorm_xn rnd root (xnorm_xg rnd root n G x)) = false ->
  exists xss gs v, x = map Fin (concat xss) /\ length xss = n /\ Forall (fun q => length q = G) xss /\
    xnorm_xg rnd root n G x = map Fin gs /\ xnorm_xn rnd root (map Fin gs) = Fin v /\
    Forall2 (fun q g => 0 <= g /\ sq q <= g * g) xss gs /\ 0 <= v /\ sq (concat xss) <= v * v.
Proof.
  intros Hx Hn Hbad.
  assert (exists v, xnorm_xn rnd root (xnorm_xg rnd root n G x) = Fin v) as [v Ev].
  { assert (H : above 0 (xnorm_xn rnd root (xnorm_xg rnd root n G x))) by (apply mul_pos; [apply root_pos|done]).
    destruct (xnorm_xn _ _ _); try done. eauto. }
  assert (exists gs, xnorm_xg rnd root n G x = map Fin gs) as [gs Egs].
  { unfold xnorm_xn in Ev. destruct (mul_fin _ _ _ Ev) as (s & ? & Es & _).
    apply root_fin in Es as (gs & -> & _). eauto. }
  assert (exists xss, groups n G x = map (map Fin) xss /\
            Forall2 (fun q g => root_abs <= g /\ sq q <= g * g) xss gs) as (xss & Exss & Hgs).
  { unfold xnorm_xg in Egs. revert gs Egs Ev. generalize (groups n G x). clear - HL. intros l gs Egs _.
    revert gs Egs. induction l as [|g l IH]; intros [|g1 gs] Egs; try done; [by exists []|].
    injection Egs as Eg Egs. destruct (IH gs Egs) as (xss & -> & H). destruct (xg_one g g1 Eg) as (q & -> & Hq).
    exists (q :: xss). split; [done|]. by constructor. }
  assert (Hlen : length xss = n) by (rewrite <- (length_groups n G x), Exss; by rewrite length_map).
  assert (Hxs : x = map Fin (concat xss)).
  { rewrite <- (concat_groups n G x Hx), Exss. symmetry. apply concat_map. }
  rewrite Egs in Ev.
  assert (Hne : gs <> []).
  { apply Forall2_length in Hgs. destruct gs; [|done]. simpl in Hgs. lia. }
  assert (Habs : Forall (Qle root_abs) gs).
  { clear -Hgs. induction Hgs as [|? ? ? ? [? _] ? IH]; by constructor. }
  destruct (xn_one gs v Ev Hne Habs) as [Hv Hsq].
  assert (Hgs0 : Forall2 (fun q g => 0 <= g /\ sq q <= g * g) xss gs).
  { eapply Forall2_impl; [exact Hgs|]. intros q g [H1 H2]. split; [|done]. unfold root_abs in H1. lra. }
  exists xss, gs, v. repeat (split; [done|]). split.
  { pose proof (groups_length n G x Hx) as Hg. rewrite Exss in Hg. clear -Hg.
    apply Forall_map in Hg. eapply Forall_impl; [exact Hg|]. intros q Hq. cbv beta in Hq. by rewrite length_map in Hq. }
  repeat (split; [done|]). eapply Qle_trans; [by apply sq_groups|done].
Qed.

(** The part of the product the screen does not see: the residual by groups. *)
Lemma residual_bound n G w ds (xss : list (list Q)) (gs rs : list Q) :
  length w = (n * G)%nat -> length ds = (n * G)%nat -> length xss = n -> Forall (fun q => length q = G) xss ->
  Forall (Qle 0) rs -> Forall2 (fun g r => sq g <= r * r) (groups n G (zip_with Qminus w ds)) rs ->
  Forall2 (fun q g => 0 <= g /\ sq q <= g * g) xss gs ->
  Qabs (dot w (concat xss) - dot ds (concat xss)) <= dot gs rs.
Proof.
  intros Hw Hd Hn Hx Hrs0 Hres Hgs. rewrite <- dot_sub by lia.
  assert (Hz : length (zip_with Qminus w ds) = (n * G)%nat) by (rewrite length_zip_with; lia).
  rewrite <- (concat_groups n G (zip_with Qminus w ds)) at 1 by done.
  apply dot_groups; [|done|].
  - clear -Hres Hrs0. induction Hres as [|g r gg rr Hg _ IH]; [constructor|].
    apply Forall_cons_1 in Hrs0 as [Hr Hrs0]. constructor; [done|auto].
  - pose proof (groups_length n G _ Hz) as Hgl. pose proof (length_groups n G (zip_with Qminus w ds)) as Hll.
    rewrite <- Hn in Hll at 2. revert Hgl Hx Hll. clear. generalize (groups n G (zip_with Qminus w ds)). intros l Hl Hx.
    revert l Hl. induction Hx as [|q xss Hq Hx IH]; intros [|g l] Hl; try done.
    apply Forall_cons_1 in Hl as [Hg Hl]. intros [= Hll]. constructor; [congruence|auto].
Qed.

(** The exact logit lies between the two values of the screen. *)
Lemma cell_brackets st stop x v l :
  tables_ok rnd bf st -> K = st_K st -> (v < st_V st)%nat -> length x = st_K st ->
  xnorm_bad (xnorm_xn rnd root (xnorm_xg rnd root (NG st) (st_group st) x)) = false ->
  stock_mm x (map Fin (nth v (st_W st) [])) = Fin l ->
  let acc := screen_acc rnd bf mma_screen st x v in let B := screen_B rnd root st x v in
  fp_le (screen_lo rnd bf (isstop st stop v) acc B) (bf l) = true /\
  fp_le (bf l) (screen_hi rnd bf (isstop st stop v) acc B) = true.
Proof.
  intros HT HK Hv Hx Hbad El acc B.
  destruct (row_tables _ _ _ HT v Hv) as (Hw & HD & Hrt & Hrt0 & Hnv0 & Hres & Hnv).
  rewrite (K_groups _ _ _ HT) in Hx.
  pose proof (NG_range _ _ _ HT) as HNG.
  destruct (xnorm_good _ _ x Hx ltac:(lia) Hbad) as (xss & gs & xn & -> & Hlen & Hlens & Exg & Exn & Hgs & Hxn0 & Hxn).
  set (rt := nth v (st_rt st) []) in *. set (w := nth v (st_W st) []) in *.
  assert (Hglen : length gs = length rt).
  { rewrite Hrt, <- Hlen. symmetry. by eapply Forall2_length. }
  assert (Hgs0 : Forall (above 0) (map Fin gs)).
  { apply Forall_map. clear -Hgs. induction Hgs as [|? ? ? ? [? _] ? IH]; by constructor. }
  assert (Hc : 0 <= 2 * c_acc (Z.of_nat (st_K st)) <= 1).
  { split; [|apply (K_range _ _ _ HT)]. unfold c_acc.
    assert (0 <= inject_Z (Z.of_nat (st_K st))) by (change 0 with (inject_Z 0); rewrite <- Zle_Qle; lia).
    change (1 # 2 ^ 23) with (1 # 8388608). change (inject_Z (Z.of_nat (st_K st)) / 16) with (inject_Z (Z.of_nat (st_K st)) * (1 # 16)). lra. }
  assert (HB : B = bound rnd (Fin (2 * c_acc (Z.of_nat (st_K st)))) (map Fin gs) rt (Fin xn) (nth v (st_nv st) NaN)).
  { unfold B, screen_B, c2. by rewrite Exg, Exn. }
  assert (Hmap : length (map Fin gs) = length rt) by (by rewrite length_map).
  destruct (bound_cases (2 * c_acc (Z.of_nat (st_K st))) (map Fin gs) rt (Fin xn) (nth v (st_nv st) NaN)) as [HB0 HBn];
    try done; [apply Hc|].
  rewrite <- HB in HB0, HBn. apply screen_brackets; try done.
  { intros a Ea. by eapply screen_fin. }
  intros a b Ea Eb. rewrite HB in Eb.
  apply bound_fin in Eb as (xs' & rs & xn' & nv & Exs' & Ers & [= <-] & Env & _ & Hn0 & _ & Hrs0 & _ & HBb); try done;
    [|unfold zlen; rewrite length_map; lia].
  apply map_Fin_inj in Exs' as <-.
  destruct (Hnv nv Env) as [Hww HDD].
  destruct (screen_fin _ _ _ Ea) as (_ & ? & ds & _ & EDs).
  unfold acc, screen_acc in Ea. rewrite EDs in Ea. specialize (HDD ds EDs). specialize (Hres ds rs EDs Ers).
  assert (Hxl : length (concat xss) = K).
  { rewrite HK, (K_groups _ _ _ HT), <- Hx. by rewrite length_map. }
  assert (Hdl : length ds = K) by (rewrite HK, <- HD, EDs; by rewrite length_map).
  pose proof (screen_err _ _ _ xn nv Ea Hxl Hdl Hxn0 Hn0 Hxn HDD) as H1.
  pose proof (stock_err _ _ _ xn nv El Hxl ltac:(lia) Hxn0 Hn0 Hxn Hww) as H2.
  assert (H3 : Qabs (dot w (concat xss) - dot ds (concat xss)) <= dot gs rs).
  { apply (residual_bound (NG st) (st_group st)); try done; rewrite ?Hw, ?Hdl, ?HK; apply (K_groups _ _ _ HT). }
  rewrite <- HK in HBb. apply Qabs_bounds in H1, H2, H3. apply Qabs_Qle_condition.
  set (C := c_acc (Z.of_nat K)) in *. set (d1 := dot w _) in *. set (d2 := dot ds _) in *. set (d3 := dot gs rs) in *.
  clearbody d1 d2 d3. clear -H1 H2 H3 HBb. lra.
Qed.
End Cell.

(** ** The launches *)

Lemma ntiles_covers V BV j : (0 < BV)%nat -> (j < V)%nat -> (j / BV < ntiles V BV)%nat.
Proof.
  intros HB Hj. unfold ntiles. apply Nat.Div0.div_lt_upper_bound.
  pose proof (Nat.div_mod_eq (V + BV - 1) BV) as H1. pose proof (Nat.mod_upper_bound (V + BV - 1) BV ltac:(lia)) as H2.
  revert H1 H2. generalize ((V + BV - 1) / BV)%nat ((V + BV - 1) mod BV)%nat. intros q r. nia.
Qed.

Lemma threshold_spec SBN order lo :
  (0 < SBN)%nat -> order ≡ₚ seq 0 (ntiles (length lo) SBN) -> Forall (fun a => isnan a = false) lo ->
  let T := threshold SBN order lo in
  isnan T = false /\ (T = NInf \/ T ∈ lo) /\ Forall (fun a => fp_le a T = true) lo.
Proof.
  intros HS Ho Hlo T.
  assert (Hp : forall pid, isnan (program_max SBN lo pid) = false /\
            (program_max SBN lo pid = NInf \/ program_max SBN lo pid ∈ lo) /\
            forall i, (i < SBN)%nat -> fp_le (nth (pid * SBN + i) lo NInf) (program_max SBN lo pid) = true).
  { intros pid. assert (Hl : forall i, isnan (nth i lo NInf) = false /\ (nth i lo NInf = NInf \/ nth i lo NInf ∈ lo)).
    { intros i. destruct (nth_in_or_default i lo NInf) as [Hin| ->]; [|by split; [|left]].
      apply list_elem_of_In in Hin. split; [|by right]. by eapply Forall_forall in Hlo. }
    destruct (fp_max_fold (map (fun i => nth (pid * SBN + i)%nat lo NInf) (seq 0 SBN)) NInf) as (H1 & H2 & _ & H3); [done| |].
    { apply Forall_map, Forall_forall. intros i _. apply Hl. }
    unfold program_max. split; [done|]. split.
    - destruct H2 as [H2|H2]; [by left|]. apply list_elem_of_fmap in H2 as (i & -> & _). apply Hl.
    - intros i Hi. apply (proj1 (Forall_map _ _ _)) in H3. rewrite Forall_forall in H3. apply H3.
      apply elem_of_seq. lia. }
  assert (ET : T = foldl fp_max NInf (map (program_max SBN lo) order)).
  { unfold T, threshold. generalize NInf. clear. induction order as [|p order IH]; intros a; [done|]. apply IH. }
  destruct (fp_max_fold (map (program_max SBN lo) order) NInf) as (H1 & H2 & _ & H3); [done| |].
  { apply Forall_map, Forall_forall. intros pid _. apply Hp. }
  rewrite <- ET in *. split; [done|]. split.
  - destruct H2 as [H2|H2]; [by left|]. apply list_elem_of_fmap in H2 as (pid & -> & _). by destruct (Hp pid) as (_ & ? & _).
  - apply Forall_lookup. intros j a Hj. apply lookup_lt_Some in Hj as Hjl.
    apply (proj1 (Forall_map _ _ _)) in H3. rewrite Forall_forall in H3.
    assert (Hin : (j / SBN)%nat ∈ order).
    { rewrite Ho. apply elem_of_seq. split; [lia|]. rewrite Nat.add_0_l. by apply ntiles_covers. }
    destruct (Hp (j / SBN)%nat) as (_ & _ & Hlane). specialize (Hlane (j mod SBN)%nat (Nat.mod_upper_bound j SBN ltac:(lia))).
    replace (j / SBN * SBN + j mod SBN)%nat with j in Hlane by (pose proof (Nat.div_mod_eq j SBN); lia).
    rewrite (nth_lookup_Some _ _ _ _ Hj) in Hlane. specialize (H3 _ Hin). cbv beta in H3.
    apply fp_le_iff in H3 as (_ & HT & Hn). apply fp_le_iff in Hlane as (Ha & _ & Hna). apply fp_le_iff.
    repeat split; [done|done|]. destruct (fp_lt T a) eqn:E; [|done].
    destruct (fp_lt_split T (program_max SBN lo (j / SBN)) a E) as [H|H]; [by apply Hp|congruence|congruence].
Qed.

Lemma filter_lt_seq V a n : filter (fun j => (j < V)%nat) (seq a n) = seq a (Nat.min n (V - a)).
Proof.
  revert a. induction n as [|n IH]; intros a; [done|]. cbn [seq]. rewrite filter_cons, IH.
  case_decide as H.
  - replace (Nat.min (S n) (V - a)) with (S (Nat.min n (V - S a))) by lia. done.
  - replace (Nat.min (S n) (V - a)) with 0%nat by lia. by replace (Nat.min n (V - S a)) with 0%nat by lia.
Qed.

Lemma tile_cols_seq V BV pid : tile_cols V BV pid = seq (pid * BV) (Nat.min BV (V - pid * BV)).
Proof.
  unfold tile_cols. rewrite <- filter_lt_seq. f_equal.
  change (map (fun i => pid * BV + i)%nat (seq 0 BV)) with (Nat.add (pid * BV) <$> seq 0 BV).
  by rewrite fmap_add_seq, Nat.add_0_r.
Qed.

(** The tiles' columns, one after the other, are the row's. *)
Lemma concat_tiles {A} (f : nat -> nat -> A) V BV :
  (0 < BV)%nat ->
  concat (map (fun pid => map (f pid) (tile_cols V BV pid)) (seq 0 (ntiles V BV)))
  = map (fun j => f (j / BV)%nat j) (seq 0 V).
Proof.
  intros HB.
  assert (H : forall n, concat (map (fun pid => map (f pid) (tile_cols V BV pid)) (seq 0 n))
             = map (fun j => f (j / BV)%nat j) (seq 0 (Nat.min V (n * BV)))).
  { induction n as [|n IH]; [by rewrite Nat.min_0_r|].
    rewrite seq_S, map_app, concat_app, IH. cbn [map concat]. rewrite app_nil_r, tile_cols_seq, Nat.add_0_l.
    replace (Nat.min V (S n * BV)) with (Nat.min V (n * BV) + Nat.min BV (V - n * BV))%nat by lia.
    rewrite seq_app, map_app, Nat.add_0_l. f_equal.
    destruct (decide (V <= n * BV)%nat) as [Hle|Hgt].
    { by replace (Nat.min BV (V - n * BV)) with 0%nat by lia. }
    replace (Nat.min V (n * BV)) with (n * BV)%nat by lia.
    apply map_ext_in. intros j Hj. apply in_seq in Hj. f_equal.
    apply (Nat.div_unique j BV n (j - n * BV)); lia. }
  rewrite H. do 2 f_equal. apply Nat.min_l. unfold ntiles.
  pose proof (Nat.div_mod_eq (V + BV - 1) BV) as H1. pose proof (Nat.mod_upper_bound (V + BV - 1) BV ltac:(lia)) as H2.
  revert H1 H2. generalize ((V + BV - 1) / BV)%nat ((V + BV - 1) mod BV)%nat. intros q r. nia.
Qed.

Lemma need_hit V BV j his thr bad m hi T :
  (0 < BV)%nat -> (j < V)%nat -> his !! m = Some hi -> thr !! m = Some T ->
  fp_le T (nth j hi NInf) = true -> need false V BV (j / BV) his thr bad = true.
Proof.
  intros HB Hj Hh Ht Hle. unfold need. rewrite orb_false_l. apply orb_true_iff. left.
  apply existsb_exists. exists (hi, T). split.
  { apply list_elem_of_In. apply (list_elem_of_lookup_2 _ m). by rewrite lookup_zip_with, Hh, Ht. }
  apply existsb_exists. exists (j mod BV)%nat. split.
  { apply in_seq. pose proof (Nat.mod_upper_bound j BV ltac:(lia)). lia. }
  unfold lane_hit. cbn [fst snd].
  replace (j / BV * BV + j mod BV)%nat with j by (pose proof (Nat.div_mod_eq j BV); lia).
  by rewrite (proj2 (Nat.ltb_lt j V) Hj).
Qed.

(** ** Rows whose values were lowered *)

(** The engine's mask of a row: the ids in [mask] get minus infinity. *)
Definition mask_row (mask : nat -> bool) (l : list fp) : list fp :=
  imap (fun v a => if mask v then NInf else a) l.

(** Every value is kept, or both it and what replaced it are below a value that is kept. *)
Definition lowered (l l' : list fp) : Prop :=
  length l = length l' /\
  forall j y y', l !! j = Some y -> l' !! j = Some y' ->
    y' = y \/ exists k z, l !! k = Some z /\ l' !! k = Some z /\ arg_lt y z = true /\ arg_lt y' z = true.

Lemma lowered_refl l : lowered l l.
Proof. split; [done|]. intros j y y' H1 H2. left. congruence. Qed.

Lemma lowered_app l1 l1' l2 l2' : lowered l1 l1' -> lowered l2 l2' -> lowered (l1 ++ l2) (l1' ++ l2').
Proof.
  intros [Hl1 H1] [Hl2 H2]. split; [rewrite !length_app; lia|]. intros j y y' Hy Hy'.
  destruct (decide (j < length l1)%nat) as [Hj|Hj].
  - rewrite lookup_app_l in Hy, Hy' by lia. destruct (H1 j y y' Hy Hy') as [|(k & z & Hk & Hk' & H)]; [by left|].
    right. exists k, z. split; [by apply lookup_app_l_Some|]. by split; [apply lookup_app_l_Some|].
  - rewrite lookup_app_r in Hy, Hy' by lia. rewrite <- Hl1 in Hy'.
    destruct (H2 _ y y' Hy Hy') as [|(k & z & Hk & Hk' & H)]; [by left|].
    right. exists (length l1 + k)%nat, z. rewrite !lookup_app_r by lia.
    replace (length l1 + k - length l1')%nat with k by lia. by replace (length l1 + k - length l1)%nat with k by lia.
Qed.

Lemma arg_lt_irrefl a : arg_lt a a = false.
Proof. unfold arg_lt. destruct (isnan a) eqn:E; [done|]. apply fp_lt_irrefl. Qed.

Lemma arg_lt_trans a b c : arg_lt a b = true -> arg_lt b c = true -> arg_lt a c = true.
Proof.
  unfold arg_lt. destruct (isnan a); [done|]. destruct (isnan b) eqn:Eb; [done|]. simpl.
  destruct (isnan c); [done|]. simpl. apply fp_lt_trans.
Qed.

Lemma arg_lt_split a b c : arg_lt a c = true -> arg_lt a b = true \/ arg_lt b c = true.
Proof.
  unfold arg_lt. destruct (isnan a); [done|]. destruct (isnan b) eqn:Eb; [by left|]. simpl.
  destruct (isnan c); [by right|]. simpl. intros H. by apply fp_lt_split.
Qed.

(** Lowering keeps the argmax. *)
Lemma lowered_argmax l l' : lowered l l' -> argmax_by arg_lt l' = argmax_by arg_lt l.
Proof.
  intros [Hl H].
  apply (argmax_by_lower arg_lt arg_lt_irrefl arg_lt_trans (fun x y z => arg_lt_split x y z) l l' Hl H).
Qed.

Section Row.
Context {rnd bf : Q -> fp} {FMAX : Q} {root : list fp -> fp} {mma_screen exact_mm stock_mm : list fp -> list fp -> fp}
  {K : nat} {HL : HeadLaws rnd bf FMAX root mma_screen exact_mm stock_mm K}.
Context (st : State) (SBN XBV : nat) (order : list nat) (stop : list Z) (x : list (list fp)).
Context (HT : tables_ok rnd bf st) (HK : K = st_K st) (HS : (0 < SBN)%nat) (HX : (0 < XBV)%nat)
  (Horder : order ≡ₚ seq 0 (ntiles (st_V st) SBN)).

(** Rows of [K] values; where a row is not flagged the stock product does not overflow. *)
Context (Hrows : forall r, r ∈ x -> length r = st_K st /\
  (xnorm_bad (xnorm_xn rnd root (xnorm_xg rnd root (NG st) (st_group st) r)) = false ->
   forall v, (v < st_V st)%nat -> exists l, stock_mm r (map Fin (nth v (st_W st) [])) = Fin l)).

Let stock_row (r : list fp) : list fp :=
  map (fun v => to_bf16 bf (stock_mm r (map Fin (nth v (st_W st) [])))) (seq 0 (st_V st)).

(** The columns of a tile that is not computed, against the threshold. *)
Lemma skipped_below mask r m j :
  (forall v, mask v = true -> isstop st stop v = true) ->
  x !! m = Some r -> (j < st_V st)%nat ->
  let his := map (hi_row rnd bf root mma_screen st stop) x in
  let thr := map (fun r => threshold SBN order (lo_row rnd bf root mma_screen st stop r)) x in
  let bad := map (fun r => xnorm_bad (xnorm_xn rnd root (xnorm_xg rnd root (NG st) (st_group st) r))) x in
  let e v := to_bf16 bf (stock_mm r (map Fin (nth v (st_W st) []))) in
  existsb id bad = false ->
  need false (st_V st) XBV (j / XBV) his thr bad = false ->
  exists k, (k < st_V st)%nat /\ mask k = false /\ need false (st_V st) XBV (k / XBV) his thr bad = true /\
    fp_lt (e j) (e k) = true /\ isnan (e j) = false.
Proof.
  intros Hmask Hm Hj his thr bad e Hbad Hneed.
  assert (Hr : xnorm_bad (xnorm_xn rnd root (xnorm_xg rnd root (NG st) (st_group st) r)) = false).
  { destruct (xnorm_bad _) eqn:E; [|done]. enough (existsb id bad = true) by congruence.
    apply existsb_exists. exists true. split; [|done]. apply list_elem_of_In, list_elem_of_fmap.
    exists r. split; [done|]. by eapply list_elem_of_lookup_2. }
  destruct (Hrows r (list_elem_of_lookup_2 _ _ _ Hm)) as [Hlen Hfin]. specialize (Hfin Hr).
  set (lo := lo_row rnd bf root mma_screen st stop r). set (hi := hi_row rnd bf root mma_screen st stop r).
  assert (Hcell : forall v, (v < st_V st)%nat -> exists a b,
            lo !! v = Some a /\ nth v hi NInf = b /\ fp_le a (e v) = true /\ fp_le (e v) b = true /\
            (isstop st stop v = true -> a = NInf)).
  { intros v Hv. destruct (Hfin v Hv) as [l El].
    destruct (cell_brackets st stop r v l HT HK Hv Hlen Hr El) as [H1 H2].
    assert (Hs : seq 0 (st_V st) !! v = Some v) by (by apply lookup_seq).
    eexists _, _. split; [by unfold lo, lo_row; rewrite list_lookup_fmap, Hs|]. split.
    { apply nth_lookup_Some. unfold hi, hi_row. by rewrite list_lookup_fmap, Hs. }
    unfold e. rewrite El. split; [apply H1|]. split; [apply H2|]. unfold screen_lo. by intros ->. }
  assert (Hlo : Forall (fun a => isnan a = false) lo).
  { apply Forall_map, Forall_forall. intros v _. apply screen_lo_num. }
  assert (Hlolen : length lo = st_V st) by (unfold lo, lo_row; by rewrite length_map, length_seq).
  destruct (threshold_spec SBN order lo HS) as (HTn & HTin & HTall); [by rewrite Hlolen|done|].
  set (T := threshold SBN order lo) in *.
  assert (Hhi : forall v, (v < st_V st)%nat -> fp_le T (nth v hi NInf) = true ->
            need false (st_V st) XBV (v / XBV) his thr bad = true).
  { intros v Hv Hle. apply (need_hit _ _ _ _ _ _ m hi T); try done.
    - unfold his. by rewrite list_lookup_fmap, Hm.
    - unfold thr. by rewrite list_lookup_fmap, Hm. }
  destruct (Hcell j Hj) as (a & b & _ & Hb & _ & Hejb & _). subst b.
  pose proof (proj1 (fp_le_iff _ _) Hejb) as (Hejn & Hbn & _).
  assert (HjT : fp_lt (nth j hi NInf) T = true).
  { apply fp_not_le; [done|done|]. destruct (fp_le T (nth j hi NInf)) eqn:E; [|done].
    by rewrite (Hhi j Hj E) in Hneed. }
  destruct HTin as [->|HTin]; [by destruct (nth j hi NInf)|].
  apply list_elem_of_lookup in HTin as [k Hk]. apply lookup_lt_Some in Hk as Hkl. rewrite Hlolen in Hkl.
  destruct (Hcell k Hkl) as (a' & b' & Ha' & Hb' & Hlek & Hhik & Hstopk). rewrite Hk in Ha'. injection Ha' as <-. subst b'.
  assert (HTe : fp_le T (e k) = true) by done.
  exists k. split; [done|]. split.
  { destruct (mask k) eqn:E; [|done]. rewrite (Hstopk (Hmask k E)) in HjT. by destruct (nth j hi NInf). }
  split; [|split; [|done]].
  - apply Hhi; [done|]. apply fp_le_iff in HTe as (? & ? & Hn). pose proof (proj1 (fp_le_iff _ _) Hhik) as (? & Hhn & Hn2).
    apply fp_le_iff. repeat split; [done|done|]. destruct (fp_lt (nth k hi NInf) T) eqn:E; [|done].
    rewrite (fp_le_lt_trans _ _ _ Hhik E) in Hn. done.
  - eapply fp_le_lt_trans; [exact Hejb|]. by eapply fp_lt_le_trans.
Qed.

Lemma certified_row flag hi0 thr0 bad0 mask m r :
  (flag =? 0 = false -> forall v, mask v = true -> isstop st stop v = true) ->
  x !! m = Some r ->
  exists out,
    certified_logits rnd bf root mma_screen exact_mm SBN XBV order hi0 thr0 bad0 flag stop st x !! m = Some out /\
    lowered (mask_row mask (stock_row r)) (mask_row mask out) /\
    (flag =? 0 = true -> out = stock_row r) /\
    (forall v, (v < st_V st)%nat -> out !! v = Some (to_bf16 bf (stock_mm r (map Fin (nth v (st_W st) [])))) \/
                                    out !! v = Some NInf).
Proof.
  intros Hmask Hm. unfold certified_logits. rewrite list_lookup_fmap, Hm. eexists. split; [reflexivity|].
  set (e v := to_bf16 bf (stock_mm r (map Fin (nth v (st_W st) [])))).
  set (his := if flag =? 0 then hi0 else _). set (thr := if flag =? 0 then thr0 else _).
  set (bad := if flag =? 0 then bad0 else _).
  assert (Eout : concat (map (fun pid => refine_tile (fun j => to_bf16 bf (exact_mm r (map Fin (nth j (st_W st) []))))
             (need (flag =? 0) (st_V st) XBV pid his thr bad) (st_V st) XBV pid) (seq 0 (ntiles (st_V st) XBV)))
           = map (fun j => if need (flag =? 0) (st_V st) XBV (j / XBV) his thr bad then e j else NInf) (seq 0 (st_V st))).
  { unfold refine_tile.
    rewrite (concat_tiles (fun pid j => if need (flag =? 0) (st_V st) XBV pid his thr bad
      then to_bf16 bf (exact_mm r (map Fin (nth j (st_W st) []))) else NInf)) by done.
    apply map_ext. intros j. case_match; [|done]. unfold e. by rewrite exact_eq. }
  rewrite Eout. clear Eout.
  assert (Hall : (forall pid, need (flag =? 0) (st_V st) XBV pid his thr bad = true) ->
    map (fun j => if need (flag =? 0) (st_V st) XBV (j / XBV) his thr bad then e j else NInf) (seq 0 (st_V st)) = stock_row r).
  { intros Hn. apply map_ext. intros j. by rewrite Hn. }
  split; [|split].
  - destruct (flag =? 0) eqn:Ef; [rewrite Hall by done; apply lowered_refl|].
    destruct (existsb id bad) eqn:Ebad.
    { rewrite Hall; [apply lowered_refl|]. intros pid. unfold need. rewrite Ebad. by rewrite orb_true_r. }
    split; [unfold mask_row, stock_row; by rewrite !length_imap, !length_map|].
    intros j y y' Hy Hy'. unfold mask_row, stock_row in Hy, Hy'.
    rewrite list_lookup_imap, list_lookup_fmap in Hy, Hy'.
    destruct (decide (j < st_V st)%nat) as [Hj|Hj].
    2:{ by rewrite lookup_seq_ge in Hy by lia. }
    rewrite lookup_seq_lt in Hy, Hy' by done. simpl in Hy, Hy'. injection Hy as <-. injection Hy' as <-.
    destruct (mask j) eqn:Emj; [by left|].
    destruct (need false (st_V st) XBV (j / XBV) his thr bad) eqn:En; [by left|]. right.
    destruct (skipped_below mask r m j (Hmask eq_refl) Hm Hj Ebad En) as (k & Hk & Emk & Enk & Hlt & Hn).
    exists k, (e k). unfold mask_row, stock_row. rewrite !list_lookup_imap, !list_lookup_fmap, !lookup_seq_lt by done.
    simpl. change (need false (st_V st) XBV (k / XBV) his thr bad = true) in Enk. rewrite Emk, Enk.
    change (isnan (e j) = false) in Hn. change (fp_lt (e j) (e k) = true) in Hlt.
    split; [done|]. split; [done|]. unfold arg_lt. fold (e j). rewrite Hn. cbn [isnan]. split; apply orb_true_iff; right; [done|].
    by destruct (e j), (e k).
  - intros Ef. apply Hall. intros pid. unfold need. by rewrite Ef.
  - intros v Hv. rewrite list_lookup_fmap, lookup_seq_lt by done. simpl. case_match; [by left|by right].
Qed.
End Row.

(** ** The ranks *)
Record Rank := mkRank {
  rk_st : State; rk_order : list nat;
  rk_hi0 : list (list fp); rk_thr0 : list fp; rk_bad0 : list bool }.

(** The shards follow each other in the vocabulary. *)
Fixpoint vstarts_ok (off : nat) (rks : list Rank) : Prop :=
  match rks with
  | [] => True
  | rk :: rks' => st_vstart (rk_st rk) = Z.of_nat off /\ vstarts_ok (off + st_V (rk_st rk))%nat rks'
  end.

(** Row [m] of the vocabulary all-gather. *)
Definition gather (logits : Rank -> list (list fp)) (rks : list Rank) (m : nat) : list fp :=
  concat (map (fun rk => nth m (logits rk) []) rks).

Lemma mask_row_app mask l1 l2 :
  mask_row mask (l1 ++ l2) = mask_row mask l1 ++ mask_row (fun v => mask (length l1 + v)%nat) l2.
Proof. unfold mask_row. by rewrite imap_app. Qed.

Lemma mask_row_ext f g l : (forall v, f v = g v) -> mask_row f l = mask_row g l.
Proof. intros H. unfold mask_row. apply imap_ext. intros v a _. by rewrite H. Qed.

Lemma gather_lowered (P : Rank -> Prop) logits logits' m mask rks off :
  vstarts_ok off rks -> Forall P rks ->
  (forall rk o, P rk -> st_vstart (rk_st rk) = Z.of_nat o ->
     length (nth m (logits rk) []) = st_V (rk_st rk) /\
     length (nth m (logits' rk) []) = st_V (rk_st rk) /\
     lowered (mask_row (fun v => mask (o + v)%nat) (nth m (logits rk) []))
             (mask_row (fun v => mask (o + v)%nat) (nth m (logits' rk) []))) ->
  lowered (mask_row (fun v => mask (off + v)%nat) (gather logits rks m))
          (mask_row (fun v => mask (off + v)%nat) (gather logits' rks m)).
Proof.
  intros Hv HP H. revert off Hv. induction HP as [|rk rks Hrk HP IH]; intros off Hv; [apply lowered_refl|].
  destruct Hv as [Hst Hv]. unfold gather. cbn [map concat]. rewrite !mask_row_app.
  destruct (H rk off Hrk Hst) as (Hl & Hl' & Hlow). apply lowered_app; [done|]. rewrite Hl, Hl'.
  specialize (IH _ Hv). unfold gather in IH.
  rewrite !(mask_row_ext (fun v => mask (off + (st_V (rk_st rk) + v))%nat) (fun v => mask (off + st_V (rk_st rk) + v)%nat))
    by (intros v; f_equal; lia). done.
Qed.

(** ** The step of all ranks *)
Section Step.
Context (rnd bf : Q -> fp) (FMAX : Q) (root : list fp -> fp) (mma_screen exact_mm stock_mm : list fp -> list fp -> fp)
  (K SBN XBV : nat) (HL : HeadLaws rnd bf FMAX root mma_screen exact_mm stock_mm K).

(** A rank whose tables are built, its screen programs run in some order, and the rows of a
    step on it. *)
Definition rank_ok (x : list (list fp)) (rk : Rank) : Prop :=
  tables_ok rnd bf (rk_st rk) /\ K = st_K (rk_st rk) /\
  rk_order rk ≡ₚ seq 0 (ntiles (st_V (rk_st rk)) SBN) /\
  forall r, r ∈ x -> length r = K /\
    (xnorm_bad (xnorm_xn rnd root (xnorm_xg rnd root (NG (rk_st rk)) (st_group (rk_st rk)) r)) = false ->
     forall v, (v < st_V (rk_st rk))%nat -> exists l, stock_mm r (map Fin (nth v (st_W (rk_st rk)) [])) = Fin l).

Definition cert_of (bb : Buffers) (x : list (list fp)) (rk : Rank) : list (list fp) :=
  certified_logits rnd bf root mma_screen exact_mm SBN XBV (rk_order rk) (rk_hi0 rk) (rk_thr0 rk) (rk_bad0 rk)
    (flag bb) (stop bb) (rk_st rk) x.
Definition stock_of (x : list (list fp)) (rk : Rank) : list (list fp) := stock_logits bf stock_mm (rk_st rk) x.

(** What [_compute_lm_head] returns on a rank. *)
Definition lm_head_of (rt : head_mode) (c : Counters) (bb : Buffers) (x : list (list fp)) (rk : Rank) : list (list fp) :=
  (_compute_lm_head rt (flag bb) (stock_of x rk) (cert_of bb x rk) c).1.

Lemma stock_of_row x rk m r :
  x !! m = Some r ->
  nth m (stock_of x rk) [] = map (fun v => to_bf16 bf (stock_mm r (map Fin (nth v (st_W (rk_st rk)) [])))) (seq 0 (st_V (rk_st rk))).
Proof. intros Hm. apply nth_lookup_Some. unfold stock_of, stock_logits. by rewrite list_lookup_fmap, Hm. Qed.

Lemma isstop_in st stop v : Z.of_nat v + st_vstart st ∈ stop -> isstop st stop v = true.
Proof. intros H. unfold isstop. apply existsb_exists. exists (Z.of_nat v + st_vstart st). split; [by apply list_elem_of_In|lia]. Qed.

(** C2: whatever verify, compact and idle steps came before, a verify step leaves the flag
    and the stop ids of every rank such that for every row the argmax of the gathered
    logits, under any mask the penalizer of the batch may apply, is the one of the stock
    logits; when the step is not armed the logits are the stock ones.  This holds on the
    certified path, the check path and the stock path, for every order of the screen's
    programs and any contents of the buffers, rounding included. *)
Theorem certified_argmax_exact (hist : list call) (b : Batch) (x : list (list fp)) (rks : list Rank) :
  (0 < SBN)%nat -> (0 < XBV)%nat -> Forall (rank_ok x) rks -> vstarts_ok 0 rks ->
  exists h h' b' bb,
    run (mkHost (Some new_buffers) 0 0) hist = Ok h /\ run_non_compact h b = Ok (h', b') /\ bufs h' = Some bb /\
    forall (rt : head_mode) (c : Counters) (mask : nat -> bool) (m : nat),
      (forall p, mask p = true -> Z.of_nat p ∈ batch_stops b) -> (m < length x)%nat ->
      argmax_by arg_lt (mask_row mask (gather (lm_head_of rt c bb x) rks m))
      = argmax_by arg_lt (mask_row mask (gather (stock_of x) rks m)) /\
      ((step_armed b).1.1 = false -> gather (lm_head_of rt c bb x) rks m = gather (stock_of x) rks m).
Proof.
  intros HS HX Hrks Hv.
  destruct (run_spec hist (mkHost (Some new_buffers) 0 0)) as (h & Eh & HN & Hok).
  { intros bb [= <-]. apply new_buffers_ok. }
  destruct (run_non_compact_spec h b Hok) as (h' & b' & Er & HN' & Hbb).
  destruct (bufs h') as [bb|] eqn:Ebb; [|exfalso; discriminate (proj1 HN (proj1 HN' eq_refl))].
  destruct (Hbb bb eq_refl) as (_ & Hflag & Hstop).
  exists h, h', b', bb. repeat (split; [done|]). intros rt c mask m Hmask Hm.
  destruct (lookup_lt_is_Some_2 x m Hm) as [r Hr].
  assert (Hrow : forall rk o, rank_ok x rk -> st_vstart (rk_st rk) = Z.of_nat o -> exists out,
    nth m (cert_of bb x rk) [] = out /\
    lowered (mask_row (fun v => mask (o + v)%nat) (nth m (stock_of x rk) [])) (mask_row (fun v => mask (o + v)%nat) out) /\
    (flag bb =? 0 = true -> out = nth m (stock_of x rk) [])).
  { intros rk o (HT & HK & Ho & Hrows) Hst.
    destruct (certified_row (rk_st rk) SBN XBV (rk_order rk) (stop bb) x HT HK HS HX Ho
      ltac:(intros r' Hr'; rewrite <- HK; by apply Hrows)
      (flag bb) (rk_hi0 rk) (rk_thr0 rk) (rk_bad0 rk) (fun v => mask (o + v)%nat) m r) as (out & Eo & Hlow & Hfull & _); [|done|].
    { intros Ef v Hmv. apply isstop_in. rewrite Hst. destruct ((step_armed b).1.1); [|by rewrite Hflag in Ef].
      replace (Z.of_nat v + Z.of_nat o) with (Z.of_nat (o + v)) by lia. by apply Hstop, Hmask. }
    exists out. rewrite (stock_of_row x rk m r Hr). split; [by apply nth_lookup_Some|]. by split. }
  split.
  - apply lowered_argmax.
    apply (gather_lowered (rank_ok x) (stock_of x) (lm_head_of rt c bb x) m mask rks 0 Hv Hrks).
    intros rk o Hok' Hst. destruct (Hrow rk o Hok' Hst) as (out & Eo & Hlow & _).
    assert (Hl : length (nth m (stock_of x rk) []) = st_V (rk_st rk)).
    { by rewrite (stock_of_row x rk m r Hr), length_map, length_seq. }
    split; [done|]. unfold lm_head_of. destruct rt; cbn [_compute_lm_head fst].
    + split; [done|]. apply lowered_refl.
    + rewrite Eo. split; [|done]. destruct Hlow as [Hlen _]. unfold mask_row in Hlen. rewrite !length_imap in Hlen. lia.
    + split; [done|]. apply lowered_refl.
  - intros Harm. rewrite Harm in Hflag. clear -Hrow Hflag Hrks Hv. unfold gather. f_equal.
    revert Hv. generalize 0%nat. induction Hrks as [|rk rks Hrk Hrks IH]; intros o Hv; [done|].
    destruct Hv as [Hst Hv]. cbn [map]. f_equal; [|by eapply IH].
    destruct (Hrow rk o Hrk Hst) as (out & Eo & _ & Hfull). rewrite Hflag in Hfull.
    unfold lm_head_of. destruct rt; cbn [_compute_lm_head fst]; [done| |done]. rewrite Eo. by apply Hfull.
Qed.

Lemma count_zero {A} (p : A -> bool) l : (forall a, a ∈ l -> p a = false) -> count p l = 0.
Proof.
  intros H. unfold count, zlen. induction l as [|a l IH]; [done|]. rewrite filter_cons.
  rewrite (H a) by (by left). case_decide; [done|]. apply IH. intros a' Ha'. apply H. by right.
Qed.

(** The value at the argmax is kept. *)
Lemma lowered_top l l' : l <> [] -> lowered l l' ->
  l' !! argmax_by arg_lt l = l !! argmax_by arg_lt l /\ is_Some (l !! argmax_by arg_lt l).
Proof.
  intros Hne [Hl H].
  destruct (argmax_by_spec arg_lt arg_lt_irrefl arg_lt_trans (fun x y z => arg_lt_split x y z) l Hne) as (y & Hy & Hmax & _).
  split; [|by exists y]. destruct (lookup_lt_is_Some_2 l' (argmax_by arg_lt l)) as [y' Hy'].
  { apply lookup_lt_Some in Hy. lia. }
  rewrite Hy, Hy'. f_equal. destruct (H _ _ _ Hy Hy') as [|(k & z & Hk & _ & Hlt & _)]; [done|].
  by rewrite (Hmax k z Hk) in Hlt.
Qed.

Lemma fp_ne_refl a : isnan a = false -> fp_ne a a = false.
Proof. intros H. unfold fp_ne. by rewrite fp_lt_irrefl, H. Qed.

(** Check mode counts no mismatch of any kind, whatever the flag and the stop slots
    hold, when the stock logits of its rows are finite products. *)
Theorem check_counts_clean x rk flag stop c :
  (0 < SBN)%nat -> (0 < XBV)%nat -> (0 < st_V (rk_st rk))%nat -> rank_ok x rk ->
  (forall r v, r ∈ x -> (v < st_V (rk_st rk))%nat ->
     exists l, stock_mm r (map Fin (nth v (st_W (rk_st rk)) [])) = Fin l) ->
  _check flag (stock_of x rk)
    (certified_logits rnd bf root mma_screen exact_mm SBN XBV (rk_order rk) (rk_hi0 rk) (rk_thr0 rk) (rk_bad0 rk)
       flag stop (rk_st rk) x) c
  = mkCounters (steps c + 1) (cert_steps c + (if flag =? 0 then 0 else 1)) (arg_mismatch c) (value_mismatch c)
      (computed_mismatch c) (full_mismatch c) (n_rows c + zlen x).
Proof.
  intros HS HX HV (HT & HK & Ho & Hrows) Hfin.
  set (cert := certified_logits _ _ _ _ _ _ _ _ _ _ _ _ _ _ _). set (st := rk_st rk) in *.
  set (e r v := to_bf16 bf (stock_mm r (map Fin (nth v (st_W st) [])))).
  assert (He : forall r v, r ∈ x -> (v < st_V st)%nat -> isnan (e r v) = false).
  { intros r v Hr Hvv. unfold e. destruct (Hfin r v Hr Hvv) as [l ->]. simpl.
    pose proof (@bf_num _ _ _ head_float l). by destruct (bf l). }
  assert (Hpair : forall ab, ab ∈ zip (stock_of x rk) cert -> exists r, r ∈ x /\ ab.1 = map (e r) (seq 0 (st_V st)) /\
            lowered ab.1 ab.2 /\ (flag =? 0 = true -> ab.2 = ab.1) /\
            forall v, (v < st_V st)%nat -> ab.2 !! v = Some (e r v) \/ ab.2 !! v = Some NInf).
  { intros [a b'] Hab. apply list_elem_of_lookup in Hab as [m Hm]. apply lookup_zip_with_Some in Hm as (a0 & b0 & E & Ha & Hb).
    injection E as -> ->. unfold stock_of, stock_logits in Ha. rewrite list_lookup_fmap in Ha.
    destruct (x !! m) as [r|] eqn:Hr; [|done]. injection Ha as <-. exists r. cbn [fst snd].
    destruct (certified_row st SBN XBV (rk_order rk) stop x HT HK HS HX Ho ltac:(intros r' Hr'; rewrite <- HK; by apply Hrows)
      flag (rk_hi0 rk) (rk_thr0 rk) (rk_bad0 rk) (fun _ => false) m r) as (out & Eo & Hlow & Hfull & Hv); [done|done|].
    unfold cert in Hb. rewrite Eo in Hb. injection Hb as <-. split; [by eapply list_elem_of_lookup_2|].
    assert (Hid : forall l, mask_row (fun _ => false) l = l).
    { intros l. unfold mask_row. clear. induction l as [|y l IH]; [done|]. cbn. f_equal. exact IH. }
    rewrite !Hid in Hlow. split; [done|]. split; [exact Hlow|]. by split. }
  assert (Hne : forall r, map (e r) (seq 0 (st_V st)) <> []).
  { intros r Hn. apply (f_equal length) in Hn. rewrite length_map, length_seq in Hn. simpl in Hn. lia. }
  assert (Hcell : forall ab, ab ∈ concat (map (fun ab : list fp * list fp => zip ab.1 ab.2) (zip (stock_of x rk) cert)) ->
            isnan ab.1 = false /\ (ab.2 = ab.1 \/ ab.2 = NInf /\ flag =? 0 = false)).
  { intros [p q] Hin. apply list_elem_of_In, in_concat in Hin as (row & Hrow & Hin).
    apply list_elem_of_In, list_elem_of_fmap in Hrow as (ab & -> & Hab).
    destruct (Hpair ab Hab) as (r & Hr & Ea & _ & Hfull & Hv). apply list_elem_of_In, list_elem_of_lookup in Hin as [v Hin].
    apply lookup_zip_with_Some in Hin as (p0 & q0 & E & Hp & Hq). injection E as -> ->. cbn [fst snd].
    rewrite Ea in Hp. rewrite list_lookup_fmap in Hp. destruct (decide (v < st_V st)%nat) as [Hlt|Hge].
    2:{ by rewrite lookup_seq_ge in Hp by lia. }
    rewrite lookup_seq_lt in Hp by done. injection Hp as <-. split; [by apply He|].
    destruct (flag =? 0) eqn:Ef.
    - rewrite (Hfull eq_refl), Ea, list_lookup_fmap, lookup_seq_lt in Hq by done. injection Hq as <-. by left.
    - destruct (Hv v Hlt) as [H|H]; rewrite H in Hq; injection Hq as <-; [by left|by right]. }
  assert (Htop : forall ab, ab ∈ zip (stock_of x rk) cert ->
            argmax_by arg_lt ab.2 = argmax_by arg_lt ab.1 /\
            exists y, nth (argmax_by arg_lt ab.1) ab.1 NaN = y /\ nth (argmax_by arg_lt ab.1) ab.2 NaN = y /\ isnan y = false).
  { intros ab Hab. destruct (Hpair ab Hab) as (r & Hr & Ea & Hlow & _).
    destruct (lowered_top ab.1 ab.2 ltac:(rewrite Ea; apply Hne) Hlow) as [H1 [y Hy]]. rewrite Hy in H1.
    split; [by apply lowered_argmax|]. exists y. split; [by apply nth_lookup_Some|]. split; [by apply nth_lookup_Some|].
    rewrite Ea, list_lookup_fmap in Hy. destruct (seq 0 (st_V st) !! _) as [v|] eqn:Ev; [|done]. injection Hy as <-.
    apply lookup_seq in Ev as [-> Hlt]. by apply He. }
  unfold _check. rewrite (count_zero _ (zip (stock_of x rk) cert)), (count_zero _ (zip (stock_of x rk) cert)).
  2:{ intros ab Hab. destruct (Htop ab Hab) as (-> & y & -> & -> & Hn). by apply fp_ne_refl. }
  2:{ intros ab Hab. destruct (Htop ab Hab) as (-> & _). by rewrite Nat.eqb_refl. }
  rewrite (count_zero _ (concat _)).
  2:{ intros ab Hab. destruct (Hcell ab Hab) as [Hn [E|[E _]]]; rewrite E; [by rewrite fp_ne_refl|apply andb_false_r]. }
  assert (Hfm : (if flag =? 0 then count (fun ab : fp * fp => fp_ne ab.1 ab.2)
     (concat (map (fun ab : list fp * list fp => zip ab.1 ab.2) (zip (stock_of x rk) cert))) else 0) = 0).
  { destruct (flag =? 0) eqn:Ef; [|done]. apply count_zero. intros ab Hab.
    destruct (Hcell ab Hab) as [Hn [E|[_ E]]]; [rewrite E; by apply fp_ne_refl|done]. }
  rewrite Hfm, !Z.add_0_r. f_equal. unfold stock_of, stock_logits, zlen. by rewrite length_map.
Qed.
End Step.

(** ** A concrete instance

    Exact arithmetic that overflows at 2^127, two ranks of three rows and one, and a step
    after a sampled batch and an idle step, with a stop id of the penalizer. *)
Module Instances.
#[local] Open Scope Q_scope.

Definition ex_max : Q := Eval vm_compute in inject_Z (2 ^ 127).
Definition ex_rnd (q : Q) : fp :=
  if Qle_bool (Qabs q) ex_max then Fin q else if Qle_bool 0 q then PInf else NInf.

Fixpoint finites (l : list fp) : option (list Q) :=
  match l with
  | [] => Some []
  | Fin q :: l' => match finites l' with Some qs => Some (q :: qs) | None => None end
  | _ => None
  end.
Definition ex_root (l : list fp) : fp :=
  match finites l with Some qs => Fin (1 + sq qs) | None => NaN end.
Definition ex_mm (x w : list fp) : fp :=
  match finites x, finites w with Some xs, Some ws => ex_rnd (dot ws xs) | _, _ => NaN end.

Lemma finites_Some l qs : finites l = Some qs -> l = map Fin qs.
Proof.
  revert qs. induction l as [|[| |q|] l IH]; intros qs; simpl; try done; [by intros [= <-]|].
  destruct (finites l); [|done]. intros [= <-]. simpl. f_equal. by apply IH.
Qed.

Lemma finites_map qs : finites (map Fin qs) = Some qs.
Proof. induction qs as [|q qs IH]; [done|]. simpl. by rewrite IH. Qed.

Lemma ex_rnd_Fin q r : ex_rnd q = Fin r -> r = q /\ Qabs q <= ex_max.
Proof.
  unfold ex_rnd. destruct (Qle_bool (Qabs q) ex_max) eqn:E; [|by case_match].
  intros [= <-]. split; [done|]. by apply Qle_bool_iff.
Qed.

#[export] Instance ex_float : FloatLaws ex_rnd ex_rnd ex_max.
Proof.
  assert (Hbig : forall q, Qle_bool (Qabs q) ex_max = false -> ex_max < Qabs q) by (intros q; apply Qle_bool_gt).
  split.
  - unfold ex_max. lra.
  - intros q. unfold ex_rnd. by repeat case_match.
  - intros q r [-> _]%ex_rnd_Fin. assert (E : q - q == 0) by ring. rewrite E. pose proof (Qabs_nonneg q).
    change (Qabs 0) with 0. unfold u, tiny. lra.
  - intros q r [-> H]%ex_rnd_Fin. done.
  - intros q. unfold ex_rnd. destruct (Qle_bool (Qabs q) ex_max) eqn:E; [done|].
    destruct (Qle_bool 0 q) eqn:E0; [|done]. intros _. apply Qle_bool_iff in E0. apply Hbig in E.
    by rewrite Qabs_pos in E.
  - intros q. unfold ex_rnd. destruct (Qle_bool (Qabs q) ex_max) eqn:E; [done|].
    destruct (Qle_bool 0 q) eqn:E0; [done|]. intros _. apply Qle_bool_gt in E0. apply Hbig in E.
    rewrite Qabs_neg in E by lra. lra.
  - intros q r [-> _]%ex_rnd_Fin. done.
  - intros q. unfold ex_rnd. by repeat case_match.
  - intros p q Hpq. unfold ex_rnd.
    destruct (Qle_bool (Qabs p) ex_max) eqn:Ep, (Qle_bool (Qabs q) ex_max) eqn:Eq.
    + simpl. apply negb_true_iff, negb_false_iff. by apply Qle_bool_iff.
    + destruct (Qle_bool 0 q) eqn:E0; [done|]. apply Qle_bool_gt in E0. apply Hbig in Eq.
      rewrite Qabs_neg in Eq by lra. apply Qle_bool_iff, Qabs_bounds in Ep. lra.
    + destruct (Qle_bool 0 p) eqn:E0; [|done]. apply Qle_bool_iff in E0. apply Hbig in Ep.
      rewrite Qabs_pos in Ep by lra. apply Qle_bool_iff, Qabs_bounds in Eq. lra.
    + destruct (Qle_bool 0 p) eqn:E0, (Qle_bool 0 q) eqn:E1; try done.
      apply Qle_bool_iff in E0. apply Qle_bool_gt in E1. lra.
Qed.

#[export] Instance ex_head : HeadLaws ex_rnd ex_rnd ex_max ex_root ex_mm ex_mm ex_mm 2.
Proof.
  assert (Herr : forall xs ws a n r, ex_mm (map Fin xs) (map Fin ws) = Fin a -> 0 <= n -> 0 <= r ->
            Qabs (a - dot ws xs) <= c_acc (Z.of_nat 2) * (n * r)).
  { intros xs ws a n r H Hn Hr. unfold ex_mm in H. rewrite !finites_map in H. apply ex_rnd_Fin in H as [-> _].
    assert (E : dot ws xs - dot ws xs == 0) by ring. rewrite E. change (Qabs 0) with 0.
    assert (0 <= c_acc (Z.of_nat 2)) by (vm_compute; done). assert (0 <= n * r) by nra. nra. }
  split.
  - apply ex_float.
  - intros l. unfold ex_root. destruct (finites l) as [qs|]; [|done]. simpl. pose proof (sq_nonneg qs). lra.
  - intros l s. unfold ex_root. destruct (finites l) as [qs|] eqn:E; [|done]. intros [= <-].
    exists qs. split; [by apply finites_Some|]. pose proof (sq_nonneg qs) as H. revert H. generalize (sq qs). intros t H.
    unfold root_slack, root_abs. nra.
  - intros xs s. unfold ex_root. rewrite finites_map. intros [= <-] _.
    pose proof (sq_nonneg xs) as H. revert H. generalize (sq xs). intros t H. unfold root_slack. nra.
  - intros x w a. unfold ex_mm. destruct (finites x) as [xs|] eqn:Ex; [|done]. destruct (finites w) as [ws|] eqn:Ew; [|done].
    intros [-> H]%ex_rnd_Fin. split; [done|]. exists xs, ws. split; by apply finites_Some.
  - intros. by apply Herr.
  - intros. by apply Herr.
  - done.
Qed.

(** A shard whose screening copy drops a small weight of the first row. *)
Definition shard (V : nat) (vstart : Z) (W : list (list Q)) (q : list (list Z)) (rt : list (list fp)) : State :=
  mkState W q (replicate V [127%Z]) rt (replicate V (Fin 4)) V 2 1 vstart.
Definition st0 : State := shard 3 0 [[3; 1 # 4]; [0; 1]; [1; 0]] [[3; 0]; [0; 1]; [1; 0]]%Z
  [[Fin 0; Fin (1 # 4)]; [Fin 0; Fin 0]; [Fin 0; Fin 0]].
Definition st1 : State := shard 1 3 [[1; 1]] [[1; 1]]%Z [[Fin 0; Fin 0]].
Definition rank0 : Rank := mkRank st0 [1; 0; 2]%nat [] [] [].
Definition rank1 : Rank := mkRank st1 [0]%nat [] [] [].
Definition rows : list (list fp) := [[Fin 2; Fin 1]; [Fin 3; Fin 0]].

Definition req0 : Req := mkReq (Some [Some 1%Z]) None (Some {| additional_stop_token_ids := None; eos_token_id := Some 1%Z |}) None.
Definition batch_with (greedy : bool) : Batch :=
  mkBatch false false
    (Some {| is_all_greedy := greedy; has_custom_logit_processor := false; logit_bias := false; grammar_mask := false;
             penalizer_orchestrator := Some {| is_required := true;
               penalizers := [(true, "BatchedMinNewTokensPenalizer"%string)] |} |}) [req0].
Definition hist0 : list call := [NonCompact (batch_with false); Idle; NonCompact (batch_with true); Compact].

Lemma map_Fin_finites l qs : l = map Fin qs -> finites l = Some qs.
Proof. intros ->. apply finites_map. Qed.

Lemma tables_shard st : st = st0 \/ st = st1 -> tables_ok ex_rnd ex_rnd st.
Proof.
  intros Hst. split.
  1-4: destruct Hst as [-> | ->]; vm_compute; repeat split; (lia || done).
  intros v Hv w D rt nv.
  destruct Hst as [-> | ->]; [destruct v as [|[|[|v]]]|destruct v as [|v]]; simpl in Hv; try lia;
    (repeat split; try done;
     [ repeat (apply Forall_cons_2; [vm_compute; done|]); by apply Forall_nil_2
     | intros ds rs Hds%map_Fin_finites Hrs%map_Fin_finites; vm_compute in Hds, Hrs; injection Hds as <-; injection Hrs as <-;
       refine (List.Forall2_cons _ _ _ (List.Forall2_cons _ _ _ (List.Forall2_nil _))); vm_compute; done
     | injection H as <-; vm_compute; done
     | injection H as <-; intros ds Hds%map_Fin_finites; vm_compute in Hds; injection Hds as <-; vm_compute; done ]).
Qed.

Lemma rank_ok_ex rk : rk = rank0 \/ rk = rank1 -> rank_ok ex_rnd ex_rnd ex_root ex_mm 2 1 rows rk.
Proof.
  intros Hrk. split; [apply tables_shard; destruct Hrk as [-> | ->]; auto|].
  split; [by destruct Hrk as [-> | ->]|]. split.
  { destruct Hrk as [-> | ->]; [apply perm_swap|done]. }
  intros r Hr. assert (Hr' : r = [Fin 2; Fin 1] \/ r = [Fin 3; Fin 0]) by (unfold rows in Hr; set_solver).
  split; [by destruct Hr' as [-> | ->]|]. intros _ v Hv.
  destruct Hrk as [-> | ->]; destruct Hr' as [-> | ->]; [destruct v as [|[|[|v]]]..|destruct v as [|v]|destruct v as [|v]];
    simpl in Hv; try lia; eexists; vm_compute; reflexivity.
Qed.
End Instances.
Import Instances.

Lemma certified_argmax_exact_witness :
  exists h h' b' bb,
    run (mkHost (Some new_buffers) 0 0) hist0 = Ok h /\ run_non_compact h (batch_with true) = Ok (h', b') /\
    bufs h' = Some bb /\
    forall rt c mask m,
      (forall p, mask p = true -> Z.of_nat p ∈ batch_stops (batch_with true)) -> (m < 2)%nat ->
      argmax_by arg_lt (mask_row mask (gather (lm_head_of ex_rnd ex_rnd ex_root ex_mm ex_mm ex_mm 1 1 rt c bb rows) [rank0; rank1] m))
      = argmax_by arg_lt (mask_row mask (gather (stock_of ex_rnd ex_mm rows) [rank0; rank1] m)) /\
      ((step_armed (batch_with true)).1.1 = false ->
       gather (lm_head_of ex_rnd ex_rnd ex_root ex_mm ex_mm ex_mm 1 1 rt c bb rows) [rank0; rank1] m
       = gather (stock_of ex_rnd ex_mm rows) [rank0; rank1] m).
Proof.
  apply (certified_argmax_exact ex_rnd ex_rnd ex_max ex_root ex_mm ex_mm ex_mm 2 1 1 ex_head
           hist0 (batch_with true) rows [rank0; rank1]).
  - lia.
  - lia.
  - apply Forall_cons_2; [|apply Forall_cons_2; [|apply Forall_nil_2]]; apply rank_ok_ex; auto.
  - vm_compute. auto.
Defined.

(** The third tile of the first shard is skipped; the second holds a stop id. *)
Example tiles_of_the_step :
  certified_logits ex_rnd ex_rnd ex_root ex_mm ex_mm 1 1 [1; 0; 2]%nat [] [] [] 1 [1] st0 rows
  = [[Fin (25 # 4); Fin 1; NInf]; [Fin (36 # 4); Fin 0; NInf]].
Proof. vm_compute. reflexivity. Qed.

Lemma check_counts_clean_witness :
  let c := mkCounters 0 0 0 0 0 0 0 in
  _check 1 (stock_of ex_rnd ex_mm rows rank0)
    (certified_logits ex_rnd ex_rnd ex_root ex_mm ex_mm 1 1 [1; 0; 2]%nat [] [] [] 1 [] st0 rows) c
  = mkCounters 1 1 0 0 0 0 2.
Proof.
  apply (check_counts_clean ex_rnd ex_rnd ex_max ex_root ex_mm ex_mm ex_mm 2 1 1 ex_head rows rank0 1 []
           (mkCounters 0 0 0 0 0 0 0)).
  - lia.
  - lia.
  - vm_compute. lia.
  - apply rank_ok_ex. auto.
  - intros r v Hr Hv. destruct (rank_ok_ex rank0 (or_introl eq_refl)) as (_ & _ & _ & H). destruct (H r Hr) as [_ Hf].
    apply Hf; [|done]. assert (Hr' : r = [Fin 2; Fin 1] \/ r = [Fin 3; Fin 0]) by (unfold rows in Hr; set_solver).
    destruct Hr' as [-> | ->]; vm_compute; reflexivity.
Defined.
