(* ===== verification/RoceIdlePark.v ===== *)
(** * Idle parking of the RoCE proxies (adapter/roce_idle_park.py)

    A rank's proxy threads may block while the engine is idle.  Modelled: the settings, the
    decisions of the two installers, the entries with their weak references, the busy and
    idle transitions with the three scheduler hooks, and all ranks that run collectives.
    The proxy is C code of the vendored runtime: a class of operations with the laws its
    documentation gives.  The format of the log lines is not modelled. *)
From S2P Require Import Prelude PyStr.
#[local] Open Scope string_scope.
#[local] Open Scope list_scope.
#[local] Open Scope Z_scope.

(** ** Settings *)
Definition GATE := "DSV41_ROCE_IDLE_PARK".
Definition KEY_MS := "DSV41_ROCE_IDLE_PARK_MS".
Definition KEY_POLL := "DSV41_ROCE_IDLE_PARK_POLL_MS".
Definition MODULE := "b12x.comm.roce_twoshot.roce_oneshot".

Definition enabled (environ : environ) : bool := String.eqb (strip (env_get environ GATE "0")) "1".

(** One round of [config]'s loop; [default] is the default's decimal text. *)
Definition config_key (environ : environ) (key default : string) (hi : Z) : res Z :=
  let raw := strip (env_get environ key "") in
  let raw := if String.eqb raw "" then default else raw in
  value ← py_int raw;
  if (1 <=? value) && (value <=? hi) then Ok value else Raise ValueError.

Definition config (environ : environ) : res (Z * Z) :=
  after_ms ← config_key environ KEY_MS "1000" 3600000;
  poll_ms ← config_key environ KEY_POLL "20" 1000;
  Ok (after_ms, poll_ms).

(** ** The installers' decisions *)

(** [install_runtime]: [None] leaves the module alone. [lib] is [None] before the proxy
    library is loaded, else whether it was built with parking. *)
Definition install_runtime (environ : environ) (name : string) (already : bool) (lib : option bool) : res (option (Z * Z)) :=
  if negb (String.eqb name MODULE) then
    if String.eqb (strip (env_get environ "DSV41_ROCE_TWOSHOT" "0")) "1" then Ok None else Raise RuntimeError
  else if already then Ok None
  else
    ms ← config environ;
    match lib with
    | Some false => Raise RuntimeError
    | _ => Ok (Some ms)
    end.

(** [install_scheduler]: the idle method that is hooked, and whether the input method is. *)
Definition install_scheduler (already : bool) (hasattr : string -> bool) : res (option (string * bool)) :=
  if already then Ok None
  else match filter (fun n => hasattr n = true) ["on_idle"; "self_check_during_idle"] with
       | idle_name :: _ => if hasattr "run_batch" then Ok (Some (idle_name, hasattr "process_input_requests"))
                           else Raise RuntimeError
       | [] => Raise RuntimeError
       end.

(** ** The proxy, as the scheduler's side sees it *)
Record Stats := { s_tid : Z; s_parks : Z }.

Class ProxyOps (P : Type) := {
  park_configure : Z -> Z -> P -> P;
  park_allow : P -> P;
  park_wake : P -> P;
  park_stats : P -> Stats;
  (** a step of the thread itself, given what it observed (doorbells, the clock) *)
  tick : nat -> P -> P;
  parked : P -> bool }.

(** A started proxy may not park; [park_allow] and [park_wake] set and clear the permission,
    which the thread itself leaves alone, and without it the thread's next step runs. *)
Class ProxyLaws (P : Type) {O : ProxyOps P} := {
  may_park : P -> bool;
  started : P -> Prop;
  started_no p : started p -> may_park p = false /\ parked p = false;
  configure_may a b p : may_park (park_configure a b p) = may_park p;
  allow_may p : may_park (park_allow p) = true;
  wake_may p : may_park (park_wake p) = false;
  tick_may n p : may_park (tick n p) = may_park p;
  tick_runs n p : may_park p = false -> parked (tick n p) = false }.

(** ** One rank's scheduler process *)
Section Rank.
Context {P : Type} {O : ProxyOps P}.

Record _Entry := mkEntry { runtime : nat; allowed : bool; tid_logged : bool; parks_logged : Z }.

(** A runtime object: its rank and its proxy (if it has one). *)
Record Runtime := mkRuntime { rt_rank : Z; _proxy : option P }.

Inductive line := LogTid (rank tid : Z) | LogStats (rank parks : Z).

(** [alive] holds the objects that weak references still reach; [next] the next object. *)
Record Host := mkHost {
  alive : gmap nat Runtime; next : nat; _ENTRIES : list _Entry; _STATE : bool; log : list line }.

Definition new_host : Host := mkHost ∅ 0 [] false [].

Definition proxy (h : gmap nat Runtime) (e : _Entry) : option P := rt ← h !! runtime e; _proxy rt.

Definition set_proxy (h : gmap nat Runtime) (i : nat) (p : P) : gmap nat Runtime :=
  alter (fun rt => mkRuntime (rt_rank rt) (Some p)) i h.

(** The loop of [_idle], one entry at a time. *)
Definition idle_entry (h : gmap nat Runtime) (e : _Entry) : gmap nat Runtime * _Entry * list line :=
  match proxy h e with
  | None => (h, e, [])
  | Some p =>
      let stats := park_stats p in
      let rank := match h !! runtime e with Some rt => rt_rank rt | None => -1 end in
      let log_tid := negb (tid_logged e) && negb (s_tid stats =? 0) in
      let log_stats := negb (s_parks stats =? parks_logged e) in
      (set_proxy h (runtime e) (park_allow p),
       mkEntry (runtime e) true (tid_logged e || log_tid) (if log_stats then s_parks stats else parks_logged e),
       (if log_tid then [LogTid rank (s_tid stats)] else []) ++ (if log_stats then [LogStats rank (s_parks stats)] else []))
  end.

(** [for e in _ENTRIES], with a body that may change the object an entry reaches, the entry
    and the log. *)
Fixpoint for_entries (body : gmap nat Runtime -> _Entry -> gmap nat Runtime * _Entry * list line)
    (h : gmap nat Runtime) (es : list _Entry) : gmap nat Runtime * list _Entry * list line :=
  match es with
  | [] => (h, [], [])
  | e :: es' =>
      let '(h1, e1, l1) := body h e in
      let '(h2, es2, l2) := for_entries body h1 es' in
      (h2, e1 :: es2, l1 ++ l2)
  end.

Definition _idle (s : Host) : Host :=
  if _STATE s then s
  else let '(h, es, l) := for_entries idle_entry (alive s) (_ENTRIES s) in mkHost h (next s) es true (log s ++ l).

Definition wake_entry (h : gmap nat Runtime) (e : _Entry) : gmap nat Runtime * _Entry * list line :=
  if allowed e then
    (match proxy h e with Some p => set_proxy h (runtime e) (park_wake p) | None => h end,
     mkEntry (runtime e) false (tid_logged e) (parks_logged e), [])
  else (h, e, []).

Definition _wake (s : Host) : Host :=
  let '(h, es, l) := for_entries wake_entry (alive s) (_ENTRIES s) in mkHost h (next s) es false (log s ++ l).

(** The hooks, up to the wrapped method. *)
Definition idle_hook (s : Host) : Host := _idle s.
Definition run_batch_hook (s : Host) : Host := if _STATE s then _wake s else s.
Definition process_hook (recv_reqs : nat) (s : Host) : Host :=
  if negb (Nat.eqb recv_reqs 0) && _STATE s then _wake s else s.

(** The wrapped [__init__] of a runtime, whose original starts the proxy [p]. *)
Definition runtime_init (after_ms poll_ms rank : Z) (p : P) (s : Host) : Host :=
  mkHost (<[next s := mkRuntime rank (Some (park_configure after_ms poll_ms p))]> (alive s)) (S (next s))
    (_ENTRIES s ++ [mkEntry (next s) false false 0]) (_STATE s) (log s).

(** What may happen in the process: the hooks, a runtime built or collected, a step of a
    proxy thread. *)
Inductive action :=
  | OnIdle
  | ProcessInput (recv_reqs : nat)
  | RunBatch
  | Init (after_ms poll_ms rank : Z) (p : P)
  | Collect (i : nat)
  | Tick (i : nat) (observed : nat).

Definition act (s : Host) (a : action) : Host :=
  match a with
  | OnIdle => idle_hook s
  | ProcessInput n => process_hook n s
  | RunBatch => run_batch_hook s
  | Init a b r p => runtime_init a b r p s
  | Collect i => mkHost (delete i (alive s)) (next s) (_ENTRIES s) (_STATE s) (log s)
  | Tick i n => mkHost (alter (fun rt => mkRuntime (rt_rank rt) (tick n <$> _proxy rt)) i (alive s))
                  (next s) (_ENTRIES s) (_STATE s) (log s)
  end.
End Rank.
Arguments Runtime : clear implicits.
Arguments Host : clear implicits.
Arguments action : clear implicits.

(** ** All ranks and their collectives *)
Section Ranks.
Context {P : Type} {O : ProxyOps P} {L : ProxyLaws P}.

(** A rank's process, and whether it is inside a forward. *)
Record Rk := mkRk { host : Host P; in_forward : bool }.

(** No live proxy of the rank is parked. *)
Definition awake (s : Host P) : bool :=
  forallb (fun irt : nat * Runtime P => match _proxy irt.2 with Some p => negb (parked p) | None => true end)
    (map_to_list (alive s)).

(** The original [__init__] hands over a proxy that was just started. *)
Definition starts (a : action P) : Prop := match a with Init _ _ _ p => started p | _ => True end.

(** A scheduler is one thread: while it is in a forward only its proxies move.  A collective
    ends when every rank launched its kernels and every proxy carries the traffic. *)
Inductive step : list Rk -> list Rk -> Prop :=
  | step_local g r s a :
      g !! r = Some (mkRk s false) -> a <> RunBatch -> starts a ->
      step g (<[r := mkRk (act s a) false]> g)
  | step_tick g r s f i n :
      g !! r = Some (mkRk s f) -> step g (<[r := mkRk (act s (Tick i n)) f]> g)
  | step_launch g r s :
      g !! r = Some (mkRk s false) -> step g (<[r := mkRk (act s RunBatch) true]> g)
  | step_complete g :
      Forall (fun k => in_forward k = true /\ awake (host k) = true) g ->
      step g (map (fun k => mkRk (host k) false) g).

(** Steps of proxy threads: (rank, runtime, what it observed). *)
Definition tick_at (g : list Rk) (t : nat * nat * nat) : list Rk :=
  alter (fun k => mkRk (act (host k) (Tick t.1.2 t.2)) (in_forward k)) t.1.1 g.
End Ranks.
Arguments Rk : clear implicits.

(** ** What every reachable process satisfies *)
Section Invariant.
Context {P : Type} {O : ProxyOps P} {L : ProxyLaws P}.

(** [Good]: any property of a proxy's life that holds of a started one and is kept when
    [park_allow] is called without the permission, [park_wake] with it. *)
Context (Good : P -> Prop).
Context (good_start : forall a b p, started p -> Good (park_configure a b p))
        (good_allow : forall p, Good p -> may_park p = false -> Good (park_allow p))
        (good_wake : forall p, Good p -> may_park p = true -> Good (park_wake p))
        (good_tick : forall n p, Good p -> Good (tick n p)).

Definition reach (o : option (Runtime P)) : option P := rt ← o; _proxy rt.

Record inv (s : Host P) : Prop := {
  inv_off : _STATE s = false -> Forall (fun e => allowed e = false) (_ENTRIES s);
  inv_next : Forall (fun e => (runtime e < next s)%nat) (_ENTRIES s);
  inv_nodup : NoDup (map runtime (_ENTRIES s));
  inv_alive : forall i rt, alive s !! i = Some rt -> i ∈ map runtime (_ENTRIES s);
  inv_mark : Forall (fun e => forall p, reach (alive s !! runtime e) = Some p -> may_park p = allowed e /\ Good p)
               (_ENTRIES s) }.

(** A loop whose body works on the entry's own object, entry by entry. *)
Lemma for_entries_spec (R : option (Runtime P) -> _Entry -> option (Runtime P) -> _Entry -> Prop) body :
  (forall h e h1 e1 l1, body h e = (h1, e1, l1) ->
     runtime e1 = runtime e /\ (forall i, i <> runtime e -> h1 !! i = h !! i) /\
     R (h !! runtime e) e (h1 !! runtime e) e1) ->
  forall es h h' es' l, NoDup (map runtime es) -> for_entries body h es = (h', es', l) ->
  map runtime es' = map runtime es /\ (forall i, i ∉ map runtime es -> h' !! i = h !! i) /\
  Forall2 (fun e e' => R (h !! runtime e) e (h' !! runtime e) e') es es'.
Proof.
  intros Hb. induction es as [|e es IH]; intros h h' es' l Hnd; cbn [for_entries].
  { intros [= <- <- <-]. repeat split; constructor. }
  cbn [map] in Hnd. apply NoDup_cons in Hnd as [Hni Hnd].
  destruct (body h e) as [[h1 e1] l1] eqn:E1. destruct (Hb _ _ _ _ _ E1) as (Hr & Ho & HR).
  destruct (for_entries body h1 es) as [[h2 es2] l2] eqn:E2. intros [= <- <- <-].
  destruct (IH h1 h2 es2 l2 Hnd E2) as (Hm & Hk & Hall). cbn [map]. split; [by rewrite Hr, Hm|]. split.
  - intros i [Hi1 Hi2]%not_elem_of_cons. rewrite Hk by done. by apply Ho.
  - constructor; [by rewrite (Hk _ Hni)|].
    apply Forall2_same_length_lookup. split; [by apply Forall2_length in Hall|].
    intros k x y Hx Hy. eapply Forall2_lookup_lr in Hall; [|exact Hx|exact Hy]. cbv beta in Hall.
    rewrite Ho in Hall; [done|]. intros Heq. apply Hni. rewrite <- Heq. apply list_elem_of_fmap. exists x.
    split; [done|]. by eapply list_elem_of_lookup_2.
Qed.

Lemma set_proxy_reach (h : gmap nat (Runtime P)) i p q :
  reach (h !! i) = Some q -> reach (set_proxy h i p !! i) = Some p /\ is_Some (set_proxy h i p !! i).
Proof. unfold set_proxy, reach. rewrite lookup_alter_eq. destruct (h !! i); [|done]. simpl. by eauto. Qed.

(** An object and its entry before and after the body of a loop. *)
Definition idle_rel (o : option (Runtime P)) (_ : _Entry) (o' : option (Runtime P)) (e' : _Entry) : Prop :=
  (is_Some o' <-> is_Some o) /\
  forall p', reach o' = Some p' -> exists p, reach o = Some p /\ p' = park_allow p /\ allowed e' = true.
Definition wake_rel (o : option (Runtime P)) (e : _Entry) (o' : option (Runtime P)) (e' : _Entry) : Prop :=
  (is_Some o' <-> is_Some o) /\ allowed e' = false /\
  forall p', reach o' = Some p' -> exists p, reach o = Some p /\ p' = if allowed e then park_wake p else p.

Lemma idle_entry_spec h e h1 e1 l1 :
  idle_entry h e = (h1, e1, l1) ->
  runtime e1 = runtime e /\ (forall i, i <> runtime e -> h1 !! i = h !! i) /\
  idle_rel (h !! runtime e) e (h1 !! runtime e) e1.
Proof.
  unfold idle_entry, proxy. fold (reach (h !! runtime e)). destruct (reach (h !! runtime e)) as [p|] eqn:Ep.
  - intros [= <- <- <-]. cbn [runtime]. split; [done|]. split.
    { intros i Hi. unfold set_proxy. by rewrite lookup_alter_ne. }
    destruct (set_proxy_reach h (runtime e) (park_allow p) p Ep) as [H1 H2]. split.
    { split; [|done]. intros _. unfold reach in Ep. destruct (h !! runtime e); by eauto. }
    intros p' Hp'. rewrite H1 in Hp'. injection Hp' as <-. eauto.
  - intros [= <- <- <-]. repeat split; try done. intros p' Hp'. congruence.
Qed.

Lemma wake_entry_spec h e h1 e1 l1 :
  wake_entry h e = (h1, e1, l1) ->
  runtime e1 = runtime e /\ (forall i, i <> runtime e -> h1 !! i = h !! i) /\
  wake_rel (h !! runtime e) e (h1 !! runtime e) e1.
Proof.
  unfold wake_entry, proxy. fold (reach (h !! runtime e)). destruct (allowed e) eqn:Ea.
  - destruct (reach (h !! runtime e)) as [p|] eqn:Ep; intros [= <- <- <-]; cbn [runtime allowed]; split; try done.
    + split.
      { intros i Hi. unfold set_proxy. by rewrite lookup_alter_ne. }
      destruct (set_proxy_reach h (runtime e) (park_wake p) p Ep) as [H1 H2]. split.
      { split; [|done]. intros _. unfold reach in Ep. destruct (h !! runtime e); by eauto. }
      split; [done|]. intros p' Hp'. rewrite H1 in Hp'. injection Hp' as <-. rewrite Ea. eauto.
    + repeat split; try done. intros p' Hp'. congruence.
  - intros [= <- <- <-]. repeat split; try done. rewrite Ea. eauto.
Qed.

Lemma inv_new : inv new_host.
Proof. split; try done; try constructor. Qed.

(** The loops keep the entries and the objects in place. *)
Lemma inv_frame s h es st l :
  inv s -> map runtime es = map runtime (_ENTRIES s) ->
  (forall i, i ∉ map runtime (_ENTRIES s) -> h !! i = alive s !! i) ->
  (st = false -> Forall (fun e => allowed e = false) es) ->
  Forall (fun e => forall p, reach (h !! runtime e) = Some p -> may_park p = allowed e /\ Good p) es ->
  inv (mkHost h (next s) es st l).
Proof.
  intros I Hm Hout Hoff Hmark. split; cbn [_STATE _ENTRIES next alive]; [done| | | |done].
  - apply (Forall_map runtime (fun i => (i < next s)%nat)). rewrite Hm. apply Forall_map, I.
  - rewrite Hm. apply I.
  - intros i rt Hi. rewrite Hm. destruct (decide (i ∈ map runtime (_ENTRIES s))) as [|Hni]; [done|].
    rewrite Hout in Hi by done. by eapply inv_alive.
Qed.

Lemma inv_idle s : inv s -> inv (_idle s).
Proof.
  intros I. unfold _idle. destruct (_STATE s) eqn:Es; [done|].
  destruct (for_entries idle_entry (alive s) (_ENTRIES s)) as [[h es] l] eqn:E.
  destruct (for_entries_spec idle_rel _ idle_entry_spec _ _ _ _ _ (inv_nodup _ I) E) as (Hm & Hout & Hall).
  apply inv_frame; try done. apply Forall_lookup. intros k e' He' p' Hp'.
  eapply Forall2_lookup_r in Hall as (e & He & _ & Hp); [|exact He'].
  assert (Hr : runtime e' = runtime e).
  { apply (f_equal (fun l => l !! k)) in Hm. rewrite !list_lookup_fmap, He, He' in Hm. by injection Hm. }
  rewrite Hr in Hp'. destruct (Hp p' Hp') as (p & Hreach & -> & ->). split; [apply allow_may|].
  pose proof (inv_mark _ I) as HM. rewrite Forall_lookup in HM. destruct (HM k e He p Hreach) as [Hmp Hg].
  apply good_allow; [done|]. pose proof (inv_off _ I Es) as Hoff. rewrite Forall_lookup in Hoff. by rewrite Hmp, (Hoff k e He).
Qed.

Lemma inv_wake s : inv s -> inv (_wake s) /\ _STATE (_wake s) = false.
Proof.
  intros I. unfold _wake.
  destruct (for_entries wake_entry (alive s) (_ENTRIES s)) as [[h es] l] eqn:E.
  destruct (for_entries_spec wake_rel _ wake_entry_spec _ _ _ _ _ (inv_nodup _ I) E) as (Hm & Hout & Hall).
  split; [|done]. apply inv_frame; try done.
  - intros _. apply Forall_lookup. intros k e' He'. by eapply Forall2_lookup_r in Hall as (e & _ & _ & ? & _); [|exact He'].
  - apply Forall_lookup. intros k e' He' p' Hp'.
    eapply Forall2_lookup_r in Hall as (e & He & _ & Hal & Hp); [|exact He'].
    assert (Hr : runtime e' = runtime e).
    { apply (f_equal (fun l => l !! k)) in Hm. rewrite !list_lookup_fmap, He, He' in Hm. by injection Hm. }
    rewrite Hr in Hp'. destruct (Hp p' Hp') as (p & Hreach & ->). rewrite Hal.
    pose proof (inv_mark _ I) as HM. rewrite Forall_lookup in HM. destruct (HM k e He p Hreach) as [Hmp Hg].
    destruct (allowed e); [split; [apply wake_may|by apply good_wake]|done].
Qed.

Lemma inv_act s a : starts a -> inv s -> inv (act s a).
Proof.
  intros Ha I. destruct a as [|n| |a b r p|i|i n]; cbn [act].
  - by apply inv_idle.
  - unfold process_hook. case_match; [by apply inv_wake|done].
  - unfold run_batch_hook. case_match; [by apply inv_wake|done].
  - assert (Hfresh : next s ∉ map runtime (_ENTRIES s)).
    { intros (e & He & Hin)%list_elem_of_fmap. pose proof (inv_next _ I) as Hn. rewrite Forall_forall in Hn.
      specialize (Hn e Hin). lia. }
    unfold runtime_init. split; cbn [_STATE _ENTRIES next alive].
    + intros Hs. apply Forall_app. split; [by apply I|]. by repeat constructor.
    + apply Forall_app. split; [|by repeat constructor]. eapply Forall_impl; [apply (inv_next _ I)|]. intros e He. cbv beta in He. lia.
    + rewrite map_app. apply NoDup_app. split; [apply I|]. split; [|by apply NoDup_singleton].
      intros i Hi Hi2. apply list_elem_of_singleton in Hi2 as ->. done.
    + intros i rt Hi. rewrite map_app. apply elem_of_app.
      destruct (decide (i = next s)) as [->|Hne]; [right; by left|].
      rewrite lookup_insert_ne in Hi by done. left. by eapply inv_alive.
    + apply Forall_app. split.
      * pose proof (inv_mark _ I) as HM. rewrite Forall_forall in HM. apply Forall_forall. intros e He q Hq.
        rewrite lookup_insert_ne in Hq; [by apply HM|]. intros Heq. apply Hfresh. rewrite Heq. apply list_elem_of_fmap. by exists e.
      * constructor; [|constructor]. cbn [runtime allowed]. intros q Hq. rewrite lookup_insert_eq in Hq. injection Hq as <-.
        rewrite configure_may. split; [by apply started_no|by apply good_start].
  - split; cbn [_STATE _ENTRIES next alive]; try apply I.
    + intros j rt Hj. apply lookup_delete_Some in Hj as [_ Hj]. by eapply inv_alive.
    + pose proof (inv_mark _ I) as HM. rewrite Forall_forall in HM. apply Forall_forall. intros e He q Hq.
      apply HM; [done|]. unfold reach in *. destruct (decide (i = runtime e)) as [->|Hne].
      * by rewrite lookup_delete_eq in Hq.
      * by rewrite lookup_delete_ne in Hq.
  - split; cbn [_STATE _ENTRIES next alive]; try apply I.
    + intros j rt Hj. assert (Hs : is_Some (alive s !! j)) by (eapply lookup_alter_is_Some; eauto).
      destruct Hs as [rt' Hs]. by eapply inv_alive.
    + pose proof (inv_mark _ I) as HM. rewrite Forall_forall in HM. apply Forall_forall. intros e He q Hq.
      specialize (HM e He). unfold reach in *. destruct (decide (i = runtime e)) as [->|Hne].
      * rewrite lookup_alter_eq in Hq. destruct (alive s !! runtime e) as [rt|]; [|done]. simpl in Hq, HM.
        destruct (_proxy rt) as [p|]; [|done]. injection Hq as <-. destruct (HM p eq_refl) as [H1 H2].
        split; [by rewrite tick_may|by apply good_tick].
      * rewrite lookup_alter_ne in Hq by done. by apply HM.
Qed.

(** With the idle mark off no live proxy may park. *)
Lemma inv_unmarked s i rt p :
  inv s -> _STATE s = false -> alive s !! i = Some rt -> _proxy rt = Some p -> may_park p = false.
Proof.
  intros I Hs Hi Hp. pose proof (inv_alive _ I i rt Hi) as (e & -> & He)%list_elem_of_fmap.
  pose proof (inv_mark _ I) as HM. rewrite Forall_forall in HM.
  destruct (HM e He p) as [-> _]; [unfold reach; by rewrite Hi|].
  pose proof (inv_off _ I Hs) as Hoff. rewrite Forall_forall in Hoff. by apply Hoff.
Qed.

Lemma run_batch_off s : inv s -> _STATE (run_batch_hook s) = false.
Proof. intros I. unfold run_batch_hook. destruct (_STATE s) eqn:E; [by apply inv_wake|done]. Qed.
End Invariant.

(** ** The properties *)
Section Properties.
Context {P : Type} {O : ProxyOps P} {L : ProxyLaws P}.

Definition run (acts : list (action P)) : Host P := foldl act new_host acts.

Lemma inv_run Good acts s :
  (forall a b p, started p -> Good (park_configure a b p)) ->
  (forall p, Good p -> may_park p = false -> Good (park_allow p)) ->
  (forall p, Good p -> may_park p = true -> Good (park_wake p)) ->
  (forall n p, Good p -> Good (tick n p)) ->
  Forall starts acts -> inv Good s -> inv Good (foldl act s acts).
Proof.
  intros H1 H2 H3 H4 Ha. revert s. induction Ha as [|a acts Ha _ IH]; intros s I; [done|]. apply IH. by apply inv_act.
Qed.

Definition anyp : P -> Prop := fun _ => True.

Lemma inv_step_act s a : starts a -> inv anyp s -> inv anyp (act s a).
Proof. intros Ha I. by apply inv_act. Qed.

Definition is_tick (a : action P) : Prop := match a with Tick _ _ => True | _ => False end.

(** Whatever the process did before (idle and busy transitions, runtimes built and
    collected, steps of the threads), from the moment a forward is launched until the
    scheduler thread is back in its loop no proxy has the permission to park. *)
Theorem no_park_in_forward (acts ticks : list (action P)) :
  Forall starts acts -> Forall is_tick ticks ->
  forall i rt p, alive (run (acts ++ RunBatch :: ticks)) !! i = Some rt -> _proxy rt = Some p -> may_park p = false.
Proof.
  intros Ha Ht i rt p Hi Hp. unfold run in Hi. rewrite foldl_app in Hi. cbn [foldl act] in Hi.
  assert (I : inv anyp (foldl act new_host acts)) by (apply inv_run; try done; apply inv_new).
  pose proof (run_batch_off anyp (fun _ _ _ => Logic.I) _ I) as Hoff.
  pose proof (inv_step_act _ RunBatch Logic.I I) as I2. cbn [act] in I2.
  set (s := run_batch_hook _) in *. clearbody s.
  assert (H : inv anyp (foldl act s ticks) /\ _STATE (foldl act s ticks) = false).
  { clear -Ht I2 Hoff. revert s I2 Hoff. induction Ht as [|a ticks Hat _ IH]; intros s I2 Hoff; [done|].
    cbn [foldl]. apply IH; [apply inv_step_act; [by destruct a|done]|by destruct a]. }
  destruct H as [H1 H2]. by eapply inv_unmarked.
Qed.

(** ** Collectives of all ranks *)

Definition start (n : nat) : list (Rk P) := replicate n (mkRk new_host false).

Definition rank_inv (k : Rk P) : Prop := inv anyp (host k) /\ (in_forward k = true -> _STATE (host k) = false).

Lemma step_inv g g' : step g g' -> Forall rank_inv g -> Forall rank_inv g'.
Proof.
  intros H Hg. destruct H as [g r s a Hr Hna Hst|g r s f i n Hr|g r s Hr|g Hall].
  - pose proof (proj1 (Forall_lookup _ _) Hg r _ Hr) as [I _]. apply Forall_insert; [done|]. split; [by apply inv_step_act|done].
  - pose proof (proj1 (Forall_lookup _ _) Hg r _ Hr) as [I Hf]. apply Forall_insert; [done|]. split; [by apply inv_step_act|done].
  - pose proof (proj1 (Forall_lookup _ _) Hg r _ Hr) as [I _]. apply Forall_insert; [done|].
    split; [by apply inv_step_act|]. intros _. by eapply (run_batch_off anyp (fun _ _ _ => Logic.I)).
  - apply Forall_map. eapply Forall_impl; [exact Hg|]. by intros k [I _].
Qed.

Lemma reachable_inv n g : rtc step (start n) g -> Forall rank_inv g.
Proof.
  intros H. assert (H0 : Forall rank_inv (start n)).
  { apply Forall_replicate. split; [apply inv_new|done]. }
  revert H0. induction H as [|g1 g2 g3 H12 _ IH]; intros H0; [done|]. apply IH. by eapply step_inv.
Qed.

(** The proxy of runtime [i] of rank [r]. *)
Definition proxy_at (g : list (Rk P)) (r i : nat) : option P :=
  k ← g !! r; rt ← alive (host k) !! i; _proxy rt.

Lemma tick_at_other g t r i :
  proxy_at (tick_at g t) r i = if decide (t.1 = (r, i)) then tick t.2 <$> proxy_at g r i else proxy_at g r i.
Proof.
  destruct t as [[r' i'] n]. unfold tick_at, proxy_at. cbn [fst snd].
  destruct (decide (r' = r)) as [->|Hr].
  2:{ rewrite list_lookup_alter_ne by done. rewrite decide_False by naive_solver. done. }
  rewrite list_lookup_alter_eq. destruct (g !! r) as [k|]; [|by case_decide]. cbn.
  destruct (decide (i' = i)) as [->|Hi].
  - rewrite lookup_alter_eq, decide_True by done. by destruct (alive (host k) !! i).
  - rewrite lookup_alter_ne by done. by rewrite decide_False by naive_solver.
Qed.

Lemma tick_at_forward g t : map in_forward (tick_at g t) = map in_forward g.
Proof.
  destruct t as [[r i] n]. unfold tick_at. cbn [fst snd]. apply list_eq. intros j. rewrite !list_lookup_fmap.
  destruct (decide (r = j)) as [->|Hj]; [rewrite list_lookup_alter_eq|by rewrite list_lookup_alter_ne].
  by destruct (g !! j).
Qed.

Lemma ticks_awake ts g :
  (forall r i p, proxy_at g r i = Some p -> may_park p = false) ->
  let g' := foldl tick_at g ts in
  map in_forward g' = map in_forward g /\
  (forall r i, is_Some (proxy_at g' r i) <-> is_Some (proxy_at g r i)) /\
  forall r i p, proxy_at g' r i = Some p -> may_park p = false /\
    ((exists n, (r, i, n) ∈ ts) \/ (forall q, proxy_at g r i = Some q -> parked q = false) -> parked p = false).
Proof.
  revert g. induction ts as [|t ts IH]; intros g Hg; cbn [foldl].
  { repeat split; try done; [by eapply Hg|]. intros [[m Hm]|Hq]; [set_solver|by apply Hq]. }
  destruct (IH (tick_at g t)) as (Hf & Hs & H).
  { intros r i p Hp. rewrite tick_at_other in Hp. case_decide; [|by eapply Hg].
    destruct (proxy_at g r i) eqn:E; [|done]. injection Hp as <-. rewrite tick_may. by eapply Hg. }
  split; [by rewrite Hf, tick_at_forward|]. split.
  - intros r i. rewrite Hs, tick_at_other. case_decide; [by rewrite fmap_is_Some|done].
  - intros r i p Hp. destruct (H r i p Hp) as [H1 H2]. split; [done|]. intros Hor. apply H2.
    destruct (decide (t.1 = (r, i))) as [Ht|Ht].
    + right. intros q Hq. rewrite tick_at_other, decide_True in Hq by done.
      destruct (proxy_at g r i) as [q0|] eqn:E; [|done]. injection Hq as <-. apply tick_runs. by eapply Hg.
    + destruct Hor as [[n Hn]|Hor].
      * apply elem_of_cons in Hn as [<-|Hn]; [done|]. left. eauto.
      * right. intros q Hq. rewrite tick_at_other, decide_False in Hq by done. by apply Hor.
Qed.

(** C27: a collective that every rank has entered completes: from any state the ranks can
    reach, once each live proxy has taken one more step, in any order and whatever the
    threads observed, every proxy is awake and the collective's step is enabled, so no rank
    waits on a peer whose proxy stays parked. *)
Theorem collective_completes (n : nat) (g : list (Rk P)) (ts : list (nat * nat * nat)) :
  rtc step (start n) g -> Forall (fun k => in_forward k = true) g ->
  (forall r i p, proxy_at g r i = Some p -> exists m, (r, i, m) ∈ ts) ->
  let g' := foldl tick_at g ts in
  step g' (map (fun k => mkRk (host k) false) g').
Proof.
  intros Hreach Hall Hcov g'. pose proof (reachable_inv n g Hreach) as Hinv.
  destruct (ticks_awake ts g) as (Hf & Hs & Hp).
  { intros r i p Hp. unfold proxy_at in Hp. destruct (g !! r) as [k|] eqn:Hk; [|done]. simpl in Hp.
    destruct (alive (host k) !! i) as [rt|] eqn:Hrt; [|done]. simpl in Hp.
    pose proof (proj1 (Forall_lookup _ _) Hinv r k Hk) as [I Hoff]. pose proof (proj1 (Forall_lookup _ _) Hall r k Hk) as Hin.
    eapply inv_unmarked; [exact I|by apply Hoff|exact Hrt|exact Hp]. }
  fold g' in Hf, Hs, Hp. apply step_complete, Forall_lookup. intros r k Hk. split.
  - apply (f_equal (fun l => l !! r)) in Hf. rewrite !list_lookup_fmap, Hk in Hf.
    destruct (g !! r) as [k0|] eqn:Hk0; [|done]. injection Hf as ->. by apply (proj1 (Forall_lookup _ _) Hall r).
  - unfold awake. apply forallb_forall. intros [i rt] Hin. apply list_elem_of_In, elem_of_map_to_list in Hin. cbn [snd].
    destruct (_proxy rt) as [p|] eqn:Ep; [|done].
    assert (Hat : proxy_at g' r i = Some p) by (unfold proxy_at; rewrite Hk; simpl; by rewrite Hin).
    destruct (Hp r i p Hat) as [_ Hpk]. rewrite Hpk; [done|]. left.
    destruct (proj1 (Hs r i)) as [q Hq]; [by exists p|]. by eapply Hcov.
Qed.
End Properties.

(** ** One call per transition

    A proxy with the record of the calls it got: [true] for [park_allow]. *)
Section Recorded.
Context {P : Type} {O : ProxyOps P} {L : ProxyLaws P}.

Definition recorded : Type := P * list bool.

#[local] Instance recorded_ops : ProxyOps recorded := {
  park_configure a b p := (park_configure a b p.1, p.2);
  park_allow p := (park_allow p.1, p.2 ++ [true]);
  park_wake p := (park_wake p.1, p.2 ++ [false]);
  park_stats p := park_stats p.1;
  tick n p := (tick n p.1, p.2);
  parked p := parked p.1 }.

#[local] Instance recorded_laws : ProxyLaws recorded := {
  may_park p := may_park p.1;
  started p := started p.1 /\ p.2 = [];
  started_no p H := started_no p.1 (proj1 H);
  configure_may a b p := configure_may a b p.1;
  allow_may p := allow_may p.1;
  wake_may p := wake_may p.1;
  tick_may n p := tick_may n p.1;
  tick_runs n p := tick_runs n p.1 }.

(** Calls alternate, [park_allow] first; the permission tells which came last. *)
Definition alternating (p : recorded) : Prop :=
  (forall k b, p.2 !! k = Some b -> b = Nat.even k) /\ may_park p.1 = Nat.odd (length p.2).

Lemma alternating_snoc p q b :
  alternating p -> b = Nat.even (length p.2) -> may_park q = b -> alternating (q, p.2 ++ [b]).
Proof.
  intros [H1 H2] Hb Hq. split; cbn [fst snd].
  - intros k c Hk. apply lookup_app_Some in Hk as [Hk|[Hk Hc]]; [by eapply H1|].
    apply list_lookup_singleton_Some in Hc as [Hk0 <-]. by replace k with (length p.2) by lia.
  - rewrite Hq, Hb, length_app, Nat.add_1_r, Nat.odd_succ. done.
Qed.

(** Every proxy is told to park and to wake in turns: one call per transition. *)
Lemma park_calls_alternate (acts : list (action recorded)) i (rt : Runtime recorded) (p : recorded) :
  Forall starts acts -> alive (run acts) !! i = Some rt -> _proxy rt = Some p ->
  forall k b, p.2 !! k = Some b -> b = Nat.even k.
Proof.
  intros Ha Hi Hp.
  assert (I : inv alternating (run acts)).
  { apply inv_run; try done; [| | | |apply inv_new].
    - intros a b q [Hs Hq]. split; cbn; [by rewrite Hq|]. rewrite Hq, configure_may. by apply (started_no q.1).
    - intros q Hg Hm. apply alternating_snoc; [done| |apply allow_may]. destruct Hg as [_ Hg]. cbn in Hm.
      rewrite <- Nat.negb_odd. by rewrite <- Hg, Hm.
    - intros q Hg Hm. apply alternating_snoc; [done| |apply wake_may]. destruct Hg as [_ Hg]. cbn in Hm.
      rewrite <- Nat.negb_odd. by rewrite <- Hg, Hm.
    - intros m q [H1 H2]. split; [done|]. cbn. by rewrite tick_may. }
  pose proof (inv_alive _ _ I i rt Hi) as (e & -> & He)%list_elem_of_fmap.
  pose proof (inv_mark _ _ I) as HM. rewrite Forall_forall in HM.
  destruct (HM e He p) as [_ [H _]]; [unfold reach; by rewrite Hi|]. exact H.
Qed.
End Recorded.

(** The settings are in their ranges, or the value is refused. *)
Lemma config_bounds environ a b :
  config environ = Ok (a, b) -> 1 <= a <= 3600000 /\ 1 <= b <= 1000.
Proof.
  assert (Hk : forall key d hi v, config_key environ key d hi = Ok v -> 1 <= v <= hi).
  { intros key d hi v. unfold config_key. destruct (py_int _) as [z|]; [|done]. cbn. case_match eqn:E; [|done].
    intros [= <-]. blia. }
  unfold config. destruct (config_key _ KEY_MS _ _) as [x|] eqn:E1; [|done].
  cbn. destruct (config_key _ KEY_POLL _ _) as [y|] eqn:E2; [|done]. cbn. intros [= <- <-]. eauto.
Qed.

Example config_default : config (fun _ => None) = Ok (1000, 20).
Proof. reflexivity. Qed.
Example config_bad : config (fun k => if String.eqb k KEY_MS then Some "0" else None) = Raise ValueError.
Proof. reflexivity. Qed.

(** ** A concrete proxy: it parks once it saw a thousand polls without a doorbell. *)
Module Thread.
Record thread := { permitted : bool; blocked : bool }.

#[export] Instance thread_ops : ProxyOps thread := {
  park_configure _ _ p := p;
  park_allow p := {| permitted := true; blocked := blocked p |};
  park_wake p := {| permitted := false; blocked := blocked p |};
  park_stats p := {| s_tid := 7; s_parks := if blocked p then 1 else 0 |};
  tick quiet p := {| permitted := permitted p; blocked := permitted p && (blocked p || (1000 <=? quiet)%nat) |};
  parked p := blocked p }.

#[export] Instance thread_laws : ProxyLaws thread.
Proof.
  refine {| may_park := permitted; started p := p = {| permitted := false; blocked := false |} |};
    try done; [by intros p ->|intros n p H; simpl; by rewrite H].
Defined.

Definition new_thread : thread := {| permitted := false; blocked := false |}.
Definition before : list (action thread) :=
  [Init 1000 20 0 new_thread; OnIdle; Tick 0 2000; OnIdle; ProcessInput 0].
End Thread.
Import Thread.

Example parks_when_idle :
  (rt ← alive (run before) !! 0%nat; _proxy rt) = Some {| permitted := true; blocked := true |}.
Proof. reflexivity. Qed.

Lemma no_park_in_forward_witness :
  exists rt p, alive (run (before ++ RunBatch :: [Tick 0 5000])) !! 0%nat = Some rt /\ _proxy rt = Some p /\ may_park p = false.
Proof.
  destruct (alive (run (before ++ RunBatch :: [Tick 0 5000])) !! 0%nat) as [rt|] eqn:E; [|vm_compute in E; congruence].
  destruct (_proxy rt) as [p|] eqn:Ep; [|vm_compute in E; injection E as <-; vm_compute in Ep; congruence].
  exists rt, p. split; [reflexivity|]. split; [exact Ep|].
  refine (no_park_in_forward before [Tick 0 5000] _ _ 0%nat rt p E Ep).
  - repeat (apply Forall_cons_2; [done|]). by apply Forall_nil_2.
  - apply Forall_cons_2; [done|]. by apply Forall_nil_2.
Defined.

(** Two ranks, one of which was parked when the forward came. *)
Definition parked_rank : Rk thread := mkRk (run (before ++ [RunBatch])) true.

Lemma collective_completes_witness :
  let g := [parked_rank; mkRk (run [RunBatch]) true] in
  let g' := foldl tick_at g [(0, 0, 3)]%nat in
  step g' (map (fun k => mkRk (host k) false) g').
Proof.
  apply (collective_completes 2).
  - unfold start, parked_rank, before, run.
    eapply rtc_l; [eapply (step_local _ 0 _ (Init 1000 20 0 new_thread)); [reflexivity|done..]|].
    eapply rtc_l; [eapply (step_local _ 0 _ OnIdle); [reflexivity|done..]|].
    eapply rtc_l; [eapply (step_tick _ 0 _ _ 0 2000); [reflexivity|done..]|].
    eapply rtc_l; [eapply (step_local _ 0 _ OnIdle); [reflexivity|done..]|].
    eapply rtc_l; [eapply (step_local _ 0 _ (ProcessInput 0)); [reflexivity|done..]|].
    eapply rtc_l; [eapply (step_launch _ 1); [reflexivity|done..]|].
    eapply rtc_l; [eapply (step_launch _ 0); [reflexivity|done..]|].
    apply rtc_refl.
  - repeat (apply Forall_cons_2; [done|]). by apply Forall_nil_2.
  - intros r i p Hp. exists 3%nat. destruct r as [|[|r]]; [|done|done]. destruct i as [|i]; [by left|].
    assert (E : alive (host parked_rank) = <[0%nat := mkRuntime 0 (Some {| permitted := false; blocked := true |})]> ∅)
      by (vm_compute; reflexivity).
    unfold proxy_at in Hp. cbn [lookup list_lookup mbind option_bind] in Hp. rewrite E, lookup_insert_ne in Hp by done.
    by rewrite lookup_empty in Hp.
Defined.
