(* ===== verification/MoePlan.v ===== *)
(** * Plans and routing of the routed MoE (adapter/moe_b12x_next.py)

    The routed experts run through a vendored kernel library.  Modelled: the settings and
    the plan table, the capacities of a geometry and which plan each gets, the choice of the
    chunk, the scratch arena, the remap kernel that turns global expert ids into local ones,
    and the forward that splits a batch into launches.  The library's kernels are a class of
    operations with laws; repacking of weights, races, installers and checks of sources are
    not modelled. *)
From S2P Require Import Prelude PyStr.
#[local] Open Scope string_scope.
#[local] Open Scope list_scope.
#[local] Open Scope Z_scope.

(** ** Settings *)

(** [text.replace(" ", "")]. *)
Fixpoint no_spaces (s : string) : string :=
  match s with
  | "" => ""
  | String c s' => if Ascii.eqb c (Ascii.ascii_of_nat 32) then no_spaces s' else String c (no_spaces s')
  end.

Definition comma : Ascii.ascii := Ascii.ascii_of_nat 44.
Definition nonempty (s : string) : bool := negb (String.eqb s "").
Definition items (text : string) : list string :=
  filter (fun s => nonempty s = true) (split_all comma (no_spaces text)).

Definition _ints (text : string) : res (list Z) := mapR py_int (items text).

(** [GRAPH_BS] after the bound of the engine's largest captured batch. *)
Definition graph_bs (all : list Z) (max_bs : Z) : list Z :=
  match filter (fun b => b <= max_bs) all with [] => [1] | l => l end.

(** [max] of a list; Python raises on an empty one. *)
Fixpoint zmax1 (x : Z) (l : list Z) : Z := match l with [] => x | y :: l' => Z.max x (zmax1 y l') end.
Definition py_max (l : list Z) : res Z := match l with [] => Raise ValueError | x :: l' => Ok (zmax1 x l') end.

(** [LADDER] after the chunk of the engine was added. *)
Definition ladder (base : list Z) (chunk_env : Z) : res (list Z) :=
  top ← py_max base; Ok (if top <? chunk_env then base ++ [chunk_env] else base).

Definition EXACT_MAX (block : Z) (bs : list Z) : Z :=
  match bs with [] => 96 | b :: bs' => Z.max 96 ((block + 1) * zmax1 b bs') end.

(** ** The plan table *)
Definition plan : Type := string * option Z * Z.
Definition row : Type := Z * Z * option Z * option plan.

(** [s.split(sep)] for a longer separator. *)
Fixpoint split_on (fuel : nat) (sep s : string) : list string :=
  match fuel with
  | O => [s]
  | S n => match split1 sep s with Some (a, b) => a :: split_on n sep b | None => [s] end
  end.

Definition parse_topk (rng : string) : res (string * option Z) :=
  if contains "@k" rng then
    match split_on (String.length rng) "@k" rng with
    | [r; k] => z ← py_int k; Ok (r, Some z)
    | _ => Raise ValueError
    end
  else Ok (rng, None).

Definition parse_range (rng : string) : res (Z * Z) :=
  if contains "-" rng then
    match split_all (Ascii.ascii_of_nat 45) rng with
    | [a; b] => lo ← py_int a; hi ← py_int b; Ok (lo, hi)
    | _ => Raise ValueError
    end
  else v ← py_int rng; Ok (v, v).

Definition parse_spec (deterministic : bool) (spec : string) : res (option plan) :=
  if String.eqb spec "heur" then Ok None
  else match split_all (Ascii.ascii_of_nat 58) spec with
       | [planner; mac; tile] =>
           if negb (one_of planner ["internal"; "triton"]) then Raise ValueError
           else
             let planner := if deterministic && String.eqb planner "triton" then "internal" else planner in
             m ← (if String.eqb mac "none" then Ok None else z ← py_int mac; Ok (Some z));
             t ← py_int tile;
             Ok (Some (planner, m, t))
       | _ => Raise ValueError
       end.

(** The body of the [try], whose [ValueError] becomes a [RuntimeError]. *)
Definition parse_item (deterministic : bool) (item : string) : res row :=
  match split_all (Ascii.ascii_of_nat 61) item with
  | [rng; spec] =>
      rk ← parse_topk rng;
      lohi ← parse_range rk.1;
      p ← parse_spec deterministic spec;
      Ok (lohi.1, lohi.2, rk.2, p)
  | _ => Raise ValueError
  end.

Definition parse_entry (deterministic : bool) (item : string) : res row :=
  match parse_item deterministic item with
  | Raise ValueError => Raise RuntimeError
  | Raise e => Raise e
  | Ok (lo, hi, topk, p) =>
      if (lo <? 1) || (hi <? lo) then Raise RuntimeError else Ok (lo, hi, topk, p)
  end.

Definition parse_plan_table (text : string) (deterministic : bool) : res (list row) :=
  mapR (parse_entry deterministic) (items text).

Fixpoint table_plan (PLAN_TABLE : list row) (cap topk : Z) : option plan :=
  match PLAN_TABLE with
  | [] => None
  | (lo, hi, k, p) :: t =>
      if (lo <=? cap) && (cap <=? hi) && match k with None => true | Some k => k =? topk end then p
      else table_plan t cap topk
  end.

Example default_table : parse_plan_table "1-8=triton:48:16" false = Ok [(1, 8, None, Some ("triton", Some 48, 16))].
Proof. reflexivity. Qed.
Example mixed_table :
  parse_plan_table "1-8@k6=triton:none:16, 9=heur," true
  = Ok [(1, 8, Some 6, Some ("internal", None, 16)); (9, 9, None, None)].
Proof. reflexivity. Qed.
Example bad_table : parse_plan_table "8-1=heur" false = Raise RuntimeError.
Proof. reflexivity. Qed.

(** ** Capacities and plans of a geometry *)

Definition sorted_set (l : list Z) : list Z := merge_sort Z.le (remove_dups l).

Definition rows_of (block : Z) (bs : list Z) : list Z :=
  concat (map (fun r => map (fun b => r * b) bs) [block; block + 1]).

Definition capacities (block : Z) (bs lad : list Z) : res (list Z) :=
  let exact := filter (fun m => m <= EXACT_MAX block bs) (sorted_set (rows_of block bs)) in
  top ← py_max exact;
  Ok (sorted_set (exact ++ filter (fun c => top < c) lad)).

Definition tuned_caps (tune deterministic : bool) (tune_rows : Z -> option Z) (bs : list Z) (topk : Z) : list Z :=
  if negb tune || deterministic then []
  else match tune_rows topk with None => [] | Some r => map (fun b => r * b) bs end.

(** The plan [build] asks the library for at a capacity: [None] is the heuristic one. *)
Definition override (PLAN_TABLE : list row) (M64_MIN_CAP exact_max : Z) (admitted : bool) (N cap topk : Z) : option plan :=
  let n64 := N mod 128 =? 64 in
  match (if n64 then table_plan PLAN_TABLE cap topk else None) with
  | Some p => Some p
  | None =>
      if negb (M64_MIN_CAP =? 0) && (M64_MIN_CAP <=? cap) && (exact_max <? cap) && n64 && admitted
      then Some ("internal", None, 64) else None
  end.

(** Whether the plan of a capacity is raced. *)
Definition raced (tuned : list Z) (ov : option plan) (cap : Z) : bool :=
  bool_decide (cap ∈ tuned) && match ov with None => true | Some _ => false end.

(** [select_chunk], from the prepared capacities and their limits per launch. *)
Definition select_chunk (limits : list (Z * Z)) : res (Z * list Z * list Z) :=
  let kept := merge_sort Z.le (map fst (filter (fun cl : Z * Z => cl.1 <= cl.2) limits)) in
  match last kept with
  | None => Raise RuntimeError
  | Some chunk => Ok (chunk, kept, sorted_set (filter (fun c => c ∉ kept) (map fst limits)))
  end.

(** [bisect.bisect_left] of a sorted list. *)
Fixpoint bisect_left (l : list Z) (m : Z) : nat :=
  match l with [] => 0%nat | c :: l' => if c <? m then S (bisect_left l' m) else 0%nat end.

Definition _lookup (caps : list Z) (m : Z) : option Z :=
  match caps !! bisect_left caps m with Some c => Some c | None => last caps end.

(** What [build] keeps of the prepared plans. *)
Record Geometry := mkGeometry { chunk : Z; caps : list Z; table : list (option Z); exact_max : Z; limits : list (Z * Z) }.

(** [build], given the limit of each plan the library prepared. *)
Definition build (block : Z) (bs lad : list Z) (max_per_launch : Z -> Z) : res Geometry :=
  all ← capacities block bs lad;
  let limits := map (fun c => (c, max_per_launch c)) all in
  ckd ← select_chunk limits;
  let '(chunk, kept, dropped) := ckd in
  let top := EXACT_MAX block bs in
  Ok (mkGeometry chunk kept (None :: map (fun m => _lookup kept m) (zrange 1 (top + 1))) top
        (filter (fun cl : Z * Z => cl.1 ∉ dropped) limits)).

Definition cap_for (g : Geometry) (m : Z) : option Z :=
  if m <=? exact_max g then mjoin (table g !! Z.to_nat m) else _lookup (caps g) m.

(** Capacities a pre-quantized batch may land on. *)
Definition prequant_caps (g : Geometry) (min_rows : Z) : list Z :=
  if chunk g <? min_rows then []
  else sorted_set (option_list (cap_for g min_rows) ++ filter (fun c => min_rows <= c) (caps g)).

Definition uncovered_rows (block : Z) (bs : list Z) (max_bs : Z) : res (list Z) :=
  top ← py_max bs;
  if max_bs <=? top then Ok []
  else
    let exact := filter (fun m => m <= EXACT_MAX block bs) (rows_of block bs) in
    Ok (sorted_set (filter (fun m => m ∉ exact) (rows_of block (zrange (top + 1) (max_bs + 1))))).

(** *** The arena: each plan's buffers are carved from its start *)
Definition _align (n : Z) : Z := align_up n 256.

Definition arena_size (specs : list (list Z)) : res Z :=
  need ← py_max (map (fun nb => zsum (map _align nb)) specs); Ok (Z.max need 256).

(** Byte ranges of one plan's buffers. *)
Fixpoint carve (off : Z) (nbytes : list Z) : list (Z * Z) :=
  match nbytes with [] => [] | nb :: l => (off, off + nb) :: carve (off + _align nb) l end.

(** ** The remap kernel

    One program; [IDS] and [W] are the memories the strided views read, the outputs are
    contiguous.  Ids are converted to 32 bits. *)
Definition i32 (z : Z) : Z := (z + 2 ^ 31) mod 2 ^ 32 - 2 ^ 31.
Definition BIG : Z := 2147483647.

Section Remap.
Context {F : Type} (zero : F).

Record view (A : Type) := mkView { base : Z -> A; s0 : Z; s1 : Z }.
Arguments base {A}. Arguments s0 {A}. Arguments s1 {A}.

(** Element [r, c] of a strided view. *)
Definition at_ {A} (v : view A) (r c : Z) : A := base v (r * s0 v + c * s1 v).

Section Kernel.
Context (IDS : view Z) (W : view F) (M OFFSET NUM_LOCAL K KP BR : Z).

(** One lane of a block: masked loads give -1 and zero. *)
Definition lane_in (r c : Z) : bool := (r <? M) && (c <? K).
Definition lane_lid (r c : Z) : Z := i32 (i32 (if lane_in r c then at_ IDS r c else -1) - OFFSET).
Definition lane_ok (r c : Z) : bool := lane_in r c && (0 <=? lane_lid r c) && (lane_lid r c <? NUM_LOCAL).
Definition row_min (r : Z) : Z :=
  foldl Z.min BIG (map (fun c => if lane_ok r c then lane_lid r c else BIG) (zrange 0 KP)).

(** [range(0, M, BR)] and the rows of a block. *)
Definition block_starts : list Z := map (fun i => i * BR) (zrange 0 (cdiv M BR)).
Definition block_rows (r0 : Z) : list Z := map (Z.add r0) (zrange 0 BR).

(** The first loop. *)
Definition best : Z :=
  foldl (fun best r0 => Z.min best (foldl Z.min BIG (map row_min (block_rows r0)))) BIG block_starts.
Definition fallback : Z := if best <? NUM_LOCAL then best else 0.

(** The stores of one block, as pairs of address and value. *)
Definition block_stores (r0 : Z) : list (Z * (Z * F)) :=
  concat (map (fun r =>
    let fill := if row_min r <? NUM_LOCAL then row_min r else fallback in
    omap (fun c => if lane_in r c then
        Some (r * K + c, (if lane_ok r c then lane_lid r c else fill, if lane_ok r c then at_ W r c else zero))
      else None) (zrange 0 KP)) (block_rows r0)).

(** The second loop, on the two output buffers. *)
Definition store (m : gmap Z Z * gmap Z F) (s : Z * (Z * F)) : gmap Z Z * gmap Z F :=
  (<[s.1 := s.2.1]> m.1, <[s.1 := s.2.2]> m.2).
Definition kernel (m : gmap Z Z * gmap Z F) : gmap Z Z * gmap Z F :=
  foldl (fun m r0 => foldl store m (block_stores r0)) m block_starts.
End Kernel.

(** [triton.next_power_of_2]. *)
Definition np2 (k : Z) : Z := 2 ^ Z.log2_up k.

(** [ep_remap] on [M] rows of [K] slots; [fits]: the shapes and contiguity of the arguments. *)
Definition ep_remap (fits : bool) (IDS : view Z) (W : view F) (M K offset num_local : Z)
    (m : gmap Z Z * gmap Z F) : res (gmap Z Z * gmap Z F) :=
  if M =? 0 then Ok m
  else if negb fits then Raise RuntimeError
  else Ok (kernel IDS W M offset num_local K (np2 K) 32 m).

(** [ep_remap_reference] at [r, c], in unbounded integers. *)
Section Reference.
Context (ids : Z -> Z -> Z) (w : Z -> Z -> F) (M K offset num_local : Z).
Definition ref_lid (r c : Z) : Z := ids r c - offset.
Definition ref_ok (r c : Z) : bool := (0 <=? ref_lid r c) && (ref_lid r c <? num_local).
Definition ref_row (r : Z) : list Z := map (fun c => if ref_ok r c then ref_lid r c else BIG) (zrange 0 K).
Definition ref_min (l : list Z) : Z := match l with [] => BIG | x :: l' => foldl Z.min x l' end.
Definition ref_best : Z := ref_min (concat (map ref_row (zrange 0 M))).
Definition ref_fill (r : Z) : Z :=
  let row_min := ref_min (ref_row r) in
  let fb := if ref_best <? num_local then ref_best else 0 in
  if row_min <? num_local then row_min else fb.
Definition ref_id (r c : Z) : Z := if ref_ok r c then ref_lid r c else ref_fill r.
Definition ref_w (r c : Z) : F := if ref_ok r c then w r c else zero.
End Reference.
End Remap.
Arguments base {A}. Arguments s0 {A}. Arguments s1 {A}.

(** ** The forward *)

(** One launch of the library: rows [x] with their routes, on the plan of a capacity. *)
Section Forward.
Context {X F Y : Type} (zero : F) (run_plan : Z -> list X -> list (list (Z * F)) -> list Y).

(** [_run]. *)
Definition _run (cap : Z) (x : list X) (routes : list (list (Z * F))) : res (list Y) :=
  if cap <? zlen x then Raise RuntimeError else Ok (run_plan cap x routes).

(** [ep_remap] of a batch of routes into [ids_buf] and [w_buf], and the rows the launch reads
    back from them; [K] slots per row. *)
Definition slot_at (K : Z) (routes : list (list (Z * F))) (a : Z) : Z * F :=
  nth (Z.to_nat (a mod K)) (nth (Z.to_nat (a / K)) routes []) (-1, zero).
Definition remapped (K offset num_local : Z) (routes : list (list (Z * F))) (buf : gmap Z Z * gmap Z F) :
    res (list (list (Z * F)) * (gmap Z Z * gmap Z F)) :=
  buf' ← ep_remap zero true (mkView _ (fun a => (slot_at K routes a).1) K 1) (mkView _ (fun a => (slot_at K routes a).2) K 1)
    (zlen routes) K offset num_local buf;
  Ok (map (fun r => map (fun c => (default (-1) (buf'.1 !! (r * K + c)), default zero (buf'.2 !! (r * K + c)))) (zrange 0 K))
        (zrange 0 (zlen routes)), buf').

(** [forward]: the loop over chunks; [direct] tells whether the ids go to the library as they
    are. [None] is a loop that did not end. *)
Fixpoint forward_loop (fuel : nat) (g : Geometry) (direct : bool) (K offset num_local : Z)
    (x : list X) (routes : list (list (Z * F))) (s : Z) (out : list Y) (buf : gmap Z Z * gmap Z F) : option (res (list Y)) :=
  let m_all := zlen x in
  if s <? m_all then
    match fuel with
    | O => None
    | S n =>
        let e := Z.min m_all (s + chunk g) in
        let m := e - s in
        match (if direct then Ok (py_slice routes s e, buf) else remapped K offset num_local (py_slice routes s e) buf) with
        | Raise err => Some (Raise err)
        | Ok (rts, buf') =>
            match cap_for g m with
            | None => Some (Raise TypeError)
            | Some cap =>
                match _run cap (py_slice x s e) rts with
                | Raise err => Some (Raise err)
                | Ok ys =>
                    forward_loop n g direct K offset num_local x routes e
                      (py_slice out 0 s ++ ys ++ py_slice out e (zlen out)) buf'
                end
            end
        end
    end
  else Some (Ok out).

(** [self.direct] at construction, and the test of a call. *)
Definition direct (DIRECT_IDS DETERMINISTIC : bool) (ep_size : Z) (ids_i32 w_f32 contiguous : bool) : bool :=
  (DIRECT_IDS && (ep_size =? 1) && negb DETERMINISTIC) && ids_i32 && w_f32 && contiguous.
End Forward.

(** ** The plan of a row count *)

Lemma zmax1_ge x l : x <= zmax1 x l /\ forall y, y ∈ l -> y <= zmax1 x l.
Proof.
  revert x. induction l as [|z l IH]; intros x; cbn [zmax1].
  - split; [lia|]. intros y Hy. by apply not_elem_of_nil in Hy.
  - destruct (IH z) as [IH1 IH2]. split; [lia|]. intros y [->|Hy]%elem_of_cons; [lia|]. specialize (IH2 y Hy). lia.
Qed.

Lemma sorted_set_elem l x : x ∈ sorted_set l <-> x ∈ l.
Proof. unfold sorted_set. by rewrite merge_sort_Permutation, elem_of_remove_dups. Qed.

Lemma sorted_set_sorted l : StronglySorted Z.le (sorted_set l).
Proof. apply StronglySorted_merge_sort; apply _. Qed.

(** The first element not below [m], in a sorted list. *)
Lemma lookup_smallest l m :
  StronglySorted Z.le l -> (exists c, c ∈ l /\ m <= c) ->
  exists c, _lookup l m = Some c /\ c ∈ l /\ m <= c /\ forall d, d ∈ l -> m <= d -> c <= d.
Proof.
  intros Hs. unfold _lookup.
  assert (H : (exists c, c ∈ l /\ m <= c) -> exists c, l !! bisect_left l m = Some c /\ m <= c /\ forall d, d ∈ l -> m <= d -> c <= d).
  { induction Hs as [|x l Hs IH Hx]; intros (c & Hc & Hm); [set_solver|]. cbn [bisect_left].
    destruct (x <? m) eqn:E.
    - apply elem_of_cons in Hc as [->|Hc]; [lia|]. destruct IH as (c' & H1 & H2 & H3); [eauto|].
      exists c'. split; [done|]. split; [done|]. intros d [->|Hd]%elem_of_cons Hmd; [lia|by apply H3].
    - exists x. split; [done|]. split; [lia|]. intros d [->|Hd]%elem_of_cons _; [lia|].
      rewrite Forall_forall in Hx. by apply Hx. }
  intros He. destruct (H He) as (c & Hc & Hm & Hmin). exists c. rewrite Hc. split; [done|].
  split; [by eapply list_elem_of_lookup_2|done].
Qed.

(** Settings that describe batches of at least one row. *)
Lemma capacities_pos block bs lad cs c :
  1 <= block -> Forall (Z.le 1) bs -> capacities block bs lad = Ok cs -> c ∈ cs -> 1 <= c.
Proof.
  intros Hb Hbs. unfold capacities. set (exact := filter _ _). destruct exact as [|e es] eqn:E; [done|]. cbn [py_max mbind res_bind].
  intros [= <-] Hc. rewrite sorted_set_elem, app_comm_cons, <- E in Hc. apply elem_of_app in Hc.
  assert (Hex : forall x, x ∈ exact -> 1 <= x).
  { intros x Hx. unfold exact in Hx. apply list_elem_of_filter in Hx as [_ Hx]. rewrite sorted_set_elem in Hx.
    unfold rows_of in Hx. apply list_elem_of_In, in_concat in Hx as (l & Hl & Hx).
    rewrite Forall_forall in Hbs. cbn [map] in Hl.
    destruct Hl as [<-|[<-|[]]]; apply list_elem_of_In, list_elem_of_fmap in Hx as (b & -> & Hin); specialize (Hbs b Hin); nia. }
  destruct Hc as [Hc|Hc]; [by apply Hex|]. rewrite E in Hex. apply list_elem_of_filter in Hc as [Hc _].
  destruct (zmax1_ge e es) as [H1 _]. specialize (Hex e ltac:(by left)). lia.
Qed.

Record geometry_ok (g : Geometry) : Prop := {
  chunk_last : last (caps g) = Some (chunk g);
  caps_sorted : StronglySorted Z.le (caps g);
  caps_limit c : c ∈ caps g -> exists lim, (c, lim) ∈ limits g /\ c <= lim;
  caps_pos c : c ∈ caps g -> 1 <= c;
  table_lookup m : 1 <= m <= exact_max g -> table g !! Z.to_nat m = Some (_lookup (caps g) m) }.

Lemma select_chunk_spec ls chunk kept dropped :
  select_chunk ls = Ok (chunk, kept, dropped) ->
  last kept = Some chunk /\ StronglySorted Z.le kept /\
  (forall c, c ∈ kept <-> exists lim, (c, lim) ∈ ls /\ c <= lim) /\
  (forall c, c ∈ dropped <-> c ∈ map fst ls /\ c ∉ kept).
Proof.
  unfold select_chunk. set (k := merge_sort _ _). destruct (last k) as [c|] eqn:E; [|done]. intros [= <- <- <-].
  split; [done|]. split; [apply StronglySorted_merge_sort; apply _|]. split.
  - intros d. unfold k. rewrite merge_sort_Permutation, list_elem_of_fmap. split.
    + intros ([d' lim] & -> & H). apply list_elem_of_filter in H as [H1 H2]. eauto.
    + intros (lim & H1 & H2). exists (d, lim). split; [done|]. by apply list_elem_of_filter.
  - intros d. rewrite sorted_set_elem, list_elem_of_filter. tauto.
Qed.

Lemma build_geometry_ok block bs lad mpl g :
  1 <= block -> Forall (Z.le 1) bs -> build block bs lad mpl = Ok g -> geometry_ok g.
Proof.
  intros Hb Hbs. unfold build. destruct (capacities block bs lad) as [all|] eqn:Ec; [|done]. cbn [mbind res_bind].
  destruct (select_chunk _) as [[[chunk kept] dropped]|] eqn:Es; [|done]. cbn [mbind res_bind].
  set (tb := map (fun m => _lookup kept m) (zrange 1 (EXACT_MAX block bs + 1))). intros [= <-].
  destruct (select_chunk_spec _ _ _ _ Es) as (H1 & H2 & H3 & H4).
  split; cbn; [done|done| | |].
  - intros c Hc. destruct (proj1 (H3 c) Hc) as (lim & Hin & Hle). exists lim. split; [|done].
    apply list_elem_of_filter. split; [|done]. cbn. rewrite H4. tauto.
  - intros c Hc. destruct (proj1 (H3 c) Hc) as (lim & Hin & _). apply list_elem_of_fmap in Hin as (c' & [= -> ->] & Hin).
    by eapply capacities_pos.
  - intros m Hm. replace (Z.to_nat m) with (S (Z.to_nat (m - 1))) by lia.
    etransitivity; [exact (list_lookup_fmap (fun m => _lookup kept m) (zrange 1 (EXACT_MAX block bs + 1)) (Z.to_nat (m - 1)))|].
    unfold zrange. rewrite lookup_seqZ_lt by lia. simpl. do 2 f_equal. lia.
Qed.

(** [cap_for]: the smallest kept capacity that holds the rows. *)
Lemma cap_for_smallest g m :
  geometry_ok g -> 1 <= m <= chunk g ->
  exists cap, cap_for g m = Some cap /\ cap ∈ caps g /\ m <= cap <= chunk g /\ forall c, c ∈ caps g -> m <= c -> cap <= c.
Proof.
  intros G Hm. assert (Hlast : chunk g ∈ caps g) by (eapply last_Some_elem_of, G).
  destruct (lookup_smallest (caps g) m (caps_sorted _ G)) as (cap & Hl & Hin & Hle & Hmin); [by exists (chunk g); split; [|lia]|].
  exists cap. split; [|split; [done|split; [split; [done|by apply Hmin; [|lia]]|done]]].
  unfold cap_for. destruct (m <=? exact_max g) eqn:E; [|done]. rewrite (table_lookup _ G) by lia. by rewrite Hl.
Qed.

(** For every row count a launch may get, [build] has prepared a plan that holds it: the
    smallest kept capacity at least as large, which runs in one launch and is at most the
    chunk; batches of pre-quantized rows land on the capacities that were warmed. *)
Theorem plan_fits block bs lad mpl g m :
  1 <= block -> Forall (Z.le 1) bs -> build block bs lad mpl = Ok g -> 1 <= m <= chunk g ->
  exists cap, cap_for g m = Some cap /\ m <= cap <= chunk g /\ cap <= mpl cap /\
    (exists all, capacities block bs lad = Ok all /\ cap ∈ all /\
       forall c, c ∈ all -> m <= c -> c <= mpl c -> cap <= c) /\
    forall min_rows, min_rows <= m -> cap ∈ prequant_caps g min_rows.
Proof.
  intros Hb Hbs Hg Hm. pose proof (build_geometry_ok _ _ _ _ _ Hb Hbs Hg) as G.
  destruct (cap_for_smallest g m G Hm) as (cap & Hfor & Hin & Hle & Hmin).
  exists cap. split; [done|]. split; [done|].
  unfold build in Hg. destruct (capacities block bs lad) as [all|] eqn:Ec; [|done]. cbn [mbind res_bind] in Hg.
  destruct (select_chunk _) as [[[ch kept] dropped]|] eqn:Es; [|done]. cbn [mbind res_bind] in Hg.
  destruct (select_chunk_spec _ _ _ _ Es) as (_ & _ & H3 & _). injection Hg as Hg. rewrite <- Hg in Hin, Hmin. cbn in Hin, Hmin.
  assert (Hmap : forall c lim, (c, lim) ∈ map (fun c => (c, mpl c)) all <-> c ∈ all /\ lim = mpl c).
  { intros c lim. rewrite list_elem_of_fmap. split; [intros (? & [= -> ->] & ?); done|intros [? ->]; eauto]. }
  destruct (proj1 (H3 cap) Hin) as (lim & [Ha ->]%Hmap & Hlim). split; [done|]. split.
  - exists all. split; [done|]. split; [done|]. intros c Hc Hmc Hlc. apply Hmin; [|done]. apply H3. exists (mpl c). by rewrite Hmap.
  - intros mr Hmr. unfold prequant_caps. destruct (chunk g <? mr) eqn:E; [lia|].
    rewrite sorted_set_elem, elem_of_app. right. apply list_elem_of_filter. split; [lia|]. by rewrite <- Hg.
Qed.

(** ** The remap kernel computes its reference *)

Lemma foldl_min_le a l x : x <= foldl Z.min a l <-> x <= a /\ forall y, y ∈ l -> x <= y.
Proof.
  revert a. induction l as [|z l IH]; intros a; cbn [foldl].
  - split; [|by intros [? _]]. intros H. split; [done|]. intros y Hy. by apply not_elem_of_nil in Hy.
  - rewrite IH. split.
    + intros [H1 H2]. split; [lia|]. intros y [->|Hy]%elem_of_cons; [lia|by apply H2].
    + intros [H1 H2]. split; [|intros y Hy; apply H2; by right]. specialize (H2 z ltac:(by left)). lia.
Qed.

Lemma ref_min_le l x : l <> [] -> x <= ref_min l <-> forall y, y ∈ l -> x <= y.
Proof.
  destruct l as [|z l]; [done|]. intros _. cbn [ref_min]. rewrite foldl_min_le. split.
  - intros [H1 H2] y [->|Hy]%elem_of_cons; [done|by apply H2].
  - intros H. split; [apply H; by left|]. intros y Hy. apply H. by right.
Qed.

Lemma le_iff_eq a b : (forall x, x <= a <-> x <= b) -> a = b.
Proof. intros H. pose proof (proj1 (H a) ltac:(lia)). pose proof (proj2 (H b) ltac:(lia)). lia. Qed.

Lemma i32_id z : - 2 ^ 31 <= z < 2 ^ 31 -> i32 z = z.
Proof. intros H. unfold i32. rewrite Z.mod_small by lia. lia. Qed.

Lemma elem_zrange a b x : x ∈ zrange a b <-> a <= x < b.
Proof. unfold zrange. rewrite elem_of_seqZ. lia. Qed.

Lemma lookup_zrange n i : Z.of_nat i < n -> zrange 0 n !! i = Some (Z.of_nat i).
Proof. intros H. unfold zrange. rewrite lookup_seqZ_lt by lia. done. Qed.

Section RemapProof.
Context {F : Type} (zero : F) (IDS : view Z) (W : view F) (M K OFFSET NUM_LOCAL KP BR : Z).
Context (HM : 0 < M) (HK : 0 < K) (HKP : K <= KP) (HBR : 0 < BR) (HNL : NUM_LOCAL <= BIG)
  (Hids : forall r c, 0 <= r < M -> 0 <= c < K ->
     - 2 ^ 31 <= at_ IDS r c < 2 ^ 31 /\ - 2 ^ 31 <= at_ IDS r c - OFFSET < 2 ^ 31).

Let ids r c := at_ IDS r c.
Let w r c := at_ W r c.

Lemma lane_ok_ref r c : 0 <= r < M -> 0 <= c < K ->
  lane_lid IDS M OFFSET K r c = ref_lid ids OFFSET r c /\ lane_ok IDS M OFFSET NUM_LOCAL K r c = ref_ok ids OFFSET NUM_LOCAL r c.
Proof.
  intros Hr Hc. destruct (Hids r c Hr Hc) as [H1 H2].
  assert (Hin : lane_in M K r c = true) by (unfold lane_in; apply andb_true_iff; split; lia).
  assert (E : lane_lid IDS M OFFSET K r c = ref_lid ids OFFSET r c).
  { unfold lane_lid. rewrite Hin, (i32_id (at_ IDS r c)), i32_id by done. done. }
  split; [done|]. unfold lane_ok, ref_ok. by rewrite E, Hin.
Qed.

Lemma lane_out r c : M <= r \/ K <= c -> lane_ok IDS M OFFSET NUM_LOCAL K r c = false /\ lane_in M K r c = false.
Proof.
  intros H. assert (E : lane_in M K r c = false) by (unfold lane_in; apply andb_false_iff; lia).
  unfold lane_ok. by rewrite E.
Qed.

Lemma row_min_le r x : 0 <= r < M ->
  x <= row_min IDS M OFFSET NUM_LOCAL K KP r <->
  x <= BIG /\ forall c, 0 <= c < K -> ref_ok ids OFFSET NUM_LOCAL r c = true -> x <= ref_lid ids OFFSET r c.
Proof.
  intros Hr. unfold row_min. rewrite foldl_min_le.
  split; intros [Hx H]; (split; [done|]).
  - intros c Hc Hok. destruct (lane_ok_ref r c Hr Hc) as [E1 E2].
    specialize (H (if lane_ok IDS M OFFSET NUM_LOCAL K r c then lane_lid IDS M OFFSET K r c else BIG)).
    rewrite E2, Hok, E1 in H. apply H. apply list_elem_of_fmap. exists c. rewrite E2, Hok, E1. split; [done|].
    apply elem_zrange. lia.
  - intros y (c & -> & Hc%elem_zrange)%list_elem_of_fmap. destruct (decide (c < K)) as [Hc2|Hc2].
    + destruct (lane_ok_ref r c Hr ltac:(lia)) as [-> ->]. destruct (ref_ok _ _ _ r c) eqn:E; [|done]. apply H; [lia|done].
    + destruct (lane_out r c ltac:(lia)) as [-> _]. done.
Qed.

Lemma row_min_out r : M <= r -> row_min IDS M OFFSET NUM_LOCAL K KP r = BIG.
Proof.
  intros Hr. apply le_iff_eq. intros x. unfold row_min. rewrite foldl_min_le. split; [by intros [? _]|].
  intros Hx. split; [done|]. intros y (c & -> & _)%list_elem_of_fmap. by destruct (lane_out r c ltac:(lia)) as [-> _].
Qed.

Lemma ref_lid_big r c : ref_ok ids OFFSET NUM_LOCAL r c = true -> ref_lid ids OFFSET r c <= BIG.
Proof. unfold ref_ok. intros H. blia. Qed.

Lemma ref_row_le r x :
  (forall y, y ∈ ref_row ids K OFFSET NUM_LOCAL r -> x <= y) <->
  x <= BIG /\ forall c, 0 <= c < K -> ref_ok ids OFFSET NUM_LOCAL r c = true -> x <= ref_lid ids OFFSET r c.
Proof.
  assert (Hel : forall y, y ∈ ref_row ids K OFFSET NUM_LOCAL r <-> exists c, y = (if ref_ok ids OFFSET NUM_LOCAL r c then ref_lid ids OFFSET r c else BIG) /\ 0 <= c < K).
  { intros y. unfold ref_row. rewrite list_elem_of_fmap. by setoid_rewrite elem_zrange. }
  split.
  - intros H. split.
    + specialize (H _ (proj2 (Hel _) (ex_intro _ 0 (conj eq_refl (conj (Z.le_refl 0) HK))))).
      destruct (ref_ok ids OFFSET NUM_LOCAL r 0) eqn:E; [|done]. pose proof (ref_lid_big r 0 E). lia.
    + intros c Hc Hok. apply H. apply Hel. exists c. by rewrite Hok.
  - intros [Hx H] y (c & -> & Hc)%Hel. destruct (ref_ok _ _ _ r c) eqn:E; [by apply H|done].
Qed.

Lemma ref_row_ne r : ref_row ids K OFFSET NUM_LOCAL r <> [].
Proof. unfold ref_row, zrange. rewrite seqZ_cons by lia. done. Qed.

Lemma row_min_ref r : 0 <= r < M ->
  row_min IDS M OFFSET NUM_LOCAL K KP r = ref_min (ref_row ids K OFFSET NUM_LOCAL r).
Proof. intros Hr. apply le_iff_eq. intros x. rewrite row_min_le by done. rewrite ref_min_le by apply ref_row_ne. by rewrite ref_row_le. Qed.

(** Rows [0 .. M) are covered by the blocks. *)
Lemma block_cover r : 0 <= r < M -> exists r0, r0 ∈ block_starts M BR /\ r ∈ block_rows BR r0.
Proof.
  intros Hr. exists (r / BR * BR). split.
  - apply list_elem_of_fmap. exists (r / BR). split; [done|]. apply elem_zrange. unfold cdiv.
    pose proof (Z.div_mod r BR ltac:(lia)). pose proof (Z.mod_pos_bound r BR HBR).
    pose proof (Z.div_mod (- M) BR ltac:(lia)). pose proof (Z.mod_pos_bound (- M) BR HBR). nia.
  - apply list_elem_of_fmap. exists (r mod BR). split; [pose proof (Z.div_mod r BR ltac:(lia)); lia|].
    apply elem_zrange. pose proof (Z.mod_pos_bound r BR HBR). lia.
Qed.

Lemma block_nonneg r0 r : r0 ∈ block_starts M BR -> r ∈ block_rows BR r0 -> 0 <= r.
Proof.
  intros (i & -> & Hi%elem_zrange)%list_elem_of_fmap (j & -> & Hj%elem_zrange)%list_elem_of_fmap. nia.
Qed.

Lemma best_le x :
  x <= best IDS M OFFSET NUM_LOCAL K KP BR <->
  x <= BIG /\ forall r, 0 <= r < M -> x <= row_min IDS M OFFSET NUM_LOCAL K KP r.
Proof.
  unfold best.
  assert (H : forall l a, x <= foldl (fun best r0 => Z.min best (foldl Z.min BIG (map (row_min IDS M OFFSET NUM_LOCAL K KP) (block_rows BR r0)))) a l <->
     x <= a /\ forall r0 r, r0 ∈ l -> r ∈ block_rows BR r0 -> x <= BIG /\ x <= row_min IDS M OFFSET NUM_LOCAL K KP r).
  { induction l as [|r1 l IH]; intros a; cbn [foldl].
    - split; [|by intros [? _]]. intros Ha. split; [done|]. intros r0 r Hr0. by apply not_elem_of_nil in Hr0.
    - rewrite IH. split.
      + intros [H1 H2]. split; [lia|]. intros r0 r [->|Hr0]%elem_of_cons Hr; [|by eapply H2].
        assert (Hb : x <= foldl Z.min BIG (map (row_min IDS M OFFSET NUM_LOCAL K KP) (block_rows BR r1))) by lia.
        apply foldl_min_le in Hb as [Hb1 Hb2]. split; [done|]. apply Hb2, list_elem_of_fmap. eauto.
      + intros [H1 H2]. split; [|intros r0 r Hr0; apply H2; by right].
        assert (x <= foldl Z.min BIG (map (row_min IDS M OFFSET NUM_LOCAL K KP) (block_rows BR r1))); [|lia].
        apply foldl_min_le. split.
        * destruct (H2 r1 r1 ltac:(by left)) as [? _]; [|done]. apply list_elem_of_fmap. exists 0. split; [lia|]. apply elem_zrange. lia.
        * intros y (r & -> & Hr)%list_elem_of_fmap. by apply (H2 r1 r ltac:(by left)). }
  rewrite H. split.
  - intros [H1 H2]. split; [done|]. intros r Hr. destruct (block_cover r Hr) as (r0 & Hr0 & Hin). by eapply H2.
  - intros [H1 H2]. split; [done|]. intros r0 r Hr0 Hr. split; [done|]. pose proof (block_nonneg r0 r Hr0 Hr).
    destruct (decide (r < M)); [by apply H2|]. by rewrite row_min_out by lia.
Qed.

Lemma best_ref : best IDS M OFFSET NUM_LOCAL K KP BR = ref_best ids M K OFFSET NUM_LOCAL.
Proof.
  apply le_iff_eq. intros x. rewrite best_le. unfold ref_best.
  assert (Hne : concat (map (ref_row ids K OFFSET NUM_LOCAL) (zrange 0 M)) <> []).
  { unfold zrange. rewrite seqZ_cons by lia. cbn [map concat]. pose proof (ref_row_ne 0).
    by destruct (ref_row ids K OFFSET NUM_LOCAL 0). }
  rewrite ref_min_le by done. split.
  - intros [Hx H] y Hy. apply list_elem_of_In, in_concat in Hy as (l & Hl & Hy).
    apply list_elem_of_In, list_elem_of_fmap in Hl as (r & -> & Hr%elem_zrange). specialize (H r ltac:(lia)).
    rewrite row_min_ref in H by lia. rewrite ref_min_le in H by apply ref_row_ne. apply H. by apply list_elem_of_In.
  - intros H. assert (Hr : forall r, 0 <= r < M -> forall y, y ∈ ref_row ids K OFFSET NUM_LOCAL r -> x <= y).
    { intros r Hr y Hy. apply H. apply list_elem_of_In, in_concat. exists (ref_row ids K OFFSET NUM_LOCAL r).
      split; [|by apply list_elem_of_In]. apply list_elem_of_In, list_elem_of_fmap. exists r. split; [done|]. apply elem_zrange. lia. }
    split.
    + specialize (Hr 0 ltac:(lia)). by apply ref_row_le in Hr as [? _].
    + intros r Hr'. rewrite row_min_ref by done. rewrite ref_min_le by apply ref_row_ne. by apply Hr.
Qed.

(** *** The stores *)
Let value r c : Z * F := (ref_id ids M K OFFSET NUM_LOCAL r c, ref_w zero ids w OFFSET NUM_LOCAL r c).

Lemma block_stores_elem a v :
  (exists r0, r0 ∈ block_starts M BR /\ (a, v) ∈ block_stores zero IDS W M OFFSET NUM_LOCAL K KP BR r0) <->
  exists r c, 0 <= r < M /\ 0 <= c < K /\ a = r * K + c /\ v = value r c.
Proof.
  assert (Hv : forall r c, 0 <= r < M -> 0 <= c < K ->
    (if lane_ok IDS M OFFSET NUM_LOCAL K r c then lane_lid IDS M OFFSET K r c
     else if row_min IDS M OFFSET NUM_LOCAL K KP r <? NUM_LOCAL then row_min IDS M OFFSET NUM_LOCAL K KP r
          else fallback IDS M OFFSET NUM_LOCAL K KP BR,
     if lane_ok IDS M OFFSET NUM_LOCAL K r c then at_ W r c else zero) = value r c).
  { intros r c Hr Hc. destruct (lane_ok_ref r c Hr Hc) as [E1 E2]. rewrite E2, E1, (row_min_ref r Hr).
    unfold value, ref_id, ref_w, ref_fill, fallback. by rewrite best_ref. }
  split.
  - intros (r0 & Hr0 & Hin). unfold block_stores in Hin. apply list_elem_of_In, in_concat in Hin as (l & Hl & Hin).
    apply list_elem_of_In, list_elem_of_fmap in Hl as (r & -> & Hr). apply list_elem_of_In, list_elem_of_omap in Hin as (c & Hc & Hin).
    apply elem_zrange in Hc. pose proof (block_nonneg r0 r Hr0 Hr) as Hr1.
    destruct (lane_in M K r c) eqn:El; [|done]. unfold lane_in in El. injection Hin as <- <-.
    exists r, c. assert (0 <= r < M /\ 0 <= c < K) as [Hr2 Hc2] by blia. split; [done|]. split; [done|]. split; [done|]. by apply Hv.
  - intros (r & c & Hr & Hc & -> & ->). destruct (block_cover r Hr) as (r0 & Hr0 & Hin). exists r0. split; [done|].
    unfold block_stores. apply list_elem_of_In, in_concat. eexists. split.
    { apply list_elem_of_In, list_elem_of_fmap. exists r. by split. }
    apply list_elem_of_In, list_elem_of_omap. exists c. split; [apply elem_zrange; lia|].
    assert (El : lane_in M K r c = true) by (unfold lane_in; apply andb_true_iff; split; lia).
    rewrite El. f_equal. f_equal. by apply Hv.
Qed.

(** Stores that agree on every address leave their values; other addresses are not touched. *)
Lemma foldl_store (l : list (Z * (Z * F))) m (val : Z -> Z * F) :
  (forall a v, (a, v) ∈ l -> v = val a) ->
  let m' := foldl store m l in
  forall a, (a ∈ map fst l -> m'.1 !! a = Some (val a).1 /\ m'.2 !! a = Some (val a).2) /\
            (a ∉ map fst l -> m'.1 !! a = m.1 !! a /\ m'.2 !! a = m.2 !! a).
Proof.
  revert m. induction l as [|[a0 v0] l IH]; intros m Hl m' a; subst m'; cbn [foldl map fst].
  { split; [|done]. intros Ha. by apply not_elem_of_nil in Ha. }
  destruct (IH (store m (a0, v0)) ltac:(intros b v Hb; apply Hl; by right) a) as [H1 H2].
  pose proof (Hl a0 v0 ltac:(by left)) as ->. cbn [store fst snd] in *. split.
  - intros [->|Ha]%elem_of_cons; [|by apply H1]. destruct (decide (a0 ∈ map fst l)) as [Hin|Hni]; [by apply H1|].
    destruct (H2 Hni) as [-> ->]. unfold store. cbn [fst snd]. by rewrite !lookup_insert_eq.
  - intros [Hne Hni]%not_elem_of_cons. destruct (H2 Hni) as [-> ->]. unfold store. cbn [fst snd].
    by rewrite !lookup_insert_ne by done.
Qed.

Lemma kernel_concat m :
  kernel zero IDS W M OFFSET NUM_LOCAL K KP BR m
  = foldl store m (concat (map (block_stores zero IDS W M OFFSET NUM_LOCAL K KP BR) (block_starts M BR))).
Proof.
  unfold kernel. revert m. induction (block_starts M BR) as [|r0 l IH]; intros m; [done|].
  cbn [foldl map concat]. by rewrite foldl_app, <- IH.
Qed.

Lemma kernel_ref m :
  let m' := kernel zero IDS W M OFFSET NUM_LOCAL K KP BR m in
  (forall r c, 0 <= r < M -> 0 <= c < K ->
     m'.1 !! (r * K + c) = Some (ref_id ids M K OFFSET NUM_LOCAL r c) /\
     m'.2 !! (r * K + c) = Some (ref_w zero ids w OFFSET NUM_LOCAL r c)) /\
  (forall a, ~ 0 <= a < M * K -> m'.1 !! a = m.1 !! a /\ m'.2 !! a = m.2 !! a).
Proof.
  rewrite kernel_concat. set (l := concat _).
  assert (Hl : forall a v, (a, v) ∈ l <-> exists r c, 0 <= r < M /\ 0 <= c < K /\ a = r * K + c /\ v = value r c).
  { intros a v. rewrite <- block_stores_elem. unfold l. rewrite list_elem_of_In, in_concat. split.
    - intros (x & Hx & Hin). apply list_elem_of_In, list_elem_of_fmap in Hx as (r0 & -> & Hr0). exists r0.
      split; [done|]. by apply list_elem_of_In.
    - intros (r0 & Hr0 & Hin). eexists. split; [apply list_elem_of_In, list_elem_of_fmap; by exists r0|]. by apply list_elem_of_In. }
  assert (Hval : forall r c, 0 <= c < K -> value ((r * K + c) / K) ((r * K + c) mod K) = value r c).
  { intros r c Hc. f_equal.
    - rewrite Z.div_add_l by lia. rewrite Z.div_small by lia. lia.
    - rewrite Z.add_comm, Z.mod_add by lia. by apply Z.mod_small. }
  pose proof (foldl_store l m (fun a => value (a / K) (a mod K))) as H. cbv beta zeta in H.
  specialize (H ltac:(intros a v (r & c & _ & Hc & -> & ->)%Hl; by rewrite Hval)).
  split.
  - intros r c Hr Hc. destruct (H (r * K + c)) as [H1 _]. rewrite Hval in H1 by done. apply H1.
    apply list_elem_of_fmap. exists (r * K + c, value r c). split; [done|]. apply Hl. eauto 10.
  - intros a Ha. apply (H a). intros ([a' v] & -> & (r & c & Hr & Hc & Hac & _)%Hl)%list_elem_of_fmap. cbn in Ha. nia.
Qed.

(** The id written to a slot is a local one: the slot's own, or one the batch reads; only a
    batch without local slots points at expert 0. *)
Lemma ref_id_local r c : 0 <= r < M -> 0 <= c < K -> 0 < NUM_LOCAL ->
  0 <= ref_id ids M K OFFSET NUM_LOCAL r c < NUM_LOCAL /\
  (ref_id ids M K OFFSET NUM_LOCAL r c = 0 \/ exists r' c', 0 <= r' < M /\ 0 <= c' < K /\
     ref_ok ids OFFSET NUM_LOCAL r' c' = true /\ ref_id ids M K OFFSET NUM_LOCAL r c = ref_lid ids OFFSET r' c').
Proof.
  intros Hr Hc Hn. unfold ref_id. destruct (ref_ok ids OFFSET NUM_LOCAL r c) eqn:Eok.
  { split; [unfold ref_ok in Eok; blia|]. right. eauto 10. }
  assert (Hmin : forall l, (forall y, y ∈ l -> exists r' c', 0 <= r' < M /\ 0 <= c' < K /\
             y = if ref_ok ids OFFSET NUM_LOCAL r' c' then ref_lid ids OFFSET r' c' else BIG) ->
           ref_min l < NUM_LOCAL -> exists r' c', 0 <= r' < M /\ 0 <= c' < K /\ ref_ok ids OFFSET NUM_LOCAL r' c' = true /\
             ref_min l = ref_lid ids OFFSET r' c').
  { intros l Hl Hlt.
    assert (Hin : ref_min l ∈ l).
    { destruct l as [|x l]; [unfold ref_min in Hlt; lia|]. cbn [ref_min]. clear. revert x.
      induction l as [|z l IH]; intros x; [by left|]. cbn [foldl]. destruct (Z.min_spec x z) as [[_ ->]|[_ ->]].
      - specialize (IH x). set_solver.
      - right. apply IH. }
    destruct (Hl _ Hin) as (r' & c' & Hr' & Hc' & E). exists r', c'. destruct (ref_ok ids OFFSET NUM_LOCAL r' c') eqn:E2; [done|lia]. }
  assert (Hrow : forall r', 0 <= r' < M -> forall y, y ∈ ref_row ids K OFFSET NUM_LOCAL r' -> exists r' c', 0 <= r' < M /\ 0 <= c' < K /\
             y = if ref_ok ids OFFSET NUM_LOCAL r' c' then ref_lid ids OFFSET r' c' else BIG).
  { intros r' Hr' y (c' & -> & Hc'%elem_zrange)%list_elem_of_fmap. eauto 10. }
  unfold ref_fill. case_match eqn:E1.
  { destruct (Hmin (ref_row ids K OFFSET NUM_LOCAL r) (Hrow r Hr)) as (r' & c' & Hr' & Hc' & Hok & ->); [lia|].
    split; [unfold ref_ok in Hok; blia|]. right. eauto 10. }
  case_match eqn:E2; [|split; [lia|by left]].
  destruct (Hmin (concat (map (ref_row ids K OFFSET NUM_LOCAL) (zrange 0 M)))) as (r' & c' & Hr' & Hc' & Hok & E).
  { intros y Hy. apply list_elem_of_In, in_concat in Hy as (l & Hl & Hy).
    apply list_elem_of_In, list_elem_of_fmap in Hl as (r1 & -> & Hr1%elem_zrange). eapply Hrow; [exact Hr1|by apply list_elem_of_In]. }
  { unfold ref_best in E2. lia. }
  unfold ref_best. rewrite E. split; [unfold ref_ok in Hok; blia|]. right. eauto 10.
Qed.
End RemapProof.

Lemma np2_ge K : 0 < K -> K <= np2 K.
Proof.
  intros HK. unfold np2. destruct (decide (K = 1)) as [->|]; [done|]. pose proof (Z.log2_up_spec K ltac:(lia)). lia.
Qed.

(** The call: every slot gets the reference's values, the rest of the buffers is kept. *)
Lemma ep_remap_ok {F : Type} (zero : F) (IDS : view Z) (W : view F) (M K offset num_local : Z) (m : gmap Z Z * gmap Z F) :
  0 <= M -> 0 < K -> num_local <= BIG ->
  (forall r c, 0 <= r < M -> 0 <= c < K -> - 2 ^ 31 <= at_ IDS r c < 2 ^ 31 /\ - 2 ^ 31 <= at_ IDS r c - offset < 2 ^ 31) ->
  exists m', ep_remap zero true IDS W M K offset num_local m = Ok m' /\
    (forall r c, 0 <= r < M -> 0 <= c < K ->
       m'.1 !! (r * K + c) = Some (ref_id (at_ IDS) M K offset num_local r c) /\
       m'.2 !! (r * K + c) = Some (ref_w zero (at_ IDS) (at_ W) offset num_local r c)) /\
    (forall a, ~ 0 <= a < M * K -> m'.1 !! a = m.1 !! a /\ m'.2 !! a = m.2 !! a).
Proof.
  intros HM HK Hn Hids. unfold ep_remap. destruct (M =? 0) eqn:E0.
  { exists m. split; [done|]. split; [intros; lia|done]. }
  eexists. split; [reflexivity|].
  apply (kernel_ref zero IDS W M K offset num_local (np2 K) 32 ltac:(lia) HK (np2_ge K HK) ltac:(lia) ltac:(lia) Hids m).
Qed.

(** C31: the remap kernel, for any strides of its inputs, writes into every slot of the two
    buffers what the reference computes in unbounded integers and touches nothing else: a
    slot of this rank's experts keeps its weight under the local id, every other slot
    (foreign or padding) gets weight zero and a local id, one the batch reads if there is one. *)
Theorem ep_remap_exact {F : Type} (zero : F) (IDS : view Z) (W : view F) (M K offset num_local : Z) (m : gmap Z Z * gmap Z F) :
  0 <= M -> 0 < K -> 0 < num_local <= BIG ->
  (forall r c, 0 <= r < M -> 0 <= c < K -> - 2 ^ 31 <= at_ IDS r c < 2 ^ 31 /\ - 2 ^ 31 <= at_ IDS r c - offset < 2 ^ 31) ->
  exists m', ep_remap zero true IDS W M K offset num_local m = Ok m' /\
    (forall r c, 0 <= r < M -> 0 <= c < K ->
       let id := ref_id (at_ IDS) M K offset num_local r c in
       m'.1 !! (r * K + c) = Some id /\
       m'.2 !! (r * K + c) = Some (ref_w zero (at_ IDS) (at_ W) offset num_local r c) /\
       0 <= id < num_local /\
       (id = 0 \/ exists r' c', 0 <= r' < M /\ 0 <= c' < K /\ id = at_ IDS r' c' - offset)) /\
    (forall a, ~ 0 <= a < M * K -> m'.1 !! a = m.1 !! a /\ m'.2 !! a = m.2 !! a).
Proof.
  intros HM HK Hn Hids. destruct (ep_remap_ok zero IDS W M K offset num_local m HM HK ltac:(lia) Hids) as (m' & E & H1 & H2).
  exists m'. split; [done|]. split; [|exact H2]. intros r c Hr Hc.
  destruct (H1 r c Hr Hc) as [H3 H4]. split; [exact H3|]. split; [exact H4|].
  destruct (ref_id_local IDS M K offset num_local ltac:(lia) r c Hr Hc ltac:(lia)) as [H5 H6].
  split; [exact H5|]. destruct H6 as [H6|(r' & c' & Hr' & Hc' & _ & H6)]; [by left|]. right. eauto 10.
Qed.

(** ** The forward computes every row *)

(** This rank's slots of a row, under their local ids. *)
Definition localize {F} (offset E : Z) (rt : list (Z * F)) : list (Z * F) :=
  omap (fun iw : Z * F => if (0 <=? iw.1 - offset) && (iw.1 - offset <? E) then Some (iw.1 - offset, iw.2) else None) rt.

(** What the forward relies on of the library: a launch that fits its plan computes its rows
    one by one, ids outside [0 .. E) are skipped, and so is a weight of zero. *)
Class LaunchLaws {X F Y : Type} (zero : F) (E : Z) (run_plan : Z -> list X -> list (list (Z * F)) -> list Y)
    (row_out : X -> list (Z * F) -> Y) := {
  launch_rows cap xs rts : zlen xs <= cap -> length rts = length xs -> run_plan cap xs rts = zip_with row_out xs rts;
  skip_out x a b i w : ~ 0 <= i < E -> row_out x (a ++ (i, w) :: b) = row_out x (a ++ b);
  skip_zero x a b i : 0 <= i < E -> row_out x (a ++ (i, zero) :: b) = row_out x (a ++ b) }.

Section ForwardProof.
Context {X F Y : Type} (zero : F) (E : Z) (run_plan : Z -> list X -> list (list (Z * F)) -> list Y)
  (row_out : X -> list (Z * F) -> Y) {L : LaunchLaws zero E run_plan row_out}.

(** Routes of [K] slots whose ids fit 32 bits. *)
Definition routes_ok (K offset : Z) (routes : list (list (Z * F))) : Prop :=
  forall rt, rt ∈ routes -> zlen rt = K /\ forall iw, iw ∈ rt -> - 2 ^ 31 <= iw.1 < 2 ^ 31 /\ - 2 ^ 31 <= iw.1 - offset < 2 ^ 31.

Lemma row_direct x pre rt : row_out x (pre ++ rt) = row_out x (pre ++ localize 0 E rt).
Proof.
  revert pre. induction rt as [|[i w] rt IH]; intros pre; [done|]. cbn [localize omap list_omap]. cbn [fst snd].
  rewrite Z.sub_0_r. destruct ((0 <=? i) && (i <? E)) eqn:Ei.
  - specialize (IH (pre ++ [(i, w)])). rewrite <- !app_assoc in IH. exact IH.
  - rewrite skip_out by blia. apply IH.
Qed.

(** A row whose other slots were pointed at a local expert with weight zero. *)
Lemma row_remapped offset x pre rt (fill : Z -> Z) k :
  (forall c, 0 <= fill c < E) ->
  row_out x (pre ++ imap (fun c (iw : Z * F) =>
      if (0 <=? iw.1 - offset) && (iw.1 - offset <? E) then (iw.1 - offset, iw.2) else (fill (k + Z.of_nat c), zero)) rt)
  = row_out x (pre ++ localize offset E rt).
Proof.
  intros Hfill. revert pre k. induction rt as [|[i w] rt IH]; intros pre k; [done|]. rewrite imap_cons.
  cbn [localize omap list_omap fst snd].
  assert (Eq : forall (f g : nat -> Z * F -> Z * F), (forall c iw, f c iw = g c iw) -> imap f rt = imap g rt) by (intros; by apply imap_ext).
  rewrite (Eq _ (fun c (iw : Z * F) => if (0 <=? iw.1 - offset) && (iw.1 - offset <? E) then (iw.1 - offset, iw.2) else (fill ((k + 1) + Z.of_nat c), zero)))
    by (intros c iw; cbn; case_match; [done|]; do 2 f_equal; lia).
  destruct ((0 <=? i - offset) && (i - offset <? E)) eqn:Ei.
  - specialize (IH (pre ++ [(i - offset, w)]) (k + 1)). rewrite <- !app_assoc in IH. exact IH.
  - rewrite skip_zero by apply Hfill. apply IH.
Qed.

Lemma nth_zrange_row (rt : list (Z * F)) K (f : Z -> Z * F -> Z * F) d :
  zlen rt = K -> map (fun c => f c (nth (Z.to_nat c) rt d)) (zrange 0 K) = imap (fun c => f (Z.of_nat c)) rt.
Proof.
  intros Hl. apply list_eq. intros c. rewrite list_lookup_imap.
  etransitivity; [exact (list_lookup_fmap (fun c => f c (nth (Z.to_nat c) rt d)) (zrange 0 K) c)|].
  destruct (rt !! c) as [iw|] eqn:E1.
  - apply lookup_lt_Some in E1 as Hlt. unfold zrange. rewrite lookup_seqZ_lt by (unfold zlen in Hl; lia).
    simpl. rewrite Z.add_0_l, Nat2Z.id. by rewrite (nth_lookup_Some _ _ _ _ E1).
  - apply lookup_ge_None in E1. unfold zrange. rewrite lookup_seqZ_ge by (unfold zlen in Hl; lia). done.
Qed.

Lemma remapped_spec K offset routes buf :
  0 < K -> 0 < E <= BIG -> routes_ok K offset routes ->
  exists rts buf', remapped zero K offset E routes buf = Ok (rts, buf') /\ length rts = length routes /\
    forall i rt, routes !! i = Some rt -> exists rt', rts !! i = Some rt' /\
      forall x, row_out x rt' = row_out x (localize offset E rt).
Proof.
  intros HK HE Hok. unfold remapped.
  set (IDS := mkView _ (fun a => (slot_at zero K routes a).1) K 1). set (W := mkView _ (fun a => (slot_at zero K routes a).2) K 1).
  assert (Hslot : forall r c, 0 <= c < K -> slot_at zero K routes (r * K + c * 1) = nth (Z.to_nat c) (nth (Z.to_nat r) routes []) (-1, zero)).
  { intros r c Hc. unfold slot_at. rewrite Z.mul_1_r.
    replace ((r * K + c) mod K) with c by (rewrite Z.add_comm, Z.mod_add by lia; symmetry; by apply Z.mod_small).
    replace ((r * K + c) / K) with r; [done|]. rewrite Z.div_add_l, Z.div_small by lia. lia. }
  assert (Hrow : forall r, 0 <= r < zlen routes -> exists rt, routes !! Z.to_nat r = Some rt /\ nth (Z.to_nat r) routes [] = rt /\ rt ∈ routes).
  { intros r Hr. unfold zlen in Hr. destruct (lookup_lt_is_Some_2 routes (Z.to_nat r)) as [rt Hrt]; [lia|].
    exists rt. split; [done|]. split; [by apply nth_lookup_Some|by eapply list_elem_of_lookup_2]. }
  assert (Hcell : forall r c rt, routes !! Z.to_nat r = Some rt -> 0 <= c < K ->
     at_ IDS r c = (nth (Z.to_nat c) rt (-1, zero)).1 /\ at_ W r c = (nth (Z.to_nat c) rt (-1, zero)).2).
  { intros r c rt Hrt Hc. unfold at_, IDS, W. cbn [base s0 s1]. rewrite Hslot by done.
    by rewrite (nth_lookup_Some _ _ _ _ Hrt). }
  destruct (ep_remap_ok zero IDS W (zlen routes) K offset E buf) as (buf' & -> & Hbuf & _); [unfold zlen; lia|done|lia| |].
  { intros r c Hr Hc. destruct (Hrow r Hr) as (rt & Hrt & _ & Hin). destruct (Hcell r c rt Hrt Hc) as [-> _].
    destruct (Hok rt Hin) as [Hl Hiw]. apply Hiw. destruct (lookup_lt_is_Some_2 rt (Z.to_nat c)) as [iw Hc2]; [unfold zlen in Hl; lia|].
    rewrite (nth_lookup_Some _ _ _ _ Hc2). by eapply list_elem_of_lookup_2. }
  cbn [mbind res_bind]. eexists _, _. split; [reflexivity|]. split; [rewrite length_map; unfold zrange, zlen; rewrite length_seqZ; lia|].
  intros i rt Hi. apply lookup_lt_Some in Hi as Hilt.
  assert (Hr : 0 <= Z.of_nat i < zlen routes) by (unfold zlen; lia).
  assert (Hi' : routes !! Z.to_nat (Z.of_nat i) = Some rt) by (by rewrite Nat2Z.id).
  set (fill c := if (0 <=? c) && (c <? K) then ref_id (at_ IDS) (zlen routes) K offset E (Z.of_nat i) c else 0).
  exists (imap (fun c (iw : Z * F) => if (0 <=? iw.1 - offset) && (iw.1 - offset <? E) then (iw.1 - offset, iw.2)
            else (fill (0 + Z.of_nat c), zero)) rt).
  split.
  - etransitivity; [exact (list_lookup_fmap (fun r => map (fun c => (default (-1) (buf'.1 !! (r * K + c)), default zero (buf'.2 !! (r * K + c)))) (zrange 0 K)) (zrange 0 (zlen routes)) i)|].
    rewrite lookup_zrange by lia. simpl. f_equal.
    destruct (Hok rt ltac:(by eapply list_elem_of_lookup_2)) as [Hl _].
    rewrite <- (nth_zrange_row rt K (fun c (iw : Z * F) => if (0 <=? iw.1 - offset) && (iw.1 - offset <? E) then (iw.1 - offset, iw.2)
            else (fill (0 + c), zero)) (-1, zero) Hl).
    apply map_ext_in. intros c Hc. apply list_elem_of_In, elem_zrange in Hc.
    destruct (Hbuf (Z.of_nat i) c Hr Hc) as (H1 & H2). rewrite H1, H2. cbn [default from_option].
    destruct (Hcell (Z.of_nat i) c rt Hi' Hc) as [E1 E2].
    assert (Ef : fill (0 + c) = ref_id (at_ IDS) (zlen routes) K offset E (Z.of_nat i) c).
    { unfold fill. rewrite Z.add_0_l. replace ((0 <=? c) && (c <? K)) with true; [done|]. symmetry. apply andb_true_iff. lia. }
    rewrite Ef. unfold ref_id, ref_w, ref_ok, ref_lid. rewrite E1, E2. by case_match.
  - intros x. apply (row_remapped offset x [] rt fill 0). intros c. unfold fill. case_match; [|lia].
    destruct (ref_id_local IDS (zlen routes) K offset E ltac:(lia) (Z.of_nat i) c Hr ltac:(blia) ltac:(lia)) as [H3 _]. exact H3.
Qed.

Lemma py_slice_lookup {A} (l : list A) a b i :
  0 <= a <= b -> b <= zlen l -> py_slice l a b !! i = if decide (Z.of_nat i < b - a) then l !! (Z.to_nat a + i)%nat else None.
Proof.
  intros H1 H2. rewrite py_slice_in by lia. case_decide.
  - by rewrite lookup_take_lt, lookup_drop by lia.
  - by rewrite lookup_take_ge by lia.
Qed.

Lemma py_slice_zlen {A} (l : list A) a b : 0 <= a <= b -> b <= zlen l -> zlen (py_slice l a b) = b - a.
Proof. intros H1 H2. rewrite py_slice_in by lia. unfold zlen in *. rewrite length_take, length_drop. lia. Qed.

Lemma zip_slice {A B C} (f : A -> B -> C) (l : list A) (k : list B) a b :
  0 <= a <= b -> b <= zlen l -> zlen k = zlen l ->
  zip_with f (py_slice l a b) (py_slice k a b) = py_slice (zip_with f l k) a b.
Proof.
  intros H1 H2 H3. apply list_eq. intros i. rewrite lookup_zip_with.
  rewrite !py_slice_lookup by (rewrite ?length_zip_with; unfold zlen in *; rewrite ?length_zip_with; lia).
  case_decide; [|done]. by rewrite lookup_zip_with.
Qed.

(** One chunk: its routes, direct or remapped, give its rows of the result. *)
Lemma chunk_rows (direct : bool) K offset (xs : list X) (rs : list (list (Z * F))) (buf : gmap Z Z * gmap Z F) :
  0 < K -> 0 < E <= BIG -> routes_ok K offset rs -> (direct = true -> offset = 0) -> length rs = length xs ->
  exists rts buf', (if direct then Ok (rs, buf) else remapped zero K offset E rs buf) = Ok (rts, buf') /\
    length rts = length xs /\
    zip_with row_out xs rts = zip_with (fun xr rt => row_out xr (localize offset E rt)) xs rs.
Proof.
  intros HK HE Hok Hdir Hlen. destruct direct.
  - exists rs, buf. split; [done|]. split; [done|]. rewrite (Hdir eq_refl). clear - L. revert rs.
    induction xs as [|a xs IH]; intros [|r rs]; [done..|]. cbn [zip_with]. f_equal; [apply (row_direct a [] r)|apply IH].
  - destruct (remapped_spec K offset rs buf HK HE Hok) as (rts & buf' & Erts & Hrl & Hrow).
    exists rts, buf'. split; [done|]. split; [by rewrite Hrl|]. apply list_eq. intros i. rewrite !lookup_zip_with.
    destruct (xs !! i) as [xr|] eqn:Ex; [|done]. simpl. destruct (rs !! i) as [rt|] eqn:Er.
    + destruct (Hrow i rt Er) as (rt' & -> & Hx). simpl. by rewrite Hx.
    + apply lookup_ge_None in Er. by rewrite (lookup_ge_None_2 rts i) by lia.
Qed.

(** Writing rows [s .. e) of the result extends the prefix that is right. *)
Lemma stitch {A} (o ys : list A) s e :
  length o = length ys -> 0 <= s <= e -> e <= zlen ys -> take (Z.to_nat s) o = take (Z.to_nat s) ys ->
  let o' := py_slice o 0 s ++ py_slice ys s e ++ py_slice o e (zlen o) in
  length o' = length ys /\ take (Z.to_nat e) o' = take (Z.to_nat e) ys.
Proof.
  intros Ho Hs He Htake o'. assert (Hz : zlen o = zlen ys) by (unfold zlen; lia).
  pose proof (py_slice_zlen o 0 s ltac:(lia) ltac:(lia)) as L1. pose proof (py_slice_zlen ys s e ltac:(lia) ltac:(lia)) as L2.
  pose proof (py_slice_zlen o e (zlen o) ltac:(lia) ltac:(lia)) as L3. unfold zlen in L1, L2, L3, He, Hz. split.
  - unfold o'. rewrite !length_app. unfold zlen in *. lia.
  - unfold o'. rewrite app_assoc, take_app_le by (rewrite length_app; lia). rewrite take_ge by (rewrite length_app; lia).
    rewrite !py_slice_in by (unfold zlen; lia). rewrite Z.sub_0_r, drop_0, Htake.
    replace (Z.to_nat e) with (Z.to_nat s + Z.to_nat (e - s))%nat by lia. apply take_take_drop.
Qed.

Lemma routes_ok_slice K offset routes s e : routes_ok K offset routes -> 0 <= s <= e -> e <= zlen routes ->
  routes_ok K offset (py_slice routes s e).
Proof.
  intros Hok Hs He rt Hrt. apply Hok. rewrite py_slice_in in Hrt by lia.
  apply elem_of_take in Hrt as (i & Hi & _). rewrite lookup_drop in Hi. by eapply list_elem_of_lookup_2.
Qed.

(** C14: the forward ends, never asks a plan for more rows than it holds, and gives every row
    of the batch the sum over this rank's experts, whatever the batch size, the chunk and
    the stale contents of the id buffers; on the remap path and, with all experts local, on
    the direct path, padding ids included. *)
Theorem forward_exact block bs lad mpl g (direct : bool) K offset (x : list X) (routes : list (list (Z * F)))
    (out : list Y) (buf : gmap Z Z * gmap Z F) :
  1 <= block -> Forall (Z.le 1) bs -> build block bs lad mpl = Ok g ->
  0 < K -> 0 < E <= BIG -> routes_ok K offset routes -> (direct = true -> offset = 0) ->
  length routes = length x -> length out = length x ->
  forward_loop zero run_plan (length x) g direct K offset E x routes 0 out buf
  = Some (Ok (zip_with (fun xr rt => row_out xr (localize offset E rt)) x routes)).
Proof.
  intros Hb Hbs Hg HK HE Hok Hdir Hlr Hlo. pose proof (build_geometry_ok _ _ _ _ _ Hb Hbs Hg) as G.
  assert (Hch : 1 <= chunk g) by (eapply (caps_pos _ G), last_Some_elem_of, G).
  set (ys := zip_with _ x routes).
  assert (Hys : length ys = length x) by (unfold ys; rewrite length_zip_with; lia).
  assert (Hzr : zlen routes = zlen x) by (unfold zlen; lia). assert (Hzy : zlen ys = zlen x) by (unfold zlen; lia).
  assert (Hgen : forall fuel s out buf, 0 <= s <= zlen x -> zlen x - s <= Z.of_nat fuel -> length out = length x ->
    take (Z.to_nat s) out = take (Z.to_nat s) ys ->
    forward_loop zero run_plan fuel g direct K offset E x routes s out buf = Some (Ok ys)).
  { induction fuel as [|fuel IH]; intros s o bf Hs Hf Ho Htake; cbn [forward_loop].
    all: destruct (s <? zlen x) eqn:E1; [try lia|do 2 f_equal; by rewrite !take_ge in Htake by (unfold zlen in *; lia)].
    set (e := Z.min (zlen x) (s + chunk g)). assert (He : s < e <= zlen x /\ e - s <= chunk g) by lia.
    destruct (cap_for_smallest g (e - s) G ltac:(lia)) as (cap & Hcap & _ & Hle & _).
    pose proof (py_slice_zlen routes s e ltac:(lia) ltac:(lia)) as L1. pose proof (py_slice_zlen x s e ltac:(lia) ltac:(lia)) as L2.
    destruct (chunk_rows direct K offset (py_slice x s e) (py_slice routes s e) bf HK HE) as (rts & bf' & -> & Hrl & Hz);
      [by apply routes_ok_slice; [|lia..]|done|unfold zlen in *; lia|].
    rewrite Hcap. unfold _run. rewrite L2. destruct (cap <? e - s) eqn:E2; [lia|].
    rewrite (launch_rows cap (py_slice x s e) rts), Hz, (zip_slice _ x routes s e) by (done || lia). fold ys.
    destruct (stitch o ys s e) as [S1 S2]; [lia..|done|]. apply IH; [lia|lia|by rewrite S1|done]. }
  apply Hgen; [unfold zlen; lia|unfold zlen; lia|done|done].
Qed.
End ForwardProof.

(** ** The arena *)

Lemma align_ge n : 0 <= n -> n <= _align n.
Proof.
  intros H. unfold _align, align_up. pose proof (Z.div_mod (n + 256 - 1) 256 ltac:(lia)).
  pose proof (Z.mod_pos_bound (n + 256 - 1) 256 ltac:(lia)). lia.
Qed.

(** Buffers of a plan follow each other inside the arena, each on a 256-byte boundary. *)
Lemma carve_fits off nbytes :
  Forall (Z.le 0) nbytes -> 0 <= off -> off mod 256 = 0 ->
  Forall (fun r : Z * Z => off <= r.1 /\ r.1 <= r.2 <= off + zsum (map _align nbytes) /\ r.1 mod 256 = 0) (carve off nbytes) /\
  ForallOrdPairs (fun r r' : Z * Z => r.2 <= r'.1) (carve off nbytes).
Proof.
  intros Hn. revert off. induction Hn as [|nb l Hnb _ IH]; intros off Ho Hm; cbn [carve map zsum]; [split; constructor|].
  pose proof (align_ge nb Hnb) as Hal.
  assert (Ha : (off + _align nb) mod 256 = 0).
  { unfold _align, align_up. rewrite Z.add_mod by lia. by rewrite Hm, Z.mod_mul by lia. }
  destruct (IH (off + _align nb) ltac:(lia) Ha) as [H1 H2].
  assert (Hz : 0 <= zsum (map _align l)).
  { clear -H1 Hal Hnb. destruct l as [|x l]; [done|]. cbn [carve] in H1. apply Forall_cons_1 in H1 as [H _]. cbn [fst snd] in H. lia. }
  split.
  - constructor; [cbn [fst snd]; repeat split; try done; lia|]. eapply Forall_impl; [exact H1|]. intros r (? & ? & ?). repeat split; try done; lia.
  - constructor; [|exact H2]. eapply Forall_impl; [exact H1|]. intros r (? & _). cbn [fst snd]. lia.
Qed.

Lemma arena_holds specs need nb :
  arena_size specs = Ok need -> nb ∈ specs -> Forall (Z.le 0) nb ->
  Forall (fun r : Z * Z => 0 <= r.1 /\ r.1 <= r.2 <= need) (carve 0 nb).
Proof.
  unfold arena_size. intros H Hin Hnn. destruct (map _ specs) as [|z l] eqn:E; [done|]. cbn [py_max mbind res_bind] in H.
  injection H as <-. destruct (carve_fits 0 nb Hnn ltac:(lia) eq_refl) as [H _].
  destruct (zmax1_ge z l) as [Hz1 Hz2].
  assert (Hle : zsum (map _align nb) <= zmax1 z l).
  { assert (Hel : zsum (map _align nb) ∈ z :: l) by (rewrite <- E; apply list_elem_of_fmap; by exists nb).
    apply elem_of_cons in Hel as [->|Hel]; [done|by apply Hz2]. }
  eapply Forall_impl; [exact H|]. intros r (? & ? & ?). split; lia.
Qed.

(** ** A concrete instance: the default table, and a library that adds up weights. *)
Module Instances.
Definition geo : res Geometry := build 5 [1; 2; 3] [128; 256] (fun c => if c <? 200 then 1000 else 200).

Example geo_caps : (fun g => (caps g, chunk g)) <$> geo = Ok ([5; 6; 10; 12; 15; 18; 128], 128).
Proof. vm_compute. reflexivity. Qed.

(** Each row of one number: its value times the sum of weight * (id + 1). *)
Definition row_out (x : Z) (rt : list (Z * Z)) : Z :=
  x * zsum (map (fun iw : Z * Z => if (0 <=? iw.1) && (iw.1 <? 4) then (iw.1 + 1) * iw.2 else 0) rt).
Definition run_plan (cap : Z) (xs : list Z) (rts : list (list (Z * Z))) : list Z := zip_with row_out xs rts.

#[export] Instance laws : LaunchLaws 0 4 run_plan row_out.
Proof.
  split.
  - done.
  - intros x a b i w Hi. unfold row_out. rewrite !map_app, !zsum_app. cbn [map zsum fst snd].
    replace ((0 <=? i) && (i <? 4)) with false; [lia|]. symmetry. apply andb_false_iff. lia.
  - intros x a b i Hi. unfold row_out. rewrite !map_app, !zsum_app. cbn [map zsum fst snd]. case_match; lia.
Qed.

Definition the_geometry : Geometry := match geo with Ok g => g | Raise _ => mkGeometry 0 [] [] 0 [] end.
Definition batch : list Z := zrange 1 301.
(** Experts 4 to 7 are this rank's; slots of other ranks and a padding slot. *)
Definition batch_routes : list (list (Z * Z)) := map (fun r => [(r mod 8, 1); (-1, 5); (5, 2)]) batch.
End Instances.
Import Instances.

Lemma plan_fits_witness :
  exists cap, cap_for the_geometry 20 = Some cap /\ 20 <= cap <= 128 /\ cap <= 1000 /\
    forall min_rows, min_rows <= 20 -> cap ∈ prequant_caps the_geometry min_rows.
Proof.
  destruct (plan_fits 5 [1; 2; 3] [128; 256] (fun c => if c <? 200 then 1000 else 200) the_geometry 20)
    as (cap & H1 & H2 & H3 & _ & H4).
  - lia.
  - repeat (apply Forall_cons_2; [lia|]). by apply Forall_nil_2.
  - vm_compute. reflexivity.
  - change (chunk the_geometry) with 128. lia.
  - change (chunk the_geometry) with 128 in H2. exists cap. split; [exact H1|]. split; [exact H2|]. split; [|exact H4].
    destruct (cap <? 200); lia.
Defined.

Lemma ep_remap_exact_witness :
  let ids := mkView _ (fun a => nth (Z.to_nat a) [0; 5; -1; 3; 7; 9] 0) 3 1 in
  let w := mkView _ (fun a => nth (Z.to_nat a) [1; 2; 3; 4; 5; 6] 0) 3 1 in
  exists m', ep_remap 0 true ids w 2 3 4 4 (∅, ∅) = Ok m' /\
    forall r c, 0 <= r < 2 -> 0 <= c < 3 -> exists id, m'.1 !! (r * 3 + c) = Some id /\ 0 <= id < 4.
Proof.
  destruct (ep_remap_exact 0 (mkView _ (fun a => nth (Z.to_nat a) [0; 5; -1; 3; 7; 9] 0) 3 1)
              (mkView _ (fun a => nth (Z.to_nat a) [1; 2; 3; 4; 5; 6] 0) 3 1) 2 3 4 4 (∅, ∅)) as (m' & H1 & H2 & _).
  - lia.
  - lia.
  - unfold BIG. lia.
  - intros r c Hr Hc. assert (Hr' : r = 0 \/ r = 1) by lia. assert (Hc' : c = 0 \/ c = 1 \/ c = 2) by lia.
    destruct Hr' as [-> | ->], Hc' as [-> | [-> | ->]]; vm_compute; repeat split; done.
  - exists m'. split; [exact H1|]. intros r c Hr Hc. destruct (H2 r c Hr Hc) as (H3 & _ & H4 & _). eauto.
Defined.

Lemma forward_exact_witness :
  forward_loop 0 run_plan 300 the_geometry false 3 4 4 batch batch_routes 0 (replicate 300 0) (∅, ∅)
  = Some (Ok (zip_with (fun xr rt => row_out xr (localize 4 4 rt)) batch batch_routes)).
Proof.
  apply (forward_exact 0 4 run_plan row_out 5 [1; 2; 3] [128; 256] (fun c => if c <? 200 then 1000 else 200)
           the_geometry false 3 4 batch batch_routes (replicate 300 0) (∅, ∅)).
  - lia.
  - repeat (apply Forall_cons_2; [lia|]). by apply Forall_nil_2.
  - vm_compute. reflexivity.
  - lia.
  - unfold BIG. lia.
  - intros rt (r & -> & _)%list_elem_of_fmap. split; [done|]. intros iw Hiw.
    pose proof (Z.mod_pos_bound r 8 ltac:(lia)).
    repeat (apply elem_of_cons in Hiw as [->|Hiw]; [cbn [fst]; lia|]). by apply not_elem_of_nil in Hiw.
  - done.
  - vm_compute. reflexivity.
  - vm_compute. reflexivity.
Defined.
