(* ===== verification/AutotuneKeep.v ===== *)
(** * The tuning cache kept across boots (adapter/autotune_keep.py)

    Which boots reuse the kernel library's tuning cache.  Modelled: the two fingerprints of
    a launch, the two sidecar files and their comparison, the digest of the engine's entry
    gate, and the wrapped tuning context, over any sequence of boots of this adapter and of
    older ones.  The hash, the JSON parser and the engine's gate are parameters; a boot that
    dies between the save and the sidecars is a step of its own. *)
From S2P Require Import Prelude PyStr.
#[local] Open Scope string_scope.
#[local] Open Scope list_scope.
#[local] Open Scope Z_scope.

(** ** Fingerprints *)
Definition _PREFIXES : list string := ["SGLANG_"; "DSV41_"; "SPARK_"; "B12X_"; "NCCL_"].
Definition _VOLATILE : list string :=
  ["DSV41_DRAFT_CAPTURE"; "DSV41_DRAFT_CAPTURE_OUT"; "DSV41_DRAFT_CAPTURE_TRIGGER";
   "DSV41_DRAFT_CAPTURE_MAX_GIB"; "DSV41_VERIFY_CAP"; "DSV41_VERIFY_CAP_MIN"; "DSV41_DRAFT_TAU";
   "DSV41_BLOCK_VERIFY"; "DSV41_FOLDED_FENCE"; "DSV41_AUTOTUNE_KEEP"; "SGLANG_RUN_ID";
   "DSV41_DRAFT_HEAD_FP8"; "DSV41_ENGRAM_PREFETCH"; "DSV41_ENGRAM_PREFETCH_CHECK"; "DSV41_REPLICATED_SPLIT";
   "DSV41_REPLICATED_SPLIT_MAX_M"; "DSV41_DRAFT_MAIN_PROJ_SPLIT"; "DSV41_DRAFT_MAIN_PROJ_MAX_M";
   "DSV41_ROCE_GATHER"; "DSV41_ROUTER_LIVE"; "DSV41_DYN_SHARED"; "DSV41_DYN_SHARED_RATIO";
   "DSV41_DYN_SHARED_FIXED"; "DSV41_DYN_SHARED_MAX_M"; "DSV41_DYN_SHARED_SERIAL"; "DSV41_VERIFY_CAP_LOG";
   "DSV41_VERIFY_CAP_LOG_FEATURES"; "DSV41_ROUTE_STATS"; "DSV41_ROUTE_RING"; "DSV41_DRAFT_TAU_POS";
   "DSV41_ENGRAM_DRM_NODE"; "DSV41_ENGRAM_DRM_MIB"; "DSV41_ENGRAM_DRM_LAYER"; "DSV41_SWA_NATIVE_DECODE";
   "DSV41_DECODE_YIELD"; "DSV41_DECODE_YIELD_RID_ARMS"; "DSV41_SWA_THIN"; "DSV41_SWA_CONE_REPLAY";
   "DSV41_SWA_CONE_TOKENS"; "DSV41_SWA_CONE_MIN_SAVE"; "DSV41_SWA_CONE_TEST"; "DSV41_KV_LAYOUT";
   "DSV41_V41C_ARM"; "DSV41_V41C_READER"; "DSV41_V41C_DEDUP_ROWS"; "DSV41_V41C_DEDUP_MIN_ROWS";
   "DSV41_V41N_TACTICS"; "DSV41_V41N_DIAG"; "DSV41_V41N_PREFILL"; "DSV41_V41N_PAGE_MIN_ROWS";
   "DSV41_V41N_PAGE_CAP_MB"; "DSV41_TOKENIZER_HEAP"; "DSV41_TOKENIZER_TRIM2_IDLE_S";
   "DSV41_TOKENIZER_TRIM2_POLL_S"; "DSV41_TOKENIZER_TRIM2_MIN_MIB"; "DSV41_TOKENIZER_TRIM2_MIN_INTERVAL_S";
   "DSV41_TOKENIZER_TRIM2_MAX_BUSY_S"; "DSV41_TOKENIZER_TRIM2_INFO_EVERY_S";
   "DSV41_TOKENIZER_TRIM2_BUDGET_MS"; "DSV41_TOKENIZER_TRIM2_MAX_DEFER_S"; "DSV41_TOKENIZER_TRIM2_LOG_MIN_S";
   "DSV41_TOKENIZER_TRIM2_SUMMARY_S"; "DSV41_TOKENIZER_TRIM2_MS_PER_GIB"].
Definition _VOLATILE_ARGS : list string := ["--max-total-tokens"].

Fixpoint argv_loop (skip : bool) (argv : list string) : list string :=
  match argv with
  | [] => []
  | a :: argv' =>
      if skip then argv_loop false argv'
      else if one_of a _VOLATILE_ARGS then argv_loop true argv'
      else if existsb (fun v => startswith (v +:+ "=") a) _VOLATILE_ARGS then argv_loop false argv'
      else a :: argv_loop false argv'
  end.
Definition _argv_key (argv : list string) : list string := argv_loop false argv.

(** A process launch: its argv, its environment, and the base environment an in-boot A/B
    recorded ([None]: unset there). *)
Record launch := mkLaunch { argv : list string; environ : gmap string string; ab_base : list (string * option string) }.

Definition env_key (k : string) : bool :=
  existsb (fun p => startswith p k) _PREFIXES && negb (one_of k _VOLATILE) && negb (startswith "DSV41_AB_" k).

Definition launch_env (l : launch) : gmap string string :=
  foldl (fun env (kv : string * option string) =>
    if one_of kv.1 _VOLATILE then env
    else match kv.2 with None => delete kv.1 env | Some v => <[kv.1 := v]> env end)
    (filter (fun kv : string * string => env_key kv.1 = true) (environ l)) (ab_base l).

Definition payload : Type := list string * gmap string string.

Section Keep.
Context (sha : payload -> string).

Definition launch_fingerprint (raw_argv : bool) (l : launch) : string :=
  sha (if raw_argv then argv l else _argv_key (argv l), launch_env l).
Definition fp : launch -> string := launch_fingerprint false.
Definition fp_raw : launch -> string := launch_fingerprint true.

(** ** The files next to a rank's cache *)
Record Files := mkFiles { cache : option string; sidecar : option string; pool_sidecar : option string }.

Definition newline : string := String (Ascii.ascii_of_nat 10) "".

(** [s.split()]: the words between white space. *)
Fixpoint words_from (word : string) (s : string) : list string :=
  match s with
  | "" => match word with "" => [] | _ => [word] end
  | String c s' =>
      if is_space c then match word with "" => words_from "" s' | _ => word :: words_from "" s' end
      else words_from (word +:+ String c "") s'
  end.
Definition words (s : string) : list string := words_from "" s.

Definition same_launch (f : Files) (fp fp_raw : string) : bool :=
  match sidecar f with
  | None => false
  | Some text =>
      let launch := strip text in
      if negb (String.eqb launch "") && one_of launch [fp; fp_raw] then true
      else match pool_sidecar f with
           | None => false
           | Some pool =>
               match words pool with
               | [p; l] => String.eqb p fp && String.eqb l launch && negb (String.eqb launch "")
               | _ => false
               end
           end
  end.

(** ** The digest of the entry gate *)
Section Boot.
(** The JSON parser ([None]: it raises), what it says of a dict ([None]: not a dict) and the
    hash of the load decision. *)
Context {J D : Type} (loads : string -> option J) (as_dict : J -> option D) (digest_of : D -> string -> string).

Definition _autotune_cache_digest (l : launch) (f : Files) (env : string) : string * Files :=
  match cache f with
  | None => ("", f)
  | Some text =>
      let '(configs, same) := match loads text with
                              | Some j => (as_dict j, same_launch f (fp l) (fp_raw l))
                              | None => (None, false)
                              end in
      match configs with
      | Some d => if same then (digest_of d env, f) else ("", mkFiles None (sidecar f) None)
      | None => ("", mkFiles None (sidecar f) None)
      end
  end.

(** What follows the tuning: the sidecars of a kept or of a new cache. *)
Definition write_sidecars (l : launch) (kept : bool) (f : Files) : Files :=
  match cache f with
  | None => f
  | Some _ =>
      if kept then
        match sidecar f with
        | Some text => mkFiles (cache f) (sidecar f) (Some (fp l +:+ " " +:+ strip text +:+ newline))
        | None => f
        end
      else mkFiles (cache f) (Some (fp_raw l +:+ newline)) (Some (fp l +:+ " " +:+ fp_raw l +:+ newline))
  end.

(** One boot of this adapter: [drop] is the engine's verdict on the digests of all ranks,
    [saved] what the tuning pass left in the cache file when the boot did not keep one. The
    engine's own call of the digest, inside its gate, comes between. *)
Definition enter (l : launch) (drop : bool) (env : string) (f : Files) : bool * Files :=
  let '(d0, f0) := _autotune_cache_digest l f "" in
  let before := negb (String.eqb d0 "") in
  let '(_, f1) := _autotune_cache_digest l f0 env in
  let f2 := if drop then mkFiles None (sidecar f1) (pool_sidecar f1) else f1 in
  (before && match cache f2 with Some _ => true | None => false end, f2).

Definition boot (l : launch) (drop : bool) (env : string) (saved : option string) (f : Files) : bool * Files :=
  let '(kept, f2) := enter l drop env f in
  let f3 := if kept then f2 else mkFiles saved (sidecar f2) (pool_sidecar f2) in
  (kept, write_sidecars l kept f3).

(** An older adapter compares [.launch] with its raw fingerprint, and writes only that file. *)
Definition old_boot (l : launch) (keep : bool) (saved : string) (f : Files) : Files :=
  if keep && match cache f, sidecar f with Some _, Some text => String.eqb (strip text) (fp_raw l) | _, _ => false end
  then f else mkFiles (Some saved) (Some (fp_raw l +:+ newline)) (pool_sidecar f).
End Boot.
End Keep.

(** ** Strings without white space *)
Fixpoint no_space (s : string) : bool :=
  match s with "" => true | String c s' => negb (is_space c) && no_space s' end.
Definition token (s : string) : Prop := s <> "" /\ no_space s = true.

Lemma app_nil_r_string s : s +:+ "" = s.
Proof. induction s as [|c s IH]; [done|]. change (String c s +:+ "") with (String c (s +:+ "")). by rewrite IH. Qed.

Lemma app_assoc_string a b c : (a +:+ b) +:+ c = a +:+ (b +:+ c).
Proof.
  induction a as [|x a IH]; [done|].  change (String x ((a +:+ b) +:+ c) = String x (a +:+ (b +:+ c))). by rewrite IH.
Qed.

Lemma rstrip_token s : no_space s = true -> rstrip (s +:+ newline) = s.
Proof.
  induction s as [|c s IH]; cbn [no_space]; [done|]. intros [Hc Hs]%andb_true_iff. change (String c s +:+ newline) with (String c (s +:+ newline)).
  cbn [rstrip]. rewrite IH by done. apply negb_true_iff in Hc. destruct s; [by rewrite Hc|done].
Qed.

Lemma strip_token s : token s -> strip (s +:+ newline) = s.
Proof.
  intros [Hne Hs]. unfold strip. destruct s as [|c s]; [done|]. pose proof Hs as Hs'. cbn [no_space] in Hs'.
  apply andb_true_iff in Hs' as [Hc _]. apply negb_true_iff in Hc.
  change (String c s +:+ newline) with (String c (s +:+ newline)). cbn [lstrip]. rewrite Hc. exact (rstrip_token (String c s) Hs).
Qed.

Lemma words_from_token w s c rest :
  no_space s = true -> is_space c = true -> w +:+ s <> "" ->
  words_from w (s +:+ String c rest) = (w +:+ s) :: words_from "" rest.
Proof.
  revert w. induction s as [|d s IH]; intros w Hs Hc Hne.
  - change ("" +:+ String c rest) with (String c rest). cbn [words_from]. rewrite Hc, app_nil_r_string in *. by destruct w.
  - cbn [no_space] in Hs. apply andb_true_iff in Hs as [Hd Hs]. apply negb_true_iff in Hd.
    change (String d s +:+ String c rest) with (String d (s +:+ String c rest)). cbn [words_from]. rewrite Hd.
    rewrite IH; [by rewrite app_assoc_string|done|done|]. rewrite app_assoc_string. exact Hne.
Qed.

Lemma words_pair a b : token a -> token b -> words (a +:+ " " +:+ b +:+ newline) = [a; b].
Proof.
  intros [Ha1 Ha2] [Hb1 Hb2]. unfold words. change (" " +:+ b +:+ newline) with (String (Ascii.ascii_of_nat 32) (b +:+ newline)).
  rewrite (words_from_token "" a) by done. cbn. f_equal.
  change newline with (String (Ascii.ascii_of_nat 10) ""). by rewrite (words_from_token "" b) by done.
Qed.

Lemma argv_loop_idem b l : argv_loop false (argv_loop b l) = argv_loop b l.
Proof.
  revert b. induction l as [|a l IH]; intros b; [done|]. cbn [argv_loop]. destruct b; [apply IH|].
  destruct (one_of a _VOLATILE_ARGS) eqn:E1; [apply IH|].
  destruct (existsb _ _VOLATILE_ARGS) eqn:E2; [apply IH|]. cbn [argv_loop]. rewrite E1, E2. f_equal. apply IH.
Qed.

(** ** Any sequence of boots *)
Section History.
Context (sha : payload -> string) {J D : Type} (loads : string -> option J) (as_dict : J -> option D)
  (digest_of : D -> string -> string).

(** The hash has no collisions and its text is a word; the gate's digest is not empty. *)
Class HashLaws : Prop := {
  sha_inj a b : sha a = sha b -> a = b;
  sha_token a : token (sha a);
  digest_nonempty d env : digest_of d env <> "" }.
Context {L : HashLaws}.

Inductive event :=
  | Boot (l : launch) (drop : bool) (env : string) (saved : option string)
  | OldBoot (l : launch) (keep : bool) (saved : string).

(** The files and the launch that tuned what is in the cache. *)
Definition happen (w : Files * option launch) (e : event) : Files * option launch :=
  match e with
  | Boot l drop env saved =>
      let '(kept, f) := boot sha loads as_dict digest_of l drop env saved w.1 in (f, if kept then w.2 else Some l)
  | OldBoot l keep saved =>
      let f := old_boot sha l keep saved w.1 in
      (f, if keep && match cache w.1, sidecar w.1 with Some _, Some text => String.eqb (strip text) (fp_raw sha l) | _, _ => false end
          then w.2 else Some l)
  end.
Definition history (es : list event) : Files * option launch := foldl happen (mkFiles None None None, None) es.

(** What two launches share when they may use each other's tactics. *)
Definition key (l : launch) : payload := (_argv_key (argv l), launch_env l).

Record inv (w : Files * option launch) : Prop := {
  inv_cache : is_Some (cache w.1) -> exists t, w.2 = Some t /\ sidecar w.1 = Some (fp_raw sha t +:+ newline);
  inv_pool p : pool_sidecar w.1 = Some p -> exists t, p = fp sha t +:+ " " +:+ fp_raw sha t +:+ newline }.

Lemma raw_key l t : fp_raw sha l = fp_raw sha t -> key l = key t.
Proof. intros H. apply sha_inj in H. injection H as H1 H2. unfold key. by rewrite H1, H2. Qed.

Lemma fp_key l t : fp sha l = fp sha t <-> key l = key t.
Proof. split; [by intros H%sha_inj|]. unfold fp, launch_fingerprint, key. by intros ->. Qed.

(** The comparison of the sidecars says yes exactly for the launches of the tuner's key, once
    the pool sidecar binds, and never for another key. *)
Lemma same_launch_key w t l :
  inv w -> w.2 = Some t -> sidecar w.1 = Some (fp_raw sha t +:+ newline) ->
  same_launch w.1 (fp sha l) (fp_raw sha l) = true -> key l = key t.
Proof.
  intros I Ht Hs. unfold same_launch. rewrite Hs, (strip_token (fp_raw sha t) (sha_token _)).
  destruct (negb _ && one_of _ _) eqn:E.
  - intros _. apply andb_true_iff in E as [_ E]. unfold one_of in E. cbn [existsb] in E.
    apply orb_true_iff in E as [E|E]; [apply String.eqb_eq in E|rewrite orb_false_r in E; apply String.eqb_eq in E; by apply raw_key].
    apply sha_inj in E. unfold key. injection E as E1 E2. rewrite E1, E2. unfold _argv_key. by rewrite argv_loop_idem.
  - destruct (pool_sidecar w.1) as [p|] eqn:Ep; [|done]. destruct (inv_pool _ I p Ep) as [t' ->].
    rewrite (words_pair (fp sha t') (fp_raw sha t') (sha_token _) (sha_token _)). intros H. apply andb_true_iff in H as [H _]. apply andb_true_iff in H as [H1 H2].
    apply String.eqb_eq in H1, H2. apply raw_key in H2. apply fp_key in H1. congruence.
Qed.

Lemma digest_cases l f env :
  let '(d, f') := _autotune_cache_digest sha loads as_dict digest_of l f env in
  (d <> "" /\ f' = f /\ is_Some (cache f) /\ same_launch f (fp sha l) (fp_raw sha l) = true) \/
  (d = "" /\ cache f' = None /\ sidecar f' = sidecar f /\ (pool_sidecar f' = pool_sidecar f \/ pool_sidecar f' = None)).
Proof.
  unfold _autotune_cache_digest. destruct (cache f) as [text|] eqn:Ec; [|right; auto].
  destruct (loads text) as [j|]; [|right; auto]. destruct (as_dict j) as [d|]; [|right; auto].
  destruct (same_launch f _ _) eqn:Es; [|right; auto]. left. split; [apply digest_nonempty|]. by split; [|split].
Qed.

(** A boot keeps the files as they are, or starts without a cache. *)
Lemma enter_cases l drop env f :
  let '(kept, f2) := enter sha loads as_dict digest_of l drop env f in
  (kept = true /\ f2 = f /\ is_Some (cache f) /\ same_launch f (fp sha l) (fp_raw sha l) = true) \/
  (kept = false /\ cache f2 = None /\ (pool_sidecar f2 = pool_sidecar f \/ pool_sidecar f2 = None)).
Proof.
  unfold enter. pose proof (digest_cases l f "") as H0.
  destruct (_autotune_cache_digest sha loads as_dict digest_of l f "") as [d0 f0].
  pose proof (digest_cases l f0 env) as H1.
  destruct (_autotune_cache_digest sha loads as_dict digest_of l f0 env) as [d1 f1].
  destruct H0 as [(Hd0 & -> & Hc & Hs)|(-> & Hc & Hsd & Hp)].
  - destruct H1 as [(_ & -> & _ & _)|(_ & Hc1 & _ & Hp1)].
    + destruct drop; [right; cbn; rewrite andb_false_r; auto|left]. destruct (String.eqb d0 "") eqn:E; [by apply String.eqb_eq in E|].
      destruct Hc as [c Hc]. rewrite Hc. cbn. eauto.
    + right. destruct drop; cbn; rewrite ?Hc1, andb_false_r; auto.
  - right. cbn. split; [done|]. destruct H1 as [(_ & -> & Hc1 & _)|(_ & Hc1 & _ & Hp1)].
    + rewrite Hc in Hc1. by destruct Hc1.
    + split; [by destruct drop|]. destruct drop; cbn; destruct Hp1 as [-> | ->]; auto.
Qed.

Lemma happen_inv w e : inv w -> inv (happen w e).
Proof.
  intros I. destruct w as [f T]. destruct e as [l drop env saved|l keep saved]; cbn [happen fst snd].
  - unfold boot. pose proof (enter_cases l drop env f) as H.
    destruct (enter sha loads as_dict digest_of l drop env f) as [kept f2]. destruct H as [(-> & -> & Hc & Hs)|(-> & Hc & Hp)].
    + destruct (inv_cache _ I Hc) as (t & Ht & Hsd). cbn [fst snd] in *. unfold write_sidecars. destruct Hc as [c Hc]. rewrite Hc, Hsd.
      pose proof (same_launch_key (f, T) t l I Ht Hsd Hs) as Hk. split; cbn.
      * intros _. by exists t.
      * intros p [= <-]. exists t. rewrite (strip_token (fp_raw sha t) (sha_token _)). by rewrite (proj2 (fp_key l t) Hk).
    + unfold write_sidecars. cbn [cache sidecar pool_sidecar]. destruct saved as [s|]; split; cbn.
      * intros _. by exists l.
      * intros p [= <-]. by exists l.
      * by intros [? ?].
      * intros p Hpp. destruct Hp as [Hp|Hp]; rewrite Hp in Hpp; [by apply (inv_pool _ I)|done].
  - unfold old_boot. case_match; [done|]. split; cbn; [intros _; by exists l|]. apply (inv_pool _ I).
Qed.

Lemma history_inv es : inv (history es).
Proof.
  assert (H : forall es w, inv w -> inv (foldl happen w es)).
  { clear es. induction es as [|e es IH]; intros w I; [done|]. by apply IH, happen_inv. }
  apply H. split; cbn; [by intros [? ?]|done].
Qed.


(** After a boot of this adapter the sidecars say yes to every launch of its key. *)
Lemma bound_same_launch f l l' t :
  sidecar f = Some (fp_raw sha t +:+ newline) -> pool_sidecar f = Some (fp sha l +:+ " " +:+ fp_raw sha t +:+ newline) ->
  key l' = key l -> same_launch f (fp sha l') (fp_raw sha l') = true.
Proof.
  intros Hs Hp Hk. unfold same_launch. rewrite Hs, Hp, (strip_token (fp_raw sha t) (sha_token _)).
  assert (Hne : String.eqb (fp_raw sha t) "" = false) by (apply String.eqb_neq; apply sha_token).
  destruct (negb _ && one_of _ _); [done|].
  rewrite (words_pair (fp sha l) (fp_raw sha t) (sha_token _) (sha_token _)), Hne, (proj2 (fp_key l' l) Hk).
  by rewrite !String.eqb_refl.
Qed.

Lemma boot_bound l t f env text j d :
  cache f = Some text -> loads text = Some j -> as_dict j = Some d ->
  sidecar f = Some (fp_raw sha t +:+ newline) -> same_launch f (fp sha l) (fp_raw sha l) = true ->
  boot sha loads as_dict digest_of l false env None f
  = (true, mkFiles (Some text) (sidecar f) (Some (fp sha l +:+ " " +:+ fp_raw sha t +:+ newline))).
Proof.
  intros Hc Hj Hd Hs Hsame. unfold boot, enter.
  assert (Edig : forall e, _autotune_cache_digest sha loads as_dict digest_of l f e = (digest_of d e, f)).
  { intros e. unfold _autotune_cache_digest. by rewrite Hc, Hj, Hd, Hsame. }
  rewrite Edig. cbn iota beta. rewrite Edig, Hc.
  destruct (String.eqb (digest_of d "") "") eqn:E; [apply String.eqb_eq in E; by apply digest_nonempty in E|].
  cbn. unfold write_sidecars. rewrite Hc, Hs, (strip_token (fp_raw sha t) (sha_token _)). done.
Qed.

End History.

(** ** A concrete instance: the hash writes out the bits of an encoding. *)
Module Instances.
Fixpoint bits (p : positive) : string :=
  match p with xH => "1" | xO p => String (Ascii.ascii_of_nat 48) (bits p) | xI p => String (Ascii.ascii_of_nat 49) (bits p) end.
Definition ex_sha (p : payload) : string := "x" +:+ bits (encode p).

Lemma bits_inj p q : bits p = bits q -> p = q.
Proof.
  revert q. induction p as [p IH|p IH|]; intros [q|q|]; simpl; try done; intros H.
  - injection H as H. f_equal. auto.
  - injection H as H. by destruct p.
  - injection H as H. f_equal. auto.
  - injection H as H. by destruct q.
Qed.

Lemma bits_no_space p : no_space (bits p) = true.
Proof. induction p; simpl; auto. Qed.

#[export] Instance ex_laws : HashLaws ex_sha (fun (d : unit) env => "d").
Proof.
  split.
  - intros a b H. unfold ex_sha in H. injection H as H. apply bits_inj in H. by apply (inj encode) in H.
  - intros a. split; [done|]. apply bits_no_space.
  - done.
Qed.

Definition base : launch := mkLaunch ["serve"; "--tp"; "4"] {["DSV41_MOE_B12X_NEXT" := "1"; "HOME" := "/root"]} [].
(** The same boot with another pool size and another volatile switch. *)
Definition capacity : launch :=
  mkLaunch ["serve"; "--max-total-tokens"; "9000"; "--tp"; "4"]
    {["DSV41_MOE_B12X_NEXT" := "1"; "HOME" := "/tmp"; "DSV41_DECODE_YIELD" := "2"]} [].
Definition other : launch := mkLaunch ["serve"; "--tp"; "2"] {["DSV41_MOE_B12X_NEXT" := "1"]} [].
Definition world : list event := [OldBoot other true "old"; Boot other false "" (Some "{}")].
End Instances.
Import Instances.

Example capacity_key : key capacity = key base.
Proof. vm_compute. reflexivity. Qed.



(** A boot that dies after the tuning pass saved the cache and before the sidecars are
    written leaves the [.launch] of the launch before it beside the new cache: that launch's
    next boot keeps tactics it did not tune. *)
Definition die_before_sidecars {J D} (sha : payload -> string) (loads : string -> option J) (as_dict : J -> option D)
    (digest_of : D -> string -> string) (l : launch) (saved : string) (f : Files) : Files :=
  let '(kept, f2) := enter sha loads as_dict digest_of l false "" f in
  if kept then f2 else mkFiles (Some saved) (sidecar f2) (pool_sidecar f2).

Lemma interrupted_retune_kept :
  let run_boot := boot ex_sha (fun s => Some s) (fun _ => Some tt) (fun _ _ => "d") in
  let f1 := (run_boot base false "" (Some "tuned by base") (mkFiles None None None)).2 in
  let f2 := die_before_sidecars ex_sha (fun s => Some s) (fun _ => Some tt) (fun _ _ => "d") other "tuned by other" f1 in
  key base <> key other /\ cache (run_boot base false "" None f2).2 = Some "tuned by other" /\ (run_boot base false "" None f2).1 = true.
Proof. split; [|by vm_compute]. intros H. apply (f_equal fst) in H. by vm_compute in H. Qed.
