(* ===== verification/RingMesh.v ===== *)
(** * The ring order of a switchless cabling (scripts/ring_mesh/plan.py)

    From the inventories of the four hosts to the document the fabric planner reads: the
    checks of the ports, the pairing of ports by subnet, the walk that numbers the ring, and
    the topology with each port's peer.  The scripts the planner's answer is turned into and
    the peer maps are not modelled. *)
From Stdlib Require Import Ascii.
From stdpp Require Import pretty.
From S2P Require Import Prelude PyStr.
#[local] Open Scope string_scope.
#[local] Open Scope list_scope.
#[local] Open Scope Z_scope.

(** ** Addresses

    [ipaddress.ip_interface] on an IPv4 address with a prefix length, a netmask or a
    hostmask, or none; the inventory asks for IPv4 addresses only, an IPv6 text raises here. *)
Record iface := mkIface { addr : Z; plen : Z }.
Definition network : Type := Z * Z.

Definition octet (s : string) : option Z :=
  if isdigit s && Nat.leb (String.length s) 3 && negb (startswith "0" s && negb (String.eqb s "0")) then
    match int_digits 0 false s with Some v => if v <=? 255 then Some v else None | None => None end
  else None.

Definition ipv4_address (s : string) : option Z :=
  match map octet (split_all "."%char s) with
  | [Some a; Some b; Some c; Some d] => Some (((a * 256 + b) * 256 + c) * 256 + d)
  | _ => None
  end.

Definition ALL_ONES : Z := 2 ^ 32 - 1.
Definition netmask (n : Z) : Z := Z.shiftl (Z.shiftr ALL_ONES (32 - n)) (32 - n).

Definition prefix_of (s : string) : option Z :=
  if isdigit s then
    match int_digits 0 false s with Some n => if n <=? 32 then Some n else None | None => None end
  else
    match ipv4_address s with
    | None => None
    | Some m =>
        match List.find (fun n => netmask n =? m) (zrange 0 33) with
        | Some n => Some n
        | None => List.find (fun n => netmask n =? Z.lxor m ALL_ONES) (zrange 0 33)
        end
    end.

Definition ip_interface (s : string) : res iface :=
  let '(a, n) := match split1 "/" s with Some (a, m) => (a, prefix_of m) | None => (s, Some 32) end in
  match ipv4_address a, n with
  | Some a, Some n => Ok (mkIface a n)
  | _, _ => Raise ValueError
  end.

Definition network_of (i : iface) : network := (Z.land (addr i) (netmask (plen i)), plen i).

Definition octets (a : Z) : list Z := [a / 256 ^ 3; a / 256 ^ 2 mod 256; a / 256 mod 256; a mod 256].

Definition ip_str (i : iface) : string := String.concat "." (map pretty (octets (addr i))).

(** ** The inventory *)
Record Port := mkPort {
  rdma : string; ipv4 : string; mac : string; mtu : Z; state : string; gid3 : string; gid3_netdev : string;
  tc_offload : string; flow_steering_mode : string }.

(** [invs[h]["ports"]]: the ports of a host, in the order of its JSON object. *)
Definition inventory : Type := string -> list (string * Port).

Fixpoint find_port (nd : string) (ports : list (string * Port)) : res Port :=
  match ports with
  | [] => Raise KeyError
  | (k, p) :: ports' => if String.eqb k nd then Ok p else find_port nd ports'
  end.

Definition hex_digit (n : Z) : string :=
  String (Ascii.ascii_of_nat (Z.to_nat (if n <? 10 then 48 + n else 87 + n))) "".
Definition hex2 (n : Z) : string := hex_digit (n / 16) +:+ hex_digit (n mod 16).

Definition _gid_tail (cidr : string) : res string :=
  if String.eqb cidr "" then Ok "-"
  else match ip_interface cidr with
       | Raise e => Raise e
       | Ok i => match map hex2 (octets (addr i)) with
                 | [a; b; c; d] => Ok (a +:+ b +:+ ":" +:+ c +:+ d)
                 | _ => Raise ValueError
                 end
       end.

Inductive problem := LinkDown | WrongMtu | WrongGid | NoOffload | WrongSteering.

Definition check_port (nd : string) (p : Port) : res (list (string * problem)) :=
  let when (c : bool) pr := if c then [(nd, pr)] else [] in
  match (if String.eqb (gid3_netdev p) nd
         then match _gid_tail (ipv4 p) with Ok t => Ok (negb (endswith t (gid3 p))) | Raise e => Raise e end
         else Ok true) with
  | Raise e => Raise e
  | Ok bad_gid =>
      Ok (when (negb (String.eqb (state p) "up") || String.eqb (ipv4 p) "") LinkDown ++
          when (negb (mtu p =? 9000)) WrongMtu ++ when bad_gid WrongGid ++
          when (negb (String.eqb (tc_offload p) "on")) NoOffload ++
          when (negb (String.eqb (flow_steering_mode p) "hmfs")) WrongSteering)
  end.

Definition check_host (ports : list (string * Port)) : res (list (string * problem)) :=
  match mapR (fun kp => check_port kp.1 kp.2) ports with Ok l => Ok (concat l) | Raise e => Raise e end.

(** ** Ports and directions *)
Inductive direction := clockwise | counter_clockwise.
Inductive func := F0 | F1.
Definition fz (f : func) : Z := match f with F0 => 0 | F1 => 1 end.

Definition PORTS (d : direction) (f : func) : string :=
  match d, f with
  | clockwise, F0 => "enp1s0f0np0"
  | clockwise, F1 => "enP2p1s0f0np0"
  | counter_clockwise, F0 => "enp1s0f1np1"
  | counter_clockwise, F1 => "enP2p1s0f1np1"
  end.
Definition FLIP (d : direction) : direction :=
  match d with clockwise => counter_clockwise | counter_clockwise => clockwise end.

Definition port (host : string) (d : direction) (f : func) (reversed_hosts : gset string) : string :=
  PORTS (if decide (host ∈ reversed_hosts) then FLIP d else d) f.

(** ** The ring order *)
(** A port of a host. *)
#[local] Notation End_ := (string * string)%type (only parsing).

(** [net.setdefault(n, []).append(e)] *)
Fixpoint setdefault_append (n : network) (e : End_) (net : list (network * list End_)) : list (network * list End_) :=
  match net with
  | [] => [(n, [e])]
  | (k, es) :: net' => if decide (k = n) then (k, es ++ [e]) :: net' else (k, es) :: setdefault_append n e net'
  end.

Definition all_ports (invs : inventory) (hosts : list string) : res (list (network * End_)) :=
  match mapR (fun h => mapR (fun kp : string * Port =>
          match ip_interface (ipv4 kp.2) with Ok i => Ok (network_of i, (h, kp.1)) | Raise e => Raise e end) (invs h)) hosts with
  | Ok l => Ok (concat l)
  | Raise e => Raise e
  end.

Definition group (all : list (network * End_)) : list (network * list End_) :=
  foldl (fun net x => setdefault_append x.1 x.2 net) [] all.

Fixpoint peers (net : list (network * list End_)) (peer : gmap End_ End_) : res (gmap End_ End_) :=
  match net with
  | [] => Ok peer
  | (_, [e1; e2]) :: net' => peers net' (<[e2 := e1]> (<[e1 := e2]> peer))
  | _ :: _ => Raise SystemExit
  end.

Section Ring.
Context (reversed_hosts : gset string) (peer : gmap End_ End_).

Definition reached (cur : string) (f : func) : res string :=
  match peer !! (cur, port cur clockwise f reversed_hosts) with
  | None => Raise SystemExit
  | Some (h, nd) => if String.eqb nd (port h counter_clockwise f reversed_hosts) then Ok h else Raise SystemExit
  end.

Definition next_host (cur : string) : res string :=
  match reached cur F0 with
  | Raise e => Raise e
  | Ok a => match reached cur F1 with
            | Raise e => Raise e
            | Ok b => if String.eqb a b then Ok a else Raise SystemExit
            end
  end.

(** The [while] loop; [None]: out of fuel. *)
Fixpoint walk (fuel : nat) (h0 : string) (order : list string) (cur : string) : option (res (list string)) :=
  match fuel with
  | O => None
  | S fuel' =>
      match next_host cur with
      | Raise e => Some (Raise e)
      | Ok nxt => if String.eqb nxt h0 then Some (Ok order) else walk fuel' h0 (order ++ [nxt]) nxt
      end
  end.
End Ring.

(** [sorted(order) != sorted(hosts)] compares the hosts as multisets. *)
Definition ring_order (fuel : nat) (invs : inventory) (hosts : list string) (reversed_hosts : gset string)
    : option (res (list string)) :=
  match all_ports invs hosts with
  | Raise e => Some (Raise e)
  | Ok all =>
      match peers (group all) ∅, hosts with
      | Raise e, _ => Some (Raise e)
      | Ok _, [] => Some (Raise IndexError)
      | Ok peer, h0 :: _ =>
          match walk reversed_hosts peer fuel h0 [h0] h0 with
          | Some (Ok order) =>
              if bool_decide (order ≡ₚ hosts) && Nat.eqb (length order) 4 then Some (Ok order)
              else Some (Raise SystemExit)
          | r => r
          end
      end
  end.

(** ** The topology document *)
Record entry := mkEntry {
  function : Z; netdev : string; rdma_device : string; ipv4_cidr : string; e_mac : string;
  peer_rank : Z; peer_direction : direction; peer_function : Z }.
Record rank := mkRank { r_rank : Z; ssh_alias : string; r_ports : direction -> list entry }.

Definition port_entry (invs : inventory) (reversed_hosts : gset string) (r : Z) (h : string) (d : direction) (f : func)
    : res entry :=
  let nd := port h d f reversed_hosts in
  match find_port nd (invs h) with
  | Raise e => Raise e
  | Ok p =>
      match ip_interface (ipv4 p) with
      | Raise e => Raise e
      | Ok i => Ok (mkEntry (fz f) nd (rdma p) (ip_str i +:+ "/32") (mac p)
                      ((r + match d with clockwise => 1 | counter_clockwise => -1 end) mod 4) (FLIP d) (fz f))
      end
  end.

Definition rank_of (invs : inventory) (reversed_hosts : gset string) (rh : Z * string) : res rank :=
  match mapR (port_entry invs reversed_hosts rh.1 rh.2 clockwise) [F0; F1] with
  | Raise e => Raise e
  | Ok cw =>
      match mapR (port_entry invs reversed_hosts rh.1 rh.2 counter_clockwise) [F0; F1] with
      | Raise e => Raise e
      | Ok ccw => Ok (mkRank rh.1 rh.2 (fun d => match d with clockwise => cw | counter_clockwise => ccw end))
      end
  end.

Definition topology (invs : inventory) (order : list string) (reversed_hosts : gset string) : res (list rank) :=
  mapR (rank_of invs reversed_hosts) (zip (zrange 0 (zlen order)) order).

(** What [main] does before it calls the fabric planner; the fuel is enough for any cabling. *)
Definition main_plan (invs : inventory) (hosts : list string) (reversed : list string) : res (list string * list rank) :=
  if negb (forallb (fun h => bool_decide (h ∈ hosts)) reversed) then Raise SystemExit
  else
    match mapR (fun h => check_host (invs h)) hosts with
    | Raise e => Raise e
    | Ok bad =>
        match concat bad with
        | _ :: _ => Raise SystemExit
        | [] =>
            match ring_order (S (length hosts)) invs hosts (list_to_set reversed) with
            | Some (Ok order) =>
                match topology invs order (list_to_set reversed) with
                | Ok ranks => Ok (order, ranks)
                | Raise e => Raise e
                end
            | Some (Raise e) => Raise e
            | None => Raise RuntimeError
            end
        end
    end.

(** ** The pairing by subnet

    Reference: the ends of a subnet are the ports listed with it, and a cable joins the two
    ends of a subnet that has exactly two. *)
Definition ends_of (n : network) (all : list (network * End_)) : list End_ :=
  map snd (filter (fun x : network * End_ => x.1 = n) all).

Definition cabled (all : list (network * End_)) (a b : End_) : Prop :=
  exists n, ends_of n all = [a; b] \/ ends_of n all = [b; a].

Definition one_dac (all : list (network * End_)) : Prop :=
  forall n e, (n, e) ∈ all -> length (ends_of n all) = 2%nat.

Definition one_network (all : list (network * End_)) : Prop :=
  forall n n' e, (n, e) ∈ all -> (n', e) ∈ all -> n = n'.

Lemma cabled_sym all a b : cabled all a b -> cabled all b a.
Proof. intros (n & H). exists n. tauto. Qed.

Lemma elem_ends_of n all e : e ∈ ends_of n all <-> (n, e) ∈ all.
Proof.
  unfold ends_of. rewrite list_elem_of_fmap. setoid_rewrite list_elem_of_filter. split.
  - intros ([n' e'] & -> & <- & H). exact H.
  - intros H. by exists (n, e).
Qed.

Lemma cabled_elem all a b : cabled all a b -> exists n, (n, a) ∈ all /\ (n, b) ∈ all.
Proof.
  intros (n & H). exists n. rewrite <- !elem_ends_of. destruct H as [-> | ->]; set_solver.
Qed.

Lemma ends_of_snoc n all k e : ends_of n (all ++ [(k, e)]) = if decide (k = n) then ends_of n all ++ [e] else ends_of n all.
Proof.
  unfold ends_of. rewrite filter_app, filter_cons, filter_nil. cbn [fst].
  destruct (decide (k = n)); [by rewrite map_app|by rewrite app_nil_r].
Qed.

(** What [setdefault_append] does to the value of a key. *)
Fixpoint value_of (n : network) (net : list (network * list End_)) : list End_ :=
  match net with [] => [] | (k, es) :: net' => if decide (k = n) then es else value_of n net' end.

Lemma value_of_append n k e net :
  value_of n (setdefault_append k e net) = if decide (k = n) then value_of n net ++ [e] else value_of n net.
Proof.
  induction net as [|[k' es] net IH]; cbn; [by repeat case_decide|].
  destruct (decide (k' = k)) as [->|Hk]; cbn; repeat case_decide; subst; try done.
Qed.

Lemma keys_append k e net k' : k' ∈ (setdefault_append k e net).*1 <-> k' = k \/ k' ∈ net.*1.
Proof.
  induction net as [|[q es] net IH]; cbn; [set_solver|]. destruct (decide (q = k)) as [->|Hq]; cbn; set_solver.
Qed.

Lemma keys_nodup_append k e net : NoDup net.*1 -> NoDup (setdefault_append k e net).*1.
Proof.
  induction net as [|[q es] net IH]; cbn; intros H; [by apply NoDup_singleton|].
  apply NoDup_cons in H as [Hq H]. destruct (decide (q = k)) as [->|Hne]; cbn; apply NoDup_cons; split; auto.
  rewrite keys_append. intros [->|?]; auto.
Qed.

Lemma group_spec all :
  NoDup (group all).*1 /\ (forall n, value_of n (group all) = ends_of n all) /\
  (forall n, n ∈ (group all).*1 <-> exists e, (n, e) ∈ all).
Proof.
  unfold group. induction all as [|[k e] all IH] using rev_ind.
  - split; [apply NoDup_nil_2|]. split; [done|]. intros n. cbn. set_solver.
  - destruct IH as (H1 & H2 & H3). rewrite foldl_snoc. cbn [fst snd]. split; [by apply keys_nodup_append|]. split.
    + intros n. by rewrite value_of_append, ends_of_snoc, H2.
    + intros n. rewrite keys_append, H3. set_solver.
Qed.

Lemma value_of_elem net n es : NoDup net.*1 -> (n, es) ∈ net <-> n ∈ net.*1 /\ value_of n net = es.
Proof.
  induction net as [|[k es'] net IH]; cbn; intros Hnd; [set_solver|]. apply NoDup_cons in Hnd as [Hk Hnd].
  rewrite !elem_of_cons, IH by done. destruct (decide (k = n)) as [->|Hne].
  - split; [intros [[= ->]|[? _]]; [auto|done]|]. intros [_ ->]. auto.
  - split; [intros [[= -> ->]|[? ?]]; [done|auto]|]. intros [[->|?] ?]; [done|auto].
Qed.

Lemma group_elem all n es : (n, es) ∈ group all <-> (exists e, (n, e) ∈ all) /\ es = ends_of n all.
Proof.
  destruct (group_spec all) as (H1 & H2 & H3). rewrite value_of_elem, H2, H3 by done.
  split; intros [? ->]; auto.
Qed.

(** The dict of peers over any list of subnets whose ends do not overlap. *)
Definition disjoint_ends (net : list (network * list End_)) : Prop :=
  forall n es n' es' e, (n, es) ∈ net -> (n', es') ∈ net -> e ∈ es -> e ∈ es' -> n = n'.

Definition joins (net : list (network * list End_)) (a b : End_) : Prop :=
  exists n es, (n, es) ∈ net /\ (es = [a; b] \/ es = [b; a]).

Lemma peers_spec net m : NoDup net.*1 -> disjoint_ends net ->
  match peers net m with
  | Ok m' => (forall n es, (n, es) ∈ net -> length es = 2%nat) /\
      forall a b, m' !! a = Some b <-> joins net a b \/ (m !! a = Some b /\ forall n es, (n, es) ∈ net -> a ∉ es)
  | Raise _ => exists n es, (n, es) ∈ net /\ length es <> 2%nat
  end.
Proof.
  revert m. induction net as [|[n es] net IH]; intros m Hnd Hd; cbn [peers].
  - split; [set_solver|]. intros a b. split; [|intros [(? & ? & ? & _)|[? _]]; [set_solver|done]]. intros H. right. split; [done|set_solver].
  - apply NoDup_cons in Hnd as [Hn Hnd].
    assert (Hd' : disjoint_ends net) by (intros ????? ? ?; apply Hd; by right).
    destruct es as [|e1 [|e2 [|e3 es]]]; [exists n, []; set_solver|exists n, [e1]; set_solver| |exists n, (e1 :: e2 :: e3 :: es); set_solver].
    specialize (IH (<[e2 := e1]> (<[e1 := e2]> m)) Hnd Hd').
    destruct (peers net _) as [m'|]; [|destruct IH as (n' & es' & ? & ?); exists n', es'; set_solver].
    destruct IH as [H1 H2]. split; [set_solver|]. intros a b. rewrite H2.
    assert (Hfresh : forall n' es', (n', es') ∈ net -> e1 ∉ es' /\ e2 ∉ es').
    { intros n' es' Hin.
      assert (Hgen : forall e, e ∈ [e1; e2] -> e ∉ es').
      { intros e He Hc. apply Hn. apply (list_elem_of_fmap_2 fst) in Hin as Hk.
        by rewrite (Hd n [e1; e2] n' es' e (list_elem_of_here _ _) (list_elem_of_further _ _ _ Hin) He Hc). }
      split; apply Hgen; set_solver. }
    assert (Hhere : (n, [e1; e2]) ∈ (n, [e1; e2]) :: net) by left. split.
    + intros [(n' & es' & Hin & He)|[Hm Hf]]; [left; exists n', es'; split; [by right|done]|].
      destruct (decide (a = e2)) as [->|Hne2].
      { rewrite lookup_insert_eq in Hm. injection Hm as <-. left. exists n, [e1; e2]. auto. }
      rewrite lookup_insert_ne in Hm by done. destruct (decide (a = e1)) as [->|Hne1].
      { rewrite lookup_insert_eq in Hm. injection Hm as <-. left. exists n, [e1; e2]. auto. }
      rewrite lookup_insert_ne in Hm by done. right. split; [done|].
      intros n' es' [[= -> ->]|Hin]%elem_of_cons; [|by apply (Hf n')].
      intros [->|[->|Hx]%elem_of_cons]%elem_of_cons; [done|done|by apply not_elem_of_nil in Hx].
    + intros [(n' & es' & [[= -> ->]|Hin]%elem_of_cons & He)|[Hm Hf]]; [right|left; by exists n', es'|right].
      * destruct He as [[= -> ->]|[= -> ->]]; (split; [|intros ?? Hin; by apply (Hfresh _ _ Hin)]); [|by rewrite lookup_insert_eq].
        destruct (decide (a = b)) as [->|]; [by rewrite lookup_insert_eq|]. by rewrite lookup_insert_ne, lookup_insert_eq.
      * split; [|intros n' es' Hin; apply (Hf n'); by right].
        specialize (Hf n _ Hhere). apply not_elem_of_cons in Hf as [H3 [H4 _]%not_elem_of_cons].
        by rewrite !lookup_insert_ne by done.
Qed.

(** The dict of peers is the cabling, when every subnet is one cable. *)
Lemma peers_group all :
  one_network all ->
  match peers (group all) ∅ with
  | Ok peer => one_dac all /\ forall a b, peer !! a = Some b <-> cabled all a b
  | Raise e => ~ one_dac all
  end.
Proof.
  intros Hone. destruct (group_spec all) as (Hnd & _ & _).
  assert (Hd : disjoint_ends (group all)).
  { intros n es n' es' e [_ ->]%group_elem [_ ->]%group_elem. rewrite !elem_ends_of. apply Hone. }
  pose proof (peers_spec (group all) ∅ Hnd Hd) as H. destruct (peers (group all) ∅) as [peer|e].
  - destruct H as [H1 H2]. split.
    + intros n e He. apply (H1 n). apply group_elem. eauto.
    + intros a b. rewrite H2. split.
      * intros [(n & es & [_ ->]%group_elem & He)|[? _]]; [by exists n|done].
      * intros (n & He). left. exists n, (ends_of n all). split; [|done]. apply group_elem. split; [|done].
        exists a. rewrite <- elem_ends_of. destruct He as [-> | ->]; set_solver.
  - destruct H as (n & es & [[e' He] ->]%group_elem & Hl). intros Hdac. by apply Hl, (Hdac n e').
Qed.

Lemma all_ports_elem invs hosts all n h nd :
  all_ports invs hosts = Ok all ->
  (n, (h, nd)) ∈ all <-> h ∈ hosts /\ exists p i, (nd, p) ∈ invs h /\ ip_interface (ipv4 p) = Ok i /\ n = network_of i.
Proof.
  unfold all_ports. destruct (mapR _ hosts) as [ls|] eqn:E; [|done]. intros [= <-].
  rewrite list_elem_of_In, in_concat. split.
  - intros (l & Hls & Hin). apply list_elem_of_In in Hls, Hin. apply (mapR_Ok_elem _ _ _ _ E) in Hls as (h' & Hh & Hl). apply (mapR_Ok_elem _ _ _ _ Hl) in Hin as ([nd' p] & Hp & Hi). cbn [snd fst] in Hi.
    destruct (ip_interface (ipv4 p)) as [i|] eqn:Ei; [|done]. injection Hi as <- -> ->. eauto 8.
  - intros (Hh & p & i & Hp & Hi & ->). apply list_elem_of_lookup in Hh as Hk. destruct Hk as [k Hk].
    destruct (mapR_Ok_lookup _ _ _ _ _ E Hk) as (l & Hl & Hf). exists l. rewrite <- !list_elem_of_In.
    split; [by apply list_elem_of_lookup_2 in Hl|]. apply (mapR_Ok_elem _ _ _ _ Hf). exists (nd, p). cbn. by rewrite Hi.
Qed.

Lemma find_port_elem ports nd p : NoDup ports.*1 -> (nd, p) ∈ ports -> find_port nd ports = Ok p.
Proof.
  induction ports as [|[k q] ports IH]; cbn; intros Hnd Hin; [by apply not_elem_of_nil in Hin|].
  apply NoDup_cons in Hnd as [Hk Hnd]. apply elem_of_cons in Hin as [[= -> ->]|Hin]; [by rewrite String.eqb_refl|].
  destruct (String.eqb_spec k nd) as [->|]; [|by apply IH]. exfalso. apply Hk. by apply (list_elem_of_fmap_2 fst) in Hin.
Qed.

(** ** The walk *)
Section Walk.
Context (reversed_hosts : gset string) (all : list (network * End_)) (peer : gmap End_ End_) (hosts : list string).
Context (Hpeer : forall a b, peer !! a = Some b <-> cabled all a b)
        (Hhosts : forall n h nd, (n, (h, nd)) ∈ all -> h ∈ hosts).

(** Every clockwise port of [x] is cabled to the counter-clockwise port of [y]. *)
Definition follows (x y : string) : Prop :=
  forall f, cabled all (x, port x clockwise f reversed_hosts) (y, port y counter_clockwise f reversed_hosts).

Lemma reached_ok x y f :
  reached reversed_hosts peer x f = Ok y <->
  cabled all (x, port x clockwise f reversed_hosts) (y, port y counter_clockwise f reversed_hosts).
Proof.
  rewrite <- Hpeer. unfold reached. destruct (peer !! _) as [[h nd]|]; [|done].
  destruct (String.eqb_spec nd (port h counter_clockwise f reversed_hosts)) as [->|Hne].
  - split; [by intros [= ->]|by intros [= -> _]].
  - split; [done|]. intros [= -> ->]. done.
Qed.

Lemma next_host_ok x y : next_host reversed_hosts peer x = Ok y <-> follows x y.
Proof.
  unfold next_host, follows. split.
  - destruct (reached _ _ x F0) as [a|] eqn:E0; [|done]. destruct (reached _ _ x F1) as [b|] eqn:E1; [|done].
    destruct (String.eqb_spec a b) as [->|]; [|done]. intros [= ->] []; by apply reached_ok.
  - intros H. rewrite (proj2 (reached_ok x y F0) (H F0)), (proj2 (reached_ok x y F1) (H F1)). by rewrite String.eqb_refl.
Qed.

Lemma cabled_unique a b c : cabled all a b -> cabled all a c -> b = c.
Proof. rewrite <- !Hpeer. congruence. Qed.

Lemma follows_inj x x' y : follows x y -> follows x' y -> x = x'.
Proof.
  intros H H'. pose proof (cabled_unique _ _ _ (cabled_sym _ _ _ (H F0)) (cabled_sym _ _ _ (H' F0))). congruence.
Qed.

Lemma follows_hosts x y : follows x y -> y ∈ hosts.
Proof. intros H. destruct (cabled_elem _ _ _ (H F0)) as (n & _ & Hy). by apply (Hhosts n _ _ Hy). Qed.

(** The hosts walked so far: a path from [h0] that visits no host twice. *)
Record path (h0 : string) (order : list string) (cur : string) : Prop := {
  path_head : order !! 0%nat = Some h0;
  path_last : last order = Some cur;
  path_nodup : NoDup order;
  path_in : order ⊆ hosts;
  path_follows i x y : order !! i = Some x -> order !! S i = Some y -> follows x y }.

Lemma path_start h0 : h0 ∈ hosts -> path h0 [h0] h0.
Proof.
  intros H. split; [done|done|apply NoDup_singleton|by intros ? ->%list_elem_of_singleton|].
  intros [|i] x y Hx Hy; done.
Qed.

Lemma path_step h0 order cur nxt : path h0 order cur -> follows cur nxt -> nxt <> h0 -> path h0 (order ++ [nxt]) nxt.
Proof.
  intros P Hf Hne. pose proof (path_last _ _ _ P) as Hl. rewrite last_lookup in Hl.
  assert (Hlen : (0 < length order)%nat) by (apply lookup_lt_Some in Hl; lia). split.
  - rewrite lookup_app_l by lia. apply P.
  - by rewrite last_snoc.
  - apply NoDup_app. split; [apply P|]. split; [|apply NoDup_singleton].
    intros z Hz ->%list_elem_of_singleton. apply list_elem_of_lookup in Hz as [[|i] Hi].
    + pose proof (path_head _ _ _ P). congruence.
    + destruct (lookup_lt_is_Some_2 order i) as [x Hx]; [apply lookup_lt_Some in Hi; lia|].
      pose proof (follows_inj _ _ _ (path_follows _ _ _ P i x nxt Hx Hi) Hf) as ->.
      pose proof (NoDup_lookup _ _ _ _ (path_nodup _ _ _ P) Hx Hl). apply lookup_lt_Some in Hi. lia.
  - intros z [Hz| ->%list_elem_of_singleton]%elem_of_app; [by apply P|by apply (follows_hosts cur)].
  - intros i x y Hx Hy. destruct (decide (S i < length order)%nat) as [Hi|Hi].
    + rewrite lookup_app_l in Hx, Hy by lia. by apply (path_follows _ _ _ P i).
    + assert (S i = length order) as Hi' by (apply lookup_lt_Some in Hy; rewrite length_app in Hy; cbn in Hy; lia).
      rewrite lookup_app_l in Hx by lia. rewrite lookup_app_r, Hi', Nat.sub_diag in Hy by lia. injection Hy as <-.
      rewrite <- Hi' in Hl. cbn in Hl. assert (x = cur) as -> by congruence. done.
Qed.

(** A closed path: the last host is followed by the first. *)
Definition ring (h0 : string) (order : list string) : Prop :=
  exists cur, path h0 order cur /\ follows cur h0.

Lemma walk_ends fuel h0 order cur :
  path h0 order cur -> (length hosts < fuel + length order)%nat ->
  exists r, walk reversed_hosts peer fuel h0 order cur = Some r /\ forall o, r = Ok o -> ring h0 o.
Proof.
  revert order cur. induction fuel as [|fuel IH]; intros order cur P Hlen; cbn [walk].
  - pose proof (submseteq_length _ _ (NoDup_submseteq _ _ (path_nodup _ _ _ P) (path_in _ _ _ P))). lia.
  - destruct (next_host reversed_hosts peer cur) as [nxt|e] eqn:En; [|by exists (Raise e)].
    apply next_host_ok in En. destruct (String.eqb_spec nxt h0) as [->|Hne].
    + exists (Ok order). split; [done|]. intros o [= <-]. by exists cur.
    + apply IH; [by apply (path_step h0 order cur)|]. rewrite length_app. cbn. lia.
Qed.

Lemma walk_follows_ring fuel h0 o k cur :
  ring h0 o -> o !! k = Some cur -> walk reversed_hosts peer fuel h0 (take (S k) o) cur <> None ->
  walk reversed_hosts peer fuel h0 (take (S k) o) cur = Some (Ok o).
Proof.
  intros (z & P & Hz). revert k cur. induction fuel as [|fuel IH]; intros k cur Hk; cbn [walk]; [done|].
  pose proof (path_last _ _ _ P) as Hl. rewrite last_lookup in Hl. pose proof (lookup_lt_Some _ _ _ Hk) as Hlt.
  destruct (decide (S k < length o)%nat) as [Hlong|Hend].
  - destruct (lookup_lt_is_Some_2 o (S k)) as [y Hy]; [done|].
    rewrite (proj2 (next_host_ok cur y) (path_follows _ _ _ P k cur y Hk Hy)).
    destruct (String.eqb_spec y h0) as [->|_].
    { pose proof (NoDup_lookup _ _ _ _ (path_nodup _ _ _ P) Hy (path_head _ _ _ P)). lia. }
    rewrite <- (take_S_r o (S k) y Hy). by apply IH.
  - intros _. assert (pred (length o) = k) as E by lia. rewrite E, Hk in Hl. injection Hl as ->.
    rewrite (proj2 (next_host_ok z h0) Hz), String.eqb_refl. by rewrite take_ge by lia.
Qed.
End Walk.

(** ** The topology of a ring *)
Definition port_of (ranks : list rank) (r : Z) (d : direction) (f : func) (h : string) (e : entry) : Prop :=
  exists k, ranks !! Z.to_nat r = Some k /\ r_rank k = r /\ ssh_alias k = h /\ r_ports k d !! Z.to_nat (fz f) = Some e.

(** What the document says of a port: its names, and the port at the other end of its cable. *)
Definition document_ok (all : list (network * End_)) (reversed_hosts : gset string) (order : list string) (ranks : list rank)
    : Prop :=
  length ranks = 4%nat /\
  forall r h d f, 0 <= r -> order !! Z.to_nat r = Some h ->
    exists e h' e', port_of ranks r d f h e /\ netdev e = port h d f reversed_hosts /\ function e = fz f /\
      port_of ranks (peer_rank e) (peer_direction e) f h' e' /\ peer_function e = fz f /\
      peer_rank e' = r /\ peer_direction e' = d /\ cabled all (h, netdev e) (h', netdev e').

Section Topology.
Context (invs : inventory) (hosts : list string) (reversed_hosts : gset string) (all : list (network * End_)).
Context (Hall : all_ports invs hosts = Ok all) (Hkeys : forall h, h ∈ hosts -> NoDup (invs h).*1).

Lemma one_network_all : one_network all.
Proof.
  intros n n' [h nd] H H'. apply (all_ports_elem _ _ _ _ _ _ Hall) in H as (Hh & p & i & Hp & Hi & ->).
  apply (all_ports_elem _ _ _ _ _ _ Hall) in H' as (_ & p' & i' & Hp' & Hi' & ->).
  pose proof (find_port_elem _ _ _ (Hkeys h Hh) Hp). pose proof (find_port_elem _ _ _ (Hkeys h Hh) Hp'). congruence.
Qed.

Lemma port_entry_ok r h d f n :
  (n, (h, port h d f reversed_hosts)) ∈ all ->
  exists e, port_entry invs reversed_hosts r h d f = Ok e /\ netdev e = port h d f reversed_hosts /\ function e = fz f /\
    peer_rank e = (r + match d with clockwise => 1 | counter_clockwise => -1 end) mod 4 /\
    peer_direction e = FLIP d /\ peer_function e = fz f.
Proof.
  intros H. apply (all_ports_elem _ _ _ _ _ _ Hall) in H as (Hh & p & i & Hp & Hi & ->).
  unfold port_entry. rewrite (find_port_elem _ _ _ (Hkeys h Hh) Hp), Hi. eexists. split; [done|]. done.
Qed.

(** A rank of the document, when each of its ports is in the inventory. *)
Lemma rank_of_ok r h :
  (forall d f, exists n, (n, (h, port h d f reversed_hosts)) ∈ all) ->
  exists k, rank_of invs reversed_hosts (r, h) = Ok k /\ r_rank k = r /\ ssh_alias k = h /\
    forall d f, exists e, r_ports k d !! Z.to_nat (fz f) = Some e /\ port_entry invs reversed_hosts r h d f = Ok e.
Proof.
  intros H. unfold rank_of. cbn [fst snd].
  assert (Hd : forall d, exists l, mapR (port_entry invs reversed_hosts r h d) [F0; F1] = Ok l).
  { intros d. apply mapR_total. intros f _. destruct (H d f) as [n Hn]. destruct (port_entry_ok r h d f n Hn) as (e & He & _). eauto. }
  destruct (Hd clockwise) as [cw Hcw], (Hd counter_clockwise) as [ccw Hccw]. rewrite Hcw, Hccw. eexists. split; [done|].
  split; [done|]. split; [done|]. cbn [r_ports]. intros [] []; eapply mapR_Ok_lookup; try eassumption; done.
Qed.

Lemma ring_successor h0 order (r : Z) h :
  ring reversed_hosts all hosts h0 order -> length order = 4%nat -> 0 <= r -> order !! Z.to_nat r = Some h ->
  exists h', order !! Z.to_nat ((r + 1) mod 4) = Some h' /\ follows reversed_hosts all h h'.
Proof.
  intros (z & P & Hz) Hlen Hr Hh. pose proof (lookup_lt_Some _ _ _ Hh) as Hlt.
  assert (r < 4) by lia. destruct (decide (r = 3)) as [->|Hne].
  - exists h0. split; [apply P|]. pose proof (path_last _ _ _ _ _ _ P) as Hl. rewrite last_lookup, Hlen in Hl.
    change (Z.to_nat 3) with 3%nat in Hh. cbn [pred] in Hl. assert (h = z) as -> by congruence. done.
  - rewrite Z.mod_small by lia. destruct (lookup_lt_is_Some_2 order (Z.to_nat (r + 1))) as [h' Hh']; [lia|]. exists h'. split; [done|].
    apply (path_follows _ _ _ _ _ _ P (Z.to_nat r)); [done|]. by replace (S (Z.to_nat r)) with (Z.to_nat (r + 1)) by lia.
Qed.

Lemma ring_predecessor h0 order (r : Z) h :
  ring reversed_hosts all hosts h0 order -> length order = 4%nat -> 0 <= r -> order !! Z.to_nat r = Some h ->
  exists h', order !! Z.to_nat ((r + -1) mod 4) = Some h' /\ follows reversed_hosts all h' h.
Proof.
  intros R Hlen Hr Hh. pose proof (lookup_lt_Some _ _ _ Hh) as Hlt. pose proof (Z.mod_pos_bound (r + -1) 4 ltac:(lia)).
  destruct (lookup_lt_is_Some_2 order (Z.to_nat ((r + -1) mod 4))) as [h' Hh']; [lia|]. exists h'. split; [done|].
  destruct (ring_successor h0 order _ _ R Hlen (proj1 H) Hh') as (h'' & Hh'' & F).
  replace (((r + -1) mod 4 + 1) mod 4) with r in Hh''; [assert (h'' = h) as -> by congruence; done|].
  assert (r = 0 \/ r = 1 \/ r = 2 \/ r = 3) as [->|[->|[->| ->]]] by lia; done.
Qed.

Lemma ring_port h0 order (r : Z) h d f :
  ring reversed_hosts all hosts h0 order -> length order = 4%nat -> 0 <= r -> order !! Z.to_nat r = Some h ->
  exists h', order !! Z.to_nat ((r + match d with clockwise => 1 | counter_clockwise => -1 end) mod 4) = Some h' /\
    cabled all (h, port h d f reversed_hosts) (h', port h' (FLIP d) f reversed_hosts).
Proof.
  intros R Hlen Hr Hh. destruct d.
  - destruct (ring_successor h0 order r h R Hlen Hr Hh) as (h' & Hh' & F). exists h'. split; [done|]. apply F.
  - destruct (ring_predecessor h0 order r h R Hlen Hr Hh) as (h' & Hh' & F). exists h'. split; [done|]. apply cabled_sym, F.
Qed.

Lemma topology_ok h0 order :
  ring reversed_hosts all hosts h0 order -> length order = 4%nat ->
  exists ranks, topology invs order reversed_hosts = Ok ranks /\ document_ok all reversed_hosts order ranks.
Proof.
  intros R Hlen. unfold topology.
  assert (Hrank : forall k r h, zip (zrange 0 (zlen order)) order !! k = Some (r, h) -> r = Z.of_nat k /\ order !! k = Some h).
  { intros k r h H. apply lookup_zip_Some in H as [H1 H2]. unfold zrange in H1. apply lookup_seqZ in H1 as [-> _]. auto. }
  assert (Hport : forall k h d f, order !! k = Some h -> exists n, (n, (h, port h d f reversed_hosts)) ∈ all).
  { intros k h d f Hk. destruct (ring_port h0 order (Z.of_nat k) h d f R Hlen) as (h' & _ & Hc); [lia|by rewrite Nat2Z.id|].
    destruct (cabled_elem _ _ _ Hc) as (n & Hn & _). by exists n. }
  destruct (mapR_total (rank_of invs reversed_hosts) (zip (zrange 0 (zlen order)) order)) as [ranks Hranks].
  { intros [r h] Hin. apply list_elem_of_lookup in Hin as [k Hk]. destruct (Hrank k r h Hk) as [-> Ho].
    destruct (rank_of_ok (Z.of_nat k) h (fun d f => Hport k h d f Ho)) as (x & Hx & _). by exists x. }
  exists ranks. split; [done|].
  assert (Hof : forall r h d f, 0 <= r -> order !! Z.to_nat r = Some h ->
            exists e, port_of ranks r d f h e /\ netdev e = port h d f reversed_hosts /\ function e = fz f /\
              peer_rank e = (r + match d with clockwise => 1 | counter_clockwise => -1 end) mod 4 /\
              peer_direction e = FLIP d /\ peer_function e = fz f).
  { intros r h d f Hr Hh. assert (Hz : zip (zrange 0 (zlen order)) order !! Z.to_nat r = Some (r, h)).
    { apply lookup_zip_Some. split; [|done]. unfold zrange. apply lookup_seqZ. apply lookup_lt_Some in Hh. unfold zlen. lia. }
    destruct (mapR_Ok_lookup _ _ _ _ _ Hranks Hz) as (k & Hk & Hf).
    destruct (rank_of_ok r h (fun d f => Hport _ h d f Hh)) as (k' & Hk' & H1 & H2 & H3). assert (k' = k) as -> by congruence.
    destruct (H3 d f) as (e & He & Hpe). destruct (Hport _ h d f Hh) as [n Hn].
    destruct (port_entry_ok r h d f n Hn) as (e' & He' & Hrest). assert (e' = e) as -> by congruence. exists e. split; [by exists k|done]. }
  split.
  - rewrite (mapR_Ok_length _ _ _ Hranks), length_zip_with, Hlen. unfold zlen. by rewrite Hlen.
  - intros r h d f Hr Hh. destruct (Hof r h d f Hr Hh) as (e & He & E1 & E2 & E3 & E4 & E5).
    destruct (ring_port h0 order r h d f R Hlen Hr Hh) as (h' & Hh' & Hc).
    destruct (Hof (peer_rank e) h' (peer_direction e) f) as (e' & He' & E1' & E2' & E3' & E4' & E5');
      [rewrite E3; apply Z.mod_pos_bound; lia|by rewrite E3|].
    exists e, h', e'. pose proof (lookup_lt_Some _ _ _ Hh). split_and!; try done; try (by rewrite E1, E1', E4).
    + rewrite E3', E4, E3. assert (r = 0 \/ r = 1 \/ r = 2 \/ r = 3) as [->|[->|[->| ->]]] by lia; by destruct d.
    + rewrite E4', E4. by destruct d.
Qed.
End Topology.

(** A ring by its successors: the cyclic order of four hosts. *)
Lemma ring_cyclic (reversed_hosts : gset string) (all : list (network * End_)) (hosts : list string) (h0 : string) (order : list string) :
  order !! 0%nat = Some h0 -> length order = 4%nat ->
  order ⊆ hosts ->
  ring reversed_hosts all hosts h0 order <->
  NoDup order /\
  forall i x y, order !! i = Some x -> order !! (S i mod 4)%nat = Some y -> follows reversed_hosts all x y.
Proof.
  intros Hhead Hlen Hin. split.
  - intros (z & P & Hz). split; [apply P|]. intros i x y Hx Hy. pose proof (lookup_lt_Some _ _ _ Hx).
    destruct (decide (i = 3%nat)) as [->|Hne].
    + pose proof (path_last _ _ _ _ _ _ P) as Hl. rewrite last_lookup, Hlen in Hl. cbn [pred] in Hl.
      change (4 mod 4)%nat with 0%nat in Hy. assert (x = z) as -> by congruence. assert (y = h0) as -> by congruence. done.
    + rewrite Nat.mod_small in Hy by lia. by apply (path_follows _ _ _ _ _ _ P i).
  - intros [Hnd Hf]. destruct (lookup_lt_is_Some_2 order 3) as [z Hz]; [lia|]. exists z. split.
    + split; [done|by rewrite last_lookup, Hlen|done|done|]. intros i x y Hx Hy. pose proof (lookup_lt_Some _ _ _ Hy).
      apply (Hf i); [done|]. by rewrite Nat.mod_small by lia.
    + by apply (Hf 3%nat).
Qed.

(** What the loop and the last check return, for the dict of peers of a cabling. *)
Lemma ring_order_ring (invs : inventory) (h0 : string) (hs : list string) (reversed_hosts : gset string) (all : list (network * End_)) (peer : gmap End_ End_) :
  all_ports invs (h0 :: hs) = Ok all -> peers (group all) ∅ = Ok peer ->
  (forall a b, peer !! a = Some b <-> cabled all a b) ->
  exists result, ring_order (S (length (h0 :: hs))) invs (h0 :: hs) reversed_hosts = Some result /\
    forall order, result = Ok order <-> ring reversed_hosts all (h0 :: hs) h0 order /\ order ≡ₚ h0 :: hs /\ length order = 4%nat.
Proof.
  intros Hall Hp Hpeer.
  assert (Hhosts : forall n h nd, (n, (h, nd)) ∈ all -> h ∈ h0 :: hs).
  { intros n h nd H. by apply (all_ports_elem _ _ _ _ _ _ Hall) in H as [? _]. }
  assert (Hstart : path reversed_hosts all (h0 :: hs) h0 [h0] h0) by (apply path_start; left).
  destruct (walk_ends reversed_hosts all peer (h0 :: hs) Hpeer Hhosts (S (length (h0 :: hs))) h0 [h0] h0 Hstart) as (r & Hr & Hring);
    [cbn; lia|].
  unfold ring_order. rewrite Hall, Hp. rewrite Hr.
  assert (Hunique : forall order, ring reversed_hosts all (h0 :: hs) h0 order -> r = Ok order).
  { intros order R. destruct R as (z & P & Hz). pose proof (path_head _ _ _ _ _ _ P) as Hh.
    pose proof (walk_follows_ring reversed_hosts all peer (h0 :: hs) Hpeer (S (length (h0 :: hs))) h0 order 0 h0
      (ex_intro _ z (conj P Hz)) Hh) as W.
    rewrite (take_S_r order 0 h0 Hh), take_0 in W. cbn [app] in W. rewrite Hr in W. assert (Some r = Some (Ok order)) by (apply W; done). congruence. }
  destruct r as [o|e].
  - destruct (bool_decide (o ≡ₚ h0 :: hs) && Nat.eqb (length o) 4) eqn:E; eexists; (split; [done|]); intros order.
    + apply andb_true_iff in E as [E1%bool_decide_eq_true E2%Nat.eqb_eq]. split.
      * intros [= <-]. auto.
      * intros (R & _). by apply Hunique.
    + split; [done|]. intros (R & Hperm & Hlen). apply Hunique in R as [= ->].
      rewrite bool_decide_true, Hlen in E by done. done.
  - eexists. split; [done|]. intros order. split; [done|]. intros (R & _). by apply Hunique.
Qed.

(** ** Properties *)

(** C30: for any cabling of any hosts, with any of them declared reversed, the walk around the
    ring ends within one step per host. It returns an order exactly when every fabric subnet
    is one cable and the order is a ring of the four hosts from the first one on, in which
    both clockwise ports of each host reach the counter-clockwise ports of the next; there is
    then no other such order. Of a returned order the topology names, for every port, the
    port at the other end of its cable, and that port's entry names it back. *)
Theorem ring_order_exact (invs : inventory) (hosts : list string) (reversed_hosts : gset string) all :
  all_ports invs hosts = Ok all -> (forall h, h ∈ hosts -> NoDup (invs h).*1) ->
  exists result, ring_order (S (length hosts)) invs hosts reversed_hosts = Some result /\
    (forall order, result = Ok order <->
      one_dac all /\ NoDup order /\ order ≡ₚ hosts /\ length order = 4%nat /\ order !! 0%nat = hosts !! 0%nat /\
      (forall i x y, order !! i = Some x -> order !! (S i mod 4)%nat = Some y -> follows reversed_hosts all x y)) /\
    (forall order, result = Ok order ->
      exists ranks, topology invs order reversed_hosts = Ok ranks /\ document_ok all reversed_hosts order ranks).
Proof.
  intros Hall Hkeys. pose proof (peers_group all (one_network_all invs hosts all Hall Hkeys)) as Hp.
  destruct (peers (group all) ∅) as [peer|e] eqn:E.
  - destruct Hp as [Hdac Hpeer]. destruct hosts as [|h0 hs].
    { exists (Raise IndexError). unfold ring_order. rewrite Hall, E. split; [done|]. split; [|done].
      intros order. split; [done|]. intros (_ & _ & ->%Permutation_nil_r & ? & _). done. }
    destruct (ring_order_ring invs h0 hs reversed_hosts all peer Hall E Hpeer) as (result & Hr & Hring).
    exists result. split; [done|]. split.
    + intros order. rewrite Hring. split.
      * intros (R & Hperm & Hlen). assert (Hh : order !! 0%nat = Some h0) by (destruct R as (? & P & _); apply P).
        apply (ring_cyclic reversed_hosts all (h0 :: hs) h0 order Hh Hlen) in R as [? ?]; [|by rewrite Hperm]. done.
      * intros (_ & Hnd & Hperm & Hlen & Hh & Hf). split; [|done].
        apply (ring_cyclic reversed_hosts all (h0 :: hs) h0 order Hh Hlen); [by rewrite Hperm|done].
    + intros order (R & _ & Hlen)%Hring. by apply (topology_ok invs (h0 :: hs) reversed_hosts all Hall Hkeys h0).
  - exists (Raise e). unfold ring_order. rewrite Hall, E. split; [done|]. split; [|done].
    intros order. split; [done|]. by intros (? & _).
Qed.

(** ** A cabling: the port f0 of every host reaches the f1 of the host before it *)
Module Instances.
Definition HOSTS : list string := ["s1"; "s2"; "s3"; "s4"].
Definition ex_port (nd rd ip gid : string) : string * Port :=
  (nd, mkPort rd ip "4c:bb:47:00:00:01" 9000 "up" gid nd "on" "hmfs").
Definition ex_host (cw ccw : string) (gcw gccw : string) : list (string * Port) :=
  [ex_port "enp1s0f0np0" "rocep1s0f0" ("10.10." +:+ cw +:+ "/24") ("0000:0000:0000:0000:0000:ffff:0a0a:" +:+ gcw);
   ex_port "enp1s0f1np1" "rocep1s0f1" ("10.10." +:+ ccw +:+ "/24") ("0000:0000:0000:0000:0000:ffff:0a0a:" +:+ gccw);
   ex_port "enP2p1s0f0np0" "roceP2p1s0f0" ("10.20." +:+ cw +:+ "/24") ("0000:0000:0000:0000:0000:ffff:0a14:" +:+ gcw);
   ex_port "enP2p1s0f1np1" "roceP2p1s0f1" ("10.20." +:+ ccw +:+ "/24") ("0000:0000:0000:0000:0000:ffff:0a14:" +:+ gccw)].
Definition ex_invs : inventory := fun h =>
  if String.eqb h "s1" then ex_host "3.11" "0.10" "030b" "000a"
  else if String.eqb h "s2" then ex_host "0.11" "1.10" "000b" "010a"
  else if String.eqb h "s3" then ex_host "1.11" "2.10" "010b" "020a"
  else ex_host "2.11" "3.10" "020b" "030a".

(** The second host with its two plugs swapped. *)
Definition ex_swapped : inventory := fun h =>
  if String.eqb h "s2" then ex_host "1.10" "0.11" "010a" "000b" else ex_invs h.
End Instances.
Import Instances.

Example plan_checks_and_orders :
  match main_plan ex_invs HOSTS [] with Ok (order, ranks) => (order, map ssh_alias ranks) | Raise _ => ([], []) end
  = (["s1"; "s4"; "s3"; "s2"], ["s1"; "s4"; "s3"; "s2"]).
Proof. vm_compute. reflexivity. Qed.

Example swapped_needs_reversed :
  ring_order 5 ex_swapped HOSTS ∅ = Some (Raise SystemExit) /\
  ring_order 5 ex_swapped HOSTS {["s2"]} = Some (Ok ["s1"; "s4"; "s3"; "s2"]).
Proof. split; vm_compute; reflexivity. Qed.

Example interfaces :
  ip_interface "10.20.3.11/24" = Ok (mkIface 169083659 24) /\ ip_interface "10.20.3.11/255.255.255.0" = Ok (mkIface 169083659 24) /\
  ip_interface "10.20.3.11" = Ok (mkIface 169083659 32) /\ ip_interface "10.20.03.11/24" = Raise ValueError /\
  ip_interface "10.20.3.256/24" = Raise ValueError /\ ip_str (mkIface 169083659 24) = "10.20.3.11".
Proof. vm_compute. auto 10. Qed.

Lemma ring_order_exact_witness :
  exists all order ranks, all_ports ex_invs HOSTS = Ok all /\ order = ["s1"; "s4"; "s3"; "s2"] /\
    topology ex_invs order ∅ = Ok ranks /\ document_ok all ∅ order ranks.
Proof.
  destruct (all_ports ex_invs HOSTS) as [all|] eqn:E; [|exfalso; vm_compute in E; congruence].
  destruct (ring_order_exact ex_invs HOSTS ∅ all E) as (result & Hr & _ & Htop).
  { intros h H. apply (bool_decide_unpack _). repeat (apply elem_of_cons in H as [->|H]; [vm_compute; exact I|]). by apply not_elem_of_nil in H. }
  assert (Ho : result = Ok ["s1"; "s4"; "s3"; "s2"]).
  { vm_compute in Hr. congruence. }
  destruct (Htop _ Ho) as (ranks & H1 & H2). exists all, ["s1"; "s4"; "s3"; "s2"], ranks.
  split; [reflexivity|]. split; [reflexivity|]. split; [exact H1|exact H2].
Defined.
