(* ===== verification/FpBits.v ===== *)
(** * Floating-point formats as bit patterns

    A finite non-negative value of a binary format with [mb] mantissa bits is its pattern,
    read as an integer in units of the format's least positive value; rounding to nearest,
    ties to the even pattern, is one definition for fp32, bfloat16 and e4m3, and it is
    proved to be the nearest value whatever the format. *)
From S2P Require Import Prelude.
#[local] Open Scope Z_scope.

(** The nearest integer to [n / d], ties to even. *)
Definition rne (n d : Z) : Z :=
  let q := n / d in
  let r := n mod d in
  if (d <? 2 * r) || ((2 * r =? d) && Z.odd q) then q + 1 else q.

Section Format.
Context (mb : Z).

(** A pattern's value: exponent field zero is subnormal. *)
Definition decode (c : Z) : Z :=
  if c <? 2 ^ mb then c else (2 ^ mb + c mod 2 ^ mb) * 2 ^ (c / 2 ^ mb - 1).

(** The binade of [n / d], and the pattern of its value rounded in that binade. *)
Definition binade (n d : Z) : Z := Z.max 0 (Z.log2 (n / d) - mb).
Definition round_to (n d : Z) : Z := binade n d * 2 ^ mb + rne n (d * 2 ^ binade n d).

(** What rounding means: no pattern is nearer, and of two equally near ones it is the even. *)
Definition nearest_even (n d c : Z) : Prop :=
  0 <= c /\
  (forall c', 0 <= c' -> Z.abs (n - decode c * d) <= Z.abs (n - decode c' * d)) /\
  (forall c', 0 <= c' -> c' <> c -> Z.abs (n - decode c * d) = Z.abs (n - decode c' * d) -> Z.even c = true).
End Format.

(** ** Rounding to an integer *)
Lemma rne_bounds n d : 0 < d -> n / d <= rne n d <= n / d + 1.
Proof. intros Hd. unfold rne. case_match; lia. Qed.

Lemma rne_multiple n d : 0 < d -> rne (n * d) d = n.
Proof.
  intros Hd. unfold rne. rewrite Z.div_mul, Z.mod_mul by lia.
  destruct (d <? 2 * 0) eqn:E1; [lia|]. destruct (2 * 0 =? d) eqn:E2; [lia|done].
Qed.

Lemma rne_scale n d k : 0 < d -> 0 < k -> rne (n * k) (d * k) = rne n d.
Proof.
  intros Hd Hk. unfold rne. rewrite Z.div_mul_cancel_r, Z.mul_mod_distr_r by lia.
  pose proof (Z.mod_pos_bound n d Hd).
  replace (d * k <? 2 * (n mod d * k)) with (d <? 2 * (n mod d)) by (apply eq_true_iff_eq; rewrite !Z.ltb_lt; nia).
  replace (2 * (n mod d * k) =? d * k) with (2 * (n mod d) =? d) by (apply eq_true_iff_eq; rewrite !Z.eqb_eq; nia).
  done.
Qed.

(** The carry form of the same rounding, on a power of two. *)
Lemma rne_carry x k : 0 < k -> (x + (2 ^ (k - 1) - 1) + (x / 2 ^ k) mod 2) / 2 ^ k = rne x (2 ^ k).
Proof.
  intros Hk. unfold rne. replace (2 ^ k) with (2 * 2 ^ (k - 1)) by (rewrite <- Z.pow_succ_r by lia; f_equal; lia).
  set (h := 2 ^ (k - 1)). assert (0 < h) by (apply Z.pow_pos_nonneg; lia).
  pose proof (Z.div_mod x (2 * h) ltac:(lia)) as E. pose proof (Z.mod_pos_bound x (2 * h) ltac:(lia)) as B.
  set (q := x / (2 * h)) in *. set (r := x mod (2 * h)) in *. clearbody q r.
  pose proof (Zmod_odd q) as Ho. destruct (Z.odd q) eqn:Eo; rewrite Ho; cbn [orb andb].
  - destruct ((2 * h <? 2 * r) || ((2 * r =? 2 * h) && true)) eqn:C; symmetry; apply Z.div_unique_pos with (r := if (2 * h <? 2 * r) || ((2 * r =? 2 * h) && true) then r - h else r + h); rewrite C.
    + lia.
    + lia.
    + lia.
    + lia.
  - rewrite andb_false_r, orb_false_r. destruct (2 * h <? 2 * r) eqn:C; symmetry.
    + apply Z.div_unique_pos with (r := r - h - 1); lia.
    + apply Z.div_unique_pos with (r := r + h - 1); lia.
Qed.

(** ** Patterns and values *)
Section Facts.
Context (mb : Z) (Hmb : 0 <= mb).

Lemma pow_mb : 0 < 2 ^ mb.
Proof. apply Z.pow_pos_nonneg; lia. Qed.

Lemma decode_shift s m : 0 <= s -> 0 <= m <= 2 * 2 ^ mb -> 2 ^ mb <= m \/ s = 0 -> decode mb (s * 2 ^ mb + m) = m * 2 ^ s.
Proof.
  intros Hs Hm Hor. pose proof pow_mb. unfold decode.
  destruct (decide (m < 2 ^ mb)) as [Hlt|Hge].
  - destruct Hor as [?| ->]; [lia|]. destruct (_ <? _) eqn:E; lia.
  - destruct (_ <? _) eqn:E; [nia|]. destruct (decide (m = 2 * 2 ^ mb)) as [->|Hne].
    + replace (s * 2 ^ mb + 2 * 2 ^ mb) with ((s + 2) * 2 ^ mb) by lia.
      rewrite Z.div_mul, Z.mod_mul by lia. replace (s + 2 - 1) with (Z.succ s) by lia. rewrite Z.pow_succ_r by lia. lia.
    + replace (s * 2 ^ mb + m) with ((m - 2 ^ mb) + (s + 1) * 2 ^ mb) by lia.
      rewrite Z.div_add, Z.mod_add, Z.div_small, Z.mod_small by lia. f_equal; [lia|f_equal; lia].
Qed.

Lemma decode_nonneg c : 0 <= c -> 0 <= decode mb c.
Proof.
  intros Hc. pose proof pow_mb. unfold decode. case_match; [done|].
  pose proof (Z.mod_pos_bound c (2 ^ mb) ltac:(lia)). pose proof (Z.pow_nonneg 2 (c / 2 ^ mb - 1)). nia.
Qed.

Lemma decode_succ c : 0 <= c -> decode mb c < decode mb (c + 1).
Proof.
  intros Hc. pose proof pow_mb as Hp.
  destruct (decide (c < 2 ^ mb)) as [Hlt|Hge].
  - pose proof (decode_shift 0 c ltac:(lia) ltac:(lia) ltac:(lia)) as E1.
    pose proof (decode_shift 0 (c + 1) ltac:(lia) ltac:(lia) ltac:(lia)) as E2.
    change (2 ^ 0) with 1 in *. replace (0 * 2 ^ mb + c) with c in E1 by lia.
    replace (0 * 2 ^ mb + (c + 1)) with (c + 1) in E2 by lia. lia.
  - pose proof (Z.div_mod c (2 ^ mb) ltac:(lia)) as E. pose proof (Z.mod_pos_bound c (2 ^ mb) ltac:(lia)) as B.
    assert (1 <= c / 2 ^ mb) by (apply Z.div_le_lower_bound; lia).
    set (s := c / 2 ^ mb - 1). set (m := 2 ^ mb + c mod 2 ^ mb).
    pose proof (decode_shift s m ltac:(lia) ltac:(lia) ltac:(lia)) as E1.
    pose proof (decode_shift s (m + 1) ltac:(lia) ltac:(lia) ltac:(lia)) as E2.
    replace (s * 2 ^ mb + m) with c in E1 by lia. replace (s * 2 ^ mb + (m + 1)) with (c + 1) in E2 by lia.
    pose proof (Z.pow_pos_nonneg 2 s ltac:(lia) ltac:(lia)). nia.
Qed.

Lemma decode_lt c c' : 0 <= c < c' -> decode mb c < decode mb c'.
Proof.
  intros [Hc Hlt]. replace c' with (c + Z.of_nat (S (Z.to_nat (c' - c - 1)))) by lia.
  induction (Z.to_nat (c' - c - 1)) as [|k IH].
  - by apply decode_succ.
  - etransitivity; [exact IH|]. replace (c + Z.of_nat (S (S k))) with (c + Z.of_nat (S k) + 1) by lia. apply decode_succ. lia.
Qed.

Lemma decode_le c c' : 0 <= c <= c' -> decode mb c <= decode mb c'.
Proof. intros H. destruct (decide (c = c')) as [->|]; [lia|]. pose proof (decode_lt c c'). lia. Qed.

Lemma decode_inj c c' : 0 <= c -> 0 <= c' -> decode mb c = decode mb c' -> c = c'.
Proof. intros. destruct (Z.lt_total c c') as [H'|[?|H']]; [|done|]; [pose proof (decode_lt c c')|pose proof (decode_lt c' c)]; lia. Qed.

Lemma binade_nonneg n d : 0 <= binade mb n d.
Proof. unfold binade. lia. Qed.

(** The quotient in its binade has [mb + 1] bits. *)
Lemma binade_quotient n d : 0 <= n -> 0 < d ->
  0 <= n / (d * 2 ^ binade mb n d) < 2 * 2 ^ mb /\ (2 ^ mb <= n / (d * 2 ^ binade mb n d) \/ binade mb n d = 0).
Proof.
  intros Hn Hd. pose proof (binade_nonneg n d) as Hs. set (s := binade mb n d) in *.
  pose proof (Z.pow_pos_nonneg 2 s ltac:(lia) ltac:(lia)) as Hp2. rewrite <- Z.div_div by lia.
  assert (0 <= n / d) by (apply Z.div_pos; lia). set (q := n / d) in *.
  assert (Hlog : q < 2 ^ (s + mb + 1)).
  { destruct (decide (q = 0)) as [->|]; [apply Z.pow_pos_nonneg; lia|]. apply Z.log2_lt_pow2; [lia|]. unfold s, binade. fold q. lia. }
  rewrite !Z.pow_add_r in Hlog by lia. split.
  - split; [apply Z.div_pos; lia|]. apply Z.div_lt_upper_bound; [done|]. lia.
  - destruct (decide (s = 0)) as [|Hne]; [by right|left]. apply Z.div_le_lower_bound; [done|].
    rewrite <- Z.pow_add_r by lia. assert (0 < q) by (destruct (decide (q = 0)) as [E|]; [unfold s, binade in Hne; fold q in Hne; rewrite E in Hne; simpl in Hne; lia|lia]).
    apply Z.log2_le_pow2; [done|]. unfold s, binade in *. fold q in Hne |- *. lia.
Qed.

Lemma decode_round n d : 0 <= n -> 0 < d -> decode mb (round_to mb n d) = rne n (d * 2 ^ binade mb n d) * 2 ^ binade mb n d.
Proof.
  intros Hn Hd. unfold round_to. pose proof (binade_nonneg n d). pose proof (binade_quotient n d Hn Hd) as [B Hor].
  pose proof (Z.pow_pos_nonneg 2 (binade mb n d) ltac:(lia) ltac:(lia)).
  pose proof (rne_bounds n (d * 2 ^ binade mb n d) ltac:(lia)). apply decode_shift; [lia|lia|]. destruct Hor; [left; lia|by right].
Qed.

Lemma round_nonneg n d : 0 <= n -> 0 < d -> 0 <= round_to mb n d.
Proof.
  intros Hn Hd. unfold round_to. pose proof (binade_nonneg n d). pose proof (binade_quotient n d Hn Hd) as [B _].
  pose proof (Z.pow_pos_nonneg 2 (binade mb n d) ltac:(lia) ltac:(lia)).
  pose proof (rne_bounds n (d * 2 ^ binade mb n d) ltac:(lia)). pose proof pow_mb. nia.
Qed.

(** Rounding is to the nearest value, ties to the even pattern. *)
Lemma round_nearest n d : 1 <= mb -> 0 <= n -> 0 < d -> nearest_even mb n d (round_to mb n d).
Proof.
  intros Hmb1 Hn Hd. split; [by apply round_nonneg|]. rewrite (decode_round n d Hn Hd).
  pose proof (binade_nonneg n d) as Hs. pose proof (binade_quotient n d Hn Hd) as [B Hor]. unfold round_to.
  set (s := binade mb n d) in *. pose proof (Z.pow_pos_nonneg 2 s ltac:(lia) ltac:(lia)) as Hp2.
  set (D := d * 2 ^ s) in *. assert (HD : 0 < D) by nia. pose proof (Z.div_mod n D ltac:(lia)) as E.
  pose proof (Z.mod_pos_bound n D HD) as Br.
  assert (Hlo : decode mb (s * 2 ^ mb + n / D) * d = n / D * D).
  { rewrite decode_shift by lia. unfold D. ring. }
  assert (Hhi : decode mb (s * 2 ^ mb + n / D + 1) * d = (n / D + 1) * D).
  { replace (s * 2 ^ mb + n / D + 1) with (s * 2 ^ mb + (n / D + 1)) by lia. rewrite decode_shift by lia. unfold D. ring. }
  assert (Hside : forall c', 0 <= c' -> decode mb c' * d <= n / D * D \/ (n / D + 1) * D <= decode mb c' * d).
  { intros c' Hc'. destruct (decide (c' <= s * 2 ^ mb + n / D)) as [Hle|Hgt].
    - left. pose proof (decode_le c' (s * 2 ^ mb + n / D)). nia.
    - right. pose proof pow_mb. pose proof (decode_le (s * 2 ^ mb + n / D + 1) c'). nia. }
  replace (rne n D * 2 ^ s * d) with (rne n D * D) by (unfold D; ring).
  assert (Hpick : Z.abs (n - rne n D * D) = Z.min (n mod D) (D - n mod D) /\ (2 * (n mod D) = D -> Z.even (rne n D) = true)).
  { unfold rne. destruct ((D <? 2 * (n mod D)) || _) eqn:C.
    - split; [apply orb_true_iff in C as [C|[C _]%andb_true_iff]; nia|]. intros Ht. rewrite Z.add_1_r, Z.even_succ.
      apply orb_true_iff in C as [C|[_ C]%andb_true_iff]; [lia|exact C].
    - apply orb_false_iff in C as [C1 C2]. split; [nia|]. intros Ht. rewrite <- Z.negb_odd. destruct (Z.odd (n / D)); [|done].
      destruct (2 * (n mod D) =? D) eqn:E2; [done|lia]. }
  destruct Hpick as [-> Hev]. split.
  - intros c' Hc'. destruct (Hside c' Hc'); lia.
  - intros c' Hc' Hne Heq. rewrite Z.even_add, Z.even_mul, (Z.even_pow 2 mb) by lia. rewrite orb_true_r. cbn.
    destruct (decide (2 * (n mod D) = D)) as [Ht|Hnt]; [by rewrite Hev|]. exfalso. apply Hne. unfold rne in *.
    assert (Hin : decode mb c' * d = n / D * D /\ 2 * (n mod D) < D \/ decode mb c' * d = (n / D + 1) * D /\ D < 2 * (n mod D))
      by (destruct (Hside c' Hc'); lia).
    assert (Hc0 : 0 <= s * 2 ^ mb + n / D) by (pose proof pow_mb; nia).
    destruct Hin as [[H1 H2]|[H1 H2]].
    + destruct (_ || _) eqn:C; [apply orb_true_iff in C as [C|[C _]%andb_true_iff]; lia|]. apply decode_inj; [done|done|].
      rewrite <- Hlo in H1. by apply Z.mul_reg_r in H1; [|lia].
    + destruct (D <? 2 * (n mod D)) eqn:C; [|lia]. cbn [orb]. rewrite Z.add_assoc. apply decode_inj; [done|lia|].
      rewrite <- Hhi in H1. by apply Z.mul_reg_r in H1; [|lia].
Qed.

(** A value of the format rounds to its own pattern; a common factor does not matter. *)
Lemma round_exact c d : 1 <= mb -> 0 <= c -> 0 < d -> round_to mb (decode mb c * d) d = c.
Proof.
  intros Hmb1 Hc Hd. pose proof (decode_nonneg c Hc).
  destruct (round_nearest (decode mb c * d) d Hmb1 ltac:(nia) Hd) as (H0 & H1 & _).
  specialize (H1 c Hc). apply decode_inj; [done|done|]. nia.
Qed.

Lemma round_scale n d k : 0 < d -> 0 < k -> round_to mb (n * k) (d * k) = round_to mb n d.
Proof.
  intros Hd Hk. unfold round_to, binade. rewrite Z.div_mul_cancel_r by lia.
  pose proof (Z.pow_pos_nonneg 2 (Z.max 0 (Z.log2 (n / d) - mb)) ltac:(lia) ltac:(lia)).
  replace (d * k * 2 ^ Z.max 0 (Z.log2 (n / d) - mb)) with (d * 2 ^ Z.max 0 (Z.log2 (n / d) - mb) * k) by ring.
  by rewrite rne_scale by nia.
Qed.
End Facts.

(** Integers of [mb + 1] bits, shifted, are values. *)
Lemma decode_multiple mb k j : 0 <= mb -> 0 <= k < 2 * 2 ^ mb -> 0 <= j -> exists c, 0 <= c /\ decode mb c = k * 2 ^ j.
Proof.
  intros Hmb Hk Hj. revert k Hk. pattern j. apply natlike_ind; [| |done]; clear j Hj.
  - intros k Hk. exists k. split; [lia|]. pose proof (decode_shift mb Hmb 0 k ltac:(lia) ltac:(lia) ltac:(lia)) as E.
    by rewrite Z.mul_0_l, Z.add_0_l in E.
  - intros j Hj IH k Hk. destruct (decide (2 ^ mb <= k)) as [Hge|Hlt].
    + exists (Z.succ j * 2 ^ mb + k). split; [nia|]. apply decode_shift; lia.
    + destruct (IH (2 * k) ltac:(lia)) as (c & Hc & Ec). exists c. split; [done|]. rewrite Ec, Z.pow_succ_r by done. ring.
Qed.
