(* ===== verification/Fp4Record.v ===== *)
(** * Compressed KV records and the rows made of them (runtime/flashinfer_v41c/v41c.py)

    A token's record is 512 four-bit codes with one scale byte per sixteen; a reader turns it
    into the row the engine's own store would have written for the same values: 448 eight-bit
    values with an exponent byte per sixty-four, and 64 bfloat16 values.  Modelled: the torch
    reference ([decode_records], [v4_rows]) and the Triton kernel's arithmetic, whose two
    roundings are integer code, on the fp32 bit patterns.  fp32 operations round to nearest
    even; NaN scales, which the writer never makes, are excluded by [record_ok]. *)
From S2P Require Import Prelude FpBits.
#[local] Open Scope list_scope.
#[local] Open Scope Z_scope.

(** ** fp32 *)

(** The bits of a finite fp32; magnitudes are in units of the least positive value, 2^-149. *)
Definition neg (b : Z) : bool := 2 ^ 31 <=? b.
Definition abs32 (b : Z) : Z := b mod 2 ^ 31.
Definition mag (b : Z) : Z := decode 23 (abs32 b).
Definition pack (s : bool) (c : Z) : Z := (if s then 2 ^ 31 else 0) + c.
Definition INF : Z := 2139095040.

Definition fmul (a b : Z) : Z :=
  pack (xorb (neg a) (neg b)) (Z.min INF (round_to 23 (mag a * mag b) (2 ^ 149))).
Definition fdiv (a b : Z) : Z :=
  pack (xorb (neg a) (neg b)) (Z.min INF (round_to 23 (mag a * 2 ^ 149) (mag b))).
Definition fneg (b : Z) : Z := pack (negb (neg b)) (abs32 b).
Definition key (a : Z) : Z := if neg a then - mag a else mag a.
Definition fmax (a b : Z) : Z := if key a <? key b then b else a.
Definition fmin (a b : Z) : Z := if key b <? key a then b else a.
Definition f32_of_int (n : Z) : Z := round_to 23 (n * 2 ^ 149) 1.

(** The constants of the code: 0.5, 1e-4, 448 and -448. *)
Definition HALF : Z := 1056964608.
Definition EPS : Z := 953267991.
Definition F448 : Z := 1138753536.
Definition NEG448 : Z := pack true F448.

Definition clamp (a : Z) : Z := fmin (fmax a NEG448) F448.

(** ** Conversions of the reference: [float8_e4m3fn] and [bfloat16], to nearest even *)
Definition e4m3_float (sb : Z) : Z :=
  pack (Z.testbit sb 7) (round_to 23 (decode 3 (sb mod 128) * 2 ^ 140) 1).
Definition to_e4m3 (a : Z) : Z := (if neg a then 128 else 0) + round_to 3 (mag a) (2 ^ 140).
Definition to_bf16 (a : Z) : Z := (if neg a then 2 ^ 15 else 0) + round_to 7 (mag a) (2 ^ 16).

(** ** The same in the kernel's integer code *)
Definition _v41c_e4m3_value (sb : Z) : Z :=
  let e := Z.land (Z.shiftr sb 3) 15 in
  let m := Z.land sb 7 in
  let nv := Z.lor (Z.shiftl (e + 120) 23) (Z.shiftl m 20) in
  let sv := fmul (f32_of_int m) 989855744 in
  let v := if e =? 0 then sv else nv in
  if negb (Z.land sb 128 =? 0) then fneg v else v.

Definition _v41c_e4m3_rn (a : Z) : Z :=
  let sign := Z.land (Z.shiftr a 31) 1 in
  let x := Z.land a (2 ^ 31 - 1) in
  let ex := Z.shiftr x 23 - 127 in
  let mant := Z.lor (Z.land x (2 ^ 23 - 1)) (2 ^ 23) in
  let normal := -6 <=? ex in
  let sh := if normal then 20 else Z.min (14 - ex) 30 in
  let q0 := Z.shiftr mant sh in
  let rem := Z.land mant (Z.shiftl 1 sh - 1) in
  let half := Z.shiftl 1 (sh - 1) in
  let up := (half <? rem) || ((rem =? half) && (Z.land q0 1 =? 1)) in
  let code := q0 + (if up then 1 else 0) + (if normal then Z.shiftl (ex + 6) 3 else 0) in
  let code := if x =? 0 then 0 else code in
  Z.lor (Z.shiftl sign 7) code.

Definition bf16_rn (ub : Z) : Z := Z.shiftr (ub + 32767 + Z.land (Z.shiftr ub 16) 1) 16.

(** ** A record and its row *)
Section Row.
(** The record's bytes by offset: codes, two to a byte, and scales. *)
Context (data scales : Z -> Z).

Definition code (k : Z) : Z := if k mod 2 =? 0 then Z.land (data (k / 2)) 15 else Z.shiftr (data (k / 2)) 4.

(** [decode_records] *)
Definition e2m1 (m : Z) : Z :=
  nth (Z.to_nat m) [0; 1056964608; 1065353216; 1069547520; 1073741824; 1077936128; 1082130432; 1086324736] 0.
Definition ref_val (c : Z) : Z :=
  let val := e2m1 (Z.land c 7) in if negb (Z.land c 8 =? 0) then fneg val else val.
Definition decode_records (k : Z) : Z := fmul (ref_val (code k)) (e4m3_float (scales (k / 16))).

(** The kernel's values. *)
Definition kernel_val (c : Z) : Z :=
  let mm := Z.land c 7 in
  let m := if mm <? 4 then fmul (f32_of_int mm) HALF
           else if mm =? 4 then 1073741824 else if mm =? 5 then 1077936128
           else if mm =? 6 then 1082130432 else 1086324736 in
  if negb (Z.land c 8 =? 0) then fneg m else m.
Definition kernel_value (k : Z) : Z := fmul (kernel_val (code k)) (_v41c_e4m3_value (scales (k / 16))).
End Row.

Section Quant.
Context (v : Z -> Z).

(** The largest magnitude of a group of 64: patterns of magnitudes are ordered as integers. *)
Definition amax (t : Z) : Z := foldr Z.max 0 (map (fun c => abs32 (v (t * 64 + c))) (zrange 0 64)).
Definition scale_bits (t : Z) : Z := fdiv (Z.max (amax t) EPS) F448.
Definition exponent (t : Z) : Z :=
  Z.land (Z.shiftr (scale_bits t) 23) 255 + (if negb (Z.land (scale_bits t) (2 ^ 23 - 1) =? 0) then 1 else 0).
Definition inverse (t : Z) : Z := Z.shiftl (254 - exponent t) 23.
Definition clipped (k : Z) : Z := clamp (fmul (v k) (inverse (k / 64))).

(** Byte [i] of the row's 576 data bytes, and of its 8 footer bytes: the reference. *)
Definition v4_data (i : Z) : Z :=
  if i <? 448 then to_e4m3 (clipped i)
  else let b := to_bf16 (v (448 + (i - 448) / 2)) in if i mod 2 =? 0 then b mod 256 else b / 256.
Definition v4_footer (t : Z) : Z := if t <? 7 then exponent t else 0.

(** What the kernel stores there. *)
Definition kernel_data (i : Z) : Z :=
  if i <? 448 then _v41c_e4m3_rn (clipped i)
  else let rb := bf16_rn (v (448 + (i - 448) / 2)) in
       if i mod 2 =? 0 then Z.land rb 255 else Z.land (Z.shiftr rb 8) 255.
End Quant.

(** The bytes of a record that carry numbers. *)
Definition record_ok (data scales : Z -> Z) : Prop :=
  (forall i, 0 <= i < 256 -> 0 <= data i < 256) /\
  (forall i, 0 <= i < 32 -> 0 <= scales i < 256 /\ scales i mod 128 <> 127).

(** ** The two roundings *)
Lemma mag_pack s c : 0 <= c < 2 ^ 31 -> mag (pack s c) = decode 23 c.
Proof.
  intros Hc. unfold mag, abs32, pack. f_equal. destruct s; [|by rewrite Z.mod_small].
  rewrite Z.add_comm, <- (Z.mul_1_l (2 ^ 31)) at 1. by rewrite Z.mod_add, Z.mod_small by lia.
Qed.

Lemma neg_pack s c : 0 <= c < 2 ^ 31 -> neg (pack s c) = s.
Proof. intros Hc. unfold neg, pack. destruct s; [|destruct (_ <=? _) eqn:E]; lia. Qed.

Lemma bits_split a : 0 <= a < 2 ^ 32 ->
  Z.land (Z.shiftr a 31) 1 = (if neg a then 1 else 0) /\ Z.land a (2 ^ 31 - 1) = abs32 a /\ 0 <= abs32 a < 2 ^ 31.
Proof.
  intros Ha. split; [|split].
  - change 1 with (Z.ones 1) at 1. rewrite Z.land_ones, Z.shiftr_div_pow2 by lia. unfold neg. change (2 ^ 1) with 2.
    destruct (2 ^ 31 <=? a) eqn:E.
    + assert (a / 2 ^ 31 = 1) as -> by (symmetry; apply Z.div_unique_pos with (r := a - 2 ^ 31); lia). done.
    + by rewrite Z.div_small by lia.
  - change (2 ^ 31 - 1) with (Z.ones 31). by rewrite Z.land_ones by lia.
  - unfold abs32. apply Z.mod_pos_bound. lia.
Qed.

(** The fields of a magnitude: its exponent field and the mantissa with the hidden bit. *)
Lemma fields x : 0 <= x < 2 ^ 31 ->
  Z.shiftr x 23 = x / 2 ^ 23 /\ Z.lor (Z.land x (2 ^ 23 - 1)) (2 ^ 23) = 2 ^ 23 + x mod 2 ^ 23.
Proof.
  intros Hx. split; [by rewrite Z.shiftr_div_pow2|].
  change (2 ^ 23 - 1) with (Z.ones 23). rewrite Z.land_ones by lia.
  rewrite Z.lor_comm, <- (Z.mul_1_l (2 ^ 23)) at 1. rewrite lor_fields by (lia || by apply Z.mod_pos_bound). lia.
Qed.

Lemma land_ones_1 q : Z.land q 1 = q mod 2.
Proof. change 1 with (Z.ones 1). by rewrite Z.land_ones by lia. Qed.

Lemma shift_rne mant sh : 0 <= mant -> 1 <= sh ->
  Z.shiftr mant sh + (if (Z.shiftl 1 (sh - 1) <? Z.land mant (Z.shiftl 1 sh - 1))
                         || ((Z.land mant (Z.shiftl 1 sh - 1) =? Z.shiftl 1 (sh - 1)) && (Z.land (Z.shiftr mant sh) 1 =? 1)) then 1 else 0)
  = rne mant (2 ^ sh).
Proof.
  intros Hm Hs. rewrite !Z.shiftl_1_l. replace (2 ^ sh - 1) with (Z.ones sh) by (rewrite Z.ones_equiv; lia).
  rewrite Z.land_ones, Z.shiftr_div_pow2, land_ones_1, Zmod_odd by lia. unfold rne.
  assert (E : 2 ^ sh = 2 * 2 ^ (sh - 1)) by (rewrite <- Z.pow_succ_r by lia; f_equal; lia).
  set (h := 2 ^ (sh - 1)) in *. set (r := mant mod 2 ^ sh) in *. rewrite E.
  replace (2 * h <? 2 * r) with (h <? r) by (apply eq_true_iff_eq; rewrite !Z.ltb_lt; lia).
  replace (2 * r =? 2 * h) with (r =? h) by (apply eq_true_iff_eq; rewrite !Z.eqb_eq; lia).
  destruct (Z.odd _); [change (1 =? 1) with true|change (0 =? 1) with false]; case_match; lia.
Qed.

(** The binade of a normal magnitude in another format. *)
Lemma binade_normal mb m E k : 2 ^ 23 <= m < 2 ^ 24 -> 1 <= E -> 0 <= k ->
  binade mb (m * 2 ^ (E - 1)) (2 ^ k) = Z.max 0 (Z.max 0 (22 + E - k) - mb).
Proof.
  intros Hm HE Hk. pose proof (Z.pow_pos_nonneg 2 (E - 1) ltac:(lia) ltac:(lia)) as Hp.
  assert (Hlog : Z.log2 (m * 2 ^ (E - 1)) = 22 + E).
  { apply Z.log2_unique; [lia|]. replace (22 + E) with (23 + (E - 1)) by lia.
    replace (Z.succ (23 + (E - 1))) with (24 + (E - 1)) by lia. rewrite !Z.pow_add_r by lia. nia. }
  unfold binade. rewrite <- Z.shiftr_div_pow2, Z.log2_shiftr by nia. by rewrite Hlog.
Qed.

(** The integer rounding of the kernel is the conversion to e4m3, below and above the
    subnormal bound, ties and carries included. *)
Lemma e4m3_magnitude x : 0 <= x < 2 ^ 31 ->
  let ex := x / 2 ^ 23 - 127 in
  let mant := 2 ^ 23 + x mod 2 ^ 23 in
  (if x =? 0 then 0
   else rne mant (2 ^ (if -6 <=? ex then 20 else Z.min (14 - ex) 30)) + (if -6 <=? ex then (ex + 6) * 2 ^ 3 else 0))
  = round_to 3 (decode 23 x) (2 ^ 140).
Proof.
  intros Hx ex mant. unfold decode. pose proof (Z.mod_pos_bound x (2 ^ 23) ltac:(lia)) as B. fold mant.
  destruct (Z.ltb_spec x (2 ^ 23)) as [Hsub|Hnorm].
  - assert (Er : round_to 3 x (2 ^ 140) = 0).
    { unfold round_to, binade. rewrite Z.div_small by lia. change (Z.max 0 (Z.log2 0 - 3)) with 0.
      unfold rne. rewrite Z.div_small, Z.mod_small by lia. change (2 ^ 140 * 2 ^ 0) with (2 ^ 140).
      destruct (2 ^ 140 <? 2 * x) eqn:E1; [lia|]. destruct (2 * x =? 2 ^ 140) eqn:E2; [lia|done]. }
    rewrite Er. destruct (x =? 0); [done|].
    assert (ex = -127) as -> by (unfold ex; rewrite Z.div_small by lia; done).
    change (-6 <=? -127) with false. change (Z.min (14 - -127) 30) with 30. cbv iota. rewrite Z.add_0_r. unfold rne.
    assert (Hm : 0 <= mant < 2 ^ 24) by lia. rewrite Z.div_small, Z.mod_small by lia.
    destruct (2 ^ 30 <? 2 * mant) eqn:E1; [lia|]. destruct (2 * mant =? 2 ^ 30) eqn:E2; [lia|done].
  - destruct (x =? 0) eqn:E0; [lia|]. assert (HE : 1 <= x / 2 ^ 23 < 2 ^ 8) by (split; [apply Z.div_le_lower_bound|apply Z.div_lt_upper_bound]; lia).
    set (E := x / 2 ^ 23) in *. unfold round_to.
    assert (Hm : 2 ^ 23 <= mant < 2 ^ 24) by lia. pose proof (Z.pow_pos_nonneg 2 (E - 1) ltac:(lia) ltac:(lia)) as Hp.
    assert (Hbin : binade 3 (mant * 2 ^ (E - 1)) (2 ^ 140) = Z.max 0 (E - 121)) by (rewrite binade_normal; lia).
    rewrite Hbin. destruct (Z.leb_spec (-6) ex) as [Hn|Hn].
    + replace (Z.max 0 (E - 121)) with (E - 121) by lia. replace (ex + 6) with (E - 121) by lia.
      rewrite <- Z.pow_add_r by lia. replace (140 + (E - 121)) with (20 + (E - 1)) by lia. rewrite Z.pow_add_r by lia.
      rewrite rne_scale by lia. lia.
    + replace (Z.max 0 (E - 121)) with 0 by lia. rewrite Z.mul_1_r, Z.mul_0_l, Z.add_0_l, Z.add_0_r.
      replace 140 with ((14 - ex) + (E - 1)) by lia. rewrite (Z.pow_add_r 2 (14 - ex)) by lia. rewrite rne_scale by lia.
      destruct (Z.min_spec (14 - ex) 30) as [[_ ->]|[Hge ->]]; [done|].
      assert (Hbig : 2 ^ 30 <= 2 ^ (14 - ex)) by (apply Z.pow_le_mono_r; lia).
      unfold rne. rewrite !Z.div_small, !Z.mod_small by lia.
      destruct (2 ^ 30 <? 2 * mant) eqn:E1; [lia|]. destruct (2 * mant =? 2 ^ 30) eqn:E2; [lia|].
      destruct (2 ^ (14 - ex) <? 2 * mant) eqn:E3; [lia|]. destruct (2 * mant =? 2 ^ (14 - ex)) eqn:E4; [lia|done].
Qed.

Lemma round3_bound a : mag a <= mag F448 -> 0 <= mag a -> 0 <= round_to 3 (mag a) (2 ^ 140) <= 126.
Proof.
  intros Ha H0. split; [apply round_nonneg; lia|].
  destruct (round_nearest 3 ltac:(lia) (mag a) (2 ^ 140) ltac:(lia) H0 ltac:(lia)) as (Hc & Hn & _).
  destruct (Z.le_gt_cases (round_to 3 (mag a) (2 ^ 140)) 126) as [|Hgt]; [done|]. exfalso.
  specialize (Hn 126 ltac:(lia)). pose proof (decode_lt 3 ltac:(lia) 126 (round_to 3 (mag a) (2 ^ 140)) ltac:(lia)) as Hd.
  assert (E : decode 3 126 * 2 ^ 140 = mag F448) by (vm_compute; reflexivity).
  apply (Z.mul_lt_mono_pos_r (2 ^ 140)) in Hd; [|lia]. lia.
Qed.

(** The integer rounding is the conversion, sign and zero included. *)
Lemma e4m3_rn_code a : 0 <= a < 2 ^ 32 -> mag a <= mag F448 -> _v41c_e4m3_rn a = to_e4m3 a.
Proof.
  intros Ha Hm. destruct (bits_split a Ha) as (Hs & Hx & Hxb). destruct (fields _ Hxb) as (F1 & F2).
  assert (H0 : 0 <= mag a) by (apply decode_nonneg; lia). pose proof (round3_bound a Hm H0) as Hr.
  unfold _v41c_e4m3_rn. rewrite Hs, Hx, F1, F2. pose proof (Z.mod_pos_bound (abs32 a) (2 ^ 23) ltac:(lia)) as B.
  pose proof (e4m3_magnitude _ Hxb) as E. cbv zeta in E. unfold to_e4m3. fold (mag a) in E. rewrite <- E in *. clear E.
  assert (Hsh : 1 <= (if -6 <=? abs32 a / 2 ^ 23 - 127 then 20 else Z.min (14 - (abs32 a / 2 ^ 23 - 127)) 30)) by (destruct (Z.leb_spec (-6) (abs32 a / 2 ^ 23 - 127)); lia).
  rewrite shift_rne by lia. rewrite Z.shiftl_mul_pow2 by lia.
  destruct (abs32 a =? 0); [by destruct (neg a)|]. rewrite Z.shiftl_mul_pow2 by lia.
  set (c := rne _ _ + _) in *. clearbody c. destruct (neg a); [|rewrite Z.mul_0_l, Z.lor_0_l; lia].
  rewrite lor_fields by lia. lia.
Qed.

Lemma to_e4m3_split a : mag a <= mag F448 -> 0 <= mag a ->
  to_e4m3 a mod 128 = round_to 3 (mag a) (2 ^ 140) /\ (128 <=? to_e4m3 a) = neg a.
Proof.
  intros Hm H0. pose proof (round3_bound a Hm H0) as Hr. unfold to_e4m3. split.
  - destruct (neg a); [rewrite Z.add_comm, <- (Z.mul_1_l 128) at 1; rewrite Z.mod_add by lia|rewrite Z.add_0_l]; by rewrite Z.mod_small by lia.
  - destruct (neg a); [|destruct (_ <=? _) eqn:E]; lia.
Qed.

(** C24: for every fp32 of magnitude at most 448 the kernel's integer code is the e4m3 pattern
    nearest to it, ties to the even pattern, the sign kept, zero and the subnormal range of
    the format included. *)
Theorem e4m3_rn_nearest a :
  0 <= a < 2 ^ 32 -> mag a <= mag F448 ->
  nearest_even 3 (mag a) (2 ^ 140) (_v41c_e4m3_rn a mod 128) /\ (128 <=? _v41c_e4m3_rn a) = neg a.
Proof.
  intros Ha Hm. assert (H0 : 0 <= mag a) by (apply decode_nonneg; [lia|by apply Z.mod_pos_bound]).
  rewrite (e4m3_rn_code a Ha Hm). destruct (to_e4m3_split a Hm H0) as [-> ->]. split; [|done]. apply round_nearest; lia.
Qed.

Lemma bf16_rn_exact ub : 0 <= ub < 2 ^ 32 -> abs32 ub < INF -> bf16_rn ub = to_bf16 ub.
Proof.
  intros Hu Hfin. destruct (bits_split ub Hu) as (_ & _ & Hxb). unfold bf16_rn, to_bf16, INF in *.
  rewrite Z.shiftr_div_pow2, land_ones_1, Z.shiftr_div_pow2 by lia.
  assert (Eu : ub = (if neg ub then 2 ^ 15 else 0) * 2 ^ 16 + abs32 ub).
  { unfold neg, abs32. destruct (2 ^ 31 <=? ub) eqn:E; [|by rewrite Z.mod_small by lia].
    rewrite (Z.mod_eq ub (2 ^ 31)) by lia. assert (ub / 2 ^ 31 = 1) as -> by (symmetry; apply Z.div_unique_pos with (r := ub - 2 ^ 31); lia). lia. }
  set (x := abs32 ub) in *. rewrite Eu at 1 2.
  replace (((if neg ub then 2 ^ 15 else 0) * 2 ^ 16 + x) / 2 ^ 16 mod 2) with (x / 2 ^ 16 mod 2).
  2:{ rewrite Z.add_comm, Z.div_add by lia. destruct (neg ub); [|by rewrite Z.add_0_r].
      change (2 ^ 15) with (2 ^ 14 * 2). by rewrite Z.mod_add by lia. }
  replace ((if neg ub then 2 ^ 15 else 0) * 2 ^ 16 + x + 32767 + x / 2 ^ 16 mod 2)
    with (x + 32767 + x / 2 ^ 16 mod 2 + (if neg ub then 2 ^ 15 else 0) * 2 ^ 16) by lia.
  rewrite Z.div_add by lia. rewrite Z.add_comm. f_equal. change 32767 with (2 ^ (16 - 1) - 1). rewrite rne_carry by lia.
  unfold mag. fold x. unfold decode. pose proof (Z.mod_pos_bound x (2 ^ 23) ltac:(lia)) as B.
  destruct (Z.ltb_spec x (2 ^ 23)) as [Hsub|Hn]; unfold round_to.
  - assert (Hb : binade 7 x (2 ^ 16) = 0).
    { unfold binade. destruct (decide (x = 0)) as [->|]; [done|]. rewrite <- Z.shiftr_div_pow2, Z.log2_shiftr by lia.
      assert (Z.log2 x < 23); [apply Z.log2_lt_pow2; lia|lia]. }
    by rewrite Hb, Z.mul_1_r.
  - assert (HE : 1 <= x / 2 ^ 23) by (apply Z.div_le_lower_bound; lia). pose proof (Z.div_mod x (2 ^ 23) ltac:(lia)) as Ex.
    set (E := x / 2 ^ 23) in *. set (m := 2 ^ 23 + x mod 2 ^ 23) in *. assert (Hm : 2 ^ 23 <= m < 2 ^ 24) by lia.
    pose proof (Z.pow_pos_nonneg 2 (E - 1) ltac:(lia) ltac:(lia)) as Hp.
    assert (Hb : binade 7 (m * 2 ^ (E - 1)) (2 ^ 16) = E - 1) by (rewrite binade_normal; lia).
    rewrite Hb, rne_scale by lia. replace (rne x (2 ^ 16)) with (rne (m + (E - 1) * 2 ^ 7 * 2 ^ 16) (2 ^ 16)) by (f_equal; lia). unfold rne.
    rewrite Z.div_add, Z.mod_add, Z.odd_add by lia. rewrite (Z.odd_mul (E - 1)). change (Z.odd (2 ^ 7)) with false.
    rewrite andb_false_r, xorb_false_r. destruct (_ || _); lia.
Qed.

(** ** Every code and scale, one by one *)

(** Twice the magnitude of a code. *)
Definition e2m1_twice (c : Z) : Z := nth (Z.to_nat (c mod 8)) [0; 1; 2; 3; 4; 6; 8; 12] 0.

Lemma codes_ok c : 0 <= c < 16 ->
  kernel_val c = ref_val c /\ mag (ref_val c) = e2m1_twice c * 2 ^ 148.
Proof.
  assert (H : forallb (fun c => (kernel_val c =? ref_val c) && (mag (ref_val c) =? e2m1_twice c * 2 ^ 148)) (zrange 0 16) = true)
    by (vm_compute; reflexivity).
  intros Hc. apply (proj1 (forallb_zrange _ _ _)) with (r := c) in H; [|lia]. lia.
Qed.

Lemma scales_ok sb : 0 <= sb < 256 -> sb mod 128 <> 127 ->
  _v41c_e4m3_value sb = e4m3_float sb /\ mag (e4m3_float sb) = decode 3 (sb mod 128) * 2 ^ 140.
Proof.
  assert (H : forallb (fun s => (s mod 128 =? 127) || ((_v41c_e4m3_value s =? e4m3_float s)
    && (mag (e4m3_float s) =? decode 3 (s mod 128) * 2 ^ 140))) (zrange 0 256) = true) by (vm_compute; reflexivity).
  intros Hs Hn. apply (proj1 (forallb_zrange _ _ _)) with (r := sb) in H; [|lia]. lia.
Qed.

(** The pattern of magnitude [A * 2^139], and what every such pattern satisfies: it is finite
    and a bfloat16, and the scale it asks for is the least that holds it. *)
Definition pattern (A : Z) : Z := Z.min INF (round_to 23 (A * 2 ^ 139) 1).

Definition pattern_ok (A : Z) : bool :=
  let x := pattern A in
  let s := Z.min INF (round_to 23 (decode 23 (Z.max x EPS)) 448) in
  let e := Z.land (Z.shiftr s 23) 255 + (if negb (Z.land s (2 ^ 23 - 1) =? 0) then 1 else 0) in
  let b := round_to 7 (A * 2 ^ 139) (2 ^ 16) in
  (x <? INF) && (decode 23 x =? A * 2 ^ 139) && (A <? 2 ^ 22) && (decode 7 b * 2 ^ 16 =? A * 2 ^ 139) && (b <? 2 ^ 15)
  && (105 <=? e) && (e <=? 130) && (A * 2 ^ 139 * 2 ^ 127 <=? mag F448 * 2 ^ e)
  && ((e =? 105) || (mag F448 * 2 ^ (e - 1) <? A * 2 ^ 139 * 2 ^ 127)).

(** The distinct magnitudes of a code and a scale. *)
Definition magnitudes : list Z :=
  Eval vm_compute in remove_dups (zrange 0 8 ≫= fun c => (fun m => e2m1_twice c * decode 3 m) <$> zrange 0 127).

Lemma patterns_ok c m : 0 <= m < 127 -> pattern_ok (e2m1_twice c * decode 3 m) = true.
Proof.
  assert (Hin : forallb (fun c => forallb (fun m => existsb (Z.eqb (e2m1_twice c * decode 3 m)) magnitudes) (zrange 0 127)) (zrange 0 8) = true)
    by (vm_compute; reflexivity).
  assert (H : forallb pattern_ok magnitudes = true) by (vm_compute; reflexivity). rewrite forallb_forall in H.
  intros Hm. apply (proj1 (forallb_zrange _ _ _)) with (r := c mod 8) in Hin; [|by apply Z.mod_pos_bound].
  apply (proj1 (forallb_zrange _ _ _)) with (r := m) in Hin; [|lia]. unfold e2m1_twice in *. rewrite Z.mod_mod in Hin by lia.
  apply existsb_exists in Hin as (A & HA & ->%Z.eqb_eq). by apply H.
Qed.

(** ** The values of a record *)
Lemma fmul_pack a b : fmul a b = pack (xorb (neg a) (neg b)) (abs32 (fmul a b)) /\ 0 <= mag a * mag b /\
  abs32 (fmul a b) = Z.min INF (round_to 23 (mag a * mag b) (2 ^ 149)) /\ 0 <= fmul a b < 2 ^ 32.
Proof.
  assert (H : 0 <= mag a * mag b).
  { pose proof (decode_nonneg 23 ltac:(lia) (abs32 a)). pose proof (decode_nonneg 23 ltac:(lia) (abs32 b)).
    unfold mag, abs32 in *. pose proof (Z.mod_pos_bound a (2 ^ 31)). pose proof (Z.mod_pos_bound b (2 ^ 31)). nia. }
  pose proof (round_nonneg 23 ltac:(lia) (mag a * mag b) (2 ^ 149) H ltac:(lia)) as Hr.
  assert (E : abs32 (fmul a b) = Z.min INF (round_to 23 (mag a * mag b) (2 ^ 149))).
  { unfold fmul, pack, abs32. rewrite Z.add_comm. set (r := Z.min INF _). assert (0 <= r < 2 ^ 31) by (unfold r, INF; lia).
    destruct (xorb _ _); [|rewrite Z.add_0_r; by apply Z.mod_small].
    rewrite <- (Z.mul_1_l (2 ^ 31)) at 1. by rewrite Z.mod_add, Z.mod_small by lia. }
  split; [by rewrite E|]. split; [done|]. split; [done|]. unfold fmul, pack, INF. destruct (xorb _ _); lia.
Qed.

Lemma code_range data k : (forall i, 0 <= i < 256 -> 0 <= data i < 256) -> 0 <= k < 512 -> 0 <= code data k < 16.
Proof.
  intros Hd Hk. unfold code. assert (0 <= k / 2 < 256) as H by (split; [apply Z.div_pos|apply Z.div_lt_upper_bound]; lia).
  specialize (Hd _ H). case_match.
  - change 15 with (Z.ones 4). rewrite Z.land_ones by lia. by apply Z.mod_pos_bound.
  - rewrite Z.shiftr_div_pow2 by lia. split; [apply Z.div_pos|apply Z.div_lt_upper_bound]; lia.
Qed.

(** What a value of a record is: [A * 2^139] exactly, for a magnitude of the table. *)
Definition is_value (x A : Z) : Prop := pattern_ok A = true /\ 0 <= A /\ abs32 x = pattern A /\ mag x = A * 2 ^ 139 /\ 0 <= x < 2 ^ 32.

Lemma record_value data scales k : record_ok data scales -> 0 <= k < 512 ->
  kernel_value data scales k = decode_records data scales k /\ exists A, is_value (decode_records data scales k) A.
Proof.
  intros [Hd Hs] Hk. pose proof (code_range data k Hd Hk) as Hc.
  assert (0 <= k / 16 < 32) as Hsk by (split; [apply Z.div_pos|apply Z.div_lt_upper_bound]; lia).
  destruct (Hs _ Hsk) as [Hb Hnan]. destruct (codes_ok _ Hc) as [Ec Mc]. destruct (scales_ok _ Hb Hnan) as [Es Ms].
  unfold kernel_value, decode_records. rewrite Ec, Es. split; [done|].
  set (m := scales (k / 16) mod 128) in *. assert (Hm : 0 <= m < 127) by (pose proof (Z.mod_pos_bound (scales (k / 16)) 128); lia).
  exists (e2m1_twice (code data k) * decode 3 m). pose proof (patterns_ok (code data k) m Hm) as HP.
  destruct (fmul_pack (ref_val (code data k)) (e4m3_float (scales (k / 16)))) as (_ & H0 & Ea & Hr).
  assert (Ea' : abs32 (fmul (ref_val (code data k)) (e4m3_float (scales (k / 16)))) = pattern (e2m1_twice (code data k) * decode 3 m)).
  { rewrite Ea, Mc, Ms. unfold pattern. f_equal. rewrite <- (round_scale 23 _ 1 (2 ^ 149)) by lia. f_equal; lia. }
  split; [done|]. split.
  { rewrite Mc, Ms in H0. nia. }
  split; [done|]. split; [|done]. unfold mag. rewrite Ea'. unfold pattern_ok in HP. lia.
Qed.

(** ** Quantising a row *)
Lemma amax_ext v v' t : 0 <= t < 8 -> (forall k, 0 <= k < 512 -> v k = v' k) -> amax v t = amax v' t.
Proof.
  intros Ht H. unfold amax. f_equal. apply map_ext_in. intros c Hc%list_elem_of_In%zrange_elem. by rewrite H by lia.
Qed.

Lemma exponent_ext v v' t : 0 <= t < 8 -> (forall k, 0 <= k < 512 -> v k = v' k) -> exponent v t = exponent v' t.
Proof. intros Ht H. unfold exponent, scale_bits. by rewrite (amax_ext v v'). Qed.

Lemma row_ext v v' i : 0 <= i < 576 -> (forall k, 0 <= k < 512 -> v k = v' k) ->
  v4_data v i = v4_data v' i /\ (0 <= i < 8 -> v4_footer v i = v4_footer v' i).
Proof.
  intros Hi H. split; [|intros Ht; unfold v4_footer; case_match; [by apply exponent_ext|done]].
  unfold v4_data. destruct (Z.ltb_spec i 448) as [Hlt|Hge].
  - assert (0 <= i / 64 < 8) by (split; [apply Z.div_pos|apply Z.div_lt_upper_bound]; lia).
    unfold clipped, inverse. by rewrite (exponent_ext v v'), H by (done || lia).
  - assert (0 <= (i - 448) / 2 < 64) by (split; [apply Z.div_pos|apply Z.div_lt_upper_bound]; lia). by rewrite H by lia.
Qed.

(** The clamp: a finite pattern of magnitude at most 448, and the value itself when it is
    already one. *)
Lemma mag_nonneg a : 0 <= mag a.
Proof. apply decode_nonneg; [lia|]. by apply Z.mod_pos_bound. Qed.

Lemma clamp_range y : 0 <= y < 2 ^ 32 ->
  0 <= clamp y < 2 ^ 32 /\ mag (clamp y) <= mag F448 /\ (mag y <= mag F448 -> mag (clamp y) = mag y /\ (neg (clamp y) = neg y)).
Proof.
  intros Hy. pose proof (mag_nonneg y) as H0. assert (EN : key NEG448 = - mag F448) by (vm_compute; reflexivity).
  assert (EP : key F448 = mag F448) by (vm_compute; reflexivity). assert (HP : 0 < mag F448) by (vm_compute; reflexivity).
  assert (EM : mag NEG448 = mag F448) by (vm_compute; reflexivity).
  assert (RN : 0 <= NEG448 < 2 ^ 32 /\ 0 <= F448 < 2 ^ 32) by (unfold NEG448, pack, F448; lia).
  unfold clamp, fmin, fmax. destruct (key y <? key NEG448) eqn:E1.
  - rewrite EN, EP. destruct (mag F448 <? - mag F448) eqn:E2; [lia|]. split; [lia|]. split; [lia|].
    intros Hm. unfold key in E1 at 1. rewrite EN in E1. destruct (neg y); lia.
  - destruct (key F448 <? key y) eqn:E2.
    + split; [lia|]. split; [lia|]. intros Hm. unfold key in E2 at 2. rewrite EP in E2. destruct (neg y); lia.
    + split; [done|]. split; [|done]. unfold key in E1 at 1, E2 at 2. rewrite EN in E1. rewrite EP in E2. destruct (neg y); lia.
Qed.

(** The rope values: sixteen bits, and exact. *)
Lemma to_bf16_value x A : is_value x A ->
  0 <= to_bf16 x < 2 ^ 16 /\ decode 7 (to_bf16 x mod 2 ^ 15) * 2 ^ 16 = mag x /\ (2 ^ 15 <=? to_bf16 x) = neg x.
Proof.
  intros (HA & H0 & Ex & Em & Hx). unfold to_bf16. rewrite Em. unfold pattern_ok in HA.
  assert (0 <= round_to 7 (A * 2 ^ 139) (2 ^ 16)) by (apply round_nonneg; lia).
  assert (Hb : round_to 7 (A * 2 ^ 139) (2 ^ 16) < 2 ^ 15 /\ decode 7 (round_to 7 (A * 2 ^ 139) (2 ^ 16)) * 2 ^ 16 = A * 2 ^ 139) by lia.
  set (r := round_to 7 _ _) in *. clearbody r. destruct Hb as [Hb Hd]. split; [destruct (neg x); lia|]. split.
  - rewrite <- Hd. do 2 f_equal. destruct (neg x); [rewrite Z.add_comm, <- (Z.mul_1_l (2 ^ 15)) at 1; rewrite Z.mod_add by lia|rewrite Z.add_0_l]; by apply Z.mod_small.
  - destruct (neg x); [|destruct (_ <=? _) eqn:E]; lia.
Qed.

(** For every record without a NaN scale the Triton kernel stores the bytes of the
    reference row: the 448 values, the 64 rope values and the eight footer bytes. *)
Lemma kernel_row_bytes data scales i :
  record_ok data scales -> 0 <= i < 576 ->
  kernel_data (kernel_value data scales) i = v4_data (decode_records data scales) i /\
  (i < 8 -> v4_footer (kernel_value data scales) i = v4_footer (decode_records data scales) i).
Proof.
  intros Hok Hi. assert (Hv : forall k, 0 <= k < 512 -> kernel_value data scales k = decode_records data scales k)
    by (intros k Hk; apply (record_value data scales k Hok Hk)).
  destruct (row_ext _ _ i Hi Hv) as [Ed Ef]. split; [|intros; apply Ef; lia]. rewrite <- Ed.
  unfold kernel_data, v4_data. destruct (Z.ltb_spec i 448) as [Hlt|Hge].
  - destruct (clamp_range (fmul (kernel_value data scales i) (inverse (kernel_value data scales) (i / 64)))) as (Hr & Hm & _);
      [apply fmul_pack|]. by apply e4m3_rn_code.
  - assert (Hk : 0 <= 448 + (i - 448) / 2 < 512) by (pose proof (Z.div_pos (i - 448) 2); pose proof (Z.div_lt_upper_bound (i - 448) 2 64); lia).
    rewrite Hv by done. destruct (record_value data scales _ Hok Hk) as (_ & A & HV).
    pose proof (to_bf16_value _ _ HV) as (HB & _). destruct HV as (HA & _ & Ex & _ & Hx).
    assert (Hfin : abs32 (decode_records data scales (448 + (i - 448) / 2)) < INF) by (rewrite Ex; unfold pattern_ok in HA; lia).
    rewrite (bf16_rn_exact _ Hx Hfin). case_match.
    + change 255 with (Z.ones 8). by rewrite Z.land_ones by lia.
    + change 255 with (Z.ones 8). rewrite Z.land_ones, Z.shiftr_div_pow2 by lia. apply Z.mod_small.
      split; [apply Z.div_pos|apply Z.div_lt_upper_bound]; lia.
Qed.

(** ** What a row holds *)
Lemma mag_F448 : mag F448 = 448 * 2 ^ 149.
Proof. vm_compute. reflexivity. Qed.

Lemma fdiv_448 p : 0 <= p < 2 ^ 31 -> fdiv p F448 = Z.min INF (round_to 23 (decode 23 p) 448).
Proof.
  intros Hp. unfold fdiv. assert (neg p = false) as -> by (unfold neg; lia). change (neg F448) with false.
  assert (mag p = decode 23 p) as -> by (unfold mag, abs32; by rewrite Z.mod_small). unfold pack, xorb. rewrite Z.add_0_l. f_equal.
  rewrite mag_F448. apply round_scale; lia.
Qed.

(** The group's largest magnitude is one of its values'. *)
Lemma amax_spec v t : (forall c, 0 <= c < 64 -> 0 <= abs32 (v (t * 64 + c))) ->
  (forall c, 0 <= c < 64 -> abs32 (v (t * 64 + c)) <= amax v t) /\ exists c, 0 <= c < 64 /\ amax v t = abs32 (v (t * 64 + c)).
Proof.
  intros H0. unfold amax. set (f := fun c => abs32 (v (t * 64 + c))) in *.
  assert (G : forall l, l <> [] -> Forall (fun c => 0 <= c < 64) l ->
    (forall c, c ∈ l -> f c <= foldr Z.max 0 (map f l)) /\ exists c, c ∈ l /\ foldr Z.max 0 (map f l) = f c).
  { induction l as [|a l IH]; [done|]. intros _ [Ha Hl]%Forall_cons. simpl. destruct l as [|b l].
    - simpl. rewrite Z.max_l by (apply H0; lia). split; [by intros c ->%list_elem_of_singleton|exists a]. split; [set_solver|done].
    - destruct IH as [I1 (c & I2 & I3)]; [done|done|]. split.
      + intros c' [->|Hc']%elem_of_cons; [lia|]. specialize (I1 _ Hc'). lia.
      + destruct (Z.max_spec (f a) (foldr Z.max 0 (map f (b :: l)))) as [[_ ->]|[_ ->]]; [exists c; rewrite I3; split; [set_solver|done]|exists a; split; [set_solver|done]]. }
  destruct (G (zrange 0 64)) as [G1 (c & G2 & G3)]; [done|apply Forall_forall; intros c Hc%zrange_elem; lia|].
  split; [intros c' Hc'; apply G1, zrange_elem; lia|]. exists c. split; [apply zrange_elem in G2; lia|done].
Qed.

(** The group's exponent: of the table's range, and the least that holds every value. *)
Lemma exponent_spec data scales t : record_ok data scales -> 0 <= t < 7 ->
  let v := decode_records data scales in
  105 <= exponent v t <= 130 /\
  (forall c, 0 <= c < 64 -> mag (v (t * 64 + c)) * 2 ^ 127 <= mag F448 * 2 ^ exponent v t) /\
  (exponent v t = 105 \/ exists c, 0 <= c < 64 /\ mag F448 * 2 ^ (exponent v t - 1) < mag (v (t * 64 + c)) * 2 ^ 127).
Proof.
  intros Hok Ht v. destruct (amax_spec v t) as [Hall (c & Hc & Hmax)].
  { intros c Hc. by apply Z.mod_pos_bound. }
  destruct (record_value data scales (t * 64 + c) Hok ltac:(lia)) as (_ & A & (HA & _ & Ex & Em & Hx)). fold v in Ex, Em, Hx.
  assert (Hp : 0 <= amax v t < 2 ^ 31) by (rewrite Hmax; by apply Z.mod_pos_bound).
  assert (He : exponent v t = let s := Z.min INF (round_to 23 (decode 23 (Z.max (pattern A) EPS)) 448) in
    Z.land (Z.shiftr s 23) 255 + (if negb (Z.land s (2 ^ 23 - 1) =? 0) then 1 else 0)).
  { unfold exponent, scale_bits. rewrite fdiv_448 by (unfold EPS; lia). by rewrite Hmax, Ex. }
  unfold pattern_ok in HA. cbv zeta in HA, He. rewrite <- He in HA. split; [lia|]. split.
  - intros c' Hc'. specialize (Hall c' Hc'). transitivity (mag (v (t * 64 + c)) * 2 ^ 127); [|lia].
    apply Z.mul_le_mono_nonneg_r; [lia|]. unfold mag. apply decode_le; [lia|]. rewrite <- Hmax. split; [by apply Z.mod_pos_bound|done].
  - destruct (Z.eqb_spec (exponent v t) 105) as [|Hne]; [by left|right]. exists c. split; [done|]. rewrite Em. lia.
Qed.

(** Scaling by the inverse exponent is exact and never leaves the clamp's range. *)
Lemma scaled_exact x A e : is_value x A -> 105 <= e <= 130 -> mag x * 2 ^ 127 <= mag F448 * 2 ^ e ->
  let y := fmul x (Z.shiftl (254 - e) 23) in
  0 <= y < 2 ^ 32 /\ mag y * 2 ^ e = mag x * 2 ^ 127 /\ mag y <= mag F448 /\ neg y = neg x.
Proof.
  intros (HA & H0 & Ex & Em & Hx) He Hle y. unfold pattern_ok in HA. assert (HA' : A < 2 ^ 22) by lia.
  destruct (fmul_pack x (Z.shiftl (254 - e) 23)) as (Ey & _ & Ea & Hy). fold y in Ey, Ea, Hy.
  rewrite Z.shiftl_mul_pow2 in * by lia. set (i := (254 - e) * 2 ^ 23) in *.
  assert (Hi : 0 <= i < 2 ^ 31) by (unfold i; lia).
  assert (Mi : mag i = 2 ^ 23 * 2 ^ (253 - e)).
  { unfold mag, abs32. rewrite Z.mod_small by done. rewrite <- (decode_shift 23) by lia. f_equal. unfold i. lia. }
  destruct (decode_multiple 23 A (266 - e) ltac:(lia) ltac:(lia) ltac:(lia)) as (c & Hc & Ec).
  assert (Hprod : mag x * mag i = decode 23 c * 2 ^ 149).
  { rewrite Em, Mi, Ec, <- !Z.mul_assoc, <- !Z.pow_add_r by lia. do 2 f_equal. lia. }
  assert (Hsc : decode 23 c * 2 ^ e = mag x * 2 ^ 127).
  { rewrite Em, Ec, <- !Z.mul_assoc, <- !Z.pow_add_r by lia. do 2 f_equal. lia. }
  pose proof (Z.pow_pos_nonneg 2 e ltac:(lia) ltac:(lia)) as Hp.
  assert (Hle' : decode 23 c <= mag F448) by (rewrite <- Hsc in Hle; nia).
  assert (HcF : c <= F448).
  { destruct (Z.le_gt_cases c F448) as [|Hgt]; [done|]. pose proof (decode_lt 23 ltac:(lia) F448 c ltac:(unfold F448 in *; lia)) as Hd.
    change (mag F448) with (decode 23 F448) in Hle'. lia. }
  rewrite Hprod, round_exact in Ea by lia. rewrite Z.min_r in Ea by (unfold INF, F448 in *; lia).
  assert (My : mag y = decode 23 c) by (unfold mag; by rewrite Ea). split; [done|]. rewrite My. split; [done|]. split; [done|].
  rewrite Ey, neg_pack by (rewrite Ea; unfold F448 in *; lia).
  assert (neg i = false) as -> by (unfold neg; lia). apply xorb_false_r.
Qed.

Section RowOf.
Context (data scales : Z -> Z) (Hok : record_ok data scales) (v : Z -> Z) (Hv : v = decode_records data scales).

Lemma row_byte t c : 0 <= t < 7 -> 0 <= c < 64 ->
  nearest_even 3 (mag (v (t * 64 + c)) * 2 ^ 127) (2 ^ 140 * 2 ^ exponent v t) (v4_data v (t * 64 + c) mod 128) /\
  (128 <=? v4_data v (t * 64 + c)) = neg (v (t * 64 + c)).
Proof.
  intros Ht Hc. destruct (exponent_spec data scales t Hok Ht) as (E1 & E2 & _). rewrite <- Hv in E1, E2.
  destruct (record_value data scales (t * 64 + c) Hok ltac:(lia)) as (_ & A & HA). rewrite <- Hv in HA.
  destruct (scaled_exact _ A _ HA E1 (E2 c Hc)) as (Hy & Hsc & Hle & Hn).
  destruct (clamp_range _ Hy) as (Hz & Hzm & Hid). destruct (Hid Hle) as [Hmz Hnz].
  assert (Hg : (t * 64 + c) / 64 = t) by (rewrite Z.add_comm, Z.div_add, Z.div_small by lia; lia).
  set (y := fmul (v (t * 64 + c)) (Z.shiftl (254 - exponent v t) 23)) in *.
  assert (Eq : v4_data v (t * 64 + c) = to_e4m3 (clamp y)).
  { unfold v4_data, clipped, inverse. rewrite Hg. fold y. case_match; [done|lia]. }
  clearbody y. destruct (to_e4m3_split _ Hzm (mag_nonneg _)) as [S1 S2].
  rewrite Eq, S1, S2, Hmz, Hnz, <- Hsc. split; [|done]. clear -E1. pose proof (mag_nonneg y). pose proof (Z.pow_pos_nonneg 2 (exponent v t) ltac:(lia) ltac:(lia)).
  rewrite <- (round_scale 3 _ (2 ^ 140) (2 ^ exponent v t)) by lia. apply round_nearest; nia.
Qed.

Lemma row_rope c : 0 <= c < 64 ->
  let b := v4_data v (448 + 2 * c) + 256 * v4_data v (448 + 2 * c + 1) in
  decode 7 (b mod 2 ^ 15) * 2 ^ 16 = mag (v (448 + c)) /\ (2 ^ 15 <=? b) = neg (v (448 + c)).
Proof.
  intros Hc b. assert (Eb : b = to_bf16 (v (448 + c))).
  { unfold b, v4_data. destruct (Z.ltb_spec (448 + 2 * c) 448); [lia|]. destruct (Z.ltb_spec (448 + 2 * c + 1) 448); [lia|].
    replace (448 + 2 * c - 448) with (c * 2) by lia. replace (448 + 2 * c + 1 - 448) with (1 + c * 2) by lia.
    replace (448 + 2 * c) with ((224 + c) * 2) by lia. replace ((224 + c) * 2 + 1) with (1 + (224 + c) * 2) by lia.
    rewrite Z.div_mul, Z.mod_mul, Z.div_add, Z.mod_add by lia. change (1 / 2) with 0. change (1 mod 2) with 1.
    rewrite Z.add_0_l. pose proof (Z.div_mod (to_bf16 (v (448 + c))) 256 ltac:(lia)). cbn [Z.eqb]. lia. }
  destruct (record_value data scales (448 + c) Hok ltac:(lia)) as (_ & A & HA). rewrite <- Hv in HA.
  rewrite Eb. apply (to_bf16_value _ _ HA).
Qed.
End RowOf.

(** C5: a row holds the record's values: in each group of 64 the footer's exponent is the
    least of the scale's range at which no value exceeds 448, every byte is the e4m3 pattern
    nearest to the value on that scale, ties to even, the sign kept, and the 64 rope values
    are stored exactly. *)
Theorem v4_row_values data scales t c :
  record_ok data scales -> 0 <= t < 7 -> 0 <= c < 64 ->
  let v := decode_records data scales in
  let e := v4_footer v t in
  let q := v4_data v (t * 64 + c) in
  let b := v4_data v (448 + 2 * c) + 256 * v4_data v (448 + 2 * c + 1) in
  105 <= e <= 130 /\
  (forall c', 0 <= c' < 64 -> mag (v (t * 64 + c')) * 2 ^ 127 <= mag F448 * 2 ^ e) /\
  (e = 105 \/ exists c', 0 <= c' < 64 /\ mag F448 * 2 ^ (e - 1) < mag (v (t * 64 + c')) * 2 ^ 127) /\
  nearest_even 3 (mag (v (t * 64 + c)) * 2 ^ 127) (2 ^ 140 * 2 ^ e) (q mod 128) /\ (128 <=? q) = neg (v (t * 64 + c)) /\
  decode 7 (b mod 2 ^ 15) * 2 ^ 16 = mag (v (448 + c)) /\ (2 ^ 15 <=? b) = neg (v (448 + c)).
Proof.
  intros Hok Ht Hc v e q b. assert (He : e = exponent v t) by (unfold e, v4_footer; case_match; lia).
  destruct (exponent_spec data scales t Hok Ht) as (E1 & E2 & E3). rewrite He. split; [exact E1|]. split; [exact E2|]. split; [exact E3|].
  destruct (row_byte data scales Hok v eq_refl t c Ht Hc) as [B1 B2]. split; [exact B1|]. split; [exact B2|].
  exact (row_rope data scales Hok v eq_refl c Hc).
Qed.

(** ** Witnesses *)
Definition bytes_of (l : list Z) (i : Z) : Z := nth (Z.to_nat i) l 0.

(** A record of alternating codes and scales, the negative zero and a subnormal scale among
    them. *)
Definition record1 : (Z -> Z) * (Z -> Z) := ((fun i => (37 * i + 133) mod 256), (fun i => if i =? 3 then 5 else (96 + 5 * i) mod 120)).

Lemma record1_ok : record_ok record1.1 record1.2.
Proof.
  split; intros i Hi; simpl; [by apply Z.mod_pos_bound|].
  pose proof (Z.mod_pos_bound (96 + 5 * i) 120 ltac:(lia)). destruct (i =? 3); [by split|].
  split; [lia|]. rewrite Z.mod_small by lia. lia.
Qed.

Lemma e4m3_rn_nearest_witness :
  nearest_even 3 (mag 3204448256) (2 ^ 140) (_v41c_e4m3_rn 3204448256 mod 128) /\ (128 <=? _v41c_e4m3_rn 3204448256) = neg 3204448256.
Proof. apply (e4m3_rn_nearest 3204448256); [lia|vm_compute; discriminate]. Defined.

Lemma v4_row_values_witness :
  let v := decode_records record1.1 record1.2 in
  105 <= v4_footer v 2 <= 130 /\ (128 <=? v4_data v 133) = neg (v 133) /\
  nearest_even 3 (mag (v 133) * 2 ^ 127) (2 ^ 140 * 2 ^ v4_footer v 2) (v4_data v 133 mod 128).
Proof.
  destruct (v4_row_values record1.1 record1.2 2 5 record1_ok ltac:(lia) ltac:(lia)) as (H1 & _ & _ & H2 & H3 & _).
  split; [exact H1|]. split; [exact H3|exact H2].
Defined.
