(* ===== verification/V41cRows.v ===== *)
(** * V4 rows in 64-token pages (runtime/flashinfer_v41c/v41c.py)

    The memory a reader's transcode works on: compressed records in the pages of the pool's
    extra cache, V4 rows in the 64-token pages the stock kernels read, and the store of a row
    by the kernels' common body.  A transcode is a list of (token, slot) pairs; whatever the
    order its stores happen in, a slot holds the row of its token as soon as no slot is asked
    for twice with different tokens ([serves] is what every plan of V41cPlan promises). *)
From S2P Require Import Prelude FpBits Fp4Record.
#[local] Open Scope list_scope.
#[local] Open Scope Z_scope.

Definition DATA : Z := 256.
Definition SCALE : Z := 32.
Definition BPT_V4 : Z := 584.
Definition ROW : Z := 576.
Definition FOOT : Z := 8.
Definition SUB : Z := 64.
Definition SUB_PAGE_BYTES : Z := - (- (SUB * BPT_V4) / ROW) * ROW.
Definition TOKEN_MODE_MAX_ROWS : Z := 96.
Definition DEDUP_MAX_ENTRIES : Z := 4096.
Definition TOK_R : Z := 4.

(** ** The extra cache: pages of [pbs] records, [stride] bytes apart *)
Record extra := Extra { src : Z -> Z; pbs : Z; stride : Z; extra_pages : Z }.

Definition n_pool (x : extra) : Z := extra_pages x * pbs x.

(** [gather_records], and the kernel's loads. *)
Definition rec_data (x : extra) (tok i : Z) : Z := src x (tok / pbs x * stride x + tok mod pbs x * DATA + i).
Definition rec_scales (x : extra) (tok i : Z) : Z := src x (tok / pbs x * stride x + pbs x * DATA + tok mod pbs x * SCALE + i).

(** Every record of the pool is one the writer makes. *)
Definition pool_ok (x : extra) : Prop :=
  0 < pbs x /\ forall tok, 0 <= tok < n_pool x -> record_ok (rec_data x tok) (rec_scales x tok).

(** ** A row's bytes: 576 of data, then 8 of footer *)
Definition v4_row (x : extra) (tok i : Z) : Z :=
  let v := decode_records (rec_data x tok) (rec_scales x tok) in
  if i <? ROW then v4_data v i else v4_footer v (i - ROW).

(** Where byte [i] of slot [s] lies. *)
Definition row_addr (s i : Z) : Z :=
  if i <? ROW then s / SUB * SUB_PAGE_BYTES + s mod SUB * ROW + i
  else s / SUB * SUB_PAGE_BYTES + SUB * ROW + s mod SUB * FOOT + (i - ROW).

(** The stock kernels' view of a buffer of pages. *)
Definition view_row (dst : Z -> Z) (s i : Z) : Z := dst (row_addr s i).

(** [write_v4_rows] at one slot, of the reference row. *)
Definition write_v4_row (x : extra) (tok slot : Z) : list (Z * Z) :=
  (fun i => (row_addr slot i, v4_row x tok i)) <$> zrange 0 BPT_V4.
Definition transcode_tokens_torch (x : extra) (work : list (Z * Z)) : list (Z * Z) :=
  work ≫= fun '(tok, slot) => write_v4_row x tok slot.

(** [_v41c_rows]: the stores of [R] lanes, each a token, whether it is live, and a slot. *)
Definition _v41c_row (x : extra) (tok slot : Z) : list (Z * Z) :=
  let v := kernel_value (rec_data x tok) (rec_scales x tok) in
  ((fun i => (slot / 64 * 37440 + slot mod 64 * 576 + i, kernel_data v i)) <$> zrange 0 576) ++
  ((fun i => (slot / 64 * 37440 + 64 * 576 + slot mod 64 * 8 + i, v4_footer v i)) <$> zrange 0 8).
Definition _v41c_rows (x : extra) (lanes : list (Z * bool * Z)) : list (Z * Z) :=
  lanes ≫= fun '(tok, live, slot) => if (live : bool) then _v41c_row x tok slot else [].

(** ** What a plan promises *)

(** [work] is what is transcoded, [live p] says whether entry [p] of the [n] indices counts,
    [new_idx] is the rewritten index of an entry and [n_pages] the pages of the buffer. *)
Record serves (x : extra) (eidx : Z -> Z) (live : Z -> bool) (n : Z) (work : list (Z * Z)) (new_idx : Z -> Z) (n_pages : Z) : Prop := {
  sv_live p : 0 <= p < n -> live p = true -> (eidx p, new_idx p) ∈ work;
  sv_dead p : 0 <= p < n -> live p = false -> new_idx p = -1;
  sv_slots tok tok' s : (tok, s) ∈ work -> (tok', s) ∈ work -> tok = tok';
  sv_range tok s : (tok, s) ∈ work -> 0 <= s < SUB * n_pages /\ 0 <= tok < n_pool x
}.

(** What the kernels then read: an entry that counts reads the row the engine's own store
    would have written for its token, any other is masked; and no store leaves the buffer. *)
Definition reads_rows (x : extra) (eidx : Z -> Z) (live : Z -> bool) (n : Z) (dst : Z -> Z) (new_idx : Z -> Z) : Prop :=
  forall p, 0 <= p < n ->
    if live p then 0 <= new_idx p /\ forall i, 0 <= i < BPT_V4 -> view_row dst (new_idx p) i = v4_row x (eidx p) i
    else new_idx p = -1.

(** ** Addresses *)
Lemma page_bytes : SUB_PAGE_BYTES = 37440.
Proof. reflexivity. Qed.

Lemma row_addr_in s i : 0 <= s -> 0 <= i < BPT_V4 ->
  exists o, row_addr s i = s / SUB * SUB_PAGE_BYTES + o /\ 0 <= o < SUB_PAGE_BYTES /\
    o = (if i <? ROW then s mod SUB * ROW + i else SUB * ROW + s mod SUB * FOOT + (i - ROW)).
Proof.
  intros Hs Hi. rewrite page_bytes. unfold row_addr, SUB, ROW, FOOT, BPT_V4 in *. rewrite page_bytes.
  pose proof (Z.mod_pos_bound s 64 ltac:(lia)). destruct (Z.ltb_spec i 576); (eexists; split; [|split; [|reflexivity]]; lia).
Qed.

Lemma row_addr_inj s i s' i' : 0 <= s -> 0 <= s' -> 0 <= i < BPT_V4 -> 0 <= i' < BPT_V4 ->
  row_addr s i = row_addr s' i' -> s = s' /\ i = i'.
Proof.
  intros Hs Hs' Hi Hi' E. destruct (row_addr_in s i Hs Hi) as (o & Eo & Bo & Do). destruct (row_addr_in s' i' Hs' Hi') as (o' & Eo' & Bo' & Do').
  rewrite Eo, Eo' in E. rewrite page_bytes in *.
  assert (Hp : s / SUB = s' / SUB) by nia. assert (Ho : o = o') by nia. clear E Eo Eo'.
  unfold SUB, ROW, FOOT, BPT_V4 in *. pose proof (Z.mod_pos_bound s 64 ltac:(lia)). pose proof (Z.mod_pos_bound s' 64 ltac:(lia)).
  pose proof (Z.div_mod s 64 ltac:(lia)). pose proof (Z.div_mod s' 64 ltac:(lia)).
  assert (s mod 64 = s' mod 64 /\ i = i') as [Hm ->]; [|split; lia].
  destruct (Z.ltb_spec i 576), (Z.ltb_spec i' 576); lia.
Qed.

Lemma row_addr_bounds s i n : 0 <= s < SUB * n -> 0 <= i < BPT_V4 -> 0 <= row_addr s i < n * SUB_PAGE_BYTES.
Proof.
  intros Hs Hi. destruct (row_addr_in s i ltac:(lia) Hi) as (o & -> & Bo & _). rewrite page_bytes in *. unfold SUB in *.
  pose proof (Z.div_pos s 64 ltac:(lia) ltac:(lia)). pose proof (Z.div_lt_upper_bound s 64 n ltac:(lia) ltac:(lia)). nia.
Qed.

(** ** The kernel's stores are the reference's *)
Lemma kernel_row_eq x tok slot : record_ok (rec_data x tok) (rec_scales x tok) ->
  _v41c_row x tok slot = write_v4_row x tok slot.
Proof.
  intros Hok. unfold _v41c_row, write_v4_row. change BPT_V4 with 584.
  assert (E : zrange 0 584 = zrange 0 576 ++ ((fun i => 576 + i) <$> zrange 0 8)) by (vm_compute; reflexivity).
  rewrite E, fmap_app, <- list_fmap_compose. f_equal; apply list_fmap_ext; intros k i Hk%list_elem_of_lookup_2%zrange_elem; unfold row_addr, v4_row; simpl.
  - unfold ROW. destruct (Z.ltb_spec i 576); [|lia]. by rewrite (proj1 (kernel_row_bytes _ _ i Hok ltac:(lia))).
  - unfold ROW. destruct (Z.ltb_spec (576 + i) 576); [lia|]. replace (576 + i - 576) with i by lia.
    by rewrite (proj2 (kernel_row_bytes _ _ i Hok ltac:(lia))) by lia.
Qed.

Lemma elem_write x tok slot a v : (a, v) ∈ write_v4_row x tok slot <->
  exists i, 0 <= i < BPT_V4 /\ a = row_addr slot i /\ v = v4_row x tok i.
Proof.
  unfold write_v4_row. rewrite list_elem_of_fmap. split.
  - intros (i & [= -> ->] & Hi%zrange_elem). by exists i.
  - intros (i & Hi & -> & ->). exists i. split; [done|]. by apply zrange_elem.
Qed.

Lemma elem_transcode x work a v : (a, v) ∈ transcode_tokens_torch x work <->
  exists tok slot i, (tok, slot) ∈ work /\ 0 <= i < BPT_V4 /\ a = row_addr slot i /\ v = v4_row x tok i.
Proof.
  unfold transcode_tokens_torch. rewrite list_elem_of_bind. split.
  - intros ([tok slot] & (i & Hi)%elem_write & Hw). by exists tok, slot, i.
  - intros (tok & slot & i & Hw & Hi). exists (tok, slot). split; [|done]. apply elem_write. by exists i.
Qed.

(** Transcoding what a plan asks for, in any order of the stores. *)
Lemma serves_reads x eidx live n work new_idx n_pages dst stores :
  serves x eidx live n work new_idx n_pages -> stores ≡ₚ transcode_tokens_torch x work ->
  reads_rows x eidx live n (run_stores dst stores) new_idx /\
  (forall a v, (a, v) ∈ stores -> 0 <= a < n_pages * SUB_PAGE_BYTES).
Proof.
  intros S Hp. split.
  - intros p Hp'. destruct (live p) eqn:Hl; [|by eapply sv_dead]. pose proof (sv_live _ _ _ _ _ _ _ S p Hp' Hl) as Hw.
    pose proof (sv_range _ _ _ _ _ _ _ S _ _ Hw) as [Hs _]. split; [lia|]. intros i Hi. unfold view_row. apply run_stores_at.
    + rewrite Hp. apply elem_transcode. by exists (eidx p), (new_idx p), i.
    + intros v' Hv'. rewrite Hp in Hv'. apply elem_transcode in Hv' as (tok & slot & i' & Hw' & Hi' & Ha & ->).
      pose proof (sv_range _ _ _ _ _ _ _ S _ _ Hw') as [Hs' _]. apply row_addr_inj in Ha as [E1 E2]; [|lia|lia|done|done].
      subst i'. rewrite <- E1 in Hw'. by rewrite (sv_slots _ _ _ _ _ _ _ S _ _ _ Hw Hw').
  - intros a v Hv. rewrite Hp in Hv. apply elem_transcode in Hv as (tok & slot & i & Hw & Hi & -> & _).
    pose proof (sv_range _ _ _ _ _ _ _ S _ _ Hw) as [Hs _]. by apply row_addr_bounds.
Qed.

(** The kernel's body over lanes stores the rows of the live ones. *)
Definition lanes_work (lanes : list (Z * bool * Z)) : list (Z * Z) :=
  lanes ≫= fun '(tok, live, slot) => if (live : bool) then [(tok, slot)] else [].

Lemma rows_transcode x lanes : pool_ok x ->
  (forall tok slot, (tok, true, slot) ∈ lanes -> 0 <= tok < n_pool x) ->
  _v41c_rows x lanes = transcode_tokens_torch x (lanes_work lanes).
Proof.
  intros [_ Hok] Hl. unfold _v41c_rows, transcode_tokens_torch, lanes_work. induction lanes as [|[[tok live] slot] lanes IH]; [done|].
  cbn [mbind list_bind]. rewrite IH by (intros; eapply Hl; by right). destruct live; [|done].
  cbn [app mbind list_bind]. f_equal. apply kernel_row_eq, Hok, (Hl tok slot). by left.
Qed.

Lemma elem_lanes lanes tok slot : (tok, slot) ∈ lanes_work lanes <-> (tok, true, slot) ∈ lanes.
Proof.
  unfold lanes_work. rewrite list_elem_of_bind. split.
  - intros ([[t l] s] & H & Hin). destruct l; [|by apply elem_of_nil in H]. by apply list_elem_of_singleton in H as [= -> ->].
  - intros Hin. exists (tok, true, slot). split; [by left|done].
Qed.

(** Another list of the same pairs, another way to compute the same indices. *)
Lemma serves_iff x eidx live n work work' new_idx new_idx' n_pages :
  serves x eidx live n work new_idx n_pages -> (forall tok s, (tok, s) ∈ work' <-> (tok, s) ∈ work) ->
  (forall p, 0 <= p < n -> new_idx' p = new_idx p) -> serves x eidx live n work' new_idx' n_pages.
Proof.
  intros S Hw Hnew. split.
  - intros p Hp Hl. rewrite Hnew by done. apply Hw. by apply (sv_live _ _ _ _ _ _ _ S).
  - intros p Hp Hl. rewrite Hnew by done. by apply (sv_dead _ _ _ _ _ _ _ S).
  - intros tok tok' s H1%Hw H2%Hw. by apply (sv_slots _ _ _ _ _ _ _ S _ _ s).
  - intros tok s H1%Hw. by apply (sv_range _ _ _ _ _ _ _ S).
Qed.

(** A launch of programs over lanes, in any order. *)
Lemma launch_reads {P} x eidx live n (grid order : list P) (lanes : P -> list (Z * bool * Z)) new_idx n_pages dst :
  pool_ok x -> serves x eidx live n (lanes_work (grid ≫= lanes)) new_idx n_pages -> order ≡ₚ grid ->
  reads_rows x eidx live n (run_stores dst (order ≫= fun p => _v41c_rows x (lanes p))) new_idx /\
  (forall a v, (a, v) ∈ (order ≫= fun p => _v41c_rows x (lanes p)) -> 0 <= a < n_pages * SUB_PAGE_BYTES).
Proof.
  intros Hok S Ho. apply (serves_reads x eidx live n (lanes_work (grid ≫= lanes))); [done|]. rewrite Ho.
  transitivity (_v41c_rows x (grid ≫= lanes)); [unfold _v41c_rows; rewrite bind_assoc; reflexivity|].
  rewrite rows_transcode; [reflexivity|done|]. intros tok slot Hl%elem_lanes. by apply (sv_range _ _ _ _ _ _ _ S) in Hl as [_ ?].
Qed.
