(* ===== verification/V41cPlan.v ===== *)
(** * Transcode plans (runtime/flashinfer_v41c/v41c.py)

    Which tokens a call transcodes, into which slots, and the indices rewritten to those
    slots: one slot per entry, one per distinct token of a block of rows, or the touched
    64-token sub-pages of the pool compacted.  The torch planners and the Triton kernels that
    replace them are modelled separately, the kernels as programs with a list of stores each;
    every one of them is shown to be a plan in the sense of V41cRows' [serves]. *)
From S2P Require Import Prelude FpBits Fp4Record V41cRows.
#[local] Open Scope list_scope.
#[local] Open Scope Z_scope.

(** ** The entries of a call *)

(** [rows * k] indices in row-major order, and the rows' lengths when there are any. *)
Record call := Call { rows : Z; k : Z; eidx : Z -> Z; topk_len : option (Z -> Z) }.

Definition entries (c : call) : Z := rows c * k c.

Definition _live (c : call) (p : Z) : bool :=
  (0 <=? eidx c p) && match topk_len c with None => true | Some l => p mod k c <? l (p / k c) end.

(** A call on a pool: a live index is a token of the pool. *)
Definition call_ok (x : extra) (c : call) : Prop :=
  0 <= rows c /\ 0 < k c /\ forall p, 0 <= p < entries c -> _live c p = true -> eidx c p < n_pool x.

(** [dedup_block]: the rows of a block, by [dedup_rule]'s two numbers; 0 when there is none. *)
Definition dedup_block (g min_rows rows k : Z) : Z :=
  if (g <=? 1) || (rows <? Z.max min_rows 2) || negb (rows mod g =? 0) || (DEDUP_MAX_ENTRIES <? g * k) then 0 else g.

(** ** One slot per entry *)
Definition plan_token_mode (c : call) : list (Z * Z) * (Z -> Z) * Z :=
  ((fun p => (if 0 <=? eidx c p then eidx c p else 0, p)) <$> zrange 0 (entries c),
   fun p => if 0 <=? eidx c p then p else -1,
   - (- entries c / SUB)).

Definition plan_group_torch (c : call) : list (Z * Z) * (Z -> Z) :=
  ((fun p => (if _live c p then eidx c p else -1, p)) <$> zrange 0 (entries c),
   fun p => if _live c p then p else -1).

(** [_transcode_list_torch]: the tokens that are not -1. *)
Definition kept (work : list (Z * Z)) : list (Z * Z) := filter (fun w => 0 <= w.1) work.

(** The Triton kernel: program ([r], [c]) has lanes [j]. *)
Section PlanKernel.
Context (x : extra) (c : call) (R : Z).

Definition plan_lane (r j : Z) : bool :=
  let inr := j <? k c in
  let tok := if inr then eidx c (r * k c + j) else -1 in
  inr && (0 <=? tok) && match topk_len c with None => true | Some l => j <? l r end.

Definition plan_lanes (i : Z) : list Z := (fun l => i * R + l) <$> zrange 0 R.

Definition plan_idx_stores (r i : Z) : list (Z * Z) :=
  (fun j => (r * k c + j, if plan_lane r j then r * k c + j else -1)) <$> filter (fun j => j < k c) (plan_lanes i).
Definition plan_row_lanes (r i : Z) : list (Z * bool * Z) :=
  (fun j => (if j <? k c then eidx c (r * k c + j) else -1, plan_lane r j, r * k c + j)) <$> plan_lanes i.
Definition plan_row_stores (r i : Z) : list (Z * Z) :=
  if existsb (fun l => l.1.2) (plan_row_lanes r i) then _v41c_rows x (plan_row_lanes r i) else [].

Definition plan_grid : list (Z * Z) := zrange 0 (rows c) ≫= fun r => (fun i => (r, i)) <$> zrange 0 (cdiv (k c) R).
End PlanKernel.

(** ** One slot per distinct token of a block *)

(** A key carries its position in the low 13 bits. *)
Definition enc (p key : Z) : Z := Z.lor (Z.shiftl (key + 1) 13) p.
Definition skey (s : Z) : Z := Z.shiftr s 13 - 1.
Definition spos (s : Z) : Z := Z.land s 8191.

Fixpoint firsts (prev : Z) (l : list Z) : list bool :=
  match l with
  | [] => []
  | y :: l' => (negb (y =? prev) && (0 <=? y)) :: firsts y l'
  end.
Fixpoint cumsum (c : Z) (l : list bool) : list Z :=
  match l with
  | [] => []
  | b :: l' => let c' := c + (if b then 1 else 0) in c' :: cumsum c' l'
  end.

(** The sorted keys of a block, with the flags and ranks the code computes from them. *)
Definition sorted (keys : list Z) : list Z := merge_sort Z.le (imap (fun p key => enc (Z.of_nat p) key) keys).
Definition first (s : list Z) : list bool := firsts (-2) (map skey s).
Definition rank (s : list Z) : list Z := map (fun c => c - 1) (cumsum 0 (first s)).
Definition count (s : list Z) : Z := zlen (filter (fun b => b = true) (first s)).

Section Dedup.
Context (c : call) (g : Z).

Definition block_size : Z := g * k c.
Definition block_keys (b : Z) : list Z :=
  (fun p => if _live c (b * block_size + p) then eidx c (b * block_size + p) else -1) <$> zrange 0 block_size.

(** [plan_dedup_torch] on block [b]: the rewritten indices, the tokens and their number. *)
Definition dedup_new_flat (b : Z) : Z -> Z :=
  let s := sorted (block_keys b) in
  run_stores (fun _ => 0)
    (zip_with (fun y r => (spos y, if 0 <=? skey y then b * block_size + r else -1)) s (rank s)).
Definition dedup_toks (b : Z) : Z -> Z :=
  let s := sorted (block_keys b) in
  run_stores (fun _ => -1)
    (zip_with (fun y fr => (if (fr.1 : bool) then fr.2 else block_size, skey y)) s (zip (first s) (rank s))).
Definition dedup_count (b : Z) : Z := count (sorted (block_keys b)).

Definition plan_dedup_torch : list (Z * Z) * (Z -> Z) :=
  (zrange 0 (rows c / g) ≫= fun b => (fun r => (dedup_toks b r, b * block_size + r)) <$> zrange 0 block_size,
   fun p => dedup_new_flat (p / block_size) (p mod block_size)).
End Dedup.

(** The Triton kernel: program [b] sorts [N] entries, the ones past the block dead, and stores
    under masks. *)
Section DedupKernel.
Context (c : call) (G N : Z).

Definition kernel_key (b p : Z) : Z :=
  let n := G * k c in
  let inr := p <? n in
  let row := b * G + p / k c in
  let j := p mod k c in
  let tok := if inr then eidx c (row * k c + j) else -1 in
  let live := inr && (0 <=? tok) && match topk_len c with None => true | Some l => j <? (if inr then l row else 0) end in
  if live then tok else -1.

Definition kernel_sorted (b : Z) : list Z := sorted (kernel_key b <$> zrange 0 N).

Definition kernel_idx_stores (b : Z) : list (Z * Z) :=
  let n := G * k c in
  let s := kernel_sorted b in
  omap (fun yr => let '(y, r) := yr in
    if spos y <? n then Some ((b * G + spos y / k c) * k c + spos y mod k c, if 0 <=? skey y then b * n + r else -1) else None)
    (zip s (rank s)).
Definition kernel_tok_stores (b : Z) : list (Z * Z) :=
  let s := kernel_sorted b in
  ((fun p => (b * N + p, -1)) <$> zrange 0 N) ++
  omap (fun yfr => let '(y, (f, r)) := yfr in if (f : bool) then Some (b * N + r, skey y) else None) (zip s (zip (first s) (rank s))).
Definition kernel_count (b : Z) : Z := count (kernel_sorted b).
Definition kernel_cnt_stores (b : Z) : list (Z * Z) := [(b, kernel_count b)].

(** [_v41c_list_kernel], program ([b], [i]), on the arrays the first kernel left. *)
Definition list_lanes (R : Z) (toks cnt : Z -> Z) (b i : Z) : list (Z * bool * Z) :=
  let n := G * k c in
  let i0 := i * R in
  if i0 <? cnt b then
    (fun l => let q := i0 + l in
              let tok := if q <? cnt b then toks (b * N + q) else -1 in
              (tok, (q <? cnt b) && (0 <=? tok), b * n + q)) <$> zrange 0 R
  else [].
Definition list_grid (R : Z) : list (Z * Z) :=
  zrange 0 (rows c / G) ≫= fun b => (fun i => (b, i)) <$> zrange 0 (cdiv (G * k c) R).
End DedupKernel.

(** [triton.next_power_of_2] *)
Definition next_power_of_2 (n : Z) : Z := 2 ^ Z.log2_up n.

(** ** Keys *)
Lemma enc_sum p key : 0 <= p < 8192 -> -1 <= key -> enc p key = (key + 1) * 8192 + p.
Proof.
  intros Hp Hk. unfold enc. rewrite Z.shiftl_mul_pow2 by lia. apply lor_fields; lia.
Qed.

Lemma skey_enc p key : 0 <= p < 8192 -> -1 <= key -> skey (enc p key) = key.
Proof.
  intros Hp Hk. unfold skey. rewrite enc_sum, Z.shiftr_div_pow2 by done. change (2 ^ 13) with 8192.
  rewrite Z.add_comm, Z.div_add, Z.div_small by lia. lia.
Qed.

Lemma spos_enc p key : 0 <= p < 8192 -> -1 <= key -> spos (enc p key) = p.
Proof.
  intros Hp Hk. unfold spos. change 8191 with (Z.ones 13). rewrite Z.land_ones, enc_sum by done || lia. change (2 ^ 13) with 8192.
  by rewrite Z.add_comm, Z.mod_add, Z.mod_small by lia.
Qed.

Definition keys_ok (keys : list Z) : Prop := zlen keys <= 8192 /\ Forall (fun key => -1 <= key) keys.

(** The sorted list holds each position once, with its key. *)
Lemma sorted_elem keys y : keys_ok keys ->
  y ∈ sorted keys <-> exists p key, keys !! p = Some key /\ y = enc (Z.of_nat p) key /\ skey y = key /\ spos y = Z.of_nat p.
Proof.
  intros [Hn Hk]. unfold sorted. rewrite merge_sort_Permutation, list_elem_of_lookup. split.
  - intros [p Hy]. apply list_lookup_imap_Some in Hy as (key & Hp & ->). exists p, key.
    pose proof (lookup_lt_Some _ _ _ Hp). unfold zlen in Hn. rewrite Forall_lookup in Hk. specialize (Hk _ _ Hp).
    split; [done|]. split; [done|]. split; [apply skey_enc; lia|apply spos_enc; lia].
  - intros (p & key & Hp & -> & _). exists p. apply list_lookup_imap_Some. by exists key.
Qed.

Lemma sorted_pos_inj keys y y' : keys_ok keys -> y ∈ sorted keys -> y' ∈ sorted keys -> spos y = spos y' -> y = y'.
Proof.
  intros Hk (p & key & Hp & -> & _ & ->)%sorted_elem (p' & key' & Hp' & -> & _ & ->)%sorted_elem E; [|done|done].
  apply Nat2Z.inj in E as <-. congruence.
Qed.

(** ** Ranks *)

(** The distinct live keys in the order they come. *)
Fixpoint distincts (prev : Z) (l : list Z) : list Z :=
  match l with
  | [] => []
  | y :: l' => (if negb (y =? prev) && (0 <=? y) then [y] else []) ++ distincts y l'
  end.

(** An entry's rank is the place of its key. *)
Lemma rank_lookup acc prev l i y :
  (0 <= prev -> last acc = Some prev) -> l !! i = Some y -> 0 <= y ->
  exists r, cumsum (zlen acc) (firsts prev l) !! i = Some (r + 1) /\ 0 <= r /\ (acc ++ distincts prev l) !! Z.to_nat r = Some y.
Proof.
  revert acc prev i. induction l as [|y0 l IH]; intros acc prev i Hacc Hi Hy; [done|]. simpl.
  destruct (negb (y0 =? prev) && (0 <=? y0)) eqn:Ef.
  - rewrite app_assoc. assert (Hz : zlen acc + 1 = zlen (acc ++ [y0])) by (rewrite zlen_app, zlen_cons, zlen_nil; lia).
    rewrite Hz. destruct i as [|i]; simpl.
    + injection Hi as ->. exists (zlen acc). split; [f_equal; lia|]. split; [unfold zlen; lia|].
      rewrite <- app_assoc. rewrite lookup_app_r by (unfold zlen; lia). unfold zlen. by rewrite Nat2Z.id, Nat.sub_diag.
    + apply IH; [|done|done]. intros _. by rewrite last_snoc.
  - rewrite Z.add_0_r. simpl. destruct i as [|i]; simpl.
    + injection Hi as ->. assert (y = prev) as -> by (apply andb_false_iff in Ef as [Ef|Ef]; lia). specialize (Hacc Hy).
      rewrite last_lookup in Hacc. pose proof (lookup_lt_Some _ _ _ Hacc). exists (zlen acc - 1). split; [f_equal; lia|].
      unfold zlen. split; [lia|]. rewrite lookup_app_l by lia. rewrite <- Hacc. f_equal. lia.
    + apply IH; [|done|done]. intros H0. assert (y0 = prev) as -> by (apply andb_false_iff in Ef as [Ef|Ef]; lia). by apply Hacc.
Qed.

(** The entries that open a key are the distinct keys, ranked in order. *)
Lemma first_ranks c prev l :
  omap (fun yfr => let '(y, (f, r)) := yfr in if (f : bool) then Some (r - 1, y) else None)
       (zip l (zip (firsts prev l) (cumsum c (firsts prev l))))
  = imap (fun r y => (c + Z.of_nat r, y)) (distincts prev l).
Proof.
  revert c prev. induction l as [|y l IH]; intros c prev; [done|]. simpl.
  destruct (negb (y =? prev) && (0 <=? y)); simpl; rewrite IH.
  - f_equal; [f_equal; lia|]. apply imap_ext. intros i y' _. simpl. f_equal; lia.
  - apply imap_ext. intros i y' _. simpl. f_equal; lia.
Qed.

Lemma count_distincts prev l : zlen (filter (fun b => b = true) (firsts prev l)) = zlen (distincts prev l).
Proof.
  revert prev. induction l as [|y l IH]; intros prev; [done|]. cbn [firsts distincts]. rewrite filter_cons.
  destruct (negb (y =? prev) && (0 <=? y)); simpl; rewrite ?zlen_cons, IH; done.
Qed.

(** In a sorted list the distinct keys are increasing, and they are its live keys. *)
Lemma distincts_sorted prev l : Sorted Z.le l -> (forall y, y ∈ l -> prev <= y) ->
  StronglySorted Z.lt (distincts prev l) /\ forall y, y ∈ distincts prev l <-> y ∈ l /\ 0 <= y /\ y <> prev.
Proof.
  intros Hs. apply Sorted_StronglySorted in Hs; [|intros ???; lia]. revert prev. induction Hs as [|y l Hs IH Hy]; intros prev Hp.
  - split; [constructor|]. intros y. simpl. set_solver.
  - rewrite Forall_forall in Hy. destruct (IH y) as [S E]; [done|]. pose proof (Hp y ltac:(by left)) as Hpy. simpl.
    destruct (negb (y =? prev) && (0 <=? y)) eqn:Ef; simpl.
    + split.
      * constructor; [done|]. apply Forall_forall. intros z (Hz & _ & Hne)%E. specialize (Hy z Hz). lia.
      * intros z. rewrite !elem_of_cons, E. split; [intros [->|(H1 & H2 & H3)]; [split; [by left|lia]|]|].
        -- split; [by right|]. split; [done|]. specialize (Hy z H1). lia.
        -- intros ([->|H1] & H2 & H3); [by left|]. destruct (decide (z = y)) as [->|]; [by left|right; by repeat split].
    + split; [done|]. intros z. rewrite elem_of_cons, E. split.
      * intros (H1 & H2 & H3). split; [by right|]. split; [done|]. specialize (Hy z H1). lia.
      * intros ([->|H1] & H2 & H3); [apply andb_false_iff in Ef as [Ef|Ef]; lia|]. split; [done|]. split; [done|].
        intros ->. apply andb_false_iff in Ef as [Ef|Ef]; lia.
Qed.

(** Two increasing lists with the same elements are equal. *)
Lemma increasing_unique (l l' : list Z) : StronglySorted Z.lt l -> StronglySorted Z.lt l' -> (forall y, y ∈ l <-> y ∈ l') -> l = l'.
Proof.
  intros Hl Hl' E. assert (ND : forall l, StronglySorted Z.lt l -> NoDup l).
  { intros m Hm. induction Hm as [|y m _ IH Hy]; constructor; [|done]. intros Hin. rewrite Forall_forall in Hy. specialize (Hy y Hin). lia. }
  assert (W : forall l, StronglySorted Z.lt l -> StronglySorted Z.le l).
  { induction 1 as [|y m _ IH Hy]; constructor; [done|]. eapply Forall_impl; [exact Hy|]. intros; simpl in *; lia. }
  apply (StronglySorted_unique Z.le); [by apply W|by apply W|]. apply NoDup_Permutation; [by apply ND|by apply ND|exact E].
Qed.

(** ** A block's distinct tokens *)
Definition uniq (keys : list Z) : list Z := distincts (-2) (map skey (sorted keys)).

(** The slot of a key: its place among the block's distinct tokens. *)
Definition slot_of (keys : list Z) (key r : Z) : Prop := 0 <= r /\ uniq keys !! Z.to_nat r = Some key.

Lemma uniq_spec keys : keys_ok keys ->
  StronglySorted Z.lt (uniq keys) /\ forall y, y ∈ uniq keys <-> y ∈ keys /\ 0 <= y.
Proof.
  intros Hk. assert (Hm : forall y, y ∈ map skey (sorted keys) -> -1 <= y).
  { intros y (z & -> & Hz)%list_elem_of_fmap. apply sorted_elem in Hz as (p & key & Hp & _ & -> & _); [|done].
    destruct Hk as [_ Hk]. rewrite Forall_lookup in Hk. by eapply Hk. }
  destruct (distincts_sorted (-2) (map skey (sorted keys))) as [S E].
  - assert (Hs : Sorted Z.le (sorted keys)) by (apply Sorted_merge_sort; intros ??; lia). clear Hm.
    induction Hs as [|y l Hs IH Hy]; [constructor|]. simpl. constructor; [exact IH|]. destruct Hy as [|z l Hz]; [constructor|].
    simpl. constructor. unfold skey. rewrite !Z.shiftr_div_pow2 by lia. pose proof (Z.div_le_mono y z (2 ^ 13) ltac:(lia) Hz). lia.
  - intros y Hy. specialize (Hm y Hy). lia.
  - split; [exact S|]. intros y. unfold uniq. rewrite E. split.
    + intros (H & H0 & _). split; [|done]. apply list_elem_of_fmap in H as (z & -> & (p & key & Hp & _ & -> & _)%sorted_elem); [|done].
      by eapply list_elem_of_lookup_2.
    + intros (H & H0). split; [|split; [done|lia]]. apply list_elem_of_lookup in H as [p Hp]. apply list_elem_of_fmap.
      exists (enc (Z.of_nat p) y). split; [|apply sorted_elem; [done|]; exists p, y; repeat split; try done].
      all: destruct Hk as [Hn Hf]; pose proof (lookup_lt_Some _ _ _ Hp); unfold zlen in Hn.
      * by rewrite skey_enc by lia.
      * apply skey_enc; lia.
      * apply spos_enc; lia.
Qed.

Lemma uniq_NoDup keys : keys_ok keys -> NoDup (uniq keys).
Proof.
  intros [S _]%uniq_spec. induction S as [|y m _ IH Hy]; constructor; [|done]. intros Hin. rewrite Forall_forall in Hy. specialize (Hy y Hin). lia.
Qed.

Lemma slot_of_inj keys key r r' : keys_ok keys -> slot_of keys key r -> slot_of keys key r' -> r = r'.
Proof.
  intros Hk [H1 H2] [H3 H4]. pose proof (NoDup_lookup _ _ _ _ (uniq_NoDup keys Hk) H2 H4). lia.
Qed.

Lemma slot_of_bound keys key r : slot_of keys key r -> 0 <= r < zlen (uniq keys).
Proof. intros [H1 H2]. pose proof (lookup_lt_Some _ _ _ H2). unfold zlen. lia. Qed.

Lemma uniq_length keys : zlen (uniq keys) <= zlen keys.
Proof.
  assert (H : forall prev l, zlen (distincts prev l) <= zlen l).
  { intros prev l. revert prev. induction l as [|y l IH]; intros prev; [done|]. cbn [distincts]. rewrite zlen_app, zlen_cons. specialize (IH y).
    case_match; rewrite ?zlen_cons, ?zlen_nil; lia. }
  unfold uniq. etransitivity; [apply H|]. rewrite zlen_map. unfold sorted, zlen. by rewrite merge_sort_Permutation, length_imap.
Qed.

Lemma count_uniq keys : count (sorted keys) = zlen (uniq keys).
Proof. apply count_distincts. Qed.

Lemma rank_length s : length (rank s) = length s /\ length (first s) = length s.
Proof.
  assert (H : forall prev l, length (firsts prev l) = length l) by (intros prev l; revert prev; induction l; intros; simpl; auto).
  assert (H' : forall c l, length (cumsum c l) = length l) by (intros c l; revert c; induction l; intros; simpl; auto).
  unfold rank, first. by rewrite length_map, H', H, length_map.
Qed.

(** The rank computed for a live entry is its key's slot. *)
Lemma entry_rank keys i y r : sorted keys !! i = Some y -> rank (sorted keys) !! i = Some r -> 0 <= skey y -> slot_of keys (skey y) r.
Proof.
  intros Hi Hr Hy. destruct (rank_lookup [] (-2) (map skey (sorted keys)) i (skey y)) as (r' & Hc & H0 & Hu); [lia|by rewrite list_lookup_fmap, Hi|done|].
  unfold rank, first in Hr. rewrite list_lookup_fmap in Hr. change (zlen []) with 0 in Hc. rewrite Hc in Hr. simpl in Hr. injection Hr as <-.
  replace (r' + 1 - 1) with r' by lia. by split.
Qed.

(** The stores of the distinct tokens. *)
Lemma token_stores keys : 
  omap (fun yfr => let '(y, (f, r)) := yfr in if (f : bool) then Some (r, skey y) else None)
       (zip (sorted keys) (zip (first (sorted keys)) (rank (sorted keys))))
  = imap (fun r y => (Z.of_nat r, y)) (uniq keys).
Proof.
  transitivity (imap (fun r y => (0 + Z.of_nat r, y)) (uniq keys)); [|apply imap_ext; intros; by rewrite Z.add_0_l].
  unfold uniq. rewrite <- first_ranks. unfold rank, first. generalize (firsts (-2) (map skey (sorted keys))) as fs.
  intros fs. generalize (cumsum 0 fs) as cs. generalize (sorted keys) as s. revert fs.
  induction fs as [|f fs IH]; intros [|y s] [|c cs]; simpl; try done; destruct f; simpl; by rewrite IH.
Qed.

(** ** The rewritten indices of a block *)
Definition flat_stores (base : Z) (s : list Z) : list (Z * Z) :=
  zip_with (fun y r => (spos y, if 0 <=? skey y then base + r else -1)) s (rank s).

Lemma flat_stores_at keys base p key : keys_ok keys -> keys !! p = Some key ->
  exists v, (Z.of_nat p, v) ∈ flat_stores base (sorted keys) /\
    (forall v', (Z.of_nat p, v') ∈ flat_stores base (sorted keys) -> v' = v) /\
    (0 <= key -> exists r, slot_of keys key r /\ v = base + r) /\ (key < 0 -> v = -1).
Proof.
  intros Hk Hp. assert (Hy : enc (Z.of_nat p) key ∈ sorted keys).
  { apply sorted_elem; [done|]. exists p, key. pose proof (lookup_lt_Some _ _ _ Hp). destruct Hk as [Hn Hf]. unfold zlen in Hn.
    rewrite Forall_lookup in Hf. specialize (Hf _ _ Hp). repeat split; [done|apply skey_enc; lia|apply spos_enc; lia]. }
  assert (H : forall v, (Z.of_nat p, v) ∈ flat_stores base (sorted keys) ->
    (0 <= key -> exists r, slot_of keys key r /\ v = base + r) /\ (key < 0 -> v = -1)).
  { intros v (i & y & r & [= Epos ->] & Hi & Hr)%elem_of_lookup_zip_with. pose proof (list_elem_of_lookup_2 _ _ _ Hi) as Hin.
    pose proof Hin as (p' & key' & Hp' & _ & Ek & Es)%sorted_elem; [|done]. rewrite Es in Epos. apply Nat2Z.inj in Epos as <-.
    assert (key' = key) as -> by congruence. rewrite Ek. split.
    - intros H0. exists r. split; [rewrite <- Ek; apply (entry_rank _ i); [done|done|lia]|]. case_match; [done|lia].
    - intros H0. case_match; [lia|done]. }
  apply list_elem_of_lookup in Hy as [i Hi]. destruct (lookup_lt_is_Some_2 (rank (sorted keys)) i) as [r Hr].
  { rewrite (proj1 (rank_length _)). by eapply lookup_lt_Some. }
  destruct Hk as [Hn Hf]. pose proof (lookup_lt_Some _ _ _ Hp). unfold zlen in Hn. pose proof Hf as Hf'. rewrite Forall_lookup in Hf'. specialize (Hf' _ _ Hp).
  assert (Hin : (Z.of_nat p, if 0 <=? key then base + r else -1) ∈ flat_stores base (sorted keys)).
  { apply elem_of_lookup_zip_with. exists i, (enc (Z.of_nat p) key), r. rewrite skey_enc, spos_enc by lia. by repeat split. }
  eexists. split; [exact Hin|]. split; [|by apply H]. intros v' Hv'. destruct (H _ Hin) as [A1 A2]. destruct (H _ Hv') as [B1 B2].
  destruct (Z.lt_ge_cases key 0); [rewrite B2 by done; symmetry; by apply A2|].
  destruct (A1 ltac:(lia)) as (r1 & S1 & ->). destruct (B1 ltac:(lia)) as (r2 & S2 & ->). by rewrite (slot_of_inj keys key r1 r2).
Qed.

Lemma flat_stores_pos keys base p v : keys_ok keys -> (p, v) ∈ flat_stores base (sorted keys) -> 0 <= p < zlen keys.
Proof.
  intros Hk (i & y & r & [= -> _] & Hi & _)%elem_of_lookup_zip_with. pose proof (list_elem_of_lookup_2 _ _ _ Hi) as Hin.
  apply sorted_elem in Hin as (p & key & Hp & _ & _ & ->); [|done]. pose proof (lookup_lt_Some _ _ _ Hp). unfold zlen. lia.
Qed.

(** ** The torch plan of a block *)
Section Torch.
Context (c : call) (g : Z) (Hg : 0 < g * k c) (Hcap : g * k c <= DEDUP_MAX_ENTRIES).

Lemma block_lookup b q : 0 <= q < block_size c g ->
  block_keys c g b !! Z.to_nat q = Some (if _live c (b * block_size c g + q) then eidx c (b * block_size c g + q) else -1).
Proof.
  intros Hq. unfold block_keys. rewrite list_lookup_fmap. unfold zrange. rewrite (lookup_seqZ_lt) by lia. simpl. by rewrite Z2Nat.id by lia.
Qed.

Lemma block_length b : zlen (block_keys c g b) = block_size c g.
Proof. unfold block_keys. rewrite zlen_map. rewrite zrange_length; unfold block_size; lia. Qed.

Lemma block_keys_ok b : keys_ok (block_keys c g b).
Proof.
  split; [rewrite block_length; unfold block_size, DEDUP_MAX_ENTRIES in *; lia|]. apply Forall_fmap, Forall_forall.
  intros p Hp. simpl. unfold _live. case_match eqn:E; [apply andb_true_iff in E as [E _]|]; lia.
Qed.

Lemma dedup_new_flat_spec b q : 0 <= q < block_size c g ->
  if _live c (b * block_size c g + q)
  then exists r, slot_of (block_keys c g b) (eidx c (b * block_size c g + q)) r /\ dedup_new_flat c g b q = b * block_size c g + r
  else dedup_new_flat c g b q = -1.
Proof.
  intros Hq. pose proof (block_lookup b q Hq) as Hp.
  destruct (flat_stores_at _ (b * block_size c g) _ _ (block_keys_ok b) Hp) as (v & Hin & Hu & Hl & Hd). rewrite Z2Nat.id in * by lia.
  assert (E : dedup_new_flat c g b q = v) by (by apply run_stores_at). rewrite E.
  destruct (_live c _) eqn:L; [|by apply Hd]. apply Hl. unfold _live in L. apply andb_true_iff in L as [L _]. lia.
Qed.

Lemma dedup_toks_spec b r : 0 <= r < block_size c g ->
  dedup_toks c g b r = default (-1) (uniq (block_keys c g b) !! Z.to_nat r).
Proof.
  intros Hr. unfold dedup_toks. set (s := sorted (block_keys c g b)). set (l := zip_with _ _ _).
  assert (H : forall v, (r, v) ∈ l <-> uniq (block_keys c g b) !! Z.to_nat r = Some v).
  { intros v. transitivity ((r, v) ∈ imap (fun r y => (Z.of_nat r, y)) (uniq (block_keys c g b))).
    - rewrite <- token_stores. fold s. unfold l. rewrite elem_of_lookup_zip_with, list_elem_of_omap. split.
      + intros (i & y & [f r'] & [= Er ->] & Hi & Hfr). destruct f; simpl in Er; [|lia]. exists (y, (true, r')). split; [|by rewrite Er].
        apply list_elem_of_lookup. exists i. apply lookup_zip_with_Some. by exists y, (true, r').
      + intros ([y [f r']] & Hin & Hs). destruct f; [|done]. injection Hs as Er Ev. subst r' v. apply list_elem_of_lookup in Hin as [i Hi].
        apply lookup_zip_with_Some in Hi as (y' & fr & [= <- <-] & Hi & Hfr). by exists i, y, (true, r).
    - rewrite list_elem_of_lookup. split.
      + intros [i Hi]. apply list_lookup_imap_Some in Hi as (y & Hi & [= -> ->]). by rewrite Nat2Z.id.
      + intros Hu. exists (Z.to_nat r). apply list_lookup_imap_Some. exists v. split; [done|]. f_equal. lia. }
  destruct (uniq _ !! Z.to_nat r) as [v|] eqn:E; simpl.
  - apply run_stores_at; [by apply H|]. intros v' Hv'. apply H in Hv'. congruence.
  - rewrite run_stores_miss; [done|]. intros v Hv. apply H in Hv. congruence.
Qed.

Lemma dedup_count_spec b : dedup_count c g b = zlen (uniq (block_keys c g b)).
Proof. apply count_uniq. Qed.
End Torch.

(** ** Every plan serves *)
Lemma pages_of c : entries c <= SUB * (- (- entries c / SUB)).
Proof. pose proof (cdiv_spec (entries c) SUB ltac:(unfold SUB; lia)). unfold cdiv in *. lia. Qed.

Lemma elem_kept work tok s : (tok, s) ∈ kept work <-> 0 <= tok /\ (tok, s) ∈ work.
Proof. unfold kept. by rewrite list_elem_of_filter. Qed.

Lemma token_mode_serves x c : call_ok x c -> 0 < n_pool x -> (forall p, 0 <= p < entries c -> eidx c p < n_pool x) ->
  serves x (eidx c) (fun p => 0 <=? eidx c p) (entries c) (plan_token_mode c).1.1 (plan_token_mode c).1.2 (plan_token_mode c).2.
Proof.
  intros [Hr _] Hp He. pose proof (pages_of c). split; simpl.
  - intros p Hin Hl. rewrite Hl. apply list_elem_of_fmap. exists p. rewrite Hl. split; [done|]. by apply zrange_elem.
  - intros p _ Hl. by rewrite Hl.
  - by intros tok tok' s (p & [= -> ->] & _)%list_elem_of_fmap (p' & [= -> <-] & _)%list_elem_of_fmap.
  - intros tok s (p & [= -> ->] & Hin%zrange_elem)%list_elem_of_fmap. specialize (He p Hin). case_match; lia.
Qed.

Lemma live_nonneg c p : _live c p = true -> 0 <= eidx c p.
Proof. unfold _live. intros [H _]%andb_true_iff. lia. Qed.

Lemma group_serves x c : call_ok x c ->
  serves x (eidx c) (_live c) (entries c) (kept (plan_group_torch c).1) (plan_group_torch c).2 (- (- entries c / SUB)).
Proof.
  intros (Hr & Hk & He). pose proof (pages_of c). split; simpl.
  - intros p Hin Hl. rewrite Hl. apply elem_kept. split; [by apply live_nonneg|]. apply list_elem_of_fmap. exists p. rewrite Hl.
    split; [done|]. by apply zrange_elem.
  - intros p _ Hl. by rewrite Hl.
  - by intros tok tok' s [_ (p & [= -> ->] & _)%list_elem_of_fmap]%elem_kept [_ (p' & [= -> <-] & _)%list_elem_of_fmap]%elem_kept.
  - intros tok s [H0 (p & [= -> ->] & Hin%zrange_elem)%list_elem_of_fmap]%elem_kept. specialize (He p Hin). split; [lia|].
    destruct (_live c p); [specialize (He eq_refl)|]; lia.
Qed.

Lemma div_block n b q : 0 < n -> 0 <= q < n -> (b * n + q) / n = b /\ (b * n + q) mod n = q.
Proof. intros Hn Hq. rewrite Z.add_comm, Z.div_add, Z.mod_add, Z.div_small, Z.mod_small by lia. done. Qed.

Lemma block_inj n b q b' q' : 0 <= q < n -> 0 <= q' < n -> b * n + q = b' * n + q' -> b = b' /\ q = q'.
Proof. intros Hq Hq' E. destruct (div_block n b q ltac:(lia) Hq), (div_block n b' q' ltac:(lia) Hq'). split; congruence. Qed.

Lemma entry_block n p m : 0 < n -> 0 <= p < m * n -> p = p / n * n + p mod n /\ 0 <= p / n < m /\ 0 <= p mod n < n.
Proof.
  intros Hn Hp. pose proof (Z.div_mod p n ltac:(lia)). split; [lia|].
  split; [|by apply Z.mod_pos_bound]. split; [apply Z.div_pos; lia|apply Z.div_lt_upper_bound; lia].
Qed.

Section Blocks.
Context (x : extra) (c : call) (g : Z) (Hc : call_ok x c) (Hg : 1 < g) (Hdiv : rows c mod g = 0) (Hcap : g * k c <= DEDUP_MAX_ENTRIES).

Lemma blocks_entries : 0 < block_size c g /\ entries c = rows c / g * block_size c g /\ 0 <= rows c / g.
Proof.
  destruct Hc as (Hr & Hk & _). unfold block_size, entries. pose proof (Z.div_mod (rows c) g ltac:(lia)) as E. rewrite Hdiv in E.
  split; [nia|]. split; [|apply Z.div_pos; lia]. rewrite E at 1. lia.
Qed.

(** The token of a block's rank is live somewhere in the block. *)
Lemma uniq_token b key : 0 <= b < rows c / g -> key ∈ uniq (block_keys c g b) -> 0 <= key < n_pool x.
Proof.
  destruct blocks_entries as (Hn & He & _). destruct Hc as (_ & _ & Hl). intros Hb Hin.
  apply uniq_spec in Hin as [Hin H0]; [|apply block_keys_ok; unfold block_size in *; lia]. split; [done|].
  unfold block_keys in Hin. apply list_elem_of_fmap in Hin as (p & -> & Hp%zrange_elem).
  destruct (_live c (b * block_size c g + p)) eqn:L; [|lia]. apply Hl; [nia|done].
Qed.

(** What the torch plan transcodes: each distinct token of a block, in its slot. *)
Lemma dedup_work tok s : (tok, s) ∈ kept (plan_dedup_torch c g).1 <->
  exists b r, 0 <= b < rows c / g /\ slot_of (block_keys c g b) tok r /\ s = b * block_size c g + r.
Proof.
  destruct blocks_entries as (Hn & _). rewrite elem_kept. unfold plan_dedup_torch. simpl. rewrite list_elem_of_bind. split.
  - intros (H0 & b & (r & [= -> ->] & Hr%zrange_elem)%list_elem_of_fmap & Hb%zrange_elem). exists b, r. split; [done|]. split; [|done].
    rewrite (dedup_toks_spec c g) in * by done. split; [lia|]. destruct (uniq _ !! _) eqn:E; simpl in *; [done|lia].
  - intros (b & r & Hb & Hs & ->). pose proof (slot_of_bound _ _ _ Hs) as Hr. pose proof (uniq_length (block_keys c g b)) as Hu.
    rewrite (block_length c g Hn b) in Hu. destruct Hs as [_ Hs]. pose proof (list_elem_of_lookup_2 _ _ _ Hs) as Hin.
    split; [apply (uniq_token b tok Hb Hin)|]. exists b. split; [|by apply zrange_elem]. apply list_elem_of_fmap. exists r.
    rewrite (dedup_toks_spec c g) by lia. rewrite Hs. split; [done|]. apply zrange_elem. lia.
Qed.

Lemma dedup_serves : serves x (eidx c) (_live c) (entries c) (kept (plan_dedup_torch c g).1) (plan_dedup_torch c g).2 (- (- entries c / SUB)).
Proof.
  destruct blocks_entries as (Hn & He & Hnb). pose proof (pages_of c) as Hpg. assert (Hn' : 0 < g * k c) by exact Hn.
  split.
  - intros p Hp Hl. destruct (entry_block (block_size c g) p (rows c / g) Hn ltac:(lia)) as (E & Hb & Hq). apply dedup_work.
    pose proof (dedup_new_flat_spec c g Hn' Hcap (p / block_size c g) _ Hq) as Hf. rewrite <- E, Hl in Hf. destruct Hf as (r & Hs & Hf).
    by exists (p / block_size c g), r.
  - intros p Hp Hl. destruct (entry_block (block_size c g) p (rows c / g) Hn ltac:(lia)) as (E & Hb & Hq).
    pose proof (dedup_new_flat_spec c g Hn' Hcap (p / block_size c g) _ Hq) as Hf. by rewrite <- E, Hl in Hf.
  - intros tok tok' s (b & r & Hb & Hs & ->)%dedup_work (b' & r' & Hb' & Hs' & Es)%dedup_work.
    pose proof (slot_of_bound _ _ _ Hs). pose proof (slot_of_bound _ _ _ Hs'). pose proof (uniq_length (block_keys c g b)). pose proof (uniq_length (block_keys c g b')).
    rewrite !(block_length c g Hn') in *. apply block_inj in Es as [<- <-]; [|lia|lia]. destruct Hs as [_ Hs], Hs' as [_ Hs']. congruence.
  - intros tok s (b & r & Hb & Hs & ->)%dedup_work. pose proof (slot_of_bound _ _ _ Hs). pose proof (uniq_length (block_keys c g b)).
    rewrite (block_length c g Hn') in *. split; [nia|]. destruct Hs as [_ Hs]. apply (uniq_token b tok Hb). by eapply list_elem_of_lookup_2.
Qed.

(** Entries of a block that share a token share its slot, and only those. *)
Lemma dedup_shares p p' : 0 <= p < entries c -> 0 <= p' < entries c -> p / (g * k c) = p' / (g * k c) ->
  _live c p = true -> _live c p' = true -> ((plan_dedup_torch c g).2 p = (plan_dedup_torch c g).2 p' <-> eidx c p = eidx c p').
Proof.
  destruct blocks_entries as (Hn & He & _). intros Hp Hp' Eb L L'. change (g * k c) with (block_size c g) in Eb.
  destruct (entry_block (block_size c g) p (rows c / g) Hn ltac:(lia)) as (E & Hb & Hq).
  destruct (entry_block (block_size c g) p' (rows c / g) Hn ltac:(lia)) as (E' & Hb' & Hq').
  pose proof (dedup_new_flat_spec c g Hn Hcap (p / block_size c g) _ Hq) as H1. rewrite <- E, L in H1.
  pose proof (dedup_new_flat_spec c g Hn Hcap (p' / block_size c g) _ Hq') as H2. rewrite <- E', L' in H2.
  unfold plan_dedup_torch. cbn [snd]. destruct H1 as (r & Hs & ->), H2 as (r' & Hs' & ->). rewrite <- Eb in *. split.
  - intros Hr. assert (r = r') as <- by lia. destruct Hs as [_ Hs], Hs' as [_ Hs']. congruence.
  - intros Hk. rewrite Hk in Hs. f_equal. apply (slot_of_inj _ _ _ _ (block_keys_ok c g Hn Hcap _) Hs Hs').
Qed.
End Blocks.

(** ** The kernel with one slot per entry *)
Section PlanKernelFacts.
Context (x : extra) (c : call) (R : Z) (Hc : call_ok x c) (HR : 0 < R).

Lemma plan_lane_live r j : 0 <= r -> 0 <= j < k c -> plan_lane c r j = _live c (r * k c + j).
Proof.
  intros Hr Hj. unfold plan_lane, _live. destruct (div_block (k c) r j ltac:(lia) Hj) as [-> ->].
  destruct (Z.ltb_spec j (k c)); [|lia]. done.
Qed.

Lemma elem_plan_grid r i : (r, i) ∈ plan_grid c R <-> 0 <= r < rows c /\ 0 <= i < cdiv (k c) R.
Proof.
  unfold plan_grid. rewrite list_elem_of_bind. split.
  - by intros (r' & (i' & [= -> ->] & ?%zrange_elem)%list_elem_of_fmap & ?%zrange_elem).
  - intros [Hr Hi]. exists r. split; [|by apply zrange_elem]. apply list_elem_of_fmap. exists i. split; [done|]. by apply zrange_elem.
Qed.

Lemma elem_plan_lanes i j : j ∈ plan_lanes R i <-> i * R <= j < i * R + R.
Proof.
  unfold plan_lanes. rewrite list_elem_of_fmap. split.
  - intros (l & -> & Hl%zrange_elem). lia.
  - intros Hj. exists (j - i * R). split; [lia|]. apply zrange_elem. lia.
Qed.

(** Every entry of a row is the lane of one program. *)
Lemma plan_program r j : 0 <= r < rows c -> 0 <= j < k c -> (r, j / R) ∈ plan_grid c R /\ j ∈ plan_lanes R (j / R).
Proof.
  intros Hr Hj. pose proof (cdiv_spec (k c) R HR). pose proof (Z.div_mod j R ltac:(lia)). pose proof (Z.mod_pos_bound j R HR).
  rewrite elem_plan_grid, elem_plan_lanes. split; [|lia]. split; [done|]. split; [apply Z.div_pos; lia|]. nia.
Qed.

Lemma plan_row_stores_lanes r i : plan_row_stores x c R r i = _v41c_rows x (plan_row_lanes c R r i).
Proof.
  unfold plan_row_stores. destruct (existsb _ _) eqn:E; [done|]. symmetry. unfold _v41c_rows.
  induction (plan_row_lanes c R r i) as [|[[tok l] s] lanes IH]; [done|]. cbn [existsb mbind list_bind] in *.
  apply orb_false_iff in E as [E1 E2]. simpl in E1. subst l. simpl. by apply IH.
Qed.

Lemma plan_idx_at order m p : order ≡ₚ plan_grid c R -> 0 <= p < entries c ->
  run_stores m (order ≫= fun ri => plan_idx_stores c R ri.1 ri.2) p = (plan_group_torch c).2 p.
Proof.
  intros Ho Hp. destruct Hc as (Hr & Hk & _). destruct (entry_block (k c) p (rows c) Hk Hp) as (E & Hb & Hq).
  assert (Hall : forall v, (p, v) ∈ (order ≫= fun ri => plan_idx_stores c R ri.1 ri.2) -> v = (plan_group_torch c).2 p).
  { intros v ([r i] & (j & [= Ep ->] & [Hj Hl]%list_elem_of_filter)%list_elem_of_fmap & Hg)%list_elem_of_bind. rewrite Ho in Hg.
    apply elem_plan_grid in Hg as [Hr' Hi']. apply elem_plan_lanes in Hl. simpl in *. assert (0 <= j) by nia.
    rewrite plan_lane_live, <- Ep by lia. done. }
  apply run_stores_at; [|done]. destruct (plan_program (p / k c) (p mod k c) Hb Hq) as [Hg Hl].
  apply list_elem_of_bind. exists (p / k c, p mod k c / R). split; [|by rewrite Ho]. apply list_elem_of_fmap. exists (p mod k c). simpl.
  rewrite <- E. split; [|apply list_elem_of_filter; split; [lia|done]]. rewrite plan_lane_live, <- E by lia. done.
Qed.

Lemma plan_kernel_serves new_idx : (forall p, 0 <= p < entries c -> new_idx p = (plan_group_torch c).2 p) ->
  serves x (eidx c) (_live c) (entries c) (lanes_work (plan_grid c R ≫= fun ri => plan_row_lanes c R ri.1 ri.2)) new_idx (- (- entries c / SUB)).
Proof.
  intros Hnew. pose proof (group_serves x c Hc) as S. destruct Hc as (Hr & Hk & _).
  assert (Hw : forall tok s, (tok, s) ∈ lanes_work (plan_grid c R ≫= fun ri => plan_row_lanes c R ri.1 ri.2) <-> (tok, s) ∈ kept (plan_group_torch c).1).
  { intros tok s. rewrite elem_lanes, elem_kept. unfold plan_group_torch. cbn [fst]. rewrite list_elem_of_bind, list_elem_of_fmap. split.
    - intros ([r i] & (j & [= -> El ->] & Hl)%list_elem_of_fmap & Hg). apply elem_plan_grid in Hg as [Hr' Hi']. apply elem_plan_lanes in Hl. simpl in *.
      assert (Hj : j < k c) by (unfold plan_lane in El; destruct (Z.ltb_spec j (k c)); [done|discriminate]). assert (0 <= j) by nia.
      rewrite plan_lane_live in El by lia. destruct (Z.ltb_spec j (k c)); [|lia]. split; [by apply live_nonneg|].
      exists (r * k c + j). rewrite <- El. split; [done|]. apply zrange_elem. unfold entries. nia.
    - intros (H0 & p & [= -> ->] & Hp%zrange_elem). destruct (entry_block (k c) p (rows c) Hk Hp) as (E & Hb & Hq).
      destruct (_live c p) eqn:L; [|lia]. destruct (plan_program (p / k c) (p mod k c) Hb Hq) as [Hg Hl].
      exists (p / k c, p mod k c / R). split; [|done]. apply list_elem_of_fmap. exists (p mod k c). simpl.
      rewrite plan_lane_live, <- E, L by lia. destruct (Z.ltb_spec (p mod k c) (k c)); [done|lia]. }
  exact (serves_iff _ _ _ _ _ _ _ _ _ S Hw Hnew).
Qed.
End PlanKernelFacts.

(** ** The deduplicating kernel *)
Section DedupKernelFacts.
Context (x : extra) (c : call) (G N : Z) (Hc : call_ok x c) (HG : 1 < G) (Hdiv : rows c mod G = 0) (Hcap : G * k c <= DEDUP_MAX_ENTRIES)
  (HN : G * k c <= N <= 8192).

Local Notation n := (G * k c).
Local Notation kkeys b := (kernel_key c G b <$> zrange 0 N).

Lemma kernel_key_block b q : 0 <= q -> kernel_key c G b q = if q <? n then (if _live c (b * n + q) then eidx c (b * n + q) else -1) else -1.
Proof.
  intros Hq. destruct Hc as (_ & Hk & _). unfold kernel_key, _live. cbv zeta. destruct (q <? n) eqn:E; [|done].
  pose proof (Z.div_mod q (k c) ltac:(lia)) as Eq. pose proof (Z.mod_pos_bound q (k c) Hk) as Hm.
  assert (Ea : b * n + q = (b * G + q / k c) * k c + q mod k c) by nia. rewrite Ea.
  destruct (div_block (k c) (b * G + q / k c) (q mod k c) Hk Hm) as [-> ->]. done.
Qed.

Lemma kkeys_lookup b q : 0 <= q < N -> kkeys b !! Z.to_nat q = Some (kernel_key c G b q).
Proof. intros Hq. rewrite list_lookup_fmap. unfold zrange. rewrite lookup_seqZ_lt by lia. simpl. do 2 f_equal. lia. Qed.

Lemma kkeys_length b : zlen (kkeys b) = N.
Proof. rewrite zlen_map, zrange_length; [lia|]. destruct (blocks_entries x c G Hc HG Hdiv) as (H & _). unfold block_size in H. lia. Qed.

Lemma kkeys_ok b : keys_ok (kkeys b).
Proof.
  split; [rewrite kkeys_length; lia|]. apply Forall_fmap, Forall_forall. intros q Hq%zrange_elem. simpl. rewrite kernel_key_block by lia.
  unfold _live. case_match; [|lia]. case_match eqn:E; [apply andb_true_iff in E as [E _]|]; lia.
Qed.

Lemma n_pos : 0 < n.
Proof. destruct (blocks_entries x c G Hc HG Hdiv) as (H & _). exact H. Qed.

(** The entries past the block do not count. *)
Lemma kernel_uniq b : uniq (kkeys b) = uniq (block_keys c G b).
Proof.
  pose proof n_pos as Hn. destruct (uniq_spec _ (kkeys_ok b)) as [S1 E1]. destruct (uniq_spec _ (block_keys_ok c G Hn Hcap b)) as [S2 E2].
  apply increasing_unique; [done|done|]. intros y. rewrite E1, E2. unfold block_keys, block_size. rewrite !list_elem_of_fmap. split.
  - intros [(q & -> & Hq%zrange_elem) H0]. split; [|done]. rewrite kernel_key_block in * by lia. destruct (q <? n) eqn:E; [|lia].
    exists q. split; [done|]. apply zrange_elem. lia.
  - intros [(q & -> & Hq%zrange_elem) H0]. split; [|done]. exists q. split; [|apply zrange_elem; lia].
    rewrite kernel_key_block by lia. destruct (Z.ltb_spec q n); [done|lia].
Qed.

Lemma kernel_count_eq b : kernel_count c G N b = dedup_count c G b.
Proof. unfold kernel_count, kernel_sorted, dedup_count. by rewrite !count_uniq, <- kernel_uniq. Qed.

Lemma elem_kernel_idx b a v : (a, v) ∈ kernel_idx_stores c G N b <->
  exists q, 0 <= q < n /\ a = b * n + q /\ (q, v) ∈ flat_stores (b * n) (kernel_sorted c G N b).
Proof.
  destruct Hc as (_ & Hk & _). unfold kernel_idx_stores. rewrite list_elem_of_omap. split.
  - intros ([y r] & Hin & Hs). destruct (spos y <? n) eqn:E; [|done]. injection Hs as Ha Hv. apply list_elem_of_lookup in Hin as [i Hi].
    apply lookup_zip_with_Some in Hi as (y' & r' & [= <- <-] & Hy & Hr).
    assert (Hf : (spos y, v) ∈ flat_stores (b * n) (kernel_sorted c G N b)) by (apply elem_of_lookup_zip_with; exists i, y, r; by rewrite Hv).
    exists (spos y). pose proof (flat_stores_pos _ _ _ _ (kkeys_ok b) Hf). split; [lia|]. split; [|done]. subst a.
    pose proof (Z.div_mod (spos y) (k c) ltac:(lia)). nia.
  - intros (q & Hq & -> & (i & y & r & [= Eq ->] & Hy & Hr)%elem_of_lookup_zip_with). exists (y, r). split.
    + apply list_elem_of_lookup. exists i. apply lookup_zip_with_Some. by exists y, r.
    + rewrite <- Eq. destruct (Z.ltb_spec q n); [|lia]. do 2 f_equal. pose proof (Z.div_mod q (k c) ltac:(lia)). nia.
Qed.

Lemma kernel_idx_at order m p : order ≡ₚ zrange 0 (rows c / G) -> 0 <= p < entries c ->
  run_stores m (order ≫= kernel_idx_stores c G N) p = (plan_dedup_torch c G).2 p.
Proof.
  intros Ho Hp. pose proof n_pos as Hn. destruct (blocks_entries x c G Hc HG Hdiv) as (_ & He & _). unfold plan_dedup_torch. cbn [snd].
  destruct (entry_block (block_size c G) p (rows c / G) Hn ltac:(lia)) as (E & Hb & Hq). unfold block_size in *.
  set (b := p / n) in *. set (q := p mod n) in *. clearbody b q.
  assert (Hlk : kkeys b !! Z.to_nat q = Some (if _live c p then eidx c p else -1)).
  { rewrite kkeys_lookup, kernel_key_block by lia. destruct (Z.ltb_spec q n); [|lia]. by rewrite E. }
  destruct (flat_stores_at _ (b * n) _ _ (kkeys_ok b) Hlk) as (v & Hin & Hu & Hl & Hd). rewrite Z2Nat.id in * by lia.
  assert (Ev : v = dedup_new_flat c G b q).
  { pose proof (dedup_new_flat_spec c G Hn Hcap b q Hq) as Hf. unfold block_size in Hf. rewrite <- E in Hf.
    destruct (_live c p) eqn:L; [|rewrite Hf; by apply Hd]. destruct Hf as (r & [Hr Hs] & ->).
    destruct (Hl (live_nonneg _ _ L)) as (r' & Hs' & ->). f_equal. apply (slot_of_inj _ _ _ _ (kkeys_ok b) Hs'). split; [done|]. by rewrite kernel_uniq. }
  rewrite <- Ev. apply run_stores_at.
  - apply list_elem_of_bind. exists b. split; [|rewrite Ho; by apply zrange_elem]. apply elem_kernel_idx. by exists q.
  - intros v' (b' & Hv' & Hb')%list_elem_of_bind. apply elem_kernel_idx in Hv' as (q' & Hq' & Ea & Hv').
    rewrite E in Ea. apply block_inj in Ea as [<- <-]; [|done|done]. by apply Hu.
Qed.

Lemma elem_kernel_tok b a v : (a, v) ∈ omap (fun yfr : Z * (bool * Z) => let '(y, (f, r)) := yfr in if f then Some (b * N + r, skey y) else None)
    (zip (kernel_sorted c G N b) (zip (first (kernel_sorted c G N b)) (rank (kernel_sorted c G N b)))) <->
  exists r, 0 <= r /\ a = b * N + r /\ uniq (block_keys c G b) !! Z.to_nat r = Some v.
Proof.
  rewrite <- kernel_uniq. transitivity (exists r, a = b * N + r /\ (r, v) ∈ imap (fun r y => (Z.of_nat r, y)) (uniq (kkeys b))).
  - rewrite <- token_stores. fold (kernel_sorted c G N b). setoid_rewrite list_elem_of_omap. split.
    + intros ([y [f r]] & Hin & Hs). destruct f; [|done]. injection Hs as <- <-. exists r. split; [done|]. by exists (y, (true, r)).
    + intros (r & -> & [y [f r']] & Hin & Hs). destruct f; [|done]. injection Hs as <- <-. by exists (y, (true, r')).
  - setoid_rewrite list_elem_of_lookup. split.
    + intros (r & -> & i & (y & Hi & [= -> ->])%list_lookup_imap_Some). exists (Z.of_nat i). rewrite Nat2Z.id. repeat split; [lia|done].
    + intros (r & Hr & -> & Hu). exists r. split; [done|]. exists (Z.to_nat r). apply list_lookup_imap_Some. exists v. split; [done|]. f_equal. lia.
Qed.

Lemma kernel_tok_at order m b r : order ≡ₚ zrange 0 (rows c / G) -> 0 <= b < rows c / G -> 0 <= r < N ->
  run_stores m (order ≫= kernel_tok_stores c G N) (b * N + r) = default (-1) (uniq (block_keys c G b) !! Z.to_nat r).
Proof.
  intros Ho Hb Hr. pose proof n_pos as Hn. rewrite (run_stores_bind m _ order b).
  - unfold kernel_tok_stores. rewrite run_stores_app. destruct (uniq _ !! _) as [v|] eqn:E; simpl.
    + apply run_stores_at; [apply elem_kernel_tok; exists r; repeat split; [lia|done]|]. intros v' (r' & Hr' & Ea & Hv')%elem_kernel_tok.
      assert (r' = r) as -> by lia. congruence.
    + rewrite run_stores_miss.
      * apply run_stores_at; [apply list_elem_of_fmap; exists r; split; [done|]; apply zrange_elem; lia|].
        by intros v' (r' & [= _ ->] & _)%list_elem_of_fmap.
      * intros v (r' & Hr' & Ea & Hv')%elem_kernel_tok. assert (r' = r) as -> by lia. congruence.
  - rewrite Ho. apply NoDup_seqZ.
  - rewrite Ho. by apply zrange_elem.
  - intros b' v _ Hv. unfold kernel_tok_stores in Hv. apply elem_of_app in Hv as [(q & [= Ea _] & Hq%zrange_elem)%list_elem_of_fmap|(q & H0 & Ea & Hq)%elem_kernel_tok].
    + by apply block_inj in Ea as [<- _]; [|lia|lia].
    + apply lookup_lt_Some in Hq. pose proof (uniq_length (block_keys c G b')) as Hu. rewrite (block_length c G Hn) in Hu. unfold zlen, block_size in Hu.
      by apply block_inj in Ea as [<- _]; [|lia|lia].
Qed.

Lemma kernel_cnt_at order m b : order ≡ₚ zrange 0 (rows c / G) -> 0 <= b < rows c / G ->
  run_stores m (order ≫= kernel_cnt_stores c G N) b = zlen (uniq (block_keys c G b)).
Proof.
  intros Ho Hb. pose proof n_pos as Hn. rewrite <- (dedup_count_spec c G), <- kernel_count_eq. apply run_stores_at.
  - apply list_elem_of_bind. exists b. split; [by left|]. rewrite Ho. by apply zrange_elem.
  - by intros v (b' & [= <- ->]%list_elem_of_singleton & _)%list_elem_of_bind.
Qed.

(** The second kernel transcodes each block's distinct tokens, each in its slot. *)
Lemma list_kernel_work R toks cnt : 0 < R ->
  (forall b, 0 <= b < rows c / G -> cnt b = zlen (uniq (block_keys c G b)) /\
    forall r, 0 <= r < N -> toks (b * N + r) = default (-1) (uniq (block_keys c G b) !! Z.to_nat r)) ->
  forall tok s, (tok, s) ∈ lanes_work (list_grid c G R ≫= fun bi => list_lanes c G N R toks cnt bi.1 bi.2) <->
    exists b r, 0 <= b < rows c / G /\ slot_of (block_keys c G b) tok r /\ s = b * n + r.
Proof.
  intros HR Harr tok s. pose proof n_pos as Hn. rewrite elem_lanes, list_elem_of_bind. unfold list_grid. split.
  - intros ([b i] & Hl & (b' & (i' & [= -> ->] & Hi%zrange_elem)%list_elem_of_fmap & Hb%zrange_elem)%list_elem_of_bind).
    destruct (Harr b' Hb) as [Ec Et]. unfold list_lanes in Hl. simpl in Hl. destruct (i' * R <? cnt b') eqn:E0; [|by apply elem_of_nil in Hl].
    apply list_elem_of_fmap in Hl as (l & [= -> El ->] & Hl%zrange_elem). symmetry in El. apply andb_true_iff in El as [E1 E2].
    assert (Hq : 0 <= i' * R + l < cnt b') by nia. destruct (Z.ltb_spec (i' * R + l) (cnt b')); [|lia].
    pose proof (uniq_length (block_keys c G b')) as Hu. rewrite (block_length c G Hn) in Hu. unfold block_size in Hu.
    rewrite Et in E2 |- * by lia. exists b', (i' * R + l). split; [done|]. split; [|done]. split; [lia|].
    destruct (uniq _ !! _); simpl in *; [done|lia].
  - intros (b & r & Hb & Hs & ->). destruct (Harr b Hb) as [Ec Et]. pose proof (slot_of_bound _ _ _ Hs) as Hr.
    pose proof (uniq_length (block_keys c G b)) as Hu. rewrite (block_length c G Hn) in Hu. unfold block_size in Hu.
    destruct Hs as [_ Hs]. pose proof (uniq_token x c G Hc HG Hdiv Hcap b tok Hb (list_elem_of_lookup_2 _ _ _ Hs)) as Ht.
    pose proof (cdiv_spec n R HR). pose proof (Z.div_mod r R ltac:(lia)). pose proof (Z.mod_pos_bound r R HR).
    exists (b, r / R). split.
    + unfold list_lanes. simpl. destruct (Z.ltb_spec (r / R * R) (cnt b)); [|lia]. apply list_elem_of_fmap. exists (r mod R).
      replace (r / R * R + r mod R) with r by lia. rewrite Et, Hs by lia. split; [|apply zrange_elem; lia].
      destruct (Z.ltb_spec r (cnt b)); [|lia]. simpl. do 2 f_equal. destruct (Z.leb_spec 0 tok); [done|lia].
    + apply list_elem_of_bind. exists b. split; [|by apply zrange_elem]. apply list_elem_of_fmap. exists (r / R). split; [done|].
      apply zrange_elem. split; [apply Z.div_pos; lia|nia].
Qed.

Lemma dedup_kernel_serves R toks cnt new_idx : 0 < R ->
  (forall b, 0 <= b < rows c / G -> cnt b = zlen (uniq (block_keys c G b)) /\
    forall r, 0 <= r < N -> toks (b * N + r) = default (-1) (uniq (block_keys c G b) !! Z.to_nat r)) ->
  (forall p, 0 <= p < entries c -> new_idx p = (plan_dedup_torch c G).2 p) ->
  serves x (eidx c) (_live c) (entries c) (lanes_work (list_grid c G R ≫= fun bi => list_lanes c G N R toks cnt bi.1 bi.2)) new_idx
    (- (- entries c / SUB)).
Proof.
  intros HR Harr Hnew. apply (serves_iff _ _ _ _ _ _ _ _ _ (dedup_serves x c G Hc HG Hdiv Hcap)); [|exact Hnew].
  intros tok s. by rewrite (list_kernel_work R toks cnt HR Harr), (dedup_work x c G Hc HG Hdiv Hcap).
Qed.
End DedupKernelFacts.

(** ** The two launches *)

(** The buffers a launch starts from: the scratch and the arrays [torch.empty] makes. *)
Record memory := Memory { m_dst : Z -> Z; m_idx : Z -> Z; m_toks : Z -> Z; m_cnt : Z -> Z }.

(** The scratch and the rewritten indices after a launch whose programs run in [order]. *)
Definition _plan_group_triton (x : extra) (c : call) (m : memory) (order : list (Z * Z)) : (Z -> Z) * (Z -> Z) :=
  (run_stores (m_dst m) (order ≫= fun ri => plan_row_stores x c TOK_R ri.1 ri.2),
   run_stores (m_idx m) (order ≫= fun ri => plan_idx_stores c TOK_R ri.1 ri.2)).

Definition _dedup_triton (x : extra) (c : call) (g : Z) (m : memory) (order : list Z) (order2 : list (Z * Z)) : (Z -> Z) * (Z -> Z) :=
  let npow := next_power_of_2 (g * k c) in
  let toks := run_stores (m_toks m) (order ≫= kernel_tok_stores c g npow) in
  let cnt := run_stores (m_cnt m) (order ≫= kernel_cnt_stores c g npow) in
  (run_stores (m_dst m) (order2 ≫= fun bi => _v41c_rows x (list_lanes c g npow TOK_R toks cnt bi.1 bi.2)),
   run_stores (m_idx m) (order ≫= kernel_idx_stores c g npow)).

Lemma next_power_bounds n : 0 < n <= DEDUP_MAX_ENTRIES -> n <= next_power_of_2 n <= 8192.
Proof.
  intros Hn. unfold next_power_of_2, DEDUP_MAX_ENTRIES in *. split.
  - destruct (decide (n = 1)) as [->|]; [done|]. apply Z.log2_up_spec. lia.
  - change 8192 with (2 ^ 13). apply Z.pow_le_mono_r; [lia|]. transitivity (Z.log2_up 4096); [apply Z.log2_up_le_mono; lia|done].
Qed.

Lemma dedup_block_guard g min_rows r kk : dedup_block g min_rows r kk <> 0 ->
  dedup_block g min_rows r kk = g /\ 1 < g /\ min_rows <= r /\ 2 <= r /\ r mod g = 0 /\ g * kk <= DEDUP_MAX_ENTRIES.
Proof.
  unfold dedup_block. destruct (_ || _) eqn:E; [done|]. intros _. apply orb_false_iff in E as [[[E1 E2]%orb_false_iff E3]%orb_false_iff E4].
  repeat split; blia.
Qed.

(** What the launches leave. *)
Lemma plan_launch x c m order : pool_ok x -> call_ok x c -> order ≡ₚ plan_grid c TOK_R ->
  reads_rows x (eidx c) (_live c) (entries c) (_plan_group_triton x c m order).1 (_plan_group_triton x c m order).2.
Proof.
  intros Hok Hc Ho. pose proof (plan_kernel_serves x c TOK_R Hc ltac:(done) _ (fun p Hp => plan_idx_at x c TOK_R Hc ltac:(done) order (m_idx m) p Ho Hp)) as S.
  unfold _plan_group_triton. cbn [fst snd].
  destruct (launch_reads _ _ _ _ (plan_grid c TOK_R) order _ _ _ (m_dst m) Hok S Ho) as [Hrd _].
  replace (order ≫= fun ri => plan_row_stores x c TOK_R ri.1 ri.2) with (order ≫= fun ri => _v41c_rows x (plan_row_lanes c TOK_R ri.1 ri.2)); [exact Hrd|].
  clear. induction order as [|ri order IH]; [done|]. cbn [mbind list_bind]. by rewrite IH, plan_row_stores_lanes.
Qed.

Lemma dedup_launch x c g m order order2 :
  pool_ok x -> call_ok x c -> 1 < g -> rows c mod g = 0 -> g * k c <= DEDUP_MAX_ENTRIES ->
  order ≡ₚ zrange 0 (rows c / g) -> order2 ≡ₚ list_grid c g TOK_R ->
  let r := _dedup_triton x c g m order order2 in
  reads_rows x (eidx c) (_live c) (entries c) r.1 r.2 /\ (forall p, 0 <= p < entries c -> r.2 p = (plan_dedup_torch c g).2 p) /\
  (forall a, a < 0 \/ - (- entries c / SUB) * SUB_PAGE_BYTES <= a -> r.1 a = m_dst m a).
Proof.
  intros Hok Hc Hg Hdiv Hcap Ho Ho2. destruct (blocks_entries x c g Hc Hg Hdiv) as (Hn & He & _).
  pose proof (next_power_bounds (g * k c) (conj Hn Hcap)) as HN. unfold _dedup_triton. cbn [fst snd].
  set (npow := next_power_of_2 (g * k c)) in *. set (new_idx := run_stores (m_idx m) _).
  set (toks := run_stores (m_toks m) _). set (cnt := run_stores (m_cnt m) _).
  assert (Hnew : forall p, 0 <= p < entries c -> new_idx p = (plan_dedup_torch c g).2 p)
    by (intros p Hp; by apply (kernel_idx_at x c g npow Hc Hg Hdiv Hcap HN)).
  assert (S : serves x (eidx c) (_live c) (entries c) (lanes_work (list_grid c g TOK_R ≫= fun bi => list_lanes c g npow TOK_R toks cnt bi.1 bi.2)) new_idx
    (- (- entries c / SUB))).
  { apply (dedup_kernel_serves x c g npow Hc Hg Hdiv Hcap HN); [done| |exact Hnew]. intros b Hb'. split.
    - by apply (kernel_cnt_at x c g npow Hc Hg Hdiv Hcap HN).
    - intros r Hr. by apply (kernel_tok_at x c g npow Hc Hg Hdiv Hcap HN). }
  destruct (launch_reads _ _ _ _ _ order2 _ _ _ (m_dst m) Hok S Ho2) as [Hrd Hin]. split; [exact Hrd|]. split; [exact Hnew|].
  intros a Ha. apply run_stores_miss. intros v Hv. specialize (Hin a v Hv). lia.
Qed.

(** C4: with deduplication, whatever the order of the programs of either kernel, every live
    entry of the call reads the row of its token and every other is masked, the indices are
    the torch plan's, the entries of a block that share a token share its row, and no store
    leaves the pages of the scratch. *)
Theorem dedup_triton_reads x c g0 min_rows m order order2 :
  pool_ok x -> call_ok x c -> dedup_block g0 min_rows (rows c) (k c) <> 0 ->
  let g := dedup_block g0 min_rows (rows c) (k c) in
  order ≡ₚ zrange 0 (rows c / g) -> order2 ≡ₚ list_grid c g TOK_R ->
  let '(dst, new_idx) := _dedup_triton x c g m order order2 in
  reads_rows x (eidx c) (_live c) (entries c) dst new_idx /\
  (forall p, 0 <= p < entries c -> new_idx p = (plan_dedup_torch c g).2 p) /\
  (forall p p', 0 <= p < entries c -> 0 <= p' < entries c -> p / (g * k c) = p' / (g * k c) ->
     _live c p = true -> _live c p' = true -> (new_idx p = new_idx p' <-> eidx c p = eidx c p')) /\
  (forall a, a < 0 \/ - (- entries c / SUB) * SUB_PAGE_BYTES <= a -> dst a = m_dst m a).
Proof.
  intros Hok Hc Hb g Ho Ho2. destruct (dedup_block_guard _ _ _ _ Hb) as (Eg & Hg & _ & _ & Hdiv & Hcap). fold g in Eg. rewrite <- Eg in *.
  destruct (dedup_launch x c g m order order2 Hok Hc Hg Hdiv Hcap Ho Ho2) as (Hrd & Hnew & Hout).
  split; [exact Hrd|]. split; [exact Hnew|]. split; [|exact Hout].
  intros p p' Hp Hp' Eb L L'. pose proof (dedup_shares x c g Hc Hg Hdiv Hcap p p' Hp Hp' Eb L L') as Hsh.
  by rewrite <- !Hnew in Hsh by done.
Qed.

(** ** Witnesses *)

(** A pool of two pages of four records, and a call of four rows of three entries with a
    repeated token, a hole and two dead positions. *)
Definition pool1 : extra := Extra (fun a => (37 * a + 5) mod 120) 4 1152 2.
Definition call1 : call :=
  Call 4 3 (fun p => nth (Z.to_nat p) [5; 2; 7; 2; 5; -1; 0; 0; 3; 7; 1; 6] (-1)) (Some (fun r => if r =? 3 then 1 else 3)).
Definition memory1 : memory := Memory (fun _ => 0) (fun _ => 99) (fun _ => 99) (fun _ => 99).

Lemma pool1_ok : pool_ok pool1.
Proof.
  split; [done|]. intros tok _. split; intros i _; unfold rec_data, rec_scales; simpl src.
  - match goal with |- context [?a mod 120] => pose proof (Z.mod_pos_bound a 120 ltac:(lia)) end. lia.
  - match goal with |- context [?a mod 120] => pose proof (Z.mod_pos_bound a 120 ltac:(lia)) end.
    rewrite (Z.mod_small _ 128) by lia. lia.
Qed.

Lemma call1_ok : call_ok pool1 call1.
Proof.
  split; [done|]. split; [done|]. assert (H : forallb (fun p => eidx call1 p <? n_pool pool1) (zrange 0 (entries call1)) = true) by reflexivity.
  intros p Hp _. apply (proj1 (forallb_zrange _ _ _)) with (r := p) in H; [lia|done].
Qed.

Example dedup_indices :
  map (run_stores (m_idx memory1) ([1; 0] ≫= kernel_idx_stores call1 2 (next_power_of_2 6))) (zrange 0 12)
  = [1; 0; 2; 0; 1; -1; 6; 6; 7; 8; -1; -1].
Proof. vm_compute. reflexivity. Qed.

Lemma dedup_triton_reads_witness :
  let '(dst, new_idx) := _dedup_triton pool1 call1 2 memory1 [1; 0] (rev (list_grid call1 2 TOK_R)) in
  reads_rows pool1 (eidx call1) (_live call1) (entries call1) dst new_idx.
Proof.
  apply (dedup_triton_reads pool1 call1 2 2 memory1 [1; 0] (rev (list_grid call1 2 TOK_R)) pool1_ok call1_ok).
  - discriminate.
  - apply Permutation_swap.
  - symmetry. apply Permutation_rev.
Defined.
