(* ===== verification/V41cPage.v ===== *)
(** * The page pass (runtime/flashinfer_v41c/v41c.py)

    More than 96 rows, eager only: the 64-token sub-pages of the pool that a call touches are
    converted once, compacted, and the indices remapped.  Modelled: [plan_page_mode], the
    three Triton kernels of [native_page_view] with their marks, running count and cap, and
    the choice between the pass and the in-kernel reader. *)
From S2P Require Import Prelude FpBits Fp4Record V41cRows V41cPlan.
#[local] Open Scope list_scope.
#[local] Open Scope Z_scope.

Definition n_sub (x : extra) : Z := - (- n_pool x / SUB).

(** [torch.cumsum(mark) - 1] *)
Definition cmap (mark : Z -> Z) (s : Z) : Z := zsum (map mark (zrange 0 (s + 1))) - 1.

(** ** [plan_page_mode], on the live entries *)
Definition page_mark (c : call) : Z -> Z :=
  run_stores (fun _ => 0) ((fun p => (eidx c p / SUB, 1)) <$> filter (fun p => _live c p = true) (zrange 0 (entries c))).

Definition touched (mark : Z -> Z) (n : Z) : list Z := filter (fun s => mark s <> 0) (zrange 0 n).

Definition page_new_idx (c : call) (mark : Z -> Z) (p : Z) : Z :=
  if _live c p then cmap mark (eidx c p / SUB) * SUB + eidx c p mod SUB else -1.

Definition plan_page_mode (x : extra) (c : call) : list (Z * Z) * (Z -> Z) * Z :=
  let mark := page_mark c in
  let pages := touched mark (n_sub x) in
  (filter (fun w => w.1 < n_pool x)
     (mjoin (imap (fun i s => (fun j => (s * SUB + j, Z.of_nat i * SUB + j)) <$> zrange 0 SUB) pages)),
   page_new_idx c mark, zlen pages).

(** ** The kernels *)
Section Kernels.
Context (x : extra) (c : call).
Definition BLOCK : Z := 1024.

Definition lane_live (p : Z) : bool :=
  let inr := p <? entries c in
  let tok := if inr then eidx c p else -1 in
  inr && (0 <=? tok) && match topk_len c with None => true | Some l => p mod k c <? (if inr then l (p / k c) else 0) end.

(** [_v41n_mark_kernel], program [b]. *)
Definition mark_stores (b : Z) : list (Z * Z) :=
  (fun p => (eidx c p / 64, 1)) <$> filter (fun p => lane_live p = true) ((fun l => b * BLOCK + l) <$> zrange 0 BLOCK).

(** [_v41n_remap_kernel], program [b], on the map the host computed. *)
Definition remap_stores (cm : Z -> Z) (b : Z) : list (Z * Z) :=
  (fun p => (p, if lane_live p then cm (eidx c p / 64) * 64 + eidx c p mod 64 else -1)) <$>
    filter (fun p => p < entries c) ((fun l => b * BLOCK + l) <$> zrange 0 BLOCK).

Definition index_grid : list Z := zrange 0 (cdiv (entries c) BLOCK).

(** [_v41n_page_kernel], program ([sub], [i]). *)
Definition page_lanes (mark cm : Z -> Z) (si : Z * Z) : list (Z * bool * Z) :=
  if negb (mark si.1 =? 0) then
    (fun l => let j := si.2 * TOK_R + l in
              (si.1 * 64 + j, si.1 * 64 + j <? n_pool x, cm si.1 * 64 + j)) <$> zrange 0 TOK_R
  else [].
Definition page_grid : list (Z * Z) :=
  zrange 0 (Z.max (n_sub x) 1) ≫= fun s => (fun i => (s, i)) <$> zrange 0 (SUB / TOK_R).
End Kernels.

(** ** [native_page_view]: the buffer, the indices and the pages, or the cap *)
Definition native_page_view (x : extra) (c : call) (cap : Z) (idx0 : Z -> Z) (order1 order2 : list Z) (order3 : list (Z * Z))
    : option ((Z -> Z) * (Z -> Z) * Z) :=
  let mark := run_stores (fun _ => 0) (order1 ≫= mark_stores c) in
  let n_pages := if n_sub x =? 0 then 0 else cmap mark (Z.max (n_sub x) 1 - 1) + 1 in
  if cap <? Z.max n_pages 1 * SUB_PAGE_BYTES then None
  else Some (run_stores (fun _ => 0) (order3 ≫= fun si => _v41c_rows x (page_lanes x mark (cmap mark) si)),
             run_stores idx0 (order2 ≫= remap_stores c (cmap mark)), n_pages).

(** ** Which reader serves a prefill *)
Inductive rule := auto | kernel | page.
Definition native_prefill_mode (mode : rule) (min_rows : Z) (capturing : bool) (rows : Z) : rule :=
  match mode with
  | kernel => kernel
  | _ => if capturing then kernel else match mode with page => page | _ => if min_rows <=? rows then page else kernel end
  end.

(** ** Marks *)
Definition hit (c : call) (s : Z) : Prop := exists p, 0 <= p < entries c /\ _live c p = true /\ eidx c p / 64 = s.
Definition marks (c : call) (mark : Z -> Z) : Prop := forall s, mark s = 1 /\ hit c s \/ mark s = 0 /\ ~ hit c s.

Lemma stores_marks c l : (forall s v, (s, v) ∈ l <-> v = 1 /\ hit c s) -> marks c (run_stores (fun _ => 0) l).
Proof.
  intros Hl s. destruct (decide (Exists (fun w => w.1 = s) l)) as [He|Hn].
  - apply Exists_exists in He as ([s' v] & Hin & Es). simpl in Es. subst s'. pose proof Hin as [-> Hh]%Hl. left. split; [|done].
    apply run_stores_at; [done|]. by intros v' [-> _]%Hl.
  - right. assert (H : forall v, (s, v) ∉ l) by (intros v Hv; apply Hn, Exists_exists; by exists (s, v)). split; [by apply run_stores_miss|].
    intros Hh. apply (H 1), Hl. by split.
Qed.

Lemma page_mark_marks c : marks c (page_mark c).
Proof.
  apply stores_marks. intros s v. rewrite list_elem_of_fmap. unfold hit, SUB. split.
  - intros (p & [= -> ->] & [Hl Hp%zrange_elem]%list_elem_of_filter). split; [done|]. by exists p.
  - intros (-> & p & Hp & Hl & <-). exists p. split; [done|]. apply list_elem_of_filter. split; [done|]. by apply zrange_elem.
Qed.

Lemma lane_live_eq c p : lane_live c p = (p <? entries c) && _live c p.
Proof. unfold lane_live, _live. destruct (p <? entries c); [|done]. cbn [andb]. by destruct (topk_len c). Qed.

Lemma elem_block p b : p ∈ ((fun l => b * BLOCK + l) <$> zrange 0 BLOCK) <-> b * BLOCK <= p < b * BLOCK + BLOCK.
Proof.
  rewrite list_elem_of_fmap. split; [intros (l & -> & Hl%zrange_elem); lia|]. intros Hp. exists (p - b * BLOCK). split; [lia|]. apply zrange_elem. lia.
Qed.

(** Every entry is the lane of one program of the index kernels. *)
Lemma index_program c p : 0 <= p < entries c -> p / BLOCK ∈ index_grid c /\ p / BLOCK * BLOCK <= p < p / BLOCK * BLOCK + BLOCK.
Proof.
  intros Hp. unfold index_grid. pose proof (cdiv_spec (entries c) BLOCK ltac:(done)). pose proof (Z.div_mod p BLOCK ltac:(done)).
  pose proof (Z.mod_pos_bound p BLOCK ltac:(done)). split; [|lia]. apply zrange_elem. split; [apply Z.div_pos; [lia|done]|]. unfold BLOCK in *. nia.
Qed.

Lemma kernel_marks c order : order ≡ₚ index_grid c -> marks c (run_stores (fun _ => 0) (order ≫= mark_stores c)).
Proof.
  intros Ho. apply stores_marks. intros s v. rewrite list_elem_of_bind. unfold hit. split.
  - intros (b & (p & [= -> ->] & [Hl Hp%elem_block]%list_elem_of_filter)%list_elem_of_fmap & Hb). rewrite Ho in Hb. apply zrange_elem in Hb.
    rewrite lane_live_eq in Hl. apply andb_true_iff in Hl as [Hlt Hl]. split; [done|]. exists p. unfold BLOCK in *. repeat split; [lia|lia|done].
  - intros (-> & p & Hp & Hl & <-). destruct (index_program c p Hp) as [Hb Hp']. exists (p / BLOCK). split; [|by rewrite Ho].
    apply list_elem_of_fmap. exists p. split; [done|]. apply list_elem_of_filter. split; [|by apply elem_block].
    rewrite lane_live_eq, Hl. destruct (Z.ltb_spec p (entries c)); [done|lia].
Qed.

(** ** Compaction *)
Section Compact.
Context (c : call) (mark : Z -> Z) (Hm : marks c mark).

Lemma touched_count l : zsum (map mark l) = zlen (filter (fun s => mark s <> 0) l).
Proof.
  induction l as [|s l IH]; [done|]. simpl. rewrite filter_cons, IH. destruct (Hm s) as [[-> _]|[-> _]]; simpl; [rewrite zlen_cons|]; lia.
Qed.

Lemma cmap_lookup n s : 0 <= s < n -> mark s = 1 -> 0 <= cmap mark s /\ touched mark n !! Z.to_nat (cmap mark s) = Some s.
Proof.
  intros Hs Hms. unfold cmap, touched.
  assert (E : zrange 0 n = zrange 0 s ++ s :: zrange (s + 1) n).
  { unfold zrange. replace (s :: seqZ (s + 1) (n - (s + 1))) with (seqZ s (n - s)) by (rewrite (seqZ_cons s) by lia; do 2 f_equal; lia).
    replace (n - 0) with ((s - 0) + (n - s)) by lia. rewrite seqZ_app by lia. f_equal. f_equal; lia. }
  assert (E1 : zrange 0 (s + 1) = zrange 0 s ++ [s]).
  { unfold zrange. replace (s + 1 - 0) with ((s - 0) + 1) by lia. rewrite seqZ_app by lia. f_equal. replace (0 + (s - 0)) with s by lia. done. }
  rewrite E1, map_app, zsum_app. simpl. rewrite Hms, touched_count, E, filter_app, filter_cons_True by (rewrite Hms; done).
  split; [unfold zlen; lia|]. rewrite lookup_app_r by (unfold zlen; lia). unfold zlen.
  match goal with |- _ !! ?i = _ => replace i with 0%nat by lia end. done.
Qed.

Lemma cmap_last n : 0 < n -> cmap mark (n - 1) + 1 = zlen (touched mark n).
Proof. intros Hn. unfold cmap, touched. replace (n - 1 + 1) with n by lia. rewrite touched_count. lia. Qed.

Lemma elem_touched n s : s ∈ touched mark n <-> 0 <= s < n /\ hit c s.
Proof.
  unfold touched. rewrite list_elem_of_filter, zrange_elem. destruct (Hm s) as [[-> H]|[-> H]]; split; intros [? ?]; try done.
Qed.

Lemma cmap_slot n s : 0 <= s < n -> hit c s -> 0 <= cmap mark s < zlen (touched mark n).
Proof.
  intros Hs Hh. destruct (Hm s) as [[E _]|[_ H]]; [|done]. destruct (cmap_lookup n s Hs E) as [H0 Hl]. apply lookup_lt_Some in Hl.
  unfold zlen. lia.
Qed.

Lemma cmap_inj n s s' : 0 <= s < n -> 0 <= s' < n -> hit c s -> hit c s' -> cmap mark s = cmap mark s' -> s = s'.
Proof.
  intros Hs Hs' Hh Hh' E. destruct (Hm s) as [[M _]|[_ H]]; [|done]. destruct (Hm s') as [[M' _]|[_ H]]; [|done].
  destruct (cmap_lookup n s Hs M) as [_ H1]. destruct (cmap_lookup n s' Hs' M') as [_ H2]. rewrite E in H1. congruence.
Qed.
End Compact.

(** ** The page pass serves *)
Section Serves.
Context (x : extra) (c : call) (Hc : call_ok x c) (mark : Z -> Z) (Hm : marks c mark).

Lemma hit_range s : hit c s -> 0 <= s < n_sub x.
Proof.
  intros (p & Hp & Hl & <-). destruct Hc as (_ & _ & Ht). specialize (Ht p Hp Hl). pose proof (live_nonneg _ _ Hl).
  pose proof (cdiv_spec (n_pool x) SUB ltac:(done)) as Hs. unfold n_sub, cdiv, SUB in *.
  pose proof (Z.div_mod (eidx c p) 64 ltac:(lia)). pose proof (Z.mod_pos_bound (eidx c p) 64 ltac:(lia)).
  split; [apply Z.div_pos; lia|lia].
Qed.

Definition page_pair (tok s : Z) : Prop :=
  exists sub j, hit c sub /\ 0 <= j < 64 /\ tok = sub * 64 + j /\ tok < n_pool x /\ s = cmap mark sub * 64 + j.

Lemma page_serves work : (forall tok s, (tok, s) ∈ work <-> page_pair tok s) ->
  serves x (eidx c) (_live c) (entries c) work (page_new_idx c mark) (zlen (touched mark (n_sub x))).
Proof.
  intros Hw. split.
  - intros p Hp Hl. apply Hw. unfold page_new_idx, SUB. rewrite Hl. exists (eidx c p / 64), (eidx c p mod 64).
    pose proof (Z.div_mod (eidx c p) 64 ltac:(lia)). split; [by exists p|]. split; [by apply Z.mod_pos_bound|]. split; [lia|].
    split; [by apply Hc|done].
  - intros p Hp Hl. unfold page_new_idx. by rewrite Hl.
  - intros tok tok' s (a & j & Ha & Hj & -> & _ & ->)%Hw (a' & j' & Ha' & Hj' & -> & _ & E)%Hw.
    apply block_inj in E as [E <-]; [|done|done]. f_equal. f_equal. by apply (cmap_inj c mark Hm (n_sub x)); [apply hit_range|apply hit_range| | |].
  - intros tok s (a & j & Ha & Hj & -> & Ht & ->)%Hw. pose proof (hit_range _ Ha). pose proof (cmap_slot c mark Hm (n_sub x) a ltac:(lia) Ha).
    unfold SUB. lia.
Qed.

Lemma torch_pairs tok s : mark = page_mark c -> (tok, s) ∈ (plan_page_mode x c).1.1 <-> page_pair tok s.
Proof.
  intros Em. unfold plan_page_mode. cbn [fst snd]. rewrite <- Em, list_elem_of_filter, list_elem_of_join. cbn [fst]. split.
  - intros (Ht & l & Hin & Hl). apply list_elem_of_lookup in Hl as [i Hl]. apply list_lookup_imap_Some in Hl as (a & Ha & ->).
    apply list_elem_of_fmap in Hin as (j & [= -> ->] & Hj%zrange_elem). pose proof (list_elem_of_lookup_2 _ _ _ Ha) as Hin.
    apply (elem_touched c _ Hm) in Hin as [Hr Hh]. exists a, j. unfold SUB in *. repeat split; try lia; [done|].
    destruct (Hm a) as [[M _]|[_ H]]; [|done]. destruct (cmap_lookup c _ Hm _ a Hr M) as [H0 Hl].
    pose proof (NoDup_lookup _ _ _ _ (NoDup_filter _ _ (NoDup_seqZ 0 (n_sub x - 0))) Ha Hl). lia.
  - intros (a & j & Hh & Hj & -> & Ht & ->). split; [done|]. pose proof (hit_range _ Hh) as Hr.
    destruct (Hm a) as [[M _]|[_ H]]; [|done]. destruct (cmap_lookup c _ Hm _ a Hr M) as [H0 Hl].
    eexists. split; [|apply list_elem_of_lookup; exists (Z.to_nat (cmap mark a)); apply list_lookup_imap_Some; exists a; split; [exact Hl|reflexivity]].
    apply list_elem_of_fmap. exists j. split; [unfold SUB; f_equal; lia|]. apply zrange_elem. unfold SUB. lia.
Qed.

Lemma kernel_pairs tok s : (tok, s) ∈ lanes_work (page_grid x ≫= page_lanes x mark (cmap mark)) <-> page_pair tok s.
Proof.
  rewrite elem_lanes, list_elem_of_bind. unfold page_grid. split.
  - intros ([a i] & Hl & (a' & (i' & [= -> ->] & Hi%zrange_elem)%list_elem_of_fmap & Ha%zrange_elem)%list_elem_of_bind).
    unfold page_lanes in Hl. cbn [fst snd] in Hl. destruct (mark a' =? 0) eqn:E; cbn [negb] in Hl; [by apply elem_of_nil in Hl|].
    apply list_elem_of_fmap in Hl as (l & [= -> Et ->] & Hl%zrange_elem). destruct (Hm a') as [[_ Hh]|[M _]]; [|lia].
    exists a', (i' * TOK_R + l). unfold TOK_R, SUB in *. change (64 / 4) with 16 in Hi. repeat split; [done|lia|lia|lia].
  - intros (a & j & Hh & Hj & -> & Ht & ->). pose proof (hit_range _ Hh) as Hr. exists (a, j / 4). split.
    + unfold page_lanes. cbn [fst snd]. destruct (Hm a) as [[-> _]|[_ H]]; [|done]. cbn [Z.eqb negb]. apply list_elem_of_fmap. exists (j mod 4). unfold TOK_R.
      pose proof (Z.div_mod j 4 ltac:(lia)). replace (j / 4 * 4 + j mod 4) with j by lia.
      split; [|apply zrange_elem; by apply Z.mod_pos_bound]. destruct (Z.ltb_spec (a * 64 + j) (n_pool x)); [done|lia].
    + apply list_elem_of_bind. exists a. split; [|apply zrange_elem; lia]. apply list_elem_of_fmap. exists (j / 4). split; [done|].
      apply zrange_elem. unfold TOK_R, SUB. change (64 / 4) with 16. split; [apply Z.div_pos; lia|apply Z.div_lt_upper_bound; lia].
Qed.

Lemma remap_at cm idx0 order p : order ≡ₚ index_grid c -> (forall s, cm s = cmap mark s) -> 0 <= p < entries c ->
  run_stores idx0 (order ≫= remap_stores c cm) p = page_new_idx c mark p.
Proof.
  intros Ho Hcm Hp. apply run_stores_at.
  - destruct (index_program c p Hp) as [Hb Hp']. apply list_elem_of_bind. exists (p / BLOCK). split; [|by rewrite Ho].
    apply list_elem_of_fmap. exists p. unfold page_new_idx, SUB. rewrite lane_live_eq, <- Hcm. split.
    + destruct (Z.ltb_spec p (entries c)); [done|lia].
    + apply list_elem_of_filter. split; [lia|]. by apply elem_block.
  - intros v (b & (p' & [= <- ->] & _)%list_elem_of_fmap & _)%list_elem_of_bind. unfold page_new_idx, SUB. rewrite lane_live_eq, <- Hcm.
    destruct (Z.ltb_spec p (entries c)); [done|lia].
Qed.
End Serves.

Lemma marks_unique c mark mark' : marks c mark -> marks c mark' -> forall s, cmap mark s = cmap mark' s.
Proof.
  intros H H' s. unfold cmap. do 2 f_equal. apply map_ext. intros a. destruct (H a) as [[-> ?]|[-> ?]], (H' a) as [[-> ?]|[-> ?]]; done.
Qed.

(** The count the host reads is the number of touched sub-pages. *)
Lemma page_count x c mark : call_ok x c -> marks c mark ->
  (if n_sub x =? 0 then 0 else cmap mark (Z.max (n_sub x) 1 - 1) + 1) = zlen (touched mark (n_sub x)).
Proof.
  intros Hc Hm. destruct (Z.eqb_spec (n_sub x) 0) as [E|]; [by rewrite E|]. destruct (Z.lt_ge_cases (n_sub x) 0) as [Hn|Hn].
  - rewrite Z.max_r by lia. rewrite (cmap_last c mark Hm 1) by lia. unfold touched. rewrite (zrange_nil 0 (n_sub x)) by lia.
    change (zrange 0 1) with [0]. rewrite filter_cons. destruct (Hm 0) as [[_ Hh]|[-> _]]; [|done]. apply (hit_range x c Hc) in Hh. lia.
  - rewrite Z.max_l by lia. apply (cmap_last c mark Hm). lia.
Qed.

(** What the pass leaves when it does not give up. *)
Lemma page_launch_reads x c mark idx0 order2 order3 : pool_ok x -> call_ok x c -> marks c mark ->
  order2 ≡ₚ index_grid c -> order3 ≡ₚ page_grid x ->
  reads_rows x (eidx c) (_live c) (entries c) (run_stores (fun _ => 0) (order3 ≫= fun si => _v41c_rows x (page_lanes x mark (cmap mark) si)))
    (run_stores idx0 (order2 ≫= remap_stores c (cmap mark))).
Proof.
  intros Hok Hc Hm H2 H3.
  assert (Hnew : forall p, 0 <= p < entries c -> run_stores idx0 (order2 ≫= remap_stores c (cmap mark)) p = page_new_idx c mark p)
    by (intros p Hp; by apply remap_at).
  pose proof (page_serves x c Hc mark Hm _ (fun tok s => kernel_pairs x c Hc mark Hm tok s)) as S.
  refine (proj1 (launch_reads _ _ _ _ (page_grid x) order3 _ _ _ _ Hok (serves_iff _ _ _ _ _ _ _ _ _ S _ Hnew) H3)). done.
Qed.

(** C17: the page pass gives up exactly when the touched sub-pages do not fit the cap; else,
    whatever the order of the programs of its three kernels, every live entry reads the row of
    its token and every other is masked, the indices and the number of pages are the torch
    plan's, and that number is the number of sub-pages touched. *)
Theorem native_page_view_reads x c cap idx0 order1 order2 order3 :
  pool_ok x -> call_ok x c -> order1 ≡ₚ index_grid c -> order2 ≡ₚ index_grid c -> order3 ≡ₚ page_grid x ->
  match native_page_view x c cap idx0 order1 order2 order3 with
  | Some (dst, new_idx, n_pages) =>
      reads_rows x (eidx c) (_live c) (entries c) dst new_idx /\
      (forall p, 0 <= p < entries c -> new_idx p = (plan_page_mode x c).1.2 p) /\
      n_pages = (plan_page_mode x c).2 /\ Z.max n_pages 1 * SUB_PAGE_BYTES <= cap /\
      exists l, NoDup l /\ (forall s, s ∈ l <-> hit c s) /\ zlen l = n_pages
  | None => cap < Z.max (plan_page_mode x c).2 1 * SUB_PAGE_BYTES
  end.
Proof.
  intros Hok Hc H1 H2 H3. unfold native_page_view. pose proof (kernel_marks c _ H1) as Hm. set (mark := run_stores _ (order1 ≫= _)) in *.
  pose proof (page_mark_marks c) as Hp. rewrite (page_count x c mark Hc Hm).
  assert (Et : touched mark (n_sub x) = touched (page_mark c) (n_sub x)).
  { unfold touched. apply list_filter_iff. intros s. destruct (Hm s) as [[-> ?]|[-> ?]], (Hp s) as [[-> ?]|[-> ?]]; done. }
  rewrite Et. change (zlen (touched (page_mark c) (n_sub x))) with (plan_page_mode x c).2.
  destruct (Z.ltb_spec cap (Z.max (plan_page_mode x c).2 1 * SUB_PAGE_BYTES)); [done|].
  split; [by apply page_launch_reads|]. split; [|split; [done|split; [done|]]].
  - intros p Hp'. rewrite (remap_at c mark (cmap mark)) by done. unfold plan_page_mode, page_new_idx. cbn [fst snd].
    by rewrite (marks_unique c mark (page_mark c) Hm Hp).
  - exists (touched (page_mark c) (n_sub x)). split; [apply NoDup_filter, NoDup_seqZ|]. split; [|done].
    intros s. rewrite (elem_touched c _ Hp). split; [by intros [_ ?]|]. intros Hh. split; [by apply (hit_range x c Hc)|done].
Qed.

(** Under capture a prefill never takes the page pass, whatever the rule: the pass reads a
    count on the host. *)
Lemma captured_keeps_kernel mode min_rows rows : native_prefill_mode mode min_rows true rows = kernel.
Proof. by destruct mode. Qed.

Lemma native_page_view_reads_witness :
  match native_page_view pool1 call1 1048576 (fun _ => 99) (index_grid call1) (index_grid call1) (rev (page_grid pool1)) with
  | Some (dst, new_idx, n_pages) =>
      reads_rows pool1 (eidx call1) (_live call1) (entries call1) dst new_idx /\
      (forall p, 0 <= p < entries call1 -> new_idx p = (plan_page_mode pool1 call1).1.2 p) /\
      n_pages = (plan_page_mode pool1 call1).2 /\ Z.max n_pages 1 * SUB_PAGE_BYTES <= 1048576 /\
      exists l, NoDup l /\ (forall s, s ∈ l <-> hit call1 s) /\ zlen l = n_pages
  | None => 1048576 < Z.max (plan_page_mode pool1 call1).2 1 * SUB_PAGE_BYTES
  end.
Proof.
  apply (native_page_view_reads pool1 call1 1048576 _ _ _ _ pool1_ok call1_ok); [done|done|]. symmetry. apply Permutation_rev.
Defined.
