(* ===== verification/V41cReader.v ===== *)
(** * The group reader (runtime/flashinfer_v41c/v41c.py, adapter/v41c_pool.py)

    A transcode is kept and reused by the layers that follow it in its group.  Modelled: the
    group starts of a configuration, the tags the adapter sets around each layer's attention,
    the persistent scratch, the signature of a call, hit and miss, and the three views; the
    engine's memory is a store of caches, indices and buffers that the model's own layers
    write.  What a view promises is stated once, as the interface [Planner]; the kernels of
    V41cPlan and V41cPage implement it, and the reader is proved against the interface. *)
From S2P Require Import Prelude FpBits Fp4Record V41cRows V41cPlan V41cPage.
#[local] Open Scope list_scope.
#[local] Open Scope Z_scope.

(** ** The interface *)
Class Planner := {
  plan_scratch : extra -> call -> (Z -> Z) -> (Z -> Z) * (Z -> Z);
  plan_pages : extra -> call -> (Z -> Z) * (Z -> Z);
  plan_native : extra -> call -> option ((Z -> Z) * (Z -> Z));
  plan_block : Z -> Z -> Z;
  scratch_reads x c dst : pool_ok x -> call_ok x c ->
    reads_rows x (eidx c) (_live c) (entries c) (plan_scratch x c dst).1 (plan_scratch x c dst).2;
  pages_reads x c : pool_ok x -> call_ok x c ->
    reads_rows x (eidx c) (_live c) (entries c) (plan_pages x c).1 (plan_pages x c).2;
  native_reads x c r : pool_ok x -> call_ok x c -> plan_native x c = Some r ->
    reads_rows x (eidx c) (_live c) (entries c) r.1 r.2
}.

(** The order the programs of each launch run in. *)
Record schedule := Schedule {
  o_plan : call -> list (Z * Z); o_plan_ok : forall c, o_plan c ≡ₚ plan_grid c TOK_R;
  o_blocks : call -> Z -> list Z; o_blocks_ok : forall c g, o_blocks c g ≡ₚ zrange 0 (rows c / g);
  o_list : call -> Z -> list (Z * Z); o_list_ok : forall c g, o_list c g ≡ₚ list_grid c g TOK_R;
  o_index : call -> list Z; o_index_ok : forall c, o_index c ≡ₚ index_grid c;
  o_page : extra -> list (Z * Z); o_page_ok : forall x, o_page x ≡ₚ page_grid x
}.

(** The body of [group_view], [group_page_view] and [native_page_view] on a miss. *)
Definition group_plan (g min_rows : Z) (s : schedule) (x : extra) (c : call) (dst : Z -> Z) : (Z -> Z) * (Z -> Z) :=
  let g := dedup_block g min_rows (rows c) (k c) in
  let m := Memory dst (fun _ => 0) (fun _ => 0) (fun _ => 0) in
  if negb (g =? 0) then _dedup_triton x c g m (o_blocks s c g) (o_list s c g) else _plan_group_triton x c m (o_plan s c).
Definition group_pages (x : extra) (c : call) : (Z -> Z) * (Z -> Z) :=
  let '(work, new_idx, _) := plan_page_mode x c in (run_stores (fun _ => 0) (transcode_tokens_torch x work), new_idx).
Definition native_pages (cap : Z) (s : schedule) (x : extra) (c : call) : option ((Z -> Z) * (Z -> Z)) :=
  match native_page_view x c cap (fun _ => 0) (o_index s c) (o_index s c) (o_page s x) with
  | Some (dst, new_idx, _) => Some (dst, new_idx)
  | None => None
  end.

(** The kernels implement the interface, whatever the order of their programs. *)
Lemma group_plan_reads g min_rows s x c dst : pool_ok x -> call_ok x c ->
  reads_rows x (eidx c) (_live c) (entries c) (group_plan g min_rows s x c dst).1 (group_plan g min_rows s x c dst).2.
Proof.
  intros Hok Hc. unfold group_plan. destruct (Z.eqb_spec (dedup_block g min_rows (rows c) (k c)) 0) as [E|Hne]; cbn [negb].
  - apply plan_launch; [done|done|apply o_plan_ok].
  - destruct (dedup_block_guard _ _ _ _ Hne) as (Eg & Hg & _ & _ & Hdiv & Hcap). rewrite Eg.
    apply (dedup_launch x c g); [done..|apply o_blocks_ok|apply o_list_ok].
Qed.

Lemma group_pages_reads x c : pool_ok x -> call_ok x c ->
  reads_rows x (eidx c) (_live c) (entries c) (group_pages x c).1 (group_pages x c).2.
Proof.
  intros Hok Hc. unfold group_pages. destruct (plan_page_mode x c) as [[work new_idx] n] eqn:E. cbn [fst snd].
  pose proof (page_mark_marks c) as Hm.
  pose proof (page_serves x c Hc (page_mark c) Hm work) as S. replace new_idx with (page_new_idx c (page_mark c)) by (unfold plan_page_mode in E; by injection E).
  refine (proj1 (serves_reads _ _ _ _ work _ _ _ _ (S _) (reflexivity _))). intros tok s.
  rewrite <- (torch_pairs x c Hc (page_mark c) Hm tok s eq_refl), E. done.
Qed.

Lemma native_pages_reads cap s x c r : pool_ok x -> call_ok x c -> native_pages cap s x c = Some r ->
  reads_rows x (eidx c) (_live c) (entries c) r.1 r.2.
Proof.
  intros Hok Hc. unfold native_pages, native_page_view. destruct (_ <? _); [done|]. intros [= <-]. cbn [fst snd].
  apply page_launch_reads; [done|done|apply kernel_marks, o_index_ok|apply o_index_ok|apply o_page_ok].
Qed.

Definition group_planner (g min_rows cap : Z) (s : schedule) : Planner := {|
  plan_scratch := group_plan g min_rows s; plan_pages := group_pages; plan_native := native_pages cap s;
  plan_block := dedup_block g min_rows;
  scratch_reads := group_plan_reads g min_rows s; pages_reads := group_pages_reads; native_reads := native_pages_reads cap s |}.

(** ** Groups of layers ([group_starts]) *)
Definition LOW_RATIOS : list Z := [1; 2].

Record config := Config { compress_ratios : list Z; kv_source_layer_ids : list Z; index_source_layer_ids : list Z }.

Definition ratio_of (cfg : config) (l : Z) : option Z := compress_ratios cfg !! Z.to_nat l.

(** The sources of a layer's ratio at or before it, in order. *)
Definition sources_before (cfg : config) (l ratio : Z) (ids : list Z) : list Z :=
  filter (fun s => s <= l /\ s < zlen (compress_ratios cfg) /\ ratio_of cfg s = Some ratio) (merge_sort Z.le ids).

Definition group_start (cfg : config) (l : Z) : option Z :=
  match ratio_of cfg l with
  | Some ratio =>
      if bool_decide (ratio ∈ LOW_RATIOS) then
        match last (sources_before cfg l ratio (kv_source_layer_ids cfg)), last (sources_before cfg l ratio (index_source_layer_ids cfg)) with
        | Some k, Some i => Some (Z.max k i)
        | _, _ => None
        end
      else None
  | None => None
  end.

(** ** The engine's memory: caches, indices, lengths and buffers by address *)
Record store := Store { cache : Z -> Z -> Z; index : Z -> Z -> Z; lens : Z -> Z -> Z; bufs : Z -> Z -> Z }.

Definition write {A} (m : Z -> A) (w : option (Z * A)) : Z -> A :=
  match w with Some (a, v) => fun b => if b =? a then v else m b | None => m end.

(** The tensors of a reader's call: addresses, shapes and strides. *)
Record args := Args { a_extra : Z; a_pbs : Z; a_stride : Z; a_pages : Z; a_idx : Z; a_rows : Z; a_k : Z; a_len : option Z }.
#[export] Instance args_eq_dec : EqDecision args.
Proof. solve_decision. Defined.

Definition extra_of (st : store) (a : args) : extra := Extra (cache st (a_extra a)) (a_pbs a) (a_stride a) (a_pages a).
Definition call_of (st : store) (a : args) : call := Call (a_rows a) (a_k a) (index st (a_idx a)) (lens st <$> a_len a).

(** ** The reader's state *)
Inductive mode := Scratch (g : Z) | Page | NativePage.
#[export] Instance mode_eq_dec : EqDecision mode.
Proof. solve_decision. Defined.

(** [_group_sig] *)
Record sig := Sig { s_args : args; s_mode : mode; s_buf : option Z }.
#[export] Instance sig_eq_dec : EqDecision sig.
Proof. solve_decision. Defined.

(** [_group_keep]: the signature, the tag and the view of the last plan. *)
Record kept := Kept { k_sig : sig; k_layer : option Z; k_start : option Z; k_buf : Z; k_idx : Z -> Z }.

Record reader := Reader { tag : option (Z * Z); group : option kept; scratch : option (Z * Z); next_buf : Z; plans : Z; reuses : Z }.

Definition set_tag (t : option (Z * Z)) (r : reader) : reader := Reader t (group r) (scratch r) (next_buf r) (plans r) (reuses r).

(** [_group_hit] and [_group_keep] *)
Definition _group_hit (r : reader) (s : sig) : reader * option (Z * Z) * option (Z * (Z -> Z)) :=
  let miss := (Reader None None (scratch r) (next_buf r) (plans r) (reuses r), tag r, None) in
  match tag r, group r with
  | Some (l, start), Some k =>
      if negb (l =? start) && bool_decide (k_sig k = s) && bool_decide (k_start k = Some start) && bool_decide (k_layer k = Some (l - 1))
      then (Reader None (Some (Kept (k_sig k) (Some l) (k_start k) (k_buf k) (k_idx k))) (scratch r) (next_buf r) (plans r) (reuses r + 1),
            tag r, Some (k_buf k, k_idx k))
      else miss
  | _, _ => miss
  end.

Definition _group_keep (r : reader) (t : option (Z * Z)) (s : sig) (buf : Z) (new_idx : Z -> Z) : reader :=
  Reader (tag r) (Some (Kept s (fst <$> t) (snd <$> t) buf new_idx)) (scratch r) (next_buf r) (plans r + 1) (reuses r).

(** [_token_scratch]: the persistent pages, sized for the largest call at this [k]. *)
Definition _token_scratch (st : store) (r : reader) (n_pages k : Z) : store * reader * Z :=
  match scratch r with
  | Some (b, size) => if n_pages <=? size then (st, r, b) else
      (Store (cache st) (index st) (lens st) (write (bufs st) (Some (next_buf r, fun _ => 0))),
       Reader (tag r) (group r) (Some (next_buf r, Z.max n_pages (- (- TOKEN_MODE_MAX_ROWS * k / SUB)))) (next_buf r + 1) (plans r) (reuses r), next_buf r)
  | None =>
      (Store (cache st) (index st) (lens st) (write (bufs st) (Some (next_buf r, fun _ => 0))),
       Reader (tag r) (group r) (Some (next_buf r, Z.max n_pages (- (- TOKEN_MODE_MAX_ROWS * k / SUB)))) (next_buf r + 1) (plans r) (reuses r), next_buf r)
  end.

Section Views.
Context `{P : Planner}.

Definition set_buf (st : store) (b : Z) (dst : Z -> Z) : store := Store (cache st) (index st) (lens st) (write (bufs st) (Some (b, dst))).

(** The view of a call, and whether it was reused. *)
Definition outcome : Type := option (Z * (Z -> Z) * bool).

Definition group_view (st : store) (r : reader) (a : args) : store * reader * outcome :=
  let n_pages := - (- a_rows a * a_k a / SUB) in
  let '(st, r, buf) := _token_scratch st r n_pages (a_k a) in
  let s := Sig a (Scratch (plan_block (a_rows a) (a_k a))) (Some buf) in
  match _group_hit r s with
  | (r, _, Some (b, i)) => (st, r, Some (b, i, true))
  | (r, t, None) =>
      let '(dst, new_idx) := plan_scratch (extra_of st a) (call_of st a) (bufs st buf) in
      (set_buf st buf dst, _group_keep r t s buf new_idx, Some (buf, new_idx, false))
  end.

(** A buffer of a page pass is new. *)
Definition fresh_buf (st : store) (r : reader) (dst : Z -> Z) : store * reader * Z :=
  (set_buf st (next_buf r) dst, Reader (tag r) (group r) (scratch r) (next_buf r + 1) (plans r) (reuses r), next_buf r).

Definition group_page_view (st : store) (r : reader) (a : args) : store * reader * outcome :=
  let s := Sig a Page None in
  match _group_hit r s with
  | (r, _, Some (b, i)) => (st, r, Some (b, i, true))
  | (r, t, None) =>
      let '(dst, new_idx) := plan_pages (extra_of st a) (call_of st a) in
      let '(st, r, buf) := fresh_buf st r dst in
      (st, _group_keep r t s buf new_idx, Some (buf, new_idx, false))
  end.

Definition native_view (st : store) (r : reader) (a : args) : store * reader * outcome :=
  let s := Sig a NativePage None in
  match _group_hit r s with
  | (r, _, Some (b, i)) => (st, r, Some (b, i, true))
  | (r, t, None) =>
      match plan_native (extra_of st a) (call_of st a) with
      | None => (st, r, None)
      | Some (dst, new_idx) =>
          let '(st, r, buf) := fresh_buf st r dst in
          (st, _group_keep r t s buf new_idx, Some (buf, new_idx, false))
      end
  end.

(** [prefill]'s choice of view; [native] when the page pass of the native reader runs. *)
Definition view (native : bool) (st : store) (r : reader) (a : args) : store * reader * outcome :=
  if native then native_view st r a
  else if a_rows a <=? TOKEN_MODE_MAX_ROWS then group_view st r a else group_page_view st r a.

(** ** A layer and a forward *)

(** What a layer writes before its attention, and the reader's call its attention makes. *)
Record layer_work := Layer { w_cache : option (Z * (Z -> Z)); w_index : option (Z * (Z -> Z)); w_lens : option (Z * (Z -> Z));
  w_call : option (bool * args) }.

Record entry := Entry { e_layer : Z; e_extra : extra; e_call : call; e_view : option ((Z -> Z) * (Z -> Z) * bool) }.

(** The wrapped [_forward_attention]: tag, attend, clear the tag. *)
Definition forward_attention (cfg : config) (st : store) (r : reader) (l : Z) (w : layer_work) : store * reader * list entry :=
  let st := Store (write (cache st) (w_cache w)) (write (index st) (w_index w)) (write (lens st) (w_lens w)) (bufs st) in
  let r := match group_start cfg l with Some s => set_tag (Some (l, s)) r | None => r end in
  let '(st, r, log) :=
    match w_call w with
    | None => (st, r, [])
    | Some (native, a) =>
        let '(st, r, o) := view native st r a in
        (st, r, [Entry l (extra_of st a) (call_of st a) ((fun v => (bufs st v.1.1, v.1.2, v.2)) <$> o)])
    end in
  (st, match group_start cfg l with Some _ => set_tag None r | None => r end, log).

(** A forward: what changed in the memory before it, then its layers in order. *)
Record forward := Forward { f_before : store -> store; f_layers : Z -> layer_work }.

Fixpoint run_layers (cfg : config) (st : store) (r : reader) (f : forward) (ls : list Z) : store * reader * list entry :=
  match ls with
  | [] => (st, r, [])
  | l :: ls =>
      let '(st, r, log) := forward_attention cfg st r l (f_layers f l) in
      let '(st, r, log') := run_layers cfg st r f ls in
      (st, r, log ++ log')
  end.

Fixpoint run (cfg : config) (first last : Z) (st : store) (r : reader) (fs : list forward) : store * reader * list entry :=
  match fs with
  | [] => (st, r, [])
  | f :: fs =>
      let '(st, r, log) := run_layers cfg (f_before f st) r f (zrange first last) in
      let '(st, r, log') := run cfg first last st r fs in
      (st, r, log ++ log')
  end.
End Views.

(** ** Groups *)
Definition config_ok (cfg : config) : Prop :=
  Forall (fun s => 0 <= s) (kv_source_layer_ids cfg) /\ Forall (fun s => 0 <= s) (index_source_layer_ids cfg).

Lemma sorted_filter_last (Q : Z -> Prop) `{!forall s, Decision (Q s)} (l : list Z) s m :
  StronglySorted Z.le l -> last (filter Q l) = Some m -> s ∈ l -> Q s -> s <= m.
Proof.
  intros Hs Hl Hin HQ. induction Hs as [|y l Hs IH Hy]; [by apply elem_of_nil in Hin|]. rewrite Forall_forall in Hy.
  rewrite filter_cons in Hl. destruct (decide (Q y)) as [Hq|Hq].
  - destruct (filter Q l) as [|z fl] eqn:E.
    + injection Hl as ->. apply elem_of_cons in Hin as [->|Hin]; [done|].
      assert (HF : s ∈ filter Q l) by (by apply list_elem_of_filter). rewrite E in HF. by apply elem_of_nil in HF.
    + rewrite last_cons_cons in Hl. apply elem_of_cons in Hin as [->|Hin]; [|by apply IH].
      apply last_Some_elem_of in Hl. rewrite <- E in Hl. apply list_elem_of_filter in Hl as [_ Hl]. by apply Hy.
  - apply elem_of_cons in Hin as [->|Hin]; [done|]. by apply IH.
Qed.

(** The last source before a layer: not after it, and the layer itself when it is one. *)
Lemma source_last cfg l ratio ids m : 0 <= l -> Forall (fun s => 0 <= s) ids -> ratio_of cfg l = Some ratio ->
  last (sources_before cfg l ratio ids) = Some m -> m <= l /\ (l ∈ ids -> m = l).
Proof.
  intros H0 Hids Hr Hl. pose proof (last_Some_elem_of _ _ Hl) as Hm. unfold sources_before in Hm. apply list_elem_of_filter in Hm as [(Hle & _) _].
  split; [done|]. intros Hin. assert (l <= m); [|lia]. unfold sources_before in Hl.
  refine (sorted_filter_last _ _ l m _ Hl _ _).
  - apply Sorted_StronglySorted; [intros ???; lia|]. apply Sorted_merge_sort. intros ??; lia.
  - by rewrite merge_sort_Permutation.
  - split; [lia|]. split; [|done]. apply lookup_lt_Some in Hr. unfold zlen. lia.
Qed.

Lemma group_start_spec cfg l s : config_ok cfg -> 0 <= l -> group_start cfg l = Some s ->
  s <= l /\ (s <> l -> l ∉ kv_source_layer_ids cfg /\ l ∉ index_source_layer_ids cfg).
Proof.
  intros [Hk Hi] H0. unfold group_start. destruct (ratio_of cfg l) as [ratio|] eqn:Er; [|done]. destruct (bool_decide _); [|done].
  destruct (last (sources_before cfg l ratio (kv_source_layer_ids cfg))) as [k|] eqn:Ek; [|done].
  destruct (last (sources_before cfg l ratio (index_source_layer_ids cfg))) as [i|] eqn:Ei; [|done]. intros [= <-].
  destruct (source_last _ _ _ _ _ H0 Hk Er Ek) as [K1 K2]. destruct (source_last _ _ _ _ _ H0 Hi Er Ei) as [I1 I2].
  split; [lia|]. intros Hne. split; intros Hin; [specialize (K2 Hin)|specialize (I2 Hin)]; lia.
Qed.

(** ** A view reads the rows of the entries its call names *)
Section Reuse.
Context `{P : Planner}.

(** What a kept view reads now. *)
Definition kept_reads (st : store) (k : kept) : Prop :=
  let a := s_args (k_sig k) in
  reads_rows (extra_of st a) (eidx (call_of st a)) (_live (call_of st a)) (entries (call_of st a)) (bufs st (k_buf k)) (k_idx k).

(** The reader's own addresses are ones it allocated. *)
Definition bufs_ok (r : reader) : Prop :=
  (forall b n, scratch r = Some (b, n) -> b < next_buf r) /\
  (forall k, group r = Some k -> forall b, s_buf (k_sig k) = Some b -> b < next_buf r).

(** What a view does to the reader, and what it gives. *)
Record view_spec (st : store) (r : reader) (a : args) (st' : store) (r' : reader) (o : outcome) : Prop := {
  vs_cache : cache st' = cache st; vs_index : index st' = index st; vs_lens : lens st' = lens st;
  vs_tag : tag r' = None;
  vs_bufs : bufs_ok r';
  vs_group : match o with
             | Some (b, i, _) => exists k, group r' = Some k /\ k_layer k = fst <$> tag r /\ k_start k = snd <$> tag r /\
                                   k_buf k = b /\ k_idx k = i /\ s_args (k_sig k) = a /\ kept_reads st' k
             | None => group r' = None
             end
}.

Lemma token_scratch_spec st r n k : bufs_ok r ->
  let '(st1, r1, buf) := _token_scratch st r n k in
  (st1 = st /\ r1 = r \/ buf = next_buf r /\ group r1 = group r /\ tag r1 = tag r /\ cache st1 = cache st /\ index st1 = index st /\ lens st1 = lens st) /\
  bufs_ok r1 /\ buf < next_buf r1.
Proof.
  intros [H1 H2]. unfold _token_scratch.
  assert (Hnew : forall size, bufs_ok (Reader (tag r) (group r) (Some (next_buf r, size)) (next_buf r + 1) (plans r) (reuses r))).
  { intros size. split; simpl; [intros b m [= <- _]; lia|]. intros k' Hk' b Hb. specialize (H2 k' Hk' b Hb). lia. }
  destruct (scratch r) as [[b size]|] eqn:E.
  - destruct (n <=? size); [split; [by left|]; split; [split; [by rewrite E|done]|by apply (H1 b size)]|]. split; [by right|]. split; [apply Hnew|simpl; lia].
  - split; [by right|]. split; [apply Hnew|simpl; lia].
Qed.

(** A hit gives the kept view of the layer before, of the same group and tensors. *)
Lemma group_hit_spec r s r' t h : _group_hit r s = (r', t, h) -> bufs_ok r ->
  t = tag r /\ tag r' = None /\ bufs_ok r' /\ scratch r' = scratch r /\ next_buf r' = next_buf r /\
  match h with
  | Some (b, i) => exists l start k, tag r = Some (l, start) /\ l <> start /\ group r = Some k /\ k_sig k = s /\ k_start k = Some start /\
      k_layer k = Some (l - 1) /\ b = k_buf k /\ i = k_idx k /\ group r' = Some (Kept s (Some l) (Some start) b i)
  | None => group r' = None
  end.
Proof.
  intros E [H1 H2]. unfold _group_hit in E. assert (Hmiss : bufs_ok (Reader None None (scratch r) (next_buf r) (plans r) (reuses r))) by (split; [exact H1|done]).
  destruct (tag r) as [[l start]|] eqn:Et; [|by injection E as <- <- <-]. destruct (group r) as [k|] eqn:Eg; [|by injection E as <- <- <-].
  destruct (_ && _) eqn:C; [|by injection E as <- <- <-]. injection E as <- <- <-.
  apply andb_true_iff in C as [[[C1 C2%bool_decide_eq_true]%andb_true_iff C3%bool_decide_eq_true]%andb_true_iff C4%bool_decide_eq_true].
  split; [done|]. split; [done|]. split; [split; [exact H1|intros k' [= <-] b Hb; by apply (H2 k)]|]. split; [done|]. split; [done|].
  exists l, start, k. rewrite <- C2, <- C3. repeat split; try done. intros ->. rewrite Z.eqb_refl in C1. done.
Qed.

(** What may be reused is only what still reads right. *)
Definition reusable (st : store) (r : reader) : Prop :=
  forall l start k, tag r = Some (l, start) -> l <> start -> group r = Some k -> k_start k = Some start -> k_layer k = Some (l - 1) -> kept_reads st k.

Lemma hit_spec st r a s r' t b i : s_args s = a -> bufs_ok r -> reusable st r -> _group_hit r s = (r', t, Some (b, i)) -> view_spec st r a st r' (Some (b, i, true)).
Proof.
  intros Ha Hb Hr E. destruct (group_hit_spec _ _ _ _ _ E Hb) as (_ & T & B & _ & _ & l & start & k & Et & Hne & Eg & Es & Est & El & -> & -> & Eg').
  split; [done..|exact T|exact B|]. exists (Kept s (Some l) (Some start) (k_buf k) (k_idx k)). rewrite Et. repeat split; try done.
  pose proof (Hr _ _ _ Et Hne Eg Est El) as K. unfold kept_reads in *. by rewrite Es in K.
Qed.

(** A miss plans, into a buffer of its own or the scratch. *)
Lemma miss_spec st st1 r r1 a s t buf dst i : s_args s = a -> cache st1 = cache st -> index st1 = index st -> lens st1 = lens st ->
  bufs_ok r1 -> group r1 = None -> tag r1 = None -> t = tag r -> (forall b, s_buf s = Some b -> b < next_buf r1) ->
  reads_rows (extra_of st a) (eidx (call_of st a)) (_live (call_of st a)) (entries (call_of st a)) dst i ->
  view_spec st r a (set_buf st1 buf dst) (_group_keep r1 t s buf i) (Some (buf, i, false)).
Proof.
  intros Ha E1 E2 E3 [H1 H2] G T Et Hs Hrd. split; [done..| | |].
  - exact T.
  - split; [exact H1|]. simpl. intros k [= <-] b Hb. by apply Hs.
  - eexists. split; [reflexivity|]. simpl. rewrite Et. repeat split; try done. unfold kept_reads. simpl. rewrite Ha, Z.eqb_refl.
    unfold extra_of, call_of in *. simpl. by rewrite E1, E2, E3.
Qed.

Lemma view_ok native st r a : bufs_ok r -> reusable st r -> pool_ok (extra_of st a) -> call_ok (extra_of st a) (call_of st a) ->
  let '(st', r', o) := view native st r a in view_spec st r a st' r' o.
Proof.
  intros Hb Hr Hok Hc. unfold view. destruct native; [|destruct (a_rows a <=? TOKEN_MODE_MAX_ROWS)].
  - unfold native_view. destruct (_group_hit r (Sig a NativePage None)) as [[r1 t] [[b i]|]] eqn:E; [refine (hit_spec _ _ _ _ _ _ _ _ _ Hb Hr E); done|].
    destruct (group_hit_spec _ _ _ _ _ E Hb) as (Et & T & B & Es & En & G). destruct (plan_native _ _) as [[dst i]|] eqn:En'; [|by split].
    unfold fresh_buf. apply (miss_spec st st); try done.
    + destruct B as [B1 B2]. split; simpl; [intros b n Hb'; specialize (B1 b n Hb'); lia|by rewrite G].
    + by apply (native_reads _ _ (dst, i)).
  - unfold group_view. pose proof (token_scratch_spec st r (- (- a_rows a * a_k a / SUB)) (a_k a) Hb) as S.
    destruct (_token_scratch st r _ (a_k a)) as [[st1 r1] buf]. destruct S as (S & B1 & Hbuf).
    assert (Hsame : cache st1 = cache st /\ index st1 = index st /\ lens st1 = lens st /\ group r1 = group r /\ tag r1 = tag r) by (destruct S as [[-> ->]|(_ & ? & ? & ? & ? & ?)]; done).
    destruct Hsame as (E1 & E2 & E3 & Eg & Etg).
    destruct (_group_hit r1 _) as [[r2 t] [[b i]|]] eqn:E.
    + destruct S as [[-> ->]|(Ebuf & _)]; [refine (hit_spec _ _ _ _ _ _ _ _ _ Hb Hr E); done|]. exfalso.
      destruct (group_hit_spec _ _ _ _ _ E B1) as (_ & _ & _ & _ & _ & l & start & k & _ & _ & Gk & Sk & _). rewrite Eg in Gk.
      destruct Hb as [_ H2]. pose proof (H2 k Gk buf ltac:(by rewrite Sk)). lia.
    + destruct (group_hit_spec _ _ _ _ _ E B1) as (Et & T & B2 & Es & En & G). destruct (plan_scratch _ _ _) as [dst i] eqn:Ep.
      assert (Hrd := scratch_reads (extra_of st a) (call_of st a) (bufs st1 buf) Hok Hc).
      assert (Ex : extra_of st1 a = extra_of st a /\ call_of st1 a = call_of st a) by (unfold extra_of, call_of; by rewrite E1, E2, E3).
      destruct Ex as [Ex Ec]. rewrite Ex, Ec in Ep. rewrite Ep in Hrd.
      apply (miss_spec st st1); try done; [by rewrite Et|]. intros b [= <-]. by rewrite En.
  - unfold group_page_view. destruct (_group_hit r (Sig a Page None)) as [[r1 t] [[b i]|]] eqn:E; [refine (hit_spec _ _ _ _ _ _ _ _ _ Hb Hr E); done|].
    destruct (group_hit_spec _ _ _ _ _ E Hb) as (Et & T & B & Es & En & G). destruct (plan_pages _ _) as [dst i] eqn:Ep.
    unfold fresh_buf. apply (miss_spec st st); try done.
    + destruct B as [B1 B2]. split; simpl; [intros b n Hb'; specialize (B1 b n Hb'); lia|by rewrite G].
    + pose proof (pages_reads (extra_of st a) (call_of st a) Hok Hc) as Hrd. by rewrite Ep in Hrd.
Qed.

(** A view writes buffers only. *)
Lemma view_same native st r a :
  let '(st', _, _) := view native st r a in cache st' = cache st /\ index st' = index st /\ lens st' = lens st.
Proof.
  unfold view, native_view, group_view, group_page_view, _token_scratch, fresh_buf, set_buf. by repeat (case_match; simplify_eq/=).
Qed.

(** ** Runs *)

(** A forward of the model's layers: only a cache source writes a cache and only an index
    source the indices and their lengths, and the layers of a group take the same path: the
    next layer of a group calls the reader when the layer before it did. *)
Record forward_ok (cfg : config) (first last : Z) (f : forward) : Prop := {
  fo_cache l : is_Some (w_cache (f_layers f l)) -> l ∈ kv_source_layer_ids cfg;
  fo_index l : is_Some (w_index (f_layers f l)) \/ is_Some (w_lens (f_layers f l)) -> l ∈ index_source_layer_ids cfg;
  fo_path l : first < l < last -> is_Some (group_start cfg l) -> group_start cfg l = group_start cfg (l - 1) ->
              is_Some (w_call (f_layers f l)) -> is_Some (w_call (f_layers f (l - 1)))
}.

Definition valid (e : entry) : Prop := pool_ok (e_extra e) /\ call_ok (e_extra e) (e_call e).
Definition reads (e : entry) : Prop :=
  match e_view e with
  | Some (dst, new_idx, _) => reads_rows (e_extra e) (eidx (e_call e)) (_live (e_call e)) (entries (e_call e)) dst new_idx
  | None => True
  end.

Section Run.
Context (cfg : config) (first last : Z) (Hcfg : config_ok cfg) (Hfirst : 0 <= first).

(** Before layer [l]: a kept view of the layer before it, in this forward, still reads right. *)
Record inv (f : forward) (l : Z) (st : store) (r : reader) : Prop := {
  i_bufs : bufs_ok r;
  i_tag : tag r = None;
  i_start k m s : group r = Some k -> k_layer k = Some m -> k_start k = Some s -> first <= m /\ group_start cfg m = Some s;
  i_reads k : group r = Some k -> k_layer k = Some (l - 1) -> is_Some (w_call (f_layers f (l - 1))) -> first < l -> kept_reads st k
}.

(** A layer that is not its group's start writes nothing the group reads. *)
Lemma follower_writes f l s : forward_ok cfg first last f -> first <= l -> group_start cfg l = Some s -> l <> s ->
  w_cache (f_layers f l) = None /\ w_index (f_layers f l) = None /\ w_lens (f_layers f l) = None.
Proof.
  intros F Hl Hs Hne. destruct (group_start_spec cfg l s Hcfg ltac:(lia) Hs) as [_ H]. destruct (H ltac:(done)) as [Hk Hi].
  split; [|split]; apply eq_None_not_Some; intros Hw; [apply Hk; by apply (fo_cache _ _ _ _ F)|apply Hi, (fo_index _ _ _ _ F); by left|apply Hi, (fo_index _ _ _ _ F); by right].
Qed.

Lemma layer_step f l st r : forward_ok cfg first last f -> first <= l < last -> inv f l st r ->
  let '(st', r', log) := forward_attention cfg st r l (f_layers f l) in
  Forall valid log -> Forall reads log /\ inv f (l + 1) st' r'.
Proof.
  intros F Hl I. unfold forward_attention. set (w := f_layers f l). set (st1 := Store _ _ _ _).
  set (r1 := match group_start cfg l with Some s => set_tag (Some (l, s)) r | None => r end).
  assert (G1 : group r1 = group r /\ tag r1 = (s ← group_start cfg l; Some (l, s)) /\ bufs_ok r1).
  { unfold r1. destruct (group_start cfg l); simpl; (split; [done|split; [|exact (i_bufs _ _ _ _ I)]]); [done|apply (i_tag _ _ _ _ I)]. }
  destruct G1 as (Eg & Et & B1). destruct (w_call w) as [[native a]|] eqn:Ew.
  - assert (Hre : reusable st1 r1).
    { intros l' s k Ht Hne Hk Hks Hkl. rewrite Et in Ht. destruct (group_start cfg l) as [s'|] eqn:Es; [|done]. injection Ht as <- <-. rewrite Eg in Hk.
      destruct (i_start _ _ _ _ I _ _ _ Hk Hkl Hks) as [Hm Hms].
      destruct (follower_writes f l s' F ltac:(lia) Es Hne) as (W1 & W2 & W3).
      assert (Hc : is_Some (w_call (f_layers f (l - 1)))) by (apply (fo_path _ _ _ _ F); [lia|by rewrite Es|by rewrite Es, Hms|fold w; by rewrite Ew]).
      pose proof (i_reads _ _ _ _ I k Hk Hkl Hc ltac:(lia)) as K. unfold kept_reads, extra_of, call_of in *. unfold st1, w.
      rewrite W1, W2, W3. exact K. }
    pose proof (view_ok native st1 r1 a B1 Hre) as V. pose proof (view_same native st1 r1 a) as Hsame.
    destruct (view native st1 r1 a) as [[st2 r2] o]. destruct Hsame as (Q1 & Q2 & Q3).
    assert (Sx : extra_of st2 a = extra_of st1 a) by (unfold extra_of; by rewrite Q1).
    assert (Sc : call_of st2 a = call_of st1 a) by (unfold call_of; by rewrite Q2, Q3). rewrite Sx, Sc. intros [[Hv1 Hv2] _]%Forall_cons.
    simpl in Hv1, Hv2. specialize (V Hv1 Hv2).
    assert (Er' : forall r', r' = match group_start cfg l with Some _ => set_tag None r2 | None => r2 end ->
      group r' = group r2 /\ tag r' = None /\ bufs_ok r').
    { intros r' ->. destruct (group_start cfg l); simpl; (split; [done|split; [|exact (vs_bufs _ _ _ _ _ _ V)]]); [done|exact (vs_tag _ _ _ _ _ _ V)]. }
    destruct (Er' _ eq_refl) as (G' & T' & B'). pose proof (vs_group _ _ _ _ _ _ V) as VG. split; [constructor; [|constructor]|split; [exact B'|exact T'|..]].
    + unfold reads. cbn [e_view]. destruct o as [[[b i] h]|]; [|done]. destruct VG as (k & _ & _ & _ & Kb & Ki & Ka & K).
      unfold kept_reads in K. rewrite Ka, Kb, Ki, Sx, Sc in K. exact K.
    + intros k m s Hk Hkl Hks. rewrite G' in Hk. destruct o as [[[b i] h]|]; [|congruence].
      destruct VG as (k' & Gk & Lk & Sk & _). assert (k' = k) as -> by congruence. rewrite Lk, Et in Hkl. rewrite Sk, Et in Hks.
      destruct (group_start cfg l) as [s'|] eqn:Es; simplify_eq/=. split; [lia|done].
    + intros k Hk _ _ _. rewrite G' in Hk. destruct o as [[[b i] h]|]; [|congruence].
      destruct VG as (k' & Gk & _ & _ & _ & _ & _ & K). by assert (k' = k) as -> by congruence.
  - intros _. split; [constructor|]. split.
    + destruct (group_start cfg l); exact B1.
    + destruct (group_start cfg l); [done|by rewrite Et].
    + intros k m s Hk. apply (i_start _ _ _ _ I). rewrite <- Eg. destruct (group_start cfg l); exact Hk.
    + intros k _ _ Hc _. replace (l + 1 - 1) with l in Hc by lia. fold w in Hc. rewrite Ew in Hc. by destruct Hc.
Qed.

Lemma layers_run f ls : forall l st r, forward_ok cfg first last f -> ls = zrange l last -> first <= l -> inv f l st r ->
  let '(st', r', log) := run_layers cfg st r f ls in
  Forall valid log -> Forall reads log /\ inv f (Z.max l last) st' r'.
Proof.
  induction ls as [|l0 ls IH]; intros l st r F E Hl I; simpl.
  - intros _. split; [constructor|]. destruct (Z.lt_ge_cases l last); [|by rewrite Z.max_l].
    rewrite zrange_cons in E by done. done.
  - destruct (Z.lt_ge_cases l last) as [Hlt|]; [|by rewrite zrange_nil in E]. rewrite zrange_cons in E by done. injection E as -> E.
    pose proof (layer_step f l st r F ltac:(lia) I) as S. destruct (forward_attention cfg st r l (f_layers f l)) as [[st1 r1] log].
    specialize (IH (l + 1) st1 r1 F E ltac:(lia)). destruct (run_layers cfg st1 r1 f ls) as [[st2 r2] log'].
    intros [V1 V2]%Forall_app. destruct (S V1) as [R1 I1]. destruct (IH I1 V2) as [R2 I2]. split; [by apply Forall_app|].
    replace (Z.max l last) with (Z.max (l + 1) last) by lia. exact I2.
Qed.

(** Between forwards only the facts about the reader itself remain, and they are enough. *)
Lemma inv_start f f' l st st' r : inv f l st r -> inv f' first st' r.
Proof.
  intros I. split; [exact (i_bufs _ _ _ _ I)|exact (i_tag _ _ _ _ I)|exact (i_start _ _ _ _ I)|lia].
Qed.

Lemma run_reads fs : forall st r, Forall (forward_ok cfg first last) fs -> (exists f l st0, inv f l st0 r) ->
  let '(_, _, log) := run cfg first last st r fs in Forall valid log -> Forall reads log.
Proof.
  induction fs as [|f fs IH]; intros st r F (f0 & l0 & st0 & I); simpl; [constructor|]. apply Forall_cons in F as [F Fs].
  pose proof (layers_run f _ first (f_before f st) r F eq_refl ltac:(lia) (inv_start _ _ _ _ _ _ I)) as S.
  destruct (run_layers cfg (f_before f st) r f (zrange first last)) as [[st1 r1] log]. specialize (IH st1 r1 Fs).
  destruct (run cfg first last st1 r1 fs) as [[st2 r2] log']. intros [V1 V2]%Forall_app. destruct (S V1) as [R1 I1].
  apply Forall_app. split; [done|]. apply IH; [by exists f, (Z.max first last), st1|done].
Qed.
End Run.

(** A condition on the memory that every write keeps makes every call valid. *)
Lemma run_valid (G : store -> Prop) (F : forward -> Prop) cfg first last :
  (forall st st', cache st' = cache st -> index st' = index st -> lens st' = lens st -> G st -> G st') ->
  (forall f st, F f -> G st -> G (f_before f st)) ->
  (forall f l st, F f -> G st -> let w := f_layers f l in
     G (Store (write (cache st) (w_cache w)) (write (index st) (w_index w)) (write (lens st) (w_lens w)) (bufs st))) ->
  (forall f l native a st, F f -> w_call (f_layers f l) = Some (native, a) -> G st -> pool_ok (extra_of st a) /\ call_ok (extra_of st a) (call_of st a)) ->
  forall fs st r, Forall F fs -> G st -> let '(_, _, log) := run cfg first last st r fs in Forall valid log.
Proof.
  intros Hsame Hbefore Hwrite Hcall. assert (HL : forall f ls st r, F f -> G st ->
    let '(st', _, log) := run_layers cfg st r f ls in G st' /\ Forall valid log).
  { intros f ls st r Hf. revert st r. induction ls as [|l ls IH]; intros st r HG; [by split|]. cbn [run_layers]. unfold forward_attention.
    pose proof (Hwrite f l st Hf HG) as HG1. cbv zeta in HG1. set (st1 := Store _ _ _ _) in *. set (r1 := match group_start cfg l with Some s => _ | None => r end).
    destruct (w_call (f_layers f l)) as [[native a]|] eqn:Ew.
    - pose proof (view_same native st1 r1 a) as V. destruct (view native st1 r1 a) as [[st2 r2] o]. destruct V as (Q1 & Q2 & Q3).
      pose proof (Hsame st1 st2 Q1 Q2 Q3 HG1) as HG2. specialize (IH st2 (match group_start cfg l with Some _ => set_tag None r2 | None => r2 end) HG2).
      destruct (run_layers _ _ _ _ ls) as [[st3 r3] log]. destruct IH as [I1 I2]. split; [done|]. constructor; [|done]. by apply (Hcall f l native a st2).
    - specialize (IH st1 (match group_start cfg l with Some _ => set_tag None r1 | None => r1 end) HG1).
      by destruct (run_layers _ _ _ _ ls) as [[st3 r3] log]. }
  induction fs as [|f fs IH]; intros st r HF HG; [constructor|]. apply Forall_cons in HF as [Hf HF]. cbn [run].
  specialize (HL f (zrange first last) (f_before f st) r Hf (Hbefore f st Hf HG)).
  destruct (run_layers cfg (f_before f st) r f (zrange first last)) as [[st1 r1] log]. destruct HL as [HG1 V1].
  specialize (IH st1 r1 HF HG1). destruct (run cfg first last st1 r1 fs) as [[st2 r2] log']. by apply Forall_app.
Qed.

(** ** One transcode for a group *)

(** The group after a call that gave a view: its own signature, which a second call of the
    same tensors has again. *)
Lemma group_hit_again r l s sg b i : tag r = Some (l, s) -> l <> s -> group r = Some (Kept sg (Some (l - 1)) (Some s) b i) ->
  _group_hit r sg = (Reader None (Some (Kept sg (Some l) (Some s) b i)) (scratch r) (next_buf r) (plans r) (reuses r + 1), Some (l, s), Some (b, i)).
Proof.
  intros Ht Hne Hg. unfold _group_hit. rewrite Ht, Hg. cbn [k_sig k_start k_layer k_buf k_idx].
  rewrite !bool_decide_eq_true_2 by done. destruct (Z.eqb_spec l s); [done|]. done.
Qed.

(** Which signature a view leaves in the group. *)
Lemma group_hit_group r s r' t b i l start : _group_hit r s = (r', t, Some (b, i)) -> tag r = Some (l, start) ->
  group r' = Some (Kept s (Some l) (Some start) b i) /\ scratch r' = scratch r.
Proof.
  intros E Ht. unfold _group_hit in E. rewrite Ht in E. destruct (group r) as [k|]; [|done]. destruct (_ && _) eqn:C; [|done]. injection E as <- _ <- <-.
  apply andb_true_iff in C as [[[_ C2%bool_decide_eq_true]%andb_true_iff C3%bool_decide_eq_true]%andb_true_iff _]. simpl. by rewrite C2, C3.
Qed.

Lemma group_miss_tag r s r' t : _group_hit r s = (r', t, None) -> t = tag r /\ scratch r' = scratch r.
Proof. unfold _group_hit. intros E. repeat (case_match; simplify_eq/=); done. Qed.

Lemma scratch_again st r n k st1 r1 buf : _token_scratch st r n k = (st1, r1, buf) ->
  exists size, scratch r1 = Some (buf, size) /\ n <= size /\ tag r1 = tag r.
Proof.
  unfold _token_scratch. destruct (scratch r) as [[b size]|] eqn:E; [destruct (Z.leb_spec n size)|]; intros [= <- <- <-]; simpl; eexists; (split; [done|split; [lia|done]]).
Qed.

Lemma scratch_keep st r n k buf size : scratch r = Some (buf, size) -> n <= size -> _token_scratch st r n k = (st, r, buf).
Proof. intros E Hn. unfold _token_scratch. rewrite E. destruct (Z.leb_spec n size); [done|lia]. Qed.

Lemma view_again native st r a st1 r1 b i h l s st' :
  view native st r a = (st1, r1, Some (b, i, h)) -> tag r = Some (l - 1, s) -> l <> s ->
  exists r2, view native st' (set_tag (Some (l, s)) r1) a = (st', r2, Some (b, i, true)) /\ plans r2 = plans r1.
Proof.
  intros E Ht Hne. unfold view in *. destruct native; [|destruct (a_rows a <=? TOKEN_MODE_MAX_ROWS)].
  - assert (G : group r1 = Some (Kept (Sig a NativePage None) (Some (l - 1)) (Some s) b i)).
    { unfold native_view in E. destruct (_group_hit r _) as [[r0 t] [[b0 i0]|]] eqn:H.
      - injection E as <- <- <- <- <-. by apply (group_hit_group _ _ _ _ _ _ _ _ H).
      - destruct (group_miss_tag _ _ _ _ H) as [-> _]. destruct (plan_native _ _) as [[dst i0]|]; [|done]. unfold fresh_buf in E. injection E as <- <- <- <- <-.
        unfold _group_keep. simpl. by rewrite Ht. }
    unfold native_view. erewrite (group_hit_again (set_tag (Some (l, s)) r1) l s) by done. by eexists.
  - unfold group_view in E. destruct (_token_scratch st r _ (a_k a)) as [[st0 r0] buf] eqn:Es. destruct (scratch_again _ _ _ _ _ _ _ Es) as (size & Sz & Hn & Et).
    assert (G : group r1 = Some (Kept (Sig a (Scratch (plan_block (a_rows a) (a_k a))) (Some buf)) (Some (l - 1)) (Some s) b i) /\ scratch r1 = Some (buf, size)).
    { destruct (_group_hit r0 _) as [[r2 t] [[b0 i0]|]] eqn:H.
      - injection E as <- <- <- <- <-. rewrite <- Sz. apply (group_hit_group _ _ _ _ _ _ _ _ H). by rewrite Et.
      - destruct (group_miss_tag _ _ _ _ H) as [-> Hs]. destruct (plan_scratch _ _ _) as [dst i0]. injection E as <- <- <- <- <-.
        unfold _group_keep. simpl. by rewrite Et, Ht, Hs. }
    destruct G as [G Sz1]. unfold group_view. rewrite (scratch_keep st' (set_tag (Some (l, s)) r1) _ _ buf size Sz1 Hn).
    erewrite (group_hit_again (set_tag (Some (l, s)) r1) l s) by done. by eexists.
  - assert (G : group r1 = Some (Kept (Sig a Page None) (Some (l - 1)) (Some s) b i)).
    { unfold group_page_view in E. destruct (_group_hit r _) as [[r0 t] [[b0 i0]|]] eqn:H.
      - injection E as <- <- <- <- <-. by apply (group_hit_group _ _ _ _ _ _ _ _ H).
      - destruct (group_miss_tag _ _ _ _ H) as [-> _]. destruct (plan_pages _ _) as [dst i0]. unfold fresh_buf in E. injection E as <- <- <- <- <-.
        unfold _group_keep. simpl. by rewrite Ht. }
    unfold group_page_view. erewrite (group_hit_again (set_tag (Some (l, s)) r1) l s) by done. by eexists.
Qed.

(** A layer that follows another of its group with the same tensors makes no plan: it
    gets the very buffer and indices the layer before it got. *)
Theorem group_reused cfg st r l s w w' :
  group_start cfg (l - 1) = Some s -> group_start cfg l = Some s -> l <> s -> w_call w' = w_call w ->
  let '(st1, r1, log1) := forward_attention cfg st r (l - 1) w in
  let '(_, r2, log2) := forward_attention cfg st1 r1 l w' in
  forall e dst new_idx h, log1 = [e] -> e_view e = Some (dst, new_idx, h) ->
    plans r2 = plans r1 /\ exists e', log2 = [e'] /\ e_view e' = Some (dst, new_idx, true).
Proof.
  intros H1 H2 Hne Hw. unfold forward_attention. rewrite H1, H2, Hw. destruct (w_call w) as [[native a]|]; [|done].
  set (st0 := Store _ _ _ (bufs st)). destruct (view native st0 (set_tag (Some (l - 1, s)) r) a) as [[st1 r1] [[[b i] h0]|]] eqn:E.
  - set (st' := Store _ _ _ (bufs st1)). destruct (view_again native _ _ a st1 r1 b i h0 l s st' E eq_refl Hne) as (r2 & E2 & Hp).
    change (set_tag (Some (l, s)) (set_tag None r1)) with (set_tag (Some (l, s)) r1). rewrite E2. intros e dst new_idx h [= <-] [= <- <- <-].
    split; [exact Hp|]. by eexists.
  - destruct (view native _ (set_tag (Some (l, s)) (set_tag None r1)) a) as [[st2 r2] o]. by intros e dst new_idx h [= <-].
Qed.

(** C6: in every run of forwards, whatever calls each makes and whatever changed in the memory
    between them, a view the reader gives, planned or reused from an earlier layer of the
    group, reads at every live entry the row of the entry's token in the cache as it is then,
    and masks every other: reuse is never stale. *)
Theorem group_reuse_reads cfg first last st fs :
  config_ok cfg -> 0 <= first -> Forall (forward_ok cfg first last) fs ->
  let '(_, _, log) := run cfg first last st (Reader None None None 0 0 0) fs in
  Forall valid log -> Forall reads log.
Proof.
  intros Hcfg Hf F. apply (run_reads cfg first last Hcfg Hf fs st (Reader None None None 0 0 0) F).
  exists (Forward id (fun _ => Layer None None None None)), first, st. by repeat split.
Qed.
End Reuse.

(** ** Witnesses *)
Definition schedule1 : schedule.
Proof.
  refine (Schedule (fun c => rev (plan_grid c TOK_R)) _ (fun c g => rev (zrange 0 (rows c / g))) _ (fun c g => rev (list_grid c g TOK_R)) _
    (fun c => rev (index_grid c)) _ (fun x => rev (page_grid x)) _); intros; symmetry; apply Permutation_rev.
Defined.

(** Four layers of ratio 1 in two groups, and one of ratio 2; two forwards of them, the cache
    and the indices rewritten by the sources of each. *)
Definition config1 : config := Config [1; 1; 1; 1; 2] [0; 4] [0; 2; 4].
Definition args1 : args := Args 7 4 1152 2 40 4 3 (Some 50).
Definition work1 (shift l : Z) : layer_work :=
  let src := bool_decide (l ∈ [0; 2]) in
  Layer (if l =? 0 then Some (7, fun a => (37 * a + shift) mod 120) else None)
    (if src then Some (40, fun p => (p * p + shift) mod 9 - 1) else None)
    (if src then Some (50, fun r => r + 1) else None)
    (if (0 <=? l) && (l <? 4) then Some (false, args1) else None).
Definition forward1 (shift : Z) : forward := Forward id (work1 shift).
Definition store1 : store := Store (fun _ _ => 0) (fun _ _ => -1) (fun _ _ => 0) (fun _ _ => 0).

Definition is_forward1 (f : forward) : Prop := f = forward1 3 \/ f = forward1 5.

Lemma forward1_ok f : is_forward1 f -> forward_ok config1 0 5 f.
Proof.
  intros Hf. assert (E : exists s, f = forward1 s) by (destruct Hf as [-> | ->]; by eexists). destruct E as [s ->]. split; simpl.
  - intros l. destruct (Z.eqb_spec l 0) as [->|]; [set_solver|]. by intros [? ?].
  - intros l. case_bool_decide as C; [set_solver|]. by intros [[? ?]|[? ?]].
  - intros l Hl _ _. destruct (Z.leb_spec 0 l), (Z.ltb_spec l 4), (Z.leb_spec 0 (l - 1)), (Z.ltb_spec (l - 1) 4); simpl; try done; lia.
Qed.

(** Bytes that are never a NaN scale, and tokens of the pool. *)
Definition good (st : store) : Prop := (forall p a, 0 <= cache st p a < 120) /\ forall p i, index st p i < 8.

Lemma good_args st : good st -> pool_ok (extra_of st args1) /\ call_ok (extra_of st args1) (call_of st args1).
Proof.
  intros [H1 H2]. split; [split; [done|]|split; [done|split; [done|]]].
  - intros tok _. split; intros i _; unfold rec_data, rec_scales; cbn [src extra_of].
    + match goal with |- context [cache st ?p ?a] => pose proof (H1 p a) end. lia.
    + match goal with |- context [cache st ?p ?a] => pose proof (H1 p a) end. split; [lia|]. rewrite Z.mod_small by lia. lia.
  - intros p _ _. apply H2.
Qed.

Lemma runs_valid r : let '(_, _, log) := run (P := group_planner 6 24 1073741824 schedule1) config1 0 5 store1 r [forward1 3; forward1 5] in Forall valid log.
Proof.
  apply (run_valid (P := group_planner 6 24 1073741824 schedule1) good is_forward1).
  - intros st st' E1 E2 _ [H1 H2]. split; intros; by rewrite ?E1, ?E2.
  - by intros f st [-> | ->].
  - intros f l st Hf [H1 H2]. assert (E : exists s, f = forward1 s) by (destruct Hf as [-> | ->]; by eexists). destruct E as [s ->].
    split; simpl; intros p i.
    + destruct (l =? 0); simpl; [|apply H1]. destruct (p =? 7); [|apply H1]. by apply Z.mod_pos_bound.
    + case_bool_decide; simpl; [|apply H2]. destruct (p =? 40); [|apply H2]. pose proof (Z.mod_pos_bound (i * i + s) 9 ltac:(lia)). lia.
  - intros f l native a st Hf Hw HG. assert (E : exists s, f = forward1 s) by (destruct Hf as [-> | ->]; by eexists). destruct E as [s ->].
    simpl in Hw. destruct (_ && _); [|done]. injection Hw as _ <-. by apply good_args.
  - by apply Forall_cons; split; [left|apply Forall_singleton; right].
  - split; [done|]. intros p i. simpl. lia.
Qed.

Lemma group_reuse_reads_witness :
  let '(_, _, log) := run (P := group_planner 6 24 1073741824 schedule1) config1 0 5 store1 (Reader None None None 0 0 0) [forward1 3; forward1 5] in
  Forall valid log /\ Forall reads log.
Proof.
  pose proof (group_reuse_reads (P := group_planner 6 24 1073741824 schedule1) config1 0 5 store1 [forward1 3; forward1 5]) as H.
  pose proof (runs_valid (Reader None None None 0 0 0)) as V.
  destruct (run _ _ _ _ _ _) as [[st r] log]. split; [exact V|]. apply H; [by split; repeat constructor|lia| |exact V].
  apply Forall_cons. split; [|apply Forall_singleton]; apply forward1_ok; [by left|by right].
Defined.

(** What the two forwards plan and what they reuse: two groups of two layers each. *)
Example reuse_pattern :
  let '(_, r, log) := run (P := group_planner 6 24 1073741824 schedule1) config1 0 5 store1 (Reader None None None 0 0 0) [forward1 3; forward1 5] in
  plans r = 4 /\ map (fun e => snd <$> e_view e) log = [Some false; Some true; Some false; Some true; Some false; Some true; Some false; Some true].
Proof. lazy. split; reflexivity. Qed.

Lemma group_reused_witness :
  let '(st1, r1, log1) := forward_attention (P := group_planner 6 24 1073741824 schedule1) config1 store1 (Reader None None None 0 0 0) 2 (work1 3 2) in
  let '(_, r2, log2) := forward_attention (P := group_planner 6 24 1073741824 schedule1) config1 st1 r1 3 (work1 3 3) in
  forall e dst new_idx h, log1 = [e] -> e_view e = Some (dst, new_idx, h) ->
    plans r2 = plans r1 /\ exists e', log2 = [e'] /\ e_view e' = Some (dst, new_idx, true).
Proof. apply (group_reused (P := group_planner 6 24 1073741824 schedule1) config1 store1 _ 3 2 (work1 3 2) (work1 3 3)); done. Defined.
