(* ===== verification/V41cPool.v ===== *)
(** * Pools of compressed records (adapter/v41c_pool.py, the flags of runtime/flashinfer_v41c/v41c.py)

    The patch that makes the engine's ratio-1 and ratio-2 pools hold 288-byte records: the
    flags, the layout it resolves and the pairs it accepts, the check of a built pool, the
    pricing of the records in the pool sizing, and the table of tactics a process resolves.
    The engine's own functions (layouts, pool classes, configurator, tuner) are parameters. *)
From S2P Require Import Prelude PyStr FpBits Fp4Record V41cRows V41cPlan V41cReader.
From stdpp Require Import gmap strings.
From Stdlib Require Import QArith Qabs Lqa.
#[local] Open Scope string_scope.
#[local] Open Scope list_scope.
#[local] Open Scope Z_scope.

(** ** Flags *)
Definition enabled (env : environ) : res bool :=
  let raw := strip (env_get env "DSV41_KV_LAYOUT" "") in
  if one_of raw [""; "v4"] then Ok false else if String.eqb raw "v41c" then Ok true else Raise ValueError.

Inductive reader_kind := Group | Io | Native.
Definition reader_mode (env : environ) : res reader_kind :=
  let raw := strip (env_get env "DSV41_V41C_READER" "") in
  if one_of raw [""; "group"] then Ok Group else if String.eqb raw "io" then Ok Io else if String.eqb raw "native" then Ok Native else Raise ValueError.

(** [dedup_rule]'s inner [_int]. *)
Definition _int (env : environ) (name : string) (default : Z) : res Z :=
  let raw := strip (env_get env name "") in
  val ← (if String.eqb raw "" then Ok default else py_int raw);
  if val <? 0 then Raise ValueError else Ok val.
Definition dedup_rule (env : environ) : res (Z * Z) :=
  g ← _int env "DSV41_V41C_DEDUP_ROWS" 6;
  m ← _int env "DSV41_V41C_DEDUP_MIN_ROWS" 24;
  Ok (g, m).

(** [is_fp4], by the last dimension of an extra cache when there is one. *)
Definition is_fp4 (env : environ) (last_dim : option Z) : res bool :=
  match last_dim with
  | Some 288 => on ← enabled env; if (on : bool) then Ok true else Raise RuntimeError
  | _ => Ok false
  end.

(** ** Layouts *)
Definition FP4_BYTES : Z := 288.
Definition V4_BYTES : Z := 584.
Definition FP4_PAGE_BYTES (page : Z) : option Z := if page =? 256 then Some 73728 else if page =? 128 then Some 36864 else None.

(** The engine's layouts, of which the patch names two. *)
Inductive KVLayout := V4 | V41_FP4 | OtherLayout (n : Z).
#[export] Instance KVLayout_eq_dec : EqDecision KVLayout.
Proof. solve_decision. Defined.

(** What a layout says of itself. *)
Record layout_values := Values { bytes_per_token : KVLayout -> Z; data_bytes : KVLayout -> Z; scale_bytes : KVLayout -> Z; page_bytes : KVLayout -> Z -> Z }.

Definition check_layout (v : layout_values) : res unit :=
  if (bytes_per_token v V41_FP4 =? FP4_BYTES) && (data_bytes v V41_FP4 =? 256) && (scale_bytes v V41_FP4 =? 32)
     && bool_decide (Some (page_bytes v V41_FP4 256) = FP4_PAGE_BYTES 256) && bool_decide (Some (page_bytes v V41_FP4 128) = FP4_PAGE_BYTES 128)
     && (bytes_per_token v V4 =? V4_BYTES)
  then Ok tt else Raise RuntimeError.

Section Layouts.
Context (stock_resolve : KVLayout -> Z -> option string -> res KVLayout) (stock_valid : KVLayout -> KVLayout -> bool).

Definition resolve_compressed_kv_layout (kv_layout : KVLayout) (compress_ratio : Z) (option_ : option string) : res KVLayout :=
  if bool_decide (kv_layout = V4) && bool_decide (compress_ratio ∈ LOW_RATIOS) then
    match option_ with
    | Some o => if one_of (lower (strip o)) [""; "auto"] then Ok V41_FP4 else Raise ValueError
    | None => Ok V41_FP4
    end
  else stock_resolve kv_layout compress_ratio option_.

Definition is_valid_kv_layout_pair (kv extra_kv : KVLayout) : bool :=
  bool_decide (kv = V4) && bool_decide (extra_kv = V41_FP4) || stock_valid kv extra_kv.
End Layouts.

(** ** The check of a built pool *)
Record low_pool := LowPool { p_layout : KVLayout; p_page_size : Z; bytes_per_page_padded : Z; kv_buffer : list (list Z); kv_cache_total_dim : Z }.
Record pool := Pool { unified_kv : bool; pool_layout : KVLayout; kv_pools : Z -> option low_pool }.

Definition want_page (v : layout_values) (p : low_pool) : Z :=
  default (page_bytes v V41_FP4 (p_page_size p)) (FP4_PAGE_BYTES (p_page_size p)).
Definition low_pool_ok (v : layout_values) (p : low_pool) : bool :=
  bool_decide (p_layout p = V41_FP4) && (bytes_per_page_padded p =? want_page v p)
  && forallb (fun s => (zlen s =? 2) && match s with _ :: b :: _ => b =? want_page v p | _ => false end) (kv_buffer p)
  && (kv_cache_total_dim p =? FP4_BYTES).

(** The receipt names the ratios found; a pool that is not the one the readers expect raises. *)
Definition check_pool (v : layout_values) (p : pool) : res (list (Z * low_pool)) :=
  if unified_kv p then Raise RuntimeError
  else if negb (bool_decide (pool_layout p = V4)) then Raise RuntimeError
  else mapR (fun rp => if low_pool_ok v rp.2 then Ok rp else Raise RuntimeError)
         (omap (fun ratio => (fun lp => (ratio, lp)) <$> kv_pools p ratio) LOW_RATIOS).

(** ** Pricing *)
Section Sizing.
Context (ratio : Z -> Z).
Local Open Scope Q_scope.

Fixpoint qsum (l : list Q) : Q := match l with [] => 0 | q :: l => q + qsum l end.

(** The sources of this stage whose ratio is 1 or 2. *)
Definition stage_sources (sources : list Z) (first last : Z) : list Z :=
  filter (fun l => (first <= l < last)%Z /\ ratio l ∈ LOW_RATIOS) sources.
Definition low_ratio_bytes (sources : list Z) (first last kv_bytes index_bytes : Z) : Q :=
  qsum (map (fun l => inject_Z (kv_bytes + index_bytes) / inject_Z (ratio l)) (stage_sources sources first last)).

Record configurator := Conf { c_unified : bool; c_kv_bytes : Z; c_low : Q; c_full : Q; spec_infl : Q }.

(** [resize]; [full_bytes] is the engine's [_get_bytes_per_full_token] as a function of the
    ratio-1/2 term. *)
Definition resize (full_bytes : Q -> Q) (sources : list Z) (first last index_bytes : Z) (c : configurator) : res configurator :=
  if c_unified c then Raise RuntimeError
  else if negb (c_kv_bytes c =? V4_BYTES)%Z then Raise RuntimeError
  else
    let stock := low_ratio_bytes sources first last (c_kv_bytes c) index_bytes in
    if negb (Qle_bool (Qabs (stock - c_low c)) (1 # 1000000)) then Raise RuntimeError
    else if Qeq_bool (c_low c) 0 then Ok c
    else
      let low := low_ratio_bytes sources first last FP4_BYTES index_bytes in
      let full := full_bytes low * spec_infl c in
      if negb (Qle_bool full 0) && negb (Qle_bool (c_full c) full)
      then Ok (Conf (c_unified c) (c_kv_bytes c) low full (spec_infl c))
      else Raise RuntimeError.
End Sizing.

(** ** Tactics *)

(** What one call of [native_tactic] finds: the tuner's mode, the frozen table, the stock hot
    cache and the stock lookup's answer for the key. *)
Record lookup_ctx := Ctx { tuning : bool; frozen : option (gmap string Z); hot : option Z; chosen : Z }.

Definition native_tactic (tactics : gmap string Z) (key : string) (c : lookup_ctx) : gmap string Z * res Z :=
  if tuning c then (tactics, Raise RuntimeError)
  else
    let found := match frozen c with
                 | Some table => match table !! key with Some t => Ok t | None => Raise RuntimeError end
                 | None => match hot c with Some t => Ok t | None => Ok (chosen c) end
                 end in
    match found with
    | Raise e => (tactics, Raise e)
    | Ok tactic =>
        match tactics !! key with
        | None => (<[key := tactic]> tactics, Ok tactic)
        | Some prev => (tactics, if prev =? tactic then Ok tactic else Raise RuntimeError)
        end
    end.

Fixpoint native_tactics (tactics : gmap string Z) (calls : list (string * lookup_ctx)) : list (string * res Z) :=
  match calls with
  | [] => []
  | (key, c) :: calls => let '(tactics, r) := native_tactic tactics key c in (key, r) :: native_tactics tactics calls
  end.

(** ** The layout the readers rely on *)

(** Byte [i] of a record, its codes then its scales, in the extra cache. *)
Definition rec_addr (x : extra) (tok i : Z) : Z :=
  if i <? DATA then tok / pbs x * stride x + tok mod pbs x * DATA + i
  else tok / pbs x * stride x + pbs x * DATA + tok mod pbs x * SCALE + (i - DATA).

Lemma rec_addr_reads x tok i : (0 <= i < DATA -> rec_data x tok i = src x (rec_addr x tok i)) /\
  (0 <= i < SCALE -> rec_scales x tok i = src x (rec_addr x tok (DATA + i))).
Proof.
  unfold rec_data, rec_scales, rec_addr, DATA, SCALE. split; intros Hi.
  - by destruct (Z.ltb_spec i 256); [|lia].
  - destruct (Z.ltb_spec (256 + i) 256); [lia|]. do 2 f_equal. lia.
Qed.

(** The view of a checked pool's buffer. *)
Definition pool_extra (p : low_pool) (bytes : Z -> Z) (pages : Z) : extra := Extra bytes (p_page_size p) (bytes_per_page_padded p) pages.

Lemma mapR_check {A} (f : A -> bool) (l k : list A) : mapR (fun a => if f a then Ok a else Raise RuntimeError) l = Ok k -> k = l /\ Forall (fun a => f a = true) l.
Proof.
  revert k. induction l as [|a l IH]; intros k; cbn [mapR]; [by intros [= <-]|]. destruct (f a) eqn:E; [|done].
  destruct (mapR _ l) as [k'|]; [|done]. intros [= <-]. destruct (IH k' eq_refl) as [-> HF]. split; [done|]. by constructor.
Qed.

Lemma page_records (pb st tok i : Z) : 0 < pb -> st = pb * FP4_BYTES -> 0 <= tok -> 0 <= i < FP4_BYTES ->
  exists o, (if i <? DATA then tok / pb * st + tok mod pb * DATA + i else tok / pb * st + pb * DATA + tok mod pb * SCALE + (i - DATA)) = tok / pb * st + o /\
    0 <= o < st /\ 0 <= tok mod pb < pb /\ 0 <= tok / pb /\ o = (if i <? DATA then tok mod pb * DATA + i else pb * DATA + tok mod pb * SCALE + (i - DATA)).
Proof.
  unfold FP4_BYTES, DATA, SCALE. intros Hp -> Ht Hi. pose proof (Z.mod_pos_bound tok pb Hp). pose proof (Z.div_pos tok pb Ht Hp).
  destruct (Z.ltb_spec i 256); eexists; (split; [|split; [|split; [done|split; [done|reflexivity]]]]); nia.
Qed.

(** C28: when the check of a built pool passes, every record of a pool with 256- or 128-token
    pages lies inside its page and so inside the buffer, and no byte belongs to two records. *)
Theorem checked_records_inside v p found ratio lp bytes pages :
  check_layout v = Ok tt -> check_pool v p = Ok found -> (ratio, lp) ∈ found ->
  p_page_size lp = 256 \/ p_page_size lp = 128 ->
  let x := pool_extra lp bytes pages in
  ratio ∈ LOW_RATIOS /\ kv_pools p ratio = Some lp /\
  (forall s, s ∈ kv_buffer lp -> exists n, s = [n; stride x]) /\
  (forall tok i, 0 <= tok < n_pool x -> 0 <= i < FP4_BYTES -> 0 <= rec_addr x tok i < pages * stride x) /\
  (forall tok i tok' i', 0 <= tok < n_pool x -> 0 <= tok' < n_pool x -> 0 <= i < FP4_BYTES -> 0 <= i' < FP4_BYTES ->
     rec_addr x tok i = rec_addr x tok' i' -> tok = tok' /\ i = i').
Proof.
  intros Hv Hc Hin Hps x. unfold check_pool in Hc. destruct (unified_kv p); [done|]. destruct (negb _); [done|].
  apply (mapR_check (fun rp => low_pool_ok v rp.2)) in Hc as [-> HF]. rewrite Forall_forall in HF. pose proof (HF _ Hin) as Hok. cbn [snd] in Hok.
  apply list_elem_of_omap in Hin as (r & Hr & Hl). destruct (kv_pools p r) as [lp'|] eqn:Ek; [|done]. injection Hl as -> ->.
  unfold low_pool_ok in Hok. apply andb_true_iff in Hok as [[[_ Hb]%andb_true_iff Hs]%andb_true_iff _].
  assert (Hst : stride x = pbs x * FP4_BYTES).
  { unfold x, pool_extra. cbn [stride pbs]. apply Z.eqb_eq in Hb. rewrite Hb. unfold want_page, FP4_PAGE_BYTES, FP4_BYTES. by destruct Hps as [-> | ->]. }
  assert (Hpb : 0 < pbs x) by (unfold x, pool_extra; cbn [pbs]; lia). split; [done|]. split; [done|]. split; [|split].
  - intros s Hs'. rewrite forallb_forall in Hs. apply list_elem_of_In, Hs in Hs'. apply andb_true_iff in Hs' as [H2 H3].
    destruct s as [|n [|b [|? ?]]]; try done. exists n. apply Z.eqb_eq in H3, Hb. unfold x, pool_extra. cbn [stride]. by rewrite Hb, H3.
    rewrite !zlen_cons in H2. pose proof (zlen_nonneg l). lia.
  - intros tok i Ht Hi. unfold rec_addr. destruct (page_records (pbs x) (stride x) tok i Hpb Hst ltac:(lia) Hi) as (o & -> & Ho & _ & Hd & _).
    assert (tok / pbs x < pages) by (apply Z.div_lt_upper_bound; [done|unfold n_pool in Ht; unfold x, pool_extra in *; simpl in *; lia]). nia.
  - intros tok i tok' i' Ht Ht' Hi Hi'. unfold rec_addr.
    destruct (page_records (pbs x) (stride x) tok i Hpb Hst ltac:(lia) Hi) as (o & -> & Ho & Hm & _ & Eo).
    destruct (page_records (pbs x) (stride x) tok' i' Hpb Hst ltac:(lia) Hi') as (o' & -> & Ho' & Hm' & _ & Eo'). intros E.
    assert (Ed : tok / pbs x = tok' / pbs x) by nia. assert (Eoo : o = o') by nia. rewrite Eo, Eo' in Eoo. unfold DATA, SCALE, FP4_BYTES in *.
    assert (tok mod pbs x = tok' mod pbs x /\ i = i') as [Em ->] by (destruct (Z.ltb_spec i 256), (Z.ltb_spec i' 256); lia).
    split; [|done]. rewrite (Z.div_mod tok (pbs x)), (Z.div_mod tok' (pbs x)) by lia. congruence.
Qed.

(** ** The resolved layout is one the engine accepts and the readers serve *)
Lemma resolved_pair_valid stock_resolve stock_valid env ratio opt l :
  enabled env = Ok true -> ratio ∈ LOW_RATIOS -> resolve_compressed_kv_layout stock_resolve V4 ratio opt = Ok l ->
  l = V41_FP4 /\ is_valid_kv_layout_pair stock_valid V4 l = true /\ is_fp4 env (Some FP4_BYTES) = Ok true.
Proof.
  intros He Hr. unfold resolve_compressed_kv_layout. rewrite !bool_decide_eq_true_2 by done. cbn [andb].
  assert (H : is_fp4 env (Some FP4_BYTES) = Ok true) by (unfold is_fp4, FP4_BYTES; simpl; by rewrite He).
  destruct opt as [o|]; [destruct (one_of _ _); [|done]|]; intros [= <-]; by repeat split.
Qed.

(** ** Tactics *)

(** What is resolved for a key stays: an answer is the recorded one, or is recorded. *)
Lemma native_tactic_spec tactics key c tactics' r : native_tactic tactics key c = (tactics', r) ->
  (forall key' t, tactics !! key' = Some t -> tactics' !! key' = Some t) /\ (forall t, r = Ok t -> tactics' !! key = Some t).
Proof.
  unfold native_tactic. destruct (tuning c); [by intros [= <- <-]|].
  destruct (match frozen c with Some _ => _ | None => _ end) as [t|e]; [|by intros [= <- <-]].
  destruct (tactics !! key) as [prev|] eqn:E.
  - destruct (Z.eqb_spec prev t) as [->|]; intros [= <- <-]; (split; [done|]); [by intros t' [= <-]|done].
  - intros [= <- <-]. split; [|intros t' [= <-]; apply lookup_insert_eq]. intros key' t' Hk.
    rewrite lookup_insert_ne; [done|]. intros ->. congruence.
Qed.

Lemma native_tactics_recorded calls : forall tactics key t t',
  tactics !! key = Some t -> (key, Ok t') ∈ native_tactics tactics calls -> t' = t.
Proof.
  induction calls as [|[key0 c] calls IH]; intros tactics key t t' Ht; cbn [native_tactics]; [by intros ?%elem_of_nil|].
  destruct (native_tactic tactics key0 c) as [tactics' r] eqn:E. destruct (native_tactic_spec _ _ _ _ _ E) as [H1 H2].
  intros [[= <- <-]|Hin]%elem_of_cons; [|by apply (IH tactics' key); [apply H1|]].
  specialize (H1 _ _ Ht). specialize (H2 _ eq_refl). congruence.
Qed.

(** Whatever the tuner answers over the life of a process, every answer the native reader
    gives for one shape is the same; a different later answer, a tuner in tuning mode and a
    shape missing from a frozen table raise. *)
Theorem tactics_stable calls key t t' :
  (key, Ok t) ∈ native_tactics ∅ calls -> (key, Ok t') ∈ native_tactics ∅ calls -> t = t'.
Proof.
  generalize (∅ : gmap string Z). induction calls as [|[key0 c] calls IH]; intros tactics; cbn [native_tactics]; [by intros ?%elem_of_nil|].
  destruct (native_tactic tactics key0 c) as [tactics' r] eqn:E. destruct (native_tactic_spec _ _ _ _ _ E) as [H1 H2].
  intros [Ea|Ha]%elem_of_cons [Eb|Hb]%elem_of_cons.
  - congruence.
  - injection Ea as -> <-. symmetry. by apply (native_tactics_recorded calls tactics' key0); [apply H2|].
  - injection Eb as -> <-. by apply (native_tactics_recorded calls tactics' key0); [apply H2|].
  - by apply (IH tactics').
Qed.

(** ** Pricing *)
Section SizingFacts.
Context (ratio : Z -> Z).
Local Open Scope Q_scope.

(** The tokens a source keeps per full token. *)
Definition share (l : Z) : Q := 1 / inject_Z (ratio l).

Lemma low_ratio_linear sources first last kv ib :
  low_ratio_bytes ratio sources first last kv ib == inject_Z (kv + ib) * qsum (map share (stage_sources ratio sources first last)).
Proof.
  unfold low_ratio_bytes. induction (stage_sources ratio sources first last) as [|l ls IH]; cbn [map qsum]; [ring|].
  rewrite IH. unfold share, Qdiv. ring.
Qed.

Lemma share_pos sources first last : Forall (fun l => 1 # 2 <= share l) (stage_sources ratio sources first last).
Proof.
  apply Forall_forall. intros l [[_ Hr] _]%list_elem_of_filter. unfold share, LOW_RATIOS in *.
  apply elem_of_cons in Hr as [-> | Hr]; [by compute|]. apply list_elem_of_singleton in Hr as ->. by compute.
Qed.

Lemma qsum_pos (l : list Q) : Forall (fun q => 1 # 2 <= q) l -> inject_Z (zlen l) * (1 # 2) <= qsum l.
Proof.
  induction 1 as [|q l Hq _ IH]; [by compute|]. cbn [qsum]. rewrite zlen_cons, inject_Z_plus. change (inject_Z 1) with 1. lra.
Qed.

(** A resized configurator either has no ratio-1 or ratio-2 source in its stage and is
    unchanged, or prices every record at 288 bytes: the term drops by 296 bytes for every
    record a full token keeps, so by at least 148 bytes a source, and a full token costs less
    than before and more than nothing; the draft inflation is applied as it was. *)
Lemma resize_prices full_bytes sources first last ib c c' :
  resize ratio full_bytes sources first last ib c = Ok c' ->
  let n := zlen (stage_sources ratio sources first last) in
  (c' = c /\ c_low c == 0) \/
  (c_low c' == low_ratio_bytes ratio sources first last FP4_BYTES ib /\
   low_ratio_bytes ratio sources first last V4_BYTES ib - c_low c' >= inject_Z (148 * n) /\
   c_full c' == full_bytes (c_low c') * spec_infl c /\ spec_infl c' = spec_infl c /\
   0 < c_full c' /\ c_full c' < c_full c).
Proof.
  intros H n. unfold resize in H. destruct (c_unified c); [done|]. destruct (negb _) eqn:E1; [done|]. destruct (negb (Qle_bool _ _)); [done|].
  destruct (Qeq_bool (c_low c) 0) eqn:E0; [left; injection H as <-; split; [done|]; by apply Qeq_bool_iff|]. right.
  destruct (negb (Qle_bool _ 0) && _) eqn:E2; [|done]. injection H as <-. cbn [c_low c_full spec_infl].
  apply andb_true_iff in E2 as [E2 E3]. split; [reflexivity|]. split.
  - rewrite !low_ratio_linear. unfold V4_BYTES, FP4_BYTES.
    pose proof (qsum_pos _ (proj2 (Forall_map share (fun q => 1 # 2 <= q) _) (share_pos sources first last))) as Hq. rewrite zlen_map in Hq.
    fold n in Hq. rewrite !inject_Z_plus, inject_Z_mult. change (inject_Z 584) with 584. change (inject_Z 288) with 288. change (inject_Z 148) with 148. lra.
  - split; [reflexivity|]. split; [reflexivity|]. split.
    + apply Qnot_le_lt. intros Hc. apply Qle_bool_iff in Hc. rewrite Hc in E2. done.
    + apply Qnot_le_lt. intros Hc. apply Qle_bool_iff in Hc. rewrite Hc in E3. done.
Qed.
End SizingFacts.

(** ** Witnesses *)
Definition values1 : layout_values :=
  Values (fun l => match l with V41_FP4 => 288 | _ => 584 end) (fun _ => 256) (fun _ => 32) (fun _ p => p * 288).
Definition low1 (page : Z) : low_pool := LowPool V41_FP4 page (page * 288) [[7; page * 288]; [7; page * 288]] 288.
Definition pool_v41c : pool := Pool false V4 (fun r => if r =? 1 then Some (low1 256) else if r =? 2 then Some (low1 128) else None).

Lemma checked_records_inside_witness :
  let x := pool_extra (low1 128) (fun _ => 0) 7 in
  check_pool values1 pool_v41c = Ok [(1, low1 256); (2, low1 128)] /\
  forall tok i, 0 <= tok < n_pool x -> 0 <= i < FP4_BYTES -> 0 <= rec_addr x tok i < 7 * stride x.
Proof.
  split; [reflexivity|].
  apply (checked_records_inside values1 pool_v41c [(1, low1 256); (2, low1 128)] 2 (low1 128) (fun _ => 0) 7 eq_refl eq_refl); [set_solver|by right].
Defined.

Lemma tactics_stable_witness :
  ("a", Ok 3) ∈ native_tactics ∅ [("a", Ctx false None None 3); ("b", Ctx false None (Some 1) 9); ("a", Ctx false None (Some 4) 4); ("a", Ctx false None (Some 3) 4)] /\ 3 = 3.
Proof.
  assert (H : ("a", Ok 3) ∈ native_tactics ∅ [("a", Ctx false None None 3); ("b", Ctx false None (Some 1) 9); ("a", Ctx false None (Some 4) 4); ("a", Ctx false None (Some 3) 4)])
    by (vm_compute; left).
  split; [exact H|]. exact (tactics_stable _ "a" 3 3 H H).
Defined.

Definition ratio1 (l : Z) : Z := if l =? 0 then 1 else 2.
Definition full1 (low : Q) : Q := (low + 100)%Q.
Definition conf1 : configurator := Conf false 584 978 1078 1.
Definition low1' : Q := low_ratio_bytes ratio1 [0; 1; 5] 0 5 FP4_BYTES 68.

Lemma resize_prices_witness :
  let c' := Conf false 584 low1' (full1 low1' * 1)%Q 1%Q in
  resize ratio1 full1 [0; 1; 5] 0 5 68 conf1 = Ok c' /\ ((c' = conf1 /\ (c_low conf1 == 0)%Q) \/ (0 < c_full c')%Q /\ (c_full c' < c_full conf1)%Q).
Proof.
  assert (H : resize ratio1 full1 [0; 1; 5] 0 5 68 conf1 = Ok (Conf false 584 low1' (full1 low1' * 1)%Q 1%Q)) by (vm_compute; reflexivity).
  split; [exact H|]. destruct (resize_prices ratio1 _ _ _ _ _ _ _ H) as [H0|(_ & _ & _ & _ & Hd)]; [by left|right; exact Hd].
Defined.
