(* ===== verification/EagerGlue.v ===== *)
(** * Work between the draft and verify graphs (adapter/eager_glue.py)

    Four parts that make the steps between two graph replays cheaper and must not change a
    byte: one copy kernel for the clones of the verify results ([fence]), staging the sampling
    parameters only when their inputs change ([stage]), and the live lengths of VerifyCap
    computed inside the draft graph ([vcap]) or by one kernel ([vcapk]).  The two parts the
    module drops parse and install nothing, and the text kept for a diagnosis is not
    modelled.  The engine's sampler and proposer, and the association torch's running product
    uses, are parameters.  VerifyCap's state is rank 0's, whose lengths the ranks share; its
    buffer has 64 rows, and what the kernel, which takes up to 1024, would store past them is
    memory the model does not hold. *)
From Stdlib Require Import Ascii String.
From S2P Require Import Prelude PyStr VerifyCap.
#[local] Open Scope string_scope.
#[local] Open Scope list_scope.
#[local] Open Scope Z_scope.

(** ** Parts *)
Definition PARTS : list string := ["fence"; "stage"; "vcap"; "vcapk"; "tvglue"; "dglue"].
Definition _OFF : list string := [""; "0"; "off"; "false"; "no"].
Definition DROPPED : list string := ["tvglue"; "dglue"].
Definition kept_parts (l : list string) : list string := filter (fun p => p ∉ DROPPED) l.

Fixpoint replace_char (a b : ascii) (s : string) : string :=
  match s with "" => "" | String c s => String (if Ascii.eqb c a then b else c) (replace_char a b s) end.

Definition _parse (value : string) : res (list string) :=
  let raw := lower (strip value) in
  if one_of raw _OFF then Ok []
  else if one_of raw ["1"; "on"; "true"; "all"] then Ok (kept_parts PARTS)
  else
    let parts := filter (fun p => p <> "") (map strip (split_all "," (replace_char ";" "," raw))) in
    if negb (forallb (fun p => one_of p PARTS) parts) then Raise ValueError else Ok (kept_parts parts).

Definition installed (env : environ) : res (list string) := _parse (env_get env "DSV41_EAGER_GLUE" "").

(** [on]: the variant's parts under the A/B harness, else the environment's. *)
Definition on (env : environ) (variant : option (list string)) (part : string) : res bool :=
  match variant with
  | Some parts => Ok (one_of part parts)
  | None => parts ← installed env; Ok (one_of part parts)
  end.

(** ** fence *)
Inductive dtype := Int32 | Int64 | OtherType.
#[export] Instance dtype_eq_dec : EqDecision dtype.
Proof. solve_decision. Defined.

(** A tensor's elements are bit patterns of its type's width. *)
Record tensor := Tensor { device : Z; t_dtype : dtype; contiguous : bool; shape : list Z; data : list Z }.

Definition words32 (t : tensor) : list Z :=
  match t_dtype t with Int64 => data t ≫= fun v => [v mod 2 ^ 32; v / 2 ^ 32] | _ => data t end.
Fixpoint pairs (l : list Z) : list Z :=
  match l with lo :: hi :: l => (lo + 2 ^ 32 * hi) :: pairs l | _ => [] end.
Definition view_back (d : dtype) (ws : list Z) : list Z := match d with Int64 => pairs ws | _ => ws end.

(** The copies in the order of the kernel's buffer, with their places; then back by index. *)
Fixpoint slices (pos : Z) (flat : list Z) (order : list (nat * tensor)) : list (nat * (tensor * Z)) :=
  match order with
  | [] => []
  | (i, t) :: order =>
      let n := zlen (words32 t) in
      let seg := take (Z.to_nat n) (drop (Z.to_nat pos) flat) in
      (i, (Tensor (device t) (t_dtype t) true (shape t) (view_back (t_dtype t) seg), pos)) :: slices (pos + n) flat order
  end.

Definition is64 (t : tensor) : bool := bool_decide (t_dtype t = Int64).
Definition fusable (dev : Z) (t : tensor) : bool :=
  (device t =? dev) && negb (bool_decide (t_dtype t = OtherType)) && contiguous t && negb (zlen (data t) =? 0).

(** [sorted] is stable: the 64-bit tensors in order, then the others in order. *)
Definition fence_order (ts : list tensor) : list (nat * tensor) :=
  let l := imap pair ts in filter (fun it => is64 it.2 = true) l ++ filter (fun it => is64 it.2 = false) l.

Definition lookup_out (out : list (nat * (tensor * Z))) (i : nat) : option (tensor * Z) :=
  snd <$> find (fun e => Nat.eqb e.1 i) out.

(** The copies with their word offsets in the fresh buffer, or [None]: the caller clones. *)
Definition fused_clone (on_fence : bool) (ts : list tensor) : option (list (option (tensor * Z))) :=
  match ts with
  | [] => None
  | t0 :: _ =>
      if negb on_fence then None
      else if negb (forallb (fusable (device t0)) ts) then None
      else
        let order := fence_order ts in
        let flat := order ≫= fun it => words32 it.2 in
        Some (imap (fun i _ => lookup_out (slices 0 flat order) i) ts)
  end.

(** ** The copies are the tensors *)
Definition tensor_ok (t : tensor) : Prop :=
  Forall (fun v => 0 <= v < match t_dtype t with Int64 => 2 ^ 64 | _ => 2 ^ 32 end) (data t).

Definition copy_of (t : tensor) : tensor := Tensor (device t) (t_dtype t) true (shape t) (data t).

Lemma view_words t : tensor_ok t -> view_back (t_dtype t) (words32 t) = data t.
Proof.
  unfold tensor_ok, view_back, words32. destruct (t_dtype t); try done. intros H.
  induction H as [|v l Hv _ IH]; [done|]. cbn [mbind list_bind app pairs]. rewrite IH. f_equal. pose proof (Z.div_mod v (2 ^ 32) ltac:(lia)). lia.
Qed.

Lemma words_even t : t_dtype t = Int64 -> zlen (words32 t) mod 2 = 0.
Proof.
  unfold words32. intros ->. assert (E : zlen (data t ≫= fun v => [v mod 2 ^ 32; v / 2 ^ 32]) = zlen (data t) * 2).
  { induction (data t) as [|v l IH]; [done|]. cbn [mbind list_bind]. rewrite zlen_app, IH, !zlen_cons. change (zlen []) with 0. lia. }
  rewrite E. by apply Z.mod_mul.
Qed.

(** Every slice of the buffer is its tensor's words. *)
Fixpoint placed (pos : Z) (order : list (nat * tensor)) : list (nat * (tensor * Z)) :=
  match order with
  | [] => []
  | (i, t) :: order => (i, (copy_of t, pos)) :: placed (pos + zlen (words32 t)) order
  end.

Lemma slices_placed pre order : Forall (fun it => tensor_ok it.2) order ->
  slices (zlen pre) (pre ++ (order ≫= fun it => words32 it.2)) order = placed (zlen pre) order.
Proof.
  revert pre. induction order as [|[i t] order IH]; intros pre HF; [done|]. apply Forall_cons in HF as [Ht HF].
  cbn [slices placed mbind list_bind snd]. f_equal.
  - unfold copy_of. do 3 f_equal. unfold zlen. rewrite !Nat2Z.id, drop_app_length, take_app_length. by apply view_words.
  - rewrite app_assoc. replace (zlen pre + zlen (words32 t)) with (zlen (pre ++ words32 t)) by apply zlen_app. by apply IH.
Qed.

Lemma placed_find pos order i t : NoDup (map fst order) -> (i, t) ∈ order ->
  exists p, lookup_out (placed pos order) i = Some (copy_of t, p) /\ pos <= p /\
    forall pre post, order = pre ++ post -> (i, t) ∈ pre -> Forall (fun it => t_dtype it.2 = Int64) pre -> pos mod 2 = 0 -> p mod 2 = 0.
Proof.
  unfold lookup_out. revert pos. induction order as [|[j u] order IH]; intros pos Hnd Hin; [by apply elem_of_nil in Hin|].
  simpl in Hnd. apply NoDup_cons in Hnd as [Hj Hnd]. cbn [placed find fst]. apply elem_of_cons in Hin as [[= -> ->]|Hin].
  - rewrite Nat.eqb_refl. exists pos. split; [done|]. split; [done|]. by intros pre post _ _ _ Hp.
  - assert (Hne : j <> i). { intros ->. apply Hj, list_elem_of_fmap. by exists (i, t). }
    destruct (Nat.eqb_spec j i); [done|]. destruct (IH (pos + zlen (words32 u)) Hnd Hin) as (p & Hp & Hle & Hev). exists p. split; [done|].
    pose proof (zlen_nonneg (words32 u)). split; [lia|]. intros pre post E Hpre HF Hpos. destruct pre as [|[j' u'] pre]; [by apply elem_of_nil in Hpre|].
    injection E as <- <- E. apply Forall_cons in HF as [Hu HF]. simpl in Hu. apply elem_of_cons in Hpre as [[= ->]|Hpre]; [done|].
    apply (Hev pre post E Hpre HF). rewrite Z.add_mod, Hpos, (words_even u Hu) by lia. done.
Qed.

Lemma fence_order_perm ts : fence_order ts ≡ₚ imap pair ts.
Proof.
  unfold fence_order. induction (imap pair ts) as [|it l IH]; [done|]. cbv zeta in *. rewrite !filter_cons. destruct (is64 it.2); simpl.
  - by rewrite IH.
  - by rewrite <- Permutation_middle, IH.
Qed.

(** When the copies are made by one kernel they are, in the callers' order, tensors of the
    same type, shape and elements as the originals, and every 64-bit one starts on an 8-byte
    boundary of the fresh buffer. *)
Theorem fused_clone_exact on_fence ts out :
  Forall tensor_ok ts -> fused_clone on_fence ts = Some out ->
  length out = length ts /\
  forall i t, ts !! i = Some t -> exists pos, out !! i = Some (Some (copy_of t, pos)) /\ (t_dtype t = Int64 -> pos mod 2 = 0).
Proof.
  intros HF H. assert (E : out = imap (fun i _ => lookup_out (placed 0 (fence_order ts)) i) ts).
  { assert (HF' : Forall (fun it => tensor_ok it.2) (fence_order ts)).
    { rewrite fence_order_perm. apply Forall_forall. intros it Hit. apply list_elem_of_lookup in Hit as [k Hk].
      apply list_lookup_imap_Some in Hk as (t & Ht & ->). rewrite Forall_lookup in HF. by apply (HF k). }
    transitivity (imap (fun i _ => lookup_out (slices 0 (fence_order ts ≫= fun it => words32 it.2) (fence_order ts)) i) ts).
    - unfold fused_clone in H. destruct ts; [done|]. destruct (negb on_fence); [done|]. destruct (negb _); [done|]. by injection H.
    - apply imap_ext. intros i t _. f_equal. apply (slices_placed [] _ HF'). }
  subst out. split; [apply length_imap|]. intros i t Ht.
  assert (Hnd : NoDup (map fst (fence_order ts))).
  { apply (NoDup_Permutation_proper _ (map fst (imap pair ts))); [by apply Permutation_map, fence_order_perm|].
    change (map fst) with (fmap (M := list) (@fst nat tensor)). rewrite fmap_imap. apply NoDup_alt. intros a b x Ha Hb.
    apply list_lookup_imap_Some in Ha as (? & _ & ->). apply list_lookup_imap_Some in Hb as (? & _ & E). simpl in E. congruence. }
  assert (Hin : (i, t) ∈ fence_order ts) by (rewrite fence_order_perm; apply list_elem_of_lookup; exists i; apply list_lookup_imap_Some; by exists t).
  destruct (placed_find 0 _ i t Hnd Hin) as (p & Hp & _ & Hev). exists p. split; [rewrite list_lookup_imap, Ht; simpl; by rewrite Hp|].
  intros H64. apply (Hev _ _ eq_refl); [|apply Forall_forall; intros it [Hit _]%list_elem_of_filter; unfold is64 in Hit; by apply bool_decide_eq_true in Hit|done].
  apply list_elem_of_filter. split; [unfold is64; by apply bool_decide_eq_true|]. rewrite <- fence_order_perm. exact Hin.
Qed.

(** ** stage *)

(** Tensors by identity: their in-place version, address, shape and contents. *)
Record object := Object { version : Z; data_ptr : Z; o_shape : list Z; contents : list Z }.

(** [sampling_info]: the temperature and top-k tensors, when there is one. *)
Definition inputs : Type := option (Z * Z).

(** The key of a call, and the tensors it holds. *)
Record stage_key := Key { key_bs : Z; key_inputs : option ((Z * Z * Z * list Z) * (Z * Z * Z * list Z)) }.
#[export] Instance stage_key_eq_dec : EqDecision stage_key.
Proof. solve_decision. Defined.

Section Stage.
(** What the stock chain stages, as a function of the batch size and the tensors' contents, and
    how often it writes the sampler's two buffers. *)
Context {B : Type} (staged_of : Z -> option (list Z * list Z) -> B) (bumps : Z * Z).

Record sampler := Sampler { heap : Z -> object; staged : B; own : Z * Z; last_key : option (stage_key * (Z * Z) * list Z) }.

Definition key_of (h : Z -> object) (bs : Z) (si : inputs) : stage_key :=
  let part i := (i, version (h i), data_ptr (h i), o_shape (h i)) in
  match si with Some (t, k) => Key bs (Some (part t, part k)) | None => Key bs None end.
Definition refs_of (si : inputs) : list Z := match si with Some (t, k) => [t; k] | None => [] end.
Definition contents_of (h : Z -> object) (si : inputs) : option (list Z * list Z) :=
  match si with Some (t, k) => Some (contents (h t), contents (h k)) | None => None end.

Definition orig_stage (s : sampler) (bs : Z) (si : inputs) : sampler :=
  Sampler (heap s) (staged_of bs (contents_of (heap s) si)) ((own s).1 + bumps.1, (own s).2 + bumps.2) (last_key s).

(** [stage_sampling_params]: whether the chain was skipped. *)
Definition stage_sampling_params (on_stage folded : bool) (s : sampler) (bs : Z) (si : inputs) : sampler * bool :=
  if negb on_stage || negb folded then
    let s := orig_stage s bs si in (Sampler (heap s) (staged s) (own s) None, false)
  else
    let key := key_of (heap s) bs si in
    match last_key s with
    | Some (k, mine, _) =>
        if bool_decide (k = key) && bool_decide (mine = own s) then (s, true)
        else let s := orig_stage s bs si in (Sampler (heap s) (staged s) (own s) (Some (key, own s, refs_of si)), false)
    | None => let s := orig_stage s bs si in (Sampler (heap s) (staged s) (own s) (Some (key, own s, refs_of si)), false)
    end.

(** What else happens: an in-place write of a tensor, a new tensor at an identity no held
    tensor has, a write of the sampler's own buffers by somebody else, and the call. *)
Inductive event :=
  | Write (i : Z) (l : list Z)
  | Alloc (i : Z) (o : object)
  | Own (b : B) (n : Z * Z)
  | Stage (on_stage folded : bool) (bs : Z) (si : inputs).

Definition held (s : sampler) : list Z := match last_key s with Some (_, _, refs) => refs | None => [] end.

Inductive step : sampler -> event -> sampler -> option bool -> Prop :=
  | step_write s i l : step s (Write i l)
      (Sampler (fun j => if j =? i then Object (version (heap s i) + 1) (data_ptr (heap s i)) (o_shape (heap s i)) l else heap s j)
         (staged s) (own s) (last_key s)) None
  | step_alloc s i o : i ∉ held s -> step s (Alloc i o)
      (Sampler (fun j => if j =? i then o else heap s j) (staged s) (own s) (last_key s)) None
  | step_own s b n : 0 <= n.1 -> 0 <= n.2 -> 0 < n.1 + n.2 -> step s (Own b n)
      (Sampler (heap s) b ((own s).1 + n.1, (own s).2 + n.2) (last_key s)) None
  | step_stage s on_stage folded bs si s' hit : stage_sampling_params on_stage folded s bs si = (s', hit) ->
      step s (Stage on_stage folded bs si) s' (Some hit).

Inductive steps : sampler -> list event -> sampler -> Prop :=
  | steps_nil s : steps s [] s
  | steps_cons s e s' o es s'' : step s e s' o -> steps s' es s'' -> steps s (e :: es) s''.

(** The kept key describes the tensors as they were when the buffers were staged. *)
Definition stage_inv (s : sampler) : Prop :=
  match last_key s with
  | None => True
  | Some (k, mine, refs) => exists h0 bs si,
      k = key_of h0 bs si /\ refs = refs_of si /\ mine.1 <= (own s).1 /\ mine.2 <= (own s).2 /\
      (mine = own s -> staged s = staged_of bs (contents_of h0 si)) /\
      forall i, i ∈ refs -> version (h0 i) <= version (heap s i) /\ (version (heap s i) = version (h0 i) -> heap s i = h0 i)
  end.

Lemma key_same h h0 bs bs0 si si0 : key_of h bs si = key_of h0 bs0 si0 ->
  (forall i, i ∈ refs_of si0 -> version (h i) = version (h0 i) -> h i = h0 i) -> bs = bs0 /\ contents_of h si = contents_of h0 si0.
Proof.
  destruct si as [[t k]|], si0 as [[t0 k0]|]; try done; unfold key_of; intros E Hv; simplify_eq; [|done].
  rename select (version (h t0) = _) into V1. rename select (version (h k0) = _) into V2.
  split; [done|]. simpl. rewrite (Hv t0), (Hv k0); set_solver.
Qed.

(** The chain and the wrapper leave the same buffers. *)
Lemma stage_call on_stage folded s bs si s' hit : stage_inv s -> stage_sampling_params on_stage folded s bs si = (s', hit) ->
  staged s' = staged_of bs (contents_of (heap s) si) /\ heap s' = heap s /\ stage_inv s' /\
  (on_stage = true -> folded = true -> (stage_sampling_params true true s' bs si).2 = true).
Proof.
  intros I. unfold stage_sampling_params at 1. destruct (negb on_stage || negb folded) eqn:E0.
  { intros [= <- <-]. split; [done|]. split; [done|]. split; [done|]. intros -> ->. done. }
  assert (Hmiss : forall s1, s1 = orig_stage s bs si ->
    let s2 := Sampler (heap s1) (staged s1) (own s1) (Some (key_of (heap s) bs si, own s1, refs_of si)) in
    staged s2 = staged_of bs (contents_of (heap s) si) /\ heap s2 = heap s /\ stage_inv s2 /\
    (on_stage = true -> folded = true -> (stage_sampling_params true true s2 bs si).2 = true)).
  { intros s1 -> s2. split; [done|]. split; [done|]. split.
    - exists (heap s), bs, si. repeat split; solve [done | simpl; lia].
    - intros _ _. unfold stage_sampling_params. simpl. by rewrite !bool_decide_eq_true_2. }
  destruct (last_key s) as [[[k mine] refs]|] eqn:El; [|intros [= <- <-]; apply (Hmiss _ eq_refl)].
  destruct (bool_decide (k = _) && _) eqn:E; [|intros [= <- <-]; apply (Hmiss _ eq_refl)]. intros [= <- <-].
  apply andb_true_iff in E as [Ek%bool_decide_eq_true Em%bool_decide_eq_true].
  pose proof I as I'. unfold stage_inv in I'. rewrite El in I'. destruct I' as (h0 & bs0 & si0 & -> & -> & _ & _ & Hst & Hh).
  destruct (key_same _ _ _ _ _ _ (eq_sym Ek)) as [-> Hc]; [intros i Hi; by apply Hh|].
  split; [by rewrite Hst, Hc|]. split; [done|]. split; [exact I|]. intros _ _. unfold stage_sampling_params. simpl. rewrite El.
  by rewrite !bool_decide_eq_true_2.
Qed.

Lemma stage_step_inv s e s' o : step s e s' o -> stage_inv s -> stage_inv s'.
Proof.
  intros H I. destruct H as [s i l|s i o Hi|s b n H1 H2 H3|s on_stage folded bs si s' hit H].
  - unfold stage_inv in *. simpl. destruct (last_key s) as [[[k mine] refs]|]; [|done]. destruct I as (h0 & bs & si & -> & -> & M1 & M2 & Hst & Hh).
    exists h0, bs, si. do 5 (split; [done|]). intros j Hj. destruct (Hh j Hj) as [V E]. destruct (Z.eqb_spec j i) as [->|]; [simpl; split; lia|done].
  - unfold stage_inv, held in *. simpl. destruct (last_key s) as [[[k mine] refs]|]; [|done]. destruct I as (h0 & bs & si & -> & -> & M1 & M2 & Hst & Hh).
    exists h0, bs, si. do 5 (split; [done|]). intros j Hj. destruct (Z.eqb_spec j i) as [->|]; [done|]. by apply Hh.
  - unfold stage_inv in *. simpl. destruct (last_key s) as [[[k mine] refs]|]; [|done]. destruct I as (h0 & bs & si & -> & -> & M1 & M2 & Hst & Hh).
    exists h0, bs, si. do 2 (split; [done|]). split; [simpl; lia|]. split; [simpl; lia|]. split; [|done].
    intros ->. simpl in *. lia.
  - by apply (stage_call _ _ _ _ _ _ _ I H).
Qed.

Lemma stage_steps_inv s es s' : steps s es s' -> stage_inv s -> stage_inv s'.
Proof. induction 1 as [|s e s1 o es s2 H _ IH]; [done|]. intros I. apply IH. by eapply stage_step_inv. Qed.

(** C39: whatever is written, allocated or staged by others in between, every call leaves the
    sampler's buffers as the stock chain would from the tensors as they are then, skipped or
    not; and a call repeated at once is skipped. *)
Theorem stage_exact s0 es s on_stage folded bs si s' hit :
  last_key s0 = None -> steps s0 es s -> step s (Stage on_stage folded bs si) s' (Some hit) ->
  staged s' = staged_of bs (contents_of (heap s) si) /\ heap s' = heap s /\
  (on_stage = true -> folded = true -> (stage_sampling_params true true s' bs si).2 = true).
Proof.
  intros H0 Hs Hstep. assert (I : stage_inv s) by (apply (stage_steps_inv _ _ _ Hs); unfold stage_inv; by rewrite H0).
  inversion Hstep as [| | |? ? ? ? ? ? ? Hc]; subst. destruct (stage_call _ _ _ _ _ _ _ I Hc) as (H1 & H2 & _ & H3). done.
Qed.
End Stage.

(** ** vcap and vcapk *)

(** The live-length operations a captured draft graph holds: torch's, or the one kernel. *)
Inductive prog := Torch | Fused.
#[export] Instance prog_eq_dec : EqDecision prog.
Proof. solve_decision. Defined.

(** A graph: the A/B variant it was captured under ([None]: no A/B) and its batch size. *)
Definition gkey : Type := option Z * Z.

(** [_vcap], [_vcapk], VerifyCap's state on rank 0 with the confidences it keeps, what each
    captured draft graph holds, and the variant in force. *)
Record glue (F : Type) := Glue {
  vc : VerifyCap.state F; last_conf : option (list (list F));
  captured : list gkey; graphs : gkey -> option prog; vstep : option (bool * option Z);
  checks : Z; off : bool; current : Z }.
Arguments Glue {F} _ _ _ _ _ _ _ _.
Arguments vc {F} _.
Arguments last_conf {F} _.
Arguments captured {F} _.
Arguments graphs {F} _.
Arguments vstep {F} _.
Arguments checks {F} _.
Arguments off {F} _.
Arguments current {F} _.

Definition with_live {F} (g : glue F) (s : VerifyCap.state F) (conf : list (list F)) : glue F :=
  Glue s (Some conf) (captured g) (graphs g) (vstep g) (checks g) (off g) (current g).

(** The decode graph sizes no smaller batch is padded into. *)
Fixpoint eligible_from (prev : option Z) (l : list Z) : list Z :=
  match l with
  | [] => []
  | b :: l => (if match prev with None => true | Some p => p =? b - 1 end then [b] else []) ++ eligible_from (Some b) l
  end.
Definition _eligible_sizes (sizes : option (list Z)) : list Z :=
  match sizes with Some l => eligible_from None (merge_sort Z.le (remove_dups l)) | None => [] end.

(** The kernel on one row; [thr_at] is its [_thr_at]. *)
Section Kernel.
Context {F : Type} (mul fmin fmax : F -> F -> F) (isnan : F -> bool) (zero one : F) (ge : F -> F -> bool).

Definition _clamp01 (x : F) : F := if isnan x then x else fmin (fmax x zero) one.

Definition _vcap_kernel (order : Z) (t : thresholds F) (kmin kmax : Z) (row : list F) : Z :=
  let load i := _clamp01 (nth i row zero) in
  let x0 := load 0%nat in let x1 := load 1%nat in let x2 := load 2%nat in let x3 := load 3%nat in let x4 := load 4%nat in
  let bit i c := Z.b2z (match thr_at t i with Some x => ge c x | None => false end) in
  let c1 := mul x0 x1 in
  let c2 := if order =? 0 then mul c1 x2 else mul x2 c1 in
  let c3 := if order =? 0 then mul c2 x3 else mul (mul x2 x3) c1 in
  let c4 := mul x4 c3 in
  let run := bit 0%nat x0 in let k := run in
  let run := run * bit 1%nat c1 in let k := k + run in
  let run := run * bit 2%nat c2 in let k := k + run in
  let run := run * bit 3%nat c3 in let k := k + run in
  let run := run * bit 4%nat c4 in let k := k + run in
  Z.min (Z.max k kmin) kmax + 1.

Lemma count_leading (b0 b1 b2 b3 b4 : bool) :
  let run0 := Z.b2z b0 in let run1 := run0 * Z.b2z b1 in let run2 := run1 * Z.b2z b2 in
  let run3 := run2 * Z.b2z b3 in let run4 := run3 * Z.b2z b4 in
  run0 + run1 + run2 + run3 + run4 = leading [b0; b1; b2; b3; b4].
Proof. by destruct b0, b1, b2, b3, b4. Qed.

(** torch's clamp, and its running product of a row when it takes [n] rows. *)
Context (clamp : F -> F) (cumprod : Z -> list F -> list F)
  (Hclamp : forall x, clamp x = _clamp01 x)
  (Hmul : forall x y, mul x y = mul y x)
  (Hseq : forall a b c d e, let ab := mul a b in let abc := mul ab c in let abcd := mul abc d in
     cumprod 1 [a; b; c; d; e] = [a; ab; abc; abcd; mul abcd e])
  (Htree : forall n a b c d e, 2 <= n -> let ab := mul a b in let abcd := mul ab (mul c d) in
     cumprod n [a; b; c; d; e] = [a; ab; mul ab c; abcd; mul abcd e]).

Lemma kernel_row n t kmin row : 1 <= n -> zlen row = 5 ->
  _vcap_kernel (if n =? 1 then 0 else 1) t kmin 5 row = live_of 6 clamp (cumprod n) ge t kmin row.
Proof.
  intros Hn H5. destruct row as [|a [|b [|c [|d [|e [|f row]]]]]]; unfold zlen in H5; simpl in H5; try lia.
  unfold live_of, passes, _vcap_kernel. cbn [map nth]. rewrite !Hclamp. destruct (Z.eqb_spec n 1) as [->|Hne].
  - rewrite Hseq. change (0 =? 0) with true. cbn [Z.mul]. cbv zeta iota. rewrite count_leading, (Hmul (_clamp01 e)), Z.add_comm. done.
  - rewrite Htree by lia. change (1 =? 0) with false. cbv zeta iota. rewrite count_leading.
    rewrite (Hmul (_clamp01 e)), (Hmul (_clamp01 c) (mul _ _)), (Hmul (mul (_clamp01 c) _)), Z.add_comm. done.
Qed.
End Kernel.

Section Vcap.
Context {F : Type} (mul fmin fmax : F -> F -> F) (isnan : F -> bool) (zero one : F) (ge : F -> F -> bool).
Context (clamp : F -> F) (cumprod : Z -> list F -> list F).
(** VerifyCap's stride, the checks asked for, whether triton is there; whether A/B variants are
    on, the largest batch with graphs per variant, each variant's parts; the graph sizes, and
    whether the sampler keeps confidences. *)
Context (STRIDE CHECKS : Z) (triton active : bool) (max_bs : option Z) (parts_of : option Z -> list string)
  (sizes : option (list Z)) (confidence_out : bool).

#[local] Abbreviation orig_set := (fun c => VerifyCap.set_live_from_confidence STRIDE clamp (cumprod (zlen c)) ge (Some c)).

Definition _capture_tag (g : glue F) : option Z := if active then Some (current g) else None.
Definition _graph_variant (g : glue F) (bs : Z) : option Z :=
  if negb active then None
  else match max_bs with None => Some (current g) | Some m => Some (if bs <=? m then current g else 0) end.
Definition on_part (g : glue F) (part : string) : bool := one_of part (parts_of (_capture_tag g)).

(** The recorded operations on the live buffer: a lane of the kernel for each of the first [bs]. *)
Definition fused_row (s : VerifyCap.state F) (bs : Z) (row : list F) : Z :=
  match thr s with
  | Some t => _vcap_kernel mul fmin fmax isnan zero one ge (if bs =? 1 then 0 else 1) t (kmin s) (STRIDE - 1) row
  | None => 0
  end.
Definition exec (p : prog) (conf : list (list F)) (bs : Z) (s : VerifyCap.state F) : VerifyCap.state F :=
  match p with
  | Torch => (orig_set conf bs s).1
  | Fused => match live s with
             | Some b => set_live s (imap (fun r l => if Z.of_nat r <? bs then fused_row s bs (nth r conf []) else l) b)
             | None => s
             end
  end.

(** VerifyCap's own update.  Under capture the operations are recorded, not run. *)
Definition orig_live (capturing : bool) (conf : list (list F)) (bs : Z) (s : VerifyCap.state F) : res (VerifyCap.state F) :=
  match live_buf STRIDE capturing s with
  | (_, Raise e) => Raise e
  | (s, Ok _) => match orig_set conf bs s with
                 | (_, Raise e) => Raise e
                 | (s', Ok _) => Ok (if capturing then s else s')
                 end
  end.

(** [fits]: on the device, two dimensions, rows of adjacent elements. *)
Definition _vcapk_update (g : glue F) (capturing fits : bool) (conf : list (list F)) (bs : Z) : res (glue F * option prog) :=
  if negb triton || off g || negb (on_part g "vcapk") || negb fits || negb (forallb (fun r => zlen r =? 5) conf)
     || negb (zlen conf =? bs) || (1024 <? bs) || negb (STRIDE =? 6) then Ok (g, None)
  else if negb capturing && (checks g <? CHECKS) then
    s ← orig_live false conf bs (vc g);
    let ref := match live s with Some b => py_slice b 0 bs | None => [] end in
    let got := map (fused_row s bs) conf in
    Ok (Glue s (Some conf) (captured g) (graphs g) (vstep g) (checks g + 1) (negb (bool_decide (got = ref))) (current g), Some Torch)
  else
    match live_buf STRIDE capturing (vc g) with
    | (_, Raise e) => Raise e
    | (s, Ok _) => Ok (with_live g (if capturing then s else exec Fused conf bs s) conf, Some Fused)
    end.

Definition _live_update (g : glue F) (capturing fits : bool) (conf : list (list F)) (bs : Z) : res (glue F * prog) :=
  '(g, p) ← _vcapk_update g capturing fits conf bs;
  match p with
  | Some p => Ok (g, p)
  | None => s ← orig_live capturing conf bs (vc g); Ok (with_live g s conf, Torch)
  end.

(** The sampler's call; under capture the graph of this size holds what was recorded. *)
Definition put_graph (g : glue F) (k : gkey) (p : option prog) : glue F :=
  Glue (vc g) (last_conf g) (match p with Some _ => k :: captured g | None => captured g end)
    (fun j => if decide (j = k) then p else graphs g j) (vstep g) (checks g) (off g) (current g).
Definition sampler_call (g : glue F) (capturing fits : bool) (bs : Z) (conf : list (list F)) : res (glue F) :=
  if confidence_out && on_part g "vcap" && bool_decide (bs ∈ _eligible_sizes sizes) then
    '(g', p) ← _live_update g capturing fits (py_slice conf 0 bs) bs;
    Ok (if capturing then put_graph g' (_capture_tag g, bs) (Some p) else g')
  else Ok (if capturing then put_graph g (_capture_tag g, bs) None else g).

(** [propose]: a folded proposal replays the graph of size [gbs] on its [gconf]. *)
Definition propose (g : glue F) (folded : bool) (gbs : Z) (gconf : list (list F)) (bs : option Z) : glue F :=
  let s := if folded then match graphs g (_graph_variant g gbs, gbs) with
                          | Some p => exec p gconf gbs (vc g) | None => vc g end
           else vc g in
  Glue s (last_conf g) (captured g) (graphs g) (Some (folded && confidence_out, bs)) (checks g) (off g) (current g).

(** [set_live_from_confidence] as installed; the step is consumed. *)
Definition set_live_from_confidence (g : glue F) (fits : bool) (conf : option (list (list F))) (bs : Z) : res (glue F) :=
  let step := vstep g in
  let g := Glue (vc g) (last_conf g) (captured g) (graphs g) None (checks g) (off g) (current g) in
  match conf with
  | None => Ok g
  | Some c =>
      if bool_decide (step = Some (true, Some bs)) && on_part g "vcap" && bool_decide ((_graph_variant g bs, bs) ∈ captured g)
      then Ok (with_live g (vc g) c)
      else '(g, _) ← _live_update g false fits c bs; Ok g
  end.

Inductive vevent :=
  | Switch (v : Z)
  | Draft (capturing fits : bool) (bs : Z) (conf : list (list F))
  | Propose (folded : bool) (gbs : Z) (gconf : list (list F)) (bs : option Z)
  | Verify (fits : bool) (conf : option (list (list F))) (bs : Z).

Definition vhandle (g : glue F) (e : vevent) : res (glue F) :=
  match e with
  | Switch v => Ok (Glue (vc g) (last_conf g) (captured g) (graphs g) (vstep g) (checks g) (off g) v)
  | Draft capturing fits bs conf => sampler_call g capturing fits bs conf
  | Propose folded gbs gconf bs => Ok (propose g folded gbs gconf bs)
  | Verify fits conf bs => set_live_from_confidence g fits conf bs
  end.
Fixpoint vrun (g : glue F) (es : list vevent) : res (glue F) :=
  match es with [] => Ok g | e :: es => g ← vhandle g e; vrun g es end.

(** ** The live lengths are VerifyCap's *)
Context (t : thresholds F) (km : Z)
  (Hclamp : forall x, clamp x = _clamp01 fmin fmax isnan zero one x)
  (Hmul : forall x y, mul x y = mul y x)
  (Hseq : forall a b c d e, let ab := mul a b in let abc := mul ab c in let abcd := mul abc d in
     cumprod 1 [a; b; c; d; e] = [a; ab; abc; abcd; mul abcd e])
  (Htree : forall n a b c d e, 2 <= n -> let ab := mul a b in let abcd := mul ab (mul c d) in
     cumprod n [a; b; c; d; e] = [a; ab; mul ab c; abcd; mul abcd e]).

(** What VerifyCap gives the requests. *)
Definition rows (conf : list (list F)) : list Z := map (live_of STRIDE clamp (cumprod (zlen conf)) ge t km) conf.

Definition state_ok (s : VerifyCap.state F) : Prop :=
  thr s = Some t /\ kmin s = km /\ forall b, live s = Some b -> zlen b = MAX_BS.

Lemma live_buf_ok capturing s : state_ok s ->
  (exists s' b, live_buf STRIDE capturing s = (s', Ok b) /\ state_ok s' /\ live s' = Some b /\ zlen b = MAX_BS) \/
  (exists e, live_buf STRIDE capturing s = (s, Raise e) /\ capturing = true).
Proof.
  intros (Ht & Hk & Hl). unfold live_buf. destruct (live s) as [b|] eqn:E.
  - left. exists s, b. split; [done|]. split; [|split; [done|by apply Hl]]. split; [done|]. split; [done|]. by rewrite E.
  - destruct capturing; [right; by eexists|left]. eexists _, _. split; [done|]. unfold state_ok. simpl.
    split; [|by destruct (fixed s)]. do 2 (split; [done|]). intros b' [= <-]. by destruct (fixed s).
Qed.

Lemma set_ok s b : state_ok s -> zlen b = MAX_BS -> state_ok (set_live s b).
Proof. intros (Ht & Hk & _) Hb. split; [done|]. split; [done|]. simpl. by intros b' [= <-]. Qed.

Lemma zlen_over {A} (k b : list A) : zlen k <= zlen b -> zlen (k ++ drop (length k) b) = zlen b.
Proof. intros H. rewrite zlen_app. unfold zlen in *. rewrite length_drop. lia. Qed.

(** VerifyCap's update, and when it raises. *)
Lemma orig_set_eq conf bs s : state_ok s -> exists b s0, live_buf STRIDE false s = (s0, Ok b) /\ state_ok s0 /\ zlen b = MAX_BS /\ live s0 = Some b /\
  orig_set conf bs s = if (zlen conf =? bs) && (bs <=? MAX_BS) then (set_live s0 (rows conf ++ drop (length (rows conf)) b), Ok ()) else (s0, Raise RuntimeError).
Proof.
  intros I. destruct (live_buf_ok false s I) as [(s' & b & E & I' & Hb & Hz)|(e & _ & ?)]; [|done].
  exists b, s'. do 4 (split; [done|]). unfold VerifyCap.set_live_from_confidence. pose proof I as (-> & _ & _). rewrite E, Hz.
  destruct I' as (_ & Hk & _). rewrite Hk. fold (rows conf). replace (zlen (rows conf)) with (zlen conf) by (symmetry; apply zlen_map).
  by destruct ((zlen conf =? bs) && (bs <=? MAX_BS)).
Qed.

Lemma orig_set_ok conf bs s : state_ok s -> state_ok (orig_set conf bs s).1 /\ is_Some (live (orig_set conf bs s).1) /\
  (zlen conf = bs -> bs <= MAX_BS -> exists b, orig_set conf bs s = (set_live (live_buf STRIDE false s).1 b, Ok ()) /\ py_slice b 0 bs = rows conf).
Proof.
  intros I. destruct (orig_set_eq conf bs s I) as (b & s0 & E0 & I0 & Hz & Hb & ->). destruct (_ && _) eqn:E.
  - apply andb_true_iff in E as [E1%Z.eqb_eq E2%Z.leb_le]. assert (Hk : zlen (rows conf) = bs) by (rewrite <- E1; apply zlen_map).
    assert (Hz' : zlen (rows conf ++ drop (length (rows conf)) b) = MAX_BS) by (rewrite zlen_over; lia).
    split; [by apply set_ok|]. split; [by eexists|]. intros _ _. eexists. rewrite E0. split; [done|].
    pose proof (zlen_nonneg conf). rewrite py_slice_in by lia. rewrite drop_0. apply take_app_length'. unfold zlen in Hk. lia.
  - split; [done|]. split; [by eexists|]. intros E1 E2. exfalso. apply andb_false_iff in E as [E%Z.eqb_neq|E%Z.leb_gt]; lia.
Qed.

Lemma exec_ok p conf bs s : state_ok s -> state_ok (exec p conf bs s) /\ (is_Some (live s) -> is_Some (live (exec p conf bs s))).
Proof.
  intros I. destruct p; simpl.
  - destruct (orig_set_ok conf bs s I) as (H1 & H2 & _). done.
  - destruct (live s) as [b|] eqn:E; [|done]. split; [|by eexists]. apply set_ok; [done|]. unfold zlen. rewrite length_imap. by apply I.
Qed.

(** Confidences as the head returns them for [bs] requests. *)
Definition conf_ok (conf : list (list F)) (bs : Z) : Prop :=
  zlen conf = bs /\ bs <= MAX_BS /\ Forall (fun r => zlen r = STRIDE - 1) conf.

Lemma fused_rows s conf : state_ok s -> STRIDE = 6 -> Forall (fun r => zlen r = 5) conf -> map (fused_row s (zlen conf)) conf = rows conf.
Proof.
  intros (Ht & Hk & _) HS HF. unfold rows, fused_row. apply map_ext_in. intros r Hr. rewrite Ht, Hk, HS.
  rewrite Forall_forall in HF. simpl (6 - 1). apply (kernel_row mul fmin fmax isnan zero one ge clamp cumprod Hclamp Hmul Hseq Htree); [|by apply HF, list_elem_of_In].
  destruct conf; [done|]. rewrite zlen_cons. pose proof (zlen_nonneg conf). lia.
Qed.

Lemma exec_rows p conf bs s : state_ok s -> is_Some (live s) -> conf_ok conf bs -> (p = Fused -> STRIDE = 6) ->
  exists b, live (exec p conf bs s) = Some b /\ py_slice b 0 bs = rows conf.
Proof.
  intros I [b Hb] (<- & Hle & HF) Hp. destruct p; simpl.
  - destruct (orig_set_ok conf (zlen conf) s I) as (_ & _ & H). destruct (H eq_refl Hle) as (b' & -> & Hs). by exists b'.
  - rewrite Hb. eexists. split; [done|]. specialize (Hp eq_refl). destruct I as (Ht & Hk & Hl). pose proof (Hl b Hb) as Hz.
    rewrite <- (fused_rows s) by (repeat split; try done; rewrite Hp in HF; done).
    assert (Hn := zlen_nonneg conf). rewrite py_slice_in by (rewrite ?(zlen_imap); unfold zlen in *; rewrite ?length_imap; lia).
    rewrite drop_0. apply list_eq. intros i. unfold zlen in *. destruct (decide (i < length conf)%nat) as [Hi|Hi].
    + rewrite lookup_take_lt, list_lookup_imap by lia. destruct (lookup_lt_is_Some_2 b i ltac:(lia)) as [l ->]. simpl.
      destruct (Z.ltb_spec (Z.of_nat i) (Z.of_nat (length conf))); [|lia]. destruct (lookup_lt_is_Some_2 conf i Hi) as [r Hr].
      rewrite list_lookup_fmap, Hr. simpl. by rewrite (nth_lookup_Some _ _ _ _ Hr).
    + rewrite lookup_take_ge by lia. symmetry. apply lookup_ge_None. rewrite length_map. lia.
Qed.

(** What a captured size's graph does, and that the checks never turn the kernel off. *)
Definition glue_inv (g : glue F) : Prop :=
  state_ok (vc g) /\ off g = false /\
  forall k, k ∈ captured g -> is_Some (live (vc g)) /\
    (confidence_out && one_of "vcap" (parts_of k.1) && bool_decide (k.2 ∈ _eligible_sizes sizes) = true) /\
    exists p, graphs g k = Some p /\ (p = Fused -> STRIDE = 6).

(** Only VerifyCap's state, the kept confidences, the checks and the kernel's switch changed. *)
Definition same_graphs (g g' : glue F) : Prop :=
  captured g' = captured g /\ graphs g' = graphs g /\ vstep g' = vstep g /\ current g' = current g.

Lemma inv_live g g' : same_graphs g g' -> glue_inv g -> state_ok (vc g') -> is_Some (live (vc g')) -> off g' = false -> glue_inv g'.
Proof. intros (Ec & Eg & _) (_ & _ & H) Hs Hl Ho. split; [done|]. split; [done|]. rewrite Ec, Eg. intros k Hk. by destruct (H k Hk) as (_ & H2 & H3). Qed.

Definition updated (capturing : bool) (conf : list (list F)) (bs : Z) (s : VerifyCap.state F) : Prop :=
  state_ok s /\ is_Some (live s) /\
  (capturing = false -> conf_ok conf bs -> exists b, live s = Some b /\ py_slice b 0 bs = rows conf).

Lemma orig_live_ok capturing conf bs s s' : state_ok s -> orig_live capturing conf bs s = Ok s' ->
  updated capturing conf bs s' /\ (capturing = false -> zlen conf = bs /\ exists b, live s' = Some b /\ py_slice b 0 bs = rows conf).
Proof.
  intros I. unfold orig_live. destruct (live_buf_ok capturing s I) as [(s0 & b & -> & I0 & Hb & Hz)|(e & -> & _)]; [|done].
  destruct (orig_set_eq conf bs s0 I0) as (b1 & s1 & E1 & I1 & _ & _ & ->). destruct (_ && _) eqn:E; [|done]. intros [= <-].
  apply andb_true_iff in E as [E%Z.eqb_eq E2%Z.leb_le].
  destruct (orig_set_ok conf bs s0 I0) as (H1 & H2 & H3). destruct (H3 E E2) as (b' & Eb & Hs). rewrite Eb, E1 in H1, H2. simpl in H1, H2.
  assert (Hr : exists b0, live (set_live s1 b') = Some b0 /\ py_slice b0 0 bs = rows conf) by by exists b'.
  assert (Eb' : set_live s1 (rows conf ++ drop (length (rows conf)) b1) = set_live s1 b').
  { destruct (orig_set_eq conf bs s0 I0) as (b2 & s2 & E3 & _ & _ & _ & Eo). rewrite Eo in Eb. rewrite E1 in E3. injection E3 as <- <-.
    rewrite E1 in Eb. replace ((zlen conf =? bs) && (bs <=? MAX_BS)) with true in Eb by (symmetry; apply andb_true_iff; lia). by injection Eb as ->. }
  destruct capturing; [|rewrite Eb'].
  - split; [|done]. split; [done|]. split; [by eexists|done].
  - split; [|done]. by split.
Qed.

Lemma orig_live_total conf bs s : state_ok s -> conf_ok conf bs -> exists s', orig_live false conf bs s = Ok s'.
Proof.
  intros I (Hz & Hle & _). unfold orig_live. destruct (live_buf_ok false s I) as [(s0 & b & -> & I0 & _)|(e & _ & ?)]; [|done].
  destruct (orig_set_ok conf bs s0 I0) as (_ & _ & H). destruct (H Hz Hle) as (b' & -> & _). by eexists.
Qed.

Definition live_updated (g g' : glue F) (p : prog) (capturing : bool) (conf : list (list F)) (bs : Z) : Prop :=
  same_graphs g g' /\ last_conf g' = Some conf /\ (p = Fused -> STRIDE = 6) /\ updated capturing conf bs (vc g') /\ off g' = false.

Lemma vcapk_update_ok g capturing fits conf bs g' p : state_ok (vc g) -> off g = false ->
  _vcapk_update g capturing fits conf bs = Ok (g', p) ->
  match p with None => g' = g | Some p => live_updated g g' p capturing conf bs end.
Proof.
  intros I Ho. unfold _vcapk_update. destruct (_ || negb (STRIDE =? 6)) eqn:EG; [by intros [= <- <-]|].
  repeat (apply orb_false_iff in EG as [EG ?]). assert (HS : STRIDE = 6) by lia.
  assert (HF : Forall (fun r => zlen r = 5) conf).
  { rename select (negb (forallb _ _) = false) into HB. apply negb_false_iff in HB. rewrite forallb_forall in HB.
    apply Forall_forall. intros r Hr%list_elem_of_In%HB. by apply Z.eqb_eq in Hr. }
  assert (Hz : zlen conf = bs) by lia. destruct (negb capturing && _) eqn:EC.
  - destruct (orig_live false conf bs (vc g)) as [s|e] eqn:Es; [|done]. cbn [mbind res_bind]. intros [= <- <-].
    destruct (orig_live_ok _ _ _ _ _ I Es) as [U HU]. destruct (HU eq_refl) as (_ & b & Hb & Hs). rewrite Hb, Hs.
    destruct capturing; [done|]. do 3 (split; [done|]). split; [exact U|]. simpl. apply negb_false_iff, bool_decide_eq_true. rewrite <- Hz. apply fused_rows; [apply U|done|done].
  - destruct (live_buf_ok capturing (vc g) I) as [(s0 & b & -> & I0 & Hb & _)|(e & -> & _)]; [|done]. intros [= <- <-].
    split; [done|]. split; [done|]. split; [done|]. split; [|done]. destruct capturing; simpl.
    + split; [done|]. split; [by eexists|done].
    + destruct (exec_ok Fused conf bs s0 I0) as [X1 X2]. split; [done|]. split; [apply X2; by eexists|].
      intros _ HC. apply (exec_rows Fused); [done|by eexists|done|done].
Qed.

Lemma live_update_ok g capturing fits conf bs g' p : state_ok (vc g) -> off g = false ->
  _live_update g capturing fits conf bs = Ok (g', p) -> live_updated g g' p capturing conf bs.
Proof.
  intros I Ho. unfold _live_update. destruct (_vcapk_update _ _ _ _ _) as [[g1 p1]|] eqn:E; [|done]. cbn [mbind res_bind].
  pose proof (vcapk_update_ok _ _ _ _ _ _ _ I Ho E) as H. destruct p1 as [p1|]; [by intros [= <- <-]|]. subst g1.
  destruct (orig_live _ _ _ _) as [s|] eqn:Es; [|done]. cbn [mbind res_bind]. intros [= <- <-].
  destruct (orig_live_ok _ _ _ _ _ I Es) as [U _]. by split.
Qed.

Lemma live_update_total g fits conf bs : state_ok (vc g) -> conf_ok conf bs -> exists r, _live_update g false fits conf bs = Ok r.
Proof.
  intros I HC. destruct (orig_live_total conf bs _ I HC) as [s Es]. unfold _live_update, _vcapk_update. destruct (_ || negb (STRIDE =? 6)).
  - cbn [mbind res_bind]. rewrite Es. eexists. reflexivity.
  - destruct (negb false && _).
    + rewrite Es. eexists. reflexivity.
    + destruct (live_buf_ok false _ I) as [(s0 & b & -> & _)|(e & _ & ?)]; [eexists; reflexivity|done].
Qed.

Lemma put_inv g k p : glue_inv g -> is_Some (live (vc g)) -> (p = Some Fused -> STRIDE = 6) ->
  (confidence_out && one_of "vcap" (parts_of k.1) && bool_decide (k.2 ∈ _eligible_sizes sizes) = true <-> is_Some p) ->
  glue_inv (put_graph g k p).
Proof.
  intros (Hs & Ho & H) Hl Hp Hon. split; [done|]. split; [done|]. intros j Hj. split; [done|]. simpl in *.
  destruct (decide (j = k)) as [->|Hne]; [rewrite decide_True by done|rewrite decide_False by done].
  - destruct p as [p|]; [split; [by apply Hon; eexists|exists p; split; [done|]; intros ->; by apply Hp]|].
    destruct (H k Hj) as (_ & H2 & _). apply Hon in H2. by destruct H2.
  - destruct p; [apply elem_of_cons in Hj as [?|Hj]; [done|]|]; by destruct (H j Hj) as (_ & ? & ?).
Qed.

Lemma vhandle_inv g e g' : vhandle g e = Ok g' -> glue_inv g -> glue_inv g'.
Proof.
  intros H I. pose proof I as (Hs & Ho & Hk). destruct e as [v|capturing fits bs conf|folded gbs gconf bs|fits conf bs]; simpl in H.
  - injection H as <-. done.
  - unfold sampler_call in H. destruct (confidence_out && _ && _) eqn:Eon.
    + destruct (_live_update _ _ _ _ _) as [[g1 p]|] eqn:E; [|done]. cbn [mbind res_bind] in H. injection H as <-.
      destruct (live_update_ok _ _ _ _ _ _ _ Hs Ho E) as (Hg & _ & Hp & (U1 & U2 & _) & U4).
      pose proof (inv_live _ _ Hg I U1 U2 U4) as I1. destruct capturing; [|done]. apply put_inv; [done|done|intros [= ->]; by apply Hp|].
      split; [by eexists|]. intros _. exact Eon.
    + injection H as <-. destruct capturing; [|done]. split; [done|]. split; [done|]. intros j Hj. destruct (Hk j Hj) as (H1 & H2 & H3).
      split; [done|]. split; [done|]. simpl.
      destruct (decide (j = (_capture_tag g, bs))) as [->|]; [|by rewrite decide_False]. simpl in H2. unfold on_part in Eon. congruence.
  - injection H as <-. unfold propose. destruct folded; [|done]. destruct (graphs g _) as [p|]; [|done].
    destruct (exec_ok p gconf gbs (vc g) Hs) as [X1 X2]. split; [done|]. split; [done|]. intros k Hin. destruct (Hk k Hin) as (H1 & H2 & H3). by split; [apply X2|].
  - unfold set_live_from_confidence in H. destruct conf as [c|]; [|by injection H as <-]. destruct (_ && _ && _); [by injection H as <-|].
    destruct (_live_update _ _ _ _ _) as [[g1 p]|] eqn:E; [|done]. cbn [mbind res_bind] in H. injection H as <-.
    match type of E with _live_update ?g0 _ _ _ _ = _ => assert (I0 : glue_inv g0) by done end.
    destruct (live_update_ok _ _ _ _ _ _ _ (proj1 I0) Ho E) as (Hg & _ & _ & (U1 & U2 & _) & U4). by apply (inv_live _ _ Hg I0).
Qed.

Lemma vrun_inv es g g' : vrun g es = Ok g' -> glue_inv g -> glue_inv g'.
Proof.
  revert g. induction es as [|e es IH]; simpl; intros g; [by intros [= <-]|]. destruct (vhandle g e) as [g1|] eqn:E; [|done].
  intros H I. apply (IH g1 H). by apply (vhandle_inv g e).
Qed.

(** C21: whatever variants, captures, proposals and verifies came before, the verify after a
    proposal finds for its requests the live lengths VerifyCap's torch operations give on the
    proposal's confidences, whether the draft graph's replay, the kernel or torch wrote them;
    the verify does not raise, keeps these confidences, and the checks never turn the kernel off. *)
Theorem vcap_exact g0 es g folded gbs gconf fits conf bs :
  state_ok (vc g0) -> captured g0 = [] -> off g0 = false -> vrun g0 es = Ok g -> conf_ok conf bs ->
  (folded = true -> (_graph_variant g bs, bs) ∈ captured g -> gbs = bs /\ gconf = conf) ->
  exists g', vrun g [Propose folded gbs gconf (Some bs); Verify fits (Some conf) bs] = Ok g' /\
    (exists b, live (vc g') = Some b /\ py_slice b 0 bs = rows conf) /\ last_conf g' = Some conf /\ off g' = false.
Proof.
  intros H0 Hc Ho Hrun HC Hpad. assert (I : glue_inv g) by (apply (vrun_inv es g0 g Hrun); split; [done|]; split; [done|]; rewrite Hc; by intros k ?%elem_of_nil).
  assert (I1 : glue_inv (propose g folded gbs gconf (Some bs))) by by apply (vhandle_inv g (Propose folded gbs gconf (Some bs))).
  cbn [vrun vhandle mbind res_bind]. unfold set_live_from_confidence at 1. set (g1 := propose g folded gbs gconf (Some bs)) in *.
  destruct (bool_decide _ && _ && _) eqn:E.
  - eexists. split; [done|]. split; [|split; [done|apply I]]. apply andb_true_iff in E as [[E1%bool_decide_eq_true _]%andb_true_iff E3%bool_decide_eq_true].
    assert (Hf : folded = true) by (simpl in E1; destruct folded; [done|by injection E1]).
    destruct (Hpad Hf E3) as [-> ->]. destruct I as (Hs & _ & Hk). destruct (Hk _ E3) as (Hl & _ & p & Hp & HS).
    change (graphs g (_graph_variant g bs, bs) = Some p) in Hp. subst g1 folded. simpl. rewrite Hp. by apply (exec_rows p).
  - match goal with |- context [_live_update ?x _ _ _ _] => set (g2 := x) end.
    assert (I2 : glue_inv g2) by exact I1. destruct (live_update_total g2 fits conf bs (proj1 I2) HC) as [[g3 p] E2]. rewrite E2. cbn [mbind res_bind].
    exists g3. split; [done|]. destruct (live_update_ok _ _ _ _ _ _ _ (proj1 I2) (proj1 (proj2 I2)) E2) as (_ & U1 & _ & (_ & _ & U2) & U4).
    split; [by apply U2|by split].
Qed.
End Vcap.

(** ** Concrete inputs *)
Definition ex_tensors : list tensor :=
  [Tensor 0 Int32 true [2] [3; 4]; Tensor 0 Int64 true [1; 1] [2 ^ 40 + 5]; Tensor 0 Int32 true [1] [7]].
Definition ex_clone : list (option (tensor * Z)) :=
  [Some (Tensor 0 Int32 true [2] [3; 4], 2); Some (Tensor 0 Int64 true [1; 1] [2 ^ 40 + 5], 0); Some (Tensor 0 Int32 true [1] [7], 4)].

Lemma fused_clone_exact_witness : fused_clone true ex_tensors = Some ex_clone /\ length ex_clone = 3%nat.
Proof.
  split; [vm_compute; reflexivity|]. apply (fused_clone_exact true ex_tensors); [|vm_compute; reflexivity].
  repeat constructor; simpl; lia.
Defined.

Definition ex_sampler : sampler (B := Z * option (list Z * list Z)) := Sampler (fun i => Object 0 (8 * i) [2] [i; i]) (0, None) (0, 0) None.
Definition ex_call (s : sampler) (bs : Z) : sampler * bool := stage_sampling_params pair (1, 1) true true s bs (Some (7, 8)).

Lemma stage_exact_witness : (ex_call ex_sampler 2).2 = false /\ (ex_call (ex_call ex_sampler 2).1 2).2 = true /\
  staged (ex_call (ex_call ex_sampler 2).1 2).1 = (2, Some ([7; 7], [8; 8])).
Proof.
  do 2 (split; [vm_compute; reflexivity|]).
  apply (stage_exact pair (1, 1) ex_sampler [Stage true true 2 (Some (7, 8))] (ex_call ex_sampler 2).1 true true 2 (Some (7, 8)) _ true);
    [reflexivity| |apply step_stage; reflexivity].
  eapply steps_cons; [apply step_stage; reflexivity|apply steps_nil].
Defined.

(** A product that rounds, so that the two associations differ; a check, a capture, then a
    replay under variant 1. *)
Definition ex_mul (x y : Z) : Z := x * y / 100.
Definition ex_cumprod (n : Z) (row : list Z) : list Z :=
  match row with
  | [a; b; c; d; e] =>
      let ab := ex_mul a b in
      if n =? 1 then [a; ab; ex_mul ab c; ex_mul (ex_mul ab c) d; ex_mul (ex_mul (ex_mul ab c) d) e]
      else [a; ab; ex_mul ab c; ex_mul ab (ex_mul c d); ex_mul (ex_mul ab (ex_mul c d)) e]
  | _ => row
  end.
Definition ex_clamp : Z -> Z := _clamp01 Z.min Z.max (fun _ => false) 0 100.
Definition ex_conf : list (list Z) := [[90; 80; 60; 95; 99]; [120; 20; 90; 90; 90]].
Definition ex_vrun : glue Z -> list vevent -> res (glue Z) :=
  vrun ex_mul Z.min Z.max (fun _ => false) 0 100 (fun c t => t <=? c) ex_clamp ex_cumprod 6 1 true true None
    (fun v => if decide (v = Some 1) then ["vcap"; "vcapk"] else []) (Some [2; 1; 4]) true.
Definition ex_glue : glue Z := Glue (VerifyCap.State None false None None (Some (One 30)) 1) None [] (fun _ => None) None 0 false 0.
Definition ex_events : list vevent := [Draft false true 4 ex_conf; Switch 1; Draft false true 2 ex_conf; Draft true true 2 ex_conf].
Definition ex_ready : glue Z := match ex_vrun ex_glue ex_events with Ok g => g | Raise _ => ex_glue end.

Lemma vcap_exact_witness : captured ex_ready = [(Some 1, 2)] /\ graphs ex_ready (Some 1, 2) = Some Fused /\
  exists g', ex_vrun ex_ready [Propose true 2 ex_conf (Some 2); Verify true (Some ex_conf) 2] = Ok g' /\
    (exists b, live (vc g') = Some b /\ py_slice b 0 2 = [6; 2]) /\ last_conf g' = Some ex_conf /\ off g' = false.
Proof.
  split; [vm_compute; reflexivity|]. split; [vm_compute; reflexivity|].
  apply (vcap_exact ex_mul Z.min Z.max (fun _ => false) 0 100 (fun c t => t <=? c) ex_clamp ex_cumprod 6 1 true true None
    (fun v => if decide (v = Some 1) then ["vcap"; "vcapk"] else []) (Some [2; 1; 4]) true (One 30) 1) with (g0 := ex_glue) (es := ex_events).
  - reflexivity.
  - intros x y. unfold ex_mul. by rewrite Z.mul_comm.
  - reflexivity.
  - intros n a b c d e Hn. unfold ex_cumprod. destruct (Z.eqb_spec n 1); [lia|reflexivity].
  - repeat split. discriminate.
  - reflexivity.
  - reflexivity.
  - vm_compute. reflexivity.
  - repeat split; [discriminate|]. repeat constructor.
  - by split.
Defined.
