(* ===== verification/RequestGate.v ===== *)
(** * What a request may ask (adapter/encoding_compat.py, history_repair.py, replay_guard.py)

    The rewriting and the refusal of requests before the engine sees them: the two names of
    the thinking switch, the cap of the completion tokens, the shape of Anthropic's thinking
    parameter, broken tool calls in the history, and the requests bounded replay cannot serve.
    The engine's validators, its parser of tool-call arguments and its features are parameters;
    the warnings, the reasoning-effort table's use by the encoder and the patching of classes are
    not modelled. *)
From Stdlib Require Import Ascii String.
From stdpp Require Import strings.
From S2P Require Import Prelude PyStr.
#[local] Open Scope string_scope.
#[local] Open Scope list_scope.
#[local] Open Scope Z_scope.

(** A JSON value; of lists and objects only their truth matters. *)
Inductive pyval := VNone | VBool (b : bool) | VInt (z : Z) | VStr (s : string) | VOther (truth : bool) (id : Z).
#[export] Instance pyval_eq_dec : EqDecision pyval.
Proof. solve_decision. Defined.

Definition truth (v : pyval) : bool :=
  match v with VNone => false | VBool b => b | VInt z => negb (z =? 0) | VStr s => negb (String.eqb s "") | VOther b _ => b end.

(** ** Thinking *)
Definition kwargs := option (gmap string pyval).

Definition both (b : bool) (out : gmap string pyval) : gmap string pyval :=
  <["enable_thinking" := VBool b]> (<["thinking" := VBool b]> out).

Definition normalize_chat_template_kwargs (kw : kwargs) : kwargs :=
  match kw with
  | None => None
  | Some out =>
      if bool_decide (out = ∅) then kw
      else
        match out !! "thinking", out !! "enable_thinking" with
        | Some t, Some _ => Some (both (truth t) out)
        | None, Some e => Some (both (truth e) out)
        | Some t, None => Some (both (truth t) out)
        | None, None => Some out
        end
  end.

(** What the template reads: only [thinking], else the server's default. *)
Definition template_thinking (default : bool) (kw : kwargs) : bool :=
  match kw ≫= (fun out => out !! "thinking") with Some v => truth v | None => default end.

(** ** The cap of the completion tokens *)
Definition DEFAULT_MAX_NEW_TOKENS : Z := 32768.
Definition configured_max_new_tokens (env : environ) : Z :=
  match py_int (strip (env_get env "DSV41_MAX_NEW_TOKENS" "32768")) with Ok z => z | Raise _ => DEFAULT_MAX_NEW_TOKENS end.

Record chat_request := Chat { max_completion_tokens : option Z; max_tokens : option Z; chat_template_kwargs : kwargs }.

Definition apply_request_max_tokens (env : environ) (r : chat_request) : chat_request :=
  let limit := configured_max_new_tokens env in
  if limit <=? 0 then r
  else
    match max_completion_tokens r, max_tokens r with
    | None, None => Chat None (Some limit) (chat_template_kwargs r)
    | Some c, _ => if limit <? c then Chat (Some limit) (max_tokens r) (chat_template_kwargs r) else r
    | None, Some t => if limit <? t then Chat None (Some limit) (chat_template_kwargs r) else r
    end.

(** The engine's own precedence; [None]: fill the context. *)
Definition asked (r : chat_request) : option Z :=
  match max_completion_tokens r with Some c => Some c | None => max_tokens r end.

(** The two hooks of a chat request, in the order the server calls them. *)
Definition _process_messages (r : chat_request) : chat_request :=
  Chat (max_completion_tokens r) (max_tokens r) (normalize_chat_template_kwargs (chat_template_kwargs r)).
Definition _convert (env : environ) (r : chat_request) : chat_request := apply_request_max_tokens env r.

(** ** Anthropic's thinking parameter *)
Record thinking_param := Thinking { th_type : string; budget_tokens : option Z }.
Definition _validate_thinking_shape (original : thinking_param -> res thinking_param) (p : thinking_param) : res thinking_param :=
  if String.eqb (th_type p) "enabled" && bool_decide (budget_tokens p = None) then Ok p else original p.

(** ** Broken tool calls *)
Definition REPAIR_KEY : string := "_unparseable_arguments".
Definition repair_enabled (env : environ) : bool := negb (one_of (strip (env_get env "DSV41_HISTORY_REPAIR" "1")) ["0"; "false"; "off"; "no"]).

Definition make_repairing_parser (original : string -> res (gmap string pyval)) (arguments : string) : res (gmap string pyval) :=
  match original arguments with
  | Raise ValueError => Ok {[REPAIR_KEY := VStr arguments]}
  | r => r
  end.
Definition installed_parser (env : environ) (original : string -> res (gmap string pyval)) : string -> res (gmap string pyval) :=
  if repair_enabled env then make_repairing_parser original else original.

(** ** Bounded replay *)
Definition guard_enabled (env : environ) : bool :=
  negb (one_of (lower (strip (env_get env "DSV41_REPLAY_GUARD" "1"))) ["0"; "off"; "false"; "no"; ""]).

(** A generate request: a missing attribute is its default. *)
Record generate := Generate { return_logprob : pyval; logprob_start_len : pyval; return_hidden_states : pyval }.

(** [isinstance(start, int)]: a bool is one. *)
Definition as_int (v : pyval) : option Z := match v with VInt z => Some z | VBool b => Some (Z.b2z b) | _ => None end.

Definition check (obj : generate) (input_ids : option Z) (bounded_replay : bool) : res unit :=
  match input_ids with
  | None => Ok ()
  | Some n =>
      if negb bounded_replay then Ok ()
      else if truth (return_logprob obj) && match as_int (logprob_start_len obj) with Some start => (0 <=? start) && (start <? n) | None => false end
      then Raise ValueError
      else if bool_decide (return_hidden_states obj = VBool true) then Raise ValueError
      else Ok ()
  end.

(** The engine's feature, [true] when reading it fails; then the stock validation. *)
Definition _validate_one_request (feature : res bool) (original : generate -> option Z -> res unit)
    (is_generate : bool) (obj : generate) (input_ids : option Z) : res unit :=
  let bounded := match feature with Ok b => b | Raise _ => true end in
  _ ← (if is_generate then check obj input_ids bounded else Ok ());
  original obj input_ids.

(** ** Types *)

(** A well-typed request: the two names of the switch are both absent or the same boolean. *)
Definition kwargs_ok (kw : kwargs) : Prop :=
  match kw with
  | None => True
  | Some out => (out !! "thinking" = None /\ out !! "enable_thinking" = None) \/
      exists b, out !! "thinking" = Some (VBool b) /\ out !! "enable_thinking" = Some (VBool b)
  end.

Lemma both_lookup b out k : both b out !! k =
  if String.eqb k "thinking" || String.eqb k "enable_thinking" then Some (VBool b) else out !! k.
Proof.
  unfold both. destruct (String.eqb_spec k "enable_thinking") as [->|H1]; [by rewrite lookup_insert_eq, orb_true_r|].
  rewrite lookup_insert_ne by done. destruct (String.eqb_spec k "thinking") as [->|H2]; [by rewrite lookup_insert_eq|].
  by rewrite lookup_insert_ne.
Qed.

Lemma both_nonempty b out : both b out <> ∅.
Proof. apply insert_non_empty. Qed.

Lemma both_id b out : out !! "thinking" = Some (VBool b) -> out !! "enable_thinking" = Some (VBool b) -> both b out = out.
Proof. intros H1 H2. unfold both. by rewrite insert_id by (by rewrite insert_id); rewrite insert_id. Qed.

(** Either name decides; with both, [thinking]. *)
Definition decided (out : gmap string pyval) : option pyval :=
  match out !! "thinking" with Some t => Some t | None => out !! "enable_thinking" end.

Lemma normalize_decided out : out <> ∅ ->
  normalize_chat_template_kwargs (Some out) = Some (match decided out with Some v => both (truth v) out | None => out end).
Proof.
  intros H. unfold normalize_chat_template_kwargs, decided. rewrite bool_decide_eq_false_2 by done.
  by destruct (out !! "thinking"), (out !! "enable_thinking").
Qed.

Lemma normalize_props kw default :
  let kw' := normalize_chat_template_kwargs kw in
  kwargs_ok kw' /\ template_thinking default kw' = match kw ≫= decided with Some v => truth v | None => default end /\
  (forall k, k <> "thinking" -> k <> "enable_thinking" -> kw' ≫= (fun out => out !! k) = kw ≫= (fun out => out !! k)) /\
  normalize_chat_template_kwargs kw' = kw'.
Proof.
  destruct kw as [out|]; [|done]. destruct (decide (out = ∅)) as [->|Hne].
  { unfold normalize_chat_template_kwargs. rewrite bool_decide_eq_true_2 by done. split; [by left|]. done. }
  cbv zeta. rewrite normalize_decided by done. cbn [mbind option_bind]. destruct (decided out) as [v|] eqn:E.
  - split; [right; exists (truth v); by rewrite !both_lookup|]. split; [unfold template_thinking; simpl; by rewrite both_lookup|].
    split; [intros k H1 H2; simpl; rewrite both_lookup; by apply String.eqb_neq in H1 as ->, H2 as ->|].
    rewrite normalize_decided by apply both_nonempty. unfold decided. rewrite both_lookup. simpl. f_equal. by apply both_id; rewrite both_lookup.
  - unfold decided in E. destruct (out !! "thinking") eqn:Et; [done|]. split; [by left|]. split; [by unfold template_thinking; simpl; rewrite Et|].
    split; [done|]. rewrite normalize_decided by done. unfold decided. by rewrite Et, E.
Qed.

Lemma convert_kwargs env r : chat_template_kwargs (_convert env r) = chat_template_kwargs r.
Proof.
  unfold _convert, apply_request_max_tokens. destruct (_ <=? 0); [done|].
  destruct (max_completion_tokens r) as [c|]; [by destruct (_ <? c)|]. destruct (max_tokens r) as [t|]; [by destruct (_ <? t)|done].
Qed.

Lemma convert_asked env r : let limit := configured_max_new_tokens env in
  asked (_convert env r) = (if limit <=? 0 then asked r else Some (match asked r with Some n => Z.min n limit | None => limit end)) /\
  _convert env (_convert env r) = _convert env r.
Proof.
  cbv zeta. unfold _convert, apply_request_max_tokens, asked. generalize (configured_max_new_tokens env) as limit. intros limit.
  destruct (limit <=? 0) eqn:El; [done|]. destruct r as [[c|] [t|] kw]; simpl.
  all: repeat match goal with |- context [?a <? ?b] => destruct (Z.ltb_spec a b); simpl end; (split; [f_equal; lia|done || (exfalso; lia)]).
Qed.

(** C29: a chat request that went through both hooks is well typed: its two thinking switches are
    absent or one boolean, the truth of [thinking] when it was given and else of
    [enable_thinking], so the template follows whichever name the client used and the server's
    default otherwise; the other keyword arguments are as sent; under a positive limit what the
    engine is asked for is the client's number or the limit, whichever is less, and else as sent;
    and the hooks change nothing a second time. *)
Theorem chat_request_typed env r default :
  let r' := _convert env (_process_messages r) in
  let limit := configured_max_new_tokens env in
  kwargs_ok (chat_template_kwargs r') /\
  template_thinking default (chat_template_kwargs r') =
    match chat_template_kwargs r ≫= decided with Some v => truth v | None => default end /\
  (forall k, k <> "thinking" -> k <> "enable_thinking" ->
     chat_template_kwargs r' ≫= (fun out => out !! k) = chat_template_kwargs r ≫= (fun out => out !! k)) /\
  asked r' = (if limit <=? 0 then asked r else Some (match asked r with Some n => Z.min n limit | None => limit end)) /\
  _convert env (_process_messages r') = r'.
Proof.
  cbv zeta. rewrite convert_kwargs. simpl. destruct (normalize_props (chat_template_kwargs r) default) as (H1 & H2 & H3 & H4).
  destruct (convert_asked env (_process_messages r)) as [C1 C2]. do 3 (split; [done|]). split; [by rewrite C1|].
  transitivity (_convert env (_convert env (_process_messages r))); [|done]. f_equal.
  pose proof (convert_kwargs env (_process_messages r)) as K. simpl in K. set (r1 := _convert env (_process_messages r)) in *.
  unfold _process_messages. rewrite K, H4, <- K. by destruct r1.
Qed.

(** ** Refusals *)

(** What a layer after the last one that keeps its keys raises on inside the forward: prompt
    logprobs, or the hidden states of every prompt token. *)
Definition reads_the_prompt (obj : generate) (n : Z) : Prop :=
  (truth (return_logprob obj) = true /\ exists start, as_int (logprob_start_len obj) = Some start /\ 0 <= start < n) \/
  return_hidden_states obj = VBool true.

(** Under bounded replay, or when the feature cannot be read, the guard refuses a generate
    request of [n] tokens exactly when it reads the prompt; every other request is left to the
    stock validation. *)
Lemma guard_exact feature original is_generate obj n :
  let bounded := match feature with Ok b => b | Raise _ => true end in
  (is_generate = true /\ bounded = true /\ reads_the_prompt obj n ->
     _validate_one_request feature original is_generate obj (Some n) = Raise ValueError) /\
  (~ (is_generate = true /\ bounded = true /\ reads_the_prompt obj n) ->
     _validate_one_request feature original is_generate obj (Some n) = original obj (Some n)).
Proof.
  cbv zeta. unfold _validate_one_request, check, reads_the_prompt. destruct is_generate; [|by split; [intros (? & _)|]].
  destruct (match feature with Ok b => b | Raise _ => true end); simpl; [|by split; [intros (_ & ? & _)|]].
  assert (HL : truth (return_logprob obj) && match as_int (logprob_start_len obj) with Some start => (0 <=? start) && (start <? n) | None => false end = true
    <-> truth (return_logprob obj) = true /\ exists start, as_int (logprob_start_len obj) = Some start /\ 0 <= start < n).
  { rewrite andb_true_iff. destruct (as_int _) as [z|]; split; intros [H1 H2]; (split; [done|]); [exists z; split; [done|lia]| |done|].
    - destruct H2 as (s & [= <-] & ?). lia.
    - by destruct H2 as (s & ? & _). }
  destruct (truth (return_logprob obj) && _) eqn:E1.
  - split; [done|]. intros H. exfalso. apply H. split; [done|]. split; [done|]. left. by apply HL.
  - destruct (bool_decide _) eqn:E2; [apply bool_decide_eq_true in E2|apply bool_decide_eq_false in E2].
    + split; [done|]. intros H. exfalso. apply H. split; [done|]. split; [done|]. by right.
    + split; [|done]. intros (_ & _ & [H|H]); [apply HL in H; congruence|done].
Qed.

Definition ex_env : environ := fun _ => None.
Example ex_request : _convert ex_env (_process_messages (Chat None (Some 100000) (Some {["enable_thinking" := VInt 1]}))) =
  Chat None (Some 32768) (Some (both true {["enable_thinking" := VInt 1]})).
Proof. reflexivity. Qed.

Lemma chat_request_typed_witness :
  let r := _convert ex_env (_process_messages (Chat None (Some 100000) (Some {["enable_thinking" := VInt 1; "seed" := VInt 7]}))) in
  kwargs_ok (chat_template_kwargs r) /\ template_thinking false (chat_template_kwargs r) = true /\
  chat_template_kwargs r ≫= (fun out => out !! "seed") = Some (VInt 7) /\ asked r = Some 32768.
Proof.
  destruct (chat_request_typed ex_env (Chat None (Some 100000) (Some {["enable_thinking" := VInt 1; "seed" := VInt 7]})) false) as (H1 & H2 & H3 & H4 & _).
  split; [exact H1|]. split; [exact H2|]. split; [apply (H3 "seed"); discriminate|exact H4].
Defined.
