(* ===== verification/IndexerRows.v ===== *)
(** * Rows of the prefill indexer (adapter/spark_prefill_dense.py, indexer_chunked_v3.py)

    What the chunked prefill indexer and its split over the ranks are made of: the partition
    of the query rows, a row's candidate blocks as ids and back as a mask, the compressed slots
    of a batch by the stock loop and by one gather without host reads, and whether the split is
    used.  A row of scores is a list over an abstract type with torch's maximum, comparison and
    top-k; the request-to-token table is a function. *)
From Stdlib Require Import String.
From S2P Require Import Prelude PyStr.
#[local] Open Scope string_scope.
#[local] Open Scope list_scope.
#[local] Open Scope Z_scope.

(** ** The partition of the rows *)
Definition tile : Z := 128.
Definition partition (rows world rank tile : Z) : res (Z * Z * Z) :=
  if (rows <? 0) || (world <? 1) || negb ((0 <=? rank) && (rank <? world)) || (tile <? 1) then Raise ValueError
  else
    let extent := (rows + world * tile - 1) / (world * tile) * tile in
    let start := rank * extent in
    Ok (start, Z.min rows (start + extent), extent).

Lemma partition_ok rows world rank : 0 <= rows -> 0 <= rank < world -> exists extent, 0 <= extent /\ rows <= world * extent /\
  partition rows world rank tile = Ok (rank * extent, Z.min rows (rank * extent + extent), extent) /\ extent = (rows + world * tile - 1) / (world * tile) * tile.
Proof.
  intros Hr Hw. unfold partition, tile. replace (_ || _) with false by lia. eexists. split; [|split; [|by split]].
  - apply Z.mul_nonneg_nonneg; [|lia]. apply Z.div_pos; lia.
  - pose proof (Z.mod_pos_bound (rows + world * 128 - 1) (world * 128) ltac:(lia)).
    pose proof (Z.div_mod (rows + world * 128 - 1) (world * 128) ltac:(lia)). nia.
Qed.

(** The rank of a row, and its place in the rank's rows. *)
Lemma row_owner i rows world extent : 0 <= i < rows -> rows <= world * extent -> 0 <= extent ->
  let rank := i / extent in
  0 < extent /\ 0 <= rank < world /\ rank * extent <= i < Z.min rows (rank * extent + extent) /\ i mod extent = i - rank * extent.
Proof.
  intros Hi Hr He. assert (0 < extent) by (destruct (Z.eq_dec extent 0) as [->|]; lia). cbv zeta. pose proof (Z.mod_pos_bound i extent ltac:(lia)).
  pose proof (Z.div_mod i extent ltac:(lia)). assert (0 <= i / extent) by (apply Z.div_pos; lia).
  assert (i / extent < world) by (apply Z.div_lt_upper_bound; lia). rewrite (Z.mul_comm (i / extent)). lia.
Qed.

(** ** Candidate blocks *)
Section Blocks.
Context {S : Type} (ninf pinf : S) (smax : S -> S -> S) (gt : S -> S -> bool) (torch_topk : Z -> list S -> list (S * Z)).

(** [F.pad], [unflatten], [amax]: the maximum of every block. *)
Definition amax (l : list S) : S := match l with x :: l => fold_left smax l x | [] => ninf end.
Definition block_max (scores : list S) (block_size : Z) : list S :=
  let padded := scores ++ replicate (Z.to_nat (- zlen scores mod block_size)) ninf in
  map (fun b => amax (py_slice padded (b * block_size) ((b + 1) * block_size))) (zrange 0 (zlen padded / block_size)).

(** The blocks torch picks, with the block of the row's last position forced. *)
Definition picks (scores : list S) (len topk_blocks block_size : Z) : list (S * Z) :=
  let maxima := block_max scores block_size in
  let forced := imap (fun b m => if Z.of_nat b =? (len - 1) / block_size then pinf else m) maxima in
  torch_topk (Z.min topk_blocks (zlen forced)) forced.

Definition candidate_block_ids (scores : list S) (len topk_blocks block_size : Z) : list Z :=
  map (fun p => if gt p.1 ninf then p.2 else -1) (picks scores len topk_blocks block_size).

Definition candidate_mask (ids : list Z) (width block_size : Z) : list bool :=
  let blocks := (width + block_size - 1) / block_size in
  let cols := map (fun i => if i <? 0 then blocks else i) ids in
  let keep := fold_left (fun k c => <[Z.to_nat c := true]> k) cols (replicate (Z.to_nat (blocks + 1)) false) in
  take (Z.to_nat width) (take (Z.to_nat blocks) keep ≫= replicate (Z.to_nat block_size)).

(** A column is kept when its block is picked with a score above minus infinity. *)
Definition kept (scores : list S) (len topk_blocks block_size c : Z) : bool :=
  existsb (fun p => gt p.1 ninf && (p.2 =? c / block_size)) (picks scores len topk_blocks block_size).

Definition TopkLaw : Prop := forall k l, 0 <= k <= zlen l -> zlen (torch_topk k l) = k /\ Forall (fun p => 0 <= p.2 < zlen l) (torch_topk k l).

Lemma block_max_len scores bs : 0 < bs -> zlen (block_max scores bs) = (zlen scores + bs - 1) / bs.
Proof.
  intros Hb. unfold block_max. rewrite zlen_map. set (n := zlen scores). pose proof (zlen_nonneg scores). fold n in H.
  pose proof (Z.mod_pos_bound (- n) bs ltac:(lia)). rewrite zlen_app, zlen_replicate. fold n. rewrite Z2Nat.id by lia.
  assert (E : (n + - n mod bs) / bs = (n + bs - 1) / bs).
  { pose proof (Z.div_mod (- n) bs ltac:(lia)). pose proof (Z.div_mod (n + bs - 1) bs ltac:(lia)).
    pose proof (Z.mod_pos_bound (n + bs - 1) bs ltac:(lia)). replace (n + - n mod bs) with (bs * - (- n / bs)) by lia.
    rewrite Z.mul_comm, Z.div_mul by lia. nia. }
  rewrite E. rewrite zrange_length; [lia|]. apply Z.div_pos; lia.
Qed.

Lemma picks_in scores len tb bs : TopkLaw -> 0 < bs -> 0 <= tb ->
  let blocks := (zlen scores + bs - 1) / bs in
  zlen (picks scores len tb bs) = Z.min tb blocks /\ Forall (fun p => 0 <= p.2 < blocks) (picks scores len tb bs).
Proof.
  intros HT Hb Ht. cbv zeta. unfold picks. set (forced := imap _ _).
  assert (E : zlen forced = (zlen scores + bs - 1) / bs) by (unfold forced, zlen; rewrite length_imap; fold (zlen (block_max scores bs)); by apply block_max_len).
  rewrite <- E. apply HT. pose proof (zlen_nonneg forced). lia.
Qed.

Lemma fold_insert_lookup (cols : list Z) (l : list bool) (i : nat) : (i < length l)%nat -> Forall (fun c => 0 <= c) cols ->
  fold_left (fun k c => <[Z.to_nat c := true]> k) cols l !! i = if existsb (Z.eqb (Z.of_nat i)) cols then Some true else l !! i.
Proof.
  revert l. induction cols as [|c cols IH]; intros l Hi HF; [done|]. apply Forall_cons in HF as [Hc HF]. simpl.
  rewrite IH by (rewrite ?length_insert; done). destruct (Z.eqb_spec (Z.of_nat i) c) as [<-|Hne]; simpl.
  - rewrite Nat2Z.id, list_lookup_insert_eq by done. by destruct (existsb _ cols).
  - by rewrite list_lookup_insert_ne by lia.
Qed.

Lemma repeat_lookup {A} (l : list A) (bs : Z) (c : Z) : 0 < bs -> 0 <= c ->
  (l ≫= replicate (Z.to_nat bs)) !! Z.to_nat c = l !! Z.to_nat (c / bs).
Proof.
  intros Hb. revert c. induction l as [|x l IH]; intros c Hc; [done|]. cbn [mbind list_bind]. destruct (Z.ltb_spec c bs).
  - rewrite lookup_app_l by (rewrite length_replicate; lia). rewrite Z.div_small by lia. apply lookup_replicate_2. lia.
  - rewrite lookup_app_r by (rewrite length_replicate; lia). rewrite length_replicate.
    replace (Z.to_nat c - Z.to_nat bs)%nat with (Z.to_nat (c - bs)) by lia. rewrite IH by lia.
    replace (c / bs) with ((c - bs) / bs + 1) by (rewrite <- Z.div_add by lia; f_equal; lia).
    assert (0 <= (c - bs) / bs) by (apply Z.div_pos; lia). by replace (Z.to_nat ((c - bs) / bs + 1)) with (Datatypes.S (Z.to_nat ((c - bs) / bs))) by lia.
Qed.

(** The mask made of the ids keeps exactly the columns of the picked blocks. *)
Lemma candidate_mask_ids scores len tb bs : TopkLaw -> 0 < bs -> 0 <= tb ->
  candidate_mask (candidate_block_ids scores len tb bs) (zlen scores) bs = map (kept scores len tb bs) (zrange 0 (zlen scores)).
Proof.
  intros HT Hb Ht. pose proof (picks_in scores len tb bs HT Hb Ht) as [_ HF]. unfold candidate_mask, candidate_block_ids, kept.
  set (w := zlen scores) in *. set (blocks := (w + bs - 1) / bs) in *. assert (Hw : 0 <= w) by apply zlen_nonneg.
  assert (H0 : 0 <= blocks) by (apply Z.div_pos; lia). apply list_eq. intros i. destruct (decide (Z.of_nat i < w)) as [Hi|Hi].
  2: { rewrite lookup_take_ge by lia. symmetry. apply lookup_ge_None. rewrite length_map. unfold zrange. rewrite length_seqZ. lia. }
  rewrite lookup_take_lt by lia. rewrite <- (Nat2Z.id i) at 1. rewrite repeat_lookup by lia.
  assert (Hc : 0 <= Z.of_nat i / bs < blocks).
  { split; [apply Z.div_pos; lia|]. apply Z.div_lt_upper_bound; [lia|]. unfold blocks. pose proof (Z.div_mod (w + bs - 1) bs ltac:(lia)).
    pose proof (Z.mod_pos_bound (w + bs - 1) bs ltac:(lia)). lia. }
  rewrite lookup_take_lt by lia. rewrite fold_insert_lookup.
  2: { rewrite length_replicate. lia. }
  2: { apply Forall_map, Forall_map. eapply Forall_impl; [exact HF|]. simpl. intros p Hp. destruct (gt p.1 ninf); case_match; lia. }
  rewrite list_lookup_fmap. unfold zrange. rewrite lookup_seqZ_lt by lia. simpl. rewrite Z.add_0_l, lookup_replicate_2 by lia.
  transitivity (Some (existsb (Z.eqb (Z.of_nat (Z.to_nat (Z.of_nat i / bs)))) (map (fun i0 : Z => if i0 <? 0 then blocks else i0)
    (map (fun p => if gt p.1 ninf then p.2 else -1) (picks scores len tb bs))))); [by case_match|].
  f_equal. rewrite Z2Nat.id by lia. clear -HF Hc. induction HF as [|p l Hp _ IH]; [done|]. simpl. rewrite IH. f_equal.
  destruct (gt p.1 ninf); simpl; [|lia]. destruct (p.2 <? 0) eqn:E; lia.
Qed.
End Blocks.

(** ** Compressed slots *)
Section Slots.
(** [req_to_token[row, column]]. *)
Context (req_to_token : Z -> Z -> Z) (ratio : Z).

(** The stock loop: a chunk for every request with compressed positions, and the starts. *)
Fixpoint slot_loop (start : Z) (reqs : list (Z * Z)) : list (list Z) * list Z :=
  match reqs with
  | [] => ([], [])
  | (r, lc) :: reqs =>
      if lc =? 0 then let '(chunks, starts) := slot_loop start reqs in (chunks, start :: starts)
      else
        let '(chunks, starts) := slot_loop (start + lc) reqs in
        (map (fun j => req_to_token r (j * ratio) / ratio) (zrange 0 lc) :: chunks, start :: starts)
  end.

Definition repeat_interleave {A} (l : list A) (counts : list Z) : list A :=
  concat (zip_with (fun x c => replicate (Z.to_nat c) x) l counts).

Fixpoint starts_from (start : Z) (lcs : list Z) : list Z :=
  match lcs with [] => [] | lc :: lcs => start :: starts_from (start + lc) lcs end.

(** One gather over the rows and columns of all requests; [None]: no slot at all. *)
Definition slot_ids_nosync (req_pool_indices lc_per_req : list Z) : option (list Z) * list Z :=
  let starts := starts_from 0 lc_per_req in
  let start := zsum lc_per_req in
  if start =? 0 then (None, starts)
  else
    let rows := repeat_interleave (py_slice req_pool_indices 0 (zlen lc_per_req)) lc_per_req in
    let cols := zip_with Z.sub (zrange 0 start) (repeat_interleave starts lc_per_req) in
    (Some (zip_with (fun r c => req_to_token r (c * ratio) / ratio) rows cols), starts).

(** The keys' slots, [None] when there are none, and the start of each request's. *)
Definition slots (nosync : bool) (req_pool_indices lc_per_req : list Z) : option (list Z) * list Z :=
  if nosync then slot_ids_nosync req_pool_indices lc_per_req
  else
    let '(chunks, starts) := slot_loop 0 (zip req_pool_indices lc_per_req) in
    (match chunks with [] => None | _ => Some (concat chunks) end, starts).

Lemma slot_loop_starts start reqs : (slot_loop start reqs).2 = starts_from start (map snd reqs).
Proof.
  revert start. induction reqs as [|[r lc] reqs IH]; intros start; [done|]. simpl. destruct (Z.eqb_spec lc 0) as [->|].
  - rewrite Z.add_0_r. destruct (slot_loop start reqs) eqn:E. simpl. by rewrite <- IH, E.
  - destruct (slot_loop (start + lc) reqs) eqn:E. simpl. by rewrite <- IH, E.
Qed.

(** The gather's elements from a start on are the loop's chunks one after the other. *)
Lemma gather_loop start reqs : Forall (fun q => 0 <= q.2) reqs ->
  zip_with (fun r c => req_to_token r (c * ratio) / ratio) (repeat_interleave (map fst reqs) (map snd reqs))
    (zip_with Z.sub (zrange start (start + zsum (map snd reqs))) (repeat_interleave (starts_from start (map snd reqs)) (map snd reqs))) =
  concat (slot_loop start reqs).1.
Proof.
  revert start. induction reqs as [|[r lc] reqs IH]; intros start HF; [done|]. apply Forall_cons in HF as [Hlc HF]. simpl in Hlc.
  cbn [map fst snd zsum starts_from slot_loop]. unfold repeat_interleave. cbn [zip_with concat]. fold (repeat_interleave (map fst reqs) (map snd reqs)).
  fold (repeat_interleave (starts_from (start + lc) (map snd reqs)) (map snd reqs)).
  assert (Hsum : 0 <= zsum (map snd reqs)). { clear -HF. induction HF as [|q l Hq _ IH]; simpl; lia. }
  unfold zrange. replace (start + (lc + zsum (map snd reqs)) - start) with (lc + zsum (map snd reqs)) by lia. rewrite seqZ_app by lia.
  rewrite (zip_with_app Z.sub (seqZ start lc)) by (rewrite length_seqZ, length_replicate; lia).
  rewrite zip_with_app by (rewrite length_zip_with, length_seqZ, !length_replicate; lia).
  specialize (IH (start + lc) HF). unfold zrange in IH. replace (start + lc + zsum (map snd reqs) - (start + lc)) with (zsum (map snd reqs)) in IH by lia.
  rewrite IH. assert (E : zip_with (fun r0 c => req_to_token r0 (c * ratio) / ratio) (replicate (Z.to_nat lc) r) (zip_with Z.sub (seqZ start lc) (replicate (Z.to_nat lc) start))
      = map (fun j => req_to_token r (j * ratio) / ratio) (zrange 0 lc)).
  { apply list_eq. intros i. rewrite list_lookup_fmap. unfold zrange. rewrite !lookup_zip_with. destruct (decide (Z.of_nat i < lc)).
    - rewrite lookup_replicate_2, !lookup_seqZ_lt by lia. simpl. rewrite lookup_replicate_2 by lia. simpl. do 3 f_equal. lia.
    - rewrite !lookup_seqZ_ge by lia. rewrite (lookup_ge_None_2 (replicate (Z.to_nat lc) r)); [reflexivity|rewrite length_replicate; lia]. }
  rewrite E. destruct (Z.eqb_spec lc 0) as [->|].
  - rewrite Z.add_0_r. simpl. by destruct (slot_loop start reqs).
  - by destruct (slot_loop (start + lc) reqs).
Qed.

Lemma slot_loop_none start reqs : Forall (fun q => 0 <= q.2) reqs -> ((slot_loop start reqs).1 = [] <-> zsum (map snd reqs) = 0).
Proof.
  intros HF. revert start. induction HF as [|[r lc] l Hq HF IH]; intros start; [done|]. simpl in *.
  assert (Hsum : 0 <= zsum (map snd l)). { clear -HF. induction HF as [|q l Hq _ IH]; simpl; lia. }
  destruct (Z.eqb_spec lc 0) as [->|].
  - specialize (IH start). destruct (slot_loop start l). exact IH.
  - destruct (slot_loop (start + lc) l). split; [done|lia].
Qed.

(** Both ways give the same slots in the same order, and the same starts. *)
Lemma slots_nosync req_pool_indices lc_per_req nosync : (length lc_per_req <= length req_pool_indices)%nat -> Forall (fun lc => 0 <= lc) lc_per_req ->
  slots nosync req_pool_indices lc_per_req = slots false req_pool_indices lc_per_req.
Proof.
  intros Hlen HF. destruct nosync; [|done]. unfold slots, slot_ids_nosync. set (reqs := zip req_pool_indices lc_per_req).
  assert (Es : map snd reqs = lc_per_req) by (apply snd_zip; lia).
  assert (Ef : map fst reqs = py_slice req_pool_indices 0 (zlen lc_per_req)).
  { unfold reqs. rewrite py_slice_in by (unfold zlen; lia). rewrite drop_0. unfold zlen. replace (Z.to_nat (Z.of_nat (length lc_per_req) - 0)) with (length lc_per_req) by lia.
    clear. revert lc_per_req. induction req_pool_indices as [|x l IH]; intros [|y k]; try done. simpl. f_equal. apply IH. }
  assert (HF' : Forall (fun q => 0 <= q.2) reqs) by (rewrite <- (Forall_map snd), Es; done).
  pose proof (gather_loop 0 reqs HF') as HG. pose proof (slot_loop_starts 0 reqs) as HS. pose proof (slot_loop_none 0 reqs HF') as HN.
  rewrite Es in HG, HS, HN. rewrite Ef, Z.add_0_l in HG. destruct (slot_loop 0 reqs) as [chunks starts]. simpl in *. rewrite HS. destruct (Z.eqb_spec (zsum lc_per_req) 0) as [E|E].
  - by rewrite (proj2 HN E).
  - rewrite HG. destruct chunks; [by destruct E; apply HN|done].
Qed.
End Slots.

(** ** Settings *)
Definition DEFAULT_BUDGET_BYTES : Z := 2 ^ 31.
Definition _enabled (raw : string) : bool := negb (one_of (strip raw) ["0"; "off"; "false"; ""]).
Definition budget_bytes (env : environ) : Z :=
  let raw := strip (env_get env "DSV41_INDEXER_LOGITS_BUDGET_BYTES" "") in
  let value := if String.eqb raw "" then DEFAULT_BUDGET_BYTES else match py_int raw with Ok z => z | Raise _ => DEFAULT_BUDGET_BYTES end in
  if 0 <? value then value else DEFAULT_BUDGET_BYTES.

(** [raw or "0"]: an empty value is off, too. *)
Definition nosync_value (raw : option string) : bool :=
  negb (one_of (lower (strip (match raw with None | Some "" => "0" | Some s => s end))) ["0"; "off"; "false"; ""; "no"]).

(** [NativePrefillTPSplit]. *)
Record tp_split := Split { world : Z; enabled : bool; minimum_context : Z; minimum_rows : Z }.
Definition eligible (tp : tp_split) (rows width : Z) (prefill cuda capturing : bool) : bool :=
  enabled tp && prefill && cuda && (minimum_rows tp <=? rows) && (minimum_context tp <=? width) && negb capturing.

(** A rank's three settings as strings, and those of the whole group. *)
Definition settings (env : environ) : string * string * string :=
  (env_get env "SPARK_PREFILL_TP_SPLIT" "0", env_get env "SPARK_PREFILL_TP_MIN_CONTEXT" "32768", env_get env "SPARK_PREFILL_TP_MIN_ROWS" "1024").
Definition same_settings (a b : string * string * string) : bool :=
  String.eqb a.1.1 b.1.1 && String.eqb a.1.2 b.1.2 && String.eqb a.2 b.2.

(** [from_parallel]: the group's size, its three other parallel sizes, and the hardware. *)
Definition from_parallel (env : environ) (agreed : list (string * string * string)) (world_size cp dp dcp : Z) (hardware is_draft : bool) : res tp_split :=
  let mine := settings env in
  if negb (forallb (same_settings mine) agreed) then Raise RuntimeError
  else if negb (one_of mine.1.1 ["0"; "1"]) then Raise ValueError
  else
    context ← py_int mine.1.2;
    rows ← py_int mine.2;
    if (context <? 32768) || (rows <? 1024) then Raise ValueError
    else
      let topology := ((world_size =? 4) || (world_size =? 8)) && (cp =? dp) && (dp =? dcp) && (dcp =? 1) in
      Ok (Split world_size (String.eqb mine.1.1 "1" && topology && hardware && negb is_draft) context rows).

(** Ranks that come out of the exchange take the same side of every chunk, so none waits in
    the gather for a rank that scores alone; and a split only happens in a group of 4 or 8. *)
Lemma split_lockstep env env' agreed world cp dp dcp hw draft tp tp' rows width prefill cuda capturing :
  settings env ∈ agreed -> settings env' ∈ agreed ->
  from_parallel env agreed world cp dp dcp hw draft = Ok tp -> from_parallel env' agreed world cp dp dcp hw draft = Ok tp' ->
  tp = tp' /\ (eligible tp rows width prefill cuda capturing = true -> (world = 4 \/ world = 8) /\ 1024 <= rows /\ 32768 <= width).
Proof.
  intros H1 H2. unfold from_parallel. destruct (forallb (same_settings (settings env)) agreed) eqn:E1; [|done]. cbn [negb].
  destruct (forallb (same_settings (settings env')) agreed) eqn:E2; [|done]. cbn [negb].
  assert (E : settings env = settings env').
  { rewrite forallb_forall in E1. specialize (E1 _ (proj1 (list_elem_of_In _ _) H2)). unfold same_settings in E1.
    destruct (settings env) as [[a b] c], (settings env') as [[a' b'] c']. simpl in E1. apply andb_true_iff in E1 as [E1 ->%String.eqb_eq].
    by apply andb_true_iff in E1 as [->%String.eqb_eq ->%String.eqb_eq]. }
  rewrite E. destruct (negb (one_of _ _)); [done|]. destruct (py_int (settings env').1.2) as [context|]; cbn [mbind res_bind]; [|done].
  destruct (py_int _) as [nrows|]; cbn [mbind res_bind]; [|done]. destruct ((context <? 32768) || _) eqn:EF; [done|]. intros [= <-] [= <-]. split; [done|].
  unfold eligible. cbn [enabled minimum_rows minimum_context]. intros H. repeat (apply andb_true_iff in H as [H ?]).
  repeat match goal with X : _ && _ = true |- _ => apply andb_true_iff in X as [X ?] end. lia.
Qed.
