(* ===== verification/IndexerChunked.v ===== *)
(** * The chunked prefill indexer (adapter/indexer_chunked_v3.py)

    The dense indexer of a prefill chunk: every query row is scored against its request's
    compressed keys and keeps its top positions, in row chunks under a budget of logits, on
    one rank or split over the ranks of the group, with the candidate blocks of a source layer
    published as masks and those a layer consumes applied to its scores.  Tensors of rows are
    functions of the row; the scorer, the ragged top-k, the masking of its result and the
    selection of candidate blocks are the engine's, functions of one row here, so that a row's
    result does not depend on which rows are scored with it.  The ranks of the group hold the
    same inputs.  The older variants of the adapter, the log lines and the installer are not
    modelled. *)
From S2P Require Import Prelude IndexerRows.
#[local] Open Scope list_scope.
#[local] Open Scope Z_scope.

Record indexer := Indexer {
  is_candidate_source : bool; uses_candidates : bool; index_topk : Z;
  candidate_topk_blocks : Z; candidate_block_size : Z }.

(** The batch: each request's length and query rows, the rows' positions and their queries,
    the keys behind slots, and the masks a source layer published before. *)
Record batch (Q K : Type) := Batch {
  ratio : Z; seq_lens_cpu : list Z; q_lens_cpu : list Z; req_pool_indices : list Z; req_to_token : Z -> Z -> Z;
  num_tokens : Z; pos : Z -> Z; query : Z -> Q; get_index_k : list Z -> K;
  published : list (list (list bool)); tail_rows : option (list Z) }.
Arguments Batch {Q K} _ _ _ _ _ _ _ _ _ _ _.
Arguments ratio {Q K} _.
Arguments seq_lens_cpu {Q K} _.
Arguments q_lens_cpu {Q K} _.
Arguments req_pool_indices {Q K} _.
Arguments req_to_token {Q K} _.
Arguments num_tokens {Q K} _.
Arguments pos {Q K} _.
Arguments query {Q K} _.
Arguments get_index_k {Q K} _.
Arguments published {Q K} _.
Arguments tail_rows {Q K} _.

(** [range(a, b, n)]. *)
Definition steps (a b n : Z) : list Z := map (fun i => a + i * n) (zrange 0 (cdiv (b - a) n)).

Section Indexer.
Context {Q K S : Type} (ninf pinf : S) (smax : S -> S -> S) (gt : S -> S -> bool) (torch_topk : Z -> list S -> list (S * Z)).
(** The engine's operations on a row: the logits of a query against the keys [ks, ke), [width]
    columns wide; the top positions of a row's first [len] logits, shifted by an offset; those
    of them whose score is above minus infinity; the columns of the candidate blocks. *)
Context (score : K -> Q -> Z -> Z -> Z -> list S) (topk_row : Z -> list S -> Z -> Z -> list Z)
  (mask_topk_scores : list S -> list Z -> Z -> list Z) (select_candidate_blocks : list S -> Z -> Z -> Z -> list bool)
  (ceil_align : Z -> Z -> Z).
Context (ix : indexer) (budget : Z).

(** The rows' tensors of one call: keys, queries, starts and visible lengths. *)
Record rows := Rows { keys : K; q : Z -> Q; ks : Z -> Z; lens : Z -> Z }.
Context (R : rows) (consume : option (list (list (list bool)))).

Definition logits_row (g width : Z) : list S := score (keys R) (q R g) (ks R g) (ks R g + lens R g) width.

(** [masked_fill_] on the first [w] columns of a row. *)
Definition fill (w : Z) (drop : Z -> bool) (row : list S) : list S :=
  imap (fun j s => if (Z.of_nat j <? w) && drop (Z.of_nat j) then ninf else s) row.

(** Row [g] of the batch, row [i] of request [b] with [lc] compressed positions. *)
Definition masked (b : nat) (lc i g : Z) (row : list S) : list S :=
  if is_candidate_source ix then fill lc (fun j => lens R g <=? j) row
  else match consume with
       | Some ms => fill lc (fun j => negb (nth (Z.to_nat j) (nth (Z.to_nat i) (nth b ms []) []) false)) row
       | None => row
       end.

Definition choose (g : Z) (row : list S) : list Z :=
  let selected := topk_row (index_topk ix) row (lens R g) (ks R g) in
  match consume with Some _ => mask_topk_scores row selected (ks R g) | None => selected end.

Definition select (g : Z) (scores : list S) : list bool :=
  select_candidate_blocks scores (lens R g) (candidate_topk_blocks ix) (candidate_block_size ix).

Definition rows_per_chunk (width : Z) : Z := Z.max 1 (budget / (width * 4)).

(** ** One rank *)

(** A chunk of request [b], whose first row is [row0]: the rows' choices and, in a source
    layer, the masks of those that are published. *)
Definition local_chunk (b : nat) (lc row0 t_len first_pub : Z) (st : (Z -> list Z) * (Z -> list bool)) (c0 : Z)
    : (Z -> list Z) * (Z -> list bool) :=
  let lc_aligned := ceil_align lc 4 in
  let c1 := Z.min (c0 + rows_per_chunk lc_aligned) t_len in
  let logits x := masked b lc (c0 + x) (row0 + c0 + x) (logits_row (row0 + c0 + x) lc_aligned) in
  let p0 := Z.max c0 first_pub in
  (fun g => if (row0 + c0 <=? g) && (g <? row0 + c1) then choose g (logits (g - (row0 + c0))) else st.1 g,
   fun r => if is_candidate_source ix && (p0 <? c1) && (p0 - first_pub <=? r) && (r <? c1 - first_pub)
            then let x := p0 - c0 + (r - (p0 - first_pub)) in select (row0 + c0 + x) (take (Z.to_nat lc) (logits x))
            else st.2 r).

(** The requests of the batch in turn; [selected] and the masks start as memory leaves them. *)
Fixpoint local_requests (garbage : Z -> list bool) (publish_rows : option (list Z)) (b : nat) (tok_start : Z) (reqs : list (Z * Z)) (selected : Z -> list Z)
    : (Z -> list Z) * list (list (list bool)) :=
  match reqs with
  | [] => (selected, [])
  | (lc, t_len) :: reqs =>
      if (lc =? 0) || (t_len =? 0) then
        let selected := if t_len =? 0 then selected
                        else fun g => if (tok_start <=? g) && (g <? tok_start + t_len) then replicate (Z.to_nat (index_topk ix)) (-1) else selected g in
        let '(selected, publish) := local_requests garbage publish_rows (Datatypes.S b) (tok_start + t_len) reqs selected in
        (selected, [] :: publish)
      else
        let pub_rows := match publish_rows with None => t_len | Some l => Z.min (nth b l 0) t_len end in
        let st := fold_left (local_chunk b lc tok_start t_len (t_len - pub_rows)) (steps 0 t_len (rows_per_chunk (ceil_align lc 4))) (selected, garbage) in
        let '(selected, publish) := local_requests garbage publish_rows (Datatypes.S b) (tok_start + t_len) reqs st.1 in
        (selected, map st.2 (zrange 0 pub_rows) :: publish)
  end.

(** ** Split over the ranks *)

(** [bounds]: each request's rows, with its index. *)
Fixpoint bounds_from (b : nat) (offset : Z) (reqs : list (Z * Z)) : list (nat * (Z * Z * Z)) :=
  match reqs with
  | [] => []
  | (width, count) :: reqs => (b, (offset, offset + count, width)) :: bounds_from (Datatypes.S b) (offset + count) reqs
  end.

Definition put_cols (row : list Z) (at_ : Z) (new : list Z) : list Z :=
  take (Z.to_nat at_) row ++ new ++ drop (Z.to_nat at_ + length new) row.

(** A request's rows of a chunk: masked in place; in a source layer their block ids packed. *)
Definition split_request (start c0 c1 : Z) (st : (Z -> list S) * (Z -> list Z)) (e : nat * (Z * Z * Z)) : (Z -> list S) * (Z -> list Z) :=
  let '(b, (lo_r, hi_r, width)) := e in
  let lo := Z.max c0 lo_r in
  let hi := Z.min c1 hi_r in
  if (width =? 0) || (hi <=? lo) then st
  else
    let logits x := if (lo - c0 <=? x) && (x <? hi - c0) then masked b width (x + c0 - lo_r) (x + c0) (st.1 x) else st.1 x in
    (logits,
     if is_candidate_source ix then
       fun y => if (lo - start <=? y) && (y <? hi - start)
                then put_cols (st.2 y) (index_topk ix)
                       (candidate_block_ids ninf pinf smax gt torch_topk (take (Z.to_nat width) (logits (y + start - c0))) (lens R (y + start))
                          (candidate_topk_blocks ix) (candidate_block_size ix))
                else st.2 y
     else st.2).

Definition split_chunk (bounds : list (nat * (Z * Z * Z))) (start end_ width_max : Z) (packed : Z -> list Z) (c0 : Z) : Z -> list Z :=
  let lc_aligned := ceil_align width_max 4 in
  let c1 := Z.min (c0 + rows_per_chunk lc_aligned) end_ in
  let st := fold_left (split_request start c0 c1) bounds (fun x => logits_row (c0 + x) lc_aligned, packed) in
  fun y => if (c0 - start <=? y) && (y <? c1 - start) then put_cols (st.2 y) 0 (choose (y + start) (st.1 (y + start - c0))) else st.2 y.

Definition n_blocks (width : Z) : Z :=
  Z.min (candidate_topk_blocks ix) ((width + candidate_block_size ix - 1) / candidate_block_size ix).
Definition zmax (l : list Z) : Z := foldr Z.max 0 l.

(** [_split_local]: the rank's rows of the packed tensor. *)
Definition _split_local (n : Z) (lengths q_lengths : list Z) (world rank : Z) : res (list (list Z)) :=
  '(start, end_, extent) ← partition n world rank tile;
  let width_max := zmax lengths in
  let blocks := if is_candidate_source ix then n_blocks width_max else 0 in
  let packed := fun _ : Z => replicate (Z.to_nat (index_topk ix + blocks)) (-1) in
  if end_ <=? start then Ok (map packed (zrange 0 extent))
  else if negb (zsum (map snd (zip lengths q_lengths)) =? n) then Raise AssertionError
  else
    Ok (map (fold_left (split_chunk (bounds_from 0 0 (zip lengths q_lengths)) start end_ width_max)
               (steps start end_ (rows_per_chunk (ceil_align width_max 4))) packed) (zrange 0 extent)).

Fixpoint split_masks (publish_rows : option (list Z)) (gathered : list (list Z)) (b : nat) (offset : Z) (reqs : list (Z * Z)) : list (list (list bool)) :=
  match reqs with
  | [] => []
  | (width, count) :: reqs =>
      (if (width =? 0) || (count =? 0) then []
       else
         let pub := match publish_rows with None => count | Some l => Z.min (nth b l 0) count end in
         map (fun row => candidate_mask (py_slice row (index_topk ix) (index_topk ix + n_blocks width)) width (candidate_block_size ix))
           (py_slice gathered (offset + count - pub) (offset + count)))
      :: split_masks publish_rows gathered (Datatypes.S b) (offset + count) reqs
  end.

(** [_split_select]: every rank's packed rows in rank order, cut to the batch's. *)
Definition _split_select (n : Z) (lengths q_lengths : list Z) (publish_rows : option (list Z)) (world : Z) : res (list (list Z) * list (list (list bool))) :=
  locals ← mapR (_split_local n lengths q_lengths world) (zrange 0 world);
  let gathered := py_slice (concat locals) 0 n in
  Ok (map (fun row => py_slice row 0 (index_topk ix)) gathered,
      if is_candidate_source ix then split_masks publish_rows gathered 0 0 (zip lengths q_lengths) else []).

(** ** The reference: every row of the batch at once *)
Fixpoint reference_rows (publish_rows : option (list Z)) (b : nat) (tok_start : Z) (reqs : list (Z * Z)) : list (list Z) * list (list (list bool)) :=
  match reqs with
  | [] => ([], [])
  | (lc, t_len) :: reqs =>
      let '(selected, publish) := reference_rows publish_rows (Datatypes.S b) (tok_start + t_len) reqs in
      if (lc =? 0) || (t_len =? 0) then
        (replicate (Z.to_nat t_len) (replicate (Z.to_nat (index_topk ix)) (-1)) ++ selected, [] :: publish)
      else
        let logits i := masked b lc i (tok_start + i) (logits_row (tok_start + i) (ceil_align lc 4)) in
        let pub_rows := match publish_rows with None => t_len | Some l => Z.min (nth b l 0) t_len end in
        (map (fun i => choose (tok_start + i) (logits i)) (zrange 0 t_len) ++ selected,
         map (fun i => select (tok_start + i) (take (Z.to_nat lc) (logits i))) (zrange (t_len - pub_rows) t_len) :: publish)
  end.
End Indexer.

(** ** The layer *)

(** What a call leaves: the masks it publishes and the two buffers of indices. *)
Record outcome := Outcome { candidate_masks : option (list (list (list bool))); page_indices : list (list Z); raw_indices : option (list (list Z)) }.

Definition INT32_MAX : Z := 2 ^ 31 - 1.

Section Layer.
Context {Q K S : Type} (ninf pinf : S) (smax : S -> S -> S) (gt : S -> S -> bool) (torch_topk : Z -> list S -> list (S * Z)).
Context (score : K -> Q -> Z -> Z -> Z -> list S) (topk_row : Z -> list S -> Z -> Z -> list Z)
  (mask_topk_scores : list S -> list Z -> Z -> list Z) (select_candidate_blocks : list S -> Z -> Z -> Z -> list bool)
  (ceil_align : Z -> Z -> Z).
(** The size of the buffers, and whether there is one for raw indices. *)
Context (ix : indexer) (n_rows n_cols : Z) (has_raw : bool).

(** Ascending, the unselected last; then the slots of the chosen. *)
Definition sorted_row (row : list Z) : list Z := merge_sort Z.le (map (fun s => if s <? 0 then INT32_MAX else s) row).
Definition page_row (k_slots : list Z) (row : list Z) : list Z :=
  map (fun s => if s =? INT32_MAX then -1 else nth (Z.to_nat (Z.min s (zlen k_slots - 1))) k_slots 0) (sorted_row row).
Definition raw_row (k0 : Z) (row : list Z) : list Z := map (fun s => if s =? INT32_MAX then -1 else s - k0) (sorted_row row).

(** A buffer filled with [-1], then its first rows and columns. *)
Definition buffer (new : list (list Z)) : list (list Z) :=
  map (fun i => match new !! Z.to_nat i with
                | Some row => put_cols (replicate (Z.to_nat n_cols) (-1)) 0 row
                | None => replicate (Z.to_nat n_cols) (-1)
                end) (zrange 0 n_rows).

Definition publish (masks : list (list (list bool))) : option (list (list (list bool))) :=
  if is_candidate_source ix then Some masks else None.
Definition finish (k_slots : list Z) (ks : Z -> Z) (r : list (list Z) * list (list (list bool))) : outcome :=
  Outcome (publish r.2) (buffer (map (page_row k_slots) r.1))
    (if has_raw then Some (buffer (imap (fun i => raw_row (ks (Z.of_nat i))) r.1)) else None).
Definition nothing (lc_per_req : list Z) : outcome :=
  Outcome (publish (map (fun _ => []) lc_per_req)) (buffer []) (if has_raw then Some (buffer []) else None).

Definition lc_per_req (B : batch Q K) : list Z := map (fun s => s / ratio B) (seq_lens_cpu B).
Definition rows_of (B : batch Q K) (k_slots starts : list Z) : rows :=
  Rows (get_index_k B k_slots) (query B) (fun g => nth (Z.to_nat g) (repeat_interleave starts (q_lens_cpu B)) 0) (fun g => (pos B g + 1) / ratio B).
Definition consumed (B : batch Q K) : option (list (list (list bool))) :=
  if uses_candidates ix && negb (is_candidate_source ix) then Some (published B) else None.
Definition publish_rows (B : batch Q K) : option (list Z) := if is_candidate_source ix then tail_rows B else None.

(** The group's split and whether this call is a prefill on the device outside a capture, the
    budget, whether slots are built without host reads, and what memory holds at first. *)
Definition _low_ratio_index_topk_dense (tp : option tp_split) (prefill cuda capturing : bool) (budget : Z) (nosync : bool)
    (garbage : Z -> list Z) (mask_garbage : Z -> list bool) (B : batch Q K) : res outcome :=
  let lcs := lc_per_req B in
  let reqs := zip lcs (q_lens_cpu B) in
  match slots (req_to_token B) (ratio B) nosync (req_pool_indices B) lcs with
  | (None, _) => Ok (nothing lcs)
  | (Some k_slots, starts) =>
      if num_tokens B =? 0 then Ok (nothing lcs)
      else
        let R := rows_of B k_slots starts in
        if match tp with Some tp => eligible tp (num_tokens B) (zmax lcs) prefill cuda capturing | None => false end
        then
          r ← _split_select ninf pinf smax gt torch_topk score topk_row mask_topk_scores ceil_align ix budget R (consumed B)
                (num_tokens B) lcs (q_lens_cpu B) (publish_rows B) (match tp with Some tp => world tp | None => 1 end);
          Ok (finish k_slots (ks R) r)
        else if match publish_rows B with Some l => negb (Nat.eqb (length l) (length (q_lens_cpu B))) | None => false end
        then Raise AssertionError
        else
          let '(selected, masks) := local_requests ninf score topk_row mask_topk_scores select_candidate_blocks ceil_align ix budget R (consumed B)
                                      mask_garbage (publish_rows B) 0 0 reqs garbage in
          Ok (finish k_slots (ks R) (map selected (zrange 0 (num_tokens B)), masks))
  end.

(** The result without budget, split and gather: every request's rows at once. *)
Definition reference (B : batch Q K) : outcome :=
  let lcs := lc_per_req B in
  match slots (req_to_token B) (ratio B) false (req_pool_indices B) lcs with
  | (None, _) => nothing lcs
  | (Some k_slots, starts) =>
      if num_tokens B =? 0 then nothing lcs
      else
        let R := rows_of B k_slots starts in
        finish k_slots (ks R)
          (reference_rows ninf score topk_row mask_topk_scores select_candidate_blocks ceil_align ix R (consumed B) (publish_rows B) 0 0 (zip lcs (q_lens_cpu B)))
  end.
End Layer.

(** ** The engine's operations *)

(** What the code relies on: a logit below the row's visible length does not depend on the
    width, top positions are visible ones and depend on the visible logits, the masking of the
    result looks at their scores alone, and the selection keeps the columns of torch's blocks. *)
Class KernelLaws {Q K S : Type} (ninf pinf : S) (smax : S -> S -> S) (gt : S -> S -> bool) (torch_topk : Z -> list S -> list (S * Z))
    (score : K -> Q -> Z -> Z -> Z -> list S) (topk_row : Z -> list S -> Z -> Z -> list Z)
    (mask_topk_scores : list S -> list Z -> Z -> list Z) (select_candidate_blocks : list S -> Z -> Z -> Z -> list bool)
    (ceil_align : Z -> Z -> Z) : Prop := {
  align_le : forall x, 0 <= x -> x <= ceil_align x 4;
  score_len : forall k q a b w, 0 <= w -> zlen (score k q a b w) = w;
  score_width : forall k q a b w w' (i : nat), 0 <= a -> Z.of_nat i < b - a <= w -> b - a <= w' -> score k q a b w !! i = score k q a b w' !! i;
  topk_len : forall k row len off, 0 <= k -> zlen (topk_row k row len off) = k;
  topk_visible : forall k row len off, 0 <= off -> 0 <= len -> Forall (fun i => i = -1 \/ off <= i < off + len) (topk_row k row len off);
  topk_prefix : forall k row row' len off, (forall i : nat, Z.of_nat i < len -> row !! i = row' !! i) -> topk_row k row len off = topk_row k row' len off;
  mask_len : forall row sel off, zlen (mask_topk_scores row sel off) = zlen sel;
  mask_local : forall row row' sel off, 0 <= off -> Forall (fun i => i = -1 \/ off <= i /\ row !! Z.to_nat (i - off) = row' !! Z.to_nat (i - off)) sel ->
    mask_topk_scores row sel off = mask_topk_scores row' sel off;
  mask_unselected : forall row n off, 0 <= off -> mask_topk_scores row (replicate n (-1)) off = replicate n (-1);
  select_kept : forall scores len tb bs, 0 < bs ->
    select_candidate_blocks scores len tb bs = map (kept ninf pinf smax gt torch_topk scores len tb bs) (zrange 0 (zlen scores));
  torch_law : TopkLaw torch_topk }.

(** ** Loops over chunks *)
Lemma steps_nil a b n : 0 < n -> b <= a -> steps a b n = [].
Proof. intros Hn H. unfold steps. rewrite zrange_nil; [done|]. unfold cdiv. pose proof (Z.div_pos (- (b - a)) n ltac:(lia) Hn). lia. Qed.

Lemma steps_cons a b n : 0 < n -> a < b -> steps a b n = a :: steps (a + n) b n.
Proof.
  intros Hn H. unfold steps. assert (E : cdiv (b - a) n = cdiv (b - (a + n)) n + 1).
  { unfold cdiv. replace (- (b - (a + n))) with (- (b - a) + 1 * n) by lia. rewrite Z.div_add by lia. lia. }
  assert (0 <= cdiv (b - (a + n)) n). { unfold cdiv. pose proof (Z.div_lt_upper_bound (- (b - (a + n))) n 1 Hn ltac:(lia)). lia. }
  rewrite E, zrange_cons by lia. simpl. f_equal; [lia|]. unfold zrange.
  rewrite !Z.sub_0_r. replace (cdiv (b - (a + n)) n + 1 - (0 + 1)) with (cdiv (b - (a + n)) n) by lia.
  apply list_eq. intros i. rewrite !list_lookup_fmap. destruct (decide (Z.of_nat i < cdiv (b - (a + n)) n)).
  - rewrite !lookup_seqZ_lt by lia. simpl. f_equal. lia.
  - by rewrite !lookup_seqZ_ge by lia.
Qed.

(** What holds at the start of a range and is kept by a chunk holds at its end. *)
Lemma steps_ind {A} (P : Z -> A -> Prop) (f : A -> Z -> A) a b n s : 0 < n -> a <= b -> P a s ->
  (forall c s, a <= c < b -> P c s -> P (Z.min (c + n) b) (f s c)) -> P b (fold_left f (steps a b n) s).
Proof.
  intros Hn Hab HP Hf. assert (G : forall m c s, (Z.to_nat (b - c) < m)%nat -> a <= c -> P (Z.min c b) s -> P b (fold_left f (steps c b n) s)).
  { induction m as [|m IH]; intros c s' Hm Hc Hs; [lia|]. destruct (Z.ltb_spec c b).
    - rewrite steps_cons by lia. simpl. apply IH; [lia|lia|]. apply Hf; [lia|]. by rewrite Z.min_l in Hs by lia.
    - rewrite steps_nil by lia. by rewrite Z.min_r in Hs by lia. }
  apply (G (Datatypes.S (Z.to_nat (b - a)))); [lia|lia|]. by rewrite Z.min_l.
Qed.

Lemma map_zrange_ext {A} (f h : Z -> A) a b : (forall i, a <= i < b -> f i = h i) -> map f (zrange a b) = map h (zrange a b).
Proof. intros H. apply map_ext_in. intros i Hi%list_elem_of_In%zrange_elem. by apply H. Qed.

Lemma map_zrange_app {A} (f : Z -> A) a b c : a <= b <= c -> map f (zrange a c) = map f (zrange a b) ++ map f (zrange b c).
Proof. intros H. unfold zrange. replace (c - a) with ((b - a) + (c - b)) by lia. rewrite seqZ_app by lia. rewrite map_app. by replace (a + (b - a)) with b by lia. Qed.

Lemma map_zrange_shift {A} (f : Z -> A) a b d : map f (zrange (d + a) (d + b)) = map (fun i => f (d + i)) (zrange a b).
Proof.
  unfold zrange. replace (d + b - (d + a)) with (b - a) by lia. apply list_eq. intros i. rewrite !list_lookup_fmap. destruct (decide (Z.of_nat i < b - a)).
  - rewrite !lookup_seqZ_lt by lia. simpl. do 2 f_equal. lia.
  - by rewrite !lookup_seqZ_ge by lia.
Qed.

Lemma map_const_zrange {A} (x : A) a b : map (fun _ => x) (zrange a b) = replicate (Z.to_nat (b - a)) x.
Proof.
  unfold zrange. apply list_eq. intros i. rewrite list_lookup_fmap. destruct (decide (Z.of_nat i < b - a)).
  - by rewrite lookup_seqZ_lt, lookup_replicate_2 by lia.
  - rewrite lookup_seqZ_ge by lia. symmetry. apply lookup_ge_None. rewrite length_replicate. lia.
Qed.

Lemma py_slice_zrange {A} (f : Z -> A) n a b : 0 <= a <= b -> b <= n -> py_slice (map f (zrange 0 n)) a b = map f (zrange a b).
Proof.
  intros H1 H2. rewrite py_slice_in by (rewrite ?zlen_map, ?zrange_length; lia). rewrite (map_zrange_app f 0 a n), (map_zrange_app f a b n) by lia.
  assert (L : forall u v, u <= v -> length (map f (zrange u v)) = Z.to_nat (v - u)) by (intros; rewrite length_map; unfold zrange; by rewrite length_seqZ).
  rewrite drop_app_length' by (rewrite L; lia). by rewrite take_app_length' by (rewrite L; lia).
Qed.

(** The tensors of [w] ranks, [e] rows each, one after the other. *)
Lemma concat_ranks {A} (F : Z -> Z -> A) e w : 0 <= e -> 0 <= w ->
  concat (map (fun r => map (F r) (zrange 0 e)) (zrange 0 w)) = map (fun i => F (i / e) (i mod e)) (zrange 0 (w * e)).
Proof.
  intros He. revert w. apply natlike_ind; [done|]. intros w Hw IH.
  rewrite (map_zrange_app _ 0 w) by lia. rewrite concat_app, IH. rewrite (zrange_cons w), (zrange_nil (w + 1)) by lia. simpl. rewrite app_nil_r.
  rewrite (map_zrange_app _ 0 (w * e) (Z.succ w * e)) by nia. f_equal. replace (Z.succ w * e) with (w * e + e) by lia.
  replace (zrange (w * e) (w * e + e)) with (zrange (w * e + 0) (w * e + e)) by (f_equal; lia). rewrite map_zrange_shift.
  apply map_zrange_ext. intros i Hi. rewrite Z.add_comm, Z.div_add, Z.mod_add, Z.div_small, Z.mod_small by lia. done.
Qed.

(** ** The local path and the split give the reference *)
Section Exact.
Context {Q K S : Type} {ninf pinf : S} {smax : S -> S -> S} {gt : S -> S -> bool} {torch_topk : Z -> list S -> list (S * Z)}
  {score : K -> Q -> Z -> Z -> Z -> list S} {topk_row : Z -> list S -> Z -> Z -> list Z}
  {mask_topk_scores : list S -> list Z -> Z -> list Z} {select_candidate_blocks : list S -> Z -> Z -> Z -> list bool}
  {ceil_align : Z -> Z -> Z}
  `{L : !KernelLaws ninf pinf smax gt torch_topk score topk_row mask_topk_scores select_candidate_blocks ceil_align}.
Context (ix : indexer) (budget : Z) (R : rows (Q := Q) (K := K)) (consume : option (list (list (list bool)))).
Context (Htopk : 0 <= index_topk ix) (Hblocks : 0 <= candidate_topk_blocks ix) (Hsize : 0 < candidate_block_size ix).

#[local] Abbreviation logits_row := (logits_row score R).
#[local] Abbreviation masked := (masked ninf ix R consume).
#[local] Abbreviation choose := (choose topk_row mask_topk_scores ix R consume).
#[local] Abbreviation select := (select select_candidate_blocks ix R).
#[local] Abbreviation rows_per_chunk := (rows_per_chunk budget).

(** A row's choice, and its mask. *)
#[local] Abbreviation choice := (fun b lc w i g => choose g (masked b lc i g (logits_row g w))).
#[local] Abbreviation keep := (fun b lc w i g => select g (take (Z.to_nat lc) (masked b lc i g (logits_row g w)))).

Lemma rpc_pos w : 0 < rows_per_chunk w.
Proof. unfold IndexerChunked.rows_per_chunk. lia. Qed.

Lemma local_chunks b lc row0 t_len first_pub sel msk : 0 <= t_len -> 0 <= first_pub ->
  let w := ceil_align lc 4 in
  let st := fold_left (local_chunk ninf score topk_row mask_topk_scores select_candidate_blocks ceil_align ix budget R consume b lc row0 t_len first_pub)
              (steps 0 t_len (rows_per_chunk w)) (sel, msk) in
  (forall g, st.1 g = if (row0 <=? g) && (g <? row0 + t_len) then choice b lc w (g - row0) g else sel g) /\
  (is_candidate_source ix = true -> forall r, 0 <= r < t_len - first_pub -> st.2 r = keep b lc w (first_pub + r) (row0 + (first_pub + r))).
Proof.
  intros Ht Hf w. set (P := fun (c : Z) (st : (Z -> list Z) * (Z -> list bool)) =>
    (forall g, st.1 g = if (row0 <=? g) && (g <? row0 + c) then choice b lc w (g - row0) g else sel g) /\
    (is_candidate_source ix = true -> forall r, 0 <= r < c - first_pub -> st.2 r = keep b lc w (first_pub + r) (row0 + (first_pub + r)))).
  apply (steps_ind P); [apply rpc_pos|lia| |].
  - split; [|lia]. intros g. by replace ((row0 <=? g) && (g <? row0 + 0)) with false by lia.
  - intros c [s m] Hc [H1 H2]. pose proof (rpc_pos w). unfold local_chunk. fold w. set (c1 := Z.min (c + rows_per_chunk w) t_len) in *. split.
    + intros g. cbn [fst]. rewrite H1. cbn [fst]. destruct (_ && _) eqn:E1.
      * replace ((row0 <=? g) && (g <? row0 + c1)) with true by lia. replace (c + (g - (row0 + c))) with (g - row0) by lia.
        by replace (row0 + c + (g - (row0 + c))) with g by lia.
      * destruct ((row0 <=? g) && (g <? row0 + c)) eqn:E2; [by replace ((row0 <=? g) && (g <? row0 + c1)) with true by lia|].
        by replace ((row0 <=? g) && (g <? row0 + c1)) with false by lia.
    + intros Hs r Hr. cbn [snd]. rewrite Hs. destruct (_ && _) eqn:E1.
      * set (x := Z.max c first_pub - c + (r - (Z.max c first_pub - first_pub))). replace (c + x) with (first_pub + r) by lia.
        by replace (row0 + c + x) with (row0 + (first_pub + r)) by lia.
      * apply (H2 Hs). lia.
Qed.

Definition reqs_ok (reqs : list (Z * Z)) : Prop := Forall (fun e => 0 <= e.1 /\ 0 <= e.2) reqs.
Definition pubs_ok (publish_rows : option (list Z)) : Prop := match publish_rows with Some l => Forall (fun r => 0 <= r) l | None => True end.
#[local] Abbreviation pub publish_rows b t := (match publish_rows with None => t | Some l => Z.min (nth b l 0) t end).

Lemma pub_bounds publish_rows b t : pubs_ok publish_rows -> 0 <= t -> 0 <= pub publish_rows b t <= t.
Proof.
  intros H Ht. destruct publish_rows as [l|]; [|lia]. simpl in H. assert (0 <= nth b l 0); [|lia].
  revert b. induction H as [|x l Hx _ IH]; intros [|b]; simpl; try lia. apply IH.
Qed.

#[local] Abbreviation reference_rows := (reference_rows ninf score topk_row mask_topk_scores select_candidate_blocks ceil_align ix R consume).
#[local] Abbreviation local_requests := (local_requests ninf score topk_row mask_topk_scores select_candidate_blocks ceil_align ix budget R consume).

Lemma sum_nonneg (reqs : list (Z * Z)) : reqs_ok reqs -> 0 <= zsum (map snd reqs).
Proof. induction 1 as [|[lc t] reqs [_ Ht] _ IH]; simpl in *; lia. Qed.

(** The masks are published by source layers only. *)
Definition masks_of (masks : list (list (list bool))) : option (list (list (list bool))) := if is_candidate_source ix then Some masks else None.

Lemma local_exact mg publish_rows reqs b tok sel : reqs_ok reqs -> pubs_ok publish_rows ->
  let out := local_requests mg publish_rows b tok reqs sel in
  let ref := reference_rows publish_rows b tok reqs in
  map out.1 (zrange tok (tok + zsum (map snd reqs))) = ref.1 /\ masks_of out.2 = masks_of ref.2 /\ (forall g, g < tok -> out.1 g = sel g).
Proof.
  intros HF HP. revert b tok sel. induction HF as [|[lc t] reqs [Hlc Ht] HF IH]; intros b tok sel; simpl.
  { rewrite zrange_nil by lia. done. }
  simpl in Hlc, Ht. pose proof (sum_nonneg reqs HF) as Hsum. destruct ((lc =? 0) || (t =? 0)) eqn:E0.
  - set (sel1 := if t =? 0 then sel else _). specialize (IH (Datatypes.S b) (tok + t) sel1). cbv zeta in IH.
    destruct (local_requests mg publish_rows (Datatypes.S b) (tok + t) reqs sel1) as [out masks].
    destruct (reference_rows publish_rows (Datatypes.S b) (tok + t) reqs) as [rsel rmasks]. simpl in *. destruct IH as (I1 & I2 & I3).
    assert (S1 : forall g, tok <= g < tok + t -> out g = replicate (Z.to_nat (index_topk ix)) (-1)).
    { intros g Hg. rewrite I3 by lia. unfold sel1. destruct (Z.eqb_spec t 0); [lia|]. by replace ((tok <=? g) && (g <? tok + t)) with true by lia. }
    split; [|split].
    + rewrite (map_zrange_app _ tok (tok + t)) by lia. replace (tok + (t + zsum (map snd reqs))) with (tok + t + zsum (map snd reqs)) by lia.
      rewrite I1. f_equal. rewrite (map_zrange_ext _ (fun _ => replicate (Z.to_nat (index_topk ix)) (-1))) by done.
      rewrite map_const_zrange. f_equal. lia.
    + unfold masks_of in *. destruct (is_candidate_source ix); [|done]. injection I2 as ->. done.
    + intros g Hg. rewrite I3 by lia. unfold sel1. destruct (t =? 0); [done|]. by replace (tok <=? g) with false by lia.
  - pose proof (pub_bounds publish_rows b t HP Ht) as Hpub. set (p := pub publish_rows b t) in *.
    pose proof (local_chunks b lc tok t (t - p) sel mg Ht ltac:(lia)) as HC. cbv zeta in HC. set (st := fold_left _ _ _) in *. destruct HC as [C1 C2].
    specialize (IH (Datatypes.S b) (tok + t) st.1). cbv zeta in IH.
    destruct (local_requests mg publish_rows (Datatypes.S b) (tok + t) reqs st.1) as [out masks].
    destruct (reference_rows publish_rows (Datatypes.S b) (tok + t) reqs) as [rsel rmasks]. simpl in *. destruct IH as (I1 & I2 & I3).
    split; [|split].
    + rewrite (map_zrange_app _ tok (tok + t)) by lia. replace (tok + (t + zsum (map snd reqs))) with (tok + t + zsum (map snd reqs)) by lia.
      rewrite I1. f_equal. replace (zrange tok (tok + t)) with (zrange (tok + 0) (tok + t)) by (f_equal; lia). rewrite map_zrange_shift.
      apply map_zrange_ext. intros i Hi. rewrite I3, C1 by lia. replace ((tok <=? tok + i) && (tok + i <? tok + t)) with true by lia.
      by replace (tok + i - tok) with i by lia.
    + unfold masks_of in *. destruct (is_candidate_source ix) eqn:Es; [|done]. injection I2 as ->. do 2 f_equal.
      replace (zrange (t - p) t) with (zrange (t - p + 0) (t - p + p)) by (f_equal; lia). rewrite map_zrange_shift.
      apply map_zrange_ext. intros i Hi. apply C2; [done|lia].
    + intros g Hg. rewrite I3, C1 by lia. by replace (tok <=? g) with false by lia.
Qed.

(** *** A row's result does not depend on the width it is scored at *)
Lemma fill_lookup w drop row (j : nat) : fill ninf w drop row !! j = (fun s => if (Z.of_nat j <? w) && drop (Z.of_nat j) then ninf else s) <$> row !! j.
Proof. unfold fill. by rewrite list_lookup_imap. Qed.

Lemma masked_ext b lc i g row row' (j : nat) : row !! j = row' !! j -> masked b lc i g row !! j = masked b lc i g row' !! j.
Proof.
  intros E. unfold IndexerChunked.masked. destruct (is_candidate_source ix); [by rewrite !fill_lookup, E|].
  destruct consume; [by rewrite !fill_lookup, E|done].
Qed.

Lemma masked_len b lc i g row : zlen (masked b lc i g row) = zlen row.
Proof. unfold IndexerChunked.masked, fill, zlen. destruct (is_candidate_source ix); [by rewrite length_imap|]. destruct consume; by rewrite ?length_imap. Qed.

(** A row of a request with [lc] compressed positions. *)
Definition row_ok (g lc : Z) : Prop := 0 <= ks R g /\ 0 <= lens R g <= lc.

Lemma logits_ext g lc w w' (j : nat) : row_ok g lc -> lc <= w -> lc <= w' -> Z.of_nat j < lens R g -> logits_row g w !! j = logits_row g w' !! j.
Proof. intros [Hk Hl] Hw Hw' Hj. unfold IndexerChunked.logits_row. apply (score_width (KernelLaws := L)); lia. Qed.

Lemma choose_ext g row row' : 0 <= ks R g -> 0 <= lens R g -> (forall j : nat, Z.of_nat j < lens R g -> row !! j = row' !! j) -> choose g row = choose g row'.
Proof.
  intros Hk Hl H. unfold IndexerChunked.choose. rewrite (topk_prefix (KernelLaws := L) _ row row') by done. destruct consume; [|done].
  apply (mask_local (KernelLaws := L)); [done|]. eapply Forall_impl; [apply (topk_visible (KernelLaws := L)); lia|].
  intros i [->|Hi]; [by left|]. right. split; [lia|]. apply H. lia.
Qed.

Lemma choice_width b lc i g w w' : row_ok g lc -> lc <= w -> lc <= w' -> choice b lc w i g = choice b lc w' i g.
Proof. intros Hr Hw Hw'. pose proof Hr as [Hk Hl]. apply choose_ext; [done|lia|]. intros j Hj. by apply masked_ext, (logits_ext g lc). Qed.

Lemma visible_len g lc w : 0 <= lc <= w -> zlen (take (Z.to_nat lc) (logits_row g w)) = lc.
Proof.
  intros H. unfold zlen. rewrite length_take. pose proof (score_len (KernelLaws := L) (keys R) (q R g) (ks R g) (ks R g + lens R g) w ltac:(lia)) as E.
  unfold IndexerChunked.logits_row. unfold zlen in E. lia.
Qed.

Lemma keep_row_width b lc i g w w' : is_candidate_source ix = true -> row_ok g lc -> 0 <= lc -> lc <= w -> lc <= w' ->
  take (Z.to_nat lc) (masked b lc i g (logits_row g w)) = take (Z.to_nat lc) (masked b lc i g (logits_row g w')).
Proof.
  intros Hs Hr Hlc Hw Hw'. apply list_eq. intros j. destruct (decide (Z.of_nat j < lc)).
  2: by rewrite !lookup_take_ge by lia. rewrite !lookup_take_lt by lia. destruct (Z.ltb_spec (Z.of_nat j) (lens R g)).
  - by apply masked_ext, (logits_ext g lc).
  - assert (HS : forall w, lc <= w -> exists s, logits_row g w !! j = Some s).
    { intros v Hv. apply lookup_lt_is_Some_2. pose proof (score_len (KernelLaws := L) (keys R) (q R g) (ks R g) (ks R g + lens R g) v ltac:(lia)) as E.
      unfold zlen in E. unfold IndexerChunked.logits_row. lia. }
    destruct (HS w Hw) as [s E1], (HS w' Hw') as [s' E2]. unfold IndexerChunked.masked. rewrite Hs, !fill_lookup, E1, E2. simpl.
    replace (Z.of_nat j <? lc) with true by lia. by replace (lens R g <=? Z.of_nat j) with true by lia.
Qed.

Lemma choose_len g row : zlen (choose g row) = index_topk ix.
Proof.
  unfold IndexerChunked.choose. destruct consume; [rewrite (mask_len (KernelLaws := L))|]; by apply (topk_len (KernelLaws := L)).
Qed.

Lemma choose_none g row : 0 <= ks R g -> lens R g = 0 -> choose g row = replicate (Z.to_nat (index_topk ix)) (-1).
Proof.
  intros Hk Hl. unfold IndexerChunked.choose. rewrite Hl.
  assert (E : topk_row (index_topk ix) row 0 (ks R g) = replicate (Z.to_nat (index_topk ix)) (-1)).
  { symmetry. apply replicate_as_elem_of. pose proof (topk_len (KernelLaws := L) (index_topk ix) row 0 (ks R g) Htopk) as HL.
    split; [unfold zlen in HL; lia|]. pose proof (topk_visible (KernelLaws := L) (index_topk ix) row 0 (ks R g) Hk ltac:(lia)) as HV.
    rewrite Forall_forall in HV. intros i Hi. destruct (HV i Hi) as [?|?]; [done|lia]. }
  rewrite E. destruct consume; [|done]. by apply (mask_unselected (KernelLaws := L)).
Qed.

#[local] Abbreviation ids := (candidate_block_ids ninf pinf smax gt torch_topk).

(** A row's mask rebuilt from its block ids is the engine's selection. *)
Lemma ids_mask g scores : candidate_mask (ids scores (lens R g) (candidate_topk_blocks ix) (candidate_block_size ix)) (zlen scores) (candidate_block_size ix) = select g scores.
Proof.
  unfold IndexerChunked.select. rewrite (select_kept (KernelLaws := L)) by done. apply candidate_mask_ids; [|done|done]. apply (torch_law (KernelLaws := L)).
Qed.

Lemma ids_len scores len : zlen (ids scores len (candidate_topk_blocks ix) (candidate_block_size ix)) = n_blocks ix (zlen scores).
Proof.
  unfold candidate_block_ids. rewrite zlen_map. apply (picks_in ninf pinf smax torch_topk scores len _ _ (torch_law (KernelLaws := L)) Hsize Hblocks).
Qed.

(** *** The rows a rank packs *)
#[local] Abbreviation split_request := (split_request ninf pinf smax gt torch_topk ix R consume).
#[local] Abbreviation split_chunk := (split_chunk ninf pinf smax gt torch_topk score topk_row mask_topk_scores ceil_align ix budget R consume).

(** The request of a row: its index, its first row and its compressed positions. *)
Fixpoint req_of (b : nat) (offset : Z) (reqs : list (Z * Z)) (g : Z) : option (nat * Z * Z) :=
  match reqs with
  | [] => None
  | (width, count) :: reqs => if g <? offset + count then Some (b, offset, width) else req_of (Datatypes.S b) (offset + count) reqs g
  end.

Definition row_logits (r : option (nat * Z * Z)) (g : Z) (row : list S) : list S :=
  match r with Some (b, lo, width) => if width =? 0 then row else masked b width (g - lo) g row | None => row end.
Definition row_ids (r : option (nat * Z * Z)) (g : Z) (row : list S) (packed : list Z) : list Z :=
  match r with
  | Some (b, lo, width) =>
      if (width =? 0) || negb (is_candidate_source ix) then packed
      else put_cols packed (index_topk ix) (ids (take (Z.to_nat width) (row_logits r g row)) (lens R g) (candidate_topk_blocks ix) (candidate_block_size ix))
  | None => packed
  end.

Lemma split_before start c0 c1 reqs b off st g : reqs_ok reqs -> g < off ->
  let st' := fold_left (split_request start c0 c1) (bounds_from b off reqs) st in st'.1 (g - c0) = st.1 (g - c0) /\ st'.2 (g - start) = st.2 (g - start).
Proof.
  intros HF. revert b off st. induction HF as [|[w c] reqs [_ Hc] HF IH]; intros b off st Hg; [done|]. cbn [snd] in Hc. cbn [bounds_from fold_left req_of]. cbv zeta in *.
  destruct (IH (Datatypes.S b) (off + c) (split_request start c0 c1 st (b, (off, off + c, w))) ltac:(lia)) as [-> ->].
  unfold IndexerChunked.split_request. destruct ((w =? 0) || _) eqn:E; [done|]. cbn [fst snd]. split.
  - by replace ((Z.max c0 off - c0 <=? g - c0) && _) with false by lia.
  - destruct (is_candidate_source ix); [|done]. by replace ((Z.max c0 off - start <=? g - start) && _) with false by lia.
Qed.

Lemma split_fold start c0 c1 reqs b off st g : reqs_ok reqs -> off <= g -> c0 <= g < c1 ->
  let st' := fold_left (split_request start c0 c1) (bounds_from b off reqs) st in
  let r := req_of b off reqs g in
  st'.1 (g - c0) = row_logits r g (st.1 (g - c0)) /\ st'.2 (g - start) = row_ids r g (st.1 (g - c0)) (st.2 (g - start)).
Proof.
  intros HF. revert b off st. induction HF as [|[w c] reqs [_ Hc] HF IH]; intros b off st Hg Hch; [done|]. cbn [snd] in Hc. cbn [bounds_from fold_left req_of]. cbv zeta in *.
  destruct (Z.ltb_spec g (off + c)) as [Hlt|Hge].
  - destruct (split_before start c0 c1 reqs (Datatypes.S b) (off + c) (split_request start c0 c1 st (b, (off, off + c, w))) g HF Hlt) as [-> ->].
    unfold IndexerChunked.split_request, row_logits, row_ids. replace (Z.min c1 (off + c) <=? Z.max c0 off) with false by lia. rewrite orb_false_r.
    destruct (w =? 0) eqn:Ew; [done|]. cbn [fst snd orb]. unfold row_logits. rewrite Ew. split.
    + replace ((Z.max c0 off - c0 <=? g - c0) && _) with true by lia. by replace (g - c0 + c0) with g by lia.
    + destruct (is_candidate_source ix); [|done]. cbn [negb]. replace ((Z.max c0 off - start <=? g - start) && _) with true by lia.
      replace (g - start + start) with g by lia. replace ((Z.max c0 off - c0 <=? g - c0) && _) with true by lia. by replace (g - c0 + c0) with g by lia.
  - destruct (IH (Datatypes.S b) (off + c) (split_request start c0 c1 st (b, (off, off + c, w))) Hge Hch) as [-> ->].
    unfold IndexerChunked.split_request. destruct ((w =? 0) || _) eqn:E; [done|]. cbn [fst snd].
    replace ((Z.max c0 off - c0 <=? g - c0) && _) with false by lia. destruct (is_candidate_source ix); [|done].
    by replace ((Z.max c0 off - start <=? g - start) && _) with false by lia.
Qed.

Lemma split_outside start c0 c1 reqs b off st g : g < c0 \/ c1 <= g ->
  (fold_left (split_request start c0 c1) (bounds_from b off reqs) st).2 (g - start) = st.2 (g - start).
Proof.
  intros Hg. revert b off st. induction reqs as [|[w c] reqs IH]; intros b off st; [done|]. cbn [bounds_from fold_left]. rewrite IH.
  unfold IndexerChunked.split_request. destruct ((w =? 0) || _) eqn:E; [done|]. cbn [snd]. destruct (is_candidate_source ix); [|done].
  by replace ((Z.max c0 off - start <=? g - start) && _) with false by lia.
Qed.

Definition row_final (reqs : list (Z * Z)) (width_max : Z) (init : list Z) (g : Z) : list Z :=
  let row := logits_row g (ceil_align width_max 4) in
  let r := req_of 0 0 reqs g in
  put_cols (row_ids r g row init) 0 (choose g (row_logits r g row)).

Lemma split_chunks reqs start end_ width_max init g : reqs_ok reqs -> 0 <= start < end_ -> start <= g ->
  fold_left (split_chunk (bounds_from 0 0 reqs) start end_ width_max) (steps start end_ (rows_per_chunk (ceil_align width_max 4))) (fun _ => init) (g - start) =
  if g <? end_ then row_final reqs width_max init g else init.
Proof.
  intros HF Hse Hg. set (P := fun (c : Z) (packed : Z -> list Z) => forall g, start <= g -> packed (g - start) = if g <? c then row_final reqs width_max init g else init).
  refine (steps_ind P _ start end_ _ _ (rpc_pos _) ltac:(lia) _ _ g Hg).
  - intros h Hh. by replace (h <? start) with false by lia.
  - intros c packed Hc HP h Hh. pose proof (rpc_pos (ceil_align width_max 4)). unfold IndexerChunked.split_chunk.
    set (c1 := Z.min (c + _) end_) in *. set (st := (fun x => logits_row (c + x) (ceil_align width_max 4), packed)).
    destruct ((c - start <=? h - start) && _) eqn:E.
    + destruct (split_fold start c c1 reqs 0 0 st h HF ltac:(lia) ltac:(lia)) as [E1 E2]. replace (h - start + start) with h by lia.
      rewrite E1, E2. subst st. cbn [fst snd]. rewrite HP by done. replace (c + (h - c)) with h by lia.
      replace (h <? c) with false by lia. by replace (h <? c1) with true by lia.
    + rewrite split_outside by lia. subst st. cbn [snd]. rewrite HP by done. destruct (Z.ltb_spec h c).
      * by replace (h <? c1) with true by lia.
      * by replace (h <? c1) with false by lia.
Qed.

(** *** The gathered rows *)
#[local] Abbreviation row_sel := (fun b off reqs W g => choose g (row_logits (req_of b off reqs g) g (logits_row g W))).

Lemma put_at_0 row new : put_cols row 0 new = new ++ drop (length new) row.
Proof. done. Qed.

Lemma row_final_sel reqs wm init g : py_slice (row_final reqs wm init g) 0 (index_topk ix) = row_sel 0%nat 0 reqs (ceil_align wm 4) g.
Proof.
  unfold row_final. rewrite put_at_0. set (sel := choose _ _). assert (E : zlen sel = index_topk ix) by apply choose_len.
  rewrite py_slice_in by (rewrite ?zlen_app; pose proof (zlen_nonneg (drop (length sel) (row_ids (req_of 0 0 reqs g) g (logits_row g (ceil_align wm 4)) init))); lia).
  rewrite drop_0. apply take_app_length'. unfold zlen in E. lia.
Qed.

Lemma row_final_mask reqs wm blocks g b lo w : is_candidate_source ix = true -> req_of 0 0 reqs g = Some (b, lo, w) -> 0 < w -> w <= ceil_align wm 4 -> 0 <= blocks ->
  candidate_mask (py_slice (row_final reqs wm (replicate (Z.to_nat (index_topk ix + blocks)) (-1)) g) (index_topk ix) (index_topk ix + n_blocks ix w)) w (candidate_block_size ix)
  = keep b w (ceil_align wm 4) (g - lo) g.
Proof.
  intros Hs Hr Hw Hle Hb. unfold row_final. rewrite Hr, put_at_0. unfold row_ids, row_logits. replace (w =? 0) with false by lia. rewrite Hs. cbn [negb orb].
  set (m := masked b w (g - lo) g (logits_row g (ceil_align wm 4))). set (sel := choose g m). assert (E : zlen sel = index_topk ix) by apply choose_len.
  set (init := replicate _ (-1)). set (l := ids (take (Z.to_nat w) m) _ _ _).
  assert (Em : zlen (take (Z.to_nat w) m) = w).
  { assert (Hm : zlen m = ceil_align wm 4) by (unfold m; rewrite masked_len; apply (score_len (KernelLaws := L)); lia).
    unfold zlen in *. rewrite length_take. lia. }
  assert (El : zlen l = n_blocks ix w) by (unfold l; rewrite ids_len, Em; done).
  assert (Ep : put_cols init (index_topk ix) l = take (Z.to_nat (index_topk ix)) init ++ l ++ drop (Z.to_nat (index_topk ix) + length l) init) by done.
  rewrite Ep. clear Ep. assert (Ht : length (take (Z.to_nat (index_topk ix)) init) = length sel).
  { unfold init, zlen in *. rewrite length_take, length_replicate. lia. }
  rewrite (drop_app_length' (take _ init)) by done. rewrite py_slice_in.
  2: { pose proof (zlen_nonneg l). lia. }
  2: { rewrite !zlen_app, E, El. pose proof (zlen_nonneg l). pose proof (zlen_nonneg (drop (Z.to_nat (index_topk ix) + length l) init)). lia. }
  rewrite drop_app_length' by (unfold zlen in E; lia). rewrite take_app_length' by (unfold zlen in *; lia).
  rewrite <- Em at 1. unfold l. apply ids_mask.
Qed.

#[local] Abbreviation split_local := (_split_local ninf pinf smax gt torch_topk score topk_row mask_topk_scores ceil_align ix budget R consume).
#[local] Abbreviation split_select := (_split_select ninf pinf smax gt torch_topk score topk_row mask_topk_scores ceil_align ix budget R consume).

Lemma split_local_ok n lengths q_lengths world rank : let reqs := zip lengths q_lengths in
  0 <= n -> 0 <= rank < world -> reqs_ok reqs -> zsum (map snd reqs) = n ->
  exists extent init, (init = replicate (Z.to_nat (index_topk ix + (if is_candidate_source ix then n_blocks ix (zmax lengths) else 0))) (-1)) /\
    extent = (n + world * tile - 1) / (world * tile) * tile /\ 0 <= extent /\ n <= world * extent /\
    split_local n lengths q_lengths world rank =
      Ok (map (fun y => if rank * extent + y <? Z.min n (rank * extent + extent) then row_final reqs (zmax lengths) init (rank * extent + y) else init) (zrange 0 extent)).
Proof.
  intros reqs Hn Hr HF Hsum. destruct (partition_ok n world rank Hn Hr) as (extent & He & Hcov & EP & Ee). exists extent. eexists. split; [done|].
  split; [done|]. split; [done|]. split; [done|]. unfold _split_local. rewrite EP. cbn [mbind res_bind]. set (init := replicate _ (-1)).
  assert (0 <= rank * extent) by nia. destruct (Z.leb_spec (Z.min n (rank * extent + extent)) (rank * extent)).
  - f_equal. apply map_zrange_ext. intros y Hy. by replace (rank * extent + y <? _) with false by lia.
  - fold reqs. rewrite Hsum, Z.eqb_refl. cbn [negb]. f_equal. apply map_zrange_ext. intros y Hy.
    pose proof (split_chunks reqs (rank * extent) (Z.min n (rank * extent + extent)) (zmax lengths) init (rank * extent + y) HF ltac:(lia) ltac:(lia)) as E.
    replace (rank * extent + y - rank * extent) with y in E by lia. exact E.
Qed.

Lemma mapR_pure {A B} (f : A -> res B) (h : A -> B) l : (forall x, x ∈ l -> f x = Ok (h x)) -> mapR f l = Ok (map h l).
Proof. intros H. induction l as [|x l IH]; [done|]. simpl. rewrite H by set_solver. by rewrite IH by set_solver. Qed.

(** All ranks gather the same rows: those of the batch in order. *)
Lemma gathered_rows n lengths q_lengths publish_rows world : let reqs := zip lengths q_lengths in
  0 <= n -> 1 <= world -> reqs_ok reqs -> zsum (map snd reqs) = n ->
  let init := replicate (Z.to_nat (index_topk ix + (if is_candidate_source ix then n_blocks ix (zmax lengths) else 0))) (-1) in
  let gathered := map (row_final reqs (zmax lengths) init) (zrange 0 n) in
  split_select n lengths q_lengths publish_rows world =
    Ok (map (fun row => py_slice row 0 (index_topk ix)) gathered, if is_candidate_source ix then split_masks ix publish_rows gathered 0 0 reqs else []).
Proof.
  intros reqs Hn Hw HF Hsum init gathered. unfold _split_select. set (e := (n + world * tile - 1) / (world * tile) * tile).
  set (F := fun r y => if r * e + y <? Z.min n (r * e + e) then row_final reqs (zmax lengths) init (r * e + y) else init).
  destruct (split_local_ok n lengths q_lengths world 0 Hn ltac:(lia) HF Hsum) as (e' & i0 & _ & -> & He & Hcov & _). fold e in He, Hcov.
  rewrite (mapR_pure _ (fun r => map (F r) (zrange 0 e))).
  2: { intros r Hr%zrange_elem. destruct (split_local_ok n lengths q_lengths world r Hn Hr HF Hsum) as (e' & i' & -> & -> & _ & _ & E). exact E. }
  cbn [mbind res_bind]. rewrite concat_ranks by lia. rewrite py_slice_zrange by lia.
  assert (EG : map (fun i => F (i / e) (i mod e)) (zrange 0 n) = gathered); [|by rewrite EG].
  apply map_zrange_ext. intros i Hi. destruct (row_owner i n world e Hi Hcov He) as (_ & _ & H3 & H4). unfold F. rewrite H4.
  replace (i / e * e + (i - i / e * e)) with i by lia. by replace (i <? _) with true by lia.
Qed.

Fixpoint rows_ok (off : Z) (reqs : list (Z * Z)) : Prop :=
  match reqs with
  | [] => True
  | (lc, t) :: reqs => (forall g, off <= g < off + t -> row_ok g lc) /\ rows_ok (off + t) reqs
  end.

Lemma split_rows W publish_rows reqs b off : reqs_ok reqs -> rows_ok off reqs -> Forall (fun e => e.1 <= W) reqs ->
  map (row_sel b off reqs W) (zrange off (off + zsum (map snd reqs))) = (reference_rows publish_rows b off reqs).1.
Proof.
  intros HF. revert b off. induction HF as [|[lc t] reqs [Hlc Ht] HF IH]; intros b off HR HW; [cbn [map zsum]; by rewrite zrange_nil by lia|].
  cbn [fst snd] in Hlc, Ht. destruct HR as [HR1 HR2]. apply Forall_cons in HW as [HW1 HW2]. cbn [fst] in HW1. pose proof (sum_nonneg reqs HF) as Hsum.
  cbn [map zsum snd]. rewrite (map_zrange_app _ off (off + t)) by lia.
  replace (off + (t + zsum (map snd reqs))) with (off + t + zsum (map snd reqs)) by lia.
  rewrite (map_zrange_ext (row_sel b off ((lc, t) :: reqs) W) (row_sel (Datatypes.S b) (off + t) reqs W) (off + t)).
  2: { intros g Hg. cbn [req_of]. by replace (g <? off + t) with false by lia. }
  rewrite IH by done. cbn [IndexerChunked.reference_rows]. destruct (reference_rows publish_rows (Datatypes.S b) (off + t) reqs) as [rs rm]. cbn [fst].
  replace (zrange off (off + t)) with (zrange (off + 0) (off + t)) by (f_equal; lia). rewrite map_zrange_shift.
  destruct ((lc =? 0) || (t =? 0)) eqn:E0; cbn [fst]; f_equal.
  - transitivity (map (fun _ : Z => replicate (Z.to_nat (index_topk ix)) (-1)) (zrange 0 t)).
    + apply map_zrange_ext. intros i Hi. destruct (HR1 (off + i) ltac:(lia)) as [Hk Hl]. apply choose_none; lia.
    + rewrite map_const_zrange. f_equal. lia.
  - apply map_zrange_ext. intros i Hi. cbn [req_of]. replace (off + i <? off + t) with true by lia. unfold row_logits.
    replace (lc =? 0) with false by lia. replace (off + i - off) with i by lia. pose proof (align_le (KernelLaws := L) lc Hlc).
    by apply choice_width; [apply HR1; lia|lia|lia].
Qed.

Lemma split_masks_exact W publish_rows gathered n reqs b off : is_candidate_source ix = true -> pubs_ok publish_rows ->
  reqs_ok reqs -> rows_ok off reqs -> Forall (fun e => e.1 <= W) reqs -> 0 <= off -> off + zsum (map snd reqs) <= n ->
  (forall g b' lo w, off <= g < off + zsum (map snd reqs) -> req_of b off reqs g = Some (b', lo, w) -> 0 < w -> w <= W ->
     candidate_mask (py_slice (gathered g) (index_topk ix) (index_topk ix + n_blocks ix w)) w (candidate_block_size ix) = keep b' w W (g - lo) g) ->
  split_masks ix publish_rows (map gathered (zrange 0 n)) b off reqs = (reference_rows publish_rows b off reqs).2.
Proof.
  intros Hs HP HF. revert b off. induction HF as [|[lc t] reqs [Hlc Ht] HF IH]; intros b off HR HW Ho Hn HG; [done|].
  cbn [fst snd map zsum] in *. destruct HR as [HR1 HR2]. apply Forall_cons in HW as [HW1 HW2]. cbn [fst] in HW1. pose proof (sum_nonneg reqs HF) as Hsum.
  cbn [split_masks IndexerChunked.reference_rows]. specialize (IH (Datatypes.S b) (off + t) HR2 HW2 ltac:(lia) ltac:(lia)). rewrite IH.
  2: { intros g b' lo w Hg Hr Hw Hw2. apply HG; [lia| |done|done]. cbn [req_of]. by replace (g <? off + t) with false by lia. }
  destruct (reference_rows publish_rows (Datatypes.S b) (off + t) reqs) as [rs rm]. destruct ((lc =? 0) || (t =? 0)) eqn:E0; [done|]. cbn [snd]. f_equal.
  pose proof (pub_bounds publish_rows b t HP Ht) as Hpub. set (p := pub publish_rows b t) in *.
  rewrite py_slice_zrange by lia. rewrite map_map. replace (zrange (off + t - p) (off + t)) with (zrange (off + (t - p)) (off + t)) by (f_equal; lia).
  rewrite map_zrange_shift. apply map_zrange_ext. intros i Hi. cbv beta. rewrite (HG (off + i) b off lc); [|lia| |lia|lia].
  2: { cbn [req_of]. by replace (off + i <? off + t) with true by lia. }
  replace (off + i - off) with i by lia. f_equal. pose proof (align_le (KernelLaws := L) lc Hlc). by apply keep_row_width; [done|apply HR1; lia|lia|lia|lia].
Qed.

Lemma zmax_bounds l : 0 <= zmax l /\ Forall (fun x => x <= zmax l) l.
Proof.
  induction l as [|x l [IH1 IH2]]; [done|]. cbn [zmax foldr]. fold (zmax l). split; [lia|]. constructor; [lia|]. eapply Forall_impl; [exact IH2|]. simpl. lia.
Qed.

Lemma n_blocks_nonneg w : 0 <= w -> 0 <= n_blocks ix w.
Proof. intros H. unfold n_blocks. assert (0 <= (w + candidate_block_size ix - 1) / candidate_block_size ix) by (apply Z.div_pos; lia). lia. Qed.

Lemma split_exact n lengths q_lengths publish_rows world : let reqs := zip lengths q_lengths in
  1 <= world -> reqs_ok reqs -> zsum (map snd reqs) = n -> rows_ok 0 reqs -> pubs_ok publish_rows ->
  exists masks, split_select n lengths q_lengths publish_rows world = Ok ((reference_rows publish_rows 0 0 reqs).1, masks) /\
    masks_of masks = masks_of (reference_rows publish_rows 0 0 reqs).2.
Proof.
  intros reqs Hw HF Hsum HR HP. pose proof (sum_nonneg reqs HF) as Hn. rewrite Hsum in Hn. rewrite (gathered_rows n lengths q_lengths publish_rows world Hn Hw HF Hsum).
  fold reqs. destruct (zmax_bounds lengths) as [Hm HM]. pose proof (align_le (KernelLaws := L) (zmax lengths) Hm) as HA.
  assert (HW : Forall (fun e => e.1 <= ceil_align (zmax lengths) 4) reqs).
  { apply Forall_forall. intros [w c] Hin. rewrite Forall_forall in HM. apply elem_of_zip_l in Hin. specialize (HM w Hin). simpl. lia. }
  eexists. split.
  - do 2 f_equal. rewrite map_map, <- (split_rows (ceil_align (zmax lengths) 4) publish_rows reqs 0 0) by done. rewrite Z.add_0_l, Hsum.
    apply map_zrange_ext. intros g _. apply row_final_sel.
  - unfold masks_of. destruct (is_candidate_source ix) eqn:Es; [|done]. f_equal.
    rewrite (split_masks_exact (ceil_align (zmax lengths) 4)); [done|done|done|done|done|done|lia|lia|].
    intros g b' lo w Hg Hr Hw0 Hle. by apply row_final_mask; [done|done|done|done|apply n_blocks_nonneg].
Qed.
End Exact.

(** A chunk's logits stay within the budget, unless one row alone does not. *)
Lemma chunk_within_budget budget width a b c : 0 < width -> c ∈ steps a b (rows_per_chunk budget width) ->
  let n := Z.min (c + rows_per_chunk budget width) b - c in a <= c < b /\ 0 < n /\ n * (width * 4) <= Z.max budget (width * 4).
Proof.
  intros Hw Hc. unfold steps in Hc. apply list_elem_of_fmap in Hc as (i & -> & Hi%zrange_elem). set (n := rows_per_chunk budget width) in *.
  assert (Hn : n = Z.max 1 (budget / (width * 4))) by done. pose proof (cdiv_spec (b - a) n ltac:(lia)) as HC.
  assert (i * n < b - a) by nia. assert (0 <= i * n) by nia. split; [lia|]. split; [lia|].
  pose proof (Z.mul_div_le budget (width * 4) ltac:(lia)). destruct (Z.max_spec 1 (budget / (width * 4))) as [[? E]|[? E]]; nia.
Qed.

(** ** A layer's call *)

(** The rows of a request are at positions below its length. *)
Fixpoint positions_ok (pos : Z -> Z) (off : Z) (reqs : list (Z * Z)) : Prop :=
  match reqs with
  | [] => True
  | (s, t) :: reqs => (forall g, off <= g < off + t -> 0 <= pos g < s) /\ positions_ok pos (off + t) reqs
  end.

Record batch_ok {Q K} (B : batch Q K) : Prop := {
  ratio_pos : 0 < ratio B;
  requests : length (q_lens_cpu B) = length (seq_lens_cpu B) /\ (length (seq_lens_cpu B) <= length (req_pool_indices B))%nat;
  lengths_pos : Forall (fun s => 0 <= s) (seq_lens_cpu B) /\ Forall (fun t => 0 <= t) (q_lens_cpu B);
  tokens : num_tokens B = zsum (q_lens_cpu B);
  positions : positions_ok (pos B) 0 (zip (seq_lens_cpu B) (q_lens_cpu B));
  tails : match tail_rows B with Some l => length l = length (q_lens_cpu B) /\ Forall (fun r => 0 <= r) l | None => True end }.

Record indexer_ok (ix : indexer) : Prop := {
  topk_ok : 0 <= index_topk ix; topk_blocks_ok : 0 <= candidate_topk_blocks ix; block_size_ok : 0 < candidate_block_size ix }.

Lemma starts_nonneg start lcs : 0 <= start -> Forall (fun lc => 0 <= lc) lcs -> Forall (fun s => 0 <= s) (starts_from start lcs).
Proof. intros Hs HF. revert start Hs. induction HF as [|lc lcs Hl _ IH]; intros start Hs; constructor; [done|]. apply IH. lia. Qed.

Lemma interleave_nonneg l counts (i : nat) : Forall (fun s => 0 <= s) l -> 0 <= nth i (repeat_interleave l counts) 0.
Proof.
  intros HF. assert (H : Forall (fun s => 0 <= s) (repeat_interleave l counts)).
  { unfold repeat_interleave. revert counts. induction HF as [|s l Hs _ IH]; intros [|c counts]; simpl; try constructor.
    apply Forall_app. split; [by apply Forall_replicate|apply IH]. }
  revert i. induction H as [|s k Hs _ IH]; intros [|i]; simpl; try lia. apply IH.
Qed.

Section Call.
Context {Q K S : Type} {ninf pinf : S} {smax : S -> S -> S} {gt : S -> S -> bool} {torch_topk : Z -> list S -> list (S * Z)}
  {score : K -> Q -> Z -> Z -> Z -> list S} {topk_row : Z -> list S -> Z -> Z -> list Z}
  {mask_topk_scores : list S -> list Z -> Z -> list Z} {select_candidate_blocks : list S -> Z -> Z -> Z -> list bool}
  {ceil_align : Z -> Z -> Z}
  `{L : !KernelLaws ninf pinf smax gt torch_topk score topk_row mask_topk_scores select_candidate_blocks ceil_align}.
Context (ix : indexer) (n_rows n_cols : Z) (has_raw : bool).

Lemma lcs_nonneg (B : batch Q K) : batch_ok B -> Forall (fun lc => 0 <= lc) (lc_per_req B).
Proof.
  intros [Hr _ [Hs _] _ _ _]. unfold lc_per_req. apply Forall_map. eapply Forall_impl; [exact Hs|]. simpl. intros s H. by apply Z.div_pos.
Qed.

Lemma reqs_ok_batch (B : batch Q K) : batch_ok B -> reqs_ok (zip (lc_per_req B) (q_lens_cpu B)).
Proof.
  intros HB. pose proof (lcs_nonneg B HB) as HL. destruct HB as [_ _ [_ Ht] _ _ _]. apply Forall_forall. intros [lc t] Hin. rewrite Forall_forall in HL, Ht.
  split; [apply HL; by apply elem_of_zip_l in Hin|apply Ht; by apply elem_of_zip_r in Hin].
Qed.

Lemma rows_ok_batch (B : batch Q K) k_slots starts : batch_ok B -> Forall (fun s => 0 <= s) starts ->
  rows_ok (rows_of B k_slots starts) 0 (zip (lc_per_req B) (q_lens_cpu B)).
Proof.
  intros [Hr _ _ _ Hp _] Hs. set (R := rows_of B k_slots starts). assert (HK : forall g, 0 <= ks R g) by (intros g; by apply interleave_nonneg).
  unfold lc_per_req. revert Hp. generalize (q_lens_cpu B), 0. induction (seq_lens_cpu B) as [|s l IH]; intros [|t ts] off Hp; try done.
  destruct Hp as [H1 H2]. simpl. split; [|by apply IH]. intros g Hg. specialize (H1 g Hg). split; [apply HK|]. simpl.
  split; [apply Z.div_pos; lia|apply Z.div_le_mono; lia].
Qed.

End Call.

(** ** A concrete engine *)
Definition ex_ninf : Z := -100.
Definition ex_score (k q a b w : Z) : list Z := map (fun j => (q * 7 + j * 5 + k) mod 11) (zrange 0 w).
Definition ex_pos (i : Z) (row : list Z) : Z := match row !! Z.to_nat i with Some s => s | None => ex_ninf end.
Definition ex_topk_row (k : Z) (row : list Z) (len off : Z) : list Z :=
  map (fun j => if (j <? len) && (4 <? ex_pos j row) then off + j else -1) (zrange 0 k).
Definition ex_mask (row sel : list Z) (off : Z) : list Z :=
  map (fun i => if (off <=? i) && (ex_ninf <? ex_pos (i - off) row) then i else -1) sel.
Definition ex_above (a b : Z * Z) : Prop := b.1 <= a.1.
#[local] Instance ex_above_dec a b : Decision (ex_above a b) := Z.le_dec b.1 a.1.
Definition ex_torch_topk (k : Z) (l : list Z) : list (Z * Z) :=
  take (Z.to_nat k) (merge_sort ex_above (imap (fun i s => (s, Z.of_nat i)) l)).
Definition ex_select (scores : list Z) (len tb bs : Z) : list bool :=
  map (kept ex_ninf 1000 Z.max Z.gtb ex_torch_topk scores len tb bs) (zrange 0 (zlen scores)).
Definition ex_align (x a : Z) : Z := align_up x a.

#[export] Instance ex_laws : KernelLaws ex_ninf 1000 Z.max Z.gtb ex_torch_topk ex_score ex_topk_row ex_mask ex_select ex_align.
Proof.
  split.
  - intros x Hx. unfold ex_align, align_up. pose proof (Z.div_mod (x + 4 - 1) 4 ltac:(lia)). pose proof (Z.mod_pos_bound (x + 4 - 1) 4 ltac:(lia)). lia.
  - intros k q a b w Hw. unfold ex_score. rewrite zlen_map, zrange_length; lia.
  - intros k q a b w w' i Ha Hi Hw'. unfold ex_score, zrange. rewrite !list_lookup_fmap, !lookup_seqZ_lt by lia. done.
  - intros k row len off Hk. unfold ex_topk_row. rewrite zlen_map, zrange_length; lia.
  - intros k row len off Ho Hl. unfold ex_topk_row. apply Forall_forall. intros i Hi. apply list_elem_of_fmap in Hi as (j & -> & Hj%zrange_elem).
    destruct (Z.ltb_spec j len); simpl; [|by left]. destruct (4 <? _); [right; lia|by left].
  - intros k row row' len off H. unfold ex_topk_row. apply map_zrange_ext. intros j Hj. destruct (Z.ltb_spec j len); [|done]. simpl.
    unfold ex_pos. by rewrite H by lia.
  - intros row sel off. apply zlen_map.
  - intros row row' sel off Ho HF. unfold ex_mask. induction HF as [|i sel Hi _ IH]; [done|]. simpl. f_equal; [|done].
    destruct Hi as [->|[Hi E]]; [by replace (off <=? -1) with false by lia|]. unfold ex_pos. by rewrite E.
  - intros row n off Ho. unfold ex_mask. induction n as [|n IH]; [done|]. simpl. rewrite IH. by replace (off <=? -1) with false by lia.
  - done.
  - intros k l Hk. unfold ex_torch_topk. pose proof (merge_sort_Permutation ex_above (imap (fun i s => (s, Z.of_nat i)) l)) as HP. split.
    + unfold zlen in *. rewrite length_take, (Permutation_length HP), length_imap. lia.
    + apply Forall_take. rewrite HP. apply Forall_forall. intros p Hp. apply list_elem_of_lookup in Hp as [i Hi].
      apply list_lookup_imap_Some in Hi as (s & Hs & ->). apply lookup_lt_Some in Hs. unfold zlen. simpl. lia.
Qed.

(** Two requests, of 4 and 1 compressed positions, in a source layer that publishes a tail. *)
Definition ex_batch : batch Z Z :=
  Batch 2 [9; 3] [5; 2] [1; 0] (fun r c => 100 * r + c) 7 (fun g => if g <? 5 then 4 + g else g - 4) (fun g => g) zsum [] (Some [3; 1]).
Definition ex_indexer : indexer := Indexer true true 2 1 2.
Definition ex_dense (tp : option tp_split) (budget : Z) (nosync : bool) : res outcome :=
  _low_ratio_index_topk_dense ex_ninf 1000 Z.max Z.gtb ex_torch_topk ex_score ex_topk_row ex_mask ex_select ex_align ex_indexer 8 2 true
    tp true true false budget nosync (fun _ => [7; 7]) (fun _ => [true]) ex_batch.
Definition ex_reference : outcome := reference ex_ninf ex_score ex_topk_row ex_mask ex_select ex_align ex_indexer 8 2 true ex_batch.

