(* ===== verification/Streams.v ===== *)
(** * Operations on two device streams

    A device runs the operations of each stream in the order they were issued, and a wait
    holds its stream until what the other stream was given before it is done; the rest may
    interleave freely.  An operation overwrites one location by a function of others.  A
    program without races leaves the same memory in every interleaving ([race_free_runs]). *)
From S2P Require Import Prelude.
#[local] Open Scope list_scope.
#[local] Open Scope Z_scope.

Inductive stream := Main | Side.
#[export] Instance stream_eq_dec : EqDecision stream.
Proof. solve_decision. Defined.

(** A location is a triple of numbers; it holds a list of values. *)
Definition loc : Type := Z * Z * Z.
Notation mem := (gmap loc (list Z)).
Definition at_loc (m : mem) (l : loc) : list Z := match m !! l with Some v => v | None => [] end.

(** [dst = None]: a wait. *)
Record op := Op { on_stream : stream; dst : option loc; srcs : list loc; effect : list (list Z) -> list Z }.
Definition wait (s : stream) : op := Op s None [] (fun _ => []).
Definition is_wait (a : op) : bool := match dst a with None => true | Some _ => false end.

Definition run_op (m : mem) (a : op) : mem :=
  match dst a with None => m | Some d => <[d := effect a (map (at_loc m) (srcs a))]> m end.
Definition run (ops : list op) (m : mem) : mem := fold_left run_op ops m.

(** One writes what the other reads or writes. *)
Definition writes (a : op) (l : loc) : Prop := dst a = Some l.
Definition touches (a : op) (l : loc) : Prop := dst a = Some l \/ l ∈ srcs a.
Definition conflict (a b : op) : Prop := exists l, writes a l /\ touches b l \/ writes b l /\ touches a l.

(** The interleavings of a program: what goes next is the first of its stream, and a wait
    only when nothing issued before it is left. *)
Definition holds_back (b a : op) : Prop := on_stream b = on_stream a \/ is_wait a = true.
Inductive interleaves : list op -> list op -> Prop :=
  | interleaves_nil : interleaves [] []
  | interleaves_pick p a q l : Forall (fun b => ~ holds_back b a) p -> interleaves (p ++ q) l -> interleaves (p ++ a :: q) (a :: l).

(** [clear b l]: of the operations issued after [b], those that conflict with it are on its
    stream or come after a wait of theirs. *)
Fixpoint clear (b : op) (l : list op) : Prop :=
  match l with
  | [] => True
  | a :: l => (conflict b a -> on_stream b = on_stream a) /\ ((is_wait a = true /\ on_stream a <> on_stream b) \/ clear b l)
  end.
Fixpoint race_free (l : list op) : Prop := match l with [] => True | b :: l => clear b l /\ race_free l end.

Lemma run_app p q m : run (p ++ q) m = run q (run p m).
Proof. apply fold_left_app. Qed.

Lemma at_insert_ne m d v l : d <> l -> at_loc (<[d := v]> m) l = at_loc m l.
Proof. intros H. unfold at_loc. by rewrite lookup_insert_ne. Qed.

Lemma at_insert_eq m d v : at_loc (<[d := v]> m) d = v.
Proof. unfold at_loc. by rewrite lookup_insert_eq. Qed.

Lemma srcs_untouched m a d v : d ∉ srcs a -> map (at_loc (<[d := v]> m)) (srcs a) = map (at_loc m) (srcs a).
Proof. intros H. apply map_ext_in. intros l Hl%list_elem_of_In. apply at_insert_ne. by intros ->. Qed.

(** Operations without a conflict commute. *)
Lemma run_op_comm m a b : ~ conflict b a -> run_op (run_op m b) a = run_op (run_op m a) b.
Proof.
  intros H. unfold run_op. destruct (dst a) as [da|] eqn:Ea, (dst b) as [db|] eqn:Eb; try done.
  assert (Hab : da <> db) by (intros ->; apply H; exists db; left; split; [done|by left]).
  assert (Hda : da ∉ srcs b) by (intros Hin; apply H; exists da; right; split; [done|by right]).
  assert (Hdb : db ∉ srcs a) by (intros Hin; apply H; exists db; left; split; [done|by right]).
  rewrite !srcs_untouched by done. by apply insert_insert_ne.
Qed.

Lemma run_comm p a m : Forall (fun b => ~ conflict b a) p -> run (p ++ [a]) m = run (a :: p) m.
Proof.
  revert m. induction p as [|b p IH]; intros m HF; [done|]. apply Forall_cons in HF as [Hb HF]. simpl. rewrite IH by done. simpl. by rewrite run_op_comm.
Qed.

(** The operations a picked one overtakes do not conflict with it, and its removal leaves the
    rest free of races. *)
Lemma clear_pick b p a q : ~ holds_back b a -> Forall (fun c => ~ holds_back c a) p -> clear b (p ++ a :: q) -> ~ conflict b a /\ clear b (p ++ q).
Proof.
  intros Hb. assert (Hs : on_stream b <> on_stream a /\ is_wait a = false).
  { split; [intros E; apply Hb; by left|]. destruct (is_wait a) eqn:E; [|done]. exfalso. apply Hb. by right. }
  destruct Hs as [Hs Hw]. induction p as [|c p IH]; intros HF; simpl.
  - intros [H1 H2]. split; [intros Hc; by apply Hs, H1|]. destruct H2 as [[H2 _]|H2]; [congruence|done].
  - apply Forall_cons in HF as [Hc HF]. intros [H1 H2]. assert (E : on_stream c = on_stream b).
    { assert (on_stream c <> on_stream a) by (intros E; apply Hc; by left). destruct (on_stream a), (on_stream b), (on_stream c); congruence. }
    destruct H2 as [[_ H2]|H2]; [done|]. destruct (IH HF H2) as [H3 H4]. split; [done|]. split; [done|]. by right.
Qed.

Lemma race_free_pick p a q : Forall (fun b => ~ holds_back b a) p -> race_free (p ++ a :: q) -> Forall (fun b => ~ conflict b a) p /\ race_free (p ++ q).
Proof.
  induction p as [|b p IH]; intros HF; simpl; [by intros [_ H]|]. apply Forall_cons in HF as [Hb HF]. intros [H1 H2].
  destruct (IH HF H2) as [H3 H4]. destruct (clear_pick b p a q Hb HF H1) as [H5 H6]. by split; [constructor|].
Qed.

(** In a race-free program every interleaving computes what the issue order does. *)
Lemma race_free_runs ops l m : race_free ops -> interleaves ops l -> run l m = run ops m.
Proof.
  intros HR HI. revert m HR. induction HI as [|p a q l HF _ IH]; intros m HR; [done|].
  destruct (race_free_pick p a q HF HR) as [HC HR']. simpl. rewrite IH by done.
  pose proof (run_comm p a m HC) as E. rewrite run_app in E. rewrite !run_app. simpl in *. by rewrite E.
Qed.

(** ** Ways to be free of races *)
Lemma clear_same b l : Forall (fun a => on_stream a = on_stream b) l -> clear b l.
Proof. induction 1 as [|a l H _ IH]; [done|]. split; [by intros _|by right]. Qed.

Lemma clear_none b l : Forall (fun a => ~ conflict b a) l -> clear b l.
Proof. induction 1 as [|a l H _ IH]; [done|]. split; [by intros ?%H|by right]. Qed.

Lemma no_conflict_wait b s : ~ conflict b (wait s).
Proof. by intros (x & [[_ [Hx|Hx%elem_of_nil]]|[Hx _]]). Qed.

(** Up to a wait of the other stream nothing needs to hold but the absence of conflicts. *)
Lemma clear_until b l s k : Forall (fun a => on_stream a = on_stream b \/ ~ conflict b a) l -> s <> on_stream b -> clear b (l ++ wait s :: k).
Proof.
  intros HF Hs. induction HF as [|a l H _ IH]; simpl.
  - split; [by intros ?%no_conflict_wait|by left].
  - split; [|by right]. intros Hc. by destruct H.
Qed.

Lemma clear_app b l k : Forall (fun a => on_stream a = on_stream b \/ ~ conflict b a) l -> clear b k -> clear b (l ++ k).
Proof. intros HF Hk. induction HF as [|a l H _ IH]; [done|]. simpl. split; [intros Hc; by destruct H|by right]. Qed.

(** An interleaving by the positions picked, when it is one. *)
Definition holds_backb (a b : op) : bool := bool_decide (on_stream b = on_stream a) || is_wait a.
Fixpoint schedule (ks : list nat) (ops : list op) : option (list op) :=
  match ks with
  | [] => match ops with [] => Some [] | _ => None end
  | k :: ks =>
      match ops !! k with
      | Some a => if forallb (fun b => negb (holds_backb a b)) (take k ops) then cons a <$> schedule ks (take k ops ++ drop (S k) ops) else None
      | None => None
      end
  end.

Lemma schedule_ok ks ops l : schedule ks ops = Some l -> interleaves ops l.
Proof.
  revert ops l. induction ks as [|k ks IH]; intros ops l; simpl.
  - destruct ops; [|done]. intros [= <-]. constructor.
  - destruct (ops !! k) as [a|] eqn:Ea; [|done]. destruct (forallb _ _) eqn:EF; [|done].
    destruct (schedule ks _) as [l'|] eqn:El; [|done]. intros [= <-]. rewrite <- (take_drop_middle ops k a Ea). apply interleaves_pick; [|by apply IH].
    rewrite forallb_forall in EF. apply Forall_forall. intros b Hb%list_elem_of_In%EF. unfold holds_backb in Hb. apply negb_true_iff, orb_false_iff in Hb as [H1 H2].
    apply bool_decide_eq_false in H1. intros [?|?]; congruence.
Qed.
