(* ===== verification/EngramPrefetch.v ===== *)
(** * Engram rows fetched on a side stream (adapter/engram_backend.py, engram_prefetch.py)

    An Engram embedding's rows come from a store on disk: the ids are copied to the host, a
    host callback looks the rows up, they are copied back and gathered.  The prefetch does all
    but the gather on a side stream as soon as the hasher has the ids.  The host's calls issue
    operations on two streams (Streams), which the device may interleave; the rows of the
    store are a function of the id, which EngramPoolRun proves of the store's lookups.  The check
    mode is not modelled; nor is capture, in which the same operations become the graph's. *)
From S2P Require Import Prelude Streams.
#[local] Open Scope list_scope.
#[local] Open Scope Z_scope.

(** ** Locations *)
(** The hash ids of a layer, at the address of its view. *)
Definition indices_loc (e ptr : Z) : loc := (0, e, ptr).
Definition ids_loc (e capacity : Z) : loc := (1, e, capacity).
Definition w_loc (e capacity : Z) : loc := (2, e, capacity).
Definition dw_loc (e capacity : Z) : loc := (3, e, capacity).
Definition out_loc (f e : Z) : loc := (4, e, f).

(** The rows of a table of [n] that a rank owns. *)
Definition row_start (n rank tp : Z) : Z := n * rank / tp.
Definition row_end (n rank tp : Z) : Z := n * (rank + 1) / tp.

(** The row cache's bytes: the host's budget over the ranks that share it and two layers. *)
Definition cache_budget (host_bytes tp nnodes : Z) : Z := host_bytes / (2 * Z.max 1 (tp / Z.max 1 nnodes)).
(** Cut so that its slots' 264-byte rows fit a pool outside ordinary memory. *)
Definition drm_budget (budget pool : Z) : Z := Z.min budget (pool * 272 / 264).

(** [1 << (count - 1).bit_length()]. *)
Definition capacity (count : Z) : Z := if count <=? 1 then 1 else 2 ^ (Z.log2 (count - 1) + 1).

(** Every row of the table is owned by exactly one rank. *)
Lemma row_owned_once n tp id : 0 < tp -> 0 <= id < n ->
  exists rank, 0 <= rank < tp /\ row_start n rank tp <= id < row_end n rank tp /\
    forall r, 0 <= r < tp -> row_start n r tp <= id < row_end n r tp -> r = rank.
Proof.
  intros Ht Hid. assert (HM : forall a b, a <= b -> n * a / tp <= n * b / tp) by (intros; apply Z.div_le_mono; nia).
  assert (HE : forall k, 0 <= k -> id < n * k / tp -> exists r, 0 <= r < k /\ row_start n r tp <= id < row_end n r tp).
  { apply (natlike_ind (fun k => id < n * k / tp -> exists r, 0 <= r < k /\ row_start n r tp <= id < row_end n r tp)).
    - rewrite Z.mul_0_r, Z.div_0_l by lia. lia.
    - intros k Hk IH H. destruct (Z.ltb_spec id (n * k / tp)) as [Hl|Hg]; [destruct (IH Hl) as (r & ? & ?); exists r; split; [lia|done]|].
      exists k. split; [lia|]. unfold row_start, row_end. replace (k + 1) with (Z.succ k) by lia. lia. }
  destruct (HE tp ltac:(lia)) as (rank & Hr & Ho); [rewrite Z.div_mul by lia; lia|]. exists rank. split; [done|]. split; [done|].
  intros r Hr' Ho'. unfold row_start, row_end in *. destruct (Z.lt_trichotomy r rank) as [H|[H|H]]; [|done|].
  - pose proof (HM (r + 1) rank ltac:(lia)). lia.
  - pose proof (HM (rank + 1) r ltac:(lia)). lia.
Qed.

Section Prefetch.
(** The row of an id, and how many rows of an embedding this rank owns. *)
Context (row : Z -> Z -> Z) (rows : Z -> Z).

Definition nth_list (l : list (list Z)) (i : nat) : list Z := nth i l [].

(** The first [n] elements of a buffer overwritten. *)
Definition put_first (n : Z) (new old : list Z) : list Z := take (Z.to_nat n) new ++ drop (Z.to_nat n) old.

Definition copy_ids (s : stream) (e ptr count : Z) : op :=
  Op s (Some (ids_loc e (capacity count))) [indices_loc e ptr; ids_loc e (capacity count)] (fun l => put_first count (nth_list l 0) (nth_list l 1)).
Definition lookup_op (s : stream) (e count : Z) : op :=
  Op s (Some (w_loc e (capacity count))) [ids_loc e (capacity count); w_loc e (capacity count)]
    (fun l => put_first count (map (row e) (nth_list l 0)) (nth_list l 1)).
Definition copy_rows (s : stream) (e count : Z) : op :=
  Op s (Some (dw_loc e (capacity count))) [w_loc e (capacity count); dw_loc e (capacity count)] (fun l => put_first count (nth_list l 0) (nth_list l 1)).
Definition gather_op (f e count : Z) : op :=
  Op Main (Some (out_loc f e)) [dw_loc e (capacity count)] (fun l => take (Z.to_nat count) (nth_list l 0)).

(** ** The host *)

(** A layer's view of the hash ids. *)
Record view := View { data_ptr : Z; shape : list Z; ids : list Z }.
Definition numel (v : view) : Z := zlen (ids v).
Definition hash_op (e : Z) (v : view) : op := Op Main (Some (indices_loc e (data_ptr v))) [] (fun _ => ids v).

Record host := Host { pending : Z -> option (Z * list Z * Z); disabled : bool }.
Definition set_pending (h : host) (e : Z) (p : option (Z * list Z * Z)) : host :=
  Host (fun e' => if e' =? e then p else pending h e') (disabled h).

(** [owned] of the backend, on the current stream; forward [f] names the output. *)
Definition orig_owned (f e : Z) (v : view) : list op :=
  if numel v =? 0 then []
  else [copy_ids Main e (data_ptr v) (numel v); lookup_op Main e (numel v); copy_rows Main e (numel v); gather_op f e (numel v)].

Definition _prefetch (h : host) (e : Z) (v : view) : host * list op :=
  let count := numel v in
  let h := set_pending h e None in
  if (count =? 0) || (rows e =? 0) then (h, [])
  else (set_pending h e (Some (data_ptr v, shape v, count)),
        [wait Side; copy_ids Side e (data_ptr v) count; lookup_op Side e count; copy_rows Side e count]).

(** [_prefetch_all]; the call for the embedding [fails] raises before it issues anything. *)
Fixpoint prefetch_each (fails : option Z) (h : host) (embeds : list Z) (views : Z -> view) : host * list op * bool :=
  match embeds with
  | [] => (h, [], true)
  | e :: embeds =>
      if bool_decide (fails = Some e) then (h, [], false)
      else
        let '(h, ops) := _prefetch h e (views e) in
        let '(h, ops', ok) := prefetch_each fails h embeds views in
        (h, ops ++ ops', ok)
  end.

(** The hasher's forward: [dims] says that the ids have three dimensions and are not empty. *)
Definition hasher_forward (dims : bool) (fails : option Z) (h : host) (embeds : list Z) (views : Z -> view) : host * list op :=
  let hashed := map (fun e => hash_op e (views e)) embeds in
  if disabled h || negb dims then (h, hashed)
  else
    let '(h, ops, ok) := prefetch_each fails h embeds views in
    (if ok then h else Host (fun _ => None) true, hashed ++ ops).

(** [owned] as installed: a matching prefetch is joined and gathered, else the backend's. *)
Definition owned (f : Z) (h : host) (e : Z) (v : view) : host * list op :=
  match pending h e with
  | Some (ptr, sh, count) =>
      if (ptr =? data_ptr v) && bool_decide (sh = shape v) && (count =? numel v)
      then (set_pending h e None, [wait Main; gather_op f e count])
      else (h, orig_owned f e v)
  | None => (h, orig_owned f e v)
  end.

Fixpoint owned_each (f : Z) (h : host) (embeds : list Z) (views : Z -> view) : host * list op :=
  match embeds with
  | [] => (h, [])
  | e :: embeds =>
      let '(h, ops) := owned f h e (views e) in
      let '(h, ops') := owned_each f h embeds views in
      (h, ops ++ ops')
  end.

(** A forward: the hasher, then the Engram layers in order. *)
Record forward := Forward { dims : bool; fails : option Z; views : Z -> view }.
Definition run_forward (embeds : list Z) (f : Z) (h : host) (w : forward) : host * list op :=
  let '(h, ops) := hasher_forward (dims w) (fails w) h embeds (views w) in
  let '(h, ops') := owned_each f h embeds (views w) in
  (h, ops ++ ops').

(** Every operation the host issues over a run of forwards, in issue order. *)
Fixpoint issued (embeds : list Z) (f : Z) (h : host) (ws : list forward) : list op :=
  match ws with
  | [] => []
  | w :: ws => let '(h, ops) := run_forward embeds f h w in ops ++ issued embeds (f + 1) h ws
  end.

Definition fresh : host := Host (fun _ => None) false.
End Prefetch.

(** ** Nothing races, and the gathers get their rows *)
Section Exact.
Context (row : Z -> Z -> Z) (rows : Z -> Z) (embeds : list Z).

(** What a forward issues when nothing fails: an embedding's prefetch, and its rows' use. *)
Definition prefetched (w : forward) (e : Z) : bool := dims w && negb ((numel (views w e) =? 0) || (rows e =? 0)).
Definition fetch_ops (s : stream) (e ptr count : Z) : list op := [copy_ids s e ptr count; lookup_op row s e count; copy_rows s e count].
Definition block (w : forward) (e : Z) : list op := if prefetched w e then wait Side :: fetch_ops Side e (data_ptr (views w e)) (numel (views w e)) else [].
Definition use (f : Z) (w : forward) (e : Z) : list op :=
  if prefetched w e then [wait Main; gather_op f e (numel (views w e))] else orig_owned row f e (views w e).
Definition hashes (w : forward) : list op := map (fun e => hash_op e (views w e)) embeds.
Definition ops_of (f : Z) (w : forward) : list op := hashes w ++ (embeds ≫= block w) ++ (embeds ≫= use f w).

Definition idle (h : host) : Prop := disabled h = false /\ forall e, pending h e = None.

Lemma prefetch_each_ops w h es : NoDup es -> dims w = true -> disabled h = false -> exists h',
  prefetch_each row rows None h es (views w) = (h', es ≫= block w, true) /\ disabled h' = false /\
  forall e, pending h' e = if bool_decide (e ∈ es) then (if prefetched w e then Some (data_ptr (views w e), shape (views w e), numel (views w e)) else None) else pending h e.
Proof.
  intros Hnd Hd. revert h. induction Hnd as [|e es He Hnd IH]; intros h Hh; [by exists h|]. cbn [prefetch_each].
  rewrite bool_decide_eq_false_2 by done. assert (Hp : prefetched w e = negb ((numel (views w e) =? 0) || (rows e =? 0))) by (unfold prefetched; by rewrite Hd).
  set (p := if prefetched w e then Some (data_ptr (views w e), shape (views w e), numel (views w e)) else None).
  assert (HI : forall h2 ops, _prefetch row rows h e (views w e) = (h2, ops) -> ops = block w e /\ disabled h2 = false /\
    forall e', pending h2 e' = if e' =? e then p else pending h e').
  { intros h2 ops. unfold _prefetch, block, p. rewrite Hp. destruct ((numel (views w e) =? 0) || (rows e =? 0)); intros [= <- <-]; (split; [done|]; split; [done|]);
      intros e'; simpl; by destruct (e' =? e). }
  destruct (_prefetch row rows h e (views w e)) as [h2 ops] eqn:E. destruct (HI h2 ops eq_refl) as (-> & Hd2 & HP2).
  destruct (IH h2 Hd2) as (h' & -> & Hd' & HP'). exists h'. split; [done|]. split; [done|]. intros e'. rewrite HP', HP2.
  destruct (Z.eqb_spec e' e) as [->|Hne].
  - rewrite bool_decide_eq_false_2 by done. by rewrite bool_decide_eq_true_2 by set_solver.
  - destruct (decide (e' ∈ es)); [rewrite !bool_decide_eq_true_2 by set_solver|rewrite !bool_decide_eq_false_2 by set_solver]; done.
Qed.

Lemma owned_each_ops f w h es : NoDup es -> disabled h = false ->
  (forall e, e ∈ es -> pending h e = if prefetched w e then Some (data_ptr (views w e), shape (views w e), numel (views w e)) else None) ->
  (forall e, e ∉ es -> pending h e = None) ->
  exists h', owned_each row f h es (views w) = (h', es ≫= use f w) /\ idle h'.
Proof.
  intros Hnd. revert h. induction Hnd as [|e es He Hnd IH]; intros h Hd Hin Hout; [exists h; split; [done|]; split; [done|intros e; apply Hout; set_solver]|].
  cbn [owned_each]. unfold owned. rewrite (Hin e) by set_solver. cbn [mbind list_bind]. unfold use at 1. destruct (prefetched w e) eqn:Ep.
  - rewrite !Z.eqb_refl, bool_decide_eq_true_2 by done. cbn [andb].
    destruct (IH (set_pending h e None) Hd) as (h' & -> & Hi).
    + intros e' He'. simpl. destruct (Z.eqb_spec e' e) as [->|]; [done|]. apply Hin. set_solver.
    + intros e' He'. simpl. destruct (Z.eqb_spec e' e) as [->|]; [done|]. apply Hout. set_solver.
    + by exists h'.
  - destruct (IH h Hd) as (h' & -> & Hi); [intros; apply Hin; set_solver| |by exists h'].
    intros e' He'. destruct (decide (e' = e)) as [->|]; [rewrite (Hin e) by set_solver; by rewrite Ep|apply Hout; set_solver].
Qed.

Lemma run_forward_ops f h w : NoDup embeds -> idle h -> fails w = None ->
  exists h', run_forward row rows embeds f h w = (h', ops_of f w) /\ idle h'.
Proof.
  intros Hnd [Hd Hp] Hf. unfold run_forward, hasher_forward, ops_of. rewrite Hd, Hf. destruct (dims w) eqn:Edim; cbn [orb negb].
  - destruct (prefetch_each_ops w h embeds Hnd Edim Hd) as (h1 & -> & Hd1 & HP1). cbn iota beta.
    destruct (owned_each_ops f w h1 embeds Hnd Hd1) as (h2 & -> & Hi); [intros e He; by rewrite HP1, bool_decide_eq_true_2| |].
    + intros e He. by rewrite HP1, bool_decide_eq_false_2.
    + exists h2. split; [|done]. by rewrite app_assoc.
  - assert (E : forall e, prefetched w e = false) by (intros e; unfold prefetched; by rewrite Edim).
    destruct (owned_each_ops f w h embeds Hnd Hd) as (h2 & -> & Hi); [intros e _; by rewrite E|done|].
    exists h2. split; [|done]. f_equal. f_equal. assert (EB : embeds ≫= block w = []); [|by rewrite EB].
    clear -E. induction embeds as [|e es IH]; [done|]. cbn [mbind list_bind]. unfold block at 1. by rewrite E.
Qed.

(** *** Locations *)

(** An embedding's operations touch its own locations. *)
Definition about (e : Z) (a : op) : Prop := forall l, touches a l -> l.1.2 = e.

Lemma fetch_about s e ptr count : Forall (about e) (fetch_ops s e ptr count).
Proof.
  unfold about, touches. repeat constructor; intros l [[= <-]|Hl]; try done.
  all: cbn [srcs copy_ids lookup_op copy_rows] in Hl; rewrite !elem_of_cons, elem_of_nil in Hl; by destruct Hl as [->|[->|[]]].
Qed.

Lemma gather_about f e count : about e (gather_op f e count).
Proof. intros l [[= <-]|Hl%list_elem_of_singleton]; [done|by subst l]. Qed.

Lemma wait_about s e : about e (wait s).
Proof. by intros l [?|?%elem_of_nil]. Qed.

Lemma use_about f w e : Forall (about e) (use f w e).
Proof.
  unfold use, orig_owned. destruct (prefetched w e); [constructor; [apply wait_about|constructor; [apply gather_about|constructor]]|].
  destruct (numel (views w e) =? 0); [constructor|].
  change [copy_ids Main e ?p ?n; lookup_op row Main e ?n; copy_rows Main e ?n; gather_op f e ?n] with (fetch_ops Main e p n ++ [gather_op f e n]).
  apply Forall_app. split; [apply fetch_about|constructor; [apply gather_about|constructor]].
Qed.

Lemma about_apart e e' a b : e <> e' -> about e a -> about e' b -> ~ conflict a b.
Proof. intros Hne Ha Hb (l & [[H1 H2]|[H1 H2]]); apply Hne; [rewrite <- (Ha l), <- (Hb l)|rewrite <- (Ha l), <- (Hb l)]; try done; by left. Qed.

(** *** Races *)
Definition on_main (l : list op) : Prop := Forall (fun a => on_stream a = Main) l.
Definition main_clear (l : list op) : Prop := forall b, on_stream b = Main -> clear b l.

Lemma clear_same_app b l k : Forall (fun a => on_stream a = on_stream b) l -> clear b k -> clear b (l ++ k).
Proof. intros HF. apply clear_app. eapply Forall_impl; [exact HF|]. by left. Qed.

Lemma race_free_app s l k : Forall (fun a => on_stream a = s) l -> (forall b, b ∈ l -> clear b k) -> race_free k -> race_free (l ++ k).
Proof.
  intros HF HC Hk. induction HF as [|b l Hb HF IH]; [done|]. simpl. split; [|apply IH; intros; apply HC; set_solver].
  apply clear_same_app; [|apply HC; set_solver]. eapply Forall_impl; [exact HF|]. simpl. congruence.
Qed.

Lemma use_main f w e : on_main (use f w e).
Proof. unfold use, orig_owned. destruct (prefetched w e); [repeat constructor|]. destruct (numel (views w e) =? 0); repeat constructor. Qed.

Lemma uses_main f w es : on_main (es ≫= use f w).
Proof. induction es as [|e es IH]; [constructor|]. cbn [mbind list_bind]. apply Forall_app. split; [apply use_main|exact IH]. Qed.

Lemma hashes_main w : on_main (hashes w).
Proof. unfold hashes. induction embeds as [|e es IH]; constructor; done. Qed.

Lemma block_side w e : Forall (fun a => on_stream a = Side) (block w e).
Proof. unfold block. destruct (prefetched w e); repeat constructor. Qed.

Lemma blocks_side w es : Forall (fun a => on_stream a = Side) (es ≫= block w).
Proof. induction es as [|e es IH]; [constructor|]. cbn [mbind list_bind]. apply Forall_app. split; [apply block_side|exact IH]. Qed.

(** The blocks are empty or begin with a wait of their stream. *)
Lemma blocks_wait w es : (es ≫= block w) = [] \/ exists l, (es ≫= block w) = wait Side :: l.
Proof.
  induction es as [|e es IH]; [by left|]. cbn [mbind list_bind]. unfold block at 1 3. destruct (prefetched w e); [right; eexists; reflexivity|exact IH].
Qed.

Lemma blocks_clear w es k : main_clear k -> main_clear ((es ≫= block w) ++ k).
Proof.
  intros Hk b Hb. destruct (blocks_wait w es) as [->|[l ->]]; [by apply Hk|]. simpl. apply (clear_until b [] Side (l ++ k)); [constructor|by rewrite Hb].
Qed.

Lemma ops_clear f w k : main_clear k -> main_clear (ops_of f w ++ k).
Proof.
  intros Hk. unfold ops_of. rewrite <- !app_assoc. intros b Hb. apply clear_same_app; [rewrite Hb; apply hashes_main|]. apply blocks_clear; [|done].
  intros c Hc. apply clear_same_app; [rewrite Hc; apply uses_main|by apply Hk].
Qed.

(** An embedding's prefetch is joined before its rows are used, whatever the others do. *)
Lemma block_clear f w e k b : e ∈ embeds -> NoDup embeds -> b ∈ block w e -> clear b ((embeds ≫= use f w) ++ k).
Proof.
  intros He Hnd Hb. assert (Hs : on_stream b = Side) by (pose proof (block_side w e) as H; rewrite Forall_forall in H; by apply H).
  assert (Ha : about e b).
  { unfold block in Hb. destruct (prefetched w e); [|by apply elem_of_nil in Hb]. apply elem_of_cons in Hb as [->|Hb]; [apply wait_about|].
    pose proof (fetch_about Side e (data_ptr (views w e)) (numel (views w e))) as H. rewrite Forall_forall in H. by apply H. }
  assert (Hp : prefetched w e = true) by (unfold block in Hb; destruct (prefetched w e); [done|by apply elem_of_nil in Hb]).
  apply list_elem_of_split in He as (l1 & l2 & E). rewrite E in Hnd |- *. rewrite bind_app. cbn [mbind list_bind]. unfold use at 2. rewrite Hp. rewrite <- app_assoc. simpl.
  apply clear_until; [|by rewrite Hs]. apply Forall_forall. intros a Ha'. right. apply list_elem_of_bind in Ha' as (e' & Ha' & He').
  apply (about_apart e e'); [|done|]. 2: { pose proof (use_about f w e') as H. rewrite Forall_forall in H. by apply H. }
  intros <-. apply NoDup_app in Hnd as (_ & Hnd & _). apply (Hnd e); [done|]. by left.
Qed.

Lemma ops_race_free f w k : NoDup embeds -> main_clear k -> race_free k -> race_free (ops_of f w ++ k).
Proof.
  intros Hnd Hk Hr. unfold ops_of. rewrite <- !app_assoc.
  assert (HU : main_clear ((embeds ≫= use f w) ++ k)) by (intros c Hc; apply clear_same_app; [rewrite Hc; apply uses_main|by apply Hk]).
  apply (race_free_app Main); [apply hashes_main| |].
  { intros b Hb. pose proof (hashes_main w) as H. unfold on_main in H. rewrite Forall_forall in H. by apply blocks_clear; [|apply H]. }
  apply (race_free_app Side); [apply blocks_side| |].
  { intros b Hb. apply list_elem_of_bind in Hb as (e & Hb & He). by apply (block_clear f w e). }
  apply (race_free_app Main); [apply uses_main| |done].
  intros b Hb. pose proof (uses_main f w embeds) as H. unfold on_main in H. rewrite Forall_forall in H. by apply Hk, H.
Qed.

(** A run in which no prefetch raises. *)
Definition quiet (ws : list forward) : Prop := Forall (fun w => fails w = None) ws.

Lemma issued_ops f h ws : NoDup embeds -> idle h -> quiet ws -> race_free (issued row rows embeds f h ws) /\ main_clear (issued row rows embeds f h ws) /\
  issued row rows embeds f h ws = imap (fun i w => ops_of (f + Z.of_nat i) w) ws ≫= id.
Proof.
  intros Hnd. revert f h. induction ws as [|w ws IH]; intros f h Hi HQ; [done|]. apply Forall_cons in HQ as [Hw HQ]. cbn [issued].
  destruct (run_forward_ops f h w Hnd Hi Hw) as (h' & -> & Hi'). destruct (IH (f + 1) h' Hi' HQ) as (H1 & H2 & H3).
  split; [by apply ops_race_free|]. split; [by apply ops_clear|]. rewrite H3. cbn [imap mbind list_bind]. rewrite Z.add_0_r. unfold id at 2. f_equal. f_equal.
  apply imap_ext. intros i w' _. simpl. f_equal. lia.
Qed.

(** *** What the issue order computes *)
Lemma run_frame l m x : Forall (fun a => dst a <> Some x) l -> at_loc (run l m) x = at_loc m x.
Proof.
  intros HF. revert m. induction HF as [|a l Ha _ IH]; intros m; [done|]. simpl. rewrite IH. unfold run_op. destruct (dst a) as [d|]; [|done].
  apply at_insert_ne. congruence.
Qed.

(** The operations of another embedding leave a location as it is. *)
Lemma about_frame e e' l m k c : e' <> e -> Forall (about e') l -> at_loc (run l m) (k, e, c) = at_loc m (k, e, c).
Proof. intros Hne HF. apply run_frame. eapply Forall_impl; [exact HF|]. intros a Ha Hd. apply Hne. symmetry. apply (Ha (k, e, c)). by left. Qed.

Lemma block_about w e : Forall (about e) (block w e).
Proof. unfold block. destruct (prefetched w e); [|constructor]. constructor; [apply wait_about|apply fetch_about]. Qed.

Lemma fetch_rows s e (v : view) m : at_loc m (indices_loc e (data_ptr v)) = ids v ->
  take (Z.to_nat (numel v)) (at_loc (run (fetch_ops s e (data_ptr v) (numel v)) m) (dw_loc e (capacity (numel v)))) = map (row e) (ids v).
Proof.
  intros Hi. assert (Hn : length (ids v) = Z.to_nat (numel v)) by (unfold numel, zlen; lia).
  assert (HT : forall a b : list Z, take (Z.to_nat (numel v)) a = a -> length a = Z.to_nat (numel v) -> take (Z.to_nat (numel v)) (put_first (numel v) a b) = a).
  { intros a b Ha Hl. unfold put_first. rewrite Ha. by apply take_app_length'. }
  set (n := numel v) in *. unfold fetch_ops, run. cbn [fold_left]. set (m1 := run_op m (copy_ids s e (data_ptr v) n)). set (m2 := run_op m1 (lookup_op row s e n)).
  assert (E1 : take (Z.to_nat n) (at_loc m1 (ids_loc e (capacity n))) = ids v).
  { unfold m1, run_op, copy_ids. cbn [dst]. rewrite at_insert_eq. cbn [effect srcs map]. unfold nth_list. cbn [nth]. rewrite Hi. apply HT; [rewrite take_ge by lia|]; done. }
  assert (E2 : take (Z.to_nat n) (at_loc m2 (w_loc e (capacity n))) = map (row e) (ids v)).
  { unfold m2, run_op, lookup_op. cbn [dst]. rewrite at_insert_eq. cbn [effect srcs map]. unfold nth_list. cbn [nth]. unfold put_first. rewrite firstn_map, E1.
    apply take_app_length'. by rewrite length_map. }
  unfold run_op at 1, copy_rows. cbn [dst]. rewrite at_insert_eq. cbn [effect srcs map]. unfold nth_list. cbn [nth]. unfold put_first. rewrite E2.
  apply take_app_length'. by rewrite length_map.
Qed.

(** After the hasher and the blocks, a prefetched embedding's buffer holds its rows. *)
Definition hashed (w : forward) (es : list Z) (m : mem) : Prop := forall e, e ∈ es -> at_loc m (indices_loc e (data_ptr (views w e))) = ids (views w e).
Definition fetched (w : forward) (es : list Z) (m : mem) : Prop := forall e, e ∈ es -> prefetched w e = true ->
  take (Z.to_nat (numel (views w e))) (at_loc m (dw_loc e (capacity (numel (views w e))))) = map (row e) (ids (views w e)).

Lemma hashes_run w m : NoDup embeds -> hashed w embeds (run (hashes w) m).
Proof.
  unfold hashes. intros Hnd. revert m. induction Hnd as [|e es He Hnd IH]; intros m e' He'; [by apply elem_of_nil in He'|]. simpl.
  apply elem_of_cons in He' as [->|He']; [|by apply IH]. rewrite run_frame; [apply at_insert_eq|]. apply Forall_map. apply Forall_forall.
  intros e' He'. simpl. intros [= ->]. done.
Qed.

Lemma blocks_run w es m : NoDup es -> hashed w es m -> fetched w es (run (es ≫= block w) m) /\ forall e p, at_loc (run (es ≫= block w) m) (indices_loc e p) = at_loc m (indices_loc e p).
Proof.
  intros Hnd. revert m. induction Hnd as [|e es He Hnd IH]; intros m Hm; [split; [by intros e ?%elem_of_nil|done]|].
  cbn [mbind list_bind]. rewrite run_app.
  assert (HK : forall e' p, at_loc (run (block w e) m) (indices_loc e' p) = at_loc m (indices_loc e' p)).
  { intros e' p. apply run_frame. unfold block. destruct (prefetched w e); [|constructor]. constructor; [done|]. repeat constructor; done. }
  destruct (IH (run (block w e) m)) as [H1 H2]; [intros e' He'; rewrite HK; apply Hm; set_solver|].
  split; [|intros e' p; by rewrite H2, HK]. intros e' He' Hp. apply elem_of_cons in He' as [->|He']; [|by apply H1].
  assert (HF : forall es', e ∉ es' -> forall m', at_loc (run (es' ≫= block w) m') (dw_loc e (capacity (numel (views w e)))) = at_loc m' (dw_loc e (capacity (numel (views w e))))).
  { induction es' as [|e1 es' IH']; intros Hn m'; [done|]. cbn [mbind list_bind]. rewrite run_app, IH' by set_solver.
    apply (about_frame e e1); [set_solver|apply block_about]. }
  rewrite HF by done. unfold block. rewrite Hp. simpl. apply (fetch_rows Side). apply Hm. set_solver.
Qed.

Lemma gather_frame f e count x : x <> out_loc f e -> dst (gather_op f e count) <> Some x.
Proof. by intros H [= <-]. Qed.

(** Each use of the rows leaves its embedding's rows in its output. *)
Lemma use_run f w e m : at_loc m (indices_loc e (data_ptr (views w e))) = ids (views w e) ->
  (prefetched w e = true -> take (Z.to_nat (numel (views w e))) (at_loc m (dw_loc e (capacity (numel (views w e))))) = map (row e) (ids (views w e))) ->
  numel (views w e) <> 0 -> at_loc (run (use f w e) m) (out_loc f e) = map (row e) (ids (views w e)).
Proof.
  intros Hi Hf Hn. unfold use, orig_owned. destruct (prefetched w e) eqn:Ep.
  - unfold run, run_op. simpl. rewrite at_insert_eq. unfold nth_list. simpl. by apply Hf.
  - replace (numel (views w e) =? 0) with false by lia.
    change [copy_ids Main e ?p ?n; lookup_op row Main e ?n; copy_rows Main e ?n; gather_op f e ?n] with (fetch_ops Main e p n ++ [gather_op f e n]).
    rewrite run_app. unfold run at 1, run_op. simpl. rewrite at_insert_eq. unfold nth_list. simpl. by apply (fetch_rows Main).
Qed.

Lemma uses_run f w es m : NoDup es -> hashed w es m -> fetched w es m -> forall e, e ∈ es -> numel (views w e) <> 0 ->
  at_loc (run (es ≫= use f w) m) (out_loc f e) = map (row e) (ids (views w e)).
Proof.
  intros Hnd. revert m. induction Hnd as [|e es He Hnd IH]; intros m Hh Hf e' He' Hn; [by apply elem_of_nil in He'|].
  cbn [mbind list_bind]. rewrite run_app. apply elem_of_cons in He' as [->|He'].
  - assert (HF : forall es', e ∉ es' -> forall m', at_loc (run (es' ≫= use f w) m') (out_loc f e) = at_loc m' (out_loc f e)).
    { induction es' as [|e1 es' IH']; intros Hne m'; [done|]. cbn [mbind list_bind]. rewrite run_app, IH' by set_solver.
      apply (about_frame e e1); [set_solver|apply use_about]. }
    rewrite HF by done. apply use_run; [apply Hh; set_solver|intros Hp; apply Hf; [set_solver|done]|done].
  - apply IH; [| |done|done]; intros e1 He1; [|intros Hp].
    + etransitivity; [apply (about_frame e1 e); [set_solver|apply use_about]|apply Hh; set_solver].
    + rewrite <- (Hf e1) by (done || set_solver). f_equal. apply (about_frame e1 e); [set_solver|apply use_about].
Qed.

Lemma ops_run f w m e : NoDup embeds -> e ∈ embeds -> numel (views w e) <> 0 -> at_loc (run (ops_of f w) m) (out_loc f e) = map (row e) (ids (views w e)).
Proof.
  intros Hnd He Hn. unfold ops_of. rewrite !run_app. destruct (blocks_run w embeds (run (hashes w) m) Hnd) as [H1 H2]; [by apply hashes_run|].
  apply uses_run; try done. intros e' He'. rewrite H2. by apply hashes_run.
Qed.

(** A forward writes its own outputs only. *)
Lemma ops_frame f f' w m e : f' <> f -> at_loc (run (ops_of f' w) m) (out_loc f e) = at_loc m (out_loc f e).
Proof.
  intros Hne. apply run_frame. unfold ops_of. apply Forall_app. split; [|apply Forall_app; split].
  - apply Forall_map, Forall_forall. by intros e' _.
  - apply Forall_forall. intros a Ha. apply list_elem_of_bind in Ha as (e' & Ha & _). unfold block in Ha. destruct (prefetched w e'); [|by apply elem_of_nil in Ha].
    unfold fetch_ops in Ha. rewrite !elem_of_cons, elem_of_nil in Ha. by destruct Ha as [->|[->|[->|[->|[]]]]].
  - apply Forall_forall. intros a Ha. apply list_elem_of_bind in Ha as (e' & Ha & _). unfold use, orig_owned in Ha. destruct (prefetched w e').
    + rewrite !elem_of_cons, elem_of_nil in Ha. destruct Ha as [->|[->|[]]]; [done|]. apply gather_frame. unfold out_loc. congruence.
    + destruct (numel (views w e') =? 0); [by apply elem_of_nil in Ha|]. rewrite !elem_of_cons, elem_of_nil in Ha.
      destruct Ha as [->|[->|[->|[->|[]]]]]; try done. apply gather_frame. unfold out_loc. congruence.
Qed.

Lemma program_run ws f0 i w m e : NoDup embeds -> e ∈ embeds -> ws !! i = Some w -> numel (views w e) <> 0 ->
  at_loc (run (imap (fun i w => ops_of (f0 + Z.of_nat i) w) ws ≫= id) m) (out_loc (f0 + Z.of_nat i) e) = map (row e) (ids (views w e)).
Proof.
  intros Hnd He. revert f0 i m. induction ws as [|w0 ws IH]; intros f0 i m Hi Hn; [done|]. cbn [imap mbind list_bind]. unfold id at 2. rewrite run_app, Z.add_0_r.
  assert (E : forall m', run (imap ((fun i w => ops_of (f0 + Z.of_nat i) w) ∘ S) ws ≫= id) m' = run (imap (fun i w => ops_of (f0 + 1 + Z.of_nat i) w) ws ≫= id) m').
  { intros m'. f_equal. f_equal. apply imap_ext. intros j w' _. simpl. f_equal. lia. }
  rewrite E. destruct i as [|i].
  - injection Hi as ->. rewrite Z.add_0_r.
    assert (HF : forall k f1 m', f0 < f1 -> at_loc (run (imap (fun i w => ops_of (f1 + Z.of_nat i) w) k ≫= id) m') (out_loc f0 e) = at_loc m' (out_loc f0 e)).
    { induction k as [|w1 k IHk]; intros f1 m' Hlt; [done|]. cbn [imap mbind list_bind]. unfold id at 2. rewrite run_app.
      rewrite (imap_ext _ (fun i w => ops_of (f1 + 1 + Z.of_nat i) w)) by (intros j w' _; simpl; f_equal; lia).
      rewrite IHk by lia. apply ops_frame. lia. }
    rewrite HF by lia. by apply ops_run.
  - replace (f0 + Z.of_nat (S i)) with (f0 + 1 + Z.of_nat i) by lia. by apply IH.
Qed.

End Exact.

(** ** Concrete runs *)
Definition ex_row (e id : Z) : Z := 1000 * e + id.
Definition ex_view (ptr : Z) (l : list Z) : view := View ptr [zlen l] l.

(** Embedding 7 has no rows of its own and uses the stock path on the main stream while the
    side stream fetches for embedding 1; the second forward reuses the addresses. *)
Definition ex_forwards : list forward := [Forward true None (fun _ => ex_view 100 [3; 4]); Forward true None (fun _ => ex_view 100 [9; 8])].
Definition ex_issued : list op := issued ex_row (fun e => if e =? 7 then 0 else 10) [7; 1] 0 fresh ex_forwards.
Definition ex_order : list op :=
  match schedule ([0; 0; 0; 0; 2; 0; 1; 0]%nat ++ replicate 16 0%nat) ex_issued with Some l => l | None => [] end.


(** When the prefetch of a later embedding raises, the ones already issued are not joined: their
    copies may reach the next forward's staging, and its gather then reads the rows of old ids. *)
Definition ex_failing : list forward := [Forward true (Some 14) (fun _ => ex_view 100 [3; 4]); Forward true None (fun _ => ex_view 200 [9; 8])].
Definition ex_late : list nat := [0; 0; 0]%nat ++ replicate 11 3%nat ++ [0]%nat ++ replicate 7 2%nat ++ [0; 0]%nat.

Example unjoined_prefetch_races : exists l,
  interleaves (issued ex_row (fun _ => 10) [1; 14] 0 fresh ex_failing) l /\ at_loc (run l ∅) (out_loc 1 1) = [1003; 1004].
Proof. eexists. split; [apply (schedule_ok ex_late); reflexivity|vm_compute; reflexivity]. Qed.
