(* ===== verification/EngramPack.v ===== *)
(** * Packed shards of Engram rows (scripts/pack_engram.py)

    In the checkpoint the 256 bytes of a row's weight and the 8 of its scale lie far apart; the
    script copies a rank's rows, side by side, into a local file behind a page of header.
    A file is the list of its bytes.  The system calls are oracles: how many bytes a read or a
    write of a descriptor moves (a negative count is an [OSError]); the index of the checkpoint
    and the parsed header of a shard are dictionaries.  Progress output, [fsync] and the parsing
    of the arguments are not modelled. *)
From S2P Require Import Prelude PyStr FastLoad.
From stdpp Require Import pretty.
#[local] Open Scope string_scope.
#[local] Open Scope list_scope.
#[local] Open Scope Z_scope.

Definition MAGIC : Z := 0x31344E4531565344.
Definition HEADER_BYTES : Z := 4096.
Definition ROW_BYTES : Z := 264.
Definition WEIGHT_BYTES : Z := 256.
Definition SCALE_BYTES : Z := 8.
Definition ENGRAM_LAYERS : list Z := [1; 14].

(** ** Little-endian words *)

Fixpoint le_bytes (n : nat) (v : Z) : list Z :=
  match n with O => [] | S n => v mod 256 :: le_bytes n (v / 256) end.

Fixpoint le_val (l : list Z) : Z :=
  match l with [] => 0 | b :: l => b + 256 * le_val l end.

(** [struct.pack('<6Q', ...)]. *)
Definition pack_Q (l : list Z) : res (list Z) :=
  if forallb (fun v => (0 <=? v) && (v <? 2 ^ 64)) l then Ok (l ≫= le_bytes 8) else Raise StructError.

(** ** The tables of a layer *)

Definition prefix (layer_id : Z) : string := "layers." +:+ pretty layer_id +:+ ".engram.embed.".

(** [assert b]. *)
Definition py_assert (b : bool) : res unit := if b then Ok () else Raise AssertionError.

(** [shape[i]]. *)
Definition dim_at (i : info) (k : nat) : res Z :=
  match shape i !! k with Some d => Ok d | None => Raise IndexError end.

(** [tensor_span]: the file, the rows and where the two tables start; [open_header] is the
    length and the dictionary at the head of a file. *)
Definition tensor_span (index : list (string * string)) (open_header : string -> res (Z * header)) (layer_id : Z)
  : res (string * Z * Z * Z) :=
  name ← hget index (prefix layer_id +:+ "weight");
  sname ← hget index (prefix layer_id +:+ "scale");
  _ ← py_assert (String.eqb sname name);
  lh ← open_header name;
  let '(length, h) := lh in
  weight ← hget h (prefix layer_id +:+ "weight");
  scale ← hget h (prefix layer_id +:+ "scale");
  _ ← py_assert (String.eqb (dtype weight) "F8_E4M3" && String.eqb (dtype scale) "F8_E8M0");
  w1 ← dim_at weight 1;
  _ ← py_assert (w1 =? WEIGHT_BYTES);
  s1 ← dim_at scale 1;
  _ ← py_assert (s1 =? SCALE_BYTES);
  rows ← dim_at weight 0;
  let base := 8 + length in
  Ok (name, rows, base + (data_offsets weight).1, base + (data_offsets scale).1).

(** ** Packing one layer *)

(** A rank's share of the rows. *)
Definition share_lo (rows rank tp : Z) : Z := rows * rank / tp.
Definition share_hi (rows rank tp : Z) : Z := rows * (rank + 1) / tp.

(** [range(lo, hi, step)] for [lo <= hi]. *)
Definition range_step (lo hi step : Z) : res (list Z) :=
  if step =? 0 then Raise ValueError
  else if step <? 0 then Ok []
  else Ok (map (fun k => lo + k * step) (zrange 0 (cdiv (hi - lo) step))).

(** The rows of a block: each row's weight, then its scale. *)
Definition interleave (n : Z) (weights scales : list Z) : list Z :=
  zrange 0 n ≫= fun i => bytes_at weights (i * WEIGHT_BYTES) WEIGHT_BYTES ++ bytes_at scales (i * SCALE_BYTES) SCALE_BYTES.

Section Pack.
(** The checkpoint's file, the bytes a read of a descriptor returns and a write accepts. *)
Context (src : list Z) (rd wr : Z -> Z -> Z).

(** [src.seek(off); src.read(n)] on an unbuffered file. *)
Definition raw_read (off n : Z) : res (list Z) :=
  if rd off n <? 0 then Raise IOError else Ok (bytes_at src off (Z.min n (rd off n))).

(** [dst.write(data)] on an unbuffered file: the count it returns is not looked at. *)
Definition raw_write (dst data : list Z) : res (list Z) :=
  let n := wr (zlen dst) (zlen data) in
  if n <? 0 then Raise IOError else Ok (dst ++ bytes_at data 0 (Z.min (zlen data) n)).

Section Layer.
Context (weight_off scale_off lo hi chunk_rows : Z).

Definition pack_chunk (start : Z) (dst : list Z) : res (list Z) :=
  let stop := Z.min (start + chunk_rows) hi in
  let n := stop - start in
  weights ← raw_read (weight_off + start * WEIGHT_BYTES) (n * WEIGHT_BYTES);
  scales ← raw_read (scale_off + start * SCALE_BYTES) (n * SCALE_BYTES);
  if negb (zlen weights =? n * WEIGHT_BYTES) || negb (zlen scales =? n * SCALE_BYTES) then Raise SystemExit
  else raw_write dst (interleave n weights scales).

(** The loop over the chunks: the file as far as it got, and how it ended. *)
Fixpoint pack_chunks (starts : list Z) (dst : list Z) : list Z * res unit :=
  match starts with
  | [] => (dst, Ok ())
  | start :: starts => match pack_chunk start dst with Ok dst => pack_chunks starts dst | Raise e => (dst, Raise e) end
  end.
End Layer.

(** The files of one layer in the output directory. *)
Record slot := Slot { target : option (list Z); partial : option (list Z) }.

(** [pack_layer] after [tensor_span]: the header, the chunks, and the rename at the end. *)
Definition pack_layer (layer_id rows weight_off scale_off rank tp chunk_rows : Z) (s : slot) : slot * res unit :=
  let lo := share_lo rows rank tp in
  let hi := share_hi rows rank tp in
  let expected := HEADER_BYTES + (hi - lo) * ROW_BYTES in
  if (match target s with Some t => zlen t =? expected | None => false end) then (s, Ok ())
  else
    match pack_Q [MAGIC; layer_id; lo; hi; rows; ROW_BYTES] with
    | Raise e => (s, Raise e)
    | Ok h =>
        let head := h ++ replicate (Z.to_nat (HEADER_BYTES - zlen h)) 0 in
        match raw_write [] head with
        | Raise e => (Slot (target s) (Some []), Raise e)
        | Ok dst =>
            match range_step lo hi chunk_rows with
            | Raise e => (Slot (target s) (Some dst), Raise e)
            | Ok starts =>
                match pack_chunks weight_off scale_off hi chunk_rows starts dst with
                | (dst, Raise e) => (Slot (target s) (Some dst), Raise e)
                | (dst, Ok _) => (Slot (Some dst) None, Ok ())
                end
            end
        end
    end.
End Pack.

(** [main]: the space all the layers need, then one layer after the other; each layer has its
    span, the bytes of its file and its oracles. *)
Record job := Job { j_layer : Z; j_src : list Z; j_rd : Z -> Z -> Z; j_wr : Z -> Z -> Z; j_rows : Z; j_woff : Z; j_soff : Z }.

Definition need (rank tp : Z) (jobs : list job) : Z :=
  zsum (map (fun j => HEADER_BYTES + (share_hi (j_rows j) rank tp - share_lo (j_rows j) rank tp) * ROW_BYTES) jobs).

Fixpoint pack_layers (rank tp chunk_rows : Z) (jobs : list job) (dir : Z -> slot) : (Z -> slot) * res unit :=
  match jobs with
  | [] => (dir, Ok ())
  | j :: jobs =>
      let '(s, r) := pack_layer (j_src j) (j_rd j) (j_wr j) (j_layer j) (j_rows j) (j_woff j) (j_soff j) rank tp chunk_rows (dir (j_layer j)) in
      let dir := fun l => if l =? j_layer j then s else dir l in
      match r with Ok _ => pack_layers rank tp chunk_rows jobs dir | Raise e => (dir, Raise e) end
  end.

Definition main (rank tp chunk_rows free : Z) (jobs : list job) (dir : Z -> slot) : (Z -> slot) * res unit :=
  if free <? need rank tp jobs then (dir, Raise SystemExit) else pack_layers rank tp chunk_rows jobs dir.

(** ** What a shard holds *)

Lemma le_val_bytes n v : 0 <= v < 256 ^ Z.of_nat n -> le_val (le_bytes n v) = v.
Proof.
  revert v. induction n as [|n IH]; intros v Hv; cbn [le_bytes le_val]; [cbn in Hv; lia|].
  rewrite Nat2Z.inj_succ, Z.pow_succ_r in Hv by lia. rewrite IH; [pose proof (Z.div_mod v 256); lia|].
  split; [apply Z.div_pos; lia | apply Z.div_lt_upper_bound; lia].
Qed.

Lemma le_bytes_length n v : length (le_bytes n v) = n.
Proof. revert v. induction n as [|n IH]; intros v; cbn; [done | by rewrite IH]. Qed.

(** A read that has the asked length is the asked bytes. *)
Lemma full_read file off n m : 0 <= n -> zlen (bytes_at file off (Z.min n m)) = n -> bytes_at file off (Z.min n m) = bytes_at file off n.
Proof. intros Hn. unfold bytes_at, zlen. rewrite length_take. intros H. f_equal. lia. Qed.

Lemma bytes_at_all (l : list Z) n : zlen l <= n -> bytes_at l 0 n = l.
Proof. intros. unfold bytes_at, zlen in *. cbn. apply take_ge. lia. Qed.

Lemma bytes_at_short (l : list Z) off n : zlen (bytes_at l off n) <= Z.max 0 n.
Proof. unfold bytes_at, zlen. rewrite length_take. lia. Qed.

Lemma raw_write_ok wr dst data dst' : raw_write wr dst data = Ok dst' ->
  zlen dst' <= zlen dst + zlen data /\ (zlen dst' = zlen dst + zlen data -> dst' = dst ++ data).
Proof.
  unfold raw_write. set (n := wr _ _). case_match; [done|]. intros [= <-]. rewrite zlen_app. pose proof (bytes_at_short data 0 (Z.min (zlen data) n)) as Hs.
  pose proof (zlen_nonneg data). split; [generalize dependent (zlen (bytes_at data 0 (Z.min (zlen data) n))); lia|].
  intros Hf. f_equal. rewrite full_read by lia. by apply bytes_at_all.
Qed.

Lemma zrange_shift a n : zrange a (a + n) = map (fun i => a + i) (zrange 0 n).
Proof.
  unfold zrange. replace (a + n - a) with n by lia. rewrite Z.sub_0_r. apply list_eq. intros k. rewrite list_lookup_fmap.
  destruct (decide (Z.of_nat k < n)).
  - rewrite !lookup_seqZ_lt by lia. done.
  - rewrite !lookup_seqZ_ge by lia. done.
Qed.

Lemma bind_map {A B C} (f : A -> B) (g : B -> list C) (l : list A) : map f l ≫= g = l ≫= fun x => g (f x).
Proof. induction l as [|x l IH]; [done|]. cbn. by rewrite IH. Qed.

Lemma bind_ext {A B} (f g : A -> list B) (l : list A) : (forall x, x ∈ l -> f x = g x) -> l ≫= f = l ≫= g.
Proof.
  intros H. induction l as [|x l IH]; [done|]. cbn [mbind list_bind]. rewrite H by left. f_equal. apply IH. intros y Hy. apply H. by right.
Qed.

(** Records of one size, one after the other: their total and the one at an index. *)
Lemma bind_sized {A} (f : A -> list Z) (l : list A) sz : (forall x, x ∈ l -> zlen (f x) = sz) -> zlen (l ≫= f) = sz * zlen l.
Proof.
  intros H. induction l as [|x l IH]; [cbn; rewrite Z.mul_0_r; done|]. cbn [mbind list_bind]. rewrite zlen_app, zlen_cons, IH, H by set_solver. lia.
Qed.

Lemma record_at (f : Z -> list Z) sz a b i :
  0 <= sz -> (forall x, a <= x < b -> zlen (f x) = sz) -> a <= i < b -> bytes_at (zrange a b ≫= f) ((i - a) * sz) sz = f i.
Proof.
  intros Hs Hf Hi. rewrite (zrange_app a i b), bind_app by lia. rewrite (zrange_cons i b) by lia. cbn [mbind list_bind].
  assert (Hl : zlen (zrange a i ≫= f) = (i - a) * sz).
  { rewrite (bind_sized _ _ sz), zrange_length by (intros; try apply Hf; rewrite ?zrange_elem in *; lia). lia. }
  assert (Hn : zlen (f i) = sz) by (apply Hf; lia). unfold bytes_at, zlen in *. rewrite drop_app_length' by lia. by rewrite take_app_length' by lia.
Qed.

Section Rows.
Context (src : list Z) (weight_off scale_off : Z).

(** A row of the checkpoint: its weight, then its scale. *)
Definition ckpt_row (i : Z) : list Z :=
  bytes_at src (weight_off + i * WEIGHT_BYTES) WEIGHT_BYTES ++ bytes_at src (scale_off + i * SCALE_BYTES) SCALE_BYTES.

(** Both tables of [rows] rows lie inside the file. *)
Definition tables_inside (rows : Z) : Prop :=
  0 <= weight_off /\ 0 <= scale_off /\ weight_off + rows * WEIGHT_BYTES <= zlen src /\ scale_off + rows * SCALE_BYTES <= zlen src.

Lemma ckpt_row_length rows i : tables_inside rows -> 0 <= i < rows -> zlen (ckpt_row i) = ROW_BYTES.
Proof.
  intros (Hw & Hs & Hwe & Hse) Hi. unfold ckpt_row, WEIGHT_BYTES, SCALE_BYTES, ROW_BYTES in *. rewrite zlen_app, !bytes_at_length by lia. lia.
Qed.

Lemma interleave_rows start n : 0 <= weight_off -> 0 <= scale_off -> 0 <= start -> 0 <= n ->
  interleave n (bytes_at src (weight_off + start * WEIGHT_BYTES) (n * WEIGHT_BYTES)) (bytes_at src (scale_off + start * SCALE_BYTES) (n * SCALE_BYTES))
  = zrange start (start + n) ≫= ckpt_row.
Proof.
  intros Hw Hs H0 Hn. unfold interleave. rewrite zrange_shift, bind_map. apply bind_ext. intros i Hi%zrange_elem.
  unfold ckpt_row, WEIGHT_BYTES, SCALE_BYTES. rewrite !bytes_at_sub by lia. do 2 f_equal; lia.
Qed.

Section Chunks.
Context (rd wr : Z -> Z -> Z) (hi chunk_rows : Z).
Definition chunk_of (start : Z) : list Z := zrange start (Z.min (start + chunk_rows) hi) ≫= ckpt_row.

Lemma pack_chunk_ok start dst dst' : 0 <= weight_off -> 0 <= scale_off -> 0 <= start -> start <= Z.min (start + chunk_rows) hi ->
  pack_chunk src rd wr weight_off scale_off hi chunk_rows start dst = Ok dst' ->
  zlen dst' <= zlen dst + zlen (chunk_of start) /\ (zlen dst' = zlen dst + zlen (chunk_of start) -> dst' = dst ++ chunk_of start).
Proof.
  intros Hw Hs H0 Hle. unfold pack_chunk, raw_read. set (n := Z.min (start + chunk_rows) hi - start). assert (Hn : 0 <= n) by lia.
  destruct (rd (weight_off + _) _ <? 0); [done|]. cbn [mbind res_bind]. destruct (rd (scale_off + _) _ <? 0); [done|]. cbn [mbind res_bind].
  destruct (negb _ || negb _) eqn:E; [done|].
  apply orb_false_iff in E as [E1%negb_false_iff%Z.eqb_eq E2%negb_false_iff%Z.eqb_eq].
  rewrite !full_read by (unfold WEIGHT_BYTES, SCALE_BYTES in *; lia). rewrite interleave_rows by done.
  replace (start + n) with (Z.min (start + chunk_rows) hi) by lia. apply raw_write_ok.
Qed.

Lemma pack_chunks_ok starts dst dst' : 0 <= weight_off -> 0 <= scale_off ->
  (forall start, start ∈ starts -> 0 <= start <= Z.min (start + chunk_rows) hi) ->
  pack_chunks src rd wr weight_off scale_off hi chunk_rows starts dst = (dst', Ok ()) ->
  zlen dst' <= zlen dst + zlen (starts ≫= chunk_of) /\ (zlen dst' = zlen dst + zlen (starts ≫= chunk_of) -> dst' = dst ++ (starts ≫= chunk_of)).
Proof.
  intros Hw Hs. revert dst. induction starts as [|start starts IH]; intros dst Hst; cbn [pack_chunks mbind list_bind].
  { intros [= <-]. rewrite zlen_nil, app_nil_r. split; [lia | done]. }
  destruct (pack_chunk _ _ _ _ _ _ _ _ _) as [d|e] eqn:E; [|done]. intros H.
  pose proof (Hst start ltac:(by left)) as Hs0. apply pack_chunk_ok in E as [Hl He]; [|lia..].
  apply IH in H as [Hl' He']; [|intros x Hx; apply Hst; by right]. rewrite zlen_app.
  pose proof (zlen_nonneg (starts ≫= chunk_of)). split; [lia|]. intros Hf. rewrite He' by lia. rewrite He by lia. by rewrite <- app_assoc.
Qed.
End Chunks.

(** The chunks partition the rows. *)
Lemma chunks_partition hi chunk_rows k lo : 0 < chunk_rows -> lo <= hi -> 0 <= k -> k = cdiv (hi - lo) chunk_rows ->
  map (fun j => lo + j * chunk_rows) (zrange 0 k) ≫= chunk_of hi chunk_rows = zrange lo hi ≫= ckpt_row.
Proof.
  intros Hc Hle Hk. revert lo Hle. revert k Hk. refine (natlike_ind _ _ _).
  - intros lo Hle H. pose proof (cdiv_spec (hi - lo) chunk_rows Hc). rewrite !zrange_nil by lia. done.
  - intros k Hk IH lo Hle H. pose proof (cdiv_spec (hi - lo) chunk_rows Hc) as Hcd. rewrite <- H in Hcd. rewrite zrange_cons by lia. cbn [map mbind list_bind].
    rewrite Z.mul_0_l, Z.add_0_r. unfold chunk_of at 1. destruct (decide (k = 0)) as [->|Hk0]; [|assert (chunk_rows <= chunk_rows * k) by nia].
    + rewrite (zrange_nil (0 + 1)) by lia. cbn. rewrite app_nil_r, Z.min_r by lia. done.
    + rewrite Z.min_l by lia. rewrite (zrange_app lo (lo + chunk_rows) hi), bind_app by lia. f_equal.
      rewrite <- (IH (lo + chunk_rows)); [|lia|]. 2: { symmetry. apply cdiv_unique; lia. }
      replace (zrange (0 + 1) (Z.succ k)) with (map (fun i => 1 + i) (zrange 0 k)) by (rewrite <- zrange_shift; f_equal; lia).
      rewrite !bind_map. apply bind_ext. intros j _. f_equal. lia.
Qed.
End Rows.

Section PackLayer.
Context (src : list Z) (layer_id rows weight_off scale_off rank tp : Z).
#[local] Notation lo := (share_lo rows rank tp).
#[local] Notation hi := (share_hi rows rank tp).

Definition fields : list Z := [MAGIC; layer_id; lo; hi; rows; ROW_BYTES].
(** The first page of a shard, and a whole one. *)
Definition shard_head : list Z := (fields ≫= le_bytes 8) ++ replicate (Z.to_nat (HEADER_BYTES - zlen (fields ≫= le_bytes 8))) 0.
Definition shard : list Z := shard_head ++ (zrange lo hi ≫= ckpt_row src weight_off scale_off).

Lemma shard_head_length : zlen shard_head = HEADER_BYTES.
Proof. unfold shard_head. rewrite zlen_app, zlen_replicate. unfold fields. cbn [mbind list_bind]. unfold zlen. rewrite !length_app, !le_bytes_length. cbn. unfold HEADER_BYTES. lia. Qed.

Context (Hrank : 0 <= rank < tp) (Hin : tables_inside src weight_off scale_off rows) (Hrows : 0 <= rows).

Lemma share_ok : 0 <= lo <= hi /\ hi <= rows.
Proof.
  assert (rows * (rank + 1) <= rows * tp) by (apply Z.mul_le_mono_nonneg_l; lia).
  unfold share_lo, share_hi. split; [split|]; [apply Z.div_pos; nia | apply Z.div_le_mono; nia | apply Z.div_le_upper_bound; lia].
Qed.

Lemma rows_length : zlen (zrange lo hi ≫= ckpt_row src weight_off scale_off) = (hi - lo) * ROW_BYTES.
Proof.
  pose proof share_ok. rewrite (bind_sized _ _ ROW_BYTES); [rewrite zrange_length by lia; lia|].
  intros i Hi%zrange_elem. eapply ckpt_row_length; [done | lia].
Qed.

(** A shard the script made is the rank's rows as soon as it is long enough: a write that the
    system cut short would show in the size. *)
Lemma pack_layer_shard rd wr chunk_rows s s' :
  (forall t, target s = Some t -> zlen t <> HEADER_BYTES + (hi - lo) * ROW_BYTES) ->
  pack_layer src rd wr layer_id rows weight_off scale_off rank tp chunk_rows s = (s', Ok ()) ->
  exists t, target s' = Some t /\ (HEADER_BYTES + (hi - lo) * ROW_BYTES <= zlen t -> t = shard).
Proof.
  intros Hfresh. pose proof share_ok as Hsh. pose proof rows_length as Hlen. destruct Hin as (Hw & Hs & _). unfold pack_layer.
  assert (match target s with Some t => zlen t =? HEADER_BYTES + (hi - lo) * ROW_BYTES | None => false end = false) as ->.
  { destruct (target s) as [t|]; [|done]. apply Z.eqb_neq. by apply Hfresh. }
  unfold pack_Q. fold fields. destruct (forallb _ fields); [|done]. fold shard_head.
  destruct (raw_write wr [] shard_head) as [dst|] eqn:Ew; [|done]. apply raw_write_ok in Ew as [Hl He]. rewrite shard_head_length, zlen_nil, Z.add_0_l in Hl, He. cbn [app] in He.
  unfold range_step. destruct (chunk_rows =? 0) eqn:E0; [done|]. destruct (chunk_rows <? 0) eqn:E1.
  - cbn [pack_chunks]. intros [= <-]. exists dst. split; [done|]. unfold ROW_BYTES in *. intros Hge. unfold shard. rewrite zrange_nil by lia. rewrite app_nil_r. apply He. lia.
  - assert (Hc : 0 < chunk_rows) by lia. set (starts := map _ _). destruct (pack_chunks _ _ _ _ _ _ _ _ _) as [d [[]|e]] eqn:Ec; [|done].
    intros [= <-]. exists d. split; [done|]. assert (Hpos : 0 <= cdiv (hi - lo) chunk_rows).
    { pose proof (cdiv_spec (hi - lo) chunk_rows Hc). nia. }
    apply pack_chunks_ok in Ec as [Hl' He']; [|done..|].
    + unfold starts in Hl', He'. rewrite (chunks_partition _ _ _ hi chunk_rows) in Hl', He' by (done || lia). unfold shard.
      intros Hge. rewrite He' by lia. rewrite He by lia. done.
    + intros start (k & -> & Hk%zrange_elem)%list_elem_of_fmap. pose proof (cdiv_spec (hi - lo) chunk_rows Hc). nia.
Qed.

(** With descriptors that move what is asked of them, the script makes the whole shard. *)
Lemma pack_layer_completes rd wr chunk_rows s :
  (forall t, target s = Some t -> zlen t <> HEADER_BYTES + (hi - lo) * ROW_BYTES) ->
  (forall off n, 0 <= n -> n <= rd off n) -> (forall pos n, 0 <= n -> n <= wr pos n) -> 0 < chunk_rows ->
  Forall (fun v => 0 <= v < 2 ^ 64) fields ->
  pack_layer src rd wr layer_id rows weight_off scale_off rank tp chunk_rows s = (Slot (Some shard) None, Ok ()).
Proof.
  intros Hfresh Hrd Hwr Hc Hf. pose proof share_ok as Hsh. destruct Hin as (Hw & Hs & Hwe & Hse). unfold pack_layer.
  assert (match target s with Some t => zlen t =? HEADER_BYTES + (hi - lo) * ROW_BYTES | None => false end = false) as ->.
  { destruct (target s) as [t|]; [|done]. apply Z.eqb_neq. by apply Hfresh. }
  assert (HW : forall dst data, raw_write wr dst data = Ok (dst ++ data)).
  { intros dst data. unfold raw_write. specialize (Hwr (zlen dst) (zlen data) (zlen_nonneg _)). pose proof (zlen_nonneg data).
    rewrite (proj2 (Z.ltb_ge _ _)), Z.min_l by lia. by rewrite bytes_at_all. }
  assert (HR : forall off n, 0 <= off -> 0 <= n -> raw_read src rd off n = Ok (bytes_at src off n)).
  { intros off n Ho Hn. unfold raw_read. specialize (Hrd off n Hn). by rewrite (proj2 (Z.ltb_ge _ _)), Z.min_l by lia. }
  unfold pack_Q. fold fields. assert (forallb (fun v => (0 <=? v) && (v <? 2 ^ 64)) fields = true) as ->.
  { apply forallb_forall. intros v Hv%list_elem_of_In. rewrite Forall_forall in Hf. specialize (Hf v Hv). apply andb_true_iff. lia. }
  fold shard_head. rewrite HW. unfold range_step. rewrite (proj2 (Z.eqb_neq _ _)), (proj2 (Z.ltb_ge _ _)) by lia.
  assert (HC : forall starts dst, (forall start, start ∈ starts -> 0 <= start <= Z.min (start + chunk_rows) hi) ->
    pack_chunks src rd wr weight_off scale_off hi chunk_rows starts dst = (dst ++ (starts ≫= chunk_of src weight_off scale_off hi chunk_rows), Ok ())).
  { induction starts as [|start starts IH]; intros dst Hst; cbn [pack_chunks mbind list_bind]; [by rewrite app_nil_r|].
    pose proof (Hst start ltac:(by left)). unfold pack_chunk. set (n := Z.min (start + chunk_rows) hi - start).
    rewrite !HR by (unfold WEIGHT_BYTES, SCALE_BYTES; lia). cbn [mbind res_bind].
    rewrite !bytes_at_length, !Z.eqb_refl by (unfold WEIGHT_BYTES, SCALE_BYTES in *; lia). cbn [negb orb]. rewrite HW, interleave_rows by lia.
    replace (start + n) with (Z.min (start + chunk_rows) hi) by lia. rewrite IH by (intros; apply Hst; by right). by rewrite <- app_assoc. }
  assert (0 <= cdiv (hi - lo) chunk_rows) by (pose proof (cdiv_spec (hi - lo) chunk_rows Hc); nia).
  rewrite HC, (chunks_partition _ _ _ hi chunk_rows); [done | lia | lia | lia | done |].
  intros start (k & -> & Hk%zrange_elem)%list_elem_of_fmap. pose proof (cdiv_spec (hi - lo) chunk_rows Hc). nia.
Qed.
End PackLayer.
