(* ===== verification/EngramStore.v ===== *)
(** * The store of Engram rows (adapter/row_store.cpp, the opening in adapter/engram_backend.py)

    A store serves the rows of one Engram layer from the checkpoint's file, or from a packed
    shard (EngramPack) attached to it: opening with its extent checks and the geometry of the
    row cache, the rank's range with the pinned scales, the checks of a shard, and the reads
    of a miss.  A file is the list of its bytes; [pread] says how many bytes the last try of
    a read returns (negative: it failed), tries ended by [EINTR] being repeated.  [None] is the
    end of the process ([fail] aborts).  The lookups, with the cache and the thread pool, are in
    EngramPool; statistics, the drive's keepalive thread and closing are not modelled. *)
From S2P Require Import Prelude PyStr FastLoad EngramPrefetch EngramPack.
#[local] Open Scope string_scope.
#[local] Open Scope list_scope.
#[local] Open Scope Z_scope.

Definition kPage : Z := 4096.
Definition kSpan : Z := Z.shiftl 8 20.
Definition kPitch : Z := 4096 * 4.

Definition is_some {A} (o : option A) : bool := match o with Some _ => true | None => false end.

(** [env_flag]. *)
Definition env_flag (env : environ) (name : string) (fallback : bool) : bool :=
  match env name with
  | None => fallback
  | Some raw => if String.eqb raw "" then fallback else negb (one_of raw ["0"; "off"; "false"])
  end.

(** The fields of a store that a lookup only reads. *)
Record store := Store {
  rows : Z; weight_offset : Z; scale_offset : Z;
  row_lo : Z; row_hi : Z;
  sets : Z; ways : Z; slots : Z;
  resident : bool;                  (* OFFLOAD_MODE=ram: the whole file is mapped *)
  on_drm : bool;                    (* the cache lies on the display reservation *)
  scales : option (list Z);         (* the owned scale rows, pinned *)
  packed : option (list Z)          (* the attached shard *)
}.

(** ** Reads *)

(** What a read of [n] bytes at [off] puts into the buffer; [None] when it fails. *)
Definition read_page (file : list Z) (pread : Z -> Z -> Z) (off n : Z) : option (list Z) :=
  if pread off n <? 0 then None else Some (bytes_at file off (Z.min n (pread off n))).

(** The part of [offset, offset + length) in whole pages: where it starts and how much it is. *)
Definition page_base (offset : Z) : Z := Z.land offset (Z.lnot (kPage - 1)).
Definition requested (offset length : Z) : Z := (offset - page_base offset + length + kPage - 1) / kPage * kPage.

(** [read_from]; [mapped] when the store is resident and the descriptor is the checkpoint's. *)
Definition read_from (mapped : bool) (file : list Z) (pread : Z -> Z -> Z) (offset length : Z) : option (list Z) :=
  if mapped then Some (bytes_at file offset length)
  else
    let base := page_base offset in
    let delta := offset - base in
    match read_page file pread base (requested offset length) with
    | None => None
    | Some page => if zlen page <? delta + length then None else Some (bytes_at page delta length)
    end.

(** The miss of [fetch_row]: one read of the shard, or the weight's, and the scale pinned or read. *)
Definition disk_row (ckpt : list Z) (s : store) (pread : Z -> Z -> Z) (id : Z) : option (list Z) :=
  match packed s with
  | Some shard => read_from false shard pread (HEADER_BYTES + (id - row_lo s) * ROW_BYTES) ROW_BYTES
  | None =>
      match read_from (resident s) ckpt pread (weight_offset s + id * WEIGHT_BYTES) WEIGHT_BYTES with
      | None => None
      | Some w =>
          match scales s with
          | Some pinned => Some (w ++ bytes_at pinned ((id - row_lo s) * SCALE_BYTES) SCALE_BYTES)
          | None =>
              match read_from (resident s) ckpt pread (scale_offset s + id * SCALE_BYTES) SCALE_BYTES with
              | None => None
              | Some sc => Some (w ++ sc)
              end
          end
      end
  end.

(** ** Opening *)

(** [drm_cache]: does the row cache of [need] bytes go to the reservation of [bytes]?  [ioctls]
    says that the node made the buffer and it could be mapped. *)
Definition drm_cache (need bytes : Z) (node ioctls : bool) : bool :=
  negb (bytes =? 0) && node && (need <=? bytes) && (bytes mod (kPitch * 1024) =? 0) && ioctls.

Definition cache_ways (env_ways : Z) : Z := Z.max 1 (Z.min 16 env_ways).
Definition cache_sets (budget ways : Z) : Z := budget / ((ROW_BYTES + 8) * ways + 1).

(** [row_store_open] on an open file, with what is left of the reservation for the next store;
    [maps] says that every mapping (and lock) succeeds. *)
Definition row_store_open (ram maps : bool) (ckpt : list Z) (n woff soff budget env_ways drm : Z) (node ioctls : bool)
  : option (store * Z) :=
  let size := zlen ckpt in
  if (size <? woff) || (size <? soff) || ((size - woff) / WEIGHT_BYTES <? n) || ((size - soff) / SCALE_BYTES <? n) then None
  else if ram && negb maps then None
  else
    let w := cache_ways env_ways in
    let k := cache_sets (if ram then 0 else budget) w in
    if k * w =? 0 then Some (Store n woff soff 0 n k w (k * w) ram false None None, drm)
    else if negb maps then None
    else Some (Store n woff soff 0 n k w (k * w) ram (drm_cache (k * w * ROW_BYTES) drm node ioctls) None None, 0).

(** ** The rank's range *)

(** [memcpy(out + pos, data, ...)]. *)
Definition put (out : list Z) (pos : Z) (data : list Z) : list Z :=
  take (Z.to_nat pos) out ++ data ++ drop (Z.to_nat (pos + zlen data)) out.

(** The loop of [pin_scales] from [offset] on; [None] gives the attempt up. *)
Fixpoint pin_loop (fuel : nat) (ckpt : list Z) (pread : Z -> Z -> Z) (start stop offset : Z) (out : list Z) : option (list Z) :=
  if offset <? stop then
    match fuel with
    | O => None
    | S f =>
        let want := Z.min kSpan ((stop - offset + kPage - 1) / kPage * kPage) in
        match read_page ckpt pread offset want with
        | None | Some [] => None
        | Some buffer =>
            let lo := Z.max offset start in
            let hi := Z.min (offset + zlen buffer) stop in
            let out := if lo <? hi then put out (lo - start) (bytes_at buffer (lo - offset) (hi - lo)) else out in
            pin_loop f ckpt pread start stop (offset + zlen buffer) out
        end
    end
  else Some out.

(** [pin_scales]: the owned scale rows; [alloc] says that the memory is there. *)
Definition pin_scales (ckpt : list Z) (pread : Z -> Z -> Z) (alloc : bool) (s : store) : option (list Z) :=
  let count := row_hi s - row_lo s in
  if (count =? 0) || negb alloc then None
  else
    let bytes := count * SCALE_BYTES in
    let start := scale_offset s + row_lo s * SCALE_BYTES in
    if resident s then Some (bytes_at ckpt start bytes)
    else pin_loop (Z.to_nat (start + bytes - page_base start)) ckpt pread start (start + bytes) (page_base start)
           (replicate (Z.to_nat bytes) 0).

Definition set_range (s : store) (lo hi : Z) : store :=
  Store (rows s) (weight_offset s) (scale_offset s) lo hi (sets s) (ways s) (slots s) (resident s) (on_drm s) (scales s) (packed s).
Definition set_scales (s : store) (l : option (list Z)) : store :=
  Store (rows s) (weight_offset s) (scale_offset s) (row_lo s) (row_hi s) (sets s) (ways s) (slots s) (resident s) (on_drm s) l (packed s).
Definition set_packed (s : store) (l : option (list Z)) : store :=
  Store (rows s) (weight_offset s) (scale_offset s) (row_lo s) (row_hi s) (sets s) (ways s) (slots s) (resident s) (on_drm s) (scales s) l.

(** [row_store_range]. *)
Definition row_store_range (env : environ) (ckpt : list Z) (pread : Z -> Z -> Z) (alloc : bool) (s : store) (lo hi : Z) : option store :=
  if (hi <? lo) || (rows s <? hi) then None
  else if is_some (scales s) && (negb (lo =? row_lo s) || negb (hi =? row_hi s)) then None
  else
    let s := set_range s lo hi in
    if negb (is_some (scales s)) && (lo <? hi) && env_flag env "DSV41_RESIDENT_SCALES" true then
      match pin_scales ckpt pread alloc s with
      | Some l => Some (set_scales s (Some l))
      | None => Some s
      end
    else Some s.

(** ** Attaching a shard *)

(** The word at [8 * k] of a header. *)
Definition word (header : list Z) (k : Z) : Z := le_val (bytes_at header (8 * k) 8).

(** [row_store_attach_packed]; [None] for the file when it cannot be opened. *)
Definition row_store_attach_packed (file : option (list Z)) (pread : Z -> Z -> Z) (s : store) (layer_id : Z) : option store :=
  match file with
  | None => Some s
  | Some shard =>
      match read_page shard pread 0 kPage with
      | None => None
      | Some header =>
          if zlen header <? kPage then None
          else if negb (word header 0 =? MAGIC) || negb (word header 1 =? layer_id) || negb (word header 2 =? row_lo s)
               || negb (word header 3 =? row_hi s) || negb (word header 4 =? rows s) || negb (word header 5 =? ROW_BYTES) then None
          else if zlen shard <? HEADER_BYTES + (word header 3 - word header 2) * ROW_BYTES then None
          else Some (set_packed s (Some shard))
      end
  end.

(** ** The backend's opening *)

(** The entry point's look at the checkpoint: where the two tables of a layer start. *)
Definition table_offsets (index : list (string * string)) (open_header : string -> res (Z * header)) (layer_id num_embeddings : Z)
  : res (string * Z * Z) :=
  name ← hget index (prefix layer_id +:+ "weight");
  sname ← hget index (prefix layer_id +:+ "scale");
  _ ← py_assert (String.eqb name sname);
  lh ← open_header name;
  let '(length, h) := lh in
  w ← hget h (prefix layer_id +:+ "weight");
  s ← hget h (prefix layer_id +:+ "scale");
  _ ← py_assert (bool_decide (FastLoad.shape w = [num_embeddings; WEIGHT_BYTES]) && String.eqb (dtype w) "F8_E4M3");
  _ ← py_assert (bool_decide (FastLoad.shape s = [num_embeddings; SCALE_BYTES]) && String.eqb (dtype s) "F8_E8M0");
  Ok (name, 8 + length + (data_offsets w).1, 8 + length + (data_offsets s).1).

(** The machine a store opens on: the settings, the memory and what the reads of the start return. *)
Record machine := Machine {
  m_env : environ; m_ram : bool; m_maps : bool; m_alloc : bool; m_ways : Z; m_host_bytes : Z; m_nnodes : Z;
  m_drm : option Z;                 (* the pool, when this layer is to use the reservation *)
  m_ioctls : bool; m_pin : Z -> Z -> Z; m_head : Z -> Z -> Z;
  m_shard : option (list Z)         (* the packed shard of the layer and rank, when there is one *)
}.

(** [init] of the embedding after the offsets: open, take the range, attach the shard. *)
Definition store_budget (m : machine) (tp_size : Z) : Z :=
  let budget := cache_budget (m_host_bytes m) tp_size (m_nnodes m) in
  match m_drm m with Some pool => drm_budget budget pool | None => budget end.

Definition init (m : machine) (file : option (list Z)) (num_embeddings layer_id rank tp_size woff soff : Z) : option (res store) :=
  match file with
  | None => Some (Raise RuntimeError)
  | Some ckpt =>
      match row_store_open (m_ram m) (m_maps m) ckpt num_embeddings woff soff (store_budget m tp_size) (m_ways m)
              (default 0 (m_drm m)) (is_some (m_drm m)) (m_ioctls m) with
      | None => None
      | Some (s, _) =>
          match row_store_range (m_env m) ckpt (m_pin m) (m_alloc m) s (row_start num_embeddings rank tp_size) (row_end num_embeddings rank tp_size) with
          | None => None
          | Some s =>
              match m_shard m with
              | None => Some (Ok s)
              | Some shard => Ok <$> row_store_attach_packed (Some shard) (m_head m) s layer_id
              end
          end
      end
  end.

(** ** Reads return the file's bytes *)

Lemma page_base_spec offset : 0 <= offset -> 0 <= page_base offset <= offset /\ offset < page_base offset + kPage.
Proof.
  intros Ho. unfold page_base. change (kPage - 1) with (Z.ones 12). rewrite <- Z.ldiff_land, Z.ldiff_ones_r by lia.
  rewrite Z.shiftl_mul_pow2, Z.shiftr_div_pow2 by lia. change (2 ^ 12) with 4096. unfold kPage.
  pose proof (Z.div_mod offset 4096). pose proof (Z.mod_pos_bound offset 4096). pose proof (Z.div_pos offset 4096). lia.
Qed.

Lemma requested_spec offset length : 0 <= offset -> 0 <= length ->
  offset - page_base offset + length <= requested offset length < offset - page_base offset + length + kPage.
Proof.
  intros Ho Hl. unfold requested. set (d := offset - page_base offset + length). unfold kPage.
  pose proof (Z.div_mod (d + 4096 - 1) 4096). pose proof (Z.mod_pos_bound (d + 4096 - 1) 4096). lia.
Qed.

(** A row's read fits the two pages of the buffer. *)
Lemma requested_fits offset length : 0 <= offset -> 0 <= length <= ROW_BYTES -> requested offset length <= 2 * kPage.
Proof.
  intros Ho Hl. pose proof (page_base_spec offset Ho). unfold requested. unfold ROW_BYTES, kPage in *.
  assert ((offset - page_base offset + length + 4096 - 1) / 4096 < 3); [|lia]. apply Z.div_lt_upper_bound; lia.
Qed.

Lemma read_page_ok file pread off n page : read_page file pread off n = Some page ->
  exists m, m <= n /\ page = bytes_at file off m /\ zlen page <= Z.max 0 m.
Proof.
  unfold read_page. case_match; [done|]. intros [= <-]. exists (Z.min n (pread off n)). split; [lia|]. split; [done|]. apply bytes_at_short.
Qed.

Lemma read_from_exact mapped file pread offset length r : 0 <= offset -> 0 <= length ->
  read_from mapped file pread offset length = Some r -> r = bytes_at file offset length.
Proof.
  intros Ho Hl. unfold read_from. destruct mapped; [by intros [= <-]|]. pose proof (page_base_spec offset Ho).
  destruct (read_page _ _ _ _) as [page|] eqn:E; [|done]. apply read_page_ok in E as (m & Hm & -> & Hz).
  destruct (_ <? _) eqn:E; [done|]. intros [= <-]. apply Z.ltb_ge in E.
  destruct (decide (length = 0)) as [->|]; [unfold bytes_at; done|]. rewrite bytes_at_sub by lia. f_equal. lia.
Qed.

(** A read of bytes the file has fails only when the system returns less than asked for. *)
Lemma read_from_fails mapped file pread offset length : 0 <= offset -> 0 <= length -> offset + length <= zlen file ->
  read_from mapped file pread offset length = None -> exists off n, 0 <= n /\ pread off n < n.
Proof.
  intros Ho Hl Hin. unfold read_from. destruct mapped; [done|]. pose proof (page_base_spec offset Ho) as Hb.
  pose proof (requested_spec offset length Ho Hl) as Hr. unfold read_page.
  destruct (decide (requested offset length <= pread (page_base offset) (requested offset length))) as [Hp|]; [|intros _; exists (page_base offset), (requested offset length); lia].
  rewrite (proj2 (Z.ltb_ge _ _)), Z.min_l by lia.
  assert (offset - page_base offset + length <= zlen (bytes_at file (page_base offset) (requested offset length))).
  { unfold bytes_at, zlen in *. rewrite length_take, length_drop. lia. }
  by rewrite (proj2 (Z.ltb_ge _ _)) by lia.
Qed.

(** ** Pinning *)

Lemma put_length out pos data : 0 <= pos -> pos + zlen data <= zlen out -> zlen (put out pos data) = zlen out.
Proof. intros Hp Hl. unfold put, zlen in *. rewrite !length_app, length_take, length_drop. lia. Qed.

(** A store right after the prefix that is already right extends it. *)
Lemma put_prefix out pos data file start : 0 <= pos -> 0 <= start -> pos + zlen data <= zlen out ->
  bytes_at out 0 pos = bytes_at file start pos -> data = bytes_at file (start + pos) (zlen data) ->
  bytes_at (put out pos data) 0 (pos + zlen data) = bytes_at file start (pos + zlen data).
Proof.
  intros Hp Hs Hl Hpre Hd. pose proof (zlen_nonneg data). rewrite (bytes_at_app file), <- Hd, <- Hpre by lia. unfold put, bytes_at. cbn [drop].
  rewrite app_assoc. change (drop (Z.to_nat 0) ?l) with l. apply take_app_length'. unfold zlen in *. rewrite length_app, length_take. lia.
Qed.

Section Pin.
Context (ckpt : list Z) (pread : Z -> Z -> Z) (start stop : Z) (Hstart : 0 <= start) (Hstop : start <= stop).
(** How much of the range lies before an offset. *)
Definition before (offset : Z) : Z := Z.min (stop - start) (Z.max 0 (offset - start)).

Lemma pin_loop_ok fuel offset out r : 0 <= offset -> zlen out = stop - start ->
  bytes_at out 0 (before offset) = bytes_at ckpt start (before offset) ->
  pin_loop fuel ckpt pread start stop offset out = Some r -> r = bytes_at ckpt start (stop - start).
Proof.
  revert offset out. induction fuel as [|fuel IH]; intros offset out Ho Hl Hpre; cbn [pin_loop]; destruct (offset <? stop) eqn:E; [done | | |].
  1, 3: intros [= <-]; unfold before in Hpre; replace (Z.min _ _) with (stop - start) in Hpre by lia; by rewrite bytes_at_all in Hpre by lia.
  apply Z.ltb_lt in E. destruct (read_page _ _ _ _) as [buffer|] eqn:Er; [|done]. destruct buffer as [|b0 bs] eqn:Eb; [done|]. rewrite <- Eb in *.
  assert (Hpos : 0 < zlen buffer) by (subst buffer; rewrite zlen_cons; pose proof (zlen_nonneg bs); lia). clear Eb b0 bs.
  apply read_page_ok in Er as (m & _ & Hbuf & Hz). assert (Hmz : zlen buffer <= m) by lia. clear Hz.
  destruct (Z.max offset start <? _) eqn:E2.
  - apply Z.ltb_lt in E2. set (lo := Z.max offset start) in *. set (hi := Z.min (offset + zlen buffer) stop) in *.
    assert (Hd : bytes_at buffer (lo - offset) (hi - lo) = bytes_at ckpt lo (hi - lo)).
    { rewrite Hbuf, bytes_at_sub by lia. f_equal. lia. }
    assert (Hdl : zlen (bytes_at buffer (lo - offset) (hi - lo)) = hi - lo) by (apply bytes_at_length; lia).
    assert (Hlb : before offset = lo - start) by (unfold before; lia). rewrite Hlb in Hpre.
    assert (Hhb : before (offset + zlen buffer) = lo - start + (hi - lo)) by (unfold before; lia).
    apply IH; [lia | rewrite put_length; lia |]. rewrite Hhb.
    set (data := bytes_at buffer _ _) in *. clearbody data. rewrite <- Hdl. apply put_prefix; [lia | lia | lia | done |].
    rewrite Hdl, Hd. f_equal. lia.
  - apply Z.ltb_ge in E2. assert (before (offset + zlen buffer) = before offset) as Hb by (unfold before; lia). apply IH; [lia | done | by rewrite Hb].
Qed.

(** A round that goes on has read a byte: more fuel than bytes changes nothing. *)
Lemma pin_loop_fuel fuel more offset out : stop - offset <= Z.of_nat fuel ->
  pin_loop (fuel + more) ckpt pread start stop offset out = pin_loop fuel ckpt pread start stop offset out.
Proof.
  revert offset out. induction fuel as [|fuel IH]; intros offset out Hf.
  - destruct more as [|more]; [done|]. cbn. by rewrite (proj2 (Z.ltb_ge _ _)) by lia.
  - cbn [Nat.add pin_loop]. destruct (offset <? stop); [|done]. destruct (read_page _ _ _ _) as [[|b bs]|]; [done| |done].
    apply IH. rewrite zlen_cons. pose proof (zlen_nonneg bs). lia.
Qed.
End Pin.

Lemma pin_scales_ok ckpt pread alloc s l : 0 <= scale_offset s -> 0 <= row_lo s <= row_hi s -> pin_scales ckpt pread alloc s = Some l ->
  l = bytes_at ckpt (scale_offset s + row_lo s * SCALE_BYTES) ((row_hi s - row_lo s) * SCALE_BYTES).
Proof.
  intros Hs Hr. unfold pin_scales. destruct (_ || _); [done|]. destruct (resident s); [by intros [= <-]|].
  set (start := scale_offset s + row_lo s * SCALE_BYTES). set (n := (row_hi s - row_lo s) * SCALE_BYTES).
  assert (0 <= start) by (unfold start, SCALE_BYTES; lia). assert (0 <= n) by (unfold n, SCALE_BYTES; lia). pose proof (page_base_spec start ltac:(lia)).
  intros H'. apply pin_loop_ok in H'; [subst l; f_equal; lia | lia | lia | lia | rewrite zlen_replicate; lia |].
  unfold before. rewrite Z.max_l, Z.min_r by lia. unfold bytes_at. done.
Qed.

(** ** What an open store promises *)

Lemma open_ok ram maps ckpt n woff soff budget env_ways drm node ioctls s drm' : 0 <= n -> 0 <= woff -> 0 <= soff ->
  row_store_open ram maps ckpt n woff soff budget env_ways drm node ioctls = Some (s, drm') ->
  tables_inside ckpt woff soff n /\ rows s = n /\ weight_offset s = woff /\ scale_offset s = soff /\ scales s = None /\ packed s = None /\ resident s = ram.
Proof.
  intros Hn Hw Hs. unfold row_store_open, WEIGHT_BYTES, SCALE_BYTES. destruct (_ || _) eqn:E; [done|].
  assert (tables_inside ckpt woff soff n).
  { repeat (apply orb_false_iff in E as [E ?]). unfold tables_inside, WEIGHT_BYTES, SCALE_BYTES in *.
    pose proof (Z.div_mod (zlen ckpt - woff) 256). pose proof (Z.mod_pos_bound (zlen ckpt - woff) 256).
    pose proof (Z.div_mod (zlen ckpt - soff) 8). pose proof (Z.mod_pos_bound (zlen ckpt - soff) 8). lia. }
  destruct (ram && negb maps); [done|]. destruct (_ =? 0); [by intros [= <- <-]|]. destruct (negb maps); [done|]. by intros [= <- <-].
Qed.

(** The cache's rows and keys, and a byte per set, fit the budget, and on the reservation its rows
    fit what is left of that. *)
Lemma open_geometry ram maps ckpt n woff soff budget env_ways drm node ioctls s drm' : 0 <= budget ->
  row_store_open ram maps ckpt n woff soff budget env_ways drm node ioctls = Some (s, drm') ->
  1 <= ways s <= 16 /\ 0 <= sets s /\ slots s = sets s * ways s /\ slots s * (ROW_BYTES + 8) + sets s <= budget /\
  (on_drm s = true -> slots s * ROW_BYTES <= drm /\ drm' = 0).
Proof.
  intros Hb. unfold row_store_open. destruct (_ || _ || _ || _); [done|]. destruct (ram && negb maps); [done|].
  assert (Hw : 1 <= cache_ways env_ways <= 16) by (unfold cache_ways; lia). set (w := cache_ways env_ways) in *.
  set (bud := if ram then 0 else budget). assert (Hbud : 0 <= bud <= budget) by (unfold bud; destruct ram; lia).
  assert (Hk : 0 <= cache_sets bud w) by (apply Z.div_pos; unfold ROW_BYTES; lia).
  assert (Hk2 : cache_sets bud w * w * (ROW_BYTES + 8) + cache_sets bud w <= budget).
  { pose proof (Z.mul_div_le bud ((ROW_BYTES + 8) * w + 1) ltac:(unfold ROW_BYTES; lia)). unfold cache_sets, ROW_BYTES in *. lia. }
  fold bud. destruct (_ =? 0) eqn:E; [by intros [= <- <-]|]. destruct (negb maps); [done|]. intros [= <- <-]. cbn. repeat split; try lia; try done.
  unfold drm_cache in *. blia.
Qed.

Lemma range_ok env ckpt pread alloc s lo hi s' : row_store_range env ckpt pread alloc s lo hi = Some s' -> scales s = None ->
  (rows s' = rows s /\ weight_offset s' = weight_offset s /\ scale_offset s' = scale_offset s /\ packed s' = packed s /\ resident s' = resident s)
  /\ row_lo s' = lo /\ row_hi s' = hi /\ lo <= hi <= rows s /\
  (0 <= scale_offset s -> 0 <= lo -> forall l, scales s' = Some l -> l = bytes_at ckpt (scale_offset s + lo * SCALE_BYTES) ((hi - lo) * SCALE_BYTES)).
Proof.
  unfold row_store_range. destruct (_ || _) eqn:E; [done|]. intros H Hs. cbn [set_range scales] in H. rewrite Hs in H. cbn [is_some andb negb] in H.
  destruct ((lo <? hi) && env_flag _ _ _); [destruct (pin_scales _ _ _ _) as [l|] eqn:Ep|]; injection H as <-; cbn; repeat split; try lia; rewrite ?Hs; try done.
  intros Ho Hlo l' [= <-]. apply pin_scales_ok in Ep; cbn in *; [done | lia | lia].
Qed.

Lemma attach_ok file pread s layer_id s' : row_store_attach_packed file pread s layer_id = Some s' ->
  s' = s \/ exists t, file = Some t /\ s' = set_packed s (Some t) /\ HEADER_BYTES + (row_hi s - row_lo s) * ROW_BYTES <= zlen t.
Proof.
  unfold row_store_attach_packed. destruct file as [t|]; [|intros [= <-]; by left]. destruct (read_page _ _ _ _) as [header|]; [|done].
  destruct (zlen header <? kPage); [done|]. destruct (_ || _) eqn:E; [done|]. destruct (zlen t <? _) eqn:E2; [done|]. intros [= <-].
  right. exists t. split; [done|]. split; [done|]. repeat (apply orb_false_iff in E as [E ?]). unfold ROW_BYTES in *. blia.
Qed.

(** A shard that some run of the script made of a checkpoint's file, and did not find there. *)
Definition made_by_pack (ckpt : list Z) (layer_id n woff soff rank tp : Z) (t : list Z) : Prop :=
  exists rd wr chunk_rows before after,
    (forall t0, target before = Some t0 -> zlen t0 <> HEADER_BYTES + (share_hi n rank tp - share_lo n rank tp) * ROW_BYTES) /\
    pack_layer ckpt rd wr layer_id n woff soff rank tp chunk_rows before = (after, Ok ()) /\ target after = Some t.

(** What [fetch_row] needs of a store: its reads give the rows of the checkpoint. *)
Record serves (ckpt : list Z) (woff soff n : Z) (s : store) : Prop := Serves {
  sv_inside : tables_inside ckpt woff soff n;
  sv_rows : rows s = n;
  sv_range : 0 <= row_lo s <= row_hi s /\ row_hi s <= n;
  sv_row : forall pread id row, row_lo s <= id < row_hi s -> disk_row ckpt s pread id = Some row -> row = ckpt_row ckpt woff soff id;
  sv_fails : forall pread id, row_lo s <= id < row_hi s -> disk_row ckpt s pread id = None -> exists off k, 0 <= k /\ pread off k < k
}.

(** Reading a row of a whole shard. *)
Lemma shard_row ckpt layer_id n woff soff rank tp id : 0 <= rank < tp -> tables_inside ckpt woff soff n -> 0 <= n ->
  share_lo n rank tp <= id < share_hi n rank tp ->
  bytes_at (shard ckpt layer_id n woff soff rank tp) (HEADER_BYTES + (id - share_lo n rank tp) * ROW_BYTES) ROW_BYTES = ckpt_row ckpt woff soff id.
Proof.
  intros Hr Hin Hn Hid. pose proof (share_ok n rank tp Hr Hn). pose proof (shard_head_length layer_id n rank tp) as Hh.
  assert (forall x, share_lo n rank tp <= x < share_hi n rank tp -> zlen (ckpt_row ckpt woff soff x) = ROW_BYTES).
  { intros x Hx. eapply ckpt_row_length; [done | lia]. }
  rewrite <- (record_at (ckpt_row ckpt woff soff) ROW_BYTES (share_lo n rank tp) (share_hi n rank tp)); [|done..].
  unfold shard, bytes_at, zlen, ROW_BYTES, HEADER_BYTES in *. rewrite Z2Nat.inj_add, <- drop_drop by lia. by rewrite drop_app_length' by lia.
Qed.

(** The reads of a row from the checkpoint, the scale pinned or not. *)
Lemma unpacked_row ckpt woff soff n s pread id row : tables_inside ckpt woff soff n -> 0 <= row_lo s -> row_hi s <= n ->
  weight_offset s = woff -> scale_offset s = soff -> packed s = None ->
  (forall l, scales s = Some l -> l = bytes_at ckpt (soff + row_lo s * SCALE_BYTES) ((row_hi s - row_lo s) * SCALE_BYTES)) ->
  row_lo s <= id < row_hi s -> disk_row ckpt s pread id = Some row -> row = ckpt_row ckpt woff soff id.
Proof.
  intros (Hw & Hs & _) Hlo Hhi Hwo Hso Hp Hsc Hid. unfold disk_row. rewrite Hp, Hwo, Hso.
  destruct (read_from _ _ _ (woff + _) _) as [w|] eqn:Ew; [|done]. apply read_from_exact in Ew; [|unfold WEIGHT_BYTES; lia..]. subst w.
  destruct (scales s) as [l|] eqn:El.
  - intros [= <-]. rewrite (Hsc l eq_refl). unfold ckpt_row. f_equal. unfold SCALE_BYTES. rewrite bytes_at_sub by lia. f_equal. lia.
  - destruct (read_from _ _ _ (soff + _) _) as [sc|] eqn:Es; [|done]. intros [= <-]. apply read_from_exact in Es; [|unfold SCALE_BYTES; lia..]. by subst sc.
Qed.

Lemma unpacked_fails ckpt woff soff n s pread id : tables_inside ckpt woff soff n -> 0 <= row_lo s -> row_hi s <= n ->
  weight_offset s = woff -> scale_offset s = soff -> packed s = None ->
  row_lo s <= id < row_hi s -> disk_row ckpt s pread id = None -> exists off k, 0 <= k /\ pread off k < k.
Proof.
  intros (Hw & Hs & Hwe & Hse) Hlo Hhi Hwo Hso Hp Hid. unfold disk_row, WEIGHT_BYTES, SCALE_BYTES in *. rewrite Hp, Hwo, Hso.
  destruct (read_from _ _ _ (woff + _) _) as [w|] eqn:Ew; [|intros _; eapply read_from_fails in Ew; [done | lia..]].
  destruct (scales s); [done|]. destruct (read_from _ _ _ (soff + _) _) as [w'|] eqn:Es; [done|]. intros _. eapply read_from_fails in Es; [done | lia..].
Qed.

(** A store that opened serves its checkpoint, also from a shard. *)
Lemma init_serves m ckpt n layer_id rank tp woff soff s :
  0 <= rank < tp -> 0 <= n -> 0 <= woff -> 0 <= soff ->
  (forall t, m_shard m = Some t -> made_by_pack ckpt layer_id n woff soff rank tp t) ->
  init m (Some ckpt) n layer_id rank tp woff soff = Some (Ok s) ->
  serves ckpt woff soff n s /\ row_lo s = row_start n rank tp /\ row_hi s = row_end n rank tp.
Proof.
  intros Hr Hn Hw Hso Hshard. unfold init. destruct (row_store_open _ _ _ _ _ _ _ _ _ _ _) as [[s0 drm']|] eqn:Eo; [|done].
  apply open_ok in Eo as (Hin & Hrows & Hwo & Hsof & Hsc & Hpk & _); [|done..].
  pose proof (share_ok n rank tp Hr Hn) as Hsh. destruct (row_store_range _ _ _ _ _ _ _) as [s1|] eqn:Er; [|done].
  apply range_ok in Er as ((Hr1 & Hw1 & Hs1 & Hp1 & _) & Hlo & Hhi & _ & Hpin); [|done]. unfold row_start, row_end in *. fold (share_lo n rank tp) in *. fold (share_hi n rank tp) in *.
  assert (Hplain : serves ckpt woff soff n s1).
  { split; [done | congruence | lia | |].
    - intros pread id row Hid. eapply unpacked_row; try done; try congruence; [lia | lia |]. intros l Hl. rewrite Hlo, Hhi, <- Hsof. apply Hpin; [lia | lia | done].
    - intros pread id Hid. eapply unpacked_fails; try done; try congruence; lia. }
  destruct (m_shard m) as [t|] eqn:Et; [|intros [= <-]; done]. destruct (row_store_attach_packed _ _ _ _) as [s2|] eqn:Ea; [|done].
  intros [= <-]. apply attach_ok in Ea as [->|(t' & [= <-] & -> & Hz)]; [done|]. cbn [row_lo row_hi set_packed]. split; [|done].
  destruct (Hshard t eq_refl) as (rd & wr & chunk & bf & af & Hfresh & Hpack & Ht). rewrite Hlo, Hhi in Hz.
  apply pack_layer_shard in Hpack as (t2 & Ht2 & Hfull); [|done..]. assert (t2 = t) as -> by congruence. specialize (Hfull Hz). subst t.
  destruct Hplain as [H1 H2 H3 _ _]. split; [done | done | done | |]; cbn [row_lo row_hi set_packed]; rewrite Hlo, Hhi; unfold disk_row; cbn [packed set_packed row_lo]; rewrite Hlo.
  - intros pread id row Hid Hrow. apply read_from_exact in Hrow; [|unfold HEADER_BYTES, ROW_BYTES; lia..]. subst row. by apply shard_row.
  - intros pread id Hid. apply read_from_fails; unfold HEADER_BYTES, ROW_BYTES in *; lia.
Qed.

(** ** A small checkpoint, its shard and its store *)

Definition demo_ckpt (seed : Z) : list Z := map (fun k => (k * 7 + seed) mod 251) (zrange 0 540).
Definition demo_full (off n : Z) : Z := n.
Definition demo_shard (seed : Z) : list Z :=
  default [] (target (pack_layer (demo_ckpt seed) demo_full demo_full 14 2 8 520 1 2 1 (Slot None None)).1).
Definition demo_machine (t : option (list Z)) : machine :=
  Machine (fun _ => None) false true true 4 (2 ^ 20) 1 None false demo_full demo_full t.
Definition demo_store (seed : Z) (t : option (list Z)) : store :=
  match init (demo_machine t) (Some (demo_ckpt seed)) 2 14 1 2 8 520 with Some (Ok s) => s | _ => Store 0 0 0 0 0 0 1 0 false false None None end.

Lemma demo_made seed : seed = 0 \/ seed = 1 -> made_by_pack (demo_ckpt seed) 14 2 8 520 1 2 (demo_shard seed).
Proof.
  intros Hs. exists demo_full, demo_full, 1, (Slot None None), (Slot (Some (demo_shard seed)) None).
  split; [done|]. split; [|done]. destruct Hs as [-> | ->]; by vm_compute.
Qed.

(** C22: An opened store gives, for every row its rank owns, the 256 bytes of weight and 8 of scale
    the checkpoint has for it, whether the row comes from the checkpoint by two reads, by one
    with the scale pinned, or from an attached shard that the pack script made of this checkpoint,
    even if the script's writes were cut short; and no read fails when the system reads in full. *)
Theorem packed_rows_exact m ckpt n layer_id rank tp woff soff s :
  0 <= rank < tp -> 0 <= n -> 0 <= woff -> 0 <= soff ->
  (forall t, m_shard m = Some t -> made_by_pack ckpt layer_id n woff soff rank tp t) ->
  init m (Some ckpt) n layer_id rank tp woff soff = Some (Ok s) ->
  row_lo s = row_start n rank tp /\ row_hi s = row_end n rank tp /\
  forall pread id, row_start n rank tp <= id < row_end n rank tp ->
    (forall row, disk_row ckpt s pread id = Some row -> row = ckpt_row ckpt woff soff id) /\
    ((forall off k, 0 <= k -> k <= pread off k) -> disk_row ckpt s pread id = Some (ckpt_row ckpt woff soff id)).
Proof.
  intros Hr Hn Hw Hs Hsh Hi. destruct (init_serves _ _ _ _ _ _ _ _ _ Hr Hn Hw Hs Hsh Hi) as ([_ _ _ Hrow Hfail] & Hlo & Hhi).
  split; [done|]. split; [done|]. intros pread id Hid. rewrite <- Hlo, <- Hhi in Hid. split; [by intros row; apply Hrow|].
  intros Hrd. destruct (disk_row ckpt s pread id) as [row|] eqn:Hd; [f_equal; by apply (Hrow pread)|].
  destruct (Hfail pread id Hid Hd) as (off & k & Hk & Hlt). specialize (Hrd off k Hk). lia.
Qed.

Lemma packed_rows_exact_witness :
  is_some (packed (demo_store 0 (Some (demo_shard 0)))) = true /\
  disk_row (demo_ckpt 0) (demo_store 0 (Some (demo_shard 0))) demo_full 1 = Some (ckpt_row (demo_ckpt 0) 8 520 1).
Proof.
  split; [by vm_compute|].
  refine (proj2 (proj2 (proj2 (packed_rows_exact (demo_machine (Some (demo_shard 0))) (demo_ckpt 0) 2 14 1 2 8 520 _ _ _ _ _ _ _)) demo_full 1 _) _);
    [lia | lia | lia | lia | intros t [= <-]; apply demo_made; by left | by vm_compute | by vm_compute | intros; unfold demo_full; lia].
Defined.

(** A shard made of another checkpoint of the same geometry passes every check and is served:
    only the range, the layer and the number of rows are compared. *)
Theorem stale_shard_served :
  is_some (packed (demo_store 1 (Some (demo_shard 0)))) = true /\
  disk_row (demo_ckpt 1) (demo_store 1 (Some (demo_shard 0))) demo_full 1 = Some (ckpt_row (demo_ckpt 0) 8 520 1) /\
  ckpt_row (demo_ckpt 0) 8 520 1 <> ckpt_row (demo_ckpt 1) 8 520 1.
Proof. split; [by vm_compute|]. split; [by vm_compute|]. by vm_compute. Qed.

(** The row cache of an opened store (its rows, its keys and a byte per set) takes no more than
    this rank's and layer's share of the host's budget, and on the display reservation its rows fit
    the pool. *)
Theorem row_cache_bounded m ckpt n layer_id rank tp woff soff s :
  0 <= m_host_bytes m -> (forall pool, m_drm m = Some pool -> 0 <= pool) ->
  init m (Some ckpt) n layer_id rank tp woff soff = Some (Ok s) ->
  slots s * (ROW_BYTES + 8) + sets s <= cache_budget (m_host_bytes m) tp (m_nnodes m) /\
  forall pool, m_drm m = Some pool -> slots s * ROW_BYTES <= pool.
Proof.
  intros Hh Hp. unfold init. destruct (row_store_open _ _ _ _ _ _ _ _ _ _ _) as [[s0 drm']|] eqn:Eo; [|done].
  assert (Hc : 0 <= cache_budget (m_host_bytes m) tp (m_nnodes m)) by (apply Z.div_pos; lia).
  assert (Hb : 0 <= store_budget m tp <= cache_budget (m_host_bytes m) tp (m_nnodes m)
               /\ forall pool, m_drm m = Some pool -> store_budget m tp * 264 <= pool * 272).
  { unfold store_budget, drm_budget. destruct (m_drm m) as [pool|]; [|done]. specialize (Hp pool eq_refl).
    assert (0 <= pool * 272 / 264) by (apply Z.div_pos; lia). split; [lia|]. intros ? [= <-]. pose proof (Z.mul_div_le (pool * 272) 264). lia. }
  apply open_geometry in Eo as (Hw & Hk & Hsl & Hle & _); [|lia].
  assert (Hs0 : slots s0 * (ROW_BYTES + 8) + sets s0 <= cache_budget (m_host_bytes m) tp (m_nnodes m)
                /\ forall pool, m_drm m = Some pool -> slots s0 * ROW_BYTES <= pool).
  { split; [lia|]. intros pool Hpool. destruct Hb as [_ Hb]. specialize (Hb pool Hpool). unfold ROW_BYTES in *. lia. }
  destruct (row_store_range _ _ _ _ _ _ _) as [s1|] eqn:Er; [|done].
  assert (H1 : slots s1 = slots s0 /\ sets s1 = sets s0).
  { unfold row_store_range in Er. destruct (_ || _); [done|]. destruct (_ && (_ || _)); [done|]. destruct (_ && _); [destruct (pin_scales _ _ _ _)|]; by injection Er as <-. }
  assert (HF : forall s', slots s' = slots s1 -> sets s' = sets s1 -> slots s' * (ROW_BYTES + 8) + sets s' <= cache_budget (m_host_bytes m) tp (m_nnodes m)
                /\ forall pool, m_drm m = Some pool -> slots s' * ROW_BYTES <= pool).
  { destruct H1 as [H1 H2]. intros s' Ha Hb'. by rewrite Ha, Hb', H1, H2. }
  destruct (m_shard m) as [t|]; [|intros [= <-]; by apply HF].
  destruct (row_store_attach_packed _ _ _ _) as [s2|] eqn:Ea; [|done]. intros [= <-]. apply attach_ok in Ea as [->|(? & _ & -> & _)]; by apply HF.
Qed.

Lemma row_cache_bounded_witness : slots (demo_store 0 None) * (ROW_BYTES + 8) + sets (demo_store 0 None) <= cache_budget (2 ^ 20) 2 1.
Proof.
  refine (proj1 (row_cache_bounded (demo_machine None) (demo_ckpt 0) 2 14 1 2 8 520 (demo_store 0 None) _ _ _)); [by vm_compute | done | by vm_compute].
Defined.
