(* ===== verification/EngramPool.v ===== *)
(** * Looking rows up: the cache and the thread pool (adapter/row_store.cpp)

    [row_store_lookup] serves a list of ids into the buffers of a [Work], on its own or with the
    process's pool of threads: the caller publishes the job, everyone draws tickets from one
    counter, and the caller returns when all tickets are done and every worker has left.  The
    threads share the set-associative cache of the store.  A run is any interleaving of the
    steps of [exec]; memory is sequentially consistent.  A step is one access to what other
    threads may touch: a critical section of a set's lock, or one of [mutex_] that touches at
    most one thing outside the lock's protection, is one step ([mutex_] is held over several
    only when a job is published).  Counters for the statistics are not modelled; the pool is
    never destroyed. *)
From S2P Require Import Prelude EngramPack EngramStore.
#[local] Open Scope list_scope.
#[local] Open Scope Z_scope.

Definition kChunk : Z := 1.
Definition kSerialBelow : Z := 8.

(** ** The row cache *)

Record cache := Cache { keys : list Z; lines : list (list Z); victim : list Z }.

Definition at_z (l : list Z) (i : Z) : Z := default 0 (l !! Z.to_nat i).

(** The way of the id's set that holds it; 0 marks an empty way. *)
Definition find_way (s : store) (c : cache) (id : Z) : option Z :=
  let base := id mod sets s * ways s in
  find (fun w => at_z (keys c) (base + w) =? id + 1) (zrange 0 (ways s)).

Definition probe (s : store) (c : cache) (id : Z) : option (list Z) :=
  match find_way s c id with
  | Some w => lines c !! Z.to_nat (id mod sets s * ways s + w)
  | None => None
  end.

(** Put a row in the place of the set's victim. *)
Definition fill (s : store) (c : cache) (id : Z) (row : list Z) : cache :=
  let set := id mod sets s in
  let w := at_z (victim c) set mod ways s in
  let slot := Z.to_nat (set * ways s + w) in
  Cache (<[slot := id + 1]> (keys c)) (<[slot := row]> (lines c))
        (<[Z.to_nat set := (at_z (victim c) set + 1) mod ways s mod 256]> (victim c)).

(** ** Lookups and threads *)

Record work := Work { ids : list Z; w_out : list Z; s_out : list Z }.
Definition count (k : work) : Z := zlen (ids k).
(** [(work->count + kChunk - 1) / kChunk]. *)
Definition chunks_of (k : work) : Z := (count k + kChunk - 1) / kChunk.

(** Who is serving: a lookup on its own, the caller of a pooled lookup, or a worker. *)
Inductive role := Serial | Caller | Worker (seen : Z).
(** The frame of a [serve]: for whom, which lookup, and the ticket in [drain]. *)
Record frame := Frame { f_role : role; f_work : nat; f_ticket : Z }.

Inductive pc :=
  | Ready                                               (* no lookup yet *)
  | Lookup (w : nat)
  | Serialize (w : nat)                                 (* at [caller_] *)
  | Publish (k : nat) (w : nat)                         (* at [mutex_], then inside *)
  | Notify (w : nat)
  | Wait (w : nat)                                      (* at the predicate of [done_] *)
  | Asleep (w : nat)
  | Release (w : nat)                                   (* about to give [caller_] up *)
  | Returned (w : nat)
  | Check (seen : Z)                                    (* a worker at the predicate of [ready_] *)
  | Sleep (seen : Z)
  | Leave (seen : Z)
  | Fetch (f : frame)
  | Test (f : frame)
  | Serve (f : frame) (i e : Z)
  | Probe (f : frame) (i e id : Z)
  | Read (f : frame) (i e id : Z)
  | Fill (f : frame) (i e id : Z) (row : list Z)
  | CopyW (f : frame) (i e : Z) (row : list Z)
  | CopyS (f : frame) (i e : Z) (row : list Z)
  | Finish (f : frame)
  | Signal (f : frame).

Record pool := Pool {
  mutex_ : bool; caller_ : option nat;
  job_ : option nat; next_ : Z; chunks_ : Z; remaining_ : Z; active_ : Z; generation_ : Z
}.

Record state := State { row_cache : cache; works : list work; pl : pool; threads : list pc }.

(** [notify_all] of [ready_]; [notify_one] of [done_], on which only the caller waits. *)
Definition wake_ready (q : pc) : pc := match q with Sleep seen => Check seen | _ => q end.
Definition wake_done (q : pc) : pc := match q with Asleep w => Wait w | _ => q end.

(** ** One step of a thread *)

(** What a thread does: start a lookup, go on (the reads of its system call as given), or wake up
    from a wait for no reason. *)
Inductive choice := Call (k : work) | Go (pread : Z -> Z -> Z) | Wake.

(** A step is not possible, ends the process, or gives the next state. *)
Inductive outcome := Blocked | Abort | Next (st : state).

Section Exec.
Context (ckpt : list Z) (s : store) (pooled : bool).

Definition owned (id : Z) : bool := (row_lo s <=? id) && (id <? row_hi s).
Definition zero_row : list Z := replicate (Z.to_nat ROW_BYTES) 0.

(** The loop of [serve] at index [i]. *)
Definition serve_at (f : frame) (k : work) (i e : Z) : option pc :=
  if i <? e then
    let id := at_z (ids k) i in
    if (id <? 0) || (rows s <=? id) then None
    else Some (if negb (owned id) then CopyW f i e zero_row
               else if sets s =? 0 then Read f i e id else Probe f i e id)
  else Some (match f_role f with Serial => Returned (f_work f) | _ => Finish f end).

(** After [drain]. *)
Definition drained (f : frame) : pc :=
  match f_role f with Worker seen => Leave seen | _ => Wait (f_work f) end.

Section Thread.
Context (t : nat) (st : state).
Definition goto (q : pc) : outcome := Next (State (row_cache st) (works st) (pl st) (<[t := q]> (threads st))).
Definition goto_pool (p : pool) (q : pc) : outcome := Next (State (row_cache st) (works st) p (<[t := q]> (threads st))).
Definition goto_waking (p : pool) (wake : pc -> pc) (q : pc) : outcome :=
  Next (State (row_cache st) (works st) p (<[t := q]> (map wake (threads st)))).
Definition goto_work (w : nat) (k : work) (q : pc) : outcome :=
  Next (State (row_cache st) (<[w := k]> (works st)) (pl st) (<[t := q]> (threads st))).
Definition goto_cache (c : cache) (q : pc) : outcome := Next (State c (works st) (pl st) (<[t := q]> (threads st))).

(** [run] before and after the work; steps inside [mutex_] find it free. *)
Definition exec_caller (p : pool) (q : pc) : outcome :=
  match q with
  | Serialize w =>
      match caller_ p with
      | Some _ => Blocked
      | None => goto_pool (Pool (mutex_ p) (Some t) (job_ p) (next_ p) (chunks_ p) (remaining_ p) (active_ p) (generation_ p)) (Publish 0 w)
      end
  | Publish 0 w =>
      if mutex_ p then Blocked
      else goto_pool (Pool true (caller_ p) (Some w) (next_ p) (chunks_ p) (remaining_ p) (active_ p) (generation_ p)) (Publish 1 w)
  | Publish 1 w => goto_pool (Pool (mutex_ p) (caller_ p) (job_ p) 0 (chunks_ p) (remaining_ p) (active_ p) (generation_ p)) (Publish 2 w)
  | Publish 2 w =>
      match works st !! w with
      | Some k => goto_pool (Pool (mutex_ p) (caller_ p) (job_ p) (next_ p) (chunks_of k) (remaining_ p) (active_ p) (generation_ p)) (Publish 3 w)
      | None => Blocked
      end
  | Publish 3 w =>
      match works st !! w with
      | Some k => goto_pool (Pool (mutex_ p) (caller_ p) (job_ p) (next_ p) (chunks_ p) (chunks_of k) (active_ p) (generation_ p)) (Publish 4 w)
      | None => Blocked
      end
  | Publish _ w => goto_pool (Pool false (caller_ p) (job_ p) (next_ p) (chunks_ p) (remaining_ p) (active_ p) (generation_ p + 1)) (Notify w)
  | Notify w => goto_waking p wake_ready (Fetch (Frame Caller w 0))
  | Wait w =>
      if mutex_ p then Blocked
      else if (remaining_ p =? 0) && (active_ p =? 0)
      then goto_pool (Pool (mutex_ p) (caller_ p) None (next_ p) (chunks_ p) (remaining_ p) (active_ p) (generation_ p)) (Release w)
      else goto (Asleep w)
  | Release w => goto_pool (Pool (mutex_ p) None (job_ p) (next_ p) (chunks_ p) (remaining_ p) (active_ p) (generation_ p)) (Returned w)
  | _ => Blocked
  end.

(** [loop]. *)
Definition exec_worker (p : pool) (q : pc) : outcome :=
  match q with
  | Check seen =>
      if mutex_ p then Blocked
      else if generation_ p =? seen then goto (Sleep seen)
      else
        match job_ p with
        | Some w => goto_pool (Pool (mutex_ p) (caller_ p) (job_ p) (next_ p) (chunks_ p) (remaining_ p) (active_ p + 1) (generation_ p)) (Fetch (Frame (Worker (generation_ p)) w 0))
        | None => goto (Check (generation_ p))
        end
  | Leave seen =>
      if mutex_ p then Blocked
      else goto_waking (Pool (mutex_ p) (caller_ p) (job_ p) (next_ p) (chunks_ p) (remaining_ p) (active_ p - 1) (generation_ p)) wake_done (Check seen)
  | _ => Blocked
  end.

(** [drain]. *)
Definition exec_drain (p : pool) (q : pc) : outcome :=
  match q with
  | Fetch f => goto_pool (Pool (mutex_ p) (caller_ p) (job_ p) (next_ p + 1) (chunks_ p) (remaining_ p) (active_ p) (generation_ p)) (Test (Frame (f_role f) (f_work f) (next_ p)))
  | Test f =>
      if chunks_ p <=? f_ticket f then goto (drained f)
      else
        match works st !! f_work f with
        | Some k => goto (Serve f (f_ticket f * kChunk) (Z.min (f_ticket f * kChunk + kChunk) (count k)))
        | None => Blocked
        end
  | Finish f =>
      goto_pool (Pool (mutex_ p) (caller_ p) (job_ p) (next_ p) (chunks_ p) (remaining_ p - 1) (active_ p) (generation_ p))
        (if remaining_ p =? 1 then Signal f else Fetch f)
  | Signal f => if mutex_ p then Blocked else goto_waking p wake_done (Fetch f)
  | _ => Blocked
  end.

(** [serve] and [fetch_row]. *)
Definition exec_serve (pread : Z -> Z -> Z) (q : pc) : outcome :=
  match q with
  | Serve f i e =>
      match works st !! f_work f with
      | Some k => match serve_at f k i e with Some q => goto q | None => Abort end
      | None => Blocked
      end
  | Probe f i e id =>
      match probe s (row_cache st) id with Some row => goto (CopyW f i e row) | None => goto (Read f i e id) end
  | Read f i e id =>
      match disk_row ckpt s pread id with
      | Some row => goto (if sets s =? 0 then CopyW f i e row else Fill f i e id row)
      | None => Abort
      end
  | Fill f i e id row => goto_cache (fill s (row_cache st) id row) (CopyW f i e row)
  | CopyW f i e row =>
      match works st !! f_work f with
      | Some k => goto_work (f_work f) (Work (ids k) (put (w_out k) (i * WEIGHT_BYTES) (bytes_at row 0 WEIGHT_BYTES)) (s_out k)) (CopyS f i e row)
      | None => Blocked
      end
  | CopyS f i e row =>
      match works st !! f_work f with
      | Some k => goto_work (f_work f) (Work (ids k) (w_out k) (put (s_out k) (i * SCALE_BYTES) (bytes_at row WEIGHT_BYTES SCALE_BYTES))) (Serve f (i + 1) e)
      | None => Blocked
      end
  | _ => Blocked
  end.

(** The buffers of a lookup have room for its rows. *)
Definition has_room (k : work) : bool := (count k * WEIGHT_BYTES <=? zlen (w_out k)) && (count k * SCALE_BYTES <=? zlen (s_out k)).

Definition start_lookup (k : work) : outcome :=
  if has_room k then Next (State (row_cache st) (works st ++ [k]) (pl st) (<[t := Lookup (length (works st))]> (threads st))) else Blocked.

(** [row_store_lookup]'s choice between serving alone and the pool. *)
Definition exec_lookup (w : nat) : outcome :=
  match works st !! w with
  | Some k => goto (if negb pooled || (count k <? kSerialBelow) then Serve (Frame Serial w 0) 0 (count k) else Serialize w)
  | None => Blocked
  end.
End Thread.

Definition exec (t : nat) (ch : choice) (st : state) : outcome :=
  match threads st !! t, ch with
  | Some Ready, Call k | Some (Returned _), Call k => start_lookup t st k
  | Some (Asleep w), Wake => goto t st (Wait w)
  | Some (Sleep seen), Wake => goto t st (Check seen)
  | Some (Lookup w), Go _ => exec_lookup t st w
  | Some (Serialize _ | Publish _ _ | Notify _ | Wait _ | Release _) as q, Go _ => exec_caller t st (pl st) (default Ready q)
  | Some (Check _ | Leave _) as q, Go _ => exec_worker t st (pl st) (default Ready q)
  | Some (Fetch _ | Test _ | Finish _ | Signal _) as q, Go _ => exec_drain t st (pl st) (default Ready q)
  | Some (Serve _ _ _ | Probe _ _ _ _ | Read _ _ _ _ | Fill _ _ _ _ _ | CopyW _ _ _ _ | CopyS _ _ _ _) as q, Go pread => exec_serve t st pread (default Ready q)
  | _, _ => Blocked
  end.

(** ** Runs *)

(** The cache is empty, whatever its memory holds; every worker is at its first wait. *)
Definition empty_cache (c : cache) : Prop :=
  keys c = replicate (Z.to_nat (slots s)) 0 /\ length (lines c) = Z.to_nat (slots s) /\ victim c = replicate (Z.to_nat (sets s)) 0.
Definition start (c : cache) (callers workers : nat) : state :=
  State c [] (Pool false None None 0 0 0 0 0) (replicate callers Ready ++ replicate workers (Check 0)).

Inductive reach (c : cache) (callers workers : nat) : state -> Prop :=
  | r_start : reach c callers workers (start c callers workers)
  | r_step t ch st st' : reach c callers workers st -> exec t ch st = Next st' -> reach c callers workers st'.
End Exec.
