(* ===== verification/EngramPoolInv.v ===== *)
(** * Looking rows up: the pool's protocol

    What the threads of EngramPool keep between them, seen without the data: which thread owns
    [caller_], how many workers are inside [drain], and that [remaining_] counts the tickets not
    drawn and those being served.  A thread is abstracted to its class; every step of the
    protocol keeps [pinv]. *)
From S2P Require Import Prelude EngramPack EngramStore EngramPool.
#[local] Open Scope list_scope.
#[local] Open Scope Z_scope.

(** ** Classes *)

(** What a thread is to the others; a drain (the caller's or a worker's) with
    its ticket, if it has drawn one. *)
Inductive cls :=
  | CIdle
  | CPub (k : nat) (w : nat) | CNotify (w : nat) | CWait (w : nat) | CAsleep (w : nat) | CRelease (w : nat)
  | CLeave
  | CDrain (r : bool) (w : nat) (h : option Z).

Definition drain_cls (f : frame) (h : option Z) : cls :=
  match f_role f with Serial => CIdle | Caller => CDrain true (f_work f) h | Worker _ => CDrain false (f_work f) h end.

Definition cls_of (q : pc) : cls :=
  match q with
  | Ready | Lookup _ | Serialize _ | Returned _ | Check _ | Sleep _ => CIdle
  | Publish k w => CPub k w | Notify w => CNotify w | Wait w => CWait w | Asleep w => CAsleep w | Release w => CRelease w
  | Leave _ => CLeave
  | Fetch f | Signal f => drain_cls f None
  | Test f | Serve f _ _ | Probe f _ _ _ | Read f _ _ _ | Fill f _ _ _ _ | CopyW f _ _ _ | CopyS f _ _ _ | Finish f => drain_cls f (Some (f_ticket f))
  end.

Definition cls_work (c : cls) : option nat :=
  match c with CPub _ w | CNotify w | CWait w | CAsleep w | CRelease w | CDrain _ w _ => Some w | CIdle | CLeave => None end.
Definition owns (c : cls) : bool :=
  match c with CPub _ _ | CNotify _ | CWait _ | CAsleep _ | CRelease _ | CDrain true _ _ => true | _ => false end.
Definition working (c : cls) : bool := match c with CLeave | CDrain false _ _ => true | _ => false end.
Definition wake_cls (c : cls) : cls := match c with CAsleep w => CWait w | _ => c end.

Lemma cls_wake_ready q : cls_of (wake_ready q) = cls_of q.
Proof. by destruct q. Qed.
Lemma cls_wake_done q : cls_of (wake_done q) = wake_cls (cls_of q).
Proof. destruct q as [| | | | | | | | | | | |f|f|f|f|f|f|f|f|f|f]; try done; cbn; unfold drain_cls; by destruct (f_role f). Qed.

(** ** Members of an updated list *)
Lemma elem_insert {A} (l : list A) t a x : x ∈ <[t := a]> l -> x = a \/ x ∈ l.
Proof.
  intros (i & Hi)%list_elem_of_lookup. apply list_lookup_insert_Some in Hi as [(_ & -> & _)|[_ Hi]]; [by left|].
  right. by apply list_elem_of_lookup_2 in Hi.
Qed.
Lemma elem_insert_other {A} (l : list A) t a a' x : l !! t = Some a -> x ∈ l -> x <> a -> x ∈ <[t := a']> l.
Proof.
  intros Ht (i & Hi)%list_elem_of_lookup Hne. apply list_elem_of_lookup. exists i. rewrite list_lookup_insert_ne; [done | congruence].
Qed.
Lemma elem_insert_new {A} (l : list A) t a a' : l !! t = Some a -> a' ∈ <[t := a']> l.
Proof. intros Ht. apply list_elem_of_lookup. exists t. apply list_lookup_insert_eq. by eapply lookup_lt_Some. Qed.

Section Protocol.
(** The tickets of a lookup, and when a ticket's rows are served. *)
Context (tickets : nat -> Z) (good : nat -> Z -> Prop).

Definition holds (c : cls) : bool := match c with CDrain _ w (Some t) => t <? tickets w | _ => false end.

Definition quiet (p : pool) : Prop := mutex_ p = false /\ job_ p = None /\ active_ p = 0.

(** A published job. *)
Record running (p : pool) (cs : list cls) (w : nat) : Prop := Running {
  ru_mutex : mutex_ p = false;
  ru_job : job_ p = Some w;
  ru_chunks : chunks_ p = tickets w;
  ru_next : 0 <= next_ p;
  ru_remaining : remaining_ p = tickets w - Z.min (next_ p) (tickets w) + zcount holds cs;
  ru_drains : forall r w' h, CDrain r w' h ∈ cs -> w' = w;
  ru_tickets : forall r w' t, CDrain r w' (Some t) ∈ cs -> 0 <= t < next_ p;
  ru_served : forall t, 0 <= t < Z.min (next_ p) (tickets w) -> (exists r, CDrain r w (Some t) ∈ cs) \/ good w t
}.

(** What holds while the owner of [caller_] is at a point of [run]. *)
Definition phase (p : pool) (cs : list cls) (c : cls) : Prop :=
  match c with
  | CPub O w => quiet p
  | CPub k w => mutex_ p = true /\ job_ p = Some w /\ active_ p = 0 /\ (k <= 4)%nat /\ ((2 <= k)%nat -> next_ p = 0)
      /\ ((3 <= k)%nat -> chunks_ p = tickets w) /\ ((4 <= k)%nat -> remaining_ p = tickets w)
  | CNotify w | CDrain true w _ => running p cs w
  | CWait w => running p cs w /\ tickets w <= next_ p
  | CAsleep w => running p cs w /\ tickets w <= next_ p /\ (remaining_ p <> 0 \/ active_ p <> 0)
  | CRelease w => quiet p /\ forall t, 0 <= t < tickets w -> good w t
  | _ => False
  end.

Record pinv (cs : list cls) (p : pool) : Prop := Pinv {
  pi_owner : forall t c, cs !! t = Some c -> (owns c = true <-> caller_ p = Some t);
  pi_active : active_ p = zcount working cs;
  pi_phase : match caller_ p with None => quiet p | Some t => exists c, cs !! t = Some c /\ phase p cs c end
}.

(** ** Updating one thread of a running job *)

Lemma running_update p p' cs t c c' w :
  running p cs w -> cs !! t = Some c ->
  mutex_ p' = mutex_ p -> job_ p' = job_ p -> chunks_ p' = chunks_ p -> next_ p <= next_ p' ->
  remaining_ p' = tickets w - Z.min (next_ p') (tickets w) + (zcount holds cs - Z.b2z (holds c) + Z.b2z (holds c')) ->
  (forall r w' h, c' = CDrain r w' h -> w' = w /\ forall t', h = Some t' -> 0 <= t' < next_ p') ->
  (forall t', 0 <= t' < Z.min (next_ p') (tickets w) ->
     (exists r, c' = CDrain r w (Some t')) \/ good w t' \/ t' < next_ p /\ forall r, c <> CDrain r w (Some t')) ->
  running p' (<[t := c']> cs) w.
Proof.
  intros [H1 H2 H3 H4 H5 H6 H7 H8] Ht Hm Hj Hc Hn Hr Hd Hs. split; try congruence; try lia.
  - by rewrite (zcount_insert _ _ _ c).
  - intros r w' h [E|E]%elem_insert; [|by eapply H6]. symmetry in E. by apply Hd in E as [-> _].
  - intros r w' t' [E|E]%elem_insert; [|apply H7 in E; lia]. symmetry in E. apply Hd in E as [_ E]. by apply E.
  - intros t' Ht'. destruct (Hs t' Ht') as [[r Hc']|[?|[Hlt Hne]]]; [left; exists r; rewrite <- Hc'; by eapply elem_insert_new | by right|].
    destruct (H8 t' ltac:(lia)) as [[r Hin]|?]; [|by right]. left. exists r. eapply elem_insert_other; [done | done | by apply not_eq_sym].
Qed.

(** A change that has nothing to do with the tickets. *)
Lemma running_same p p' cs t c c' w :
  running p cs w -> cs !! t = Some c -> (forall r w' h, c <> CDrain r w' (Some h)) -> (forall r w' h, c' = CDrain r w' h -> w' = w /\ h = None) ->
  mutex_ p' = mutex_ p -> job_ p' = job_ p -> chunks_ p' = chunks_ p -> next_ p' = next_ p -> remaining_ p' = remaining_ p ->
  running p' (<[t := c']> cs) w.
Proof.
  intros R Ht Hc Hc' Hm Hj Hch Hn Hr. assert (holds c = false) as Eh. { destruct c as [| | | | | | |r w' [h|]]; try done. by destruct (Hc r w' h). }
  assert (holds c' = false) as Eh'. { destruct c' as [| | | | | | |r w' [h|]]; try done. by destruct (Hc' r w' _ eq_refl). }
  eapply running_update; [done.. | lia | | |].
  - rewrite Eh, Eh', Hr, Hn. destruct R. cbn. lia.
  - intros r w' h E. destruct (Hc' r w' h E) as [-> ->]. done.
  - intros t' Ht'. right. right. split; [lia|]. intros r. apply Hc.
Qed.

Lemma running_wake p cs w : running p cs w -> running p (map wake_cls cs) w.
Proof.
  assert (HI : forall r w' h, CDrain r w' h ∈ map wake_cls cs <-> CDrain r w' h ∈ cs).
  { intros r w' h. rewrite list_elem_of_fmap. split; [intros (c & E & Hc); destruct c; try done; by injection E as -> -> -> | intros H; by exists (CDrain r w' h)]. }
  intros [H1 H2 H3 H4 H5 H6 H7 H8]. split; try done.
  - rewrite zcount_map. rewrite H5. f_equal. apply zcount_ext. intros c _. by destruct c.
  - intros r w' h H. by eapply H6, HI.
  - intros r w' t H. by eapply H7, HI.
  - intros t Ht. destruct (H8 t Ht) as [[r Hr]|?]; [left; exists r; by apply HI | by right].
Qed.

Lemma pinv_wake cs p : pinv cs p -> pinv (map wake_cls cs) p.
Proof.
  intros [HO HA HP]. split.
  - intros t c. rewrite list_lookup_fmap. destruct (cs !! t) as [c0|] eqn:E; [|done]. intros [= <-]. rewrite <- (HO t c0 E). by destruct c0.
  - rewrite zcount_map, HA. apply zcount_ext. intros c _. by destruct c.
  - destruct (caller_ p) as [t|]; [|done]. destruct HP as (c & Ht & Hc). exists (wake_cls c). rewrite list_lookup_fmap, Ht. split; [done|].
    destruct c as [|[|k] w| | | | | |[]]; cbn in *; try done; try (by apply running_wake); [destruct Hc; split; [by apply running_wake | done]|].
    destruct Hc as (R & Hn & _). split; [by apply running_wake | done].
Qed.

(** A step that leaves [caller_] alone. *)
Lemma pinv_step cs p p' t c c' :
  pinv cs p -> cs !! t = Some c -> caller_ p' = caller_ p -> owns c' = owns c ->
  active_ p' = active_ p - Z.b2z (working c) + Z.b2z (working c') ->
  (caller_ p = None -> quiet p -> quiet p') ->
  (owns c = true -> phase p cs c -> phase p' (<[t := c']> cs) c') ->
  (owns c = false -> forall c0, c0 ∈ cs -> owns c0 = true -> phase p cs c0 -> phase p' (<[t := c']> cs) c0) ->
  pinv (<[t := c']> cs) p'.
Proof.
  intros [HO HA HP] Ht Hcal Hown Hact Hq Hme Hother. pose proof (lookup_lt_Some _ _ _ Ht) as Hlt. split.
  - intros t0 c0. rewrite Hcal. destruct (decide (t0 = t)) as [->|Hne].
    + rewrite list_lookup_insert_eq by done. intros [= <-]. rewrite Hown. by apply HO.
    + rewrite list_lookup_insert_ne by done. apply HO.
  - rewrite (zcount_insert _ _ _ c) by done. lia.
  - rewrite Hcal. destruct (caller_ p) as [t0|] eqn:Ec; [|by apply Hq]. destruct HP as (c0 & Ht0 & Hph).
    destruct (decide (t0 = t)) as [->|Hne].
    + assert (c0 = c) as -> by congruence. exists c'. rewrite list_lookup_insert_eq by done. split; [done|]. apply Hme; [by apply (HO t) | done].
    + exists c0. rewrite list_lookup_insert_ne by done. split; [done|]. apply Hother; [|by eapply list_elem_of_lookup_2 | by apply (HO t0) | done].
      destruct (owns c) eqn:E; [|done]. apply (HO t c Ht) in E. congruence.
Qed.

(** While the owner is at a point without a running job, nobody else drains. *)
Lemma nobody_drains cs p t c : pinv cs p -> caller_ p = Some t -> cs !! t = Some c -> (forall w h, c <> CDrain true w h) -> active_ p = 0 ->
  forall r w h, CDrain r w h ∉ cs.
Proof.
  intros [HO HA _] Hc Ht Hcd H0 r w h Hin. rewrite HA in H0. pose proof (zcount_zero _ _ H0 _ Hin) as Hw.
  destruct r; [|done]. apply list_elem_of_lookup in Hin as [i Hi].
  assert (caller_ p = Some i) as E by (by apply (HO i _ Hi)). assert (i = t) as -> by congruence. rewrite Ht in Hi. injection Hi as ->. by destruct (Hcd w h).
Qed.
(** ** The steps *)

Lemma acquire_step cs p t w : pinv cs p -> cs !! t = Some CIdle -> caller_ p = None ->
  pinv (<[t := CPub 0 w]> cs) (Pool (mutex_ p) (Some t) (job_ p) (next_ p) (chunks_ p) (remaining_ p) (active_ p) (generation_ p)).
Proof.
  intros [HO HA HP] Ht Hc. rewrite Hc in HP, HO. pose proof (lookup_lt_Some _ _ _ Ht) as Hlt. split; cbn.
  - intros t0 c0. destruct (decide (t0 = t)) as [->|Hne]; [rewrite list_lookup_insert_eq by done; by intros [= <-]|].
    rewrite list_lookup_insert_ne by done. intros H0. rewrite (HO t0 c0 H0). split; congruence.
  - rewrite (zcount_insert _ _ _ CIdle) by done. cbn. lia.
  - exists (CPub 0 w). by rewrite list_lookup_insert_eq.
Qed.

Lemma release_step cs p t w : pinv cs p -> cs !! t = Some (CRelease w) ->
  pinv (<[t := CIdle]> cs) (Pool (mutex_ p) None (job_ p) (next_ p) (chunks_ p) (remaining_ p) (active_ p) (generation_ p))
  /\ forall x, 0 <= x < tickets w -> good w x.
Proof.
  intros [HO HA HP] Ht. assert (Hc : caller_ p = Some t) by (by apply (HO t _ Ht)). rewrite Hc in HP, HO. destruct HP as (c & Ht' & Hph).
  assert (c = CRelease w) as -> by congruence. destruct Hph as [Hq Hg]. split; [|done]. pose proof (lookup_lt_Some _ _ _ Ht) as Hlt. split; cbn.
  - intros t0 c0. destruct (decide (t0 = t)) as [->|Hne]; [rewrite list_lookup_insert_eq by done; by intros [= <-]|].
    rewrite list_lookup_insert_ne by done. intros H0. rewrite (HO t0 c0 H0). split; congruence.
  - rewrite (zcount_insert _ _ _ (CRelease w)) by done. cbn. lia.
  - done.
Qed.

Lemma publish_lock_step cs p t w : pinv cs p -> cs !! t = Some (CPub 0 w) ->
  pinv (<[t := CPub 1 w]> cs) (Pool true (caller_ p) (Some w) (next_ p) (chunks_ p) (remaining_ p) (active_ p) (generation_ p)).
Proof.
  intros HI Ht. assert (Hc : caller_ p = Some t) by (by apply (pi_owner _ _ HI t _ Ht)). eapply pinv_step; [done.. | cbn; lia | congruence | |done].
  intros _ (_ & _ & Ha). cbn. repeat split; try done; lia.
Qed.

(** Inside the section: the counters of the new job, one after the other. *)
Lemma publish_store_step cs p t k w nx ch rem : pinv cs p -> cs !! t = Some (CPub (S k) w) -> (k < 3)%nat ->
  ((1 <= k)%nat -> nx = next_ p) -> (k = 0%nat -> nx = 0) ->
  ((2 <= k)%nat -> ch = chunks_ p) -> (k = 1%nat -> ch = tickets w) -> (k = 2%nat -> rem = tickets w) ->
  pinv (<[t := CPub (S (S k)) w]> cs) (Pool (mutex_ p) (caller_ p) (job_ p) nx ch rem (active_ p) (generation_ p)).
Proof.
  intros HI Ht Hk Hn1 Hn0 Hc2 Hc1 Hr. assert (Hc : caller_ p = Some t) by (by apply (pi_owner _ _ HI t _ Ht)).
  eapply pinv_step; [done.. | cbn; lia | congruence | |done]. cbn [phase]. intros _ (Hm & Hj & Ha & _ & H2 & H3 & _). cbn. split; [done|]. split; [done|]. split; [done|].
  split; [lia|]. repeat split; intros; [destruct k; [by apply Hn0 | rewrite Hn1 by lia; apply H2; lia] | | ].
  - destruct k as [|[|k]]; [lia | by apply Hc1 | rewrite Hc2 by lia; apply H3; lia].
  - apply Hr. lia.
Qed.

Lemma publish_unlock_step cs p t w : 0 <= tickets w -> pinv cs p -> cs !! t = Some (CPub 4 w) ->
  pinv (<[t := CNotify w]> cs) (Pool false (caller_ p) (job_ p) (next_ p) (chunks_ p) (remaining_ p) (active_ p) (generation_ p + 1)).
Proof.
  intros Hw HI Ht. assert (Hc : caller_ p = Some t) by (by apply (pi_owner _ _ HI t _ Ht)). eapply pinv_step; [done.. | cbn; lia | congruence | |done].
  cbn [phase]. intros _ (_ & Hj & Ha & _ & Hn & Hch & Hr). specialize (Hn ltac:(lia)). specialize (Hch ltac:(lia)). specialize (Hr ltac:(lia)).
  assert (Hnone : forall r w0 h, CDrain r w0 h ∉ <[t := CNotify w]> cs).
  { intros r w' h [E|E]%elem_insert; [done|]. by eapply nobody_drains. }
  split; cbn; try done; try lia.
  - assert (zcount holds (<[t:=CNotify w]> cs) = zcount (fun _ => false) (<[t:=CNotify w]> cs)) as ->; [|rewrite zcount_const; cbn; lia].
    apply zcount_ext. intros c Hin. destruct c as [| | | | | | |r w' [h|]]; try done. by destruct (Hnone _ _ _ Hin).
  - intros r w' h Hin. by destruct (Hnone _ _ _ Hin).
  - intros r w' h Hin. by destruct (Hnone _ _ _ Hin).
Qed.

(** Steps of a thread that has no ticket, on a running job. *)
Lemma notify_step cs p t w : pinv cs p -> cs !! t = Some (CNotify w) -> pinv (<[t := CDrain true w None]> cs) p.
Proof.
  intros HI Ht. assert (Hc : caller_ p = Some t) by (by apply (pi_owner _ _ HI t _ Ht)). eapply pinv_step; [done.. | cbn; lia | congruence | |done].
  cbn [phase]. intros _ R. eapply running_same; try done. by intros r w' h [= _ <- <-].
Qed.

(** A running phase survives a step of another thread that keeps the job running. *)
Lemma phase_running p p' cs cs' c : owns c = true ->
  (forall w, running p cs w -> running p' cs' w /\ next_ p <= next_ p') -> (mutex_ p = true \/ job_ p = None -> False) ->
  (forall w, c = CAsleep w -> remaining_ p' <> 0 \/ active_ p' <> 0) ->
  phase p cs c -> phase p' cs' c.
Proof.
  intros Ho HR Hno Hsl. destruct c as [|[|k] w|w|w|w|w| |[] w h]; try done; cbn [phase].
  - intros (_ & Hj & _). exfalso. auto.
  - intros (Hm & _). exfalso. auto.
  - intros R. by apply HR.
  - intros [R Hn]. destruct (HR w R). split; [done | lia].
  - intros (R & Hn & _). destruct (HR w R). split; [done|]. split; [lia | by eapply Hsl].
  - intros ((_ & Hj & _) & _). exfalso. auto.
  - intros R. by apply HR.
Qed.

(** A worker's or the caller's drain is part of a running job. *)
Lemma drain_running cs p t r w h : pinv cs p -> cs !! t = Some (CDrain r w h) -> running p cs w.
Proof.
  intros HI Ht. pose proof HI as [HO HA HP].
  assert (HQ : active_ p = 0 -> r = true /\ caller_ p = Some t).
  { intros H0. rewrite HA in H0. pose proof (zcount_zero _ _ H0 _ (list_elem_of_lookup_2 _ _ _ Ht)) as Hw. destruct r; [|done]. split; [done | by apply (HO t _ Ht)]. }
  destruct (caller_ p) as [t0|] eqn:Ec; [|destruct HP as (_ & _ & H0); by destruct (HQ H0)]. destruct HP as (c & Ht0 & Hph).
  assert (HR : forall w0, running p cs w0 -> running p cs w).
  { intros w0 R. assert (w = w0) as -> by (eapply ru_drains; [done | by eapply list_elem_of_lookup_2]). done. }
  assert (HN : active_ p = 0 -> c = CDrain r w h /\ r = true) by (intros H0; destruct (HQ H0) as [-> [= ->]]; split; congruence).
  destruct c as [|[|k] w0|w0|w0|w0|w0| |[] w0 h0]; try done; cbn [phase] in Hph; try (by eapply HR); try (by eapply HR, Hph).
  - destruct Hph as (_ & _ & H0). by destruct (HN H0).
  - destruct Hph as (_ & _ & H0 & _). by destruct (HN H0).
  - destruct Hph as ((_ & _ & H0) & _). by destruct (HN H0).
Qed.

Lemma working_active cs p t c : pinv cs p -> cs !! t = Some c -> working c = true -> 1 <= active_ p.
Proof.
  intros [_ HA _] Ht Hw. destruct (decide (active_ p = 0)) as [H0|]; [|rewrite HA in *; pose proof (zcount_bounds working cs); lia].
  rewrite HA in H0. by rewrite (zcount_zero _ _ H0 c) in Hw by (by eapply list_elem_of_lookup_2).
Qed.

(** A step of a draining thread. *)
Lemma drain_step cs p p' t r w h c' : pinv cs p -> cs !! t = Some (CDrain r w h) ->
  caller_ p' = caller_ p -> active_ p' = active_ p -> next_ p <= next_ p' -> owns c' = r -> working c' = negb r ->
  running p' (<[t := c']> cs) w -> (r = true -> phase p' (<[t := c']> cs) c') -> pinv (<[t := c']> cs) p'.
Proof.
  intros HI Ht Hcal Hact Hn Ho Hw HR Hme. pose proof (drain_running _ _ _ _ _ _ HI Ht) as R.
  eapply pinv_step; [done | done | done | by destruct r | rewrite Hw; destruct r; cbn; lia | | |].
  - intros _ (_ & Hj & _). destruct R as [_ Hj' _ _ _ _ _ _]. congruence.
  - intros Hr _. apply Hme. by destruct r.
  - intros Hr c0 _ Ho0 Hph. destruct r; [done|]. apply (phase_running p p' cs (<[t := c']> cs) c0 Ho0); [| | |done].
    + intros w0 R0. assert (w = w0) as <- by (eapply ru_drains; [done | by eapply list_elem_of_lookup_2]). done.
    + destruct R as [Hm Hj _ _ _ _ _ _]. intros [?|?]; congruence.
    + intros _ _. right. rewrite Hact. pose proof (working_active _ _ _ _ HI Ht eq_refl). lia.
Qed.

Lemma fetch_step cs p t r w : pinv cs p -> cs !! t = Some (CDrain r w None) ->
  pinv (<[t := CDrain r w (Some (next_ p))]> cs) (Pool (mutex_ p) (caller_ p) (job_ p) (next_ p + 1) (chunks_ p) (remaining_ p) (active_ p) (generation_ p)).
Proof.
  intros HI Ht. pose proof (drain_running _ _ _ _ _ _ HI Ht) as R.
  assert (R' : running (Pool (mutex_ p) (caller_ p) (job_ p) (next_ p + 1) (chunks_ p) (remaining_ p) (active_ p) (generation_ p)) (<[t := CDrain r w (Some (next_ p))]> cs) w).
  { eapply running_update; [done.. | cbn; lia | | |]; cbn [next_ remaining_ holds].
    - destruct R as [_ _ _ Hn Hr _ _ _]. rewrite Hr. destruct (next_ p <? tickets w) eqn:E; cbn [Z.b2z]; lia.
    - intros r0 w' h [= <- <- <-]. split; [done|]. intros t' [= <-]. destruct R. lia.
    - intros t' Ht'. destruct (decide (t' = next_ p)) as [->|]; [left; by exists r|]. right. right. split; [lia|]. intros r0. done. }
  eapply drain_step; [done.. | cbn; lia | by destruct r | by destruct r | done |]. intros ->. exact R'.
Qed.

(** Leaving the drain with a ticket past the last. *)
Lemma exit_step cs p t r w x c' : pinv cs p -> cs !! t = Some (CDrain r w (Some x)) -> tickets w <= x ->
  c' = (if r then CWait w else CLeave) -> pinv (<[t := c']> cs) p.
Proof.
  intros HI Ht Hx ->. pose proof (drain_running _ _ _ _ _ _ HI Ht) as R. pose proof (ru_tickets _ _ _ R _ _ _ (list_elem_of_lookup_2 _ _ _ Ht)) as Hlt.
  assert (R' : running p (<[t := if r then CWait w else CLeave]> cs) w).
  { eapply running_update; [done.. | lia | | |].
    - assert (holds (if r then CWait w else CLeave) = false) as -> by (by destruct r). cbn [holds]. rewrite (proj2 (Z.ltb_ge _ _)) by lia. destruct R. cbn. lia.
    - intros r0 w' h E. by destruct r.
    - intros t' Ht'. right. right. split; [lia|]. intros r0 [= _ ->]. lia. }
  eapply drain_step; [done.. | lia | by destruct r | by destruct r | done |]. intros ->. cbn. split; [exact R' | lia].
Qed.

(** A ticket's rows are served. *)
Lemma finish_step cs p t r w x : pinv cs p -> cs !! t = Some (CDrain r w (Some x)) -> x < tickets w -> good w x ->
  pinv (<[t := CDrain r w None]> cs) (Pool (mutex_ p) (caller_ p) (job_ p) (next_ p) (chunks_ p) (remaining_ p - 1) (active_ p) (generation_ p)).
Proof.
  intros HI Ht Hx Hg. pose proof (drain_running _ _ _ _ _ _ HI Ht) as R.
  assert (R' : running (Pool (mutex_ p) (caller_ p) (job_ p) (next_ p) (chunks_ p) (remaining_ p - 1) (active_ p) (generation_ p)) (<[t := CDrain r w None]> cs) w).
  { eapply running_update; [done.. | cbn; lia | | |]; cbn [next_ remaining_ holds].
    - rewrite (proj2 (Z.ltb_lt _ _)) by lia. destruct R. cbn. lia.
    - intros r0 w' h [= <- <- <-]. done.
    - intros t' Ht'. destruct (decide (t' = x)) as [->|Hne]; [by right; left|]. right. right. split; [lia|]. intros r0 [= _ E]. congruence. }
  eapply drain_step; [done.. | cbn; lia | by destruct r | by destruct r | done |]. intros ->. exact R'.
Qed.

(** The predicate of [done_]. *)
Lemma wait_done_step cs p t w : pinv cs p -> cs !! t = Some (CWait w) -> remaining_ p = 0 -> active_ p = 0 ->
  pinv (<[t := CRelease w]> cs) (Pool (mutex_ p) (caller_ p) None (next_ p) (chunks_ p) (remaining_ p) (active_ p) (generation_ p)).
Proof.
  intros HI Ht Hr0 Ha0. assert (Hc : caller_ p = Some t) by (by apply (pi_owner _ _ HI t _ Ht)). eapply pinv_step; [done.. | cbn; lia | congruence | |done].
  cbn [phase]. intros _ ([Hm _ _ Hn Hr _ _ Hs] & Hle). split; [done|]. intros x Hx. pose proof (zcount_bounds holds cs) as Hb.
  assert (H0 : zcount holds cs = 0) by lia. destruct (Hs x ltac:(lia)) as [[r Hin]|Hg]; [|done].
  pose proof (zcount_zero _ _ H0 _ Hin) as Hf. cbn in Hf. lia.
Qed.

Lemma wait_sleep_step cs p t w : pinv cs p -> cs !! t = Some (CWait w) -> (remaining_ p =? 0) && (active_ p =? 0) = false ->
  pinv (<[t := CAsleep w]> cs) p.
Proof.
  intros HI Ht Hp. assert (Hc : caller_ p = Some t) by (by apply (pi_owner _ _ HI t _ Ht)). eapply pinv_step; [done.. | cbn; lia | congruence | |done].
  cbn [phase]. intros _ (R & Hle). split; [by eapply running_same|]. split; [done|]. apply andb_false_iff in Hp as [?|?]; lia.
Qed.

Lemma wake_step cs p t w : pinv cs p -> cs !! t = Some (CAsleep w) -> pinv (<[t := CWait w]> cs) p.
Proof.
  intros HI Ht. assert (Hc : caller_ p = Some t) by (by apply (pi_owner _ _ HI t _ Ht)). eapply pinv_step; [done.. | cbn; lia | congruence | |done].
  cbn [phase]. intros _ (R & Hle & _). split; [by eapply running_same | done].
Qed.

(** A job that a worker can see is running. *)
Lemma take_step cs p t w : pinv cs p -> cs !! t = Some CIdle -> mutex_ p = false -> job_ p = Some w ->
  pinv (<[t := CDrain false w None]> cs) (Pool (mutex_ p) (caller_ p) (job_ p) (next_ p) (chunks_ p) (remaining_ p) (active_ p + 1) (generation_ p)).
Proof.
  intros HI Ht Hm Hj. pose proof (zcount_bounds working cs) as Hb. pose proof (pi_active _ _ HI) as HA.
  eapply pinv_step; [done.. | cbn; lia | | done |].
  - intros _ (_ & Hj' & _). congruence.
  - intros _ c0 _ Ho0. apply phase_running; [done | | | cbn; intros _ _; right; lia].
    + intros w0 R. split; [|cbn; lia]. eapply running_same; try done. intros r w' h [= _ <- <-]. split; [|done]. destruct R. congruence.
    + intros [?|?]; congruence.
Qed.

(** A worker is out; nobody sleeps at [done_] any more. *)
Lemma leave_step cs p t : pinv cs p -> cs !! t = Some CLeave -> mutex_ p = false -> (forall w, CAsleep w ∉ cs) ->
  pinv (<[t := CIdle]> cs) (Pool (mutex_ p) (caller_ p) (job_ p) (next_ p) (chunks_ p) (remaining_ p) (active_ p - 1) (generation_ p)).
Proof.
  intros HI Ht Hm Hs. pose proof (working_active _ _ _ _ HI Ht eq_refl) as Ha. pose proof (pi_owner _ _ HI) as HO. pose proof (pi_phase _ _ HI) as HP.
  eapply pinv_step; [done.. | cbn; lia | | done |].
  - intros _ (_ & _ & ?). lia.
  - intros _ c0 Hin Ho0 Hph. assert (Hq : ~ quiet p) by (intros (_ & _ & ?); lia).
    assert (HR : forall w0, running p cs w0 -> running (Pool (mutex_ p) (caller_ p) (job_ p) (next_ p) (chunks_ p) (remaining_ p) (active_ p - 1) (generation_ p)) (<[t := CIdle]> cs) w0).
    { intros w0 R. by eapply running_same. }
    destruct c0 as [|[|k] w0|w0|w0|w0|w0| |[] w0 h0]; try done; cbn [phase] in *; try (by apply HR).
    + destruct Hph as (? & _). congruence.
    + destruct Hph as [R ?]. split; [by apply HR | done].
    + by destruct (Hs w0).
    + by destruct Hph.
Qed.
End Protocol.

(** The protocol sees the lookups only through the tickets and rows of those that threads mention. *)
Lemma pinv_ext tickets tickets' (good good' : nat -> Z -> Prop) cs p : pinv tickets good cs p ->
  (forall c w, c ∈ cs -> cls_work c = Some w -> tickets' w = tickets w /\ forall x, good w x -> good' w x) -> pinv tickets' good' cs p.
Proof.
  intros [HO HA HP] HE. assert (HH : forall w, running tickets good p cs w -> (tickets' w = tickets w /\ forall x, good w x -> good' w x) -> running tickets' good' p cs w).
  { intros w [H1 H2 H3 H4 H5 H6 H7 H8] [Et Eg]. split; rewrite ?Et; try done.
    - rewrite H5. f_equal. apply zcount_ext. intros c Hc. destruct c as [| | | | | | |r w' [h|]]; try done. cbn. by destruct (HE _ w' Hc eq_refl) as [-> _].
    - intros x Hx. destruct (H8 x Hx) as [?|?]; [by left | right; by apply Eg]. }
  split; [done | done |]. destruct (caller_ p) as [t|]; [|done]. destruct HP as (c & Ht & Hph). exists c. split; [done|].
  pose proof (HE c) as Hw. specialize (fun w => Hw w (list_elem_of_lookup_2 _ _ _ Ht)).
  destruct c as [|[|k] w|w|w|w|w| |[] w h]; try done; cbn [phase cls_work] in *; try (by apply HH; [|by apply Hw]).
  - by destruct (Hw w eq_refl) as [-> _].
  - destruct (Hw w eq_refl) as [-> ?]. destruct Hph. split; [by apply HH; [|apply Hw] | done].
  - destruct (Hw w eq_refl) as [-> ?]. destruct Hph as [? ?]. split; [by apply HH; [|apply Hw] | done].
  - destruct (Hw w eq_refl) as [-> Hg]. destruct Hph as [? Hx]. split; [done|]. intros x ?. by apply Hg, Hx.
Qed.
