(* ===== verification/EngramPoolSafe.v ===== *)
(** * Looking rows up: the invariant of a run

    On top of the protocol (EngramPoolInv), what the threads of EngramPool keep of the data: a
    cached row is the checkpoint's, a thread that serves has the right row in its hands and has
    served the indices behind it; and every step keeps it. *)
From S2P Require Import Prelude EngramPack EngramStore EngramPool EngramPoolInv.
#[local] Open Scope list_scope.
#[local] Open Scope Z_scope.

(** ** Copies into a buffer *)

Lemma put_same out pos data : 0 <= pos -> pos + zlen data <= zlen out -> bytes_at (put out pos data) pos (zlen data) = data.
Proof.
  intros Hp Hl. unfold put, bytes_at. rewrite drop_app_length' by (unfold zlen in *; rewrite length_take; lia).
  by rewrite take_app_length' by (unfold zlen; lia).
Qed.

Lemma put_other out pos data off n : 0 <= pos -> pos + zlen data <= zlen out -> 0 <= off -> 0 <= n ->
  off + n <= pos \/ pos + zlen data <= off -> bytes_at (put out pos data) off n = bytes_at out off n.
Proof.
  intros Hp Hl Ho Hn Hd. pose proof (zlen_nonneg data). apply list_eq. intros j. unfold bytes_at.
  destruct (decide (j < Z.to_nat n)%nat); [|by rewrite !lookup_take_ge by lia].
  rewrite !lookup_take_lt, !lookup_drop by lia. unfold put, zlen in *. destruct Hd.
  - rewrite lookup_app_l, lookup_take_lt by (rewrite ?length_take; lia). done.
  - rewrite lookup_app_r by (rewrite length_take; lia). rewrite length_take, lookup_app_r by lia. rewrite lookup_drop. f_equal. lia.
Qed.

Section Safe.
Context (ckpt : list Z) (woff soff n : Z) (s : store) (pooled : bool) (Hs : serves ckpt woff soff n s).

(** The row a lookup has to put at an id: the checkpoint's, or zeros when another rank owns it. *)
Definition served (id : Z) : list Z := if owned s id then ckpt_row ckpt woff soff id else zero_row.

Lemma served_length id : zlen (served id) = ROW_BYTES.
Proof.
  unfold served, owned. destruct (_ && _) eqn:E; [|done]. destruct Hs as [Hin _ Hr _ _]. eapply ckpt_row_length; [done|]. apply andb_prop in E as [??]. lia.
Qed.

(** ** Rows in the buffers *)

Definition wgood (k : work) (i : Z) : Prop := bytes_at (w_out k) (i * WEIGHT_BYTES) WEIGHT_BYTES = bytes_at (served (at_z (ids k) i)) 0 WEIGHT_BYTES.
Definition sgood (k : work) (i : Z) : Prop := bytes_at (s_out k) (i * SCALE_BYTES) SCALE_BYTES = bytes_at (served (at_z (ids k) i)) WEIGHT_BYTES SCALE_BYTES.
Definition row_good (k : work) (i : Z) : Prop := wgood k i /\ sgood k i.

Definition tickets (wks : list work) (w : nat) : Z := match wks !! w with Some k => chunks_of k | None => 0 end.
Definition first (t : Z) : Z := t * kChunk.
Definition last (t : Z) (k : work) : Z := Z.min (t * kChunk + kChunk) (count k).
Definition good (wks : list work) (w : nat) (t : Z) : Prop :=
  exists k, wks !! w = Some k /\ forall i, 0 <= i -> first t <= i < last t k -> row_good k i.

(** Later in a run a lookup has the same ids and buffers, and no fewer good rows. *)
Definition work_le (k k' : work) : Prop :=
  ids k' = ids k /\ zlen (w_out k') = zlen (w_out k) /\ zlen (s_out k') = zlen (s_out k) /\
  (forall i, 0 <= i < count k -> wgood k i -> wgood k' i) /\ (forall i, 0 <= i < count k -> sgood k i -> sgood k' i).
Definition works_le (wks wks' : list work) : Prop := forall w k, wks !! w = Some k -> exists k', wks' !! w = Some k' /\ work_le k k'.

Lemma work_le_refl k : work_le k k.
Proof. done. Qed.
Lemma works_le_refl wks : works_le wks wks.
Proof. intros w k Hk. by exists k. Qed.
Lemma row_good_le k k' i : work_le k k' -> 0 <= i < count k -> row_good k i -> row_good k' i.
Proof. intros (_ & _ & _ & Hw & Hc) Hi [? ?]. split; auto. Qed.
Lemma count_le k k' : work_le k k' -> count k' = count k.
Proof. intros [E _]. unfold count. by rewrite E. Qed.
Lemma chunks_of_count k : chunks_of k = count k.
Proof. unfold chunks_of, kChunk. replace (count k + 1 - 1) with (count k) by lia. apply Z.div_1_r. Qed.

Lemma works_le_insert wks w k k' : wks !! w = Some k -> work_le k k' -> works_le wks (<[w := k']> wks).
Proof.
  intros Hk Hle w0 k0 H0. destruct (decide (w0 = w)) as [->|].
  - exists k'. rewrite list_lookup_insert_eq by (by eapply lookup_lt_Some). split; [done|]. by replace k0 with k by congruence.
  - exists k0. by rewrite list_lookup_insert_ne.
Qed.
Lemma works_le_app wks k : works_le wks (wks ++ [k]).
Proof. intros w k0 H0. exists k0. split; [by apply lookup_app_l_Some | done]. Qed.

Lemma good_le wks wks' w t : works_le wks wks' -> good wks w t -> good wks' w t.
Proof.
  intros Hle (k & Hk & Hg). destruct (Hle w k Hk) as (k' & Hk' & Hl). exists k'. split; [done|]. unfold last. rewrite (count_le _ _ Hl). intros i Hi0 Hi.
  eapply row_good_le; [done | lia | by apply Hg].
Qed.

(** ** The threads *)

Definition begins (f : frame) : Z := match f_role f with Serial => 0 | _ => first (f_ticket f) end.
Definition ends (f : frame) (k : work) : Z := match f_role f with Serial => count k | _ => last (f_ticket f) k end.
Definition ticketed (f : frame) (k : work) : Prop := f_role f = Serial \/ 0 <= f_ticket f < chunks_of k.

(** A serve of [f] that is at index [i]. *)
Record serving (wks : list work) (f : frame) (i e : Z) (k : work) : Prop := Serving {
  sg_work : wks !! f_work f = Some k;
  sg_end : e = ends f k;
  sg_at : begins f <= i <= e;
  sg_ticket : ticketed f k;
  sg_done : forall j, begins f <= j < i -> row_good k j
}.

Definition thread_ok (wks : list work) (q : pc) : Prop :=
  match q with
  | Ready | Check _ | Sleep _ | Leave _ => True
  | Lookup w | Serialize w | Publish _ w | Notify w | Wait w | Asleep w | Release w => is_Some (wks !! w)
  | Returned w => exists k, wks !! w = Some k /\ forall i, 0 <= i < count k -> row_good k i
  | Fetch f | Signal f | Test f => f_role f <> Serial /\ is_Some (wks !! f_work f)
  | Serve f i e => exists k, serving wks f i e k
  | Probe f i e id | Read f i e id => exists k, serving wks f i e k /\ i < e /\ id = at_z (ids k) i /\ owned s id = true
  | Fill f i e id row => exists k, serving wks f i e k /\ i < e /\ id = at_z (ids k) i /\ owned s id = true /\ row = served id
  | CopyW f i e row => exists k, serving wks f i e k /\ i < e /\ row = served (at_z (ids k) i)
  | CopyS f i e row => exists k, serving wks f i e k /\ i < e /\ row = served (at_z (ids k) i) /\ wgood k i
  | Finish f => f_role f <> Serial /\ (exists k, wks !! f_work f = Some k /\ ticketed f k) /\ good wks (f_work f) (f_ticket f)
  end.

Lemma begins_nonneg f k : ticketed f k -> 0 <= begins f.
Proof. unfold ticketed, begins, first, kChunk. intros [-> | H]; [done|]. destruct (f_role f); lia. Qed.
Lemma ends_count f k : ends f k <= count k.
Proof. unfold ends, last. destruct (f_role f); lia. Qed.

Lemma serving_le wks wks' f i e k : works_le wks wks' -> serving wks f i e k -> exists k', serving wks' f i e k' /\ work_le k k'.
Proof.
  intros Hle [Hk He Hi Ht Hd]. destruct (Hle _ _ Hk) as (k' & Hk' & Hl). exists k'. split; [|done]. pose proof (count_le _ _ Hl) as Hc.
  pose proof (begins_nonneg _ _ Ht). pose proof (ends_count f k). split; [done | | done | |].
  - subst e. unfold ends, last. by rewrite Hc.
  - destruct Ht as [?|Ht]; [by left|]. right. rewrite chunks_of_count in *. by rewrite Hc.
  - intros j Hj. eapply row_good_le; [done | lia | by apply Hd].
Qed.

Lemma thread_ok_le wks wks' q : works_le wks wks' -> thread_ok wks q -> thread_ok wks' q.
Proof.
  intros Hle. assert (HS : forall w, is_Some (wks !! w) -> is_Some (wks' !! w)) by (intros w [k Hk]; destruct (Hle w k Hk) as (k' & -> & _); done).
  assert (HI : forall f i e k, serving wks f i e k -> 0 <= i) by (intros f i e k [_ _ Hi Ht _]; pose proof (begins_nonneg _ _ Ht); lia).
  assert (HE : forall f i e k, serving wks f i e k -> e <= count k) by (intros f i e k [_ -> _ _ _]; apply ends_count).
  destruct q; cbn; auto.
  - intros (k & Hk & Hg). destruct (Hle w k Hk) as (k' & Hk' & Hl). exists k'. split; [done|]. rewrite (count_le _ _ Hl). intros i Hi. by eapply row_good_le; [| |apply Hg].
  - intros [? ?]; auto.
  - intros [? ?]; auto.
  - intros (k & H). destruct (serving_le _ _ _ _ _ _ Hle H) as (k' & ? & _). by exists k'.
  - intros (k & H & ? & -> & ?). destruct (serving_le _ _ _ _ _ _ Hle H) as (k' & ? & (E & _)). exists k'. by rewrite E.
  - intros (k & H & ? & -> & ?). destruct (serving_le _ _ _ _ _ _ Hle H) as (k' & ? & (E & _)). exists k'. by rewrite E.
  - intros (k & H & ? & -> & ?). destruct (serving_le _ _ _ _ _ _ Hle H) as (k' & ? & (E & _)). exists k'. by rewrite E.
  - intros (k & H & ? & ->). destruct (serving_le _ _ _ _ _ _ Hle H) as (k' & ? & (E & _)). exists k'. by rewrite E.
  - intros (k & H & ? & -> & Hw). pose proof (HI _ _ _ _ H). pose proof (HE _ _ _ _ H). destruct (serving_le _ _ _ _ _ _ Hle H) as (k' & ? & (E & _ & _ & HW & _)).
    exists k'. rewrite E. split; [done|]. split; [done|]. split; [done|]. apply HW; [lia | done].
  - intros (? & (k & Hk & Ht) & Hg). split; [done|]. destruct (Hle _ _ Hk) as (k' & Hk' & Hl). split.
    + exists k'. split; [done|]. destruct Ht as [?|Ht]; [by left|]. right. rewrite chunks_of_count in *. by rewrite (count_le _ _ Hl).
    + by eapply good_le.
  - intros [? ?]; auto.
Qed.

(** ** The cache *)

Record cache_ok (c : cache) : Prop := CacheOk {
  co_length : length (keys c) = length (lines c);
  co_row : forall j key, keys c !! j = Some key -> key <> 0 -> owned s (key - 1) = true /\ lines c !! j = Some (ckpt_row ckpt woff soff (key - 1))
}.

Lemma owned_nonneg id : owned s id = true -> 0 <= id.
Proof. unfold owned. intros [??]%andb_prop. destruct Hs as [_ _ Hr _ _]. lia. Qed.

(** A hit is the checkpoint's row. *)
Lemma probe_ok c id row : cache_ok c -> owned s id = true -> probe s c id = Some row -> row = served id.
Proof.
  intros [_ HC] Ho. unfold probe, find_way. destruct (find _ _) as [w|] eqn:E; [|done]. apply find_some in E as [_ E]. apply Z.eqb_eq in E.
  pose proof (owned_nonneg _ Ho). unfold at_z in E. destruct (keys c !! _) as [key|] eqn:Ek; cbn in E; [|lia]. destruct (HC _ key Ek) as [_ ->]; [lia|].
  intros [= <-]. unfold served. rewrite Ho. f_equal. lia.
Qed.

(** The cache stays right whatever way a row goes to. *)
Lemma fill_ok c id row : cache_ok c -> owned s id = true -> row = served id -> cache_ok (fill s c id row).
Proof.
  intros [HL HC] Ho ->. unfold fill. set (slot := Z.to_nat _). split; cbn [keys lines]; [by rewrite !length_insert|].
  intros j key Hj Hk. apply list_lookup_insert_Some in Hj as [(<- & <- & Hlt)|[Hne Hj]].
  - replace (id + 1 - 1) with id by lia. split; [done|]. rewrite list_lookup_insert_eq by lia. unfold served. by rewrite Ho.
  - rewrite list_lookup_insert_ne by done. by apply HC.
Qed.
(** ** The invariant *)

Definition works_ok (wks : list work) : Prop := forall w k, wks !! w = Some k -> has_room k = true.

Record inv (st : state) : Prop := Inv {
  iv_cache : cache_ok (row_cache st);
  iv_works : works_ok (works st);
  iv_thread : forall t q, threads st !! t = Some q -> thread_ok (works st) q;
  iv_pool : pinv (tickets (works st)) (good (works st)) (map cls_of (threads st)) (pl st)
}.

(** The lookup of a thread exists. *)
Lemma thread_work wks q w : thread_ok wks q -> cls_work (cls_of q) = Some w -> is_Some (wks !! w).
Proof.
  assert (HD : forall f h, cls_work (drain_cls f h) = Some w -> w = f_work f).
  { intros [r w0 t] h. by destruct r; cbn; intros [= ->]. }
  destruct q; cbn; try done; try (intros H [= <-]; exact H).
  all: try (by intros [_ H] ->%HD).
  all: intros H ->%HD; try (destruct H as (k & H); try destruct H as (H & _); destruct H as [-> _ _ _ _]; done).
  destruct H as (_ & (k & -> & _) & _). done.
Qed.

Lemma tickets_le wks wks' w : works_le wks wks' -> is_Some (wks !! w) -> tickets wks' w = tickets wks w.
Proof.
  intros Hle [k Hk]. unfold tickets. rewrite Hk. destruct (Hle w k Hk) as (k' & -> & Hl). rewrite !chunks_of_count. by apply count_le.
Qed.

Lemma inv_works_le st wks : inv st -> works_le (works st) wks -> pinv (tickets wks) (good wks) (map cls_of (threads st)) (pl st).
Proof.
  intros [_ _ HT HP] Hle. eapply pinv_ext; [done|]. intros c w (q & -> & Hq)%list_elem_of_fmap Hw. apply list_elem_of_lookup in Hq as [t Ht].
  split; [|intros x; by apply good_le]. apply tickets_le; [done|]. by eapply thread_work; [eapply HT|].
Qed.

(** A step of one thread that leaves the protocol alone. *)
Lemma inv_local st t q q' c wks : inv st -> threads st !! t = Some q -> cls_of q' = cls_of q ->
  cache_ok c -> works_ok wks -> works_le (works st) wks -> thread_ok wks q' ->
  inv (State c wks (pl st) (<[t := q']> (threads st))).
Proof.
  intros HI Ht Hc HC HW Hle Hq. split; cbn; [done | done | |].
  - intros t0 q0 [(<- & <- & _)|[_ H0]]%list_lookup_insert_Some; [done|]. eapply thread_ok_le; [done|]. by eapply iv_thread.
  - rewrite list_fmap_insert, Hc. rewrite list_insert_id; [by apply inv_works_le|]. by rewrite list_lookup_fmap, Ht.
Qed.

(** A step of the protocol. *)
Lemma inv_proto st t q q' p' : inv st -> threads st !! t = Some q -> thread_ok (works st) q' ->
  pinv (tickets (works st)) (good (works st)) (<[t := cls_of q']> (map cls_of (threads st))) p' ->
  inv (State (row_cache st) (works st) p' (<[t := q']> (threads st))).
Proof.
  intros [HC HW HT _] Ht Hq HP. split; cbn; [done | done | |].
  - intros t0 q0 [(<- & <- & _)|[_ H0]]%list_lookup_insert_Some; [done | by eapply HT].
  - by rewrite list_fmap_insert.
Qed.

Definition woken (wake : pc -> pc) (st : state) : state := State (row_cache st) (works st) (pl st) (map wake (threads st)).

Lemma inv_wake_ready st : inv st -> inv (woken wake_ready st).
Proof.
  intros [HC HW HT HP]. split; cbn; [done | done | |].
  - intros t q. rewrite list_lookup_fmap. destruct (threads st !! t) as [q0|] eqn:E; [|done]. intros [= <-]. apply HT in E. by destruct q0.
  - rewrite map_map. erewrite map_ext; [exact HP|]. intros q. apply cls_wake_ready.
Qed.

Lemma inv_wake_done st : inv st -> inv (woken wake_done st).
Proof.
  intros [HC HW HT HP]. split; cbn; [done | done | |].
  - intros t q. rewrite list_lookup_fmap. destruct (threads st !! t) as [q0|] eqn:E; [|done]. intros [= <-]. apply HT in E. by destruct q0.
  - rewrite map_map. erewrite map_ext; [|intros q; apply cls_wake_done]. rewrite <- map_map. by apply pinv_wake.
Qed.
(** ** Every step keeps it *)

Lemma cls_at st t q : threads st !! t = Some q -> map cls_of (threads st) !! t = Some (cls_of q).
Proof. intros H. by rewrite list_lookup_fmap, H. Qed.

Lemma goto_inv st t q q' st' : inv st -> threads st !! t = Some q -> cls_of q' = cls_of q -> thread_ok (works st) q' ->
  goto t st q' = Next st' -> inv st'.
Proof. intros HI Ht Hc Hq [= <-]. eapply inv_local; [done.. | by destruct HI | by destruct HI | apply works_le_refl | done]. Qed.

(** *** serve *)

Lemma serve_at_ok st f i e k q : serving (works st) f i e k -> serve_at s f k i e = Some q ->
  thread_ok (works st) q /\ cls_of q = drain_cls f (Some (f_ticket f)).
Proof.
  intros HS. pose proof HS as [Hk He Hi Ht Hd]. unfold serve_at. destruct (i <? e) eqn:E.
  - set (id := at_z (ids k) i). destruct (_ || _); [done|]. intros [= <-]. unfold served. destruct (owned s id) eqn:Eo; cbn [negb].
    + destruct (sets s =? 0); cbn; (split; [|done]); exists k; (split; [done|]); (split; [lia | done]).
    + cbn. split; [|done]. exists k. split; [done|]. split; [lia|]. unfold served. fold id. by rewrite Eo.
  - intros [= <-]. assert (i = e) as -> by lia. destruct f as [r w t]. unfold ends, begins, drain_cls in *. destruct r; cbn in *.
    + split; [|done]. exists k. split; [done|]. intros j Hj. apply Hd. lia.
    + split; [|done]. split; [done|]. split; [by exists k|]. exists k. split; [done|]. intros j _ Hj. apply Hd. lia.
    + split; [|done]. split; [done|]. split; [by exists k|]. exists k. split; [done|]. intros j _ Hj. apply Hd. lia.
Qed.

(** The copies of a row: the piece at its index is right, the others are as before. *)
Lemma copy_room f wks i e k : works_ok wks -> serving wks f i e k -> i < e ->
  0 <= i /\ i * WEIGHT_BYTES + WEIGHT_BYTES <= zlen (w_out k) /\ i * SCALE_BYTES + SCALE_BYTES <= zlen (s_out k).
Proof.
  intros HW [Hk He Hi Ht _] Hlt. specialize (HW _ _ Hk). apply andb_prop in HW as [Hw Hc]. pose proof (begins_nonneg _ _ Ht). pose proof (ends_count f k).
  unfold WEIGHT_BYTES, SCALE_BYTES in *. lia.
Qed.

Lemma copy_w_ok k i row : row = served (at_z (ids k) i) -> 0 <= i -> i * WEIGHT_BYTES + WEIGHT_BYTES <= zlen (w_out k) ->
  work_le k (Work (ids k) (put (w_out k) (i * WEIGHT_BYTES) (bytes_at row 0 WEIGHT_BYTES)) (s_out k))
  /\ wgood (Work (ids k) (put (w_out k) (i * WEIGHT_BYTES) (bytes_at row 0 WEIGHT_BYTES)) (s_out k)) i.
Proof.
  intros -> Hi Hr. pose proof (served_length (at_z (ids k) i)) as Hl. set (data := bytes_at _ 0 WEIGHT_BYTES).
  assert (Hd : zlen data = WEIGHT_BYTES) by (apply bytes_at_length; unfold WEIGHT_BYTES, ROW_BYTES in *; lia).
  assert (HG : wgood (Work (ids k) (put (w_out k) (i * WEIGHT_BYTES) data) (s_out k)) i).
  { unfold wgood. cbn [w_out ids]. fold data. pose proof (put_same (w_out k) (i * WEIGHT_BYTES) data) as HP. rewrite Hd in HP. apply HP; unfold WEIGHT_BYTES in *; lia. }
  split; [|done]. split; [done|]. split; [apply put_length; unfold WEIGHT_BYTES in *; lia|]. split; [done|]. split; [|done].
  intros j Hj Hg. destruct (decide (j = i)) as [->|Hne]; [done|]. unfold wgood in *. cbn [w_out ids]. rewrite put_other; [done|..]; unfold WEIGHT_BYTES in *; lia.
Qed.

Lemma copy_s_ok k i row : row = served (at_z (ids k) i) -> 0 <= i -> i * SCALE_BYTES + SCALE_BYTES <= zlen (s_out k) ->
  work_le k (Work (ids k) (w_out k) (put (s_out k) (i * SCALE_BYTES) (bytes_at row WEIGHT_BYTES SCALE_BYTES)))
  /\ sgood (Work (ids k) (w_out k) (put (s_out k) (i * SCALE_BYTES) (bytes_at row WEIGHT_BYTES SCALE_BYTES))) i.
Proof.
  intros -> Hi Hr. pose proof (served_length (at_z (ids k) i)) as Hl. set (data := bytes_at _ WEIGHT_BYTES SCALE_BYTES).
  assert (Hd : zlen data = SCALE_BYTES) by (apply bytes_at_length; unfold WEIGHT_BYTES, SCALE_BYTES, ROW_BYTES in *; lia).
  assert (HG : sgood (Work (ids k) (w_out k) (put (s_out k) (i * SCALE_BYTES) data)) i).
  { unfold sgood. cbn [s_out ids]. fold data. pose proof (put_same (s_out k) (i * SCALE_BYTES) data) as HP. rewrite Hd in HP. apply HP; unfold SCALE_BYTES in *; lia. }
  split; [|done]. split; [done|]. split; [done|]. split; [apply put_length; unfold SCALE_BYTES in *; lia|]. split; [done|].
  intros j Hj Hg. destruct (decide (j = i)) as [->|Hne]; [done|]. unfold sgood in *. cbn [s_out ids]. rewrite put_other; [done|..]; unfold SCALE_BYTES in *; lia.
Qed.

Lemma works_ok_insert wks w k k' : works_ok wks -> wks !! w = Some k -> work_le k k' -> works_ok (<[w := k']> wks).
Proof.
  intros HW Hk Hl w0 k0 [(<- & <- & _)|[_ H0]]%list_lookup_insert_Some; [|by eapply HW]. pose proof (HW _ _ Hk) as Hr. unfold has_room in *.
  rewrite (count_le _ _ Hl). destruct Hl as (_ & -> & -> & _). done.
Qed.

Lemma serving_put wks f i e k k' : serving wks f i e k -> work_le k k' -> serving (<[f_work f := k']> wks) f i e k'.
Proof.
  intros HS Hl. pose proof HS as [Hk _ _ _ _]. destruct (serving_le _ _ _ _ _ _ (works_le_insert _ _ _ _ Hk Hl) HS) as (k2 & HS2 & _).
  assert (k2 = k') as ->; [|done]. destruct HS2 as [Hk2 _ _ _ _]. rewrite list_lookup_insert_eq in Hk2 by (by eapply lookup_lt_Some). congruence.
Qed.

Lemma serve_inv st t q pread st' : inv st -> threads st !! t = Some q -> exec_serve ckpt s t st pread q = Next st' -> inv st'.
Proof.
  intros HI Ht. pose proof (iv_thread _ HI _ _ Ht) as Hq. pose proof HI as [HC HW _ _]. destruct q; try done; cbn [exec_serve thread_ok] in *.
  - destruct Hq as (k & HS). pose proof HS as [Hk _ _ _ _]. rewrite Hk. destruct (serve_at _ _ _ _ _) as [q|] eqn:E; [|done]. apply (serve_at_ok st) in E as [Hq Hc]; [|done].
    by eapply goto_inv.
  - destruct Hq as (k & HS & Hlt & -> & Ho). destruct (probe _ _ _) as [row|] eqn:E; eapply goto_inv; try done; cbn; exists k; [|done].
    split; [done|]. split; [done|]. by eapply probe_ok.
  - destruct Hq as (k & HS & Hlt & Hid & Ho). destruct (disk_row _ _ _ _) as [row|] eqn:E; [|done].
    assert (row = served id) as ->. { unfold served. rewrite Ho. eapply sv_row; [exact Hs | | done]. unfold owned in Ho. blia. }
    eapply goto_inv; [done | done | by destruct (sets s =? 0) |]. destruct (sets s =? 0); cbn; exists k; by subst.
  - destruct Hq as (k & HS & Hlt & -> & Ho & ->). intros [= <-]. eapply inv_local; [done.. | by apply fill_ok | done | apply works_le_refl|]. cbn. by exists k.
  - destruct Hq as (k & HS & Hlt & Hrow). pose proof HS as [Hk _ _ _ _]. rewrite Hk. destruct (copy_room _ _ _ _ _ HW HS Hlt) as (Hi & Hr & _).
    destruct (copy_w_ok k i row Hrow Hi Hr) as [Hl Hg]. intros [= <-].
    eapply inv_local; [done.. | by eapply works_ok_insert | by eapply works_le_insert |]. cbn. eexists. split; [by eapply serving_put|]. done.
  - destruct Hq as (k & HS & Hlt & Hrow & Hw). pose proof HS as [Hk _ _ _ _]. rewrite Hk. destruct (copy_room _ _ _ _ _ HW HS Hlt) as (Hi & _ & Hr).
    destruct (copy_s_ok k i row Hrow Hi Hr) as [Hl Hg]. intros [= <-].
    eapply inv_local; [done.. | by eapply works_ok_insert | by eapply works_le_insert |]. cbn. eexists.
    destruct (serving_put _ _ _ _ _ _ HS Hl) as [Hk2 He2 Hi2 Ht2 Hd2]. split; [done | done | lia | done |].
    intros j Hj. destruct (decide (j = i)) as [->|]; [|apply Hd2; lia]. split; [|done]. exact Hw.
Qed.

(** *** run, drain, loop *)

Lemma caller_inv st t q st' : inv st -> threads st !! t = Some q -> exec_caller t st (pl st) q = Next st' -> inv st'.
Proof.
  intros HI Ht. pose proof (iv_thread _ HI _ _ Ht) as Hq. pose proof (cls_at _ _ _ Ht) as Hc. pose proof (iv_pool _ HI) as HP.
  destruct q as [|w|w|k w|w|w|w|w| | | | | | | | | | | | | |]; try done; cbn [exec_caller thread_ok cls_of] in *.
  - destruct (caller_ (pl st)) eqn:E; [done|]. intros [= <-]. eapply inv_proto; [done.. |]. by apply acquire_step.
  - pose proof Hq as [k0 Hk0]. assert (Htk : tickets (works st) w = chunks_of k0) by (unfold tickets; by rewrite Hk0).
    destruct k as [|[|[|[|k]]]].
    + destruct (mutex_ (pl st)); [done|]. intros [= <-]. eapply inv_proto; [done.. |]. by apply publish_lock_step.
    + intros [= <-]. eapply inv_proto; [done.. |]. apply (publish_store_step _ _ _ _ _ 0); (done || lia).
    + rewrite Hk0. intros [= <-]. eapply inv_proto; [done.. |]. apply (publish_store_step _ _ _ _ _ 1); (done || lia).
    + rewrite Hk0. intros [= <-]. eapply inv_proto; [done.. |]. apply (publish_store_step _ _ _ _ _ 2); (done || lia).
    + intros [= <-]. eapply inv_proto; [done.. |]. destruct k as [|k].
      * apply publish_unlock_step; [|done | done]. rewrite Htk, chunks_of_count. apply zlen_nonneg.
      * exfalso. destruct HP as [HO _ HP]. rewrite (proj1 (HO t _ Hc) eq_refl) in HP. destruct HP as (c & Hc' & Hph).
        rewrite Hc in Hc'. injection Hc' as <-. destruct Hph as (_ & _ & _ & Hk & _). lia.
  - intros [= <-]. pose proof (inv_wake_ready _ HI) as HI'. assert (Ht' : map wake_ready (threads st) !! t = Some (Notify w)) by (by rewrite list_lookup_fmap, Ht).
    apply (inv_proto (woken wake_ready st) t _ _ (pl st) HI' Ht'); [done|]. eapply notify_step; [apply HI' | exact (cls_at (woken wake_ready st) _ _ Ht')].
  - destruct (mutex_ (pl st)) eqn:Em; [done|]. destruct (_ && _) eqn:E; intros [= <-]; (eapply inv_proto; [done.. |]).
    + rewrite <- Em. apply andb_prop in E as [??]. apply wait_done_step; [done | done | lia | lia].
    + by apply wait_sleep_step.
  - intros [= <-]. eapply inv_proto; [done | done | | exact (proj1 (release_step _ _ _ _ _ _ HP Hc))]. cbn.
    destruct (release_step _ _ _ _ _ _ HP Hc) as [_ Hg]. destruct Hq as [k Hk]. exists k. split; [done|]. intros i Hi.
    unfold tickets in Hg. rewrite Hk, chunks_of_count in Hg. destruct (Hg i Hi) as (k' & Hk' & Hr). assert (k' = k) as -> by congruence. apply Hr; unfold first, last, kChunk; lia.
Qed.

Lemma drain_inv st t q st' : inv st -> threads st !! t = Some q -> exec_drain t st (pl st) q = Next st' -> inv st'.
Proof.
  intros HI Ht. pose proof (iv_thread _ HI _ _ Ht) as Hq. pose proof (cls_at _ _ _ Ht) as Hc. pose proof (iv_pool _ HI) as HP.
  destruct q as [| | | | | | | | | | | |f|f| | | | | | |f|f]; try done; destruct f as [r w x]; cbn [exec_drain thread_ok cls_of f_role f_work f_ticket] in *.
  - intros [= <-]. destruct Hq as [Hr Hw]. eapply inv_proto; [done | done | done|]. destruct r; [done | |]; by apply fetch_step.
  - destruct Hq as [Hr Hw]. assert (HR : exists b, drain_cls (Frame r w x) (Some x) = CDrain b w (Some x)) by (destruct r; [done | by eexists | by eexists]).
    destruct HR as [b Hb]. rewrite Hb in Hc. pose proof (drain_running _ _ _ _ _ _ _ _ HP Hc) as [_ _ Hch _ _ _ Htk _].
    specialize (Htk _ _ _ (list_elem_of_lookup_2 _ _ _ Hc)). destruct (_ <=? x) eqn:E.
    + intros [= <-]. eapply inv_proto; [done | done | by destruct r|]. eapply exit_step; [done | done | lia | destruct r; [done | |]; cbn in Hb; by injection Hb as <-].
    + destruct Hw as [k Hk]. rewrite Hk. assert (Hx : 0 <= x < chunks_of k) by (unfold tickets in Hch; rewrite Hk in Hch; lia).
      eapply goto_inv; [done | done | done|]. cbn. exists k. rewrite chunks_of_count in Hx.
      destruct r; [done | |]; (split; cbn; unfold first, last, kChunk; [done | done | lia | right; rewrite chunks_of_count; cbn; lia | lia]).
  - destruct Hq as (Hr & (k & Hk & Htk) & Hg). destruct Htk as [?|Htk]; [done|]. cbn in Htk. intros [= <-].
    assert (Hlt : x < tickets (works st) w) by (unfold tickets; rewrite Hk; lia).
    eapply inv_proto; [done | done | destruct (_ =? 1); cbn; split; [done | by exists k | done | by exists k]|].
    destruct r; [done | |]; (destruct (_ =? 1); exact (finish_step _ _ _ _ _ _ w x HP Hc Hlt Hg)).
  - destruct (mutex_ (pl st)); [done|]. intros [= <-]. pose proof (inv_wake_done _ HI) as HI'.
    assert (Ht' : map wake_done (threads st) !! t = Some (Signal (Frame r w x))) by (by rewrite list_lookup_fmap, Ht).
    apply (inv_proto (woken wake_done st) t _ _ (pl st) HI' Ht'); [done|]. rewrite list_insert_id; [apply HI'|]. exact (cls_at (woken wake_done st) _ _ Ht').
Qed.

Lemma worker_inv st t q st' : inv st -> threads st !! t = Some q -> exec_worker t st (pl st) q = Next st' -> inv st'.
Proof.
  intros HI Ht. pose proof (cls_at _ _ _ Ht) as Hc. pose proof (iv_pool _ HI) as HP. destruct q; try done; cbn [exec_worker cls_of] in *.
  - destruct (mutex_ (pl st)) eqn:Em; [done|]. destruct (_ =? seen); [by eapply goto_inv|]. destruct (job_ (pl st)) as [w|] eqn:Ej; [|by eapply goto_inv].
    intros [= <-]. assert (Hw : is_Some (works st !! w)).
    { destruct HP as [HO HA HP]. destruct (caller_ (pl st)) as [t0|]; [|destruct HP as (_ & ? & _); congruence]. destruct HP as (c & Hc0 & Hph).
      rewrite list_lookup_fmap in Hc0. destruct (threads st !! t0) as [q0|] eqn:Eq; [|done]. injection Hc0 as Ecls. pose proof (iv_thread _ HI _ _ Eq) as Hq0.
      assert (cls_work c = Some w) as Hcw.
      { destruct c as [|[|k] w0|w0|w0|w0|w0| |[] w0 h0]; try done; cbn in *; try (by destruct Hph as (_ & ? & _); congruence);
          try (by destruct Hph as [(_ & ? & _)]; congruence); try (destruct Hph as [_ ? _ _ _ _ _ _]; congruence);
          try (destruct Hph as [[_ ? _ _ _ _ _ _] _]; congruence). }
      subst c. by eapply thread_work. }
    eapply inv_proto; [done | done | done |]. rewrite <- Ej, <- Em. by apply take_step.
  - destruct (mutex_ (pl st)) eqn:Em; [done|]. intros [= <-]. pose proof (inv_wake_done _ HI) as HI'.
    assert (Ht' : map wake_done (threads st) !! t = Some (Leave seen)) by (by rewrite list_lookup_fmap, Ht).
    apply (inv_proto (woken wake_done st) t _ _ _ HI' Ht'); [done|]. rewrite <- Em. eapply leave_step; [apply HI' | exact (cls_at (woken wake_done st) _ _ Ht') | done |]. cbn.
    intros w (q & E & (q0 & -> & _)%list_elem_of_fmap)%list_elem_of_fmap. rewrite cls_wake_done in E. by destruct (cls_of q0).
Qed.

Lemma start_inv st t q k st' : inv st -> threads st !! t = Some q -> cls_of q = CIdle -> start_lookup t st k = Next st' -> inv st'.
Proof.
  intros HI Ht Hc. unfold start_lookup. destruct (has_room k) eqn:Er; [|done]. intros [= <-]. pose proof HI as [HC HW _ _].
  eapply inv_local; [done | done | by rewrite Hc | done | | apply works_le_app |].
  - intros w k0 [H0|[_ H0]]%lookup_app_Some; [by eapply HW|]. by apply list_lookup_singleton_Some in H0 as [_ <-].
  - cbn. rewrite lookup_app_r, Nat.sub_diag by done. done.
Qed.

Theorem exec_inv t ch st st' : inv st -> exec ckpt s pooled t ch st = Next st' -> inv st'.
Proof.
  intros HI. unfold exec. destruct (threads st !! t) as [q|] eqn:Ht; [|done]. pose proof (iv_thread _ HI _ _ Ht) as Hq.
  pose proof (cls_at _ _ _ Ht) as Hc. pose proof (iv_pool _ HI) as HP.
  destruct q, ch; try done; cbn [default]; intros E.
  all: try (by eapply start_inv). all: try (by eapply caller_inv). all: try (by eapply worker_inv). all: try (by eapply drain_inv). all: try (by eapply serve_inv).
  - destruct Hq as [k Hk]. unfold exec_lookup in E. rewrite Hk in E. destruct (_ || _); (refine (goto_inv _ _ _ _ _ HI Ht _ _ E); [done|]); cbn; [|by exists k].
    exists k. split; cbn; [done | done | unfold begins, count; cbn; pose proof (zlen_nonneg (ids k)); lia | by left | unfold begins; cbn; lia].
  - injection E as <-. eapply inv_proto; [done | done | done|]. by apply wake_step.
  - by refine (goto_inv _ _ _ _ _ HI Ht _ _ E).
Qed.
Lemma start_ok c callers workers : empty_cache s c -> inv (start c callers workers).
Proof.
  intros (Hk & Hl & _). assert (HT : forall t q, (replicate callers Ready ++ replicate workers (Check 0)) !! t = Some q -> q = Ready \/ q = Check 0).
  { intros t q [H|[_ H]]%lookup_app_Some; apply lookup_replicate in H as [-> _]; auto. }
  split; cbn.
  - split; [by rewrite Hk, length_replicate|]. intros j key Hj Hn. rewrite Hk in Hj. apply lookup_replicate in Hj as [-> _]. done.
  - intros w k Hw. done.
  - intros t q Hq. by destruct (HT t q Hq) as [-> | ->].
  - assert (HC : forall c0, c0 ∈ map cls_of (replicate callers Ready ++ replicate workers (Check 0)) -> c0 = CIdle).
    { intros c0 (q & -> & (t & Hq)%list_elem_of_lookup)%list_elem_of_fmap. by destruct (HT t q Hq) as [-> | ->]. }
    split; cbn.
    + intros t c0 Hc0%list_elem_of_lookup_2. by rewrite (HC _ Hc0).
    + symmetry. erewrite zcount_ext; [apply (zcount_const false)|]. intros c0 Hc0. by rewrite (HC _ Hc0).
    + done.
Qed.

Lemma reach_ok c callers workers st : empty_cache s c -> reach ckpt s pooled c callers workers st -> inv st.
Proof. intros Hc. induction 1 as [|t ch st st' _ IH Hx]; [by apply start_ok | by eapply exec_inv]. Qed.
End Safe.
