(* ===== verification/EngramPoolLive.v ===== *)
(** * Looking rows up: every lookup returns

    A measure that every step of a thread lowers, wakeups without a cause and new lookups apart;
    and that a thread is only ever blocked while another one can go on, until all lookups have
    returned: no wakeup is lost. *)
From S2P Require Import Prelude EngramPack EngramStore EngramPool EngramPoolInv EngramPoolSafe.
#[local] Open Scope list_scope.
#[local] Open Scope Z_scope.

(** ** The measure *)

Section Measure.
(** The threads, the ids of a lookup, and the pool's generation and chunks. *)
Context (T : Z) (cnt : nat -> Z) (g ch : Z).

(** What is left of a drain that draws no ticket, a ticket's rows, and a job to publish. *)
Definition fetch_cost : Z := T + 6.
Definition ticket_cost : Z := T + 12.
Definition publish_cost (w : nat) : Z := ticket_cost * cnt w + T * fetch_cost + fetch_cost + T + 1.
(** A worker that has not seen the generation may enter its drain. *)
Definition armed (seen : Z) : Z := if g =? seen then 0 else fetch_cost.

Definition role_armed (f : frame) : Z := match f_role f with Worker seen => armed seen | _ => 0 end.
Definition after_serve (f : frame) : Z := match f_role f with Serial => 1 | _ => fetch_cost + T + 3 end.
Definition serve_cost (f : frame) (i e : Z) : Z := 6 * (e - i) + after_serve f + role_armed f.

Definition cost (q : pc) : Z :=
  match q with
  | Ready | Returned _ => 0
  | Lookup w => publish_cost w + 6 * cnt w + 9
  | Serialize w => publish_cost w + 6
  | Publish k w => publish_cost w + 5 - Z.min 4 (Z.of_nat k)
  | Notify w => fetch_cost + T + 1
  | Wait w => 3
  | Asleep w => 2
  | Release w => 1
  | Check seen => 1 + armed seen
  | Sleep seen => armed seen
  | Leave seen => T + 2 + armed seen
  | Fetch f => fetch_cost + role_armed f
  | Test f => fetch_cost - 1 + (if f_ticket f <? ch then ticket_cost else 0) + role_armed f
  | Serve f i e => serve_cost f i e
  | Probe f i e _ => serve_cost f i e - 1
  | Read f i e _ => serve_cost f i e - 2
  | Fill f i e _ _ => serve_cost f i e - 3
  | CopyW f i e _ => serve_cost f i e - 4
  | CopyS f i e _ => serve_cost f i e - 5
  | Finish f => fetch_cost + T + 2 + role_armed f
  | Signal f => fetch_cost + T + 1 + role_armed f
  end.
End Measure.

(** The tickets of a published job that nobody has drawn. *)
Definition undrawn (p : pool) : Z :=
  match mutex_ p, job_ p with false, Some _ => Z.max 0 (chunks_ p - next_ p) | _, _ => 0 end.

Definition ids_of (wks : list work) (w : nat) : Z := match wks !! w with Some k => count k | None => 0 end.
Definition size (st : state) : Z := zlen (threads st).
Definition cost_at (st : state) (q : pc) : Z := cost (size st) (ids_of (works st)) (generation_ (pl st)) (chunks_ (pl st)) q.
Definition measure (st : state) : Z := ticket_cost (size st) * undrawn (pl st) + zsum (map (cost_at st) (threads st)).

(** ** Sums over the threads *)

Lemma zsum_insert {A} (f : A -> Z) l t a a' : l !! t = Some a -> zsum (map f (<[t := a']> l)) = zsum (map f l) - f a + f a'.
Proof.
  revert t. induction l as [|b l IH]; intros t Ht; [done|]. destruct t as [|t]; [injection Ht as ->; cbn; lia|].
  change (<[S t := a']> (b :: l)) with (b :: <[t := a']> l). cbn [map zsum]. rewrite (IH t Ht). lia.
Qed.

Lemma zsum_le {A} (f h : A -> Z) d l : (forall a, a ∈ l -> h a <= f a + d) -> zsum (map h l) <= zsum (map f l) + d * zlen l.
Proof.
  intros H. induction l as [|a l IH]; [rewrite (@zlen_nil A); cbn [map zsum]; lia|]. cbn [map zsum]. rewrite zlen_cons, Z.mul_add_distr_l, Z.mul_1_r. pose proof (H a ltac:(by left)).
  specialize (IH ltac:(intros b Hb; apply H; by right)). lia.
Qed.

Lemma zsum_ext {A} (f h : A -> Z) l : (forall a, a ∈ l -> h a = f a) -> zsum (map h l) = zsum (map f l).
Proof. intros H. f_equal. apply map_ext_in. intros a Ha%list_elem_of_In. by apply H. Qed.

Lemma undrawn_nonneg p : 0 <= undrawn p.
Proof. unfold undrawn. destruct (mutex_ p), (job_ p); lia. Qed.

Section Live.
Context (ckpt : list Z) (woff soff n : Z) (s : store) (pooled : bool) (Hs : serves ckpt woff soff n s).
#[local] Notation inv := (inv ckpt woff soff s).
#[local] Notation thread_ok := (thread_ok ckpt woff soff s).

(** A thread is in its serve, so the rest of its rows is not negative. *)
Lemma cost_nonneg st t q : inv st -> threads st !! t = Some q -> 0 <= cost_at st q.
Proof.
  intros HI Ht. pose proof (iv_thread _ _ _ _ _ HI _ _ Ht) as Hq. unfold cost_at.
  assert (HT : 0 <= size st) by apply zlen_nonneg.
  assert (HC : forall w, 0 <= ids_of (works st) w) by (intros w; unfold ids_of; destruct (works st !! w); [apply zlen_nonneg | lia]).
  assert (HA : forall seen, 0 <= armed (size st) (generation_ (pl st)) seen) by (intros; unfold armed, fetch_cost; destruct (_ =? _); lia).
  assert (HR : forall f, 0 <= role_armed (size st) (generation_ (pl st)) f) by (intros [[| |] w x]; cbn; [lia | lia | apply HA]).
  assert (HP : forall w, 0 <= publish_cost (size st) (ids_of (works st)) w).
  { intros w. unfold publish_cost, ticket_cost, fetch_cost. specialize (HC w). nia. }
  assert (HS : forall f i e, i <= e -> 1 + 6 * (e - i) <= serve_cost (size st) (generation_ (pl st)) f i e).
  { intros f i e Hie. unfold serve_cost, after_serve, fetch_cost. specialize (HR f). destruct (f_role f); lia. }
  destruct q as [|w|w|k w|w|w|w|w|w|seen|seen|seen|f|f|f i e|f i e id|f i e id|f i e id row|f i e row|f i e row|f|f]; cbn [cost thread_ok] in *;
    try (specialize (HP w); specialize (HC w)); try (specialize (HA seen)); try (specialize (HR f)); unfold fetch_cost, ticket_cost in *; try lia.
  - destruct (f_ticket f <? chunks_ (pl st)); lia.
  - destruct Hq as (k & [_ _ ? _ _]). specialize (HS f i e ltac:(lia)). lia.
  - destruct Hq as (k & _ & Hlt & _). specialize (HS f i e ltac:(lia)). lia.
  - destruct Hq as (k & _ & Hlt & _). specialize (HS f i e ltac:(lia)). lia.
  - destruct Hq as (k & _ & Hlt & _). specialize (HS f i e ltac:(lia)). lia.
  - destruct Hq as (k & _ & Hlt & _). specialize (HS f i e ltac:(lia)). lia.
  - destruct Hq as (k & _ & Hlt & _). specialize (HS f i e ltac:(lia)). lia.
Qed.

Lemma measure_nonneg st : inv st -> 0 <= measure st.
Proof.
  intros HI. unfold measure. pose proof (undrawn_nonneg (pl st)). assert (0 <= size st) by apply zlen_nonneg.
  assert (0 <= zsum (map (cost_at st) (threads st))); [|unfold ticket_cost; nia].
  apply zsum_nonneg, Forall_forall. intros x (q & -> & (t & Ht)%list_elem_of_lookup)%list_elem_of_fmap. by eapply cost_nonneg.
Qed.

(** ** A step lowers it *)

(** One thread moves; what the others' costs depend on is as before. *)
Lemma measure_one st c wks p' t q q' :
  threads st !! t = Some q -> (forall w, ids_of wks w = ids_of (works st) w) -> generation_ p' = generation_ (pl st) -> chunks_ p' = chunks_ (pl st) ->
  ticket_cost (size st) * undrawn p' + cost_at st q' < ticket_cost (size st) * undrawn (pl st) + cost_at st q ->
  measure (State c wks p' (<[t := q']> (threads st))) < measure st.
Proof.
  intros Ht Hw Hg Hc Hlt. unfold measure. assert (Hsz : size (State c wks p' (<[t := q']> (threads st))) = size st) by (unfold size, zlen; cbn; by rewrite length_insert).
  rewrite Hsz. cbn [threads pl]. rewrite (zsum_ext (cost_at st)); [rewrite (zsum_insert _ _ _ q) by done; lia|].
  intros a _. unfold cost_at. rewrite Hsz. cbn [works pl]. rewrite Hg, Hc.
  destruct a as [|w|w|k w|w|w|w|w|w|seen|seen|seen|f|f|f i e|f i e id|f i e id|f i e id row|f i e row|f i e row|f|f]; cbn [cost]; unfold publish_cost; by rewrite ?Hw.
Qed.

(** The same, with a notification first. *)
Lemma measure_waking st p' wake t q q' :
  threads st !! t = Some q -> (forall a, cost_at st (wake a) <= cost_at st a + 1) -> wake q = q ->
  generation_ p' = generation_ (pl st) -> chunks_ p' = chunks_ (pl st) -> undrawn p' = undrawn (pl st) -> cost_at st q' + size st < cost_at st q ->
  measure (State (row_cache st) (works st) p' (<[t := q']> (map wake (threads st)))) < measure st.
Proof.
  intros Ht Hw Hq Hg Hc Hu Hlt. unfold measure.
  assert (Hsz : size (State (row_cache st) (works st) p' (<[t := q']> (map wake (threads st)))) = size st) by (unfold size, zlen; cbn; by rewrite length_insert, length_map).
  rewrite Hsz. cbn [threads pl]. rewrite Hu. rewrite (zsum_ext (cost_at st)) by (intros a _; unfold cost_at; rewrite Hsz; cbn [works pl]; by rewrite Hg, Hc).
  assert (Ht' : map wake (threads st) !! t = Some q) by (by rewrite list_lookup_fmap, Ht; cbn; rewrite Hq).
  rewrite (zsum_insert _ _ _ q) by done. rewrite map_map. pose proof (zsum_le (cost_at st) (fun a => cost_at st (wake a)) 1 (threads st) ltac:(intros; apply Hw)) as Hsum.
  unfold size in *. lia.
Qed.

Lemma wake_ready_cost st a : cost_at st (wake_ready a) <= cost_at st a + 1.
Proof. destruct a; cbn; unfold cost_at; cbn [cost]; lia. Qed.
Lemma wake_done_cost st a : cost_at st (wake_done a) <= cost_at st a + 1.
Proof. destruct a; cbn; unfold cost_at; cbn [cost]; lia. Qed.

Lemma ids_of_insert wks w k k' w0 : wks !! w = Some k -> ids k' = ids k -> ids_of (<[w := k']> wks) w0 = ids_of wks w0.
Proof.
  intros Hk E. unfold ids_of. destruct (decide (w0 = w)) as [->|Hne].
  - rewrite list_lookup_insert_eq by (by eapply lookup_lt_Some). rewrite Hk. unfold count. by rewrite E.
  - by rewrite list_lookup_insert_ne.
Qed.

Lemma goto_measure st t q q' st' : threads st !! t = Some q -> cost_at st q' < cost_at st q -> goto t st q' = Next st' -> measure st' < measure st.
Proof. intros Ht Hlt [= <-]. apply (measure_one st _ _ _ _ q); try done. lia. Qed.

Lemma serve_measure st t q pread st' : inv st -> threads st !! t = Some q -> exec_serve ckpt s t st pread q = Next st' -> measure st' < measure st.
Proof.
  intros HI Ht. pose proof (iv_thread _ _ _ _ _ HI _ _ Ht) as Hq.
  destruct q as [| | | | | | | | | | | | | |f i e|f i e id|f i e id|f i e id row|f i e row|f i e row| |]; try done; cbn [exec_serve EngramPoolSafe.thread_ok] in *.
  - destruct Hq as (k & HS). pose proof HS as [Hk _ Hi _ _]. rewrite Hk. destruct (serve_at _ _ _ _ _) as [q|] eqn:E; [|done]. apply (goto_measure _ _ _ _ _ Ht).
    unfold serve_at in E. destruct (i <? e) eqn:Elt.
    + destruct (_ || _); [done|]. injection E as <-. destruct (negb _); [|destruct (_ =? 0)]; unfold cost_at; cbn [cost]; lia.
    + injection E as <-. assert (i = e) as -> by lia. unfold cost_at. destruct f as [[| |seen] w x]; cbn; unfold serve_cost, after_serve; cbn; lia.
  - destruct (probe _ _ _); apply (goto_measure _ _ _ _ _ Ht); unfold cost_at; cbn [cost]; lia.
  - destruct (disk_row _ _ _ _); [|done]. apply (goto_measure _ _ _ _ _ Ht). destruct (_ =? 0); unfold cost_at; cbn [cost]; lia.
  - intros [= <-]. eapply measure_one; [done..|]. unfold cost_at; cbn [cost]; lia.
  - destruct (works st !! f_work f) as [k|] eqn:Hk; [|done]. intros [= <-]. eapply measure_one; [done | intros w; by eapply ids_of_insert | done | done |]. unfold cost_at; cbn [cost]; lia.
  - destruct (works st !! f_work f) as [k|] eqn:Hk; [|done]. intros [= <-]. eapply measure_one; [done | intros w; by eapply ids_of_insert | done | done |].
    unfold cost_at; cbn [cost]. unfold serve_cost. lia.
Qed.
(** The owner of [caller_] is where the phase says. *)
Lemma owner_phase st t q : inv st -> threads st !! t = Some q -> owns (cls_of q) = true ->
  caller_ (pl st) = Some t /\ phase (tickets (works st)) (good ckpt woff soff s (works st)) (pl st) (map cls_of (threads st)) (cls_of q).
Proof.
  intros HI Ht Ho. pose proof (cls_at _ _ _ Ht) as Hc. destruct (iv_pool _ _ _ _ _ HI) as [HO _ HP]. pose proof (proj1 (HO t _ Hc) Ho) as E. split; [done|].
  rewrite E in HP. destruct HP as (c & Hc' & Hph). by replace (cls_of q) with c by congruence.
Qed.

(** While a job is being published, no thread is in a drain. *)
Lemma publishing st t k w : inv st -> threads st !! t = Some (Publish k w) ->
  (k <= 4)%nat /\ active_ (pl st) = 0 /\ (k = 0%nat -> job_ (pl st) = None) /\ ((1 <= k)%nat -> mutex_ (pl st) = true) /\
  ((4 <= k)%nat -> job_ (pl st) = Some w /\ next_ (pl st) = 0 /\ chunks_ (pl st) = ids_of (works st) w) /\
  forall f, Test f ∉ threads st.
Proof.
  intros HI Ht. destruct (owner_phase _ _ _ HI Ht eq_refl) as [Hcal Hph].
  assert (HA : active_ (pl st) = 0) by (destruct k as [|k]; [destruct Hph as (_ & _ & H0) | destruct Hph as (_ & _ & H0 & _)]; exact H0).
  assert (HD : forall f, Test f ∉ threads st).
  { intros f Hq. pose proof Hq as (t0 & H0)%list_elem_of_lookup. pose proof (iv_thread _ _ _ _ _ HI _ _ H0) as [Hr _].
    assert (exists b, cls_of (Test f) = CDrain b (f_work f) (Some (f_ticket f))) as [b Hb] by (cbn; unfold drain_cls; destruct (f_role f); [done | by eexists | by eexists]).
    eapply (nobody_drains _ _ _ _ _ _ (iv_pool _ _ _ _ _ HI) Hcal (cls_at _ _ _ Ht)); [done | done |]. rewrite <- Hb. by apply list_elem_of_fmap_2. }
  assert (HC : tickets (works st) w = ids_of (works st) w) by (unfold tickets, ids_of; destruct (works st !! w); [apply chunks_of_count | done]).
  destruct k as [|k]; cbn [phase cls_of] in Hph.
  - destruct Hph as (_ & Hj & _). split; [lia|]. split; [done|]. split; [done|]. split; [lia|]. split; [lia | done].
  - destruct Hph as (Hm & Hj & _ & Hk & H2 & H3 & _). split; [done|]. split; [done|]. split; [done|]. split; [done|]. split; [|done].
    intros Hk4. split; [done|]. split; [apply H2; lia | rewrite <- HC; apply H3; lia].
Qed.

(** A new number of chunks changes no cost, and a new generation arms each worker once more. *)
Lemma measure_publish st p' t k w q' : inv st -> threads st !! t = Some (Publish k w) -> (k = 2 \/ k = 4)%nat ->
  let st' := State (row_cache st) (works st) p' (<[t := q']> (threads st)) in
  (generation_ p' = generation_ (pl st) \/ k = 4%nat) -> (chunks_ p' = chunks_ (pl st) \/ k = 2%nat) ->
  cost (size st) (ids_of (works st)) (generation_ p') (chunks_ p') q' = cost_at st q' ->
  ticket_cost (size st) * undrawn p' + cost_at st q' + (if (k =? 4)%nat then size st * fetch_cost (size st) else 0)
    < cost_at st (Publish k w) ->
  measure st' < measure st.
Proof.
  intros HI Ht Hk st' Hg Hc Hq' Hlt. destruct (publishing _ _ _ _ HI Ht) as (_ & _ & _ & _ & _ & HD).
  assert (Hsz : size st' = size st) by (unfold st', size, zlen; cbn; by rewrite length_insert). assert (HT : 0 <= size st) by apply zlen_nonneg.
  unfold measure. rewrite Hsz. replace (zsum (map (cost_at st') (threads st'))) with (zsum (map (cost_at st') (threads st)) - cost_at st' (Publish k w) + cost_at st q').
  2: { rewrite <- Hq', <- Hsz. symmetry. by apply (zsum_insert (cost_at st')). }
  assert (HP : cost_at st' (Publish k w) = cost_at st (Publish k w)) by (unfold cost_at; by rewrite Hsz). rewrite HP.
  assert (HZ : zsum (map (cost_at st') (threads st)) <= zsum (map (cost_at st) (threads st)) + (if (k =? 4)%nat then fetch_cost (size st) else 0) * zlen (threads st)).
  { apply zsum_le. intros a Ha. unfold cost_at. rewrite Hsz. cbn [works pl st'].
    assert (HA : forall seen, armed (size st) (generation_ p') seen <= armed (size st) (generation_ (pl st)) seen + (if (k =? 4)%nat then fetch_cost (size st) else 0)).
    { intros seen. unfold armed, fetch_cost. destruct Hg as [E|E]; [rewrite E; destruct (_ =? seen); destruct (k =? 4)%nat; lia|].
      subst k. cbn [Nat.eqb]. destruct (_ =? seen), (_ =? seen); lia. }
    assert (HR : forall f, role_armed (size st) (generation_ p') f <= role_armed (size st) (generation_ (pl st)) f + (if (k =? 4)%nat then fetch_cost (size st) else 0)).
    { intros [[| |seen] w0 x]; cbn [role_armed f_role]; [| |apply HA]; unfold fetch_cost; destruct (k =? 4)%nat; lia. }
    assert (HF : 0 <= (if (k =? 4)%nat then fetch_cost (size st) else 0)) by (unfold fetch_cost; destruct (k =? 4)%nat; lia).
    destruct a as [|w0|w0|k0 w0|w0|w0|w0|w0|w0|seen|seen|seen|f|f|f i e|f i e id|f i e id|f i e id row|f i e row|f i e row|f|f]; cbn [cost]; unfold serve_cost;
      try (specialize (HA seen)); try (specialize (HR f)); try lia.
    by destruct (HD f). }
  change (pl st') with p'. assert (0 <= ticket_cost (size st) * undrawn (pl st)) by (pose proof (undrawn_nonneg (pl st)); unfold ticket_cost; nia).
  change (zlen (threads st)) with (size st) in HZ. destruct (k =? 4)%nat; lia.
Qed.
Lemma size_nonneg st : 0 <= size st.
Proof. apply zlen_nonneg. Qed.

(** A pool in which nothing to draw is left, or as much as before, with a cheaper thread. *)
Lemma pool_measure st t q p' q' st' : threads st !! t = Some q -> generation_ p' = generation_ (pl st) -> chunks_ p' = chunks_ (pl st) ->
  undrawn p' <= undrawn (pl st) -> cost_at st q' < cost_at st q -> goto_pool t st p' q' = Next st' -> measure st' < measure st.
Proof.
  intros Ht Hg Hc Hu Hlt [= <-]. apply (measure_one st _ _ _ _ q); try done. pose proof (size_nonneg st). unfold ticket_cost. nia.
Qed.

Lemma caller_measure st t q st' : inv st -> threads st !! t = Some q -> exec_caller t st (pl st) q = Next st' -> measure st' < measure st.
Proof.
  intros HI Ht. pose proof (size_nonneg st) as HT. pose proof (undrawn_nonneg (pl st)) as HU.
  destruct q as [|w|w|k w|w|w|w|w| | | | | | | | | | | | | |]; try done; cbn [exec_caller].
  - destruct (caller_ (pl st)); [done|]. apply (pool_measure _ _ _ _ _ _ Ht); try done. unfold cost_at; cbn [cost]. lia.
  - destruct (publishing _ _ _ _ HI Ht) as (Hk & _ & Hj & Hm & H4 & _). destruct k as [|[|[|[|k]]]].
    + destruct (mutex_ (pl st)); [done|]. apply (pool_measure _ _ _ _ _ _ Ht); try done. unfold cost_at; cbn [cost]. lia.
    + apply (pool_measure _ _ _ _ _ _ Ht); try done; [unfold undrawn; cbn; by rewrite Hm by lia | unfold cost_at; cbn [cost]; lia].
    + destruct (works st !! w) as [k0|]; [|done]. intros [= <-]. apply (measure_publish _ _ _ 2 w); [exact HI | exact Ht | auto | auto | auto | done |].
      unfold cost_at, undrawn; cbn. rewrite Hm by lia. lia.
    + destruct (works st !! w) as [k0|]; [|done]. apply (pool_measure _ _ _ _ _ _ Ht); try done. unfold cost_at; cbn [cost]; lia.
    + assert (k = 0)%nat as -> by lia. destruct (H4 ltac:(lia)) as (Hj4 & Hn4 & Hc4). intros [= <-]. apply (measure_publish _ _ _ 4 w); [exact HI | exact Ht | auto | auto | auto | done |].
      unfold undrawn; cbn [mutex_ job_ chunks_ next_ Nat.eqb]. rewrite Hj4, Hn4, Hc4. unfold cost_at; cbn [cost]. unfold publish_cost.
      assert (0 <= ids_of (works st) w) by (unfold ids_of; destruct (works st !! w); [apply zlen_nonneg | lia]).
      rewrite Z.sub_0_r, Z.max_r by done. lia.
  - intros [= <-]. apply (measure_waking _ _ wake_ready _ (Notify w)); try done; [apply wake_ready_cost|]. unfold cost_at; cbn [cost role_armed f_role]. lia.
  - destruct (mutex_ (pl st)) eqn:Em; [done|]. destruct (_ && _).
    + apply (pool_measure _ _ _ _ _ _ Ht); try done.
    + by apply (goto_measure _ _ _ _ _ Ht).
  - by apply (pool_measure _ _ _ _ _ _ Ht).
Qed.

Lemma drain_measure st t q st' : inv st -> threads st !! t = Some q -> exec_drain t st (pl st) q = Next st' -> measure st' < measure st.
Proof.
  intros HI Ht. pose proof (iv_thread _ _ _ _ _ HI _ _ Ht) as Hq. pose proof (size_nonneg st) as HT.
  destruct q as [| | | | | | | | | | | |f|f| | | | | | |f|f]; try done; cbn [exec_drain EngramPoolSafe.thread_ok] in *.
  - destruct Hq as [Hr _]. intros [= <-]. apply (measure_one st _ _ _ _ (Fetch f)); try done.
    assert (HR : running (tickets (works st)) (good ckpt woff soff s (works st)) (pl st) (map cls_of (threads st)) (f_work f)).
    { pose proof (cls_at _ _ _ Ht) as Hc. cbn in Hc. unfold drain_cls in Hc. destruct (f_role f); [done | |]; by eapply drain_running; [apply HI|]. }
    destruct HR as [Hm Hj _ _ _ _ _ _]. unfold undrawn, cost_at; cbn [mutex_ job_ chunks_ next_ cost f_ticket]. rewrite Hm, Hj. unfold ticket_cost.
    assert (role_armed (size st) (generation_ (pl st)) (Frame (f_role f) (f_work f) (next_ (pl st))) = role_armed (size st) (generation_ (pl st)) f) as -> by (by destruct f).
    destruct (_ <? _) eqn:E; [|lia]. rewrite !Z.max_r by lia. lia.
  - destruct (_ <=? _) eqn:E.
    + apply (goto_measure _ _ _ _ _ Ht). unfold cost_at. destruct f as [[| |seen] w x]; unfold drained; cbn [cost f_role f_ticket role_armed] in *; try done;
        rewrite (proj2 (Z.ltb_ge _ _)) by lia; unfold fetch_cost; lia.
    + destruct (works st !! f_work f); [|done]. apply (goto_measure _ _ _ _ _ Ht). unfold cost_at; cbn [cost]. rewrite (proj2 (Z.ltb_lt _ _)) by lia.
      unfold serve_cost, after_serve, ticket_cost, fetch_cost, kChunk. destruct Hq as [Hr _]. destruct (f_role f); [done | lia | lia].
  - apply (pool_measure _ _ _ _ _ _ Ht); try done. destruct (_ =? 1); unfold cost_at; cbn [cost]; lia.
  - destruct (mutex_ (pl st)); [done|]. intros [= <-]. apply (measure_waking _ _ wake_done _ (Signal f)); try done; [apply wake_done_cost|]. unfold cost_at; cbn [cost]. lia.
Qed.

Lemma worker_measure st t q st' : threads st !! t = Some q -> exec_worker t st (pl st) q = Next st' -> measure st' < measure st.
Proof.
  intros Ht. pose proof (size_nonneg st) as HT. destruct q; try done; cbn [exec_worker].
  - destruct (mutex_ (pl st)) eqn:Em; [done|]. destruct (_ =? seen) eqn:E; [apply (goto_measure _ _ _ _ _ Ht); unfold cost_at; cbn [cost]; lia|].
    destruct (job_ (pl st)) as [w|] eqn:Ej.
    + apply (pool_measure _ _ _ _ _ _ Ht); try done; [unfold undrawn; cbn; by rewrite Em, Ej|]. unfold cost_at; cbn [cost role_armed f_role]. unfold armed. rewrite E, Z.eqb_refl. lia.
    + apply (goto_measure _ _ _ _ _ Ht). unfold cost_at; cbn [cost]. unfold armed, fetch_cost. rewrite E, Z.eqb_refl. lia.
  - destruct (mutex_ (pl st)) eqn:Em; [done|]. intros [= <-]. apply (measure_waking _ _ wake_done _ (Leave seen)); try done; [apply wake_done_cost | unfold undrawn; cbn; by rewrite Em |].
    unfold cost_at; cbn [cost]. lia.
Qed.

(** Every step that is neither a new lookup nor a wakeup without a cause. *)
Lemma exec_measure st t pread st' : inv st -> exec ckpt s pooled t (Go pread) st = Next st' -> measure st' < measure st.
Proof.
  intros HI. unfold exec. destruct (threads st !! t) as [q|] eqn:Ht; [|done]. pose proof (size_nonneg st) as HT.
  destruct q; try done; cbn [default]; intros E.
  all: try (by eapply caller_measure). all: try (by eapply worker_measure). all: try (by eapply drain_measure). all: try (by eapply serve_measure).
  unfold exec_lookup in E. destruct (works st !! w) as [k|] eqn:Hk; [|done]. revert E. apply (goto_measure _ _ _ _ _ Ht).
  assert (Hc : ids_of (works st) w = count k) by (unfold ids_of; by rewrite Hk). pose proof (zlen_nonneg (ids k)).
  destruct (_ || _); unfold cost_at; cbn [cost]; unfold serve_cost, publish_cost, ticket_cost, fetch_cost; rewrite ?Hc; unfold count in *; cbn; nia.
Qed.
(** ** Somebody can go on *)

Lemma zcount_pos {A} (f : A -> bool) l : zcount f l <> 0 -> exists a, a ∈ l /\ f a = true.
Proof.
  induction l as [|b l IH]; [done|]. unfold zcount in *. cbn. intros H. destruct (f b) eqn:E; [exists b; split; [by left | done]|].
  cbn [Z.b2z] in H. destruct (IH ltac:(lia)) as (a & Ha & ?). exists a. split; [by right | done].
Qed.

(** Where a thread waits for another one, or for a lookup to start. *)
Definition waiting (q : pc) : bool := match q with Ready | Returned _ | Sleep _ | Serialize _ | Asleep _ => true | _ => false end.

Lemma not_blocked st t q pread : inv st -> threads st !! t = Some q -> waiting q = false ->
  mutex_ (pl st) = false \/ (exists k w, q = Publish (S k) w) -> exec ckpt s pooled t (Go pread) st <> Blocked.
Proof.
  intros HI Ht Hw Hm. pose proof (iv_thread _ _ _ _ _ HI _ _ Ht) as Hq.
  assert (HM : mutex_ (pl st) = false \/ exists k w, q = Publish (S k) w) by done. unfold exec. rewrite Ht.
  destruct q as [|w|w|k w|w|w|w|w|w|seen|seen|seen|f|f|f i e|f i e id|f i e id|f i e id row|f i e row|f i e row|f|f]; try done;
    try (destruct Hm as [Hm|(? & ? & ?)]; [|done]); cbn [default Datatypes.id exec_caller exec_worker exec_drain exec_serve EngramPoolSafe.thread_ok] in *.
  - unfold exec_lookup. destruct Hq as [k ->]. done.
  - destruct Hq as [k0 Hk0]. destruct k as [|[|[|[|k]]]]; rewrite ?Hk0; try done. destruct HM as [->|(? & ? & ?)]; done.
  - rewrite Hm. by destruct (_ && _).
  - rewrite Hm. destruct (_ =? _); [done|]. by destruct (job_ _).
  - by rewrite Hm.
  - destruct (_ <=? _); [done|]. by destruct Hq as [_ [k ->]].
  - destruct Hq as (k & [-> _ _ _ _]). by destruct (serve_at _ _ _ _ _).
  - by destruct (probe _ _ _).
  - by destruct (disk_row _ _ _ _).
  - by destruct Hq as (k & [-> _ _ _ _] & _).
  - by destruct Hq as (k & [-> _ _ _ _] & _).
  - by rewrite Hm.
Qed.

(** A thread in a drain, or leaving it, is not waiting. *)
Lemma drain_not_waiting q : working (cls_of q) = true \/ (exists r w h, cls_of q = CDrain r w h) -> waiting q = false /\ forall k w, q <> Publish k w.
Proof. destruct q; cbn; try done; intros [?|(? & ? & ? & ?)]; done. Qed.

Section Stuck.
Context (pread : Z -> Z -> Z) (st : state) (HI : inv st) (Hstuck : forall t, exec ckpt s pooled t (Go pread) st = Blocked).

Lemma stuck_drain c : mutex_ (pl st) = false -> c ∈ map cls_of (threads st) -> working c = true \/ (exists r w h, c = CDrain r w h) -> False.
Proof.
  intros Hm (q & -> & (t & Ht)%list_elem_of_lookup)%list_elem_of_fmap Hc. destruct (drain_not_waiting q Hc) as [Hw _].
  eapply not_blocked; [exact HI | exact Ht | exact Hw | by left | apply Hstuck].
Qed.

(** The caller asleep at [done_] would have been woken. *)
Lemma stuck_asleep w : running (tickets (works st)) (good ckpt woff soff s (works st)) (pl st) (map cls_of (threads st)) w ->
  tickets (works st) w <= next_ (pl st) -> remaining_ (pl st) <> 0 \/ active_ (pl st) <> 0 -> False.
Proof.
  intros [Hm _ _ _ Hr _ _ _] Hle [H|H].
  - destruct (zcount_pos (holds (tickets (works st))) (map cls_of (threads st))) as (c & Hc & Hh); [lia|].
    apply (stuck_drain c Hm Hc). right. destruct c; try done. by eexists _, _, _.
  - rewrite (pi_active _ _ _ _ (iv_pool _ _ _ _ _ HI)) in H. destruct (zcount_pos _ _ H) as (c & Hc & Hw). apply (stuck_drain c Hm Hc). by left.
Qed.

Lemma stuck_owner : caller_ (pl st) = None.
Proof.
  destruct (caller_ (pl st)) as [t|] eqn:Ec; [|done]. exfalso. pose proof (iv_pool _ _ _ _ _ HI) as [HO _ HP]. rewrite Ec in HP. destruct HP as (c & Hc & Hph).
  rewrite list_lookup_fmap in Hc. destruct (threads st !! t) as [q|] eqn:Ht; [|done]. injection Hc as <-.
  assert (HN : waiting q = false -> mutex_ (pl st) = false \/ (exists k w, q = Publish (S k) w) -> False).
  { intros Hw Hm. by apply (not_blocked st t q pread HI Ht Hw Hm). }
  destruct q as [|w|w|k w|w|w|w|w|w|seen|seen|seen|f|f|f i e|f i e id|f i e id|f i e id row|f i e row|f i e row|f|f]; cbn [cls_of] in Hph; try done.
  6-15: unfold drain_cls in Hph; destruct (f_role f); try done; destruct Hph as [Hm _ _ _ _ _ _ _]; apply HN; [done | by left].
  - destruct k as [|k]; [destruct Hph as [Hm _]; apply HN; [done | by left] | apply HN; [done | right; by eexists _, _]].
  - destruct Hph as [Hm _ _ _ _ _ _ _]. apply HN; [done | by left].
  - destruct Hph as [[Hm _ _ _ _ _ _ _] _]. apply HN; [done | by left].
  - destruct Hph as (R & Hle & Hor). by eapply stuck_asleep.
  - destruct Hph as ((Hm & _) & _). apply HN; [done | by left].
Qed.

(** When nobody can go on, every lookup has returned and every worker is asleep. *)
Lemma stuck_rest t q : threads st !! t = Some q -> q = Ready \/ (exists w, q = Returned w) \/ exists seen, q = Sleep seen.
Proof.
  intros Ht. pose proof stuck_owner as Hc. pose proof (iv_pool _ _ _ _ _ HI) as [HO _ HP]. rewrite Hc in HP. destruct HP as (Hm & _).
  destruct (waiting q) eqn:Hw.
  - destruct q; try done; try (by eauto).
    + exfalso. pose proof (Hstuck t) as H. unfold exec in H. rewrite Ht in H. cbn in H. by rewrite Hc in H.
    + exfalso. pose proof (HO t _ (cls_at _ _ _ Ht)) as [H _]. rewrite (H eq_refl) in Hc. done.
  - exfalso. eapply not_blocked; [exact HI | exact Ht | exact Hw | by left | apply Hstuck].
Qed.
End Stuck.

(** A lookup ends the process only for an id outside the table or a read that failed. *)
Lemma abort_reason st t ch : inv st -> exec ckpt s pooled t ch st = Abort ->
  (exists w k id, works st !! w = Some k /\ id ∈ ids k /\ ~ 0 <= id < n) \/
  (exists pread id, ch = Go pread /\ row_lo s <= id < row_hi s /\ disk_row ckpt s pread id = None).
Proof.
  intros HI. unfold exec. destruct (threads st !! t) as [q|] eqn:Ht; [|done]. pose proof (iv_thread _ _ _ _ _ HI _ _ Ht) as Hq.
  destruct q as [|w|w|k w|w|w|w|w|w|seen|seen|seen|f|f|f i e|f i e id|f i e id|f i e id row|f i e row|f i e row|f|f], ch as [wk|pread|]; try done;
    cbn [default Datatypes.id exec_caller exec_worker exec_drain exec_serve EngramPoolSafe.thread_ok] in *.
  - unfold start_lookup. by destruct (has_room wk).
  - unfold exec_lookup. by destruct (works st !! w).
  - by destruct (caller_ (pl st)).
  - destruct k as [|[|[|[|k]]]]; try done; [by destruct (mutex_ _) | by destruct (works st !! w) | by destruct (works st !! w)].
  - destruct (mutex_ _); [done|]. by destruct (_ && _).
  - unfold start_lookup. by destruct (has_room wk).
  - destruct (mutex_ _); [done|]. destruct (_ =? seen); [done|]. by destruct (job_ _).
  - by destruct (mutex_ _).
  - destruct (_ <=? _); [done|]. by destruct (works st !! f_work f).
  - destruct Hq as (k & HS). pose proof HS as [Hk He Hi Htk _]. rewrite Hk. unfold serve_at. destruct (i <? e) eqn:E; [|done]. destruct (_ || _) eqn:Eo; [|done]. intros _.
    left. exists (f_work f), k, (at_z (ids k) i). split; [done|]. rewrite (sv_rows _ _ _ _ _ Hs) in Eo. split; [|apply orb_true_iff in Eo as [?|?]; lia].
    pose proof (begins_nonneg _ _ Htk). pose proof (ends_count f k). unfold at_z, count, zlen in *. destruct (lookup_lt_is_Some_2 (ids k) (Z.to_nat i)) as [id Hid]; [lia|].
    rewrite Hid. by eapply list_elem_of_lookup_2.
  - by destruct (probe _ _ _).
  - destruct Hq as (k & HS & Hlt & Hid & Ho). destruct (disk_row _ _ _ _) eqn:E; [done|]. intros _. right. exists pread, id. split; [done|]. split; [unfold owned in Ho; blia | done].
  - by destruct (works st !! f_work f).
  - by destruct (works st !! f_work f).
  - by destruct (mutex_ _).
Qed.
End Live.
