(* ===== verification/EngramPoolRun.v ===== *)
(** * Looking rows up: the theorems of a run

    What a lookup leaves in its buffers, that it returns, and what can end the process, for any
    interleaving of callers and workers on a store that EngramStore opened; and a run of nine ids
    by one caller and two workers. *)
From S2P Require Import Prelude EngramPrefetch EngramPack EngramStore EngramPool EngramPoolInv EngramPoolSafe EngramPoolLive.
#[local] Open Scope list_scope.
#[local] Open Scope Z_scope.

(** ** Schedules *)

Section Run.
Context (ckpt : list Z) (s : store) (pooled : bool).

(** The steps of a schedule, none of which starts a lookup or wakes a thread without a cause. *)
Fixpoint run (schedule : list (nat * (Z -> Z -> Z))) (st : state) : outcome :=
  match schedule with
  | [] => Next st
  | (t, pread) :: rest => match exec ckpt s pooled t (Go pread) st with Next st => run rest st | o => o end
  end.

(** Every thread in turn takes a step if it can, its reads returning what was asked for. *)
Definition turn (st : state) : state :=
  fold_left (fun st t => match exec ckpt s pooled t (Go (fun _ n => n)) st with Next st => st | _ => st end) (seq 0 (length (threads st))) st.

Lemma rounds_reach c callers workers m st : reach ckpt s pooled c callers workers st -> reach ckpt s pooled c callers workers (Nat.iter m turn st).
Proof.
  intros H. induction m as [|m IH]; [done|]. change (Nat.iter (S m) turn st) with (turn (Nat.iter m turn st)). unfold turn at 1. generalize (seq 0 (length (threads (Nat.iter m turn st)))). intros l.
  revert IH. generalize (Nat.iter m turn st). intros st1. revert st1. induction l as [|t l IHl]; intros st1 H1; [exact H1|]. cbn.
  apply IHl. destruct (exec _ _ _ t _ st1) eqn:E; [exact H1 | exact H1 | eapply r_step; [exact H1 | exact E]].
Qed.

Lemma run_measure woff soff n schedule st st' : serves ckpt woff soff n s -> inv ckpt woff soff s st -> run schedule st = Next st' ->
  inv ckpt woff soff s st' /\ zlen schedule <= measure st - measure st'.
Proof.
  intros Hs. revert st. induction schedule as [|[t pread] rest IH]; intros st HI; cbn [run]; [intros [= <-]; rewrite zlen_nil; split; [done | lia]|].
  destruct (exec _ _ _ _ _ _) as [| |st1] eqn:E; try done. intros H. pose proof (exec_measure _ _ _ _ _ _ _ _ _ HI E).
  pose proof (exec_inv _ _ _ _ _ _ Hs _ _ _ _ HI E) as HI1. destruct (IH st1 HI1 H). rewrite zlen_cons. split; [done | lia].
Qed.
End Run.

(** ** A store that opened *)

(** The opening of a rank's store of a layer, its shard made by the pack script if there is one. *)
Record opened (ckpt : list Z) (n layer_id rank tp woff soff : Z) (s : store) : Prop := Opened {
  op_rank : 0 <= rank < tp; op_rows : 0 <= n; op_woff : 0 <= woff; op_soff : 0 <= soff;
  op_init : exists m, (forall t, m_shard m = Some t -> made_by_pack ckpt layer_id n woff soff rank tp t) /\
    init m (Some ckpt) n layer_id rank tp woff soff = Some (Ok s)
}.

Lemma opened_serves ckpt n layer_id rank tp woff soff s : opened ckpt n layer_id rank tp woff soff s ->
  serves ckpt woff soff n s /\ row_lo s = row_start n rank tp /\ row_hi s = row_end n rank tp.
Proof. intros [Hr Hn Hw Hs (m & Hsh & Hi)]. by eapply init_serves. Qed.

(** ** A concrete run *)

Definition demo_ids : list Z := [1; 0; 1; 1; 0; 1; 0; 0; 1].
Definition demo_work : work := Work demo_ids (replicate (9 * 256) 7) (replicate (9 * 8) 7).
Definition small_machine : machine := Machine (fun _ => None) false true true 2 4000 1 None false demo_full demo_full (Some (demo_shard 0)).
Definition small_store : store :=
  match init small_machine (Some (demo_ckpt 0)) 2 14 1 2 8 520 with Some (Ok s) => s | _ => Store 0 0 0 0 0 0 1 0 false false None None end.
Definition small_cache : cache := Cache (replicate (Z.to_nat (slots small_store)) 0) (replicate (Z.to_nat (slots small_store)) []) (replicate (Z.to_nat (sets small_store)) 0).
Definition demo_called : state :=
  match exec (demo_ckpt 0) small_store true 0 (Call demo_work) (start small_cache 1 2) with Next st => st | _ => start small_cache 1 2 end.
Definition demo_run (m : nat) : state := Nat.iter m (turn (demo_ckpt 0) small_store true) demo_called.

Lemma demo_opened : opened (demo_ckpt 0) 2 14 1 2 8 520 small_store.
Proof.
  split; [lia..|]. exists small_machine. split; [|by vm_compute]. intros t [= <-]. apply demo_made. by left.
Qed.

Lemma small_reach m : reach (demo_ckpt 0) small_store true small_cache 1 2 (demo_run m).
Proof. apply rounds_reach. apply (r_step _ _ _ _ _ _ 0 (Call demo_work) (start small_cache 1 2)); [constructor | by vm_compute]. Qed.

Lemma demo_cache : empty_cache small_store small_cache.
Proof. split; [done|]. split; [apply length_replicate | done]. Qed.

(** A lookup of an id the table does not have, at its row. *)
Definition demo_bad : state :=
  match exec (demo_ckpt 0) small_store true 0 (Call (Work [5] (replicate 256 7) (replicate 8 7))) (start small_cache 1 2) with Next st => turn (demo_ckpt 0) small_store true st | _ => start small_cache 1 2 end.

Lemma demo_bad_reach : reach (demo_ckpt 0) small_store true small_cache 1 2 demo_bad.
Proof. apply (rounds_reach _ _ _ _ _ _ 1). apply (r_step _ _ _ _ _ _ 0 (Call (Work [5] (replicate 256 7) (replicate 8 7))) (start small_cache 1 2)); [constructor | by vm_compute]. Qed.

(** C15: Whenever a lookup has returned, whatever lookups went before or run beside it and however
    callers, workers and their reads interleave, every id of this rank's range has in the
    buffers the weight and scale the checkpoint has for it, and every other id zeros. *)
Theorem lookup_exact ckpt n layer_id rank tp woff soff s pooled c callers workers st t w k :
  opened ckpt n layer_id rank tp woff soff s -> empty_cache s c ->
  reach ckpt s pooled c callers workers st -> threads st !! t = Some (Returned w) -> works st !! w = Some k ->
  forall i id, ids k !! i = Some id ->
    bytes_at (w_out k) (Z.of_nat i * WEIGHT_BYTES) WEIGHT_BYTES ++ bytes_at (s_out k) (Z.of_nat i * SCALE_BYTES) SCALE_BYTES
    = if (row_start n rank tp <=? id) && (id <? row_end n rank tp) then ckpt_row ckpt woff soff id else replicate 264 0.
Proof.
  intros Ho Hc Hr Ht Hk i id Hi. destruct (opened_serves _ _ _ _ _ _ _ _ Ho) as (Hs & Hlo & Hhi).
  pose proof (reach_ok _ _ _ _ _ pooled Hs _ _ _ _ Hc Hr) as HI. destruct (iv_thread _ _ _ _ _ HI _ _ Ht) as (k' & Hk' & Hg).
  assert (k' = k) as -> by congruence. pose proof (lookup_lt_Some _ _ _ Hi) as Hlt. destruct (Hg (Z.of_nat i)) as [Hw Hsc]; [unfold count, zlen; lia|].
  unfold wgood, sgood, at_z in *. rewrite Nat2Z.id, Hi in Hw, Hsc. cbn [default] in *. change (Datatypes.id id) with id in *. rewrite Hw, Hsc.
  rewrite <- (bytes_at_app _ 0) by (unfold WEIGHT_BYTES, SCALE_BYTES; lia). rewrite bytes_at_all by (erewrite served_length by done; done).
  unfold served, owned. by rewrite Hlo, Hhi.
Qed.

Lemma lookup_exact_witness : threads (demo_run 60) !! 0%nat = Some (Returned 0) /\
  forall k, works (demo_run 60) !! 0%nat = Some k -> bytes_at (w_out k) 256 256 ++ bytes_at (s_out k) 8 8 = replicate 264 0
    /\ bytes_at (w_out k) 512 256 ++ bytes_at (s_out k) 16 8 = ckpt_row (demo_ckpt 0) 8 520 1.
Proof.
  split; [by vm_compute|]. intros k Hk. assert (Hids : ids k = demo_ids).
  { revert Hk. vm_compute. by intros [= <-]. }
  pose proof (lookup_exact _ _ _ _ _ _ _ _ true _ _ _ (demo_run 60) 0 0 k demo_opened demo_cache (small_reach 60) eq_refl Hk) as H. rewrite Hids in H.
  split; [exact (H 1%nat 0 eq_refl) | exact (H 2%nat 1 eq_refl)].
Defined.

(** C23: Every lookup returns: from any point of a run there are only finitely many steps to take
    before threads wake without a cause or start lookups again, and when no thread can take one,
    none is left inside a lookup. *)
Theorem lookups_return ckpt n layer_id rank tp woff soff s pooled c callers workers st :
  opened ckpt n layer_id rank tp woff soff s -> empty_cache s c -> reach ckpt s pooled c callers workers st ->
  (forall schedule st', run ckpt s pooled schedule st = Next st' -> zlen schedule <= measure st) /\
  forall schedule st' pread, run ckpt s pooled schedule st = Next st' -> (forall t, exec ckpt s pooled t (Go pread) st' = Blocked) ->
    forall t q, threads st' !! t = Some q -> q = Ready \/ (exists w, q = Returned w) \/ exists seen, q = Sleep seen.
Proof.
  intros Ho Hc Hr. destruct (opened_serves _ _ _ _ _ _ _ _ Ho) as (Hs & _). pose proof (reach_ok _ _ _ _ _ pooled Hs _ _ _ _ Hc Hr) as HI. split.
  - intros schedule st' Hrun. destruct (run_measure _ _ _ _ _ _ _ _ _ Hs HI Hrun) as [HI' Hm]. pose proof (measure_nonneg _ _ _ _ _ HI'). lia.
  - intros schedule st' pread Hrun Hb t q Ht. destruct (run_measure _ _ _ _ _ _ _ _ _ Hs HI Hrun) as [HI' _].
    by eapply (stuck_rest ckpt woff soff s pooled pread).
Qed.

Lemma demo_blocked t : exec (demo_ckpt 0) small_store true t (Go demo_full) (demo_run 60) = Blocked.
Proof.
  destruct t as [|[|[|t]]]; [by vm_compute..|]. unfold exec. rewrite lookup_ge_None_2; [done|].
  assert (length (threads (demo_run 60)) = 3%nat) as -> by (by vm_compute). lia.
Qed.

Lemma lookups_return_witness :
  zlen (replicate 9 (0%nat, demo_full)) <= measure demo_called /\
  (threads (demo_run 60) !! 0%nat = Some (Returned 0) /\ (Returned 0 = Ready \/ (exists w, Returned 0 = Returned w) \/ exists seen, Returned 0 = Sleep seen)).
Proof.
  split; [|split; [by vm_compute|]].
  - apply (proj1 (lookups_return _ _ _ _ _ _ _ _ true _ _ _ demo_called demo_opened demo_cache (small_reach 0)) _
      (match run (demo_ckpt 0) small_store true (replicate 9 (0%nat, demo_full)) demo_called with Next st => st | _ => demo_called end)). by vm_compute.
  - refine (proj2 (lookups_return _ _ _ _ _ _ _ _ true _ _ _ (demo_run 60) demo_opened demo_cache (small_reach 60)) [] (demo_run 60) demo_full eq_refl demo_blocked 0%nat _ _).
    by vm_compute.
Defined.


