(* ===== verification/Launch.v ===== *)
(** * Launching (boot.py)

    The checkpoint's verification with its receipt, over any history of boots and of changes
    to the files between them, and the server's arguments the launcher insists on.  The file
    system is a map from names to a file's identity and contents; the hash functions, the
    published metadata and the contents of the index are parameters.  The download, the
    processes, the HTTP probes and the remaining arguments are not modelled. *)
From Stdlib Require Import Ascii String.
From S2P Require Import Prelude PyStr.
#[local] Open Scope string_scope.
#[local] Open Scope list_scope.
#[local] Open Scope Z_scope.

(** ** Verification *)

(** What [stat] tells of a file, and what reading it gives. *)
Record identity := Identity { bytes : Z; mtime_ns : Z; inode : Z }.
#[export] Instance identity_eq_dec : EqDecision identity.
Proof. solve_decision. Defined.
Record file (C : Type) := File { stat : identity; contents : C }.
Arguments File {C} _ _.
Arguments stat {C} _.
Arguments contents {C} _.

(** A published file: its name, its size, and its digest, sha256 for a large file and that of
    the git blob else. *)
Record entry := Entry { rfilename : string; e_size : Z; lfs : option string; blobId : string }.
Definition expected (e : entry) : string := match lfs e with Some sha => sha | None => blobId e end.

(** A line of the receipt, and the receipt with the revision it is of. *)
Record verified := Verified { name : string; digest : string; known : identity }.
Record receipt := Receipt { revision : string; files : list verified }.

Section Prepare.
Context {C : Type} (sha256 : C -> string) (blob_sha1 : Z -> C -> string) (size_of : C -> Z).
(** The pinned revision, its published files, the shards its index names. *)
Context (REVISION : string) (siblings : list entry) (weight_map : list string).

Definition fs := string -> option (file C).

(** [{f['name']: f for f in ...}]: the last line of a name counts. *)
Definition cached (old : option receipt) (n : string) : option verified :=
  match old with
  | Some r => if String.eqb (revision r) REVISION then find (fun v => String.eqb (name v) n) (rev (files r)) else None
  | None => None
  end.

Definition hash (e : entry) (f : file C) : string :=
  match lfs e with Some _ => sha256 (contents f) | None => blob_sha1 (bytes (stat f)) (contents f) end.

(** The receipt's line when it is of the expected digest and the file as it is. *)
Definition previous (old : option receipt) (e : entry) (f : file C) : option verified :=
  match cached old (rfilename e) with
  | Some p => if String.eqb (digest p) (expected e) && bool_decide (known p = stat f) then Some p else None
  | None => None
  end.

(** [verify]: the file before it is read and, when it was read, after. *)
Definition verify (old : option receipt) (before after : fs) (e : entry) : res verified :=
  match before (rfilename e) with
  | None => Raise IOError
  | Some f =>
      if negb (bytes (stat f) =? e_size e) then Raise AssertionError
      else
        match previous old e f with
        | Some p => Ok p
        | None =>
            if negb (String.eqb (hash e f) (expected e)) then Raise AssertionError
            else match after (rfilename e) with
                 | Some f' => if bool_decide (stat f = stat f') then Ok (Verified (rfilename e) (expected e) (stat f)) else Raise AssertionError
                 | None => Raise IOError
                 end
        end
  end.

(** [prepare] on the first rank once the files are there: [None], verification is skipped. *)
Definition prepare (skip_verify : bool) (old : option receipt) (before after : fs) : res (option receipt) :=
  if skip_verify then Ok old
  else
    done ← mapR (verify old before after) siblings;
    if forallb (fun shard => existsb (fun v => String.eqb (name v) shard) done) weight_map
    then Ok (Some (Receipt REVISION done)) else Raise AssertionError.

(** A boot on the files as they are; the receipt stays when it raises. *)
Record boot := Boot { skip : bool; fs_before : fs; fs_after : fs }.
Fixpoint boots (old : option receipt) (bs : list boot) : option receipt :=
  match bs with
  | [] => old
  | b :: bs => boots (match prepare (skip b) old (fs_before b) (fs_after b) with Ok r => r | Raise _ => old end) bs
  end.

(** ** A receipt is about the files *)

(** The contents of a file are determined by its name and identity: whoever changes a file
    changes its size, its time or its inode. *)
Definition honest (content : string -> identity -> C) (f : fs) : Prop := forall n x, f n = Some x -> contents x = content n (stat x).
Definition line_ok (content : string -> identity -> C) (v : verified) : Prop :=
  forall e, e ∈ siblings -> rfilename e = name v -> digest v = expected e -> hash e (File (known v) (content (name v) (known v))) = expected e.
Definition receipt_ok (content : string -> identity -> C) (old : option receipt) : Prop :=
  match old with Some r => revision r = REVISION -> Forall (line_ok content) (files r) | None => True end.

Lemma cached_ok content old n v : receipt_ok content old -> cached old n = Some v -> line_ok content v /\ name v = n.
Proof.
  intros H. unfold cached. destruct old as [r|]; [|done]. destruct (String.eqb_spec (revision r) REVISION) as [E|]; [|done]. intros Hf.
  apply find_some in Hf as [Hin Hn%String.eqb_eq]. split; [|done]. specialize (H E). rewrite Forall_forall in H. apply H. apply list_elem_of_In. by apply in_rev.
Qed.

(** What [verify] returns is true of the file, and of what the receipt says of it from then on. *)
Lemma verify_ok content old before after e v : NoDup (map rfilename siblings) -> e ∈ siblings -> receipt_ok content old -> honest content before ->
  verify old before after e = Ok v -> line_ok content v /\ name v = rfilename e /\
    exists f, before (rfilename e) = Some f /\ bytes (stat f) = e_size e /\ hash e f = expected e.
Proof.
  intros Hnd He HR HH. unfold verify. destruct (before (rfilename e)) as [f|] eqn:Ef; [|done].
  destruct (bytes (stat f) =? e_size e) eqn:Es; [|done]. cbn [negb].
  assert (HF : forall k, k = content (rfilename e) (stat f) -> contents f = k) by (intros k ->; by apply HH).
  assert (Hfile : File (stat f) (content (rfilename e) (stat f)) = f) by (destruct f as [st c]; simpl in *; f_equal; symmetry; by apply HF).
  destruct (previous old e f) as [p|] eqn:Ep.
  - intros [= <-]. unfold previous in Ep. destruct (cached old (rfilename e)) as [p'|] eqn:Ec; [|done].
    destruct (String.eqb_spec (digest p') (expected e)) as [Ed|]; [|done]. destruct (decide (known p' = stat f)) as [Ek|]; [|by rewrite bool_decide_eq_false_2 in Ep].
    rewrite bool_decide_eq_true_2 in Ep by done. injection Ep as <-. destruct (cached_ok content old _ p' HR Ec) as [Hp Hn].
    split; [done|]. split; [done|]. exists f. split; [done|]. split; [lia|]. rewrite <- (Hp e He (eq_sym Hn) Ed), Hn, Ek. by rewrite Hfile.
  - destruct (String.eqb_spec (hash e f) (expected e)) as [Eh|]; [|done]. cbn [negb]. destruct (after (rfilename e)) as [f'|]; [|done].
    destruct (bool_decide (stat f = stat f')); [|done]. intros [= <-]. split; [|split; [done|exists f; split; [done|split; [lia|done]]]].
    intros e' He' Hn Hd. simpl in *. assert (e' = e) as ->; [|by rewrite Hfile].
    apply list_elem_of_lookup in He as [i Hi], He' as [j Hj].
    assert (i = j) as ->; [|congruence]. apply (NoDup_lookup (map rfilename siblings) i j (rfilename e)); [done| |]; rewrite list_lookup_fmap; [by rewrite Hi|by rewrite Hj; simpl; f_equal].
Qed.

Lemma prepare_ok content old before after r : NoDup (map rfilename siblings) -> receipt_ok content old -> honest content before ->
  prepare false old before after = Ok r -> receipt_ok content r /\
    (forall e, e ∈ siblings -> exists f, before (rfilename e) = Some f /\ bytes (stat f) = e_size e /\ hash e f = expected e) /\
    forall shard, shard ∈ weight_map -> shard ∈ map rfilename siblings.
Proof.
  intros Hnd HR HH. unfold prepare. destruct (mapR (verify old before after) siblings) as [done'|] eqn:E; [|done]. cbn [mbind res_bind].
  destruct (forallb _ weight_map) eqn:EF; [|done]. intros [= <-].
  assert (HV : forall e, e ∈ siblings -> exists v, v ∈ done' /\ verify old before after e = Ok v).
  { intros e [i Hi]%list_elem_of_lookup. destruct (mapR_Ok_lookup _ _ _ i e E Hi) as (v & Hv & Ev). exists v. split; [by apply list_elem_of_lookup_2 in Hv|done]. }
  assert (HB : forall v, v ∈ done' -> exists e, e ∈ siblings /\ verify old before after e = Ok v) by (intros v Hv; by apply (mapR_Ok_elem _ _ _ v E)).
  split; [|split].
  - intros _. apply Forall_forall. intros v Hv. destruct (HB v Hv) as (e & He & Ev). by apply (verify_ok content old before after e v).
  - intros e He. destruct (HV e He) as (v & _ & Ev). by apply (verify_ok content old before after e v).
  - intros shard Hs. rewrite forallb_forall in EF. apply list_elem_of_In, EF, existsb_exists in Hs as (v & Hv & En%String.eqb_eq).
    destruct (HB v) as (e & He & Ev); [by apply list_elem_of_In|]. destruct (verify_ok content old before after e v Hnd He HR HH Ev) as (_ & Hn & _).
    rewrite <- En, Hn. by apply list_elem_of_fmap_2.
Qed.

Lemma boots_ok content old bs : NoDup (map rfilename siblings) -> receipt_ok content old -> Forall (fun b => honest content (fs_before b)) bs -> receipt_ok content (boots old bs).
Proof.
  intros Hnd. revert old. induction bs as [|b bs IH]; intros old HR HF; [done|]. apply Forall_cons in HF as [Hb HF]. simpl. apply IH; [|done].
  destruct (prepare (skip b) old (fs_before b) (fs_after b)) as [r|] eqn:E; [|done]. destruct (skip b) eqn:Es; [by injection E as <-|].
  by apply (prepare_ok content old (fs_before b) (fs_after b)).
Qed.

(** C32: after any history of boots, failed and skipped ones included, a boot whose preparation
    passes starts on a complete checkpoint: every published file is there with its size and its
    digest, although files the receipt knows are not read again, provided nobody changes a
    file's contents and leaves its size, time and inode. *)
Theorem prepared_checkpoint content bs before after r :
  NoDup (map rfilename siblings) -> Forall (fun b => honest content (fs_before b)) bs -> honest content before ->
  prepare false (boots None bs) before after = Ok r ->
  (forall e, e ∈ siblings -> exists f, before (rfilename e) = Some f /\ bytes (stat f) = e_size e /\ hash e f = expected e) /\
  forall shard, shard ∈ weight_map -> shard ∈ map rfilename siblings.
Proof.
  intros Hnd HF HH E. pose proof (boots_ok content None bs Hnd I HF) as HR. by destruct (prepare_ok content _ before after r Hnd HR HH E) as (_ & H1 & H2).
Qed.
End Prepare.

(** ** Arguments *)
Definition mxfp8_backend_disabled (value : string) : bool := one_of (lower (strip value)) [""; "cutlass"; "off"; "0"].

Definition flag : string := "--fp8-gemm-backend".
Definition required : string := "flashinfer_cutlass".

(** The loop over the arguments: those kept, and the values the flag had. *)
Fixpoint scan (args : list string) : list string * list string :=
  match args with
  | [] => ([], [])
  | arg :: rest =>
      if String.eqb arg flag then
        match rest with
        | v :: rest' =>
            if negb (startswith "--" v) && negb (String.eqb v "") then let '(r, vs) := scan rest' in (r, v :: vs)
            else let '(r, vs) := scan rest in (r, "" :: vs)
        | [] => ([], [""])
        end
      else
        match after_prefix (flag ++ "=") arg with
        | Some v => let '(r, vs) := scan rest in (r, v :: vs)
        | None => let '(r, vs) := scan rest in (arg :: r, vs)
        end
  end.

Definition required_sglang_args (args : list string) (backend : string) : list string :=
  if mxfp8_backend_disabled backend then args else (scan args).1 ++ [flag; required].

(** The table of the draft's schedule: its path when it is a file. *)
Definition sps_table_args (table : string) (is_file : bool) (env : environ) : list string :=
  if String.eqb table "" || negb is_file || negb (String.eqb (env_get env "DSPARK_SPS_ALLOW_ENGRAM" "0") "1") then []
  else ["--speculative-dspark-sps-table-path"; table; "--speculative-dspark-align-verify-tokens-to-graph-tier"].

(** An argument list as its author means it: the flag alone, with a value, joined to one, or
    another argument. *)
Inductive item := Other (a : string) | Joined (v : string) | Pair (v : string) | Bare.
Definition render_item (i : item) : list string :=
  match i with Other a => [a] | Joined v => [flag ++ "=" ++ v] | Pair v => [flag; v] | Bare => [flag] end%string.
Definition render (l : list item) : list string := l ≫= render_item.
Definition others (l : list item) : list string := l ≫= (fun i => match i with Other a => [a] | _ => [] end).
Definition values (l : list item) : list string :=
  l ≫= (fun i => match i with Other _ => [] | Joined v => [v] | Pair v => [v] | Bare => [""] end).

Definition is_option (a : string) : bool := startswith "--" a || String.eqb a "".
Definition item_ok (i : item) : Prop :=
  match i with
  | Other a => a <> flag /\ after_prefix (flag ++ "=") a = None
  | Pair v => is_option v = false
  | _ => True
  end.
(** The flag is only alone before an option, an empty argument or the end. *)
Fixpoint items_ok (l : list item) : Prop :=
  match l with
  | [] => True
  | i :: l => item_ok i /\ (match i, l with Bare, Other a :: _ => is_option a = true | _, _ => True end) /\ items_ok l
  end.

Lemma flag_joined v : String.eqb (flag ++ "=" ++ v) flag = false.
Proof. by vm_compute. Qed.

Lemma render_head l a rest : items_ok l -> render l = a :: rest -> match l with Other _ :: _ => True | _ => is_option a = true end.
Proof. intros _. destruct l as [|[b|v|v|] l]; try done; unfold render; cbn [mbind list_bind render_item app]; intros [= <- _]; reflexivity. Qed.

Lemma scan_render l : items_ok l -> scan (render l) = (others l, values l).
Proof.
  induction l as [|i l IH]; [done|]. intros (Hi & Hb & Hl). specialize (IH Hl). change (render (i :: l)) with (render_item i ++ render l).
  change (others (i :: l)) with ((match i with Other a => [a] | _ => [] end) ++ others l).
  change (values (i :: l)) with ((match i with Other _ => [] | Joined v => [v] | Pair v => [v] | Bare => [""] end) ++ values l).
  destruct i as [a|v|v|]; cbn [render_item app scan].
  - destruct Hi as [H1 H2]. destruct (String.eqb_spec a flag); [done|]. by rewrite H2, IH.
  - rewrite flag_joined. change (flag ++ "=" ++ v)%string with ((flag ++ "=") ++ v)%string. rewrite after_prefix_app. by rewrite IH.
  - change (String.eqb flag flag) with true. cbn iota. unfold item_ok, is_option in Hi. apply orb_false_iff in Hi as [-> ->]. cbn [negb andb]. by rewrite IH.
  - change (String.eqb flag flag) with true. cbn iota. destruct (render l) as [|a rest] eqn:Er.
    + simpl in IH. injection IH as <- <-. done.
    + assert (Ha : is_option a = true). { pose proof (render_head l a rest Hl Er) as H. destruct l as [|[b|?|?|] l]; try done. by injection Er as <- _. }
      unfold is_option in Ha. rewrite <- negb_orb, Ha. cbn [negb]. by rewrite IH.
Qed.

(** However the extra arguments give the flag, alone, with a value, joined to one or several
    times, the launcher's list has it once, last, with the required value, and every other
    argument in its order; for a disabled backend the list is as it was. *)
Lemma required_args_exact l backend : items_ok l ->
  required_sglang_args (render l) backend =
    if mxfp8_backend_disabled backend then render l else render (map Other (others l) ++ [Pair required]).
Proof.
  intros H. unfold required_sglang_args. destruct (mxfp8_backend_disabled backend); [done|]. rewrite scan_render by done. cbn [fst].
  assert (E : forall k, render (map Other k) = k).
  { induction k as [|a k IH]; [done|]. change (a :: render (map Other k) = a :: k). by rewrite IH. }
  unfold render in *. by rewrite bind_app, E.
Qed.

Example ex_args : required_sglang_args ["--tp"; "4"; flag; "cutlass"; flag ++ "=auto"; flag; "--port"; "1"]%string "b12x" =
  ["--tp"; "4"; "--port"; "1"; flag; required].
Proof. reflexivity. Qed.

(** ** A checkpoint *)
Definition ex_sha (c : Z) : string := if c =? 42 then "ab" else "cd".
Definition ex_siblings : list entry := [Entry "model" 8 (Some "ab") ""; Entry "config" 2 None "cd"].
Definition ex_content (n : string) (i : identity) : Z := if String.eqb n "model" then 42 else mtime_ns i.
Definition ex_fs (n : string) : option (file Z) :=
  if String.eqb n "model" then Some (File (Identity 8 1 1) 42) else if String.eqb n "config" then Some (File (Identity 2 7 2) 7) else None.
Definition ex_boots : list (boot (C := Z)) := [Boot true (fun _ => None) (fun _ => None); Boot false ex_fs (fun _ => None); Boot false ex_fs ex_fs].
Definition ex_receipt : receipt := Receipt "fb2" [Verified "model" "ab" (Identity 8 1 1); Verified "config" "cd" (Identity 2 7 2)].

(** The third boot reads both files; the fourth, where nothing can be read a second time,
    passes on the receipt. *)
Lemma prepared_checkpoint_witness :
  boots ex_sha (fun _ c => ex_sha c) "fb2" ex_siblings ["model"] None ex_boots = Some ex_receipt /\
  (forall e, e ∈ ex_siblings -> exists f, ex_fs (rfilename e) = Some f /\ bytes (stat f) = e_size e /\ hash ex_sha (fun _ c => ex_sha c) e f = expected e) /\
  forall shard, shard ∈ ["model"] -> shard ∈ map rfilename ex_siblings.
Proof.
  assert (HH : honest ex_content ex_fs).
  { intros n x. unfold ex_fs, ex_content. destruct (String.eqb n "model"); [by intros [= <-]|]. by destruct (String.eqb n "config"); intros [= <-]. }
  split; [reflexivity|].
  apply (prepared_checkpoint ex_sha (fun _ c => ex_sha c) "fb2" ex_siblings ["model"] ex_content ex_boots ex_fs (fun _ => None) (Some ex_receipt)).
  - repeat constructor; set_solver.
  - repeat constructor; [done|exact HH|exact HH].
  - exact HH.
  - reflexivity.
Defined.
