(* ===== verification/TwoShotPlan.v ===== *)
(** * Geometry and routing of the two-shot all-reduce ([runtime/b12x/b12x/comm/roce_twoshot])

    [_twoshot_plan.py], the threshold [adapter/roce_twoshot.py] supplies, and the receive
    regions of [_roce_proxy.c]. *)
From S2P Require Import Prelude.
#[local] Open Scope list_scope.
#[local] Open Scope Z_scope.

(** ** Geometry and routing ([_twoshot_plan.py]) *)

Definition PACK_BYTES : Z := 16.
Definition MAX_CHUNKS : Z := 64.

Definition shard_start (shard total_packs world : Z) : Z := shard * total_packs / world.

Definition pipe_geometry (nbytes world chunk_packs_min max_chunks : Z) : res (Z * Z) :=
  if (nbytes <=? 0) || negb (nbytes mod PACK_BYTES =? 0) then Raise ValueError else
  let shard := cdiv (nbytes / PACK_BYTES) world in
  let chunk_packs := Z.max chunk_packs_min (cdiv shard max_chunks) in
  Ok (chunk_packs, cdiv shard chunk_packs).

Definition rows_of (shape : list Z) : Z := match shape with r :: _ :: _ => r | _ => 0 end.

Definition uses_pipe (rows nbytes pipe_bytes min_rows : Z) : bool :=
  (0 <? min_rows) && (0 <? pipe_bytes) && (min_rows <=? rows)
  && ((0 <? nbytes) && (nbytes <=? pipe_bytes)) && (nbytes mod PACK_BYTES =? 0).

(** The region's layout ([roce_layout]): the bytes of a receive shard. *)
Definition shard_cap (pipe_bytes world : Z) : Z :=
  let cap := (pipe_bytes / 16 + world - 1) / world * 16 in (cap + 4095) / 4096 * 4096.

(** ** Collectives *)

Record collective := Coll { two : bool; nbytes : Z; chunk_packs : Z; chunks : Z; inplace : bool }.
Definition packs (o : collective) : Z := nbytes o / PACK_BYTES.

(** [RoceOneshotAllReduce.all_reduce]: the collective an all-reduce of a tensor becomes
    ([uses_twoshot], then [_launch_twoshot]'s geometry). *)
Definition all_reduce_op (shape : list Z) (esize pipe_bytes min_rows pipe_chunk_packs world : Z) (in_place : bool) : res collective :=
  let n := fold_right Z.mul 1 shape * esize in
  if uses_pipe (rows_of shape) n pipe_bytes min_rows then
    match pipe_geometry n world pipe_chunk_packs MAX_CHUNKS with
    | Ok (cp, k) => Ok (Coll true n cp k in_place)
    | Raise e => Raise e
    end
  else Ok (Coll false n 0 0 in_place).

(** [while i < hi: ...; i += stride] *)
Fixpoint strided (fuel : nat) (i hi stride : Z) : list Z :=
  match fuel with
  | O => []
  | S f => if i <? hi then i :: strided f (i + stride) hi stride else []
  end.

Section Chunks.
(** [world] ranks, a grid of [grid] blocks of [threads], [rails] HCAs. *)
Context (world grid threads rails : Z).
Definition ranks : list Z := zrange 0 world.

(** ** Chunks, their blocks and their stripes *)

Definition first (o : collective) (j : Z) : Z := shard_start j (packs o) world.
Definition chunk_lo (o : collective) (j c : Z) : Z := first o j + c * chunk_packs o.
Definition chunk_hi (o : collective) (j c : Z) : Z := Z.min (first o (j + 1)) (chunk_lo o j c + chunk_packs o).

(** The packs of a range that block [b] handles: all threads' strided loops. *)
Definition block_packs (b lo hi : Z) : list Z :=
  zrange 0 threads ≫= (fun t => strided (Z.to_nat (hi - lo)) (lo + (b * threads + t)) hi (grid * threads)).

(** Phases 2 to 4: what block [b] stages, reduces and gathers of chunk [c]. *)
Definition others (r : Z) : list Z := filter (fun j => j <> r) ranks.
Definition stage_todo (o : collective) (r b c : Z) : list Z := others r ≫= (fun j => block_packs b (chunk_lo o j c) (chunk_hi o j c)).
Definition reduce_todo (o : collective) (r b c : Z) : list Z := block_packs b (chunk_lo o r c) (chunk_hi o r c).
Definition gather_todo (o : collective) (r b c : Z) : list Z := stage_todo o r b c.
(** The threads of [_wait_chunk]: one per peer and rail. *)
Definition waiters (r : Z) : list (Z * Z) := others r ≫= (fun p => map (fun h => (p, h)) (zrange 0 rails)).

(** [post_striped]: the stripe of each HCA. *)
Definition stripe_packs (n h : Z) : Z := n / rails + (if h <? n mod rails then 1 else 0).
Definition stripe_off (n h : Z) : Z := zsum (map (stripe_packs n) (zrange 0 h)).

(** [post_pipe_chunk]: the clipped range of peer [p] for a phase, and the stripe of rail [h] in it. *)
Definition post_lo (o : collective) (shard c : Z) : Z := Z.min (first o shard + c * chunk_packs o) (first o (shard + 1)).
Definition post_hi (o : collective) (shard c : Z) : Z := Z.min (first o shard + c * chunk_packs o + chunk_packs o) (first o (shard + 1)).
Definition post_shard (phase r p : Z) : Z := if phase =? 0 then p else r.
Definition stripe (o : collective) (shard c h : Z) : list Z :=
  let lo := post_lo o shard c in let n := post_hi o shard c - lo in
  zrange (lo + stripe_off n h) (lo + stripe_off n h + stripe_packs n h).

End Chunks.

(** ** What the geometry promises *)

Lemma strided_spec f : forall i hi stride x, 0 < stride -> hi - i <= Z.of_nat f ->
  x ∈ strided f i hi stride <-> exists k, 0 <= k /\ x = i + k * stride /\ x < hi.
Proof.
  induction f as [|f IH]; intros i hi stride x Hs Hf; cbn [strided].
  - rewrite elem_of_nil. split; [done|]. intros (k & Hk & -> & Hx). nia.
  - destruct (Z.ltb_spec i hi) as [Hi|Hi].
    + rewrite elem_of_cons, (IH (i + stride) hi stride x) by lia. split.
      * intros [->|(k & Hk & -> & Hx)]; [exists 0; lia | exists (k + 1); nia].
      * intros (k & Hk & -> & Hx). destruct (decide (k = 0)) as [->|]; [left; lia | right; exists (k - 1); nia].
    + rewrite elem_of_nil. split; [done|]. intros (k & Hk & -> & Hx). nia.
Qed.

Lemma strided_NoDup f i hi stride : 0 < stride -> NoDup (strided f i hi stride).
Proof.
  intros Hs. revert i. induction f as [|f IH]; intros i; cbn [strided]; [constructor|].
  case_match; [|constructor]. constructor; [|apply IH].
  assert (Hlow : forall n a, i < a -> i ∉ strided n a hi stride).
  { induction n as [|n IHn]; intros a Ha; cbn [strided]; [apply not_elem_of_nil|].
    case_match; [|apply not_elem_of_nil]. rewrite not_elem_of_cons. split; [lia | apply IHn; lia]. }
  apply Hlow. lia.
Qed.

Lemma sum_steps (f g : Z -> Z) n : 0 <= n -> (forall h, 0 <= h -> g (h + 1) = g h + f h) -> g 0 = 0 -> zsum (map f (zrange 0 n)) = g n.
Proof.
  intros Hn Hg H0. revert n Hn. apply natlike_ind; [by rewrite zrange_nil|]. intros n Hn IH.
  unfold zrange in *. rewrite Z.sub_0_r in *. rewrite <- Z.add_1_r, seqZ_app, map_app, zsum_app, IH by lia.
  rewrite Z.add_0_l, (seqZ_cons n 1), seqZ_nil, Hg by lia. cbn. lia.
Qed.

Section Promises.
Context (world grid threads rails : Z).
Context (Hworld : 0 < world) (Hgrid : 0 < grid) (Hthreads : 0 < threads) (Hrails : 0 < rails).
#[local] Notation first := (first world).
#[local] Notation chunk_lo := (chunk_lo world).
#[local] Notation chunk_hi := (chunk_hi world).
#[local] Notation others := (others world).
#[local] Notation block_packs := (block_packs grid threads).
#[local] Notation stripe := (stripe world rails).

(** A chunk of [shard] as the kernel bounds it. *)
Definition in_chunk (o : collective) (j c i : Z) : Prop := chunk_lo o j c <= i < chunk_hi o j c.

Lemma others_elem r p : p ∈ others r <-> 0 <= p < world /\ p <> r.
Proof. unfold TwoShotPlan.others, ranks. rewrite list_elem_of_filter, zrange_elem. tauto. Qed.

Lemma first_mono o j j' : 0 <= packs o -> j <= j' -> first o j <= first o j'.
Proof. intros. apply Z.div_le_mono; [done | nia]. Qed.
Lemma first_0 o : first o 0 = 0.
Proof. unfold TwoShotPlan.first, shard_start. by rewrite Z.mul_0_l, Z.div_0_l by lia. Qed.
Lemma first_world o : first o world = packs o.
Proof. unfold TwoShotPlan.first, shard_start. rewrite Z.mul_comm, Z.div_mul by lia. done. Qed.

Lemma in_chunk_unique o j c j' c' i : 0 <= packs o -> 0 < chunk_packs o -> 0 <= c -> 0 <= c' ->
  in_chunk o j c i -> in_chunk o j' c' i -> j = j' /\ c = c'.
Proof.
  intros HP Hcp Hc Hc' Hi Hi'. unfold in_chunk, TwoShotPlan.chunk_lo, TwoShotPlan.chunk_hi, TwoShotPlan.chunk_lo in *.
  assert (0 <= c * chunk_packs o /\ 0 <= c' * chunk_packs o) by nia.
  assert (j = j') as <-.
  { destruct (Z.lt_trichotomy j j') as [Hj|[Hj|Hj]]; [| done |].
    - pose proof (first_mono o (j + 1) j' HP ltac:(lia)). lia.
    - pose proof (first_mono o (j' + 1) j HP ltac:(lia)). lia. }
  split; [done|]. destruct (Z.lt_trichotomy c c') as [Hcc|[Hcc|Hcc]]; [nia | done | nia].
Qed.

(** A shard has at most [cdiv packs world] packs. *)
Lemma shard_width o j : 0 <= packs o -> first o (j + 1) - first o j <= cdiv (packs o) world.
Proof.
  intros HP. unfold TwoShotPlan.first, shard_start. pose proof (cdiv_spec (packs o) world Hworld).
  assert ((j + 1) * packs o / world <= (j * packs o + cdiv (packs o) world * world) / world) by (apply Z.div_le_mono; lia).
  rewrite Z.div_add in * by lia. lia.
Qed.

Lemma in_chunk_cover o i : cdiv (packs o) world <= chunks o * chunk_packs o -> 0 < chunk_packs o -> 0 <= i < packs o ->
  exists j c, 0 <= j < world /\ 0 <= c < chunks o /\ in_chunk o j c i.
Proof.
  intros Hw Hcp Hi.
  assert (Hj : exists j, 0 <= j < world /\ first o j <= i < first o (j + 1)).
  { assert (Hn : forall n, 0 <= n -> n <= world -> i < first o n -> exists j, 0 <= j < n /\ first o j <= i < first o (j + 1)).
    { apply (natlike_ind (fun n => n <= world -> i < first o n -> exists j, 0 <= j < n /\ first o j <= i < first o (j + 1))).
      - rewrite first_0. lia.
      - intros n Hn IH Hnw Hlt. destruct (Z.lt_ge_cases i (first o n)) as [Hi'|Hi'].
        + destruct (IH ltac:(lia) Hi') as (j & Hj & Hij). exists j. split; [lia | done].
        + exists n. rewrite <- Z.add_1_r in Hlt. lia. }
    apply Hn; [lia | lia | rewrite first_world; lia]. }
  destruct Hj as (j & Hj & Hij). exists j, ((i - first o j) / chunk_packs o).
  pose proof (Z.div_mod (i - first o j) (chunk_packs o) ltac:(lia)). pose proof (Z.mod_pos_bound (i - first o j) (chunk_packs o) Hcp).
  pose proof (shard_width o j ltac:(lia)).
  split; [done|]. split; [split; [apply Z.div_pos; lia | apply Z.div_lt_upper_bound; lia]|].
  unfold in_chunk, TwoShotPlan.chunk_lo, TwoShotPlan.chunk_hi, TwoShotPlan.chunk_lo. lia.
Qed.

(** *** Every pack of a range is one thread's of one block's *)

Lemma block_packs_in b lo hi i : 0 <= b -> i ∈ block_packs b lo hi -> lo <= i < hi /\ (i - lo) mod (grid * threads) / threads = b \/ grid <= b.
Proof.
  intros Hb (t & Hi & Ht%zrange_elem)%list_elem_of_bind.
  destruct (Z.lt_ge_cases b grid) as [Hbg|]; [left | by right].
  assert (hi <= lo \/ lo < hi) as [Hle|Hlt] by lia.
  { rewrite Z2Nat.nonpos in Hi by lia. by apply not_elem_of_nil in Hi. }
  assert (0 < grid * threads) by nia.
  apply strided_spec in Hi as (k & Hk & -> & Hx); [|lia | rewrite Z2Nat.id by lia; nia].
  split; [nia|]. replace (lo + (b * threads + t) + k * (grid * threads) - lo) with (t + b * threads + k * (grid * threads)) by lia.
  rewrite Z.mod_add, Z.mod_small, Z.div_add, Z.div_small by nia. lia.
Qed.

Lemma block_packs_range b lo hi i : 0 <= b < grid -> i ∈ block_packs b lo hi -> lo <= i < hi.
Proof. intros Hb Hi%block_packs_in; lia. Qed.

Lemma block_packs_unique b b' lo hi i : 0 <= b < grid -> 0 <= b' < grid -> i ∈ block_packs b lo hi -> i ∈ block_packs b' lo hi -> b = b'.
Proof. intros Hb Hb' Hi%block_packs_in Hi'%block_packs_in; lia. Qed.

Lemma block_packs_cover lo hi i : lo <= i < hi -> exists b, 0 <= b < grid /\ i ∈ block_packs b lo hi.
Proof.
  intros Hi. set (s := grid * threads). assert (Hs : 0 < s) by (subst s; nia).
  pose proof (Z.div_mod (i - lo) s ltac:(lia)). pose proof (Z.mod_pos_bound (i - lo) s Hs). pose proof (Z.div_pos (i - lo) s ltac:(lia) Hs).
  set (m := (i - lo) mod s) in *. pose proof (Z.div_mod m threads ltac:(lia)). pose proof (Z.mod_pos_bound m threads Hthreads).
  exists (m / threads). split; [split; [apply Z.div_pos; lia | apply Z.div_lt_upper_bound; subst s; lia]|].
  apply list_elem_of_bind. exists (m mod threads). split; [|by apply zrange_elem].
  apply strided_spec; [done | rewrite Z2Nat.id by lia; pose proof (Z.div_pos m threads); nia |].
  exists ((i - lo) / s). repeat split; lia.
Qed.

Lemma block_packs_NoDup b lo hi : 0 <= b < grid -> NoDup (block_packs b lo hi).
Proof.
  intros Hb. unfold TwoShotPlan.block_packs. assert (0 < grid * threads) by nia.
  assert (lo < hi \/ hi <= lo) as [Hlt|Hle] by lia.
  2: { rewrite Z2Nat.nonpos by lia. cbn [strided]. generalize (zrange 0 threads). intros l. induction l; [constructor | done]. }
  apply NoDup_bind.
  - intros t t' i Ht%zrange_elem Ht'%zrange_elem Hi Hi'.
    apply strided_spec in Hi as (k & Hk & -> & Hx); [|lia | rewrite Z2Nat.id by lia; nia].
    apply strided_spec in Hi' as (k' & Hk' & He & Hx'); [|lia | rewrite Z2Nat.id by lia; nia]. clear Hx Hx'.
    assert (He' : t - t' = (k' - k) * (grid * threads)) by lia. assert (k' = k) by (destruct (Z.lt_trichotomy k' k) as [?|[?|?]]; nia). nia.
  - intros t _. by apply strided_NoDup.
  - unfold zrange. apply NoDup_seqZ.
Qed.

(** *** The stripes of a chunk tile it *)

Lemma stripe_off_eq n h : 0 <= n -> 0 <= h -> stripe_off rails n h = h * (n / rails) + Z.min h (n mod rails).
Proof.
  intros Hn Hh. pose proof (Z.mod_pos_bound n rails Hrails). unfold stripe_off.
  apply (sum_steps (stripe_packs rails n) (fun h => h * (n / rails) + Z.min h (n mod rails))); [done | | lia].
  intros h0 Hh0. unfold stripe_packs. destruct (Z.ltb_spec h0 (n mod rails)); lia.
Qed.

Lemma post_range o j c : 0 <= packs o -> 0 <= c -> 0 < chunk_packs o ->
  0 <= post_hi world o j c - post_lo world o j c
  /\ forall i, post_lo world o j c <= i < post_hi world o j c <-> in_chunk o j c i.
Proof.
  intros HP Hc Hcp. pose proof (first_mono o j (j + 1) HP ltac:(lia)).
  unfold in_chunk, TwoShotPlan.chunk_lo, TwoShotPlan.chunk_hi, post_hi, post_lo, TwoShotPlan.chunk_lo. split; [lia | intros i; lia].
Qed.

Lemma stripe_in o j c h i : 0 <= packs o -> 0 <= c -> 0 < chunk_packs o -> 0 <= h < rails -> i ∈ stripe o j c h -> in_chunk o j c i.
Proof.
  intros HP Hc Hcp Hh Hi%zrange_elem. destruct (post_range o j c HP Hc Hcp) as [Hn Heq]. apply Heq.
  set (n := post_hi world o j c - post_lo world o j c) in *. rewrite stripe_off_eq in Hi by lia. unfold stripe_packs in Hi.
  pose proof (Z.div_mod n rails ltac:(lia)). pose proof (Z.mod_pos_bound n rails Hrails). pose proof (Z.div_pos n rails Hn Hrails).
  assert (h * (n / rails) + n / rails <= rails * (n / rails)) by nia.
  destruct (Z.ltb_spec h (n mod rails)); unfold n in *; nia.
Qed.

Lemma stripe_cover o j c i : 0 <= packs o -> 0 <= c -> 0 < chunk_packs o -> in_chunk o j c i -> exists h, 0 <= h < rails /\ i ∈ stripe o j c h.
Proof.
  intros HP Hc Hcp Hi. destruct (post_range o j c HP Hc Hcp) as [Hn Heq]. apply Heq in Hi.
  set (lo := post_lo world o j c) in *. set (n := post_hi world o j c - lo) in *.
  assert (Hk : forall k, 0 <= k -> k <= rails -> i < lo + stripe_off rails n k -> exists h, 0 <= h < k /\ i ∈ stripe o j c h).
  { apply (natlike_ind (fun k => k <= rails -> i < lo + stripe_off rails n k -> exists h, 0 <= h < k /\ i ∈ stripe o j c h)).
    - rewrite stripe_off_eq by lia. lia.
    - intros k Hk IH Hkr Hlt. destruct (Z.lt_ge_cases i (lo + stripe_off rails n k)) as [Hi'|Hi'].
      + destruct (IH ltac:(lia) Hi') as (h & Hh & Hin). exists h. split; [lia | done].
      + exists k. split; [lia|]. apply zrange_elem. fold lo n. rewrite stripe_off_eq in * by lia. unfold stripe_packs.
        destruct (Z.ltb_spec k (n mod rails)); nia. }
  apply (Hk rails); [lia | lia|]. rewrite stripe_off_eq by lia.
  pose proof (Z.div_mod n rails ltac:(lia)). pose proof (Z.mod_pos_bound n rails Hrails). lia.
Qed.
End Promises.

(** The geometry of a routed message passes the proxy's guard, and its shards fit their regions. *)
Lemma pipe_geometry_ok nb world cmin cp n : 0 < world -> 0 < cmin -> pipe_geometry nb world cmin MAX_CHUNKS = Ok (cp, n) ->
  0 < nb /\ nb mod 16 = 0 /\ 0 < cp /\ 0 < n <= MAX_CHUNKS /\ cdiv (nb / 16) world <= n * cp.
Proof.
  unfold pipe_geometry, PACK_BYTES, MAX_CHUNKS. intros Hw Hc. destruct (Z.leb_spec nb 0), (Z.eqb_spec (nb mod 16) 0); cbn; intros H0; simplify_eq.
  assert (0 < nb / 16) by (pose proof (Z.div_mod nb 16 ltac:(lia)); lia).
  set (sh := cdiv (nb / 16) world). pose proof (cdiv_spec (nb / 16) world Hw). fold sh in H1.
  pose proof (cdiv_spec sh 64 ltac:(lia)). set (cp := Z.max cmin (cdiv sh 64)) in *.
  pose proof (cdiv_spec sh cp ltac:(lia)). nia.
Qed.

Lemma all_reduce_op_two shape esize pipe_bytes min_rows cmin world ip o : 0 < world -> 0 < cmin ->
  all_reduce_op shape esize pipe_bytes min_rows cmin world ip = Ok o -> two o = true ->
  0 < pipe_bytes /\ 0 < nbytes o <= pipe_bytes /\ nbytes o mod 16 = 0 /\ 0 < chunk_packs o /\ 0 < chunks o <= MAX_CHUNKS
  /\ cdiv (nbytes o / 16) world <= chunks o * chunk_packs o.
Proof.
  intros Hw Hc. unfold all_reduce_op. set (n := fold_right Z.mul 1 shape * esize). destruct (uses_pipe _ n pipe_bytes min_rows) eqn:Hu; [|by intros [= <-]].
  destruct (pipe_geometry n world cmin MAX_CHUNKS) as [[cp k]|e] eqn:Hg; [|done]. intros [= <-] _.
  unfold uses_pipe, PACK_BYTES in Hu. rewrite !andb_true_iff, !Z.ltb_lt, !Z.leb_le, !Z.eqb_eq in Hu.
  pose proof (pipe_geometry_ok n world cmin cp k Hw Hc Hg). cbn. lia.
Qed.

Lemma shard_fits world o pipe_bytes j : 0 < world -> 0 <= nbytes o <= pipe_bytes ->
  16 * (first world o (j + 1) - first world o j) <= shard_cap pipe_bytes world.
Proof.
  intros Hw Hn. assert (0 <= packs o <= pipe_bytes / 16) by (unfold packs, PACK_BYTES; split; [apply Z.div_pos; lia | apply Z.div_le_mono; lia]).
  pose proof (shard_width world Hw o j ltac:(lia)). pose proof (cdiv_mono (packs o) (pipe_bytes / 16) world Hw ltac:(lia)).
  pose proof (cdiv_spec (pipe_bytes / 16) world Hw).
  unfold shard_cap. set (a := (pipe_bytes / 16 + world - 1) / world).
  assert (cdiv (pipe_bytes / 16) world <= a) by (apply Z.div_le_lower_bound; lia).
  pose proof (Z.div_mod (a * 16 + 4095) 4096 ltac:(lia)). pose proof (Z.mod_pos_bound (a * 16 + 4095) 4096 ltac:(lia)). lia.
Qed.
