(* ===== verification/TwoShot.v ===== *)
(** * Two-shot all-reduce: kernel, proxy and wire

    [runtime/b12x/b12x/comm/roce_twoshot]: the device kernel ([_twoshot_cute.py]), the proxy thread
    ([_roce_proxy.c]) and the RDMA writes between the ranks, as one step relation over a
    run of collectives.  Blocks, packs of one block, proxies and the NIC interleave freely;
    a fence orders what its thread wrote before, so memory is sequentially consistent.
    The one-shot kernel of the same package is a collective of another kind: it rings the
    doorbell and ends once every peer's proxy took it up. *)
From S2P Require Import Prelude TwoShotPlan.
From stdpp Require Import functions.
#[local] Open Scope list_scope.
#[local] Open Scope Z_scope.

(** ** The words of the region *)

(** What the doorbell's slot records. *)
Record slot_rec := Slot { s_kind : Z; s_nbytes : Z; s_chunk_packs : Z; s_chunks : Z }.

(** [prior + 1] of the free-running 32-bit counters. *)
Definition u32 (x : Z) : Z := x mod 2 ^ 32.
Definition SENTINEL : Z := 4294967295.

Section Protocol.
Context {V A : Type} (load : V -> A) (add : A -> V -> A) (store : A -> V).
(** [world] ranks, a grid of [grid] blocks of [threads], [rails] HCAs. *)
Context (world grid threads rails pipe_bytes : Z).
(** The collective of each sequence number and what each rank contributes. *)
Context (colls : Z -> collective) (count : Z) (inp : Z -> Z -> Z -> V).
#[local] Notation ranks := (TwoShotPlan.ranks world).
#[local] Notation first := (TwoShotPlan.first world).
#[local] Notation chunk_lo := (TwoShotPlan.chunk_lo world).
#[local] Notation chunk_hi := (TwoShotPlan.chunk_hi world).
#[local] Notation others := (TwoShotPlan.others world).
#[local] Notation stage_todo := (TwoShotPlan.stage_todo world grid threads).
#[local] Notation reduce_todo := (TwoShotPlan.reduce_todo world grid threads).
#[local] Notation gather_todo := (TwoShotPlan.gather_todo world grid threads).
#[local] Notation waiters := (TwoShotPlan.waiters world rails).
#[local] Notation stripe := (TwoShotPlan.stripe world rails).


(** [_accumulate_words] over the sources, then [_store_accumulator]. *)
Definition accumulate (acc : option A) (w : V) : option A :=
  match acc with None => Some (load w) | Some a => Some (add a w) end.
Definition reduce_words (w0 : V) (ws : list V) : V :=
  match fold_left accumulate ws None with Some a => store a | None => w0 end.

(** The pack a one-shot all-reduce stores. *)
Definition reduced (k i : Z) : V := reduce_words (inp k 0 i) (map (fun src => inp k src i) ranks).

(** *** State *)

(** A block's program counter.  A wait holds the threads still polling and whether every
    thread saw its flag. *)
Inductive pc :=
| Start
| Ring
| Stage (c : Z) (todo : list Z)
| Wait (phase c : Z) (pend : list (Z * Z)) (seen : bool)
| Reduce (c : Z) (todo : list Z) (seen : bool)
| Gather (c : Z) (todo : list Z) (seen : bool)
| Tail
| Spin
| Opaque (rung : bool)
| Done.

(** A chunk on a queue pair: the packs still to write, with what the NIC read of each, then
    its flag.  A pack lands at its offset from [w_base]. *)
Record wqe := Wqe { w_phase : Z; w_chunk : Z; w_seq : Z; w_base : Z; w_todo : list (Z * option V) }.

(** The proxy: polling, working off doorbells up to [upto], or inside an operation. *)
Inductive proxy := PIdle | PLoop (upto : Z) | POne (upto s : Z) | PRun (upto s : Z) (o : collective) (rs ag : Z).

(** The device: blocks, the sequence each read, poison and error word, counters, [pipe_send],
    the output, the ready words. *)
Record krn := Krn { blk : Z -> pc; bseq : Z -> Z; error : Z; poison : Z; sctr : Z -> Z; rctr : Z -> Z; tctr : Z;
                    psend : Z -> V; buf : Z -> V; rs_word : Z -> Z; ag_word : Z -> Z }.
(** The collective launched last, the device epoch, the doorbell and its slots. *)
Record ctl := Ctl { cur : Z; epoch : Z; door : Z; slots : Z -> slot_rec }.
(** The proxy, [pipe_done] and the queue pair to each peer on each rail. *)
Record prx := Prx { last_seq : Z; prox : proxy; failed : bool; wrapped : bool; pdone : Z; queue : Z -> Z -> list wqe }.
(** What peers write: [pipe_recv] by source, phase and pack, [pipe_flag] by phase, source, chunk and rail. *)
Record net := Net { recv : Z -> Z -> Z -> V; flag : Z -> Z -> Z -> Z -> Z }.
Record gst := G { kr : Z -> krn; hr : Z -> ctl; pr : Z -> prx; nr : Z -> net }.

Definition op_of (st : gst) (r : Z) : collective := colls (cur (hr st r)).
Definition set_k (st : gst) (r : Z) (k : krn) : gst := G (<[r := k]> (kr st)) (hr st) (pr st) (nr st).
Definition set_h (st : gst) (r : Z) (h : ctl) : gst := G (kr st) (<[r := h]> (hr st)) (pr st) (nr st).
Definition set_p (st : gst) (r : Z) (p : prx) : gst := G (kr st) (hr st) (<[r := p]> (pr st)) (nr st).
Definition set_n (st : gst) (r : Z) (n : net) : gst := G (kr st) (hr st) (pr st) (<[r := n]> (nr st)).

Definition goto (k : krn) (b : Z) (q : pc) : krn :=
  Krn (<[b := q]> (blk k)) (bseq k) (error k) (poison k) (sctr k) (rctr k) (tctr k) (psend k) (buf k) (rs_word k) (ag_word k).
(** The two words a failing wait writes. *)
Definition fail_at (k : krn) (s : Z) : krn :=
  Krn (blk k) (bseq k) s s (sctr k) (rctr k) (tctr k) (psend k) (buf k) (rs_word k) (ag_word k).
Definition put_send (k : krn) (i : Z) (v : V) : krn :=
  Krn (blk k) (bseq k) (error k) (poison k) (sctr k) (rctr k) (tctr k) (<[i := v]> (psend k)) (buf k) (rs_word k) (ag_word k).
Definition put_out (k : krn) (i : Z) (v : V) : krn :=
  Krn (blk k) (bseq k) (error k) (poison k) (sctr k) (rctr k) (tctr k) (psend k) (<[i := v]> (buf k)) (rs_word k) (ag_word k).

(** The last of [grid] arrivals. *)
Definition is_last (prior : Z) : bool := u32 (prior + 1) mod grid =? 0.
(** [_arrive] on the stage and on the reduce counters. *)
Definition arrive_stage (k : krn) (s c : Z) : krn :=
  Krn (blk k) (bseq k) (error k) (poison k) (<[c := u32 (sctr k c + 1)]> (sctr k)) (rctr k) (tctr k) (psend k) (buf k)
      (if is_last (sctr k c) && (error k =? 0) then <[c := s]> (rs_word k) else rs_word k) (ag_word k).
Definition arrive_reduce (k : krn) (s c : Z) : krn :=
  Krn (blk k) (bseq k) (error k) (poison k) (sctr k) (<[c := u32 (rctr k c + 1)]> (rctr k)) (tctr k) (psend k) (buf k)
      (rs_word k) (if is_last (rctr k c) && (error k =? 0) then <[c := s]> (ag_word k) else ag_word k).
Definition arrive_tail (k : krn) : krn :=
  Krn (blk k) (bseq k) (error k) (poison k) (sctr k) (rctr k) (u32 (tctr k + 1)) (psend k) (buf k) (rs_word k) (ag_word k).
Definition read_seq (k : krn) (b s : Z) : krn :=
  Krn (blk k) (<[b := s]> (bseq k)) (error k) (poison k) (sctr k) (rctr k) (tctr k) (psend k) (buf k) (rs_word k) (ag_word k).

(** The input as the kernel reads it: the output's memory when the call is in place. *)
Definition input_at (st : gst) (r i : Z) : V :=
  if inplace (op_of st r) then buf (kr st r) i else inp (cur (hr st r)) r i.
(** Phase 3: the words of every source in rank order. *)
Definition source_at (st : gst) (r i src : Z) : V :=
  if src =? r then input_at st r i else recv (nr st r) src 0 (i - first (op_of st r) r).

Definition after_stage (o : collective) (r b c : Z) : pc :=
  if c + 1 <? chunks o then Stage (c + 1) (stage_todo o r b (c + 1)) else Wait 0 0 (waiters r) true.
Definition after_reduce (o : collective) (r c : Z) : pc :=
  if c + 1 <? chunks o then Wait 0 (c + 1) (waiters r) true else Wait 1 0 (waiters r) true.
Definition after_gather (o : collective) (r c : Z) : pc :=
  if c + 1 <? chunks o then Wait 1 (c + 1) (waiters r) true else Tail.
Definition after_wait (o : collective) (r b phase c : Z) (seen : bool) : pc :=
  if phase =? 0 then Reduce c (reduce_todo o r b c) seen else Gather c (gather_todo o r b c) seen.

(** *** The kernel's steps (block [b] of rank [r]) *)

Definition ring (h : ctl) (s : Z) (o : collective) : ctl :=
  Ctl (cur h) (epoch h) s (<[Z.land s 1 := if two o then Slot 1 (nbytes o) (chunk_packs o) (chunks o) else
                                            Slot 0 (nbytes o) (s_chunk_packs (slots h (Z.land s 1))) (s_chunks (slots h (Z.land s 1)))]> (slots h)).
Definition set_epoch (h : ctl) (s : Z) : ctl := Ctl (cur h) s (door h) (slots h).
(** The sequence the proxy has taken up. *)
Definition taken (p : prx) : Z := match prox p with POne _ s | PRun _ s _ _ _ => s | _ => last_seq p end.

Inductive kstep (r b : Z) (st : gst) : gst -> Prop :=
| k_wrapped :
    blk (kr st r) b = Start -> u32 (epoch (hr st r) + 1) = 0 ->
    kstep r b st (set_k st r (goto (fail_at (read_seq (kr st r) b 0) SENTINEL) b Tail))
| k_poisoned :
    blk (kr st r) b = Start -> u32 (epoch (hr st r) + 1) <> 0 -> poison (kr st r) <> 0 ->
    kstep r b st (set_k st r (goto (read_seq (kr st r) b (u32 (epoch (hr st r) + 1))) b Tail))
| k_start :
    blk (kr st r) b = Start -> u32 (epoch (hr st r) + 1) <> 0 -> poison (kr st r) = 0 -> two (op_of st r) = true ->
    kstep r b st (set_k st r (goto (read_seq (kr st r) b (u32 (epoch (hr st r) + 1))) b
                                   (if b =? 0 then Ring else Stage 0 (stage_todo (op_of st r) r b 0))))
| k_ring :
    blk (kr st r) b = Ring ->
    kstep r b st (set_h (set_k st r (goto (kr st r) b (Stage 0 (stage_todo (op_of st r) r b 0)))) r
                        (ring (hr st r) (bseq (kr st r) b) (op_of st r)))
| k_stage c l1 i l2 :
    blk (kr st r) b = Stage c (l1 ++ i :: l2) ->
    kstep r b st (set_k st r (goto (put_send (kr st r) i (input_at st r i)) b (Stage c (l1 ++ l2))))
| k_staged c :
    blk (kr st r) b = Stage c [] ->
    kstep r b st (set_k st r (goto (arrive_stage (kr st r) (bseq (kr st r) b) c) b (after_stage (op_of st r) r b c)))
| k_seen phase c l1 p h l2 seen :
    blk (kr st r) b = Wait phase c (l1 ++ (p, h) :: l2) seen -> flag (nr st r) phase p c h = bseq (kr st r) b ->
    kstep r b st (set_k st r (goto (kr st r) b (Wait phase c (l1 ++ l2) seen)))
| k_wait_poisoned phase c l1 p h l2 seen :
    blk (kr st r) b = Wait phase c (l1 ++ (p, h) :: l2) seen -> poison (kr st r) <> 0 ->
    kstep r b st (set_k st r (goto (kr st r) b (Wait phase c (l1 ++ l2) false)))
| k_timeout phase c l1 p h l2 seen :
    blk (kr st r) b = Wait phase c (l1 ++ (p, h) :: l2) seen ->
    kstep r b st (set_k st r (goto (fail_at (kr st r) (bseq (kr st r) b)) b (Wait phase c (l1 ++ l2) false)))
| k_waited phase c seen :
    blk (kr st r) b = Wait phase c [] seen ->
    kstep r b st (set_k st r (goto (kr st r) b (after_wait (op_of st r) r b phase c seen)))
| k_reduce c l1 i l2 :
    blk (kr st r) b = Reduce c (l1 ++ i :: l2) true ->
    let v := reduce_words (input_at st r i) (map (source_at st r i) ranks) in
    kstep r b st (set_k st r (goto (put_send (put_out (kr st r) i v) i v) b (Reduce c (l1 ++ l2) true)))
| k_reduce_poisoned c l1 i l2 seen :
    blk (kr st r) b = Reduce c (l1 ++ i :: l2) seen -> poison (kr st r) <> 0 ->
    kstep r b st (set_k st r (goto (kr st r) b (Reduce c (l1 ++ l2) seen)))
| k_reduced c seen :
    blk (kr st r) b = Reduce c [] seen ->
    kstep r b st (set_k st r (goto (arrive_reduce (kr st r) (bseq (kr st r) b) c) b (after_reduce (op_of st r) r c)))
| k_gather c l1 i l2 j :
    blk (kr st r) b = Gather c (l1 ++ i :: l2) true ->
    j ∈ others r -> chunk_lo (op_of st r) j c <= i < chunk_hi (op_of st r) j c ->
    kstep r b st (set_k st r (goto (put_out (kr st r) i (recv (nr st r) j 1 (i - first (op_of st r) j))) b (Gather c (l1 ++ l2) true)))
| k_gather_poisoned c l1 i l2 seen :
    blk (kr st r) b = Gather c (l1 ++ i :: l2) seen -> poison (kr st r) <> 0 ->
    kstep r b st (set_k st r (goto (kr st r) b (Gather c (l1 ++ l2) seen)))
| k_gathered c seen :
    blk (kr st r) b = Gather c [] seen ->
    kstep r b st (set_k st r (goto (kr st r) b (after_gather (op_of st r) r c)))
| k_tail :
    blk (kr st r) b = Tail ->
    kstep r b st (set_k st r (goto (arrive_tail (kr st r)) b
                                   (if is_last (tctr (kr st r)) && (error (kr st r) =? 0) then Spin else Done)))
| k_released :
    blk (kr st r) b = Spin -> pdone (pr st r) = bseq (kr st r) b ->
    kstep r b st (set_h (set_k st r (goto (kr st r) b Done)) r (set_epoch (hr st r) (bseq (kr st r) b)))
| k_spin_timeout :
    blk (kr st r) b = Spin ->
    kstep r b st (set_k st r (goto (fail_at (kr st r) (bseq (kr st r) b)) b Done))
(** A one-shot collective, by its first block. *)
| k_opaque :
    blk (kr st r) b = Start -> u32 (epoch (hr st r) + 1) <> 0 -> poison (kr st r) = 0 -> two (op_of st r) = false ->
    kstep r b st (set_k st r (goto (read_seq (kr st r) b (u32 (epoch (hr st r) + 1))) b (if b =? 0 then Opaque false else Done)))
| k_opaque_ring :
    blk (kr st r) b = Opaque false ->
    kstep r b st (set_h (set_k st r (goto (kr st r) b (Opaque true))) r (ring (hr st r) (bseq (kr st r) b) (op_of st r)))
| k_opaque_end :
    blk (kr st r) b = Opaque true -> (forall b', 0 <= b' < grid -> b' <> b -> blk (kr st r) b' = Done) -> error (kr st r) = 0 ->
    (forall p, p ∈ others r -> bseq (kr st r) b <= taken (pr st p)) ->
    kstep r b st (set_h (set_k st r (goto (kr st r) b Done)) r (set_epoch (hr st r) (bseq (kr st r) b)))
| k_opaque_timeout :
    blk (kr st r) b = Opaque true ->
    kstep r b st (set_k st r (goto (fail_at (kr st r) (bseq (kr st r) b)) b Done)).

(** The stream launches the next collective once the kernel before ended; on a poisoned
    runtime a launch stores nothing.  The output is the input's memory or any other. *)
Definition launched (k : krn) (out : Z -> V) : krn :=
  Krn (fun _ => Start) (bseq k) (error k) (poison k) (sctr k) (rctr k) (tctr k) (psend k) out (rs_word k) (ag_word k).
Inductive launch (r : Z) (st : gst) : gst -> Prop :=
| k_launch out :
    (forall b, 0 <= b < grid -> blk (kr st r) b = Done) -> poison (kr st r) = 0 -> cur (hr st r) < count ->
    (inplace (colls (cur (hr st r) + 1)) = true -> out = inp (cur (hr st r) + 1) r) ->
    launch r st (set_h (set_k st r (launched (kr st r) out)) r
                       (Ctl (cur (hr st r) + 1) (epoch (hr st r)) (door (hr st r)) (slots (hr st r)))).

(** *** The proxy's steps ([proxy_main], [run_pipe_op]) *)

Definition goto_p (p : prx) (q : proxy) : prx := Prx (last_seq p) q (failed p) (wrapped p) (pdone p) (queue p).
Definition finish (p : prx) (s : Z) (q : proxy) : prx := Prx s q (failed p) (wrapped p) (pdone p) (queue p).
Definition fail (p : prx) : prx := Prx (last_seq p) (prox p) true (wrapped p) (pdone p) (queue p).
Definition release (p : prx) (s : Z) (q : proxy) : prx := Prx s q (failed p) (wrapped p) s (queue p).

(** The guard at the head of [run_pipe_op]. *)
Definition pipe_valid (o : collective) : bool :=
  (0 <? pipe_bytes) && (0 <? nbytes o) && (nbytes o mod 16 =? 0) && (nbytes o <=? pipe_bytes)
  && (0 <? chunks o) && (chunks o <=? MAX_CHUNKS) && (0 <? chunk_packs o)
  && (cdiv (nbytes o / 16) world <=? chunks o * chunk_packs o).
Definition of_slot (w : slot_rec) : collective := Coll true (s_nbytes w) (s_chunk_packs w) (s_chunks w) false.

(** What the proxy does with the operation of sequence [s] and its slot's record: [None] fails it. *)
Definition take (upto s : Z) (w : slot_rec) (wrap : bool) : option proxy :=
  if s_kind w =? 0 then Some (POne upto s)
  else if (s_kind w =? 1) && pipe_valid (of_slot w) && negb wrap then Some (PRun upto s (of_slot w) 0 0)
  else None.
Definition taking (p : prx) (upto : Z) (slot_of : Z -> slot_rec) : prx :=
  let s := u32 (last_seq p + 1) in
  let wrap := wrapped p || (s =? 0) in
  match take upto s (slot_of (Z.land s 1)) wrap with
  | Some q => Prx (last_seq p) q (failed p) wrap (pdone p) (queue p)
  | None => Prx (last_seq p) (prox p) true wrap (pdone p) (queue p)
  end.
(** [pending > ROCE_SLOTS] fails. *)
Definition polled (p : prx) (d : Z) : prx := if 2 <? u32 (d - last_seq p) then fail p else goto_p p (PLoop d).

Definition chunk_wqe (o : collective) (s r phase c p h : Z) : wqe :=
  Wqe phase c s (first o (post_shard phase r p)) (map (fun i => (i, None)) (stripe o (post_shard phase r p) c h)).
Definition posted_queue (o : collective) (s r phase c : Z) (q : Z -> Z -> list wqe) : Z -> Z -> list wqe :=
  fun p h => if bool_decide (p ∈ others r) && bool_decide (0 <= h < rails) then q p h ++ [chunk_wqe o s r phase c p h] else q p h.
Definition post (p : prx) (o : collective) (s r phase c : Z) (q : proxy) : prx :=
  Prx (last_seq p) q (failed p) (wrapped p) (pdone p) (posted_queue o s r phase c (queue p)).

(** A thread that failed has returned. *)
Inductive pstep (r : Z) (st : gst) : gst -> Prop :=
| p_poll :
    failed (pr st r) = false -> prox (pr st r) = PIdle -> door (hr st r) <> last_seq (pr st r) ->
    pstep r st (set_p st r (polled (pr st r) (door (hr st r))))
| p_caught_up u :
    failed (pr st r) = false -> prox (pr st r) = PLoop u -> last_seq (pr st r) = u -> pstep r st (set_p st r (goto_p (pr st r) PIdle))
| p_take u :
    failed (pr st r) = false -> prox (pr st r) = PLoop u -> last_seq (pr st r) <> u ->
    pstep r st (set_p st r (taking (pr st r) u (slots (hr st r))))
| p_one u s :
    failed (pr st r) = false -> prox (pr st r) = POne u s -> pstep r st (set_p st r (finish (pr st r) s (PLoop u)))
| p_post_rs u s o rs ag :
    failed (pr st r) = false -> prox (pr st r) = PRun u s o rs ag -> rs < chunks o -> rs_word (kr st r) rs = s ->
    pstep r st (set_p st r (post (pr st r) o s r 0 rs (PRun u s o (rs + 1) ag)))
| p_post_ag u s o rs ag :
    failed (pr st r) = false -> prox (pr st r) = PRun u s o rs ag -> ag < chunks o -> ag_word (kr st r) ag = s ->
    pstep r st (set_p st r (post (pr st r) o s r 1 ag (PRun u s o rs (ag + 1))))
| p_release u s o rs ag :
    failed (pr st r) = false -> prox (pr st r) = PRun u s o rs ag -> chunks o <= rs -> chunks o <= ag ->
    (forall p h, p ∈ others r -> 0 <= h < rails -> queue (pr st r) p h = []) ->
    pstep r st (set_p st r (release (pr st r) s (PLoop u)))
(** A failed completion, a stop, a kernel's error word. *)
| p_fail :
    pstep r st (set_p st r (fail (pr st r))).

(** *** The NIC's steps: it reads a posted pack at any time, and again when it retransmits;
    the work requests of a queue pair land in order, a flag after the packs before it. *)

Definition set_queue (p : prx) (t h : Z) (l : list wqe) : prx :=
  Prx (last_seq p) (prox p) (failed p) (wrapped p) (pdone p) (<[t := <[h := l]> (queue p t)]> (queue p)).
Definition with_todo (w : wqe) (l : list (Z * option V)) : wqe := Wqe (w_phase w) (w_chunk w) (w_seq w) (w_base w) l.
Definition write_recv (n : net) (src phase off : Z) (v : V) : net :=
  Net (<[src := <[phase := <[off := v]> (recv n src phase)]> (recv n src)]> (recv n)) (flag n).
Definition write_flag (n : net) (phase src c h s : Z) : net :=
  Net (recv n) (<[phase := <[src := <[c := <[h := s]> (flag n phase src c)]> (flag n phase src)]> (flag n phase)]> (flag n)).

Inductive nstep (r p h : Z) (st : gst) : gst -> Prop :=
| n_read q1 w q2 l1 i v l2 :
    queue (pr st r) p h = q1 ++ w :: q2 -> w_todo w = l1 ++ (i, v) :: l2 ->
    nstep r p h st (set_p st r (set_queue (pr st r) p h (q1 ++ with_todo w (l1 ++ (i, Some (psend (kr st r) i)) :: l2) :: q2)))
| n_write w q l1 i v l2 :
    queue (pr st r) p h = w :: q -> w_todo w = l1 ++ (i, Some v) :: l2 ->
    nstep r p h st (set_n (set_p st r (set_queue (pr st r) p h (with_todo w (l1 ++ l2) :: q))) p
                          (write_recv (nr st p) r (w_phase w) (i - w_base w) v))
| n_flag w q :
    queue (pr st r) p h = w :: q -> w_todo w = [] ->
    nstep r p h st (set_n (set_p st r (set_queue (pr st r) p h q)) p (write_flag (nr st p) (w_phase w) r (w_chunk w) h (w_seq w))).

(** *** Runs *)

Inductive step (st st' : gst) : Prop :=
| s_kernel r b : r ∈ ranks -> 0 <= b < grid -> kstep r b st st' -> step st st'
| s_launch r : r ∈ ranks -> launch r st st' -> step st st'
| s_proxy r : r ∈ ranks -> pstep r st st' -> step st st'
| s_nic r p h : r ∈ ranks -> p ∈ others r -> 0 <= h < rails -> nstep r p h st st' -> step st st'.

(** A fresh region is zero; the data areas hold anything. *)
Definition fresh_region (st : gst) : Prop :=
  forall r, (forall b, blk (kr st r) b = Done) /\ error (kr st r) = 0 /\ poison (kr st r) = 0
  /\ (forall c, sctr (kr st r) c = 0 /\ rctr (kr st r) c = 0 /\ rs_word (kr st r) c = 0 /\ ag_word (kr st r) c = 0) /\ tctr (kr st r) = 0
  /\ cur (hr st r) = 0 /\ epoch (hr st r) = 0 /\ door (hr st r) = 0
  /\ last_seq (pr st r) = 0 /\ prox (pr st r) = PIdle /\ failed (pr st r) = false /\ wrapped (pr st r) = false /\ pdone (pr st r) = 0 /\ (forall p h, queue (pr st r) p h = [])
  /\ (forall ph src c h, flag (nr st r) ph src c h = 0).

Inductive reach : gst -> Prop :=
| r_fresh st : fresh_region st -> reach st
| r_step st st' : reach st -> step st st' -> reach st'.
End Protocol.
