(* ===== verification/TwoShotInv.v ===== *)
(** * Two-shot all-reduce: the invariant of a run

    What every reachable state of [TwoShot] satisfies: the device of each rank (what its
    blocks have staged, reduced and gathered, and what the arrival counters count), the
    proxies, how far two ranks can be apart, and for every queue pair what has landed. *)
From S2P Require Import Prelude TwoShotPlan TwoShot.
From stdpp Require Import functions.
#[local] Open Scope list_scope.
#[local] Open Scope Z_scope.

(** ** Progress of a block *)

(** Has the block arrived for chunk [c] of a phase? *)
Definition staged (q : pc) (c : Z) : bool :=
  match q with Start | Ring | Opaque _ => false | Stage c' _ => c <? c' | _ => true end.
Definition reduced_at (q : pc) (c : Z) : bool :=
  match q with
  | Start | Ring | Opaque _ | Stage _ _ => false
  | Wait ph c' _ _ => negb (ph =? 0) || (c <? c')
  | Reduce c' _ _ => c <? c'
  | _ => true
  end.
Definition gathered_at (q : pc) (c : Z) : bool :=
  match q with
  | Wait ph c' _ _ => negb (ph =? 0) && (c <? c')
  | Gather c' _ _ => c <? c'
  | Tail | Spin | Done => true
  | _ => false
  end.
Definition ended (q : pc) : bool := match q with Spin | Done => true | _ => false end.

(** Is pack [i] of the block's share of chunk [c] done? *)
Definition pack_staged (q : pc) (c i : Z) : Prop := staged q c = true \/ exists todo, q = Stage c todo /\ i ∉ todo.
Definition pack_reduced (q : pc) (c i : Z) : Prop := reduced_at q c = true \/ exists todo seen, q = Reduce c todo seen /\ i ∉ todo.
Definition pack_gathered (q : pc) (c i : Z) : Prop := gathered_at q c = true \/ exists todo seen, q = Gather c todo seen /\ i ∉ todo.

(** ** The invariant *)

(** Reads of an updated function. *)
Ltac fn_split i j :=
  destruct (decide (i = j)) as [<-|?]; [rewrite ?fn_lookup_insert | rewrite ?fn_lookup_insert_ne by done]; try done.

Section Invariant.
Context {V A : Type} (load : V -> A) (add : A -> V -> A) (store : A -> V).
Context (world grid threads rails pipe_bytes : Z) (colls : Z -> collective) (count : Z) (inp : Z -> Z -> Z -> V).
#[local] Notation ranks := (TwoShotPlan.ranks world).
#[local] Notation first := (TwoShotPlan.first world).
#[local] Notation others := (TwoShotPlan.others world).
#[local] Notation stage_todo := (TwoShotPlan.stage_todo world grid threads).
#[local] Notation reduce_todo := (TwoShotPlan.reduce_todo world grid threads).
#[local] Notation gather_todo := (TwoShotPlan.gather_todo world grid threads).
#[local] Notation waiters := (TwoShotPlan.waiters world rails).
#[local] Notation stripe := (TwoShotPlan.stripe world rails).
#[local] Notation in_chunk := (TwoShotPlan.in_chunk world).
#[local] Notation reduced := (TwoShot.reduced load add store world inp).
#[local] Notation gst := (@TwoShot.gst V).
#[local] Notation krn := (@TwoShot.krn V).
#[local] Notation net := (@TwoShot.net V).
#[local] Notation prx := (@TwoShot.prx V).

Definition blocks : list Z := zrange 0 grid.
Definition zc (k : krn) (f : pc -> bool) : Z := zcount (fun b => f (blk k b)) blocks.

(** Every waiting thread's flag shows this collective. *)
Definition flags_in (K : Z) (r : Z) (n : net) (ph c : Z) : Prop := forall p h, (p, h) ∈ waiters r -> flag n ph p c h = K.

(** A block's counter fits the collective; [seen = false] only once the error word is set. *)
Definition block_ok (K : Z) (o : collective) (r : Z) (k : krn) (n : net) (b : Z) : Prop :=
  (blk k b <> Start -> blk k b <> Done -> bseq k b = K) /\
  match blk k b with
  | Start | Done => True
  | Ring => b = 0 /\ two o = true
  | Opaque _ => b = 0 /\ two o = false
  | Tail => two o = true \/ error k <> 0
  | Spin => two o = true /\ error k = 0 /\ forall b', b' ∈ blocks -> b' <> b -> blk k b' = Done
  | Stage c todo => two o = true /\ 0 <= c < chunks o /\ forall i, i ∈ todo -> i ∈ stage_todo o r b c
  | Wait ph c pend seen => two o = true /\ 0 <= c < chunks o /\ (ph = 0 \/ ph = 1)
      /\ (seen = true -> forall p h, (p, h) ∈ waiters r -> (p, h) ∉ pend -> flag n ph p c h = K) /\ (seen = false -> error k <> 0)
  | Reduce c todo seen => two o = true /\ 0 <= c < chunks o /\ NoDup todo /\ (forall i, i ∈ todo -> i ∈ reduce_todo o r b c)
      /\ (seen = true -> flags_in K r n 0 c) /\ (seen = false -> error k <> 0)
  | Gather c todo seen => two o = true /\ 0 <= c < chunks o /\ (forall i, i ∈ todo -> i ∈ gather_todo o r b c)
      /\ (seen = true -> flags_in K r n 1 c) /\ (seen = false -> error k <> 0)
  end.

(** What the device memory holds in a two-shot collective [K]. *)
Record mem_ok (K : Z) (o : collective) (r : Z) (k : krn) (n : net) : Prop := MemOk {
  mo_stage : forall b c i, b ∈ blocks -> 0 <= c < chunks o -> i ∈ stage_todo o r b c -> error k = 0 -> pack_staged (blk k b) c i -> psend k i = inp K r i;
  mo_ready_rs : forall c, rs_word k c = K -> 0 <= c < chunks o /\ (forall b, b ∈ blocks -> staged (blk k b) c = true)
      /\ forall j i, j ∈ others r -> in_chunk o j c i -> psend k i = inp K r i;
  mo_place : forall j c i, inplace o = true -> j ∈ others r -> 0 <= c < chunks o -> in_chunk o j c i -> rs_word k c <> K -> buf k i = inp K r i;
  mo_own : forall b c i, inplace o = true -> b ∈ blocks -> 0 <= c < chunks o -> i ∈ reduce_todo o r b c -> ~ pack_reduced (blk k b) c i -> buf k i = inp K r i;
  mo_reduce : forall b c i, b ∈ blocks -> 0 <= c < chunks o -> i ∈ reduce_todo o r b c -> error k = 0 -> pack_reduced (blk k b) c i ->
      psend k i = reduced K i /\ buf k i = reduced K i;
  mo_ready_ag : forall c, ag_word k c = K -> 0 <= c < chunks o /\ (forall b, b ∈ blocks -> reduced_at (blk k b) c = true)
      /\ forall i, in_chunk o r c i -> psend k i = reduced K i;
  mo_gather : forall b c i, b ∈ blocks -> 0 <= c < chunks o -> i ∈ gather_todo o r b c -> error k = 0 -> pack_gathered (blk k b) c i -> buf k i = reduced K i;
  mo_gflags : forall b c, b ∈ blocks -> 0 <= c < chunks o -> error k = 0 -> gathered_at (blk k b) c = true -> flags_in K r n 1 c
}.

Definition counts (o : collective) (k : krn) (ctr : Z -> Z) (f : pc -> Z -> bool) : Prop :=
  forall c, error k = 0 -> ctr c mod grid = (if two o && (0 <=? c) && (c <? chunks o) then zc k (fun q => f q c) else 0) mod grid.

(** The counters count the arrivals of this collective, and the words are of this or an earlier one. *)
Record words_ok (K : Z) (o : collective) (k : krn) : Prop := WordsOk {
  wo_rs : forall c, rs_word k c <= K;
  wo_ag : forall c, ag_word k c <= K;
  wo_sctr : counts o k (sctr k) staged;
  wo_rctr : counts o k (rctr k) reduced_at;
  wo_tctr : error k = 0 -> tctr k mod grid = (if two o then zc k ended else 0) mod grid;
  wo_poison : error k = 0 <-> poison k = 0
}.

(** Epoch and doorbell. *)
Record head_ok (k : krn) (h : ctl) : Prop := HeadOk {
  ho_count : 0 <= cur h <= count;
  ho_epoch : epoch h = cur h - 1 \/ epoch h = cur h /\ forall b, b ∈ blocks -> blk k b = Done;
  ho_done : error k = 0 -> (forall b, b ∈ blocks -> blk k b = Done) -> epoch h = cur h;
  ho_first : error k = 0 -> two (colls (cur h)) = false -> blk k 0 = Done -> epoch h = cur h;
  ho_door : 0 <= epoch h <= door h /\ cur h - 1 <= door h <= cur h;
  ho_rung : forall b, b ∈ blocks -> blk k b = Opaque true -> door h = cur h
}.

Definition norm (o : collective) : collective := Coll true (nbytes o) (chunk_packs o) (chunks o) false.
Definition slot_of (o : collective) (w : slot_rec) : Prop :=
  if two o then w = Slot 1 (nbytes o) (chunk_packs o) (chunks o) else s_kind w = 0.

Definition proxy_at (K : Z) (k : krn) (h : ctl) (p : prx) : Prop :=
  match prox p with
  | PIdle => True
  | PLoop u => last_seq p <= u <= door h
  | POne u s => s = last_seq p + 1 /\ s <= u <= door h /\ two (colls s) = false
  | PRun u s o rs ag => s = last_seq p + 1 /\ s = K /\ s <= u <= door h /\ two (colls s) = true /\ o = norm (colls s)
      /\ 0 <= rs <= chunks o /\ 0 <= ag <= chunks o
      /\ (forall c, 0 <= c < rs -> rs_word k c = s) /\ (forall c, 0 <= c < ag -> ag_word k c = s)
  end.
Record proxy_ok (k : krn) (h : ctl) (p : prx) : Prop := ProxyOk {
  po_last : 0 <= last_seq p <= door h;
  po_at : proxy_at (cur h) k h p;
  po_slots : forall s, taken p < s <= door h -> slot_of (colls s) (slots h (Z.land s 1));
  po_done : pdone p <= last_seq p;
  po_sent : last_seq p = cur h -> 1 <= cur h -> two (colls (cur h)) = true ->
    forall c, 0 <= c < chunks (colls (cur h)) -> rs_word k c = cur h /\ ag_word k c = cur h;
  po_wrap : wrapped p = false
}.

(** Is chunk [c] of a phase on its way to the peers? *)
Definition posted (K : Z) (p : prx) (ph c : Z) : Prop :=
  1 <= K /\ two (colls K) = true /\ 0 <= c < chunks (colls K)
  /\ (last_seq p = K \/ exists u o rs ag, prox p = PRun u K o rs ag /\ c < (if ph =? 0 then rs else ag)).

(** What a rank sends of pack [i] in a phase. *)
Definition payload (K r ph i : Z) : V := if ph =? 0 then inp K r i else reduced K i.
Definition is_phase (ph : Z) : Prop := ph = 0 \/ ph = 1.
Definition key (w : @wqe V) : Z * Z := (w_phase w, w_chunk w).

(** The queue pair of rank [r] to [p] on rail [h]. *)
Record link_ok (st : gst) (r p h : Z) : Prop := LinkOk {
  lo_old : forall ph c, flag (nr st p) ph r c h <= cur (hr st r);
  lo_queue : forall w, w ∈ queue (pr st r) p h ->
    is_phase (w_phase w) /\ posted (cur (hr st r)) (pr st r) (w_phase w) (w_chunk w) /\ w_seq w = cur (hr st r)
    /\ w_base w = first (colls (cur (hr st r))) (post_shard (w_phase w) r p)
    /\ forall i v, (i, v) ∈ w_todo w -> i ∈ stripe (colls (cur (hr st r))) (post_shard (w_phase w) r p) (w_chunk w) h
                   /\ forall x, v = Some x -> x = payload (cur (hr st r)) r (w_phase w) i;
  lo_nodup : NoDup (map key (queue (pr st r) p h));
  lo_flag : forall ph c, is_phase ph -> 1 <= cur (hr st r) ->
    flag (nr st p) ph r c h = cur (hr st r) <-> posted (cur (hr st r)) (pr st r) ph c /\ (ph, c) ∉ map key (queue (pr st r) p h);
  lo_landed : forall ph c i, is_phase ph -> posted (cur (hr st r)) (pr st r) ph c ->
    i ∈ stripe (colls (cur (hr st r))) (post_shard ph r p) c h ->
    (exists w, w ∈ queue (pr st r) p h /\ key w = (ph, c) /\ i ∈ (w_todo w).*1)
    \/ recv (nr st p) r ph (i - first (colls (cur (hr st r))) (post_shard ph r p)) = payload (cur (hr st r)) r ph i;
  lo_behind : cur (hr st r) = cur (hr st p) + 1 -> 1 <= cur (hr st p) -> two (colls (cur (hr st p))) = true ->
    forall c, 0 <= c < chunks (colls (cur (hr st p))) -> flag (nr st p) 1 r c h = cur (hr st p)
      /\ forall i, i ∈ stripe (colls (cur (hr st p))) r c h -> recv (nr st p) r 1 (i - first (colls (cur (hr st p))) r) = reduced (cur (hr st p)) i;
  lo_staged : forall c, 1 <= cur (hr st p) -> two (colls (cur (hr st p))) = true -> flag (nr st p) 1 r c h = cur (hr st p) ->
    0 <= c < chunks (colls (cur (hr st p))) -> rs_word (kr st p) c = cur (hr st p);
  lo_done : last_seq (pr st r) = cur (hr st r) -> queue (pr st r) p h = []
}.

(** Every peer is in this collective or past it, and staged chunk [c] for us. *)
Definition peers_in (st : gst) (r c : Z) : Prop :=
  forall q, q ∈ others r -> cur (hr st r) <= cur (hr st q) /\ (cur (hr st q) = cur (hr st r) -> rs_word (kr st q) c = cur (hr st r)).

Record facts_ok (st : gst) (r : Z) : Prop := FactsOk {
  fo_block : forall b c, b ∈ blocks -> 0 <= c < chunks (op_of colls st r) -> error (kr st r) = 0 -> two (op_of colls st r) = true ->
    reduced_at (blk (kr st r) b) c = true -> peers_in st r c;
  fo_ready : forall c, 1 <= cur (hr st r) -> two (op_of colls st r) = true -> ag_word (kr st r) c = cur (hr st r) -> peers_in st r c
}.

(** How far others must be once a rank has ended collective [s]. *)
Record marks_ok (st : gst) (r : Z) : Prop := MarksOk {
  ma_one : forall s q, q ∈ others r -> 1 <= s <= epoch (hr st r) -> two (colls s) = false -> s <= taken (pr st q);
  ma_two : forall s, 1 <= s <= epoch (hr st r) -> two (colls s) = true -> s <= last_seq (pr st r);
  ma_sent : forall s q, q ∈ others r -> 1 <= s <= epoch (hr st r) -> two (colls s) = true ->
    s <= cur (hr st q) /\ (s = cur (hr st q) -> forall c, 0 <= c < chunks (colls s) -> ag_word (kr st q) c = s)
}.

Record rank_ok (st : gst) (r : Z) : Prop := RankOk {
  ro_block : forall b, b ∈ blocks -> block_ok (cur (hr st r)) (op_of colls st r) r (kr st r) (nr st r) b;
  ro_mem : 1 <= cur (hr st r) -> two (op_of colls st r) = true -> mem_ok (cur (hr st r)) (op_of colls st r) r (kr st r) (nr st r);
  ro_words : words_ok (cur (hr st r)) (op_of colls st r) (kr st r);
  ro_head : head_ok (kr st r) (hr st r);
  ro_proxy : proxy_ok (kr st r) (hr st r) (pr st r);
  ro_facts : facts_ok st r;
  ro_marks : marks_ok st r
}.

Record inv (st : gst) : Prop := Inv {
  in_rank : forall r, r ∈ ranks -> rank_ok st r;
  in_link : forall r p h, r ∈ ranks -> p ∈ others r -> 0 <= h < rails -> link_ok st r p h
}.

(** ** Framing *)

Context (Hworld : 2 <= world) (Hgrid : 0 < grid) (Hdiv : (grid | 2 ^ 32)) (Hthreads : 0 < threads) (Hrails : 0 < rails)
  (Hcount : count < 2 ^ 32 - 1)
  (Hcolls : forall k, 1 <= k <= count -> two (colls k) = true -> pipe_valid world pipe_bytes (colls k) = true).

(** [st'] differs from [st] at the device of [r], and perhaps in its epoch. *)
Record at_device (st st' : gst) (r : Z) : Prop := AtDevice {
  ad_k : forall q, q <> r -> kr st' q = kr st q;
  ad_h : forall q, q <> r -> hr st' q = hr st q;
  ad_cur : cur (hr st' r) = cur (hr st r);
  ad_door : door (hr st' r) = door (hr st r);
  ad_slots : slots (hr st' r) = slots (hr st r);
  ad_p : forall q, pr st' q = pr st q;
  ad_n : forall q, nr st' q = nr st q;
  ad_rs : forall c, rs_word (kr st r) c = cur (hr st r) -> rs_word (kr st' r) c = cur (hr st r);
  ad_ag : forall c, ag_word (kr st r) c = cur (hr st r) -> ag_word (kr st' r) c = cur (hr st r)
}.

Lemma cur_same st st' r q : at_device st st' r -> cur (hr st' q) = cur (hr st q).
Proof. intros D. destruct (decide (q = r)) as [->|Hne]; [apply D | by rewrite (ad_h _ _ _ D)]. Qed.
Lemma rs_kept st st' r q c : at_device st st' r -> rs_word (kr st q) c = cur (hr st q) -> rs_word (kr st' q) c = cur (hr st q).
Proof. intros D H. destruct (decide (q = r)) as [->|Hne]; [by apply D | by rewrite (ad_k _ _ _ D)]. Qed.
Lemma ag_kept st st' r q c : at_device st st' r -> ag_word (kr st q) c = cur (hr st q) -> ag_word (kr st' q) c = cur (hr st q).
Proof. intros D H. destruct (decide (q = r)) as [->|Hne]; [by apply D | by rewrite (ad_k _ _ _ D)]. Qed.

Lemma peers_in_kept st st' r r' c : at_device st st' r -> peers_in st r' c -> peers_in st' r' c.
Proof.
  intros D Hp q Hq. destruct (Hp q Hq) as [Hc He]. rewrite !(cur_same _ _ _ _ D). split; [done|]. intros Heq.
  rewrite <- Heq. apply (rs_kept _ _ _ _ _ D). rewrite He; done.
Qed.

Lemma kernel_inv st st' r : inv st -> r ∈ ranks -> at_device st st' r ->
  (forall b, b ∈ blocks -> block_ok (cur (hr st r)) (op_of colls st r) r (kr st' r) (nr st r) b) ->
  (1 <= cur (hr st r) -> two (op_of colls st r) = true -> mem_ok (cur (hr st r)) (op_of colls st r) r (kr st' r) (nr st r)) ->
  words_ok (cur (hr st r)) (op_of colls st r) (kr st' r) ->
  head_ok (kr st' r) (hr st' r) ->
  facts_ok st' r ->
  (forall s, epoch (hr st r) < s <= epoch (hr st' r) ->
    (two (colls s) = false -> forall q, q ∈ others r -> s <= taken (pr st q)) /\
    (two (colls s) = true -> s <= last_seq (pr st r) /\ forall q, q ∈ others r ->
       s <= cur (hr st q) /\ (s = cur (hr st q) -> forall c, 0 <= c < chunks (colls s) -> ag_word (kr st q) c = s))) ->
  inv st'.
Proof.
  intros [HR HL] Hr D Hb Hm Hw Hh Hf He. pose proof (fun q => cur_same st st' r q D) as Hcur.
  constructor.
  - intros q Hq. destruct (HR q Hq) as [B M W H P F Mk].
    assert (HP : proxy_ok (kr st' q) (hr st' q) (pr st' q)).
    { rewrite (ad_p _ _ _ D). assert (Hd : door (hr st' q) = door (hr st q) /\ slots (hr st' q) = slots (hr st q))
        by (destruct (decide (q = r)) as [->|Hne]; [split; apply D | by rewrite (ad_h _ _ _ D)]). destruct Hd as [Hd Hs].
      destruct P as [P1 P2 P3 P4 P5 P6]. constructor; rewrite ?Hd, ?Hs, ?Hcur; try done.
      - unfold proxy_at in *. rewrite Hd. destruct (prox (pr st q)) as [|u|u s|u s o rs ag]; try done.
        destruct P2 as (? & -> & ? & ? & ? & ? & ? & Hc1 & Hc2). repeat split; try done; try lia; intros c Hc.
        + by apply (rs_kept _ _ _ _ _ D), Hc1.
        + by apply (ag_kept _ _ _ _ _ D), Hc2.
      - intros Hl H1 H2 c Hc. destruct (P5 Hl H1 H2 c Hc) as [E1 E2].
        split; [by apply (rs_kept _ _ _ _ _ D) | by apply (ag_kept _ _ _ _ _ D)]. }
    assert (HM : marks_ok st' q).
    { assert (Ht : forall s x, 1 <= s <= epoch (hr st' q) -> (1 <= s <= epoch (hr st q) -> x) -> (q = r -> epoch (hr st r) < s <= epoch (hr st' r) -> x) -> x : Prop).
      { intros s x Hs H1 H2. destruct (decide (q = r)) as [->|Hne]; [|rewrite (ad_h _ _ _ D) in Hs by done; auto].
        destruct (Z.le_gt_cases s (epoch (hr st r))); [apply H1; lia | apply H2; [done | lia]]. }
      destruct Mk as [M1 M2 M3]. constructor.
      - intros s p Hp Hs Htw. rewrite (ad_p _ _ _ D). apply (Ht s _ Hs); [intros; by eapply M1 | intros -> Hn; by apply (He s Hn)].
      - intros s Hs Htw. rewrite (ad_p _ _ _ D). apply (Ht s _ Hs); [intros; by eapply M2 | intros -> Hn; by apply (He s Hn)].
      - intros s p Hp Hs Htw. rewrite Hcur.
        assert (Ho : s <= cur (hr st p) /\ (s = cur (hr st p) -> forall c, 0 <= c < chunks (colls s) -> ag_word (kr st p) c = s)).
        { apply (Ht s _ Hs); [intros; by apply (M3 s p) | intros -> Hn; by apply (He s Hn)]. }
        destruct Ho as [Ho1 Ho2]. split; [done|]. intros -> c Hc. apply (ag_kept _ _ _ _ _ D). auto. }
    destruct (decide (q = r)) as [->|Hne].
    + constructor; try done; unfold op_of; rewrite ?Hcur, ?(ad_n _ _ _ D); done.
    + constructor; try done; unfold op_of in *; rewrite ?Hcur, ?(ad_n _ _ _ D), ?(ad_k _ _ _ D), ?(ad_h _ _ _ D) by done; try done.
      destruct F as [F1 F2]. unfold op_of in *. constructor; unfold op_of; rewrite ?Hcur, ?(ad_k _ _ _ D) by done; intros; eapply peers_in_kept; eauto.
  - intros a p h Ha Hp Hh'. destruct (HL a p h Ha Hp Hh') as [L1 L2 L3 L4 L5 L6 L7 L8].
    constructor; rewrite ?Hcur, ?(ad_n _ _ _ D), ?(ad_p _ _ _ D); try done.
    intros c H1 H2 H3 Hc. apply (rs_kept _ _ _ _ _ D). eauto.
Qed.

Lemma peers_in_same st st' r c : (forall q, cur (hr st' q) = cur (hr st q)) -> (forall q, rs_word (kr st' q) = rs_word (kr st q)) ->
  peers_in st r c -> peers_in st' r c.
Proof. intros Hc Hw Hp q Hq. rewrite !Hc, Hw. by apply Hp. Qed.

(** The doorbell and its slots change. *)
Lemma door_inv st r h' : inv st -> cur h' = cur (hr st r) -> epoch h' = epoch (hr st r) ->
  head_ok (kr st r) h' -> proxy_ok (kr st r) h' (pr st r) -> inv (set_h st r h').
Proof.
  intros [HR HL] Hc He Hh Hp. set (st' := set_h st r h').
  assert (Hcur : forall q, cur (hr st' q) = cur (hr st q)) by (intros q; cbn; fn_split r q).
  assert (Hep : forall q, epoch (hr st' q) = epoch (hr st q)) by (intros q; cbn; fn_split r q).
  assert (Hpe : forall q c, peers_in st q c -> peers_in st' q c) by (intros q c; by apply peers_in_same).
  constructor.
  - intros q Hq. destruct (HR q Hq) as [B M W H P [F1 F2] [M1 M2 M3]]. constructor; unfold op_of in *; rewrite ?Hcur; try done.
    + cbn. fn_split r q.
    + cbn. fn_split r q.
    + constructor; unfold op_of; rewrite ?Hcur; eauto.
    + constructor; rewrite ?Hep; try done. intros s p. rewrite Hcur. apply M3.
  - intros a p h Ha Hp' Hh'. destruct (HL a p h Ha Hp' Hh') as [L1 L2 L3 L4 L5 L6 L7 L8]. constructor; rewrite ?Hcur; done.
Qed.

(** *** One block moves *)

Lemma blocks_move K o r (k k' : krn) (n : net) b q :
  blk k' = <[b := q]> (blk k) -> (forall b', b' <> b -> bseq k' b' = bseq k b') -> (error k <> 0 -> error k' <> 0) -> blk k b <> Done ->
  (forall b', b' ∈ blocks -> block_ok K o r k n b') -> block_ok K o r k' n b -> b ∈ blocks ->
  forall b', b' ∈ blocks -> block_ok K o r k' n b'.
Proof.
  intros Hq Hs He Hd Hall Hb Hin b' Hb'. destruct (decide (b' = b)) as [->|Hne]; [done|].
  destruct (Hall b' Hb') as [H1 H2]. split; rewrite Hq, fn_lookup_insert_ne by done; [rewrite Hs by done; done|].
  destruct (blk k b') as [| |c todo|ph c pend seen|c todo seen|c todo seen| | |rung|]; try done.
  - destruct H2 as (? & ? & ? & ? & ?). repeat split; try done; try lia; auto.
  - destruct H2 as (? & ? & ? & ? & ? & ?). repeat split; try done; try lia; auto.
  - destruct H2 as (? & ? & ? & ? & ?). repeat split; try done; try lia; auto.
  - destruct H2; auto.
  - destruct H2 as (? & ? & Hall'). destruct (Hd). apply Hall'; [done | congruence].
Qed.

(** How the progress of a block may change: what is newly done has its value. *)
Record moves (K : Z) (o : collective) (r : Z) (k' : krn) (b : Z) (q q' : pc) : Prop := Moves {
  mv_staged : forall c, staged q c = true -> staged q' c = true;
  mv_reduced : forall c, reduced_at q c = true -> reduced_at q' c = true;
  mv_own : forall c i, pack_reduced q c i -> pack_reduced q' c i;
  mv_pstaged : forall c i, 0 <= c < chunks o -> i ∈ stage_todo o r b c -> error k' = 0 -> pack_staged q' c i -> pack_staged q c i \/ psend k' i = inp K r i;
  mv_preduced : forall c i, 0 <= c < chunks o -> i ∈ reduce_todo o r b c -> error k' = 0 -> pack_reduced q' c i ->
    pack_reduced q c i \/ psend k' i = reduced K i /\ buf k' i = reduced K i;
  mv_pgathered : forall c i, 0 <= c < chunks o -> i ∈ gather_todo o r b c -> error k' = 0 -> pack_gathered q' c i -> pack_gathered q c i \/ buf k' i = reduced K i
}.

(** What a store may do: it keeps what is in place, and the inputs still to be read. *)
Record writes_ok (K : Z) (o : collective) (r : Z) (k k' : krn) : Prop := WritesOk {
  wr_inp : forall j c i, j ∈ others r -> 0 <= c < chunks o -> in_chunk o j c i -> psend k i = inp K r i -> psend k' i = inp K r i;
  wr_red : forall c i, 0 <= c < chunks o -> in_chunk o r c i -> psend k i = reduced K i -> psend k' i = reduced K i;
  wr_out : forall i, buf k i = reduced K i -> buf k' i = reduced K i;
  wr_place : forall j c i, j ∈ others r -> 0 <= c < chunks o -> in_chunk o j c i -> rs_word k' c <> K -> buf k i = inp K r i -> buf k' i = inp K r i;
  wr_own : forall b c i, b ∈ blocks -> 0 <= c < chunks o -> i ∈ reduce_todo o r b c -> ~ pack_reduced (blk k' b) c i -> buf k i = inp K r i -> buf k' i = inp K r i
}.

Lemma writes_same K o r k k' : psend k' = psend k -> buf k' = buf k -> writes_ok K o r k k'.
Proof. intros Hp Hb. constructor; intros; rewrite ?Hp, ?Hb; done. Qed.

Lemma reduce_todo_chunk o r b c i : b ∈ blocks -> i ∈ reduce_todo o r b c -> in_chunk o r c i.
Proof. intros Hb%zrange_elem Hi. by eapply (block_packs_range grid threads rails). Qed.

Lemma mem_move K o r (k k' : krn) (n : net) b q : b ∈ blocks ->
  blk k' = <[b := q]> (blk k) -> writes_ok K o r k k' -> (error k' = 0 -> error k = 0) ->
  moves K o r k' b (blk k b) q ->
  (forall c, rs_word k' c = K -> rs_word k c = K \/ 0 <= c < chunks o /\ (forall b, b ∈ blocks -> staged (blk k' b) c = true)
      /\ forall j i, j ∈ others r -> in_chunk o j c i -> psend k i = inp K r i) ->
  (forall c, rs_word k c = K -> rs_word k' c = K) ->
  (forall c, ag_word k' c = K -> ag_word k c = K \/ 0 <= c < chunks o /\ (forall b, b ∈ blocks -> reduced_at (blk k' b) c = true)
      /\ forall i, in_chunk o r c i -> psend k i = reduced K i) ->
  (forall c, 0 <= c < chunks o -> error k' = 0 -> gathered_at q c = true -> gathered_at (blk k b) c = true \/ flags_in K r n 1 c) ->
  mem_ok K o r k n -> mem_ok K o r k' n.
Proof.
  intros Hb Hq [w1 w2 w3 w4 w5] He [v1 v2 v3 v4 v5 v6] Hrs Hrs' Hag Hg [M1 M2 M3 M4 M5 M6 M7 M8].
  assert (Hblk : forall b', blk k' b' = if decide (b = b') then q else blk k b') by (intros; by rewrite Hq).
  assert (Hst : forall b' c i, b' ∈ blocks -> i ∈ stage_todo o r b' c -> exists j, j ∈ others r /\ in_chunk o j c i).
  { intros b' c i Hb'%zrange_elem (j & Hi & Hj)%list_elem_of_bind. exists j. split; [done|].
    by eapply (block_packs_range grid threads rails). }
  constructor.
  - intros b' c i Hb' Hc Hi Hz Hp. rewrite Hblk in Hp. destruct (Hst b' c i Hb' Hi) as (j & Hj & Hch). case_decide; [subst b'|].
    + destruct (v4 c i Hc Hi Hz Hp); [|done]. eapply w1, M1; eauto.
    + eapply w1, M1; eauto.
  - intros c Hc. assert (G : 0 <= c < chunks o /\ (forall b, b ∈ blocks -> staged (blk k' b) c = true)
      /\ forall j i, j ∈ others r -> in_chunk o j c i -> psend k i = inp K r i).
    { destruct (Hrs c Hc) as [Ho|]; [|done]. destruct (M2 c Ho) as (G1 & G2 & G3). split; [done|]. split; [|done].
      intros b' Hb'. rewrite Hblk. case_decide; [subst b'; auto | auto]. }
    destruct G as (G1 & G2 & G3). split; [done|]. split; [done|]. intros j i Hj Hi. eapply w1; eauto.
  - intros j c i Hip Hj Hc Hi Hne. eapply w4; eauto.
  - intros b' c i Hip Hb' Hc Hi Hp. eapply w5; eauto. eapply M4; eauto. rewrite Hblk in Hp.
    case_decide; [subst b'; contradict Hp; eauto | done].
  - intros b' c i Hb' Hc Hi Hz Hp. rewrite Hblk in Hp. pose proof (reduce_todo_chunk o r b' c i Hb' Hi) as Hch.
    assert (G : psend k i = reduced K i /\ buf k i = reduced K i -> psend k' i = reduced K i /\ buf k' i = reduced K i) by (intros [? ?]; split; eauto).
    case_decide; [subst b'|].
    + destruct (v5 c i Hc Hi Hz Hp); [|done]. apply G. eapply M5; eauto.
    + apply G. eapply M5; eauto.
  - intros c Hc. assert (G : 0 <= c < chunks o /\ (forall b, b ∈ blocks -> reduced_at (blk k' b) c = true) /\ forall i, in_chunk o r c i -> psend k i = reduced K i).
    { destruct (Hag c Hc) as [Ho|]; [|done]. destruct (M6 c Ho) as (G1 & G2 & G3). split; [done|]. split; [|done].
      intros b' Hb'. rewrite Hblk. case_decide; [subst b'; auto | auto]. }
    destruct G as (G1 & G2 & G3). split; [done|]. split; [done|]. intros i Hi. eapply w2; eauto.
  - intros b' c i Hb' Hc Hi Hz Hp. rewrite Hblk in Hp. case_decide; [subst b'|].
    + destruct (v6 c i Hc Hi Hz Hp); [|done]. eapply w3, M7; eauto.
    + eapply w3, M7; eauto.
  - intros b' c Hb' Hc Hz Hp. rewrite Hblk in Hp. case_decide; [subst b'; destruct (Hg c Hc Hz Hp); [eauto | done] | eauto].
Qed.

Lemma zc_move (k k' : krn) b q f : blk k' = <[b := q]> (blk k) -> b ∈ blocks -> zc k' f = zc k f - Z.b2z (f (blk k b)) + Z.b2z (f q).
Proof.
  intros Hq Hb. unfold zc. rewrite (zcount_change (fun b => f (blk k b)) _ blocks b); [by rewrite Hq, fn_lookup_insert | | done |].
  - unfold blocks, zrange. apply NoDup_seqZ.
  - intros b' Hb'. by rewrite Hq, fn_lookup_insert_ne.
Qed.

(** [is_last] tells the last arrival. *)
Lemma is_last_spec prior n : prior mod grid = n mod grid -> 0 <= n < grid -> is_last grid prior = true <-> n + 1 = grid.
Proof.
  intros Hp Hn. unfold is_last, u32. rewrite Z.eqb_eq, Z.mod_mod_divide by done.
  rewrite <- Z.add_mod_idemp_l, Hp, Z.add_mod_idemp_l by lia. split; [|intros ->; apply Z.mod_same; lia].
  destruct (decide (n + 1 = grid)); [done|]. rewrite Z.mod_small by lia. lia.
Qed.
Lemma count_up prior n : prior mod grid = n mod grid -> u32 (prior + 1) mod grid = (n + 1) mod grid.
Proof.
  intros Hp. unfold u32. rewrite Z.mod_mod_divide by done. rewrite <- Z.add_mod_idemp_l, Hp, Z.add_mod_idemp_l by lia. done.
Qed.


Lemma counts_same o (k k' : krn) b q ctr f : b ∈ blocks -> blk k' = <[b := q]> (blk k) -> (error k' = 0 -> error k = 0) ->
  (error k' = 0 -> two o = true -> forall c, 0 <= c < chunks o -> f q c = f (blk k b) c) -> counts o k ctr f -> counts o k' ctr f.
Proof.
  intros Hb Hq He Hf Hc c Hz. rewrite Hc by auto. destruct (two o && (0 <=? c) && (c <? chunks o)) eqn:E; [|done]. apply andb_prop in E as [[Ht ?]%andb_prop ?].
  rewrite (zc_move k k' b q), Hf by (done || lia). f_equal. lia.
Qed.

Lemma counts_arrive o (k k' : krn) b q ctr f c0 : b ∈ blocks -> blk k' = <[b := q]> (blk k) -> (error k' = 0 -> error k = 0) ->
  two o = true -> 0 <= c0 < chunks o -> f (blk k b) c0 = false -> f q c0 = true ->
  (forall c, c <> c0 -> 0 <= c < chunks o -> f q c = f (blk k b) c) -> counts o k ctr f -> counts o k' (<[c0 := u32 (ctr c0 + 1)]> ctr) f.
Proof.
  intros Hb Hq He Ht H0 Hf Hf' Ho Hc c Hz. pose proof (Hc c (He Hz)) as E. destruct (decide (c0 = c)) as [<-|Hne].
  - rewrite fn_lookup_insert. replace (two o && (0 <=? c0) && (c0 <? chunks o)) with true in * by (rewrite Ht; lia).
    rewrite (zc_move k k' b q), Hf, Hf' by done. rewrite (count_up _ _ E). f_equal. cbn. lia.
  - rewrite fn_lookup_insert_ne, E by done. destruct (two o && (0 <=? c) && (c <? chunks o)) eqn:G; [|done].
    rewrite (zc_move k k' b q), Ho by (done || lia). f_equal. lia.
Qed.

(** No arrival is counted. *)
Lemma words_move K o (k k' : krn) b q : b ∈ blocks ->
  blk k' = <[b := q]> (blk k) -> sctr k' = sctr k -> rctr k' = rctr k -> tctr k' = tctr k -> rs_word k' = rs_word k -> ag_word k' = ag_word k ->
  (error k' = 0 -> error k = 0) -> (error k' = 0 <-> poison k' = 0) ->
  (error k' = 0 -> two o = true -> (forall c, 0 <= c < chunks o -> staged q c = staged (blk k b) c /\ reduced_at q c = reduced_at (blk k b) c)
                                   /\ ended q = ended (blk k b)) ->
  words_ok K o k -> words_ok K o k'.
Proof.
  intros Hb Hq Hs Hr Ht Hrs Hag He Hp Hsame [W1 W2 W3 W4 W5 W6].
  constructor; rewrite ?Hs, ?Hr, ?Ht, ?Hrs, ?Hag; try done.
  - eapply counts_same; eauto. intros Hz Htw c Hc. destruct (Hsame Hz Htw) as [G _]. by apply G.
  - eapply counts_same; eauto. intros Hz Htw c Hc. destruct (Hsame Hz Htw) as [G _]. by apply G.
  - intros Hz. rewrite W5 by auto. destruct (two o) eqn:Htw; [|done].
    rewrite (zc_move k k' b q) by done. destruct (Hsame Hz eq_refl) as [_ ->]. f_equal. lia.
Qed.

End Invariant.
