(* ===== verification/TwoShotKernel.v ===== *)
(** * Two-shot all-reduce: the steps of a kernel keep the invariant *)
From S2P Require Import Prelude TwoShotPlan TwoShot TwoShotInv.
From stdpp Require Import functions.
#[local] Open Scope list_scope.
#[local] Open Scope Z_scope.

Section Kernel.
Context {V A : Type} (load : V -> A) (add : A -> V -> A) (store : A -> V).
Context (world grid threads rails pipe_bytes : Z) (colls : Z -> collective) (count : Z) (inp : Z -> Z -> Z -> V).
#[local] Notation ranks := (TwoShotPlan.ranks world).
#[local] Notation first := (TwoShotPlan.first world).
#[local] Notation others := (TwoShotPlan.others world).
#[local] Notation stage_todo := (TwoShotPlan.stage_todo world grid threads).
#[local] Notation reduce_todo := (TwoShotPlan.reduce_todo world grid threads).
#[local] Notation gather_todo := (TwoShotPlan.gather_todo world grid threads).
#[local] Notation waiters := (TwoShotPlan.waiters world rails).
#[local] Notation stripe := (TwoShotPlan.stripe world rails).
#[local] Notation in_chunk := (TwoShotPlan.in_chunk world).
#[local] Notation reduced := (TwoShot.reduced load add store world inp).
#[local] Notation gst := (@TwoShot.gst V).
#[local] Notation krn := (@TwoShot.krn V).
#[local] Notation net := (@TwoShot.net V).
#[local] Notation prx := (@TwoShot.prx V).
#[local] Notation op_of := (TwoShot.op_of colls).
#[local] Notation blocks := (TwoShotInv.blocks grid).
#[local] Notation block_ok := (TwoShotInv.block_ok world grid threads rails).
#[local] Notation mem_ok := (TwoShotInv.mem_ok load add store world grid threads rails inp).
#[local] Notation words_ok := (TwoShotInv.words_ok grid).
#[local] Notation head_ok := (TwoShotInv.head_ok grid colls count).
#[local] Notation rank_ok := (TwoShotInv.rank_ok load add store world grid threads rails colls count inp).
#[local] Notation link_ok := (TwoShotInv.link_ok load add store world rails colls inp).
#[local] Notation facts_ok := (TwoShotInv.facts_ok world grid colls).
#[local] Notation peers_in := (TwoShotInv.peers_in world).
#[local] Notation flags_in := (TwoShotInv.flags_in world rails).
#[local] Notation moves := (TwoShotInv.moves load add store world grid threads inp).
#[local] Notation writes_ok := (TwoShotInv.writes_ok load add store world grid threads inp).
#[local] Notation zc := (TwoShotInv.zc grid).
#[local] Notation inv := (TwoShotInv.inv load add store world grid threads rails colls count inp).
#[local] Notation kstep := (TwoShot.kstep load add store world grid threads rails colls inp).
Context (Hworld : 2 <= world) (Hgrid : 0 < grid) (Hdiv : (grid | 2 ^ 32)) (Hthreads : 0 < threads) (Hrails : 0 < rails)
  (Hcount : count < 2 ^ 32 - 1)
  (Hcolls : forall k, 1 <= k <= count -> two (colls k) = true -> pipe_valid world pipe_bytes (colls k) = true).

Lemma coll_valid k : 1 <= k <= count -> two (colls k) = true ->
  0 <= packs (colls k) /\ 0 < chunk_packs (colls k) /\ 0 < chunks (colls k) /\ cdiv (packs (colls k)) world <= chunks (colls k) * chunk_packs (colls k).
Proof.
  intros Hk Ht. specialize (Hcolls k Hk Ht). unfold pipe_valid in Hcolls. rewrite !andb_true_iff, !Z.ltb_lt, !Z.leb_le in Hcolls.
  unfold packs, PACK_BYTES. repeat split; try lia. apply Z.div_pos; lia.
Qed.

Lemma NoDup_middle (l1 l2 : list Z) i : NoDup (l1 ++ i :: l2) -> i ∉ l1 ++ l2 /\ NoDup (l1 ++ l2).
Proof. rewrite <- Permutation_middle. by inversion 1. Qed.

Lemma block_elem b : b ∈ blocks <-> 0 <= b < grid.
Proof. apply zrange_elem. Qed.

(** A rank with a block that has not ended is in a collective, whose sequence the epoch precedes. *)
Lemma running st r b : inv st -> r ∈ ranks -> b ∈ blocks -> blk (kr st r) b <> Done ->
  1 <= cur (hr st r) <= count /\ epoch (hr st r) = cur (hr st r) - 1 /\ u32 (epoch (hr st r) + 1) = cur (hr st r).
Proof.
  intros [HR _] Hr Hb Hd. destruct (HR r Hr) as [_ _ _ [H1 H2 _ _ H3 _] _ _ _].
  assert (He : epoch (hr st r) = cur (hr st r) - 1) by (destruct H2 as [|[_ Hall]]; [done | by destruct (Hd (Hall b Hb))]).
  split; [lia|]. split; [done|]. unfold u32. rewrite He, Z.mod_small by lia. lia.
Qed.

Lemma at_device_set (st : gst) r (k : krn) : (forall c, rs_word (kr st r) c = cur (hr st r) -> rs_word k c = cur (hr st r)) ->
  (forall c, ag_word (kr st r) c = cur (hr st r) -> ag_word k c = cur (hr st r)) -> at_device st (set_k st r k) r.
Proof.
  intros H1 H2. constructor; intros; cbn; rewrite ?fn_lookup_insert, ?fn_lookup_insert_ne by done; auto.
Qed.

Record same_words (k k' : krn) : Prop := SameWords {
  sm_sctr : sctr k' = sctr k; sm_rctr : rctr k' = rctr k;
  sm_tctr : tctr k' = tctr k; sm_rs : rs_word k' = rs_word k; sm_ag : ag_word k' = ag_word k }.

(** Progress facts by computation. *)
Ltac progress_facts :=
  unfold pack_staged, pack_reduced, pack_gathered; cbn [staged reduced_at gathered_at ended];
  repeat match goal with
    | |- forall _, _ => intro
    | H : _ /\ _ |- _ => destruct H
    | H : _ \/ _ |- _ => destruct H
    | H : exists _, _ |- _ => destruct H
    | H : @eq pc _ _ |- _ => progress simplify_eq
    end;
  try (first [ lia | by left; lia | by right; eauto | by left | exfalso; lia ]).

Section Step.
Context (st : gst) (r b : Z) (HI : inv st) (Hr : r ∈ ranks) (Hb : b ∈ blocks).

Lemma this_block : block_ok (cur (hr st r)) (op_of st r) r (kr st r) (nr st r) b.
Proof. destruct HI as [HR _]. destruct (HR r Hr) as [B M W H P F Mk]. auto. Qed.
Lemma this_poison : error (kr st r) = 0 <-> poison (kr st r) = 0.
Proof. destruct HI as [HR _]. destruct (HR r Hr) as [B M W H P F Mk]. apply W. Qed.

Lemma this_head : head_ok (kr st r) (hr st r).
Proof. destruct HI as [HR _]. destruct (HR r Hr) as [B M W H P F Mk]. done. Qed.
Lemma this_words : words_ok (cur (hr st r)) (op_of st r) (kr st r).
Proof. destruct HI as [HR _]. destruct (HR r Hr) as [B M W H P F Mk]. done. Qed.

(** The head stays: a block may end only with an error, in a one-shot collective when it is
    not the first, or while another goes on. *)
Lemma head_move (k' : krn) q : blk (kr st r) b <> Done -> blk k' = <[b := q]> (blk (kr st r)) -> (error k' = 0 -> error (kr st r) = 0) ->
  (q = Done -> error k' = 0 -> two (op_of st r) = false /\ b <> 0 \/ two (op_of st r) = true /\ exists b', b' ∈ blocks /\ blk k' b' <> Done) ->
  (q = Opaque true -> door (hr st r) = cur (hr st r)) ->
  head_ok k' (hr st r).
Proof.
  intros Hnd Hq He Hd Ho. destruct (running st r b HI Hr Hb Hnd) as (HK & Hep & _). destruct this_head as [H1 H2 H3 H4 H5 H6].
  constructor; try done.
  - by left.
  - intros Hz Hall. assert (E : q = Done) by (specialize (Hall b Hb); by rewrite Hq, fn_lookup_insert in Hall).
    destruct (Hd E Hz) as [[Ht Hb0]|(_ & b' & Hb' & Hne)]; [|by destruct (Hne (Hall b' Hb'))].
    apply H4; [auto | done|]. rewrite <- (fn_lookup_insert_ne (blk (kr st r)) b 0 q), <- Hq by done. apply Hall. apply block_elem. lia.
  - intros Hz Ht. rewrite Hq. destruct (decide (b = 0)) as [->|Hne]; [|rewrite fn_lookup_insert_ne by done; auto].
    rewrite fn_lookup_insert. intros ->. destruct (Hd eq_refl Hz) as [[_ ?]|[Ht' _]]; [done|]. unfold TwoShot.op_of in Ht'. congruence.
  - intros b' Hb'. rewrite Hq. destruct (decide (b = b')) as [<-|Hne]; [by rewrite fn_lookup_insert|].
    rewrite fn_lookup_insert_ne by done. apply (H6 b' Hb').
Qed.

(** A block goes on: what is new of its progress is given. *)
Lemma advance_inv q k' : blk (kr st r) b <> Done ->
  blk k' = <[b := q]> (blk (kr st r)) -> (forall b', b' <> b -> bseq k' b' = bseq (kr st r) b') -> (error k' = 0 -> error (kr st r) = 0) ->
  block_ok (cur (hr st r)) (op_of st r) r k' (nr st r) b -> words_ok (cur (hr st r)) (op_of st r) k' -> head_ok k' (hr st r) ->
  (forall c, rs_word (kr st r) c = cur (hr st r) -> rs_word k' c = cur (hr st r)) ->
  (forall c, ag_word (kr st r) c = cur (hr st r) -> ag_word k' c = cur (hr st r)) ->
  (two (op_of st r) = true ->
    writes_ok (cur (hr st r)) (op_of st r) r (kr st r) k' /\ moves (cur (hr st r)) (op_of st r) r k' b (blk (kr st r) b) q
    /\ (forall c, rs_word k' c = cur (hr st r) -> rs_word (kr st r) c = cur (hr st r)
          \/ 0 <= c < chunks (op_of st r) /\ (forall b, b ∈ blocks -> staged (blk k' b) c = true)
             /\ forall j i, j ∈ others r -> in_chunk (op_of st r) j c i -> psend (kr st r) i = inp (cur (hr st r)) r i)
    /\ (forall c, ag_word k' c = cur (hr st r) -> ag_word (kr st r) c = cur (hr st r)
          \/ (0 <= c < chunks (op_of st r) /\ (forall b, b ∈ blocks -> reduced_at (blk k' b) c = true)
               /\ forall i, in_chunk (op_of st r) r c i -> psend (kr st r) i = reduced (cur (hr st r)) i) /\ peers_in st r c)
    /\ forall c, 0 <= c < chunks (op_of st r) -> error k' = 0 ->
          (gathered_at q c = true -> gathered_at (blk (kr st r) b) c = true \/ flags_in (cur (hr st r)) r (nr st r) 1 c)
          /\ (reduced_at q c = true -> reduced_at (blk (kr st r) b) c = true \/ peers_in st r c)) ->
  inv (set_k st r k').
Proof.
  intros Hd Hq Hs He Hbo Hw Hh Hrs Hag Ht.
  pose proof HI as [HR HL]. destruct (HR r Hr) as [B M W H P F Mk]. pose proof (at_device_set st r k' Hrs Hag) as D.
  eapply kernel_inv; [done | done | done | | | | | |]; cbn; rewrite ?fn_lookup_insert; try done; try lia.
  - eapply blocks_move; eauto.
  - intros H1 H2. destruct (Ht H2) as (Hwr & Hmv & Hr1 & Ha1 & Hg). eapply mem_move with (b := b) (q := q); eauto.
    + intros c Hc. destruct (Ha1 c Hc) as [|[? _]]; [by left | by right].
    + intros c Hc Hz. by apply (Hg c Hc Hz).
  - destruct F as [F1 F2]. unfold TwoShot.op_of in *. constructor; unfold TwoShot.op_of; cbn; rewrite ?fn_lookup_insert.
    + intros b' c Hb' Hc Hz H2 Hre. apply (peers_in_kept _ _ _ _ _ _ D). destruct (Ht H2) as (_ & _ & _ & _ & Hg).
      rewrite Hq in Hre. destruct (decide (b = b')) as [<-|Hne].
      * rewrite fn_lookup_insert in Hre. destruct (Hg c Hc Hz) as [_ G]. destruct (G Hre); [|done]. eapply F1; eauto.
      * rewrite fn_lookup_insert_ne in Hre by done. eapply F1; eauto.
    + intros c H1 H2 Hc. apply (peers_in_kept _ _ _ _ _ _ D). destruct (Ht H2) as (_ & _ & _ & Ha & _).
      destruct (Ha c Hc) as [|[_ ?]]; [by apply F2 | done].
Qed.

(** A block moves on without an arrival. *)
Lemma move_inv q k' : blk (kr st r) b <> Done ->
  blk k' = <[b := q]> (blk (kr st r)) -> (forall b', b' <> b -> bseq k' b' = bseq (kr st r) b') -> same_words (kr st r) k' ->
  (two (op_of st r) = true -> writes_ok (cur (hr st r)) (op_of st r) r (kr st r) k') ->
  (error k' = 0 -> error (kr st r) = 0) -> (error k' = 0 <-> poison k' = 0) ->
  block_ok (cur (hr st r)) (op_of st r) r k' (nr st r) b ->
  (two (op_of st r) = true -> moves (cur (hr st r)) (op_of st r) r k' b (blk (kr st r) b) q) ->
  (two (op_of st r) = true -> error k' = 0 -> (forall c, 0 <= c < chunks (op_of st r) ->
      staged q c = staged (blk (kr st r) b) c /\ reduced_at q c = reduced_at (blk (kr st r) b) c
      /\ (gathered_at q c = true -> gathered_at (blk (kr st r) b) c = true \/ flags_in (cur (hr st r)) r (nr st r) 1 c))
    /\ ended q = ended (blk (kr st r) b)) ->
  (q = Done -> error k' = 0 -> two (op_of st r) = false /\ b <> 0) ->
  (q = Opaque true -> door (hr st r) = cur (hr st r)) ->
  inv (set_k st r k').
Proof.
  intros Hd Hq Hs [S3 S4 S5 S6 S7] Hwr He Hp Hbo Hmv Hsame Hdone Hopq.
  eapply advance_inv; eauto; rewrite ?S6, ?S7; try done.
  - eapply words_move; [done | done | done | done | done | done | done | done | done | | apply this_words]. intros Hz Ht.
    destruct (Hsame Ht Hz) as [Hall ?]. split; [|done]. intros c Hc. destruct (Hall c Hc) as (? & ? & _). done.
  - apply (head_move k' q); try done. intros ? ?. left. auto.
  - intros Ht. split; [auto|]. split; [auto|]. split; [by left|]. split; [by left|]. intros c Hc Hz.
    destruct (Hsame Ht Hz) as [Hall _]. destruct (Hall c Hc) as (_ & <- & Hg). split; [done | by left].
Qed.

Lemma k_wrapped_inv : blk (kr st r) b = Start -> u32 (epoch (hr st r) + 1) = 0 -> False.
Proof. intros Hpc Hu. destruct (running st r b HI Hr Hb) as (? & ? & ?); [by rewrite Hpc | lia]. Qed.

Lemma k_poisoned_inv : blk (kr st r) b = Start -> poison (kr st r) <> 0 ->
  inv (set_k st r (goto (read_seq (kr st r) b (u32 (epoch (hr st r) + 1))) b Tail)).
Proof.
  intros Hpc Hpo. destruct (running st r b HI Hr Hb) as (HK & Hep & Hu); [by rewrite Hpc|]. pose proof this_poison as Hp.
  assert (He : error (kr st r) <> 0) by tauto.
  apply (move_inv Tail); cbn; try done; try (by intros _; apply writes_same); try (by rewrite Hpc).
  - intros b' Hb'. by rewrite fn_lookup_insert_ne.
  - split; cbn; rewrite ?fn_lookup_insert; auto.
  - intros _. rewrite Hpc. constructor; progress_facts.
Qed.

Lemma k_start_inv : blk (kr st r) b = Start -> poison (kr st r) = 0 -> two (op_of st r) = true ->
  inv (set_k st r (goto (read_seq (kr st r) b (u32 (epoch (hr st r) + 1))) b (if b =? 0 then Ring else Stage 0 (stage_todo (op_of st r) r b 0)))).
Proof.
  intros Hpc Hpo Ht. destruct (running st r b HI Hr Hb) as (HK & Hep & Hu); [by rewrite Hpc|]. pose proof this_poison as Hp.
  destruct (coll_valid (cur (hr st r)) HK Ht) as (_ & _ & Hch & _). change (colls (cur (hr st r))) with (op_of st r) in Hch.
  apply (move_inv (if b =? 0 then Ring else Stage 0 (stage_todo (op_of st r) r b 0))); cbn; try done; try (by intros _; apply writes_same); try (by rewrite Hpc).
  - intros b' Hb'. by rewrite fn_lookup_insert_ne.
  - split; cbn; rewrite ?fn_lookup_insert; [done|]. destruct (Z.eqb_spec b 0); [done|]. split; [done|]. split; [lia | auto].
  - intros _. rewrite Hpc. destruct (b =? 0); constructor; progress_facts.
  - intros _ _. rewrite Hpc. destruct (b =? 0); cbn; (split; [|done]); intros c' Hc'; cbn; split; try lia; split; try lia; by left + done.
  - destruct (b =? 0); done.
  - destruct (b =? 0); done.
Qed.

(** A wait goes on: a flag was seen, skipped or given up. *)
Lemma k_wait_inv ph c l1 p h l2 seen seen' k' : blk (kr st r) b = Wait ph c (l1 ++ (p, h) :: l2) seen ->
  (k' = kr st r \/ k' = fail_at (kr st r) (bseq (kr st r) b)) ->
  (seen' = false /\ error k' <> 0 \/ seen' = seen /\ flag (nr st r) ph p c h = bseq (kr st r) b) ->
  inv (set_k st r (goto k' b (Wait ph c (l1 ++ l2) seen'))).
Proof.
  intros Hpc Hk' Hs. destruct (running st r b HI Hr Hb) as (HK & Hep & Hu); [by rewrite Hpc|]. pose proof this_poison as Hp.
  destruct this_block as [Hbs Hbo]. rewrite Hpc in Hbs, Hbo. specialize (Hbs ltac:(done) ltac:(done)). destruct Hbo as (Ht & Hc & Hph & Hf & Hse).
  assert (Hee : error k' = 0 -> error (kr st r) = 0) by (destruct Hk' as [->| ->]; cbn; [done | lia]).
  assert (Hfr : blk k' = blk (kr st r) /\ bseq k' = bseq (kr st r) /\ same_words (kr st r) k' /\ psend k' = psend (kr st r) /\ buf k' = buf (kr st r) /\ (error k' = 0 <-> poison k' = 0)).
  { destruct Hk' as [->| ->]; cbn; repeat split; try done; tauto. }
  destruct Hfr as (F1 & F2 & [S3 S4 S5 S6 S7] & F5 & F6 & F4).
  apply (move_inv (Wait ph c (l1 ++ l2) seen')); cbn; try done; try (by intros _; apply writes_same); try (by rewrite Hpc); try (by rewrite ?F1, ?F2).
  - split; cbn; rewrite F1, fn_lookup_insert; [by rewrite F2|]. split; [done|]. split; [lia|]. split; [done|]. split.
    + intros -> p' h' Hw Hn. destruct Hs as [[? _]|[<- Hfl]]; [done|]. destruct (decide ((p', h') = (p, h))) as [[= -> ->]|Hne]; [congruence|].
      apply Hf; [done | done | set_solver].
    + intros ->. destruct Hs as [[_ ?]|[<- _]]; [done | intros E; by apply (Hse eq_refl), Hee].
  - intros _. rewrite Hpc. constructor; progress_facts.
  - intros _ _. rewrite Hpc. cbn. split; [|done]. intros c' Hc'. split; [done|]. split; [done | by left].
Qed.

Lemma k_waited_inv ph c seen : blk (kr st r) b = Wait ph c [] seen -> inv (set_k st r (goto (kr st r) b (after_wait world grid threads (op_of st r) r b ph c seen))).
Proof.
  intros Hpc. destruct (running st r b HI Hr Hb) as (HK & Hep & Hu); [by rewrite Hpc|].
  destruct this_block as [Hbs Hbo]. rewrite Hpc in Hbs, Hbo. specialize (Hbs ltac:(done) ltac:(done)). destruct Hbo as (Ht & Hc & Hph & Hf & Hse).
  assert (Hfl : seen = true -> flags_in (cur (hr st r)) r (nr st r) ph c) by (intros E p h Hw; apply Hf; [done | done | apply not_elem_of_nil]).
  unfold after_wait. apply (move_inv (after_wait world grid threads (op_of st r) r b ph c seen)); unfold after_wait; cbn; try done; try (by intros _; apply writes_same); try (by rewrite Hpc).
  - apply this_poison.
  - destruct Hph as [-> | ->]; cbn; (split; cbn; rewrite fn_lookup_insert; [done|]); repeat split; try done; try lia; auto.
    apply block_packs_NoDup; [done | done | by apply block_elem].
  - intros _. rewrite Hpc. destruct Hph as [-> | ->]; cbn; constructor; progress_facts.
  - intros _ _. rewrite Hpc. destruct Hph as [-> | ->]; cbn; cbn; (split; [|done]); intros c' Hc'; cbn; split; try lia; split; try lia; by left + done.
  - destruct Hph as [-> | ->]; done.
  - destruct Hph as [-> | ->]; done.
Qed.

Lemma k_reduce_poisoned_inv c l1 i l2 seen : blk (kr st r) b = Reduce c (l1 ++ i :: l2) seen -> poison (kr st r) <> 0 ->
  inv (set_k st r (goto (kr st r) b (Reduce c (l1 ++ l2) seen))).
Proof.
  intros Hpc Hpo. pose proof this_poison as Hp. assert (He : error (kr st r) <> 0) by tauto.
  destruct this_block as [Hbs Hbo]. rewrite Hpc in Hbs, Hbo. specialize (Hbs ltac:(done) ltac:(done)). destruct Hbo as (Ht & Hc & Hnd & Hin & Hf & Hse).
  apply (move_inv (Reduce c (l1 ++ l2) seen)); cbn; try done; try (by intros _; apply writes_same); try (by rewrite Hpc).
  - split; cbn; rewrite fn_lookup_insert; [done|]. split; [done|]. split; [lia|]. split; [apply (NoDup_middle _ _ _ Hnd) | split; [set_solver | done]].
  - intros _. rewrite Hpc. constructor; progress_facts.
    right. eexists _, _. split; [done|]. set_solver.
Qed.

Lemma k_gather_poisoned_inv c l1 i l2 seen : blk (kr st r) b = Gather c (l1 ++ i :: l2) seen -> poison (kr st r) <> 0 ->
  inv (set_k st r (goto (kr st r) b (Gather c (l1 ++ l2) seen))).
Proof.
  intros Hpc Hpo. pose proof this_poison as Hp. assert (He : error (kr st r) <> 0) by tauto.
  destruct this_block as [Hbs Hbo]. rewrite Hpc in Hbs, Hbo. specialize (Hbs ltac:(done) ltac:(done)). destruct Hbo as (Ht & Hc & Hin & Hf & Hse).
  apply (move_inv (Gather c (l1 ++ l2) seen)); cbn; try done; try (by intros _; apply writes_same); try (by rewrite Hpc).
  - split; cbn; rewrite fn_lookup_insert; [done|]. split; [done|]. split; [lia|]. split; [set_solver | done].
  - intros _. rewrite Hpc. constructor; progress_facts.
Qed.

Lemma k_gathered_inv c seen : blk (kr st r) b = Gather c [] seen ->
  inv (set_k st r (goto (kr st r) b (after_gather world rails (op_of st r) r c))).
Proof.
  intros Hpc. destruct this_block as [Hbs Hbo]. rewrite Hpc in Hbs, Hbo. specialize (Hbs ltac:(done) ltac:(done)).
  destruct Hbo as (Ht & Hc & Hin & Hf & Hse).
  apply (move_inv (after_gather world rails (op_of st r) r c)); cbn; try done; try (by intros _; apply writes_same); try (by rewrite Hpc).
  - apply this_poison.
  - unfold after_gather. split; cbn; rewrite fn_lookup_insert; [done|].
    destruct (Z.ltb_spec (c + 1) (chunks (op_of st r))); [|by left].
    split; [done|]. split; [lia|]. split; [by right|]. split; done.
  - intros _. rewrite Hpc. unfold after_gather. destruct (Z.ltb_spec (c + 1) (chunks (op_of st r))); constructor; progress_facts.
    all: left; destruct (decide (c0 = c)) as [->|]; [right; eexists _, _; split; [done | apply not_elem_of_nil] | left; lia].
  - intros _ He. rewrite Hpc. assert (Hfl : flags_in (cur (hr st r)) r (nr st r) 1 c) by (apply Hf; destruct seen; [done | by destruct Hse]).
    unfold after_gather. destruct (Z.ltb_spec (c + 1) (chunks (op_of st r))); cbn; (split; [|done]); intros c' Hc'; split; try done; split; try done.
    all: intros Hg; destruct (decide (c' = c)) as [->|]; [by right | left; lia].
  - unfold after_gather. by case_match.
  - unfold after_gather. by case_match.
Qed.

(** A wait at the end of the kernel gave up. *)
Lemma k_end_timeout_inv : blk (kr st r) b = Spin \/ blk (kr st r) b = Opaque true ->
  inv (set_k st r (goto (fail_at (kr st r) (bseq (kr st r) b)) b Done)).
Proof.
  intros Hpc. assert (Hnd : blk (kr st r) b <> Done) by (by destruct Hpc as [-> | ->]).
  destruct (running st r b HI Hr Hb Hnd) as (HK & _ & _). destruct this_block as [Hbs _].
  assert (Hbq : bseq (kr st r) b = cur (hr st r)) by (apply Hbs; by destruct Hpc as [-> | ->]).
  apply (move_inv Done); cbn; rewrite ?Hbq; try done; try (by intros _; apply writes_same); try lia.
  - split; cbn; by rewrite fn_lookup_insert.
  - intros _. destruct Hpc as [-> | ->]; constructor; cbn; progress_facts.
Qed.

Lemma k_opaque_inv : blk (kr st r) b = Start -> poison (kr st r) = 0 -> two (op_of st r) = false ->
  inv (set_k st r (goto (read_seq (kr st r) b (u32 (epoch (hr st r) + 1))) b (if b =? 0 then Opaque false else Done))).
Proof.
  intros Hpc Hpo Ht. destruct (running st r b HI Hr Hb) as (HK & Hep & Hu); [by rewrite Hpc|]. pose proof this_poison as Hp.
  apply (move_inv (if b =? 0 then Opaque false else Done)); cbn; try done; try (by intros _; apply writes_same); try (by rewrite Hpc); try congruence.
  - intros b' Hb'. by rewrite fn_lookup_insert_ne.
  - split; cbn; rewrite ?fn_lookup_insert; [done|]. by destruct (Z.eqb_spec b 0).
  - destruct (Z.eqb_spec b 0); done.
  - destruct (Z.eqb_spec b 0); done.
Qed.

(** *** Stores *)

Lemma others_range p : p ∈ others r -> 0 <= p < world /\ p <> r.
Proof. apply others_elem. Qed.

Lemma stage_todo_spec c i : i ∈ stage_todo (op_of st r) r b c -> exists j, j ∈ others r /\ in_chunk (op_of st r) j c i.
Proof.
  intros (j & Hi & Hj)%list_elem_of_bind. exists j. split; [done|].
  eapply (block_packs_range grid threads rails); [done | done | done | by apply block_elem | exact Hi].
Qed.
Lemma stage_todo_cover c j i : j ∈ others r -> in_chunk (op_of st r) j c i -> exists b', b' ∈ blocks /\ i ∈ stage_todo (op_of st r) r b' c.
Proof.
  intros Hj Hi. destruct (block_packs_cover grid threads Hgrid Hthreads _ _ i Hi) as (b' & Hb' & Hin).
  exists b'. split; [by apply block_elem|]. apply list_elem_of_bind. by exists j.
Qed.
Lemma reduce_todo_cover c i : in_chunk (op_of st r) r c i -> exists b', b' ∈ blocks /\ i ∈ reduce_todo (op_of st r) r b' c.
Proof.
  intros Hi. destruct (block_packs_cover grid threads Hgrid Hthreads _ _ i Hi) as (b' & Hb' & Hin).
  exists b'. split; [by apply block_elem | done].
Qed.

(** The rank is in a two-shot collective, with its geometry. *)
Record in_coll : Prop := InColl {
  ic_cur : 1 <= cur (hr st r) <= count; ic_two : two (op_of st r) = true; ic_epoch : epoch (hr st r) = cur (hr st r) - 1;
  ic_packs : 0 <= packs (op_of st r); ic_cp : 0 < chunk_packs (op_of st r); ic_chunks : 0 < chunks (op_of st r)
}.
Lemma in_coll_of : blk (kr st r) b <> Done -> two (op_of st r) = true -> in_coll.
Proof.
  intros Hnd Ht. destruct (running st r b HI Hr Hb Hnd) as (HK & Hep & _). destruct (coll_valid (cur (hr st r)) HK Ht) as (? & ? & ? & _).
  by constructor.
Qed.
Lemma this_mem : in_coll -> mem_ok (cur (hr st r)) (op_of st r) r (kr st r) (nr st r).
Proof. intros [? ? _ _ _ _]. destruct HI as [HR _]. destruct (HR r Hr) as [B M W H P F Mk]. apply M; [lia | done]. Qed.

Lemma rank_of q : q ∈ others r -> q ∈ ranks.
Proof. intros Hq%others_elem. apply zrange_elem. lia. Qed.
Lemma peer_of q : q ∈ others r -> r ∈ others q.
Proof. intros Hq%others_elem. apply others_elem. apply zrange_elem in Hr. lia. Qed.
Lemma waiter q h : q ∈ others r -> 0 <= h < rails -> (q, h) ∈ waiters r.
Proof. intros Hq Hh. apply list_elem_of_bind. exists q. split; [|done]. apply list_elem_of_fmap. exists h. split; [done | by apply zrange_elem]. Qed.
Lemma link_in q h : q ∈ others r -> 0 <= h < rails -> link_ok st q r h.
Proof. intros Hq Hh. destruct HI as [_ HL]. apply HL; [by apply rank_of | by apply peer_of | done]. Qed.

(** What the proxy posted was ready. *)
Lemma posted_ready q ph c : q ∈ ranks -> is_phase ph -> posted colls (cur (hr st q)) (pr st q) ph c ->
  (if ph =? 0 then rs_word (kr st q) c else ag_word (kr st q) c) = cur (hr st q).
Proof.
  intros Hq Hph (H1 & Ht & Hc & Hpo). destruct HI as [HR _]. destruct (HR q Hq) as [_ _ _ _ [P1 P2 P3 P4 P5 P6] _ _].
  destruct Hpo as [Hl|(u & o & rs & ag & Hx & Hlt)].
  - destruct (P5 Hl H1 Ht c Hc). by destruct (ph =? 0).
  - unfold proxy_at in P2. rewrite Hx in P2. destruct P2 as (_ & _ & _ & _ & _ & _ & _ & C1 & C2).
    destruct (ph =? 0); [apply C1 | apply C2]; lia.
Qed.

(** A rank is at most one collective ahead. *)
Lemma gap q : q ∈ others r -> cur (hr st q) <= cur (hr st r) + 1.
Proof.
  intros Hq. destruct HI as [HR _]. destruct (HR q (rank_of q Hq)) as [_ _ _ [H1 H2 _ _ H3 _] _ _ [M1 M2 M3]].
  destruct (HR r Hr) as [_ _ _ [G1 G2 _ _ G3 _] [P1 P2 _ _ _ _] _ _].
  destruct (Z.le_gt_cases (cur (hr st q)) 1) as [|Hgt]; [lia|].
  set (s := cur (hr st q) - 1). assert (Hs : 1 <= s <= epoch (hr st q)) by lia.
  destruct (two (colls s)) eqn:Ht.
  - destruct (M3 s r (peer_of q Hq) Hs Ht). lia.
  - pose proof (M1 s r (peer_of q Hq) Hs Ht) as Hta. unfold taken in Hta. unfold proxy_at in P2. destruct (prox (pr st r)); lia.
Qed.

Lemma flag_peer ph c h q : q ∈ others r -> 0 <= h < rails -> flag (nr st r) ph q c h = cur (hr st r) -> cur (hr st r) <= cur (hr st q) <= cur (hr st r) + 1.
Proof. intros Hq Hh Hf. split; [|by apply gap]. destruct (link_in q h Hq Hh) as [L1 _ _ _ _ _ _ _]. specialize (L1 ph c). lia. Qed.

Lemma flags_peers c : in_coll -> flags_in (cur (hr st r)) r (nr st r) 0 c -> peers_in st r c.
Proof.
  intros [Hc _ _ _ _ _] Hf q Hq. assert (Hh : 0 <= 0 < rails) by lia. specialize (Hf q 0 (waiter q 0 Hq Hh)).
  pose proof (flag_peer 0 c 0 q Hq Hh Hf). split; [lia|]. intros He. rewrite <- He in Hf.
  destruct (link_in q 0 Hq Hh) as [_ _ _ L4 _ _ _ _]. apply L4 in Hf as [Hpo _]; [| by left | lia].
  rewrite <- He. apply (posted_ready q 0 c (rank_of q Hq)); [by left | done].
Qed.

Lemma chunk_unique j c j' c' i : 0 <= packs (op_of st r) -> 0 < chunk_packs (op_of st r) -> 0 <= c -> 0 <= c' ->
  in_chunk (op_of st r) j c i -> in_chunk (op_of st r) j' c' i -> j = j' /\ c = c'.
Proof. intros. eapply (in_chunk_unique world); eauto; lia. Qed.

Lemma input_stage c l i : in_coll -> blk (kr st r) b = Stage c l -> 0 <= c < chunks (op_of st r) -> i ∈ stage_todo (op_of st r) r b c ->
  input_at colls inp st r i = inp (cur (hr st r)) r i.
Proof.
  intros Hic Hpc Hc Hi. unfold input_at. destruct (inplace _) eqn:Hip; [|done].
  destruct (stage_todo_spec c i Hi) as (j & Hj & Hch). destruct (this_mem Hic) as [_ M2 M3 _ _ _ _ _].
  apply (M3 j c i Hip Hj Hc Hch). intros Hw. destruct (M2 c Hw) as (_ & Hall & _). specialize (Hall b Hb). rewrite Hpc in Hall. cbn in Hall. lia.
Qed.

Lemma k_stage_inv c l1 i l2 : blk (kr st r) b = Stage c (l1 ++ i :: l2) ->
  inv (set_k st r (goto (put_send (kr st r) i (input_at colls inp st r i)) b (Stage c (l1 ++ l2)))).
Proof.
  intros Hpc. destruct this_block as [Hbs Hbo]. rewrite Hpc in Hbs, Hbo. specialize (Hbs ltac:(done) ltac:(done)). destruct Hbo as (Ht & Hc & Hin).
  pose proof (in_coll_of ltac:(by rewrite Hpc) Ht) as Hic. assert (Hi : i ∈ stage_todo (op_of st r) r b c) by (apply Hin; set_solver).
  rewrite (input_stage c _ i Hic Hpc Hc Hi). destruct (stage_todo_spec c i Hi) as (j & Hj & Hch). destruct Hic as [HK _ _ Hpk Hcp _].
  apply (move_inv (Stage c (l1 ++ l2))); cbn; try done; try (by rewrite Hpc).
  - intros _. constructor; cbn; try done.
    + intros j' c' i' Hj' Hc' Hch' Hv. destruct (decide (i = i')) as [->|]; [by rewrite fn_lookup_insert | by rewrite fn_lookup_insert_ne].
    + intros c' i' Hc' Hch' Hv. rewrite fn_lookup_insert_ne; [done|]. intros ->.
      apply others_elem in Hj. destruct (chunk_unique j c r c' i'); [done | done | lia | lia | done | done | lia].
  - apply this_poison.
  - split; cbn; rewrite fn_lookup_insert; [done|]. split; [done|]. split; [lia|]. set_solver.
  - intros _. rewrite Hpc. constructor; progress_facts.
    destruct (decide (i0 = i)) as [->|Hne]; [right; cbn; by rewrite fn_lookup_insert | left; right; eexists; split; [done | set_solver]].
Qed.

Lemma reduce_words_eq (w0 w1 : V) ws ws' : ws = ws' -> ws <> [] -> reduce_words load add store w0 ws = reduce_words load add store w1 ws'.
Proof.
  intros <- Hne. unfold reduce_words. destruct ws as [|w ws]; [done|]. cbn.
  assert (Hf : forall l a, exists a', fold_left (accumulate load add) l (Some a) = Some a') by (induction l as [|x l IH]; intros a; cbn; eauto).
  destruct (Hf ws (load w)) as [a ->]. done.
Qed.

Lemma own_input c l1 i l2 seen : in_coll -> blk (kr st r) b = Reduce c (l1 ++ i :: l2) seen -> 0 <= c < chunks (op_of st r) ->
  i ∈ reduce_todo (op_of st r) r b c -> input_at colls inp st r i = inp (cur (hr st r)) r i.
Proof.
  intros Hic Hpc Hc Hi. unfold input_at. destruct (inplace _) eqn:Hip; [|done]. destruct (this_mem Hic) as [_ _ _ M4 _ _ _ _].
  apply (M4 b c i Hip Hb Hc Hi). rewrite Hpc. unfold pack_reduced. cbn. intros [?|(todo & seen' & [= <- _] & Hn)]; [lia | set_solver].
Qed.

Lemma reduce_value c l1 i l2 : blk (kr st r) b = Reduce c (l1 ++ i :: l2) true ->
  reduce_words load add store (input_at colls inp st r i) (map (source_at world colls inp st r i) ranks) = reduced (cur (hr st r)) i.
Proof.
  intros Hpc. destruct this_block as [Hbs Hbo]. rewrite Hpc in Hbo. destruct Hbo as (Ht & Hc & Hnd & Hin & Hf & _). specialize (Hf eq_refl).
  pose proof (in_coll_of ltac:(by rewrite Hpc) Ht) as Hic. assert (Hi : i ∈ reduce_todo (op_of st r) r b c) by (apply Hin; set_solver).
  pose proof (reduce_todo_chunk world grid threads rails Hgrid Hthreads Hrails _ _ _ _ _ Hb Hi) as Hch. pose proof Hic as [HK _ _ Hpk Hcp _].
  unfold reduced, TwoShot.reduced. apply reduce_words_eq; [|unfold TwoShotPlan.ranks; by rewrite zrange_cons by lia].
  apply map_ext_in. intros src Hsrc%list_elem_of_In. unfold source_at. destruct (Z.eqb_spec src r) as [->|Hne]; [by eapply own_input|].
  assert (Hq : src ∈ others r) by (apply others_elem; apply zrange_elem in Hsrc; lia).
  destruct (stripe_cover world rails ltac:(lia) Hrails _ r c i Hpk ltac:(lia) Hcp Hch) as (h & Hh & Hs).
  pose proof (Hf src h (waiter src h Hq Hh)) as Hfl. pose proof (flag_peer 0 c h src Hq Hh Hfl) as [Hge _].
  destruct (Z.eq_dec (cur (hr st src)) (cur (hr st r))) as [He|Hgt].
  - destruct (link_in src h Hq Hh) as [_ _ _ L4 L5 _ _ _]. rewrite He in *. apply L4 in Hfl as [Hpo Hno]; [|by left | lia].
    destruct (L5 0 c i ltac:(by left) Hpo Hs) as [(w & Hw & Hk & _)|E]; [|done].
    destruct Hno. rewrite <- Hk. by apply list_elem_of_fmap_2.
  - exfalso. destruct HI as [HR _]. destruct (HR src (rank_of src Hq)) as [_ _ _ [H1 H2 _ _ H3 _] _ _ [M1 M2 M3]].
    destruct (M3 (cur (hr st r)) r (peer_of src Hq) ltac:(lia) Ht) as [_ Hag]. specialize (Hag eq_refl c Hc).
    destruct (this_mem Hic) as [_ _ _ _ _ M6 _ _]. destruct (M6 c Hag) as (_ & Hall & _). specialize (Hall b Hb). rewrite Hpc in Hall. cbn in Hall. lia.
Qed.

Lemma k_reduce_inv c l1 i l2 : blk (kr st r) b = Reduce c (l1 ++ i :: l2) true ->
  let v := reduce_words load add store (input_at colls inp st r i) (map (source_at world colls inp st r i) ranks) in
  inv (set_k st r (goto (put_send (put_out (kr st r) i v) i v) b (Reduce c (l1 ++ l2) true))).
Proof.
  intros Hpc v. unfold v. rewrite (reduce_value c l1 i l2 Hpc). clear v.
  destruct this_block as [Hbs Hbo]. rewrite Hpc in Hbs, Hbo. specialize (Hbs ltac:(done) ltac:(done)). destruct Hbo as (Ht & Hc & Hnd & Hin & Hf & _).
  destruct (NoDup_middle _ _ _ Hnd) as [Hi1 Hi2].
  pose proof (in_coll_of ltac:(by rewrite Hpc) Ht) as [HK _ _ Hpk Hcp _]. assert (Hi : i ∈ reduce_todo (op_of st r) r b c) by (apply Hin; set_solver).
  pose proof (reduce_todo_chunk world grid threads rails Hgrid Hthreads Hrails _ _ _ _ _ Hb Hi) as Hch.
  assert (Hother : forall j' c' i', j' ∈ others r -> 0 <= c' < chunks (op_of st r) -> in_chunk (op_of st r) j' c' i' -> i <> i').
  { intros j' c' i' Hj' Hc' Hch' ->. apply others_elem in Hj'. destruct (chunk_unique r c j' c' i'); [done | done | lia | lia | done | done | lia]. }
  apply (move_inv (Reduce c (l1 ++ l2) true)); cbn; try done; try (by rewrite Hpc).
  - intros _. constructor; cbn.
    + intros j' c' i' Hj' Hc' Hch' Hv. rewrite fn_lookup_insert_ne; [done | by eapply Hother].
    + intros c' i' Hc' Hch' Hv. destruct (decide (i = i')) as [->|]; [by rewrite fn_lookup_insert | by rewrite fn_lookup_insert_ne].
    + intros i' Hv. destruct (decide (i = i')) as [->|]; [by rewrite fn_lookup_insert | by rewrite fn_lookup_insert_ne].
    + intros j' c' i' Hj' Hc' Hch' _ Hv. rewrite fn_lookup_insert_ne; [done | by eapply Hother].
    + intros b' c' i' Hb' Hc' Hi' Hnp Hv. rewrite fn_lookup_insert_ne; [done|]. intros ->. apply Hnp.
      pose proof (reduce_todo_chunk world grid threads rails Hgrid Hthreads Hrails _ _ _ _ _ Hb' Hi') as Hch'.
      destruct (chunk_unique r c r c' i') as [_ <-]; [done | done | lia | lia | done | done |].
      assert (b' = b) as ->.
      { apply block_elem in Hb, Hb'. by eapply (block_packs_unique grid threads rails). }
      rewrite fn_lookup_insert. right. eexists _, _. split; [done | done].
  - apply this_poison.
  - split; cbn; rewrite fn_lookup_insert; [done|]. split; [done|]. split; [lia|]. split; [done|]. split; [set_solver | done].
  - intros _. rewrite Hpc. constructor; progress_facts.
    + right. eexists _, _. split; [done | set_solver].
    + destruct (decide (i0 = i)) as [->|Hne]; [right; cbn; by rewrite !fn_lookup_insert | left; right; eexists _, _; split; [done | set_solver]].
Qed.

Lemma gather_value c l j i : blk (kr st r) b = Gather c l true -> j ∈ others r -> in_chunk (op_of st r) j c i ->
  recv (nr st r) j 1 (i - first (op_of st r) j) = reduced (cur (hr st r)) i /\ rs_word (kr st r) c = cur (hr st r).
Proof.
  intros Hpc Hj Hch. destruct this_block as [Hbs Hbo]. rewrite Hpc in Hbo. destruct Hbo as (Ht & Hc & Hin & Hf & _). specialize (Hf eq_refl).
  pose proof (in_coll_of ltac:(by rewrite Hpc) Ht) as [HK _ _ Hpk Hcp _].
  destruct (stripe_cover world rails ltac:(lia) Hrails _ j c i Hpk ltac:(lia) Hcp Hch) as (h & Hh & Hs).
  pose proof (Hf j h (waiter j h Hj Hh)) as Hfl. pose proof (flag_peer 1 c h j Hj Hh Hfl) as Hge.
  destruct (link_in j h Hj Hh) as [_ _ _ L4 L5 L6 L7 _]. split; [|by apply L7; try done; lia].
  destruct (Z.eq_dec (cur (hr st j)) (cur (hr st r))) as [He|Hgt].
  - rewrite He in *. apply L4 in Hfl as [Hpo Hno]; [|by right | lia].
    destruct (L5 1 c i ltac:(by right) Hpo Hs) as [(w & Hw & Hk & _)|E]; [|done].
    destruct Hno. rewrite <- Hk. by apply list_elem_of_fmap_2.
  - destruct (L6 ltac:(lia) ltac:(lia) Ht c Hc) as [_ E]. by apply E.
Qed.

Lemma k_gather_inv c l1 i l2 j : blk (kr st r) b = Gather c (l1 ++ i :: l2) true -> j ∈ others r -> in_chunk (op_of st r) j c i ->
  inv (set_k st r (goto (put_out (kr st r) i (recv (nr st r) j 1 (i - first (op_of st r) j))) b (Gather c (l1 ++ l2) true))).
Proof.
  intros Hpc Hj Hch. destruct (gather_value c _ j i Hpc Hj Hch) as [-> Hrs].
  destruct this_block as [Hbs Hbo]. rewrite Hpc in Hbs, Hbo. specialize (Hbs ltac:(done) ltac:(done)). destruct Hbo as (Ht & Hc & Hin & Hf & _).
  pose proof (in_coll_of ltac:(by rewrite Hpc) Ht) as [HK _ _ Hpk Hcp _].
  apply (move_inv (Gather c (l1 ++ l2) true)); cbn; try done; try (by rewrite Hpc).
  - intros _. constructor; cbn; try done.
    + intros i' Hv. destruct (decide (i = i')) as [->|]; [by rewrite fn_lookup_insert | by rewrite fn_lookup_insert_ne].
    + intros j' c' i' Hj' Hc' Hch' Hne Hv. rewrite fn_lookup_insert_ne; [done|]. intros ->.
      destruct (chunk_unique j c j' c' i') as [_ <-]; [done | done | lia | lia | done | done |]. done.
    + intros b' c' i' Hb' Hc' Hi' Hnp Hv. rewrite fn_lookup_insert_ne; [done|]. intros ->. apply others_elem in Hj.
      pose proof (reduce_todo_chunk world grid threads rails Hgrid Hthreads Hrails _ _ _ _ _ Hb' Hi') as Hch'.
      destruct (chunk_unique j c r c' i'); [done | done | lia | lia | done | done | lia].
  - apply this_poison.
  - split; cbn; rewrite fn_lookup_insert; [done|]. split; [done|]. split; [lia|]. split; [set_solver | done].
  - intros _. rewrite Hpc. constructor; progress_facts.
    destruct (decide (i0 = i)) as [->|Hne]; [right; cbn; by rewrite !fn_lookup_insert | left; right; eexists _, _; split; [done | set_solver]].
  - intros _ _. rewrite Hpc. cbn. split; [|done]. intros c' Hc'. split; [done|]. split; [done | by left].
Qed.

(** *** Arrivals *)

(** Block [b] is the last to arrive when the counter says so. *)
Lemma last_arrival f prior q (k' : krn) : blk k' = <[b := q]> (blk (kr st r)) -> f (blk (kr st r) b) = false -> f q = true ->
  prior mod grid = zc (kr st r) f mod grid -> zc k' f = zc (kr st r) f + 1
  /\ (is_last grid prior = true <-> forall b', b' ∈ blocks -> f (blk k' b') = true).
Proof.
  intros Hq Hf Hf' Hp. pose proof (zc_move grid (kr st r) k' b q f Hq Hb) as Hz. rewrite Hf, Hf' in Hz. cbn [Z.b2z] in Hz. split; [lia|].
  assert (Hlen : zlen blocks = grid) by (unfold TwoShotInv.blocks; rewrite zrange_length; lia).
  pose proof (zcount_bounds (fun b => f (blk (kr st r) b)) blocks) as [Hn _]. pose proof (zcount_bounds (fun b => f (blk k' b)) blocks) as [_ Hn'].
  fold (zc (kr st r) f) in Hn. fold (zc k' f) in Hn'. rewrite Hlen in Hn'.
  rewrite (is_last_spec grid Hgrid Hdiv prior (zc (kr st r) f)) by (done || lia). split.
  - intros E. apply zcount_all. rewrite Hlen. unfold zc in *. lia.
  - intros Hall. assert (zc k' f = zcount (fun _ => true) blocks) as E by (by apply zcount_ext). rewrite zcount_const, Hlen in E. cbn in E. lia.
Qed.

Lemma ended_same (k' : krn) q : blk k' = <[b := q]> (blk (kr st r)) -> ended q = ended (blk (kr st r) b) -> zc k' ended = zc (kr st r) ended.
Proof. intros Hq He. rewrite (zc_move grid (kr st r) k' b q), He by done. lia. Qed.

Lemma after_stage_facts c c' : 0 <= c < chunks (op_of st r) -> let q := after_stage world grid threads rails (op_of st r) r b c in
  (0 <= c' -> reduced_at q c' = false) /\ gathered_at q c' = false /\ (0 <= c' < chunks (op_of st r) -> staged q c' = (c' <? c + 1)).
Proof.
  intros Hc. unfold after_stage. cbn. destruct (Z.ltb_spec (c + 1) (chunks (op_of st r))); cbn; repeat split; try done; lia.
Qed.

Lemma after_stage_moves c k' : 0 <= c < chunks (op_of st r) -> blk (kr st r) b = Stage c [] ->
  moves (cur (hr st r)) (op_of st r) r k' b (blk (kr st r) b) (after_stage world grid threads rails (op_of st r) r b c).
Proof.
  intros Hc Hpc. rewrite Hpc. constructor; intros c'; pose proof (after_stage_facts c c' Hc) as (F1 & F2 & F3).
  - cbn. intros Hs. unfold after_stage. case_match; cbn; [lia | done].
  - done.
  - unfold pack_reduced. cbn. intros i [?|(? & ? & ? & ?)]; done.
  - intros i Hc' Hi _ Hp. left. unfold pack_staged. cbn. destruct (decide (c' = c)) as [->|]; [right; eexists; split; [done | apply not_elem_of_nil]|].
    left. destruct Hp as [Hp|(todo & Hq & Hn)]; [rewrite F3 in Hp by done; lia|].
    exfalso. unfold after_stage in Hq. case_match; simplify_eq; by apply Hn.
  - intros i Hc' Hi _ Hp. destruct Hp as [Hp|(todo & s & Hq & Hn)]; [rewrite F1 in Hp by lia; done|].
    unfold after_stage in Hq. by case_match.
  - intros i Hc' Hi _ Hp. destruct Hp as [Hp|(todo & s & Hq & Hn)]; [by rewrite F2 in Hp|].
    unfold after_stage in Hq. by case_match.
Qed.

(** The ready word of a chunk is set by its last arrival. *)
Lemma ready_word (w : Z -> Z) prior c c' : (if is_last grid prior && (error (kr st r) =? 0) then <[c := cur (hr st r)]> w else w) c' = cur (hr st r) ->
  w c' = cur (hr st r) \/ c' = c /\ error (kr st r) = 0 /\ is_last grid prior = true.
Proof.
  destruct (is_last grid prior && (error (kr st r) =? 0)) eqn:E; [|by left]. apply andb_prop in E as [E1 E2%Z.eqb_eq].
  destruct (decide (c = c')) as [<-|Hne]; [right; done | rewrite fn_lookup_insert_ne by done; by left].
Qed.
Lemma word_kept (w : Z -> Z) (g : bool) c c' : w c' = cur (hr st r) -> (if g then <[c := cur (hr st r)]> w else w) c' = cur (hr st r).
Proof.
  intros Hc'. destruct g; [|done]. destruct (decide (c = c')) as [<-|Hne]; [by rewrite fn_lookup_insert | by rewrite fn_lookup_insert_ne].
Qed.
Lemma word_bound (w : Z -> Z) (g : bool) c c' : w c' <= cur (hr st r) -> (if g then <[c := cur (hr st r)]> w else w) c' <= cur (hr st r).
Proof.
  intros Hc'. destruct g; [|done]. destruct (decide (c = c')) as [<-|Hne]; [rewrite fn_lookup_insert; lia | by rewrite fn_lookup_insert_ne].
Qed.

Lemma count_at (o : collective) (k : krn) ctr f c : counts grid o k ctr f -> two o = true -> 0 <= c < chunks o -> error k = 0 ->
  ctr c mod grid = zc k (fun q => f q c) mod grid.
Proof. intros Hc Ht H0 Hz. rewrite (Hc c Hz). by replace (two o && (0 <=? c) && (c <? chunks o)) with true by (rewrite Ht; lia). Qed.

Lemma k_staged_inv c : blk (kr st r) b = Stage c [] ->
  inv (set_k st r (goto (arrive_stage grid (kr st r) (bseq (kr st r) b) c) b (after_stage world grid threads rails (op_of st r) r b c))).
Proof.
  intros Hpc. destruct this_block as [Hbs Hbo]. rewrite Hpc in Hbs, Hbo. specialize (Hbs ltac:(done) ltac:(done)). destruct Hbo as (Ht & Hc & _).
  pose proof (in_coll_of ltac:(by rewrite Hpc) Ht) as Hic. destruct (this_mem Hic) as [M1 _ _ _ _ _ _ _]. destruct this_words as [W1 W2 W3 W4 W5 W6].
  rewrite Hbs. pose proof (fun c' => after_stage_facts c c' Hc) as Hfacts.
  apply (advance_inv (after_stage world grid threads rails (op_of st r) r b c)); cbn; try done; try (by rewrite Hpc).
  - split; cbn; rewrite fn_lookup_insert; [done|]. unfold after_stage.
    destruct (Z.ltb_spec (c + 1) (chunks (op_of st r))); [split; [done|]; split; [lia | done]|].
    split; [done|]. split; [lia|]. split; [by left|]. done.
  - constructor; cbn; try done.
    + intros c'. apply word_bound, W1.
    + eapply counts_arrive with (k := kr st r) (b := b) (q := after_stage world grid threads rails (op_of st r) r b c); try done; [rewrite Hpc; cbn [staged]; lia | destruct (Hfacts c) as (_ & _ & ->); lia |].
      intros c' Hne Hc'. destruct (Hfacts c') as (_ & _ & ->); rewrite ?Hpc; cbn [staged]; lia.
    + eapply counts_same with (k := kr st r) (b := b) (q := after_stage world grid threads rails (op_of st r) r b c); try done. intros _ _ c' Hc'. destruct (Hfacts c') as (-> & _); [by rewrite Hpc | lia].
    + intros Hz. rewrite W5, Ht by done. f_equal. symmetry. apply ended_same with (q := after_stage world grid threads rails (op_of st r) r b c); [done|].
      rewrite Hpc. unfold after_stage. by destruct (_ <? _).
  - eapply (head_move _ (after_stage world grid threads rails (op_of st r) r b c)); [by rewrite Hpc | done | done | |]; unfold after_stage; by destruct (_ <? _).
  - intros c'. apply word_kept.
  - intros _. split; [by apply writes_same|]. split; [by apply after_stage_moves|]. split; [|split; [by left|]].
    + intros c' Hc'. destruct (ready_word _ _ _ _ Hc') as [|(-> & Hz & Hl)]; [by left|]. right. split; [done|].
      destruct (last_arrival (fun q => staged q c) (sctr (kr st r) c) (after_stage world grid threads rails (op_of st r) r b c)
                  (goto (arrive_stage grid (kr st r) (cur (hr st r)) c) b (after_stage world grid threads rails (op_of st r) r b c))) as [_ Hall];
        [done | rewrite Hpc; cbn [staged]; lia | destruct (Hfacts c) as (_ & _ & ->); lia | by apply count_at with (o := op_of st r) |].
      destruct Hall as [Hall _]. specialize (Hall Hl). split; [exact Hall|]. intros j i Hj Hch. destruct (stage_todo_cover c j i Hj Hch) as (b' & Hb' & Hi).
      apply (M1 b' c i); try done.
      destruct (decide (b' = b)) as [->|Hne]; [rewrite Hpc; right; eexists; split; [done | apply not_elem_of_nil]|].
      left. specialize (Hall b' Hb'). cbn in Hall. by rewrite fn_lookup_insert_ne in Hall.
    + intros c' Hc' _. destruct (Hfacts c') as (-> & -> & _); [done | lia].
Qed.

Lemma after_reduce_facts c c' : 0 <= c < chunks (op_of st r) -> let q := after_reduce world rails (op_of st r) r c in
  staged q c' = true /\ (0 <= c' -> gathered_at q c' = false) /\ (0 <= c' < chunks (op_of st r) -> reduced_at q c' = (c' <? c + 1))
  /\ (c' <= c -> reduced_at q c' = true).
Proof.
  intros Hc. unfold after_reduce. cbn. destruct (Z.ltb_spec (c + 1) (chunks (op_of st r))); cbn; repeat split; try done; lia.
Qed.

Lemma after_reduce_moves c seen k' : 0 <= c < chunks (op_of st r) -> blk (kr st r) b = Reduce c [] seen ->
  moves (cur (hr st r)) (op_of st r) r k' b (blk (kr st r) b) (after_reduce world rails (op_of st r) r c).
Proof.
  intros Hc Hpc. rewrite Hpc. constructor; intros c'; pose proof (after_reduce_facts c c' Hc) as (F1 & F2 & F3 & F4).
  - done.
  - cbn. intros Hs. apply F4. lia.
  - unfold pack_reduced. cbn. intros i [?|(? & ? & [= <- <- <-] & ?)]; left; apply F4; lia.
  - intros i Hc' Hi _ _. left. by left.
  - intros i Hc' Hi _ Hp. left. unfold pack_reduced. cbn.
    destruct (decide (c' = c)) as [->|]; [right; eexists _, _; split; [done | apply not_elem_of_nil]|].
    left. destruct Hp as [Hp|(todo & s & Hq & Hn)]; [rewrite F3 in Hp by done; lia|].
    unfold after_reduce in Hq. by destruct (c + 1 <? _).
  - intros i Hc' Hi _ Hp. destruct Hp as [Hp|(todo & s & Hq & Hn)]; [rewrite F2 in Hp by lia; done|].
    unfold after_reduce in Hq. by destruct (c + 1 <? _).
Qed.

Lemma k_reduced_inv c seen : blk (kr st r) b = Reduce c [] seen ->
  inv (set_k st r (goto (arrive_reduce grid (kr st r) (bseq (kr st r) b) c) b (after_reduce world rails (op_of st r) r c))).
Proof.
  intros Hpc. destruct this_block as [Hbs Hbo]. rewrite Hpc in Hbs, Hbo. specialize (Hbs ltac:(done) ltac:(done)). destruct Hbo as (Ht & Hc & _ & _ & Hf & Hse).
  pose proof (in_coll_of ltac:(by rewrite Hpc) Ht) as Hic. destruct (this_mem Hic) as [_ _ _ _ M5 _ _ _]. destruct this_words as [W1 W2 W3 W4 W5 W6].
  rewrite Hbs. pose proof (fun c' => after_reduce_facts c c' Hc) as Hfacts.
  assert (Hpeers : error (kr st r) = 0 -> peers_in st r c).
  { intros Hz. apply flags_peers; [done | apply Hf; destruct seen; [done | by destruct Hse]]. }
  apply (advance_inv (after_reduce world rails (op_of st r) r c)); cbn; try done; try (by rewrite Hpc).
  - split; cbn; rewrite fn_lookup_insert; [done|]. unfold after_reduce.
    destruct (Z.ltb_spec (c + 1) (chunks (op_of st r))); repeat split; try done; try lia; first [by left | by right | auto].
  - constructor; cbn; try done.
    + intros c'. apply word_bound, W2.
    + eapply counts_same with (k := kr st r) (b := b) (q := after_reduce world rails (op_of st r) r c); try done.
      intros _ _ c' Hc'. destruct (Hfacts c') as (-> & _). by rewrite Hpc.
    + eapply counts_arrive with (k := kr st r) (b := b) (q := after_reduce world rails (op_of st r) r c); try done;
        [rewrite Hpc; cbn [reduced_at]; lia | destruct (Hfacts c) as (_ & _ & -> & _); lia |].
      intros c' Hne Hc'. destruct (Hfacts c') as (_ & _ & -> & _); rewrite ?Hpc; cbn [reduced_at]; lia.
    + intros Hz. rewrite W5, Ht by done. f_equal. symmetry. apply ended_same with (q := after_reduce world rails (op_of st r) r c); [done|].
      rewrite Hpc. unfold after_reduce. by destruct (_ <? _).
  - eapply (head_move _ (after_reduce world rails (op_of st r) r c)); [by rewrite Hpc | done | done | |]; unfold after_reduce; by destruct (_ <? _).
  - intros c'. apply word_kept.
  - intros _. split; [by apply writes_same|]. split; [by eapply after_reduce_moves|]. split; [by left|]. split.
    + intros c' Hc'. destruct (ready_word _ _ _ _ Hc') as [|(-> & Hz & Hl)]; [by left|]. right. split; [|auto]. split; [done|].
      destruct (last_arrival (fun q => reduced_at q c) (rctr (kr st r) c) (after_reduce world rails (op_of st r) r c)
                  (goto (arrive_reduce grid (kr st r) (cur (hr st r)) c) b (after_reduce world rails (op_of st r) r c))) as [_ Hall];
        [done | rewrite Hpc; cbn [reduced_at]; lia | destruct (Hfacts c) as (_ & _ & -> & _); lia | by apply count_at with (o := op_of st r) |].
      destruct Hall as [Hall _]. specialize (Hall Hl). split; [exact Hall|]. intros i Hch. destruct (reduce_todo_cover c i Hch) as (b' & Hb' & Hi).
      apply (M5 b' c i); try done.
      destruct (decide (b' = b)) as [->|Hne]; [rewrite Hpc; right; eexists _, _; split; [done | apply not_elem_of_nil]|].
      left. specialize (Hall b' Hb'). cbn in Hall. by rewrite fn_lookup_insert_ne in Hall.
    + intros c' Hc' Hz. destruct (Hfacts c') as (_ & -> & -> & _); [|done|lia]. split; [done|]. rewrite Hpc. cbn.
      intros Hle. destruct (decide (c' = c)) as [->|]; [right; auto | left; lia].
Qed.

(** *** The end of a kernel *)

Lemma k_tail_inv : blk (kr st r) b = Tail ->
  inv (set_k st r (goto (arrive_tail (kr st r)) b (if is_last grid (tctr (kr st r)) && (error (kr st r) =? 0) then Spin else Done))).
Proof.
  intros Hpc. destruct this_block as [Hbs Hbo]. rewrite Hpc in Hbs, Hbo. specialize (Hbs ltac:(done) ltac:(done)).
  destruct this_words as [W1 W2 W3 W4 W5 W6]. set (g := is_last grid (tctr (kr st r)) && (error (kr st r) =? 0)).
  set (q := if g then Spin else Done). set (k' := goto (arrive_tail (kr st r)) b q).
  assert (Hq : staged q = staged Tail /\ reduced_at q = reduced_at Tail /\ gathered_at q = gathered_at Tail /\ ended q = true) by (unfold q; by destruct g).
  destruct Hq as (Q1 & Q2 & Q3 & Q4).
  assert (Hla : error (kr st r) = 0 -> zc k' ended = zc (kr st r) ended + 1 /\ (is_last grid (tctr (kr st r)) = true <-> forall b', b' ∈ blocks -> ended (blk k' b') = true)).
  { intros Hz. apply (last_arrival ended _ q k'); [done | by rewrite Hpc | done |].
    rewrite (W5 Hz). by destruct Hbo as [-> | ?]. }
  apply (advance_inv q); try done; try (by rewrite Hpc).
  - split; cbn; rewrite fn_lookup_insert; [done|]. unfold q, g. destruct (is_last grid (tctr (kr st r)) && _) eqn:E; [|done].
    apply andb_prop in E as [E Hz%Z.eqb_eq]. split; [by destruct Hbo|]. split; [done|]. destruct (Hla Hz) as [_ [Hall _]].
    intros b' Hb' Hne. specialize (Hall E b' Hb'). cbn in Hall |- *. rewrite fn_lookup_insert_ne in Hall |- * by done.
    destruct HI as [HR _]. destruct (HR r Hr) as [B _ _ _ _ _ _]. destruct (B b' Hb') as [_ Bo].
    destruct (blk (kr st r) b'); try done. destruct Bo as (_ & _ & Bo). specialize (Bo b Hb ltac:(congruence)). congruence.
  - constructor; cbn; try done.
    + eapply counts_same with (k := kr st r) (b := b) (q := q); try done. intros _ _ c' Hc'. by rewrite Hpc, Q1.
    + eapply counts_same with (k := kr st r) (b := b) (q := q); try done. intros _ _ c' Hc'. by rewrite Hpc, Q2.
    + intros Hz. destruct Hbo as [Ht|?]; [|done]. rewrite Ht in *. destruct (Hla Hz) as [E _]. rewrite (E : zc _ ended = _). by apply count_up, W5.
  - apply (head_move k' q); try done; [by rewrite Hpc | | unfold q; by destruct g].
    intros E Hz. right. cbn in Hz. destruct Hbo as [Ht|?]; [|done]. split; [done|]. destruct (Hla Hz) as [_ Hall].
    assert (Hg : is_last grid (tctr (kr st r)) <> true) by (intros El; unfold q, g in E; rewrite El, Hz in E; done).
    assert (Hd : ~ Forall (fun b' => ended (blk k' b') = true) blocks) by (rewrite Forall_forall; intros G; apply Hg, Hall; intros x Hx%list_elem_of_In; by apply G).
    apply neg_Forall_Exists_neg in Hd; [|intros x; destruct (ended (blk k' x)); [by left | by right]]. apply Exists_exists in Hd as (b' & Hb'%list_elem_of_In & Hne). exists b'. split; [done|].
    intros E'. by rewrite E' in Hne.
  - intros _. split; [by apply writes_same|]. split; [|split; [by left|split; [by left|]]].
    + rewrite Hpc. constructor; rewrite ?Q1, ?Q2; try done; intros; (left; by left) || (left; by rewrite Q2).
    + intros c _ _. rewrite Hpc, Q2, Q3. split; by left.
Qed.

(** The last block ends and the epoch becomes the collective's sequence. *)
Lemma finish_inv q : blk (kr st r) b <> Done -> q = Done ->
  (two (op_of st r) = true -> blk (kr st r) b = Spin) -> door (hr st r) = cur (hr st r) ->
  (forall b', b' ∈ blocks -> <[b := Done]> (blk (kr st r)) b' = Done) ->
  (two (op_of st r) = false -> forall p, p ∈ others r -> cur (hr st r) <= taken (pr st p)) ->
  (two (op_of st r) = true -> cur (hr st r) <= last_seq (pr st r) /\ forall p, p ∈ others r ->
     cur (hr st r) <= cur (hr st p) /\ (cur (hr st r) = cur (hr st p) -> forall c, 0 <= c < chunks (op_of st r) -> ag_word (kr st p) c = cur (hr st r))) ->
  inv (set_h (set_k st r (goto (kr st r) b q)) r (set_epoch (hr st r) (cur (hr st r)))).
Proof.
  intros Hnd -> Hsp Hdo Hall Hone Htwo. destruct (running st r b HI Hr Hb Hnd) as (HK & Hep & _).
  pose proof HI as [HR HL]. destruct (HR r Hr) as [B M W H P F Mk]. destruct H as [H1 H2 H3 H4 H5 H6].
  set (st' := set_h _ _ _). assert (D : at_device st st' r).
  { constructor; intros; cbn; rewrite ?fn_lookup_insert, ?fn_lookup_insert_ne by done; auto. }
  eapply kernel_inv; [exact HI | exact Hr | exact D | | | | | |]; cbn; rewrite ?fn_lookup_insert; cbn; try done.
  - eapply blocks_move; try done. split; cbn; by rewrite fn_lookup_insert.
  - intros G1 G2. specialize (Hsp G2). eapply mem_move with (b := b) (q := Done) (k := kr st r); [done | done | done | done | done | by apply writes_same | done | | by left | done | by left | | by apply M].
    + rewrite Hsp. constructor; progress_facts.
    + rewrite Hsp. by left.
  - eapply words_move with (b := b) (q := Done) (k := kr st r); try done; [apply this_poison|]. intros _ Ht. by rewrite (Hsp Ht).
  - constructor; cbn; try done; try lia. by right.
  - destruct F as [F1 F2]. unfold TwoShot.op_of in *. constructor; unfold TwoShot.op_of; cbn; rewrite ?fn_lookup_insert; cbn.
    + intros b' c Hb' Hc Hz Ht Hre. apply (peers_in_kept _ _ _ _ _ _ D). apply (F1 b' c); try done. destruct (decide (b' = b)) as [->|Hne].
      * by rewrite (Hsp Ht).
      * by rewrite fn_lookup_insert_ne in Hre.
    + intros c G1 G2 Hc. apply (peers_in_kept _ _ _ _ _ _ D). by apply F2.
  - intros s Hs. assert (s = cur (hr st r)) as -> by lia. split; [exact Hone | exact Htwo].
Qed.

(** A kernel released by its proxy: every peer reduced its shard, and posted it. *)
Lemma k_released_inv : blk (kr st r) b = Spin -> pdone (pr st r) = bseq (kr st r) b ->
  inv (set_h (set_k st r (goto (kr st r) b Done)) r (set_epoch (hr st r) (bseq (kr st r) b))).
Proof.
  intros Hpc Hpd. destruct this_block as [Hbs Hbo]. rewrite Hpc in Hbs, Hbo. specialize (Hbs ltac:(done) ltac:(done)). destruct Hbo as (Ht & Hz & Hall).
  pose proof (in_coll_of ltac:(by rewrite Hpc) Ht) as Hic. pose proof (this_mem Hic) as M. pose proof Hic as [HK _ Hep _ _ Hch].
  destruct (in_rank _ _ _ _ _ _ _ _ _ _ _ HI r Hr) as [B _ W H P F _]. rewrite Hbs in *.
  apply (finish_inv Done); try done; [by rewrite Hpc | | | |].
  - destruct P as [P1 _ _ P4 _ _]. destruct H as [_ _ _ _ H5 _]. lia.
  - intros b' Hb'. cbn. destruct (decide (b' = b)) as [->|Hne]; [by rewrite fn_lookup_insert | rewrite fn_lookup_insert_ne by done; auto].
  - intros Hn. congruence.
  - intros _. split; [rewrite <- Hpd; apply P|]. intros q Hq.
    assert (Hfl : forall c, 0 <= c < chunks (op_of st r) -> flag (nr st r) 1 q c 0 = cur (hr st r)).
    { intros c Hc. destruct M as [_ _ _ _ _ _ _ M8]. apply (M8 b c Hb Hc Hz); [by rewrite Hpc | apply waiter; [done | lia]]. }
    split; [apply (flag_peer 1 0 0 q Hq); [lia | apply Hfl; lia]|]. intros He c Hc. specialize (Hfl c Hc).
    destruct (link_in q 0 Hq ltac:(lia)) as [_ _ _ L4 _ _ _ _]. rewrite He in Hfl. apply L4 in Hfl as [Hpo _]; [|by right | lia].
    rewrite He. by apply (posted_ready q 1 c (rank_of q Hq)); [right|].
Qed.

(** A one-shot kernel ended: every peer's proxy took the collective up. *)
Lemma k_opaque_end_inv : blk (kr st r) b = Opaque true -> (forall b', 0 <= b' < grid -> b' <> b -> blk (kr st r) b' = Done) -> error (kr st r) = 0 ->
  (forall p, p ∈ others r -> bseq (kr st r) b <= taken (pr st p)) ->
  inv (set_h (set_k st r (goto (kr st r) b Done)) r (set_epoch (hr st r) (bseq (kr st r) b))).
Proof.
  intros Hpc Hall Hz Htk. destruct this_block as [Hbs Hbo]. rewrite Hpc in Hbs, Hbo. specialize (Hbs ltac:(done) ltac:(done)). destruct Hbo as (Hb0 & Ht).
  destruct (running st r b HI Hr Hb) as (HK & Hep & _); [by rewrite Hpc|].
  destruct this_head as [_ _ _ _ _ H6]. rewrite Hbs in *.
  apply (finish_inv Done); try done; [by rewrite Hpc | intros Ht'; congruence | by apply (H6 b) | | ].
  - intros b' Hb'%block_elem. cbn. destruct (decide (b' = b)) as [->|Hne]; [by rewrite fn_lookup_insert | rewrite fn_lookup_insert_ne by done; auto].
  - intros Ht'. congruence.
Qed.

(** *** The doorbell *)

Lemma taken_range q : q ∈ ranks -> last_seq (pr st q) <= taken (pr st q) <= door (hr st q).
Proof.
  intros Hq. destruct (in_rank _ _ _ _ _ _ _ _ _ _ _ HI q Hq) as [_ _ _ _ [P1 P2 _ _ _ _] _ _].
  unfold taken. unfold proxy_at in P2. destruct (prox (pr st q)); lia.
Qed.

(** The slot of the collective before the last is no longer needed. *)
Lemma taken_before : epoch (hr st r) - 1 <= taken (pr st r).
Proof.
  pose proof (taken_range r Hr). destruct (in_rank _ _ _ _ _ _ _ _ _ _ _ HI r Hr) as [_ _ _ _ [P1 _ _ _ _ _] _ [M1 M2 M3]].
  destruct (Z.le_gt_cases (epoch (hr st r)) 1) as [|Hgt]; [lia|]. set (s := epoch (hr st r)) in *.
  destruct (two (colls (s - 1))) eqn:Ht2; [specialize (M2 (s - 1) ltac:(lia) Ht2); lia|].
  destruct (two (colls s)) eqn:Ht1; [specialize (M2 s ltac:(lia) Ht1); lia|].
  set (q := if r =? 0 then 1 else 0). assert (Hq : q ∈ others r) by (apply others_elem; unfold q; apply zrange_elem in Hr; destruct (Z.eqb_spec r 0); lia).
  pose proof (M1 s q Hq ltac:(lia) Ht1) as Htk. pose proof (taken_range q (rank_of q Hq)).
  destruct (in_rank _ _ _ _ _ _ _ _ _ _ _ HI q (rank_of q Hq)) as [_ _ _ [G1 G2 _ _ G5 _] _ _ [N1 _ _]].
  apply (N1 (s - 1) r (peer_of q Hq)); [lia | done].
Qed.

Lemma slot_parity s : s = cur (hr st r) - 1 -> Z.land s 1 <> Z.land (cur (hr st r)) 1.
Proof.
  intros -> E. assert (E' : Z.land (cur (hr st r) - 1) (Z.ones 1) = Z.land (cur (hr st r)) (Z.ones 1)) by exact E.
  rewrite !Z.land_ones in E' by lia. change (2 ^ 1) with 2 in E'. Z.to_euclidean_division_equations. lia.
Qed.

Lemma ring_inv : blk (kr st r) b = Ring \/ blk (kr st r) b = Opaque false ->
  inv (set_h st r (ring (hr st r) (cur (hr st r)) (op_of st r))).
Proof.
  intros Hpc. destruct (running st r b HI Hr Hb) as (HK & Hep & _); [by destruct Hpc as [-> | ->]|].
  pose proof taken_before as Htk. destruct this_head as [H1 H2 H3 H4 H5 H6].
  destruct (in_rank _ _ _ _ _ _ _ _ _ _ _ HI r Hr) as [_ _ _ _ [P1 P2 P3 P4 P5 P6] _ _].
  apply (door_inv load add store world grid threads rails colls count inp); [done | done | done | |].
  - constructor; cbn; try done; lia.
  - constructor; cbn; try done; try lia.
    + unfold proxy_at in *. cbn. destruct (prox (pr st r)); try done; intuition lia.
    + intros s Hs. unfold slot_of. destruct (decide (s = cur (hr st r))) as [->|Hne].
      * rewrite fn_lookup_insert. unfold TwoShot.op_of. by destruct (two (colls (cur (hr st r)))).
      * rewrite fn_lookup_insert_ne by (apply not_eq_sym, slot_parity; lia). apply P3. lia.
Qed.
End Step.

(** The step that rings is the store of the doorbell, then the block's move. *)
Lemma k_ring_inv st r b : inv st -> r ∈ ranks -> b ∈ blocks -> blk (kr st r) b = Ring ->
  inv (set_h (set_k st r (goto (kr st r) b (Stage 0 (stage_todo (op_of st r) r b 0)))) r (ring (hr st r) (bseq (kr st r) b) (op_of st r))).
Proof.
  intros HI Hr Hb Hpc. destruct (this_block st r b HI Hr Hb) as [Hbs Hbo]. rewrite Hpc in Hbs, Hbo. specialize (Hbs ltac:(done) ltac:(done)). destruct Hbo as (Hb0 & Ht).
  destruct (running st r b HI Hr Hb) as (HK & _ & _); [by rewrite Hpc|]. destruct (coll_valid (cur (hr st r)) HK Ht) as (_ & _ & Hch & _).
  rewrite Hbs. set (st1 := set_h st r (ring (hr st r) (cur (hr st r)) (op_of st r))).
  assert (HI1 : inv st1) by (eapply ring_inv; eauto).
  assert (Ho : op_of st1 r = op_of st r) by (unfold TwoShot.op_of; cbn; by rewrite fn_lookup_insert).
  change (inv (set_k st1 r (goto (kr st1 r) b (Stage 0 (stage_todo (op_of st r) r b 0))))).
  eapply move_inv with (b := b) (q := Stage 0 (stage_todo (op_of st r) r b 0)); cbn; rewrite ?fn_lookup_insert; cbn; try done; try (by intros _; apply writes_same); try (by rewrite Hpc).
  - by apply (this_poison st r).
  - unfold TwoShot.op_of. cbn. rewrite fn_lookup_insert. split; cbn; rewrite ?fn_lookup_insert; [done|]. split; [done|]. split; [cbn; lia | done].
  - intros _. rewrite Hpc, Ho. constructor; progress_facts.
  - intros _ _. rewrite Hpc. cbn. split; [|done]. intros c' Hc'. split; [lia|]. split; [done | by left].
Qed.

Lemma k_opaque_ring_inv st r b : inv st -> r ∈ ranks -> b ∈ blocks -> blk (kr st r) b = Opaque false ->
  inv (set_h (set_k st r (goto (kr st r) b (Opaque true))) r (ring (hr st r) (bseq (kr st r) b) (op_of st r))).
Proof.
  intros HI Hr Hb Hpc. destruct (this_block st r b HI Hr Hb) as [Hbs Hbo]. rewrite Hpc in Hbs, Hbo. specialize (Hbs ltac:(done) ltac:(done)).
  rewrite Hbs. set (st1 := set_h st r (ring (hr st r) (cur (hr st r)) (op_of st r))).
  assert (HI1 : inv st1) by (eapply ring_inv; eauto).
  change (inv (set_k st1 r (goto (kr st1 r) b (Opaque true)))).
  eapply move_inv with (b := b) (q := Opaque true); cbn; rewrite ?fn_lookup_insert; cbn; try done; try (by intros _; apply writes_same); try (by rewrite Hpc).
  - by apply (this_poison st r).
  - unfold TwoShot.op_of. cbn. rewrite fn_lookup_insert. split; cbn; rewrite ?fn_lookup_insert; done.
  - intros _. rewrite Hpc. constructor; progress_facts.
Qed.

(** ** Every step of a kernel *)
Lemma kstep_inv st st' r b : inv st -> r ∈ ranks -> 0 <= b < grid -> kstep r b st st' -> inv st'.
Proof.
  intros HI Hr Hb%block_elem Hs. destruct Hs.
  - exfalso. by eapply k_wrapped_inv.
  - by eapply k_poisoned_inv.
  - by eapply k_start_inv.
  - by eapply k_ring_inv.
  - by eapply k_stage_inv.
  - by eapply k_staged_inv.
  - eapply k_wait_inv; eauto.
  - eapply k_wait_inv; eauto. left. split; [done|]. pose proof (this_poison st r HI Hr). tauto.
  - eapply k_wait_inv; eauto. left. split; [done|]. cbn. destruct (this_block st r b HI Hr Hb) as [Hbs _].
    destruct (running st r b HI Hr Hb) as (HK & _ & _); [by rewrite H|]. rewrite Hbs; [lia | by rewrite H | by rewrite H].
  - by eapply k_waited_inv.
  - by eapply k_reduce_inv.
  - by eapply k_reduce_poisoned_inv.
  - by eapply k_reduced_inv.
  - by eapply k_gather_inv.
  - by eapply k_gather_poisoned_inv.
  - by eapply k_gathered_inv.
  - by eapply k_tail_inv.
  - by eapply k_released_inv.
  - eapply k_end_timeout_inv; eauto.
  - by eapply k_opaque_inv.
  - by eapply k_opaque_ring_inv.
  - by eapply k_opaque_end_inv.
  - eapply k_end_timeout_inv; eauto.
Qed.
End Kernel.
