(* ===== verification/TwoShotWire.v ===== *)
(** * Two-shot all-reduce: proxies, wires and launches keep the invariant *)
From S2P Require Import Prelude TwoShotPlan TwoShot TwoShotInv TwoShotKernel.
From stdpp Require Import functions.
#[local] Open Scope list_scope.
#[local] Open Scope Z_scope.

Section Steps.
Context {V A : Type} (load : V -> A) (add : A -> V -> A) (store : A -> V).
Context (world grid threads rails pipe_bytes : Z) (colls : Z -> collective) (count : Z) (inp : Z -> Z -> Z -> V).
#[local] Notation ranks := (TwoShotPlan.ranks world).
#[local] Notation first := (TwoShotPlan.first world).
#[local] Notation others := (TwoShotPlan.others world).
#[local] Notation stage_todo := (TwoShotPlan.stage_todo world grid threads).
#[local] Notation reduce_todo := (TwoShotPlan.reduce_todo world grid threads).
#[local] Notation gather_todo := (TwoShotPlan.gather_todo world grid threads).
#[local] Notation waiters := (TwoShotPlan.waiters world rails).
#[local] Notation stripe := (TwoShotPlan.stripe world rails).
#[local] Notation in_chunk := (TwoShotPlan.in_chunk world).
#[local] Notation reduced := (TwoShot.reduced load add store world inp).
#[local] Notation gst := (@TwoShot.gst V).
#[local] Notation krn := (@TwoShot.krn V).
#[local] Notation net := (@TwoShot.net V).
#[local] Notation prx := (@TwoShot.prx V).
#[local] Notation op_of := (TwoShot.op_of colls).
#[local] Notation blocks := (TwoShotInv.blocks grid).
#[local] Notation block_ok := (TwoShotInv.block_ok world grid threads rails).
#[local] Notation mem_ok := (TwoShotInv.mem_ok load add store world grid threads rails inp).
#[local] Notation words_ok := (TwoShotInv.words_ok grid).
#[local] Notation head_ok := (TwoShotInv.head_ok grid colls count).
#[local] Notation rank_ok := (TwoShotInv.rank_ok load add store world grid threads rails colls count inp).
#[local] Notation link_ok := (TwoShotInv.link_ok load add store world rails colls inp).
#[local] Notation facts_ok := (TwoShotInv.facts_ok world grid colls).
#[local] Notation peers_in := (TwoShotInv.peers_in world).
#[local] Notation flags_in := (TwoShotInv.flags_in world rails).
#[local] Notation moves := (TwoShotInv.moves load add store world grid threads inp).
#[local] Notation writes_ok := (TwoShotInv.writes_ok load add store world grid threads inp).
#[local] Notation zc := (TwoShotInv.zc grid).
#[local] Notation inv := (TwoShotInv.inv load add store world grid threads rails colls count inp).
#[local] Notation kstep := (TwoShot.kstep load add store world grid threads rails colls inp).
#[local] Notation proxy_ok := (TwoShotInv.proxy_ok colls).
#[local] Notation posted := (TwoShotInv.posted colls).
#[local] Notation payload := (TwoShotInv.payload load add store world inp).
#[local] Notation pstep := (TwoShot.pstep world rails pipe_bytes).
#[local] Notation nstep := TwoShot.nstep.
Context (Hworld : 2 <= world) (Hgrid : 0 < grid) (Hdiv : (grid | 2 ^ 32)) (Hthreads : 0 < threads) (Hrails : 0 < rails)
  (Hcount : count < 2 ^ 32 - 1)
  (Hcolls : forall k, 1 <= k <= count -> two (colls k) = true -> pipe_valid world pipe_bytes (colls k) = true).


(** ** The proxies *)

Lemma proxy_inv st r p' : inv st -> r ∈ ranks -> proxy_ok (kr st r) (hr st r) p' -> taken (pr st r) <= taken p' -> last_seq (pr st r) <= last_seq p' ->
  (forall p h, p ∈ others r -> 0 <= h < rails -> link_ok st r p h -> link_ok (set_p st r p') r p h) -> inv (set_p st r p').
Proof.
  intros [HR HL] Hr Hp Ht Hl Hlk. constructor.
  - intros q Hq. destruct (HR q Hq) as [B M W H P [F1 F2] [M1 M2 M3]].
    constructor; try done.
    + cbn. fn_split r q.
    + constructor; cbn; try done.
      * intros s q' Hq' Hs Hts. specialize (M1 s q' Hq' Hs Hts). fn_split r q'. lia.
      * intros s Hs Hts. specialize (M2 s Hs Hts). fn_split r q. lia.
  - intros a p h Ha Hp' Hh. destruct (decide (a = r)) as [->|Hne]; [by auto|].
    destruct (HL a p h Ha Hp' Hh) as [L1 L2 L3 L4 L5 L6 L7 L8].
    constructor; cbn; rewrite ?fn_lookup_insert_ne by done; done.
Qed.

(** Nothing new is posted. *)
Lemma link_same st r p' p h : link_ok st r p h -> queue p' p h = queue (pr st r) p h ->
  (forall ph c, posted (cur (hr st r)) p' ph c <-> posted (cur (hr st r)) (pr st r) ph c) ->
  (last_seq p' = cur (hr st r) -> last_seq (pr st r) = cur (hr st r) \/ queue (pr st r) p h = []) ->
  link_ok (set_p st r p') r p h.
Proof.
  intros [L1 L2 L3 L4 L5 L6 L7 L8] Hq Hpo Hd. constructor; cbn; rewrite ?fn_lookup_insert, ?Hq; try done.
  - intros w Hw. rewrite Hpo. by apply L2.
  - intros ph c Hph Hc. rewrite Hpo. by apply L4.
  - intros ph c i Hph Hpc. apply L5; [done | by apply Hpo].
  - intros Hl. destruct (Hd Hl) as [|E]; [by rewrite L8 | done].
Qed.

Lemma posted_same K (p p' : prx) : last_seq p' = last_seq p -> (forall u s o rs ag, prox p' = PRun u s o rs ag <-> prox p = PRun u s o rs ag) ->
  forall ph c, posted K p' ph c <-> posted K p ph c.
Proof. intros Hl Hx ph c. unfold TwoShotInv.posted. rewrite Hl. by setoid_rewrite Hx. Qed.

(** What a proxy inside an operation has posted. *)
Lemma posted_run K (p : prx) u o rs ag : prox p = PRun u K o rs ag -> forall ph c, posted K p ph c <->
  1 <= K /\ two (colls K) = true /\ 0 <= c < chunks (colls K) /\ (last_seq p = K \/ c < (if ph =? 0 then rs else ag)).
Proof.
  intros Hpc ph c. unfold TwoShotInv.posted. rewrite Hpc. split.
  - intros (G1 & G2 & G3 & [?|(? & ? & ? & ? & E & Hlt)]); simplify_eq; repeat split; try done; (by left) || (by right) || lia.
  - intros (G1 & G2 & G3 & [?|Hlt]); (split; [done|]; split; [done|]; split; [done|]); [by left | right; by eexists _, _, _, _].
Qed.

Section Proxy.
Context (st : gst) (r : Z) (HI : inv st) (Hr : r ∈ ranks).
#[local] Notation K := (cur (hr st r)).

Lemma this_proxy : proxy_ok (kr st r) (hr st r) (pr st r).
Proof. destruct HI as [HR _]. by destruct (HR r Hr). Qed.

(** The proxy's word moves between its idle states. *)
Lemma goto_p_inv q : prox (pr st r) = PIdle \/ (exists u, prox (pr st r) = PLoop u) ->
  q = PIdle \/ (exists u, q = PLoop u /\ last_seq (pr st r) <= u <= door (hr st r)) -> inv (set_p st r (goto_p (pr st r) q)).
Proof.
  intros Hpc Hq. destruct this_proxy as [P1 P2 P3 P4 P5 P6].
  assert (Ht : taken (goto_p (pr st r) q) = taken (pr st r)) by (unfold taken; cbn; destruct Hpc as [-> | [? ->]], Hq as [-> | (? & -> & _)]; done).
  apply proxy_inv; try done; [ | by rewrite Ht |].
  - constructor; rewrite ?Ht; cbn; try done. unfold proxy_at; cbn. by destruct Hq as [-> | (? & -> & ?)].
  - intros p h Hp Hh L. apply link_same; try done; [|by left].
    apply posted_same; [done|]. intros u s o rs ag. cbn. destruct Hpc as [-> | [? ->]], Hq as [-> | (? & -> & _)]; done.
Qed.

Lemma fail_inv : inv (set_p st r (fail (pr st r))).
Proof.
  destruct this_proxy as [P1 P2 P3 P4 P5 P6]. apply proxy_inv; try done.
  intros p h Hp Hh L. apply link_same; try done. by left.
Qed.

(** *** No doorbell is refused *)

Lemma pending : prox (pr st r) = PIdle -> door (hr st r) - last_seq (pr st r) <= 2.
Proof.
  intros Hpc. destruct HI as [HR _]. destruct (HR r Hr) as [_ _ _ [G1 G2 _ _ G5 _] [P1 P2 _ _ _ _] _ [M1 M2 M3]].
  pose proof (taken_before load add store world grid threads rails colls count inp Hworld st r HI Hr) as Ht. unfold taken in Ht. rewrite Hpc in Ht. lia.
Qed.

Lemma polls d : prox (pr st r) = PIdle -> d = door (hr st r) -> polled (pr st r) d = goto_p (pr st r) (PLoop d).
Proof.
  intros Hpc ->. pose proof (pending Hpc). destruct this_proxy as [P1 _ _ _ _ _]. unfold polled, u32. rewrite Z.mod_small by lia.
  destruct (Z.ltb_spec 2 (door (hr st r) - last_seq (pr st r))); [lia | done].
Qed.

(** The next sequence is this rank's collective when it is a two-shot one. *)
Lemma next_two s : s = last_seq (pr st r) + 1 -> s <= door (hr st r) -> two (colls s) = true -> s = K /\ 1 <= K <= count.
Proof.
  intros -> Hs Ht. destruct this_proxy as [P1 _ _ _ _ _]. destruct HI as [HR _]. destruct (HR r Hr) as [_ _ _ [G1 G2 _ _ G5 _] _ _ [_ M2 _]].
  destruct (Z.le_gt_cases (last_seq (pr st r) + 1) (epoch (hr st r))); [specialize (M2 (last_seq (pr st r) + 1) ltac:(lia) Ht)|]; lia.
Qed.

Lemma takes u : prox (pr st r) = PLoop u -> last_seq (pr st r) <> u -> let s := last_seq (pr st r) + 1 in
  taking world pipe_bytes (pr st r) u (slots (hr st r)) = goto_p (pr st r) (if two (colls s) then PRun u s (norm (colls s)) 0 0 else POne u s).
Proof.
  intros Hpc Hne s. destruct this_proxy as [P1 P2 P3 P4 P5 P6]. unfold proxy_at in P2. rewrite Hpc in P2.
  assert (Htk : taken (pr st r) = last_seq (pr st r)) by (unfold taken; by rewrite Hpc).
  destruct HI as [HR _]. destruct (HR r Hr) as [_ _ _ [G1 _ _ _ G5 _] _ _ _].
  assert (Hu : u32 (last_seq (pr st r) + 1) = s) by (unfold u32; rewrite Z.mod_small; lia).
  unfold taking. cbv zeta. rewrite Hu, P6. replace (s =? 0) with false by lia. cbn [orb].
  specialize (P3 s ltac:(lia)). unfold slot_of in P3. unfold take.
  destruct (two (colls s)) eqn:Ht; [|rewrite P3; cbn; unfold goto_p; by rewrite P6].
  destruct (next_two s) as [HK Hc]; [done | lia | done|]. rewrite P3. cbn [s_kind Z.eqb]. unfold of_slot. cbn [s_nbytes s_chunk_packs s_chunks].
  assert (Hv : pipe_valid world pipe_bytes (norm (colls s)) = true) by (rewrite HK in *; by apply Hcolls).
  unfold norm in Hv. rewrite Hv. cbn. unfold goto_p. by rewrite P6.
Qed.

Lemma take_inv u : prox (pr st r) = PLoop u -> last_seq (pr st r) <> u -> inv (set_p st r (taking world pipe_bytes (pr st r) u (slots (hr st r)))).
Proof.
  intros Hpc Hne. rewrite (takes u Hpc Hne). set (s := last_seq (pr st r) + 1). set (q := if two (colls s) then _ else _).
  destruct this_proxy as [P1 P2 P3 P4 P5 P6]. unfold proxy_at in P2. rewrite Hpc in P2.
  assert (Htk : taken (pr st r) = last_seq (pr st r)) by (unfold taken; by rewrite Hpc).
  assert (Htq : taken (goto_p (pr st r) q) = s) by (unfold taken, q; cbn; by destruct (two (colls s))).
  apply proxy_inv; try done; [ | lia |].
  - constructor; rewrite ?Htq; cbn; try done; [|intros s' Hs'; apply P3; lia].
    unfold proxy_at, q. cbn. destruct (two (colls s)) eqn:Ht; [|repeat split; done || lia].
    destruct (next_two s) as [HK Hc]; [done | lia | done|]. destruct (coll_valid world pipe_bytes colls count Hcolls s ltac:(lia) Ht) as (_ & _ & Hch & _).
    repeat split; try done; try (cbn; lia).
  - intros p h Hp Hh L. apply link_same; try done; [|by left]. intros ph c. unfold TwoShotInv.posted. cbn. rewrite Hpc.
    split; intros (H1 & H2 & H3 & [?|(u' & o & rs & ag & E & Hlt)]); (split; [done|]; split; [done|]; split; [done|]); try by left.
    unfold q in E. destruct (two (colls s)); simplify_eq. destruct (ph =? 0); lia.
Qed.

Lemma one_inv u s : prox (pr st r) = POne u s -> inv (set_p st r (finish (pr st r) s (PLoop u))).
Proof.
  intros Hpc. destruct this_proxy as [P1 P2 P3 P4 P5 P6]. unfold proxy_at in P2. rewrite Hpc in P2. destruct P2 as (Hs & Hu & Ht).
  assert (Htk : taken (pr st r) = s) by (unfold taken; by rewrite Hpc). rewrite Htk in P3.
  apply proxy_inv; try done; [ | by rewrite Htk | cbn; lia |].
  - constructor; cbn; try done; try lia. intros <- _ Ht'. congruence.
  - intros p h Hp Hh L. apply link_same; try done.
    + intros ph c. unfold TwoShotInv.posted. cbn. rewrite Hpc. destruct HI as [HR _]. destruct (HR r Hr) as [_ _ _ [_ _ _ _ G5 _] _ _ _].
      split; intros (H1 & H2 & H3 & [?|(u' & o & rs & ag & E & Hlt)]); [congruence | done | lia | done].
    + cbn. intros HsK. right. destruct L as [_ L2 _ _ _ _ _ _]. destruct (queue (pr st r) p h) as [|w l]; [done|].
      destruct (L2 w ltac:(apply list_elem_of_here)) as (_ & (_ & Ht' & _) & _). congruence.
Qed.

Lemma proxy_release_inv u s o rs ag : prox (pr st r) = PRun u s o rs ag -> chunks o <= rs -> chunks o <= ag ->
  (forall p h, p ∈ others r -> 0 <= h < rails -> queue (pr st r) p h = []) -> inv (set_p st r (release (pr st r) s (PLoop u))).
Proof.
  intros Hpc Hrs Hag Hq. destruct this_proxy as [P1 P2 P3 P4 P5 P6]. unfold proxy_at in P2. rewrite Hpc in P2.
  destruct P2 as (Hs & HsK & Hu & Ht & -> & H1 & H2 & C1 & C2). cbn in Hrs, Hag, H1, H2.
  assert (Htk : taken (pr st r) = s) by (unfold taken; by rewrite Hpc). rewrite Htk in P3. revert Hs; subst s; intros Hs.
  apply proxy_inv; try done; [ | by rewrite Htk | cbn; lia |].
  - constructor; cbn; try done; try lia. intros _ _ _ c Hc. split; [apply C1 | apply C2]; lia.
  - intros p h Hp Hh L. apply link_same; try done; [|intros _; right; auto].
    intros ph c. unfold TwoShotInv.posted. cbn. rewrite Hpc.
    split; intros (G1 & G2 & G3 & G4); (split; [done|]; split; [done|]; split; [done|]); [right | by left].
    eexists _, _, _, _. split; [done|]. destruct (ph =? 0); lia.
Qed.

(** *** A chunk is posted *)

Lemma stripe_todo (l : list Z) i (v : option V) : (i, v) ∈ map (fun i => (i, None)) l -> i ∈ l /\ v = None.
Proof. intros (j & [= -> ->] & Hj%list_elem_of_In)%list_elem_of_In%in_map_iff. done. Qed.

Lemma post_link u o rs ag p' ph0 c0 p h : link_ok st r p h -> prox (pr st r) = PRun u K o rs ag -> o = norm (colls K) ->
  is_phase ph0 -> posted K p' ph0 c0 -> ~ posted K (pr st r) ph0 c0 -> last_seq p' <> K ->
  (forall ph c, is_phase ph -> posted K p' ph c <-> posted K (pr st r) ph c \/ ph = ph0 /\ c = c0) ->
  queue p' p h = queue (pr st r) p h ++ [chunk_wqe world rails o K r ph0 c0 p h] -> link_ok (set_p st r p') r p h.
Proof.
  intros [L1 L2 L3 L4 L5 L6 L7 L8] Hpc -> Hph0 Hnew Hold Hlast Hpo Hq.
  assert (Hkey : (ph0, c0) ∉ map key (queue (pr st r) p h)).
  { intros (w & Hk & Hw%list_elem_of_In)%list_elem_of_In%in_map_iff. destruct (L2 w Hw) as (_ & Hp & _). apply Hold. unfold key in Hk. by simplify_eq. }
  constructor; cbn; rewrite ?fn_lookup_insert, ?Hq; try done.
  - intros w [Hw| ->%list_elem_of_singleton]%elem_of_app.
    + destruct (L2 w Hw) as (G1 & G2 & G3). split; [done|]. split; [|done]. apply Hpo; [done | by left].
    + cbn. split; [done|]. split; [done|]. split; [done|]. split; [done|]. intros i v [Hi ->]%stripe_todo. split; [exact Hi | done].
  - rewrite map_app. apply list.NoDup_app. split; [done|]. split; [|apply NoDup_singleton].
    intros k Hk. cbn. rewrite list_elem_of_singleton. intros ->. by apply Hkey.
  - intros ph c Hph H1. rewrite L4, Hpo, map_app by done. rewrite elem_of_app. cbn. rewrite list_elem_of_singleton. unfold key at 2. cbn.
    split; [intros [G1 G2]; split; [by left|]; intros [?|[= -> ->]]; done | intros [[G1|[-> ->]] G2]; [split; [done | tauto] | destruct G2; by right]].
  - intros ph c i Hph [G|[-> ->]]%Hpo Hi; [|left|done].
    + destruct (L5 ph c i Hph G Hi) as [(w & Hw & Hk & Hin)|E]; [left | by right].
      exists w. split; [apply elem_of_app; by left | done].
    + eexists. split; [apply elem_of_app; right; by apply list_elem_of_singleton|]. split; [done|]. cbn.
      apply list_elem_of_In, in_map_iff. exists (i, None). split; [done|]. apply in_map_iff. exists i. split; [done | by apply list_elem_of_In].
Qed.

Lemma proxy_post_inv u s o rs ag ph c rs' ag' : prox (pr st r) = PRun u s o rs ag ->
  (ph = 0 /\ c = rs /\ rs < chunks o /\ rs_word (kr st r) rs = s /\ rs' = rs + 1 /\ ag' = ag
   \/ ph = 1 /\ c = ag /\ ag < chunks o /\ ag_word (kr st r) ag = s /\ rs' = rs /\ ag' = ag + 1) ->
  inv (set_p st r (post world rails (pr st r) o s r ph c (PRun u s o rs' ag'))).
Proof.
  intros Hpc Hstep. destruct this_proxy as [P1 P2 P3 P4 P5 P6]. unfold proxy_at in P2. rewrite Hpc in P2.
  destruct P2 as (Hs & HsK & Hu & Ht & Ho & H1 & H2 & C1 & C2). assert (Hch : chunks o = chunks (colls s)) by by rewrite Ho.
  destruct HI as [HR _]. destruct (HR r Hr) as [_ _ _ [_ _ _ _ G5 _] _ _ _].
  assert (Htk : taken (pr st r) = s) by (unfold taken; by rewrite Hpc). revert Hs; subst s; intros Hs.
  apply proxy_inv; try done; [ | by rewrite Htk |].
  - constructor; cbn; try done; [|unfold taken in P3 |- *; by rewrite Hpc in P3]. unfold proxy_at. cbn. do 5 (split; [done|]).
    destruct Hstep as [(-> & -> & Hlt & Hw & -> & ->)|(-> & -> & Hlt & Hw & -> & ->)]; repeat split; try done; try lia; intros c Hc.
    + destruct (decide (c = rs)) as [->|]; [done | apply C1; lia].
    + destruct (decide (c = ag)) as [->|]; [done | apply C2; lia].
  - intros p h Hp Hh L. eapply (post_link u o rs ag _ ph c); try done.
    + unfold is_phase. lia.
    + split; [lia|]. split; [done|]. split; [lia|]. right. eexists _, _, _, _. split; [done|].
      destruct Hstep as [(-> & -> & _ & _ & -> & _)|(-> & -> & _ & _ & _ & ->)]; cbn; lia.
    + intros (_ & _ & _ & [?|(u' & o' & rs1 & ag1 & E & Hlt)]); [lia|]. rewrite Hpc in E. simplify_eq.
      destruct Hstep as [(-> & -> & _)|(-> & -> & _)]; cbn in Hlt; lia.
    + cbn. lia.
    + intros ph' c' Hph'. rewrite (posted_run _ _ _ _ _ _ Hpc), (posted_run _ (post _ _ _ _ _ _ _ _ _) u o rs' ag' eq_refl). cbn.
      destruct Hph' as [-> | ->], Hstep as [(-> & -> & ? & _ & -> & ->)|(-> & -> & ? & _ & -> & ->)]; cbn; rewrite Ht; intuition lia.
    + cbn. unfold posted_queue. by rewrite !bool_decide_true by done.
Qed.
End Proxy.

Lemma pstep_inv st st' r : inv st -> r ∈ ranks -> pstep r st st' -> inv st'.
Proof.
  intros HI Hr Hs. destruct Hs as [Hf Hpc Hd|u Hf Hpc Hl|u Hf Hpc Hl|u s Hf Hpc|u s o rs ag Hf Hpc Hlt Hw|u s o rs ag Hf Hpc Hlt Hw|u s o rs ag Hf Hpc Hrs Hag Hq|].
  - rewrite (polls st r HI Hr _ Hpc eq_refl). apply goto_p_inv; [done | done | by left | right; eexists; split; [done|]].
    pose proof (po_last _ _ _ _ (this_proxy st r HI Hr)). lia.
  - apply goto_p_inv; [done | done | right; by eexists | by left].
  - by apply take_inv.
  - by eapply one_inv.
  - eapply proxy_post_inv; eauto. left. done.
  - eapply proxy_post_inv; eauto. right. done.
  - by eapply proxy_release_inv.
  - by apply fail_inv.
Qed.

(** ** The wires *)

Lemma flag_write (n : net) ph src c h s ph' src' c' h' : flag (write_flag n ph src c h s) ph' src' c' h' =
  if decide (ph = ph' /\ src = src' /\ c = c' /\ h = h') then s else flag n ph' src' c' h'.
Proof.
  cbn. case_decide as E; [destruct E as (-> & -> & -> & ->); by rewrite !fn_lookup_insert|].
  fn_split ph ph'. fn_split src src'. fn_split c c'. fn_split h h'. by destruct E.
Qed.
Lemma recv_write (n : net) src ph off v src' ph' off' : recv (write_recv n src ph off v) src' ph' off' =
  if decide (src = src' /\ ph = ph' /\ off = off') then v else recv n src' ph' off'.
Proof.
  cbn. case_decide as E; [destruct E as (-> & -> & ->); by rewrite !fn_lookup_insert|].
  fn_split src src'. fn_split ph ph'. fn_split off off'. by destruct E.
Qed.
Lemma queue_set (q : prx) p h l p' h' : queue (set_queue q p h l) p' h' = if decide (p = p' /\ h = h') then l else queue q p' h'.
Proof.
  cbn. case_decide as E; [destruct E as (-> & ->); by rewrite !fn_lookup_insert|].
  fn_split p p'. fn_split h h'. by destruct E.
Qed.

Section Wire.
Context (st : gst) (r p h : Z) (HI : inv st) (Hr : r ∈ ranks) (Hp : p ∈ others r) (Hh : 0 <= h < rails).
#[local] Notation K := (cur (hr st r)).

Lemma this_link h' : 0 <= h' < rails -> link_ok st r p h'.
Proof. intros Hh'. destruct HI as [_ HL]. by apply HL. Qed.

(** What the NIC reads is what is sent. *)
Lemma send_value ph c i h' : 0 <= h' < rails -> is_phase ph -> posted K (pr st r) ph c -> i ∈ stripe (colls K) (post_shard ph r p) c h' ->
  psend (kr st r) i = payload K r ph i.
Proof.
  intros Hh' Hph Hpo Hi. pose proof (posted_ready load add store world grid threads rails colls count inp st HI r ph c Hr Hph Hpo) as Hw.
  destruct HI as [HR _]. destruct (HR r Hr) as [_ M _ [G1 _ _ _ _ _] _ _ _]. destruct Hpo as (H1 & Ht & Hc & _).
  destruct (coll_valid world pipe_bytes colls count Hcolls K ltac:(lia) Ht) as (Hpk & Hcp & _ & _).
  assert (Hch : in_chunk (colls K) (post_shard ph r p) c i) by (eapply (stripe_in world rails); eauto; lia).
  destruct (M H1 Ht) as [_ M2 _ _ _ M6 _ _]. unfold payload, TwoShotInv.payload. destruct Hph as [-> | ->]; cbn in *.
  - destruct (M2 c Hw) as (_ & _ & E). by eapply E.
  - destruct (M6 c Hw) as (_ & _ & E). by eapply E.
Qed.

(** A rank that is ahead has posted no gather chunk. *)
Lemma early_phase w : K = cur (hr st p) + 1 -> w ∈ queue (pr st r) p h -> w_phase w = 0.
Proof.
  intros He Hw. destruct (this_link h Hh) as [_ L2 _ _ _ _ _ _]. destruct (L2 w Hw) as ([E|E] & Hpo & _); [done|]. exfalso.
  rewrite E in Hpo. pose proof (posted_ready load add store world grid threads rails colls count inp st HI r 1 (w_chunk w) Hr ltac:(by right) Hpo) as Hag.
  destruct HI as [HR _]. destruct (HR r Hr) as [_ _ _ _ _ [_ F2] _]. destruct Hpo as (H1 & Ht & _).
  destruct (F2 (w_chunk w) H1 Ht Hag p Hp). lia.
Qed.
Lemma gathering w : w ∈ queue (pr st r) p h -> w_phase w = 1 -> peers_in st r (w_chunk w).
Proof.
  intros Hw E. destruct (this_link h Hh) as [_ L2 _ _ _ _ _ _]. destruct (L2 w Hw) as (_ & Hpo & _).
  rewrite E in Hpo. pose proof (posted_ready load add store world grid threads rails colls count inp st HI r 1 (w_chunk w) Hr ltac:(by right) Hpo) as Hag.
  destruct HI as [HR _]. destruct (HR r Hr) as [_ _ _ _ _ [_ F2] _]. destruct Hpo as (H1 & Ht & _). by apply F2.
Qed.

Lemma set_queue_inv l : link_ok (set_p st r (set_queue (pr st r) p h l)) r p h -> inv (set_p st r (set_queue (pr st r) p h l)).
Proof.
  intros Hl. destruct (this_proxy st r HI Hr) as [P1 P2 P3 P4 P5 P6]. apply proxy_inv; try done.
  intros p' h' Hp' Hh' L. destruct (decide (p = p' /\ h = h')) as [[<- <-]|Hne]; [done|].
  apply link_same; [done | by rewrite queue_set, decide_False | done | by left].
Qed.

(** The work requests of the link, but for what the NIC read. *)
Lemma link_reread l : link_ok st r p h -> map key l = map key (queue (pr st r) p h) ->
  (forall w, w ∈ l -> exists w0, w0 ∈ queue (pr st r) p h /\ key w = key w0 /\ w_seq w = w_seq w0 /\ w_base w = w_base w0
    /\ (forall i v, (i, v) ∈ w_todo w -> (i, v) ∈ w_todo w0 \/ (exists v0, (i, v0) ∈ w_todo w0) /\ v = Some (psend (kr st r) i))) ->
  (forall w0 i, w0 ∈ queue (pr st r) p h -> i ∈ (w_todo w0).*1 -> exists w, w ∈ l /\ key w = key w0 /\ i ∈ (w_todo w).*1) ->
  link_ok (set_p st r (set_queue (pr st r) p h l)) r p h.
Proof.
  intros [L1 L2 L3 L4 L5 L6 L7 L8] Hk Hold Hnew.
  assert (Hq : queue (set_queue (pr st r) p h l) p h = l) by (rewrite queue_set, decide_True; done).
  set (p' := set_queue (pr st r) p h l) in *. assert (Hpo : forall ph c, posted K p' ph c <-> posted K (pr st r) ph c) by by apply posted_same.
  assert (Hls : last_seq p' = last_seq (pr st r)) by done. clearbody p'.
  constructor; cbn; rewrite ?fn_lookup_insert, ?Hq, ?Hk, ?Hls; try done.
  - intros w Hw. rewrite Hpo. destruct (Hold w Hw) as (w0 & Hw0 & [= -> ->] & -> & -> & Htd). destruct (L2 w0 Hw0) as (G1 & G2 & G3 & G4 & G5). do 4 (split; [done|]).
    intros i v Hi. destruct (Htd i v Hi) as [Hi'|[[v0 Hi'] ->]]; [by apply G5|].
    destruct (G5 i v0 Hi') as [Gs _]. split; [done|]. intros x [= <-]. by apply (send_value _ (w_chunk w0) _ h).
  - intros ph c Hph H1. rewrite Hpo. by apply L4.
  - intros ph c i Hph Hpc Hi. rewrite Hpo in Hpc. destruct (L5 ph c i Hph Hpc Hi) as [(w0 & Hw0 & <- & Hin)|E]; [left | by right]. by apply Hnew.
  - intros E. specialize (L8 E). rewrite L8 in Hk. by destruct l.
Qed.

Lemma n_read_inv q1 w q2 l1 i v l2 : queue (pr st r) p h = q1 ++ w :: q2 -> w_todo w = l1 ++ (i, v) :: l2 ->
  inv (set_p st r (set_queue (pr st r) p h (q1 ++ with_todo w (l1 ++ (i, Some (psend (kr st r) i)) :: l2) :: q2))).
Proof.
  intros Hq Hw. apply set_queue_inv. set (w' := with_todo w _). apply link_reread; [by apply this_link | rewrite Hq, !map_app; done | |]; rewrite Hq.
  - intros x Hx. assert (Hxw : x ∈ q1 ++ w :: q2 \/ x = w') by set_solver. destruct Hxw as [Hx'| ->].
    + exists x. repeat split; try done. by left.
    + exists w. repeat split; try done; [set_solver|]. cbn. rewrite Hw.
      intros i' v' [Hi|[[= -> ->]|Hi]%elem_of_cons]%elem_of_app; [left; set_solver | right; split; [exists v; set_solver | done] | left; set_solver].
  - intros x i' Hx Hi. assert (Hxw : x = w \/ x ∈ q1 ++ w' :: q2) by set_solver. destruct Hxw as [-> | Hx']; [exists w' | by exists x].
    split; [set_solver|]. split; [done|].
    cbn. rewrite Hw in Hi. by rewrite fmap_app in *.
Qed.

(** A write lands at [p]. *)
Lemma landed_inv l n' : let st' := set_n (set_p st r (set_queue (pr st r) p h l)) p n' in
  (forall a, a <> r -> recv n' a = recv (nr st p) a) -> (forall ph a, a <> r -> flag n' ph a = flag (nr st p) ph a) ->
  (forall b, b ∈ blocks -> block_ok (cur (hr st p)) (op_of st p) p (kr st p) n' b) ->
  (1 <= cur (hr st p) -> two (op_of st p) = true -> mem_ok (cur (hr st p)) (op_of st p) p (kr st p) n') ->
  (forall h', 0 <= h' < rails -> link_ok st' r p h') -> inv st'.
Proof.
  intros st' Hre Hfl Hb Hm Hl.
  assert (Hpr : forall q, taken (pr st' q) = taken (pr st q) /\ last_seq (pr st' q) = last_seq (pr st q)) by (intros q; cbn; unfold taken; fn_split r q).
  destruct HI as [HR HL]. constructor.
  - intros q Hq. destruct (HR q Hq) as [B M W H [P1 P2 P3 P4 P5 P6] [F1 F2] [M1 M2 M3]]. constructor; try done.
    + cbn. fn_split p q.
    + cbn. fn_split p q.
    + cbn. fn_split r q.
    + constructor; try done; intros s; [intros p' | ]; rewrite (proj1 (Hpr _)) || rewrite (proj2 (Hpr _)); eauto.
  - intros a p' h' Ha Hp' Hh'. destruct (HL a p' h' Ha Hp' Hh') as [L1 L2 L3 L4 L5 L6 L7 L8].
    destruct (decide (a = r)) as [->|Hne].
    + destruct (decide (p' = p)) as [->|Hnp]; [by apply Hl|].
      constructor; cbn; rewrite ?fn_lookup_insert, ?fn_lookup_insert_ne by done; try done; cbn; rewrite ?fn_lookup_insert_ne by done; done.
    + assert (Hn : recv (nr st' p') a = recv (nr st p') a /\ forall ph, flag (nr st' p') ph a = flag (nr st p') ph a) by (cbn; fn_split p p'; auto).
      destruct Hn as [Hn1 Hn2].
      constructor; rewrite ?Hn1; cbn in Hn2 |- *; rewrite ?(fn_lookup_insert_ne _ r a) by done; try done; intros; rewrite Hn2 in * || rewrite Hn2; eauto.
Qed.
Lemma n_write_inv w q l1 i v l2 : queue (pr st r) p h = w :: q -> w_todo w = l1 ++ (i, Some v) :: l2 ->
  inv (set_n (set_p st r (set_queue (pr st r) p h (with_todo w (l1 ++ l2) :: q))) p (write_recv (nr st p) r (w_phase w) (i - w_base w) v)).
Proof.
  intros Hq Hw. assert (Hin : w ∈ queue (pr st r) p h) by (rewrite Hq; apply list_elem_of_here).
  pose proof (early_phase w) as Hearly. destruct (this_link h Hh) as [_ L2 _ _ _ _ _ _].
  destruct (L2 w Hin) as (Hph & Hpo & Hsq & Hbase & Htd). destruct (Htd i (Some v)) as [Hst Hv]; [rewrite Hw; set_solver|]. specialize (Hv v eq_refl). clear L2 Htd.
  set (n' := write_recv _ _ _ _ _). set (w' := with_todo w (l1 ++ l2)).
  assert (Hrn : forall ph' off', recv n' r ph' off' = if decide (w_phase w = ph' /\ i - w_base w = off') then v else recv (nr st p) r ph' off').
  { intros ph' off'. unfold n'. rewrite recv_write. repeat case_decide; tauto. }
  apply landed_inv; [intros a Ha; unfold n'; cbn; by rewrite fn_lookup_insert_ne | done | | |].
  - intros b Hb. destruct HI as [HR _]. destruct (HR p (rank_of world r p Hp)) as [B _ _ _ _ _ _]. exact (B b Hb).
  - destruct HI as [HR _]. destruct (HR p (rank_of world r p Hp)) as [_ M _ _ _ _ _]. intros H1 H2. destruct (M H1 H2). by constructor.
  - intros h' Hh'. destruct (this_link h' Hh') as [L1 L2 L3 L4 L5 L6 L7 L8].
    set (p' := set_queue (pr st r) p h (w' :: q)). assert (Hqs : queue p' p h' = if decide (h = h') then w' :: q else queue (pr st r) p h').
    { unfold p'. rewrite queue_set. repeat case_decide; tauto. }
    assert (Hpo' : forall ph c, posted K p' ph c <-> posted K (pr st r) ph c) by by apply posted_same.
    assert (Hls : last_seq p' = last_seq (pr st r)) by done.
    assert (Hks : map key (queue p' p h') = map key (queue (pr st r) p h')) by (rewrite Hqs; case_decide; subst; rewrite ?Hq; done).
    assert (Hfl : flag n' = flag (nr st p)) by done. clearbody p' n'.
    constructor; cbn; rewrite ?fn_lookup_insert, ?Hks, ?Hls, ?Hfl; try done.
    + intros x Hx. rewrite Hpo'. assert (Hx' : x ∈ queue (pr st r) p h' \/ h = h' /\ x = w') by (rewrite Hqs in Hx; case_decide; subst; rewrite ?Hq; set_solver).
      destruct Hx' as [Hx'|[<- ->]]; [by apply L2|]. destruct (L2 w Hin) as (G1 & G2 & G3 & G4 & G5). do 4 (split; [done|]).
      cbn. intros i' v' Hi. apply G5. rewrite Hw. set_solver.
    + intros ph c Hph' H1. rewrite Hpo'. by apply L4.
    + intros ph c i' Hph' Hpc Hi. rewrite Hpo' in Hpc. rewrite Hrn.
      destruct (decide (w_phase w = ph /\ i - w_base w = i' - first (colls K) (post_shard ph r p))) as [E|E]; [right; destruct E as [<- E2]; rewrite Hbase in E2; by replace i' with i by lia|].
      destruct (L5 ph c i' Hph' Hpc Hi) as [(x & Hx & Hxk & Hin')|G]; [left | by right].
      assert (Hx' : x ∈ queue p' p h' \/ h = h' /\ x = w) by (rewrite Hqs; destruct (decide (h = h')); subst; rewrite ?Hq in Hx; set_solver).
      destruct Hx' as [Hx'|[<- ->]]; [by exists x|]. exists w'. rewrite Hqs, decide_True by done. split; [apply list_elem_of_here|]. split; [done|].
      cbn. rewrite Hw in Hin'. rewrite fmap_app, fmap_cons in Hin'. cbn in Hin'. rewrite fmap_app.
      assert (i' <> i); [|set_solver]. intros ->. apply E. injection Hxk as <- _. by rewrite Hbase.
    + intros He H1 H2 c Hc. destruct (L6 He H1 H2 c Hc) as [G1 G2]. split; [done|]. intros i' Hi. rewrite Hrn, decide_False; [by apply G2|].
      rewrite (Hearly He Hin). lia.
    + intros E. specialize (L8 E). rewrite L8 in Hks. by destruct (queue p' p h').
Qed.

(** A rank another is ahead of has reduced its shard. *)
Lemma ahead b c : b ∈ blocks -> K = cur (hr st p) + 1 -> two (op_of st p) = true -> 0 <= c < chunks (op_of st p) ->
  blk (kr st p) b <> Done -> reduced_at (blk (kr st p) b) c = true.
Proof.
  intros Hb He Ht Hc Hnd. pose proof HI as [HR _]. pose proof (rank_of world r p Hp) as Hpr. destruct (HR p Hpr) as [_ M _ _ _ _ _].
  destruct (HR r Hr) as [_ _ _ [_ R2 _ _ _ _] _ _ [_ _ R3]].
  destruct (running load add store world grid threads rails colls count inp Hcount st p b HI Hpr Hb Hnd) as (HK & _ & _).
  destruct (R3 (cur (hr st p)) p Hp ltac:(lia) Ht) as [_ Hag]. specialize (Hag eq_refl c Hc).
  destruct (M ltac:(lia) Ht) as [_ _ _ _ _ M6 _ _]. by apply (M6 c Hag).
Qed.

(** The blocks of the receiver keep the flags they saw. *)
Lemma block_kept n' b : (forall ph' a c' h', flag (nr st p) ph' a c' h' = cur (hr st p) -> flag n' ph' a c' h' = cur (hr st p) \/ ph' = 0 /\ K = cur (hr st p) + 1) ->
  b ∈ blocks -> block_ok (cur (hr st p)) (op_of st p) p (kr st p) n' b.
Proof.
  intros Hkeep Hb. pose proof HI as [HR _]. pose proof (rank_of world r p Hp) as Hpr. destruct (HR p Hpr) as [B M _ _ _ _ _].
  pose proof (fun c => ahead b c Hb) as Hahead.
  destruct (B b Hb) as [Hbs Hbo]. split; [done|]. destruct (blk (kr st p) b) as [| |c todo|ph c pend seen|c todo seen|c todo seen| | |rung|]; try done.
  - destruct Hbo as (Ht & Hc & Hph & Hf & Hse). do 3 (split; [done|]). split; [|done]. intros Es q h' Hw Hn.
    destruct (Hkeep ph q c h' (Hf Es q h' Hw Hn)) as [|[-> He]]; [done|]. specialize (Hahead c He Ht Hc ltac:(done)). cbn in Hahead. lia.
  - destruct Hbo as (Ht & Hc & Hnd & Hin & Hf & Hse). do 4 (split; [done|]). split; [|done]. intros Es q h' Hw.
    destruct (Hkeep 0 q c h' (Hf Es q h' Hw)) as [|[_ He]]; [done|]. specialize (Hahead c He Ht Hc ltac:(done)). cbn in Hahead. lia.
  - destruct Hbo as (Ht & Hc & Hin & Hf & Hse). do 3 (split; [done|]). split; [|done]. intros Es q h' Hw.
    destruct (Hkeep 1 q c h' (Hf Es q h' Hw)) as [|[? _]]; done.
Qed.

(** The flag of the chunk whose packs have landed. *)
Lemma n_flag_inv w q : queue (pr st r) p h = w :: q -> w_todo w = [] ->
  inv (set_n (set_p st r (set_queue (pr st r) p h q)) p (write_flag (nr st p) (w_phase w) r (w_chunk w) h (w_seq w))).
Proof.
  intros Hq Hw. assert (Hin : w ∈ queue (pr st r) p h) by (rewrite Hq; apply list_elem_of_here).
  pose proof (fun E => early_phase w E Hin) as Hearly. pose proof (gathering w Hin) as Hga. destruct (this_link h Hh) as [L1 L2 L3 _ _ _ _ _].
  destruct (L2 w Hin) as (Hph & Hpo & Hsq & _ & _). rewrite Hsq. clear L2.
  pose proof (gap load add store world grid threads rails colls count inp st p HI (rank_of world r p Hp) r) as Hgap.
  specialize (Hgap ltac:(apply (peer_of world r Hr p Hp))).
  set (n' := write_flag _ _ _ _ _ _).
  assert (Hfn : forall ph' c' h', flag n' ph' r c' h' = if decide (w_phase w = ph' /\ w_chunk w = c' /\ h = h') then K else flag (nr st p) ph' r c' h').
  { intros ph' c' h'. unfold n'. rewrite flag_write. repeat case_decide; tauto. }
  assert (Hra : forall ph' a, a <> r -> flag n' ph' a = flag (nr st p) ph' a).
  { intros ph' a Ha. unfold n'. cbn. fn_split (w_phase w) ph'. by rewrite fn_lookup_insert_ne. }
  assert (Hre : recv n' = recv (nr st p)) by done. clearbody n'.
  assert (Hkeep : forall ph' a c' h', flag (nr st p) ph' a c' h' = cur (hr st p) -> flag n' ph' a c' h' = cur (hr st p) \/ ph' = 0 /\ K = cur (hr st p) + 1).
  { intros ph' a c' h' E. destruct (decide (a = r)) as [->|Hne]; [|left; by rewrite Hra].
    rewrite Hfn. destruct (decide (w_phase w = ph' /\ w_chunk w = c' /\ h = h')) as [(<- & <- & <-)|_]; [|by left].
    specialize (L1 (w_phase w) (w_chunk w)). destruct (decide (K = cur (hr st p))); [by left | right; split; [apply Hearly|]; lia]. }
  pose proof HI as [HR _]. destruct (HR p (rank_of world r p Hp)) as [B M _ _ _ _ _].
  apply landed_inv; try done; [by rewrite Hre | | |].
  - intros b Hb. by apply (block_kept _ _ Hkeep).
  - intros H1 H2. destruct (M H1 H2) as [M1 M2 M3 M4 M5 M6 M7 M8]. constructor; try done.
    intros b c Hb Hc Hz Hg p' h' Hph'. destruct (Hkeep 1 p' c h') as [|[? _]]; [by apply (M8 b c) | done | done].
  - intros h' Hh'. pose proof (this_link h' Hh') as L.
    destruct L as [G1 G2 G3 G4 G5 G6 G7 G8]. set (p' := set_queue (pr st r) p h q).
    assert (Hqs : queue p' p h' = if decide (h = h') then q else queue (pr st r) p h') by (unfold p'; rewrite queue_set; repeat case_decide; tauto).
    assert (Hpo' : forall ph c, posted K p' ph c <-> posted K (pr st r) ph c) by by apply posted_same.
    assert (Hls : last_seq p' = last_seq (pr st r)) by done.
    assert (Hsub : forall x, x ∈ queue p' p h' -> x ∈ queue (pr st r) p h') by (intros x; rewrite Hqs; destruct (decide (h = h')) as [<-|]; [rewrite Hq; set_solver | done]).
    clearbody p'. constructor; cbn; rewrite ?fn_lookup_insert, ?Hls, ?Hre; try done.
    + intros ph c. rewrite Hfn. destruct (decide (w_phase w = ph /\ w_chunk w = c /\ h = h')); [lia | apply G1].
    + intros x Hx. rewrite Hpo'. by apply G2, Hsub.
    + rewrite Hqs. destruct (decide (h = h')) as [<-|]; [|done]. rewrite Hq in G3. by inversion G3.
    + intros ph c Hph' H1. rewrite Hfn, Hpo', Hqs. specialize (G4 ph c Hph' H1).
      destruct (decide (h = h')) as [<-|Hne]; [|destruct (decide (w_phase w = ph /\ w_chunk w = c /\ h = h')) as [(_ & _ & ?)|_]; done].
      rewrite Hq in G3, G4. cbn in G3, G4. inversion_clear G3 as [|? ? Hk _].
      destruct (decide (w_phase w = ph /\ w_chunk w = c /\ h = h)) as [(<- & <- & _)|Hn]; [done|].
      rewrite G4, elem_of_cons. split; [intros [? ?]; split; [done | tauto] | intros [? ?]; split; [done|]]. intros [[= -> ->]|?]; [by apply Hn | done].
    + intros ph c i Hph' Hpc Hi. rewrite Hpo' in Hpc. destruct (G5 ph c i Hph' Hpc Hi) as [(x & Hx & Hxk & Hin')|G]; [left | by right].
      exists x. split; [|done]. rewrite Hqs. destruct (decide (h = h')) as [<-|]; [|done]. rewrite Hq in Hx.
      apply elem_of_cons in Hx as [->|]; [|done]. rewrite Hw in Hin'. by apply not_elem_of_nil in Hin'.
    + intros He H1 H2 c Hc. destruct (G6 He H1 H2 c Hc) as [E1 E2]. split; [|done]. destruct (Hkeep 1 r c h' E1) as [|[? _]]; done.
    + intros c H1 H2. rewrite Hfn. destruct (decide (w_phase w = 1 /\ w_chunk w = c /\ h = h')) as [(E1 & E2 & <-)|_]; [|by apply G7].
      intros E _. subst c. destruct (Hga E1 p Hp) as [_ Hrs]. rewrite <- E at 1. by apply Hrs.
    + intros E. specialize (G8 E). destruct (queue p' p h') as [|x l]; [done|]. specialize (Hsub x ltac:(apply list_elem_of_here)). rewrite G8 in Hsub. by apply not_elem_of_nil in Hsub.
Qed.
End Wire.

Lemma nstep_inv st st' r p h : inv st -> r ∈ ranks -> p ∈ others r -> 0 <= h < rails -> nstep r p h st st' -> inv st'.
Proof.
  intros HI Hr Hp Hh Hs. destruct Hs as [q1 w q2 l1 i v l2 Hq Hw|w q l1 i v l2 Hq Hw|w q Hq Hw].
  - by eapply n_read_inv.
  - by eapply n_write_inv.
  - by eapply n_flag_inv.
Qed.
End Steps.
