(* ===== verification/TwoShotSafe.v ===== *)
(** * Two-shot all-reduce: what every run keeps *)
From S2P Require Import Prelude TwoShotPlan TwoShot TwoShotInv TwoShotKernel TwoShotWire.
From stdpp Require Import functions.
#[local] Open Scope list_scope.
#[local] Open Scope Z_scope.

Section Runs.
Context {V A : Type} (load : V -> A) (add : A -> V -> A) (store : A -> V).
Context (world grid threads rails pipe_bytes : Z) (colls : Z -> collective) (count : Z) (inp : Z -> Z -> Z -> V).
#[local] Notation ranks := (TwoShotPlan.ranks world).
#[local] Notation first := (TwoShotPlan.first world).
#[local] Notation others := (TwoShotPlan.others world).
#[local] Notation stage_todo := (TwoShotPlan.stage_todo world grid threads).
#[local] Notation reduce_todo := (TwoShotPlan.reduce_todo world grid threads).
#[local] Notation gather_todo := (TwoShotPlan.gather_todo world grid threads).
#[local] Notation waiters := (TwoShotPlan.waiters world rails).
#[local] Notation stripe := (TwoShotPlan.stripe world rails).
#[local] Notation in_chunk := (TwoShotPlan.in_chunk world).
#[local] Notation reduced := (TwoShot.reduced load add store world inp).
#[local] Notation gst := (@TwoShot.gst V).
#[local] Notation krn := (@TwoShot.krn V).
#[local] Notation net := (@TwoShot.net V).
#[local] Notation prx := (@TwoShot.prx V).
#[local] Notation op_of := (TwoShot.op_of colls).
#[local] Notation blocks := (TwoShotInv.blocks grid).
#[local] Notation block_ok := (TwoShotInv.block_ok world grid threads rails).
#[local] Notation mem_ok := (TwoShotInv.mem_ok load add store world grid threads rails inp).
#[local] Notation words_ok := (TwoShotInv.words_ok grid).
#[local] Notation head_ok := (TwoShotInv.head_ok grid colls count).
#[local] Notation rank_ok := (TwoShotInv.rank_ok load add store world grid threads rails colls count inp).
#[local] Notation link_ok := (TwoShotInv.link_ok load add store world rails colls inp).
#[local] Notation facts_ok := (TwoShotInv.facts_ok world grid colls).
#[local] Notation peers_in := (TwoShotInv.peers_in world).
#[local] Notation flags_in := (TwoShotInv.flags_in world rails).
#[local] Notation moves := (TwoShotInv.moves load add store world grid threads inp).
#[local] Notation writes_ok := (TwoShotInv.writes_ok load add store world grid threads inp).
#[local] Notation zc := (TwoShotInv.zc grid).
#[local] Notation inv := (TwoShotInv.inv load add store world grid threads rails colls count inp).
#[local] Notation kstep := (TwoShot.kstep load add store world grid threads rails colls inp).
#[local] Notation proxy_ok := (TwoShotInv.proxy_ok colls).
#[local] Notation posted := (TwoShotInv.posted colls).
#[local] Notation payload := (TwoShotInv.payload load add store world inp).
#[local] Notation pstep := (TwoShot.pstep world rails pipe_bytes).
#[local] Notation nstep := TwoShot.nstep.
#[local] Notation launch := (TwoShot.launch grid colls count inp).
#[local] Notation step := (TwoShot.step load add store world grid threads rails pipe_bytes colls count inp).
#[local] Notation reach := (TwoShot.reach load add store world grid threads rails pipe_bytes colls count inp).
#[local] Notation fresh_region := (@TwoShot.fresh_region V).
Context (Hworld : 2 <= world) (Hgrid : 0 < grid) (Hdiv : (grid | 2 ^ 32)) (Hthreads : 0 < threads) (Hrails : 0 < rails)
  (Hcount : count < 2 ^ 32 - 1)
  (Hcolls : forall k, 1 <= k <= count -> two (colls k) = true -> pipe_valid world pipe_bytes (colls k) = true).



Lemma all_blocks (k : krn) f (v : bool) : (forall b, b ∈ blocks -> f (blk k b) = v) -> zc k f mod grid = 0.
Proof.
  intros Hf. assert (zc k f = zcount (fun _ => v) blocks) as -> by (by apply zcount_ext). rewrite zcount_const.
  assert (zlen blocks = grid) as -> by (unfold TwoShotInv.blocks; rewrite zrange_length; lia). destruct v; cbn [Z.b2z]; [rewrite Z.mul_1_l; apply Z.mod_same; lia | done].
Qed.

(** When no block is running, nothing is being counted. *)
Lemma counts_idle o (k : krn) ctr f : error k = 0 -> (forall b, b ∈ blocks -> forall c, f (blk k b) c = true) -> counts grid o k ctr f -> forall c, ctr c mod grid = 0.
Proof. intros Hz Hf Hc c. rewrite Hc by done. destruct (_ && _); [by apply (all_blocks k (fun q => f q c) true); auto | by rewrite Z.mod_0_l by lia]. Qed.
Lemma counts_new o (k : krn) ctr f : (forall b, b ∈ blocks -> forall c, 0 <= c -> f (blk k b) c = false) -> (forall c, ctr c mod grid = 0) -> counts grid o k ctr f.
Proof.
  intros Hf Hc c _. rewrite Hc. destruct (two o && (0 <=? c) && _) eqn:E; [|by rewrite Z.mod_0_l by lia].
  symmetry. apply (all_blocks k (fun q => f q c) false). intros b Hb. apply Hf; [done | lia].
Qed.

Section Launch.
Context (st : gst) (r : Z) (HI : inv st) (Hr : r ∈ ranks).
#[local] Notation K := (cur (hr st r)).
Context (Hdone : forall b, b ∈ blocks -> blk (kr st r) b = Done) (Hpo : poison (kr st r) = 0) (Hlt : K < count).
Context (out : Z -> V) (Hout : inplace (colls (K + 1)) = true -> out = inp (K + 1) r).
#[local] Notation k' := (launched (kr st r) out).
#[local] Notation h' := (Ctl (K + 1) (epoch (hr st r)) (door (hr st r)) (slots (hr st r))).

Lemma idle_error : error (kr st r) = 0.
Proof. by apply (this_poison load add store world grid threads rails colls count inp st r HI Hr). Qed.
Lemma idle_head : epoch (hr st r) = K /\ door (hr st r) = K /\ 0 <= K <= count.
Proof.
  destruct (this_head load add store world grid threads rails colls count inp st r HI Hr) as [H1 H2 H3 H4 H5 H6].
  specialize (H3 idle_error Hdone). lia.
Qed.
Lemma idle_last : 1 <= K -> two (colls K) = true -> last_seq (pr st r) = K.
Proof.
  intros H1 Ht. destruct idle_head as (He & Hd & _). destruct HI as [HR _]. destruct (HR r Hr) as [_ _ _ _ [P1 _ _ _ _ _] _ [_ M2 _]].
  specialize (M2 K ltac:(lia) Ht). lia.
Qed.
Lemma idle_queue p h : p ∈ others r -> 0 <= h < rails -> queue (pr st r) p h = [].
Proof.
  intros Hp Hh. destruct HI as [_ HL]. destruct (HL r p h Hr Hp Hh) as [_ L2 _ _ _ _ _ L8].
  destruct (queue (pr st r) p h) as [|w l] eqn:E; [done|]. destruct (L2 w ltac:(apply list_elem_of_here)) as (_ & (G1 & G2 & _) & _).
  by rewrite L8 by by apply idle_last.
Qed.
(** Nothing of the next collective is posted. *)
Lemma idle_posted ph c : ~ posted (K + 1) (pr st r) ph c.
Proof.
  intros (H1 & Ht & Hc & [Hl|(u & o & rs & ag & Hx & _)]); destruct idle_head as (He & Hd & _); destruct HI as [HR _];
    destruct (HR r Hr) as [_ _ _ _ [P1 P2 _ _ _ _] _ _]; [lia|]. unfold proxy_at in P2. rewrite Hx in P2. lia.
Qed.
Lemma idle_run u s o rs ag : prox (pr st r) <> PRun u s o rs ag.
Proof.
  intros Hx. destruct idle_head as (He & Hd & HK). pose proof HI as [HR _]. destruct (HR r Hr) as [_ _ _ _ [P1 P2 _ _ _ _] _ _].
  unfold proxy_at in P2. rewrite Hx in P2. destruct P2 as (Hs & -> & Hu & Ht & _). rewrite idle_last in Hs by (done || lia). lia.
Qed.

Lemma launch_rank : rank_ok (set_h (set_k st r k') r h') r.
Proof.
  destruct idle_head as (He & Hd & HK). pose proof idle_error as Hz. pose proof HI as [HR _].
  destruct (HR r Hr) as [B M [W1 W2 W3 W4 W5 W6] H [P1 P2 P3 P4 P5 P6] F [M1 M2 M3]].
  constructor; unfold TwoShot.op_of; cbn; rewrite ?fn_lookup_insert; cbn.
  - intros b Hb. by split.
  - intros _ Ht. constructor; cbn; try done; unfold pack_staged, pack_reduced, pack_gathered; cbn.
    + intros b c i _ _ _ _ [?|(? & ? & _)]; done.
    + intros c E. specialize (W1 c). lia.
    + intros j c i Hip _ _ _ _. by rewrite Hout.
    + intros b c i Hip _ _ _ _. by rewrite Hout.
    + intros b c i _ _ _ _ [?|(? & ? & ? & _)]; done.
    + intros c E. specialize (W2 c). lia.
    + intros b c i _ _ _ _ [?|(? & ? & ? & _)]; done.
  - constructor; cbn.
    + intros c. specialize (W1 c). lia.
    + intros c. specialize (W2 c). lia.
    + apply counts_new; [done|]. eapply counts_idle; eauto. intros b Hb c. by rewrite Hdone.
    + apply counts_new; [done|]. eapply counts_idle; eauto. intros b Hb c. by rewrite Hdone.
    + intros _. rewrite W5 by done. transitivity 0; [destruct (two (op_of st r)) | symmetry; destruct (two (colls (K + 1)))]; try by rewrite Z.mod_0_l by lia.
      * apply (all_blocks _ _ true). intros b Hb. by rewrite Hdone.
      * by apply (all_blocks _ _ false).
    + done.
  - constructor; cbn; try done; try lia. intros _ Hall. specialize (Hall 0). ospecialize (Hall _); [apply block_elem; lia | done].
  - constructor; cbn; rewrite ?fn_lookup_insert_ne; cbn; try done; try lia.
    unfold proxy_at in *. cbn. destruct (prox (pr st r)) eqn:Hx; try done. by destruct (idle_run _ _ _ _ _ Hx).
  - constructor; unfold TwoShot.op_of; cbn; rewrite ?fn_lookup_insert; cbn; [done|]. intros c _ _ E. specialize (W2 c). lia.
  - constructor; cbn; rewrite ?fn_lookup_insert; cbn; try done. intros s q Hq Hs Ht.
    apply others_elem in Hq as Hq'. rewrite !fn_lookup_insert_ne by lia. by apply M3.
Qed.

Lemma launch_inv : inv (set_h (set_k st r k') r h').
Proof.
  destruct idle_head as (He & Hd & HK). pose proof idle_error as Hz. pose proof launch_rank as Hrank. set (st' := set_h _ _ _) in *.
  assert (Hcr : cur (hr st' r) = K + 1) by (cbn; by rewrite fn_lookup_insert).
  assert (Hk : forall q, q <> r -> kr st' q = kr st q) by (intros q Hq; cbn; by rewrite fn_lookup_insert_ne).
  assert (Hh : forall q, q <> r -> hr st' q = hr st q) by (intros q Hq; cbn; by rewrite fn_lookup_insert_ne).
  assert (Hp : pr st' = pr st) by done. assert (Hn : nr st' = nr st) by done. clearbody st'. pose proof HI as [HR HL].
  assert (Hpe : forall q c, q <> r -> peers_in st q c -> peers_in st' q c).
  { intros q c Hq Hpi x Hx. destruct (Hpi x Hx) as [G1 G2]. rewrite (Hh q) by done. destruct (decide (x = r)) as [->|Hne]; [|by rewrite Hh, Hk].
    rewrite Hcr. split; [lia|]. lia. }
  constructor.
  - intros q Hq. destruct (decide (q = r)) as [->|Hne]; [done|]. destruct (HR q Hq) as [B M W H P [F1 F2] [M1 M2 M3]].
    constructor; unfold TwoShot.op_of; rewrite ?Hk, ?Hh, ?Hp, ?Hn by done; try done.
    + constructor; unfold TwoShot.op_of; rewrite ?Hk, ?Hh by done; eauto.
    + constructor; rewrite ?Hh, ?Hp by done; try done. intros s x Hx Hs Ht. destruct (M3 s x Hx Hs Ht) as [G1 G2].
      destruct (decide (x = r)) as [->|Hxr]; [rewrite Hcr; split; [lia | intros E; lia] | by rewrite Hh, Hk].
  - intros a p h Ha Hpo' Hhr. destruct (HL a p h Ha Hpo' Hhr) as [L1 L2 L3 L4 L5 L6 L7 L8]. apply others_elem in Hpo' as Hpa.
    destruct (decide (a = r)) as [->|Hne]; [|destruct (decide (p = r)) as [->|Hnp]].
    + rewrite idle_queue in * by done. destruct Hpa as [_ Hpa].
      constructor; rewrite ?Hcr, ?Hp, ?Hn, ?idle_queue, ?(Hh p), ?(Hk p) by done; try done.
      * intros ph c. specialize (L1 ph c). lia.
      * intros w Hw. by apply not_elem_of_nil in Hw.
      * intros ph c _ _. specialize (L1 ph c). pose proof (idle_posted ph c). split; [lia | tauto].
      * intros ph c i _ Hpost. by destruct (idle_posted ph c).
      * intros E H1 H2 c Hc. replace (cur (hr st p)) with K in * by lia.
        assert (Hpost : posted K (pr st r) 1 c) by (split; [done|]; split; [done|]; split; [done|]; left; by apply idle_last).
        split; [apply L4; [by right | done | split; [done | apply not_elem_of_nil]]|].
        intros i Hi. destruct (L5 1 c i ltac:(by right) Hpost Hi) as [(w & Hw & _)|E']; [by apply not_elem_of_nil in Hw | done].
    + pose proof (gap load add store world grid threads rails colls count inp st r HI Hr a ltac:(apply others_elem; apply zrange_elem in Ha; lia)) as Hgap.
      constructor; rewrite ?Hcr, ?Hp, ?Hn, ?(Hh a), ?(Hk a) by done; try done; [lia|].
      intros c H1 Ht Hf Hc. exfalso. specialize (L1 1 c). assert (Hgt : K < cur (hr st a)) by lia. replace (K + 1) with (cur (hr st a)) in * by lia.
      apply L4 in Hf as [Hpost _]; [|by right | lia]. destruct (HR a Ha) as [_ _ _ _ _ [_ F2] _].
      pose proof (posted_ready load add store world grid threads rails colls count inp st HI a 1 c Ha ltac:(by right) Hpost) as Hag.
      destruct (F2 c ltac:(lia) Ht Hag r Hpo'). lia.
    + constructor; rewrite ?Hp, ?Hn, ?(Hh a), ?(Hk a), ?(Hh p), ?(Hk p) by done; done.
Qed.
End Launch.

Lemma run_step_inv st st' : inv st -> step st st' -> inv st'.
Proof.
  intros HI [r b Hr Hb Hs|r Hr Hs|r Hr Hs|r p h Hr Hp Hh Hs].
  - eapply kstep_inv; eauto.
  - destruct Hs as [out Hall Hpo Hlt Hout]. apply launch_inv; try done. intros b Hb%block_elem. by apply Hall.
  - eapply pstep_inv; eauto.
  - eapply nstep_inv; eauto.
Qed.

Lemma fresh_inv st : 0 <= count -> fresh_region st -> inv st.
Proof.
  intros Hc0 Hf. constructor.
  - intros r Hr. destruct (Hf r) as (F1 & F2 & F3 & F4 & F5 & F6 & F7 & F8 & F9 & F10 & F11 & F12 & F13 & F14 & F15).
    assert (Hz : forall f (g : Z -> Z), (forall c, g c = 0) -> (forall c, f Done c = true) -> counts grid (op_of st r) (kr st r) g f).
    { intros f g Hg Hfd c _. rewrite Hg, Z.mod_0_l by lia. destruct (_ && _); [|by rewrite Z.mod_0_l by lia].
      symmetry. apply (all_blocks _ _ true). intros b Hb. by rewrite F1. }
    constructor; rewrite ?F6; try lia.
    + intros b Hb. split; by rewrite F1.
    + constructor; try (intros c; destruct (F4 c) as (? & ? & ? & ?); lia); try (apply Hz; [intros c; by destruct (F4 c) as (? & ? & ? & ?) | done]); [|lia].
      intros _. rewrite F5, Z.mod_0_l by lia. destruct (two _); [|by rewrite Z.mod_0_l by lia]. symmetry. apply (all_blocks _ _ true). intros b Hb. by rewrite F1.
    + constructor; rewrite ?F6, ?F7, ?F8; try done; try lia; right. by split.
    + assert (Ht : taken (pr st r) = 0) by (unfold taken; by rewrite F10). constructor; rewrite ?F6, ?F8, ?F9, ?F13; try done; try lia. unfold proxy_at; by rewrite F10.
    + constructor; rewrite ?F6; [|lia]. intros b c Hb Hc Hz0 Htw Hre q Hq. destruct (Hf q) as (_ & _ & _ & G4 & _ & G6 & _). rewrite F6, G6.
      split; [lia|]. intros _. by destruct (G4 c) as (_ & _ & ? & _).
    + constructor; rewrite ?F7; lia.
  - intros r p h Hr Hp Hh. destruct (Hf r) as (F1 & F2 & F3 & F4 & F5 & F6 & F7 & F8 & F9 & F10 & F11 & F12 & F13 & F14 & F15).
    destruct (Hf p) as (_ & _ & _ & _ & _ & G6 & _ & _ & _ & _ & _ & _ & _ & _ & G15).
    constructor; rewrite ?F6, ?F14, ?G6; try lia; try done; [intros ph c; by rewrite G15 | intros w Hw; by apply not_elem_of_nil in Hw | constructor | intros ph c i _ (? & _); lia].
Qed.

Lemma reach_inv st : 0 <= count -> reach st -> inv st.
Proof. intros Hc0. induction 1 as [st Hf|st st' _ IH Hs]; [by apply fresh_inv | by eapply run_step_inv]. Qed.

Lemma ended_output st r : inv st -> r ∈ ranks -> 1 <= cur (hr st r) -> two (op_of st r) = true ->
  (forall b, 0 <= b < grid -> blk (kr st r) b = Done) -> error (kr st r) = 0 ->
  forall i, 0 <= i < packs (op_of st r) -> buf (kr st r) i = reduced (cur (hr st r)) i.
Proof.
  intros [HR _] Hr H1 Ht Hall Hz i Hi. destruct (HR r Hr) as [_ M _ [G1 _ _ _ _ _] _ _ _]. destruct (M H1 Ht) as [_ _ _ _ M5 _ M7 _].
  destruct (coll_valid world pipe_bytes colls count Hcolls (cur (hr st r)) ltac:(lia) Ht) as (Hpk & Hcp & _ & Hcov).
  destruct (in_chunk_cover world ltac:(lia) (op_of st r) i Hcov Hcp Hi) as (j & c & Hj & Hc & Hch).
  destruct (decide (j = r)) as [->|Hne].
  - destruct (reduce_todo_cover world grid threads colls Hgrid Hthreads st r c i Hch) as (b & Hb & Hin).
    apply (M5 b c i); try done. left. by rewrite (Hall b) by by apply block_elem.
  - destruct (stage_todo_cover world grid threads colls Hgrid Hthreads st r c j i) as (b & Hb & Hin); [apply others_elem; lia | done|].
    apply (M7 b c i); try done. left. by rewrite (Hall b) by by apply block_elem.
Qed.
End Runs.
