(* ===== verification/TwoShotRun.v ===== *)
(** * Two-shot all-reduce: an executable schedule, and the theorems of a run

    [act] performs one healthy step of a chosen actor, so concrete runs evaluate; the theorems
    are about every run of [TwoShot.step], failures and timeouts included. *)
From S2P Require Import Prelude TwoShotPlan TwoShot TwoShotInv TwoShotKernel TwoShotWire TwoShotSafe.
From stdpp Require Import functions.
#[local] Open Scope list_scope.
#[local] Open Scope Z_scope.

(** Who moves next. *)
Inductive actor := Stream (r : Z) | Block (r b : Z) | Proxy (r : Z) | Nic (r p h : Z).

Section Schedule.
Context {V A : Type} (load : V -> A) (add : A -> V -> A) (store : A -> V).
Context (world grid threads rails pipe_bytes : Z) (colls : Z -> collective) (count : Z) (inp : Z -> Z -> Z -> V).
#[local] Notation ranks := (TwoShotPlan.ranks world).
#[local] Notation first := (TwoShotPlan.first world).
#[local] Notation others := (TwoShotPlan.others world).
#[local] Notation stage_todo := (TwoShotPlan.stage_todo world grid threads).
#[local] Notation chunk_lo := (TwoShotPlan.chunk_lo world).
#[local] Notation chunk_hi := (TwoShotPlan.chunk_hi world).
#[local] Notation gst := (@TwoShot.gst V).
#[local] Notation op_of := (TwoShot.op_of colls).
#[local] Notation input_at := (TwoShot.input_at colls inp).
#[local] Notation source_at := (TwoShot.source_at world colls inp).
#[local] Notation step := (TwoShot.step load add store world grid threads rails pipe_bytes colls count inp).
#[local] Notation reach := (TwoShot.reach load add store world grid threads rails pipe_bytes colls count inp).

Definition is_done (q : pc) : bool := match q with Done => true | _ => false end.

Definition act_stream (r : Z) (st : gst) : option gst :=
  if forallb (fun b => is_done (blk (kr st r) b)) (zrange 0 grid) && (poison (kr st r) =? 0) && (cur (hr st r) <? count)
  then Some (set_h (set_k st r (launched (kr st r) (inp (cur (hr st r) + 1) r))) r
                   (Ctl (cur (hr st r) + 1) (epoch (hr st r)) (door (hr st r)) (slots (hr st r))))
  else None.

Definition act_block (r b : Z) (st : gst) : option gst :=
  let k := kr st r in
  let go q := Some (set_k st r (goto k b q)) in
  match blk k b with
  | Start =>
      if negb (u32 (epoch (hr st r) + 1) =? 0) && (poison k =? 0) && two (op_of st r)
      then Some (set_k st r (goto (read_seq k b (u32 (epoch (hr st r) + 1))) b (if b =? 0 then Ring else Stage 0 (stage_todo (op_of st r) r b 0))))
      else None
  | Ring => Some (set_h (set_k st r (goto k b (Stage 0 (stage_todo (op_of st r) r b 0)))) r (ring (hr st r) (bseq k b) (op_of st r)))
  | Stage c (i :: l) => Some (set_k st r (goto (put_send k i (input_at st r i)) b (Stage c l)))
  | Stage c [] => Some (set_k st r (goto (arrive_stage grid k (bseq k b) c) b (after_stage world grid threads rails (op_of st r) r b c)))
  | Wait ph c ((p, h) :: l) seen => if flag (nr st r) ph p c h =? bseq k b then go (Wait ph c l seen) else None
  | Wait ph c [] seen => go (after_wait world grid threads (op_of st r) r b ph c seen)
  | Reduce c (i :: l) true =>
      let v := reduce_words load add store (input_at st r i) (map (source_at st r i) ranks) in
      Some (set_k st r (goto (put_send (put_out k i v) i v) b (Reduce c l true)))
  | Reduce c [] seen => Some (set_k st r (goto (arrive_reduce grid k (bseq k b) c) b (after_reduce world rails (op_of st r) r c)))
  | Gather c (i :: l) true =>
      match List.find (fun j => (chunk_lo (op_of st r) j c <=? i) && (i <? chunk_hi (op_of st r) j c)) (others r) with
      | Some j => Some (set_k st r (goto (put_out k i (recv (nr st r) j 1 (i - first (op_of st r) j))) b (Gather c l true)))
      | None => None
      end
  | Gather c [] seen => go (after_gather world rails (op_of st r) r c)
  | Tail => Some (set_k st r (goto (arrive_tail k) b (if is_last grid (tctr k) && (error k =? 0) then Spin else Done)))
  | Spin => if pdone (pr st r) =? bseq k b then Some (set_h (set_k st r (goto k b Done)) r (set_epoch (hr st r) (bseq k b))) else None
  | _ => None
  end.

Definition drained (p : @prx V) (r : Z) : bool :=
  forallb (fun q => forallb (fun h => match queue p q h with [] => true | _ => false end) (zrange 0 rails)) (others r).

Definition act_proxy (r : Z) (st : gst) : option gst :=
  let p := pr st r in
  if failed p then None else
  match prox p with
  | PIdle => if door (hr st r) =? last_seq p then None else Some (set_p st r (polled p (door (hr st r))))
  | PLoop u => if last_seq p =? u then Some (set_p st r (goto_p p PIdle)) else Some (set_p st r (taking world pipe_bytes p u (slots (hr st r))))
  | POne u s => Some (set_p st r (finish p s (PLoop u)))
  | PRun u s o rs ag =>
      if (rs <? chunks o) && (rs_word (kr st r) rs =? s) then Some (set_p st r (post world rails p o s r 0 rs (PRun u s o (rs + 1) ag)))
      else if (ag <? chunks o) && (ag_word (kr st r) ag =? s) then Some (set_p st r (post world rails p o s r 1 ag (PRun u s o rs (ag + 1))))
      else if (chunks o <=? rs) && (chunks o <=? ag) && drained p r then Some (set_p st r (release p s (PLoop u)))
      else None
  end.

Definition act_nic (r p h : Z) (st : gst) : option gst :=
  match queue (pr st r) p h with
  | [] => None
  | w :: q =>
      match w_todo w with
      | [] => Some (set_n (set_p st r (set_queue (pr st r) p h q)) p (write_flag (nr st p) (w_phase w) r (w_chunk w) h (w_seq w)))
      | (i, None) :: l => Some (set_p st r (set_queue (pr st r) p h (with_todo w ((i, Some (psend (kr st r) i)) :: l) :: q)))
      | (i, Some v) :: l => Some (set_n (set_p st r (set_queue (pr st r) p h (with_todo w l :: q))) p (write_recv (nr st p) r (w_phase w) (i - w_base w) v))
      end
  end.

Definition act (a : actor) (st : gst) : option gst :=
  match a with
  | Stream r => act_stream r st
  | Block r b => act_block r b st
  | Proxy r => act_proxy r st
  | Nic r p h => act_nic r p h st
  end.
Definition actor_in (a : actor) : Prop :=
  match a with
  | Stream r | Proxy r => r ∈ ranks
  | Block r b => r ∈ ranks /\ 0 <= b < grid
  | Nic r p h => r ∈ ranks /\ p ∈ others r /\ 0 <= h < rails
  end.

Lemma block_step r b st st' : act_block r b st = Some st' -> kstep load add store world grid threads rails colls inp r b st st'.
Proof.
  unfold act_block. destruct (blk (kr st r) b) as [| |c [|i l]|ph c [|[p h] l] seen|c [|i l] [|]|c [|i l] [|]| | |rung|] eqn:Hpc; intros H; simplify_eq.
  - case_match eqn:E; simplify_eq. apply andb_prop in E as [[E1%negb_true_iff%Z.eqb_neq E2%Z.eqb_eq]%andb_prop E3]. by apply k_start.
  - by apply k_ring.
  - by apply k_staged.
  - by apply (k_stage _ _ _ _ _ _ _ _ _ _ _ _ c [] i l).
  - by apply k_waited.
  - case_match eqn:E; simplify_eq. apply Z.eqb_eq in E. by apply (k_seen _ _ _ _ _ _ _ _ _ _ _ _ ph c [] p h l seen).
  - by eapply k_reduced.
  - by eapply k_reduced.
  - by apply (k_reduce _ _ _ _ _ _ _ _ _ _ _ _ c [] i l).
  - by eapply k_gathered.
  - by eapply k_gathered.
  - case_match eqn:E; simplify_eq. apply List.find_some in E as [Hj%list_elem_of_In [E1%Z.leb_le E2%Z.ltb_lt]%andb_prop].
    by apply (k_gather _ _ _ _ _ _ _ _ _ _ _ _ c [] i l).
  - by apply k_tail.
  - case_match eqn:E; simplify_eq. apply Z.eqb_eq in E. by apply k_released.
Qed.

Lemma proxy_step r st st' : act_proxy r st = Some st' -> pstep world rails pipe_bytes r st st'.
Proof.
  unfold act_proxy. destruct (failed (pr st r)) eqn:Hf; [done|]. destruct (prox (pr st r)) as [|u|u s|u s o rs ag] eqn:Hx.
  - case_match eqn:E; intros H; simplify_eq. apply Z.eqb_neq in E. by constructor.
  - case_match eqn:E; intros H; simplify_eq; [apply Z.eqb_eq in E | apply Z.eqb_neq in E]; by econstructor.
  - intros [= <-]. by econstructor.
  - destruct ((rs <? chunks o) && _) eqn:E1; [intros [= <-]; apply andb_prop in E1 as [?%Z.ltb_lt ?%Z.eqb_eq]; by constructor|].
    destruct ((ag <? chunks o) && _) eqn:E2; [intros [= <-]; apply andb_prop in E2 as [?%Z.ltb_lt ?%Z.eqb_eq]; by constructor|].
    destruct (_ && drained _ _) eqn:E3; [|done]. intros [= <-]. apply andb_prop in E3 as [[?%Z.leb_le ?%Z.leb_le]%andb_prop Hd].
    econstructor; eauto. intros p h Hp%list_elem_of_In Hh. unfold drained in Hd. rewrite forallb_forall in Hd. specialize (Hd p Hp).
    rewrite forallb_forall in Hd. specialize (Hd h). rewrite <- list_elem_of_In, zrange_elem in Hd. specialize (Hd Hh). by destruct (queue (pr st r) p h).
Qed.

Lemma act_step a st st' : actor_in a -> act a st = Some st' -> step st st'.
Proof.
  destruct a as [r|r b|r|r p h]; cbn [act actor_in].
  - intros Hr. unfold act_stream. case_match eqn:E; [|done]. intros [= <-].
    apply andb_prop in E as [[E1 E2%Z.eqb_eq]%andb_prop E3%Z.ltb_lt]. eapply s_launch; [done|]. constructor; try done.
    intros b Hb. rewrite forallb_forall in E1. specialize (E1 b). rewrite <- list_elem_of_In, zrange_elem in E1. specialize (E1 Hb). by destruct (blk (kr st r) b).
  - intros [Hr Hb] H. eapply s_kernel; [done | done | by apply block_step].
  - intros Hr H. eapply s_proxy; [done | by apply proxy_step].
  - intros (Hr & Hp & Hh) H. eapply s_nic; [done.. |]. unfold act_nic in H. destruct (queue (pr st r) p h) as [|w q] eqn:Hq; [done|].
    destruct (w_todo w) as [|[i [v|]] l] eqn:Hw; simplify_eq.
    + by constructor.
    + by apply (n_write _ _ _ _ w q [] i v l).
    + by apply (n_read _ _ _ _ [] w q [] i None l).
Qed.

(** Every actor in turn moves if it can. *)
Definition actors : list actor :=
  flat_map (fun r => Stream r :: map (Block r) (zrange 0 grid) ++ Proxy r :: flat_map (fun p => map (Nic r p) (zrange 0 rails)) (others r)) ranks.
Definition turn (st : gst) : gst := fold_left (fun st a => default st (act a st)) actors st.

Lemma actors_in a : a ∈ actors <-> actor_in a.
Proof.
  unfold actors. rewrite list_elem_of_In, in_flat_map. split.
  - intros (r & Hr%list_elem_of_In & Ha). cbn in Ha. rewrite in_app_iff in Ha. cbn in Ha.
    destruct Ha as [<-|[(b & <- & Hb%list_elem_of_In%zrange_elem)%in_map_iff|[<-|(p & Hp%list_elem_of_In & (h & <- & Hh%list_elem_of_In%zrange_elem)%in_map_iff)%in_flat_map]]]; cbn; auto.
  - destruct a as [r|r b|r|r p h]; cbn; [intros Hr | intros [Hr Hb] | intros Hr | intros (Hr & Hp & Hh)]; exists r; (split; [by apply list_elem_of_In|]); cbn; rewrite in_app_iff; cbn.
    + by left.
    + right. left. apply in_map. by apply list_elem_of_In, zrange_elem.
    + right. right. by left.
    + right. right. right. apply in_flat_map. exists p. split; [by apply list_elem_of_In|]. apply in_map. by apply list_elem_of_In, zrange_elem.
Qed.

Lemma turns_reach n st : reach st -> reach (Nat.iter n turn st).
Proof.
  intros H. induction n as [|n IH]; [done|]. cbn. unfold turn.
  assert (G : forall l st0, (forall a, a ∈ l -> actor_in a) -> reach st0 -> reach (fold_left (fun st a => default st (act a st)) l st0)).
  { induction l as [|a l IHl]; intros st0 Hin H0; [done|]. cbn. apply IHl; [intros a' Ha'; apply Hin; by right|].
    destruct (act a st0) as [st1|] eqn:Ha; [|done]. eapply r_step; [done|]. eapply act_step; [|done]. apply Hin. by left. }
  apply G; [apply actors_in | done].
Qed.
End Schedule.

(** ** The theorems of a run *)

(** A run's parameters: a power-of-two grid, and collectives that [all_reduce] made of tensors. *)
Record setting (world grid threads rails pipe_bytes cmin count : Z) (colls : Z -> collective) : Prop := Setting {
  st_world : 2 <= world; st_grid : 0 < grid; st_div : (grid | 2 ^ 32); st_threads : 0 < threads; st_rails : 0 < rails;
  st_cmin : 0 < cmin; st_count : 0 <= count < 2 ^ 32 - 1;
  st_colls : forall k, 1 <= k <= count ->
    exists shape esize min_rows ip, all_reduce_op shape esize pipe_bytes min_rows cmin world ip = Ok (colls k)
}.

Lemma setting_valid world grid threads rails pipe_bytes cmin count colls : setting world grid threads rails pipe_bytes cmin count colls ->
  forall k, 1 <= k <= count -> two (colls k) = true -> pipe_valid world pipe_bytes (colls k) = true.
Proof.
  intros [Hw _ _ _ _ Hc _ Hs] k Hk Ht. destruct (Hs k Hk) as (shape & esize & mr & ip & Ho).
  assert (Hw0 : 0 < world) by lia. pose proof (all_reduce_op_two _ _ _ _ _ _ _ _ Hw0 Hc Ho Ht). unfold pipe_valid.
  rewrite !andb_true_iff, !Z.ltb_lt, !Z.leb_le, Z.eqb_eq. lia.
Qed.

(** ** A concrete run: two ranks, two collectives of six packs, the second in place *)

Definition demo_colls (k : Z) : collective :=
  match all_reduce_op [2; 24] 2 128 1 1 2 (k =? 2) with Ok o => o | Raise _ => Coll false 0 0 0 false end.
Definition demo_inp (k r i : Z) : Z := 100 * k + 10 * r + i.
Definition demo_start : @gst Z :=
  G (fun _ => Krn (fun _ => Done) (fun _ => 0) 0 0 (fun _ => 0) (fun _ => 0) 0 (fun _ => 0) (fun _ => 0) (fun _ => 0) (fun _ => 0))
    (fun _ => Ctl 0 0 0 (fun _ => Slot 0 0 0 0)) (fun _ => Prx 0 PIdle false false 0 (fun _ _ => []))
    (fun _ => Net (fun _ _ _ => 0) (fun _ _ _ _ => 0)).
Definition demo_run (n : nat) : gst := Nat.iter n (turn id Z.add id 2 2 1 2 128 demo_colls 2 demo_inp) demo_start.

Lemma demo_setting : setting 2 2 1 2 128 1 2 demo_colls.
Proof.
  constructor; try lia; [by exists (2 ^ 31)|]. intros k Hk. exists [2; 24], 2, 1, (k =? 2). unfold demo_colls. by destruct (k =? 2).
Qed.
Lemma demo_reach n : reach id Z.add id 2 2 1 2 128 demo_colls 2 demo_inp (demo_run n).
Proof. apply turns_reach. by constructor. Qed.

(** C8: In every run of the two-shot all-reduce (any interleaving of blocks, proxies and NICs, with
    timeouts and failed proxies), a rank whose kernel ended without an error holds the pack the
    one-shot kernel would store, the sum over all ranks in rank order, at every position of the
    message; in place as well, and its epoch is the collective's sequence. *)
Theorem two_shot_all_reduce {V A} (load : V -> A) (add : A -> V -> A) (store : A -> V) world grid threads rails pipe_bytes cmin count colls inp st r :
  setting world grid threads rails pipe_bytes cmin count colls ->
  reach load add store world grid threads rails pipe_bytes colls count inp st ->
  r ∈ ranks world -> 1 <= cur (hr st r) -> two (op_of colls st r) = true ->
  (forall b, 0 <= b < grid -> blk (kr st r) b = Done) -> error (kr st r) = 0 ->
  epoch (hr st r) = cur (hr st r)
  /\ forall i, 0 <= i < packs (op_of colls st r) -> buf (kr st r) i = reduced load add store world inp (cur (hr st r)) i.
Proof.
  intros S Hreach Hr H1 Ht Hall Hz. pose proof (setting_valid _ _ _ _ _ _ _ _ S) as Hv. destruct S as [Hw Hg Hd Hth Hra Hc [Hc0 Hc1] _].
  assert (HI : inv load add store world grid threads rails colls count inp st) by (eapply reach_inv; eauto).
  split; [|by eapply (ended_output load add store world grid threads rails)].
  destruct (this_head load add store world grid threads rails colls count inp st r HI Hr) as [_ _ H3 _ _ _].
  apply H3; [done|]. intros b Hb. apply Hall. by apply block_elem in Hb.
Qed.

Lemma two_shot_all_reduce_witness : epoch (hr (demo_run 80) 1) = 2
  /\ forall i, 0 <= i < 6 -> buf (kr (demo_run 80) 1) i = reduced id Z.add id 2 demo_inp 2 i.
Proof.
  apply (two_shot_all_reduce id Z.add id 2 2 1 2 128 1 2 demo_colls demo_inp (demo_run 80) 1 demo_setting (demo_reach 80)).
  - by apply zrange_elem.
  - by vm_compute.
  - by vm_compute.
  - intros b Hb. assert (b = 0 \/ b = 1) as [-> | ->] by lia; by vm_compute.
  - by vm_compute.
Defined.

(** No proxy refuses a doorbell: in every run, what a thread polls is at most two collectives
    ahead (the slots of the region), and the record it takes up is one it accepts, so a proxy stops
    only for a cause outside (a failed completion, a stop, a kernel's error). *)
Theorem doorbell_never_refused {V A} (load : V -> A) (add : A -> V -> A) (store : A -> V) world grid threads rails pipe_bytes cmin count colls inp st r :
  setting world grid threads rails pipe_bytes cmin count colls ->
  reach load add store world grid threads rails pipe_bytes colls count inp st -> r ∈ ranks world -> failed (pr st r) = false ->
  (prox (pr st r) = PIdle -> failed (polled (pr st r) (door (hr st r))) = false)
  /\ forall u, prox (pr st r) = PLoop u -> last_seq (pr st r) <> u -> failed (taking world pipe_bytes (pr st r) u (slots (hr st r))) = false.
Proof.
  intros S Hreach Hr Hf. pose proof (setting_valid _ _ _ _ _ _ _ _ S) as Hv. destruct S as [Hw Hg Hd Hth Hra Hc [Hc0 Hc1] _].
  assert (HI : inv load add store world grid threads rails colls count inp st) by (eapply reach_inv; eauto). split.
  - intros Hx. by erewrite polls.
  - intros u Hx Hne. by erewrite takes.
Qed.
