(* ===== verification/TwoShotLive.v ===== *)
(** * Two-shot all-reduce: a healthy run is never stuck

    While no rank has failed, some actor of [TwoShotRun.act] can move until every rank ended its
    last collective: no wait of a block, a proxy or a release is for something nobody will do. *)
From S2P Require Import Prelude TwoShotPlan TwoShot TwoShotInv TwoShotKernel TwoShotWire TwoShotSafe TwoShotRun.
From stdpp Require Import functions.
#[local] Open Scope list_scope.
#[local] Open Scope Z_scope.

Lemma least (f : Z -> Z) (l : list Z) x : x ∈ l -> exists m, m ∈ l /\ forall y, y ∈ l -> f m <= f y.
Proof.
  revert x. induction l as [|a l IH]; intros x Hx; [by apply not_elem_of_nil in Hx|]. destruct l as [|a' l].
  - exists a. split; [by left|]. intros y ->%list_elem_of_singleton. lia.
  - destruct (IH a' ltac:(by left)) as (m & Hm & Hle). destruct (Z.le_gt_cases (f a) (f m)).
    + exists a. split; [by left|]. intros y [->|Hy]%elem_of_cons; [lia|]. specialize (Hle y Hy). lia.
    + exists m. split; [by right|]. intros y [->|Hy]%elem_of_cons; [lia | auto].
Qed.

Section Live.
Context {V A : Type} (load : V -> A) (add : A -> V -> A) (store : A -> V).
Context (world grid threads rails pipe_bytes : Z) (colls : Z -> collective) (count : Z) (inp : Z -> Z -> Z -> V).
#[local] Notation ranks := (TwoShotPlan.ranks world).
#[local] Notation first := (TwoShotPlan.first world).
#[local] Notation others := (TwoShotPlan.others world).
#[local] Notation stage_todo := (TwoShotPlan.stage_todo world grid threads).
#[local] Notation reduce_todo := (TwoShotPlan.reduce_todo world grid threads).
#[local] Notation gather_todo := (TwoShotPlan.gather_todo world grid threads).
#[local] Notation waiters := (TwoShotPlan.waiters world rails).
#[local] Notation stripe := (TwoShotPlan.stripe world rails).
#[local] Notation in_chunk := (TwoShotPlan.in_chunk world).
#[local] Notation reduced := (TwoShot.reduced load add store world inp).
#[local] Notation gst := (@TwoShot.gst V).
#[local] Notation krn := (@TwoShot.krn V).
#[local] Notation net := (@TwoShot.net V).
#[local] Notation prx := (@TwoShot.prx V).
#[local] Notation op_of := (TwoShot.op_of colls).
#[local] Notation blocks := (TwoShotInv.blocks grid).
#[local] Notation block_ok := (TwoShotInv.block_ok world grid threads rails).
#[local] Notation mem_ok := (TwoShotInv.mem_ok load add store world grid threads rails inp).
#[local] Notation words_ok := (TwoShotInv.words_ok grid).
#[local] Notation head_ok := (TwoShotInv.head_ok grid colls count).
#[local] Notation rank_ok := (TwoShotInv.rank_ok load add store world grid threads rails colls count inp).
#[local] Notation link_ok := (TwoShotInv.link_ok load add store world rails colls inp).
#[local] Notation facts_ok := (TwoShotInv.facts_ok world grid colls).
#[local] Notation peers_in := (TwoShotInv.peers_in world).
#[local] Notation flags_in := (TwoShotInv.flags_in world rails).
#[local] Notation moves := (TwoShotInv.moves load add store world grid threads inp).
#[local] Notation writes_ok := (TwoShotInv.writes_ok load add store world grid threads inp).
#[local] Notation zc := (TwoShotInv.zc grid).
#[local] Notation inv := (TwoShotInv.inv load add store world grid threads rails colls count inp).
#[local] Notation kstep := (TwoShot.kstep load add store world grid threads rails colls inp).
#[local] Notation proxy_ok := (TwoShotInv.proxy_ok colls).
#[local] Notation posted := (TwoShotInv.posted colls).
#[local] Notation payload := (TwoShotInv.payload load add store world inp).
#[local] Notation pstep := (TwoShot.pstep world rails pipe_bytes).
#[local] Notation nstep := TwoShot.nstep.
#[local] Notation launch := (TwoShot.launch grid colls count inp).
#[local] Notation step := (TwoShot.step load add store world grid threads rails pipe_bytes colls count inp).
#[local] Notation reach := (TwoShot.reach load add store world grid threads rails pipe_bytes colls count inp).
#[local] Notation fresh_region := (@TwoShot.fresh_region V).
#[local] Notation act := (TwoShotRun.act load add store world grid threads rails pipe_bytes colls count inp).
#[local] Notation actor_in := (TwoShotRun.actor_in world grid rails).
Context (Hworld : 2 <= world) (Hgrid : 0 < grid) (Hdiv : (grid | 2 ^ 32)) (Hthreads : 0 < threads) (Hrails : 0 < rails)
  (Hcount : count < 2 ^ 32 - 1)
  (Hcolls : forall k, 1 <= k <= count -> two (colls k) = true -> pipe_valid world pipe_bytes (colls k) = true).




(** What was counted has been published, and what was released is done. *)
Record prog_ok (st : gst) (r : Z) : Prop := ProgOk {
  pg_rs : forall c, error (kr st r) = 0 -> two (op_of st r) = true -> 1 <= cur (hr st r) -> 0 <= c < chunks (op_of st r) ->
    (forall b, b ∈ blocks -> staged (blk (kr st r) b) c = true) -> rs_word (kr st r) c = cur (hr st r);
  pg_ag : forall c, error (kr st r) = 0 -> two (op_of st r) = true -> 1 <= cur (hr st r) -> 0 <= c < chunks (op_of st r) ->
    (forall b, b ∈ blocks -> reduced_at (blk (kr st r) b) c = true) -> ag_word (kr st r) c = cur (hr st r);
  pg_door : error (kr st r) = 0 -> two (op_of st r) = true -> blk (kr st r) 0 = Start \/ blk (kr st r) 0 = Ring \/ door (hr st r) = cur (hr st r);
  pg_pend : forall b ph c pend seen, b ∈ blocks -> blk (kr st r) b = Wait ph c pend seen -> forall x, x ∈ pend -> x ∈ waiters r;
  pg_done : 1 <= last_seq (pr st r) -> two (colls (last_seq (pr st r))) = true -> pdone (pr st r) = last_seq (pr st r)
}.

(** Another rank's step. *)
Lemma prog_other st st' r : kr st' r = kr st r -> hr st' r = hr st r -> last_seq (pr st' r) = last_seq (pr st r) -> pdone (pr st' r) = pdone (pr st r) ->
  prog_ok st r -> prog_ok st' r.
Proof. intros Hk Hh Hl Hd [P1 P2 P3 P4 P5]. constructor; unfold TwoShot.op_of in *; rewrite ?Hk, ?Hh, ?Hl, ?Hd; done. Qed.

Section Move.
Context (st : gst) (r b : Z) (HI : inv st) (Hr : r ∈ ranks) (Hb : b ∈ blocks) (HP : prog_ok st r).
#[local] Notation K := (cur (hr st r)).

(** A block moves: what it newly arrived for is published. *)
Lemma prog_move (st' : gst) q : (kr st' r).(blk) = <[b := q]> (blk (kr st r)) ->
  cur (hr st' r) = K -> pr st' r = pr st r -> (error (kr st' r) = 0 -> error (kr st r) = 0) ->
  (forall c, rs_word (kr st r) c = K -> rs_word (kr st' r) c = K) -> (forall c, ag_word (kr st r) c = K -> ag_word (kr st' r) c = K) ->
  (error (kr st' r) = 0 -> two (op_of st r) = true -> forall c, 0 <= c < chunks (op_of st r) ->
     (staged q c = true -> (forall b', b' ∈ blocks -> staged (blk (kr st' r) b') c = true) -> staged (blk (kr st r) b) c = true \/ rs_word (kr st' r) c = K)
     /\ (reduced_at q c = true -> (forall b', b' ∈ blocks -> reduced_at (blk (kr st' r) b') c = true) -> reduced_at (blk (kr st r) b) c = true \/ ag_word (kr st' r) c = K)) ->
  (error (kr st' r) = 0 -> two (op_of st r) = true -> b = 0 /\ (q = Start \/ q = Ring) \/ door (hr st' r) = K
     \/ door (hr st' r) = door (hr st r) /\ (b = 0 -> blk (kr st r) 0 <> Start /\ blk (kr st r) 0 <> Ring)) ->
  (forall ph c pend seen, q = Wait ph c pend seen -> forall x, x ∈ pend -> x ∈ waiters r) ->
  prog_ok st' r.
Proof.
  intros Hq Hc Hp He Hrs Hag Hnew Hdo Hpe. destruct HP as [P1 P2 P3 P4 P5].
  assert (Hop : op_of st' r = op_of st r) by (unfold TwoShot.op_of; by rewrite Hc).
  constructor; rewrite ?Hop, ?Hc, ?Hp; try done.
  - intros c Hz Ht H1 Hcc Hall. destruct (Hnew Hz Ht c Hcc) as [Hn _]. pose proof (Hall b Hb) as Hqs. rewrite Hq, fn_lookup_insert in Hqs.
    destruct (Hn Hqs Hall) as [Hold|]; [|done]. apply Hrs, P1; auto. intros b' Hb'. specialize (Hall b' Hb'). rewrite Hq in Hall.
    destruct (decide (b = b')) as [<-|Hne]; [done | by rewrite fn_lookup_insert_ne in Hall].
  - intros c Hz Ht H1 Hcc Hall. destruct (Hnew Hz Ht c Hcc) as [_ Hn]. pose proof (Hall b Hb) as Hqs. rewrite Hq, fn_lookup_insert in Hqs.
    destruct (Hn Hqs Hall) as [Hold|]; [|done]. apply Hag, P2; auto. intros b' Hb'. specialize (Hall b' Hb'). rewrite Hq in Hall.
    destruct (decide (b = b')) as [<-|Hne]; [done | by rewrite fn_lookup_insert_ne in Hall].
  - intros Hz Ht. rewrite Hq. destruct (Hdo Hz Ht) as [[-> [-> | ->]]|[->|[-> Hn]]]; [rewrite fn_lookup_insert; auto .. | auto |].
    destruct (P3 (He Hz) Ht) as [E|[E|E]]; [| | by auto]; (destruct (decide (b = 0)) as [->|Hne]; [destruct (Hn eq_refl); done | rewrite fn_lookup_insert_ne by done; auto]).
  - intros b' ph c pend seen Hb'. rewrite Hq. destruct (decide (b = b')) as [<-|Hne]; [rewrite fn_lookup_insert; apply Hpe | rewrite fn_lookup_insert_ne by done; by apply P4].
Qed.
End Move.

(** The last arrival publishes the chunk. *)
Lemma published (st : gst) r b f prior q c (w : Z -> Z) : r ∈ ranks -> b ∈ blocks -> f (blk (kr st r) b) = false -> f q = true ->
  error (kr st r) = 0 -> prior mod grid = zc (kr st r) f mod grid -> (forall b', b' ∈ blocks -> f (<[b := q]> (blk (kr st r)) b') = true) ->
  (if is_last grid prior && (error (kr st r) =? 0) then <[c := cur (hr st r)]> w else w) c = cur (hr st r).
Proof.
  intros Hr Hb Hf Hq Hz Hp Hall.
  destruct (last_arrival grid Hgrid Hdiv st r b Hb f prior q (goto (kr st r) b q) eq_refl Hf Hq Hp) as [_ Hl].
  rewrite (proj2 Hl Hall), Hz. cbn. by rewrite fn_lookup_insert.
Qed.

Lemma waiters_pend (l1 : list (Z * Z)) x l2 r : (forall y, y ∈ l1 ++ x :: l2 -> y ∈ waiters r) -> forall y, y ∈ l1 ++ l2 -> y ∈ waiters r.
Proof. intros H y Hy. apply H. set_solver. Qed.

Ltac at_r := cbn; rewrite ?fn_lookup_insert; cbn; rewrite ?fn_lookup_insert.

Lemma prog_kernel st st' r b : inv st -> r ∈ ranks -> b ∈ blocks -> prog_ok st r -> kstep r b st st' -> prog_ok st' r.
Proof.
  intros HI Hr Hb HP Hs. pose proof (this_poison load add store world grid threads rails colls count inp st r HI Hr) as Hpo.
  pose proof (this_block load add store world grid threads rails colls count inp st r b HI Hr Hb) as [Hbs Hbo].
  destruct Hs as [Hpc Hu|Hpc Hu Hp|Hpc Hu Hp Ht|Hpc|c l1 i l2 Hpc|c Hpc|ph c l1 p h l2 seen Hpc Hf|ph c l1 p h l2 seen Hpc Hp|ph c l1 p h l2 seen Hpc|ph c seen Hpc
    |c l1 i l2 Hpc v|c l1 i l2 seen Hpc Hp|c seen Hpc|c l1 i l2 j Hpc Hj Hch|c l1 i l2 seen Hpc Hp|c seen Hpc|Hpc|Hpc Hd|Hpc|Hpc Hu Hp Ht|Hpc|Hpc Hall Hz Hall2|Hpc];
    (assert (HK : 1 <= cur (hr st r)) by
      (destruct (running load add store world grid threads rails colls count inp Hcount st r b HI Hr Hb) as ((? & _) & _); [by rewrite Hpc | done]));
    rewrite Hpc in Hbs, Hbo; try specialize (Hbs ltac:(done) ltac:(done));
    (match goal with |- prog_ok ?s' _ => match s' with context [goto _ _ ?q] => eapply (prog_move st r b Hb HP s' q) end end);
    at_r; try done; try lia; try tauto; try (intros; exfalso; destruct Hbo; congruence);
    try (by intros ? ? ? ? ?; simplify_eq; eapply waiters_pend; eapply (pg_pend st r HP); [exact Hb | exact Hpc]);
    try (intros Hz Ht' c' Hc'; rewrite Hpc; cbn; split; intros; by left);
    try (intros; right; right; split; [done|]; intros ->; rewrite Hpc; done);
    try (intros ? ? ? ?; unfold after_stage, after_reduce, after_gather, after_wait; repeat case_match; intros; simplify_eq; done).
  - intros _ _ c' Hc'. destruct (b =? 0); cbn; split; (done || lia).
  - intros _ _. destruct (Z.eqb_spec b 0); [left; auto | right; right; done].
  - intros c'. rewrite Hbs. by apply word_kept.
  - intros Hz Ht c' Hc'. destruct Hbo as (_ & Hc & _). destruct (after_stage_facts world grid threads rails colls st r b c c' Hc) as (F1 & _ & F3).
    rewrite F1, F3, Hpc by lia. split; [|done]. cbn [staged]. intros Hle Hall. destruct (decide (c' = c)) as [->|Hne]; [right | left; lia].
    rewrite Hbs. eapply (published st r b (fun q => staged q c)); try done; [rewrite Hpc; cbn [staged]; lia | rewrite F3; lia |].
    destruct (this_words load add store world grid threads rails colls count inp st r HI Hr) as [_ _ W3 _ _ _]. by eapply count_at.
  - intros Hz Ht c' Hc'. destruct Hbo as (_ & Hc & Hph & _). rewrite Hpc. unfold after_wait. destruct Hph as [-> | ->]; cbn; split; intros; by left.
  - intros c'. rewrite Hbs. by apply word_kept.
  - intros Hz Ht c' Hc'. destruct Hbo as (_ & Hc & _). destruct (after_reduce_facts world rails colls st r c c' Hc) as (_ & _ & F3 & _).
    rewrite F3, Hpc by lia. split; [by left|]. cbn [reduced_at]. intros Hle Hall. destruct (decide (c' = c)) as [->|Hne]; [right | left; lia].
    rewrite Hbs. eapply (published st r b (fun q => reduced_at q c)); try done; [rewrite Hpc; cbn [reduced_at]; lia | rewrite F3; lia |].
    destruct (this_words load add store world grid threads rails colls count inp st r HI Hr) as [_ _ _ W4 _ _]. by eapply count_at.
Qed.

(** The proxies' and the NICs' words: a two-shot collective is released with its last sequence. *)
Lemma prog_proxy st r p' : prog_ok st r -> (1 <= last_seq p' -> two (colls (last_seq p')) = true -> pdone p' = last_seq p') -> prog_ok (set_p st r p') r.
Proof. intros [P1 P2 P3 P4 P5] Hp. constructor; unfold TwoShot.op_of in *; cbn; rewrite ?fn_lookup_insert; done. Qed.

Lemma taking_keeps (p : prx) u f : last_seq (taking world pipe_bytes p u f) = last_seq p /\ pdone (taking world pipe_bytes p u f) = pdone p.
Proof. unfold taking. cbv zeta. by destruct (take _ _ _ _ _ _). Qed.

Lemma prog_pstep st st' r : inv st -> r ∈ ranks -> prog_ok st r -> pstep r st st' -> prog_ok st' r.
Proof.
  intros HI Hr HP Hs. pose proof (this_proxy load add store world grid threads rails colls count inp st r HI Hr) as [_ P2 _ _ _ _]. pose proof (pg_done st r HP) as Hd.
  destruct Hs as [Hf Hpc Hne|u Hf Hpc Hl|u Hf Hpc Hl|u s Hf Hpc|u s o rs ag Hf Hpc Hlt Hw|u s o rs ag Hf Hpc Hlt Hw|u s o rs ag Hf Hpc Hrs Hag Hq|]; apply prog_proxy; try done.
  - unfold polled. by case_match.
  - by destruct (taking_keeps (pr st r) u (slots (hr st r))) as [-> ->].
  - unfold proxy_at in P2. rewrite Hpc in P2. cbn. intros _ Ht. destruct P2 as (_ & _ & Ht'). congruence.
Qed.

Lemma prog_step st st' : inv st -> (forall r, r ∈ ranks -> prog_ok st r) -> step st st' -> forall r, r ∈ ranks -> prog_ok st' r.
Proof.
  intros HI HP Hs r Hr. specialize (HP r Hr) as HPr. destruct Hs as [a b Ha Hb Hs|a Ha Hs|a Ha Hs|a p h Ha Hp Hh Hs].
  - destruct (decide (r = a)) as [->|Hne]; [eapply prog_kernel; eauto; by apply block_elem|].
    assert (Hk : kr st' r = kr st r /\ hr st' r = hr st r /\ pr st' = pr st) by (destruct Hs; cbn; rewrite ?fn_lookup_insert_ne by done; done).
    destruct Hk as (Hk & Hh & Hp). by apply (prog_other st); rewrite ?Hp.
  - destruct Hs as [out Hdone Hpo Hlt Hout]. destruct (decide (r = a)) as [->|Hne].
    + destruct HPr as [P1 P2 P3 P4 P5]. assert (H0 : 0 ∈ blocks) by (apply block_elem; lia).
      constructor; unfold TwoShot.op_of; cbn; rewrite ?fn_lookup_insert; cbn; try done.
      * intros c _ _ _ Hc Hall. by specialize (Hall 0 H0).
      * intros c _ _ _ Hc Hall. by specialize (Hall 0 H0).
      * intros _ _. by left.
    + apply (prog_other st); cbn; rewrite ?fn_lookup_insert_ne by done; done.
  - destruct (decide (r = a)) as [->|Hne]; [by eapply prog_pstep|].
    assert (Hk : kr st' = kr st /\ hr st' = hr st /\ pr st' r = pr st r) by (destruct Hs; cbn; rewrite ?fn_lookup_insert_ne by done; done).
    destruct Hk as (Hk & Hh & Hp). by apply (prog_other st); rewrite ?Hp, ?Hk, ?Hh.
  - assert (Hk : kr st' = kr st /\ hr st' = hr st /\ last_seq (pr st' r) = last_seq (pr st r) /\ pdone (pr st' r) = pdone (pr st r)) by (destruct Hs; cbn; fn_split a r).
    destruct Hk as (Hk & Hh' & Hl & Hd). by apply (prog_other st); rewrite ?Hk, ?Hh'.
Qed.

Lemma reach_prog st : 0 <= count -> reach st -> forall r, r ∈ ranks -> prog_ok st r.
Proof.
  intros Hc0. induction 1 as [st Hf|st st' Hre IH Hs].
  - intros r Hr. destruct (Hf r) as (F1 & F2 & F3 & F4 & F5 & F6 & F7 & F8 & F9 & F10 & F11 & F12 & F13 & F14 & F15).
    constructor; rewrite ?F6, ?F8, ?F9; try lia. intros b ph c pend seen _. by rewrite F1.
  - eapply prog_step; eauto. eapply reach_inv; eauto.
Qed.

(** ** Nobody waits for nothing *)

Section Stuck.
Context (st : gst) (HI : inv st) (HP : forall r, r ∈ ranks -> prog_ok st r).
Context (Htwo : forall k, 1 <= k <= count -> two (colls k) = true).
Context (Hok : forall r, r ∈ ranks -> error (kr st r) = 0 /\ failed (pr st r) = false).
Context (Hstuck : forall a, actor_in a -> act a st = None).

Lemma stuck_queue r p h : r ∈ ranks -> p ∈ others r -> 0 <= h < rails -> queue (pr st r) p h = [].
Proof.
  intros Hr Hp Hh. pose proof (Hstuck (Nic r p h) (conj Hr (conj Hp Hh))) as H. cbn in H. unfold act_nic in H.
  destruct (queue (pr st r) p h) as [|w q]; [done|]. destruct (w_todo w) as [|[i [v|]] l]; done.
Qed.

Lemma stuck_block r b : r ∈ ranks -> b ∈ blocks ->
  blk (kr st r) b = Done \/ 1 <= cur (hr st r) /\ two (op_of st r) = true /\
    ((exists ph c p h l, blk (kr st r) b = Wait ph c ((p, h) :: l) true /\ is_phase ph /\ 0 <= c < chunks (op_of st r)
        /\ flag (nr st r) ph p c h <> cur (hr st r) /\ (p, h) ∈ waiters r)
     \/ blk (kr st r) b = Spin /\ pdone (pr st r) <> cur (hr st r)).
Proof.
  intros Hr Hb. destruct (Hok r Hr) as [Hz _]. pose proof (this_poison load add store world grid threads rails colls count inp st r HI Hr) as Hpo.
  pose proof (this_block load add store world grid threads rails colls count inp st r b HI Hr Hb) as [Hbs Hbo].
  pose proof (running load add store world grid threads rails colls count inp Hcount st r b HI Hr Hb) as Hrun.
  pose proof (pg_pend st r (HP r Hr) b) as Hpend.
  assert (Ha : act_block load add store world grid threads rails colls inp r b st = None) by (apply (Hstuck (Block r b)); split; [done | by apply block_elem]).
  unfold act_block in Ha. destruct (blk (kr st r) b) as [| |c [|i l]|ph c [|[p h] l] seen|c [|i l] seen|c [|i l] seen| | |rung|] eqn:Hpc; try done; try (by left);
    destruct (Hrun ltac:(done)) as (HK & _ & Hu); assert (Ht : two (op_of st r) = true) by (by apply Htwo); right; (split; [lia|]); (split; [done|]).
  - replace (u32 (epoch (hr st r) + 1) =? 0) with false in Ha by lia. rewrite Ht, (proj1 Hpo Hz) in Ha. done.
  - left. specialize (Hbs ltac:(done) ltac:(done)). rewrite Hbs in Ha. destruct Hbo as (_ & Hc & Hph & _ & Hse). destruct seen; [|by destruct Hse].
    destruct (Z.eqb_spec (flag (nr st r) ph p c h) (cur (hr st r))) as [|Hne]; [done|].
    eexists _, _, _, _, _. split; [done|]. do 3 (split; [done|]). apply (Hpend ph c ((p, h) :: l) true Hb eq_refl). by left.
  - destruct Hbo as (_ & _ & _ & _ & _ & Hse). destruct seen; [done | by destruct Hse].
  - destruct Hbo as (_ & Hc & Hin & _ & Hse). destruct seen; [|by destruct Hse].
    destruct (stage_todo_spec world grid threads rails colls Hgrid Hthreads Hrails st r b Hb c i) as (j & Hj & Hch); [apply Hin; by left|].
    destruct (List.find _ _) eqn:Hf; [done|]. apply List.find_none with (x := j) in Hf; [|by apply list_elem_of_In].
    unfold in_chunk in Hch. lia.
  - right. split; [done|]. specialize (Hbs ltac:(done) ltac:(done)). rewrite Hbs in Ha. destruct (Z.eqb_spec (pdone (pr st r)) (cur (hr st r))); done.
  - destruct Hbo as [_ Hb2]. congruence.
Qed.
Lemma waiter_spec r p h : (p, h) ∈ waiters r -> p ∈ others r /\ 0 <= h < rails.
Proof.
  intros (q & Hx & Hq)%list_elem_of_bind. apply list_elem_of_In, in_map_iff in Hx as (h' & [= -> ->] & Hh%list_elem_of_In%zrange_elem). done.
Qed.

Lemma stuck_proxy q : q ∈ ranks -> door (hr st q) = cur (hr st q) -> 1 <= cur (hr st q) ->
  (forall c, 0 <= c < chunks (op_of st q) -> rs_word (kr st q) c = cur (hr st q)) ->
  prox (pr st q) = PIdle /\ last_seq (pr st q) = cur (hr st q)
  \/ exists u rs ag, prox (pr st q) = PRun u (cur (hr st q)) (norm (op_of st q)) rs ag /\ chunks (op_of st q) <= rs
       /\ 0 <= ag < chunks (op_of st q) /\ ag_word (kr st q) ag <> cur (hr st q).
Proof.
  intros Hq Hd H1 Hrs. pose proof (Hstuck (Proxy q) Hq) as Ha. cbn in Ha. unfold act_proxy in Ha. rewrite (proj2 (Hok q Hq)) in Ha.
  pose proof (this_proxy load add store world grid threads rails colls count inp st q HI Hq) as [_ P2 _ _ _ _]. unfold proxy_at in P2.
  destruct (prox (pr st q)) as [|u|u s|u s o rs ag] eqn:Hx; [|by case_match|done|].
  - left. destruct (Z.eqb_spec (door (hr st q)) (last_seq (pr st q))); [split; [done | lia] | done].
  - right. destruct P2 as (_ & -> & _ & _ & -> & R1 & R2 & _). change (norm (colls (cur (hr st q)))) with (norm (op_of st q)) in *. exists u, rs, ag. cbn in R1, R2, Ha |- *.
    assert (Hdr : drained world rails (pr st q) q = true).
    { unfold drained. apply forallb_forall. intros p Hp%list_elem_of_In. apply forallb_forall. intros h Hh%list_elem_of_In%zrange_elem. by rewrite stuck_queue. }
    rewrite Hdr in Ha. change (colls (cur (hr st q))) with (op_of st q) in *.
    destruct (Z.ltb_spec rs (chunks (op_of st q))); [rewrite Hrs, Z.eqb_refl in Ha by lia; done|]. cbn in Ha.
    destruct (Z.ltb_spec ag (chunks (op_of st q))); cbn in Ha; [|by replace (chunks (op_of st q) <=? rs) with true in Ha by lia; replace (chunks (op_of st q) <=? ag) with true in Ha by lia].
    destruct (Z.eqb_spec (ag_word (kr st q) ag) (cur (hr st q))); [done|]. split; [done | lia].
Qed.

(** The ranks furthest behind. *)
Section Last.
Context (K : Z) (Hmin : forall q, q ∈ ranks -> K <= cur (hr st q)) (HK : 1 <= K <= count).

Lemma last_two q : cur (hr st q) = K -> two (op_of st q) = true.
Proof. unfold TwoShot.op_of. intros ->. by apply Htwo. Qed.

Lemma last_staged q : q ∈ ranks -> cur (hr st q) = K -> door (hr st q) = K /\ forall c, 0 <= c < chunks (op_of st q) -> rs_word (kr st q) c = K.
Proof.
  intros Hq Hc. destruct (HP q Hq) as [P1 P2 P3 P4 P5]. rewrite Hc in *. destruct (Hok q Hq) as [Hz _]. pose proof (last_two q Hc) as Ht. split.
  - destruct (P3 Hz Ht) as [E|[E|E]]; [| |done]; destruct (stuck_block q 0 Hq) as [E'|(_ & _ & [(? & ? & ? & ? & ? & E' & _)|[E' _]])]; try (apply block_elem; lia); congruence.
  - intros c Hcc. apply P1; try done; [lia|]. intros b Hb.
    destruct (stuck_block q b Hq Hb) as [-> |(_ & _ & [(? & ? & ? & ? & ? & -> & _)|[-> _]])]; done.
Qed.

(** A peer of such a rank: it is there too, or one collective ahead. *)
Lemma last_peer r p : r ∈ ranks -> cur (hr st r) = K -> p ∈ others r -> cur (hr st p) = K \/ cur (hr st p) = K + 1.
Proof.
  intros Hr Hc Hp. pose proof (gap load add store world grid threads rails colls count inp st r HI Hr p Hp).
  pose proof (Hmin p (rank_of world r p Hp)). lia.
Qed.

Lemma last_posted r p h ph c : r ∈ ranks -> p ∈ others r -> 0 <= h < rails -> cur (hr st r) = K -> cur (hr st p) = K -> is_phase ph -> 0 <= c < chunks (op_of st r) ->
  (ph = 1 -> forall c, 0 <= c < chunks (op_of st p) -> ag_word (kr st p) c = K) -> flag (nr st r) ph p c h = K.
Proof.
  intros Hr Hp Hh Hc Hcp Hph Hcc Hag. pose proof (rank_of world r p Hp) as Hpr. destruct (last_staged p Hpr Hcp) as [Hd Hrs].
  pose proof (link_in load add store world grid threads rails colls count inp st r HI Hr p h Hp Hh) as [_ _ _ L4 _ _ _ _]. rewrite Hcp in L4.
  apply L4; [done | lia|]. rewrite stuck_queue by (done || by apply peer_of). split; [|apply not_elem_of_nil].
  assert (Ho : op_of st p = colls K /\ op_of st r = colls K) by (unfold TwoShot.op_of; by rewrite Hc, Hcp). destruct Ho as [Ho1 Ho2]. rewrite Ho2 in Hcc. rewrite Ho1 in *.
  split; [lia|]. split; [by apply Htwo|]. split; [done|]. destruct (stuck_proxy p Hpr) as [[_ Hl]|(u & rs & ag & Hx & H1 & H2 & H3)]; rewrite ?Hcp, ?Ho1 in *; try done; [lia | by left|].
  right. eexists _, _, _, _. split; [done|]. destruct Hph as [-> | ->]; cbn; [lia|]. destruct H3. by apply Hag.
Qed.

Lemma last_no_wait0 r b c l seen : r ∈ ranks -> b ∈ blocks -> cur (hr st r) = K -> blk (kr st r) b <> Wait 0 c l seen.
Proof.
  intros Hr Hb Hc Hpc. destruct (stuck_block r b Hr Hb) as [E|(_ & Ht & [(ph & c' & p & h & l' & E & _ & Hcc & Hne & Hw)|[E _]])]; [congruence | | congruence].
  assert (ph = 0) as -> by congruence. destruct (waiter_spec r p h Hw) as [Hp Hh]. rewrite Hc in Hne. destruct (last_peer r p Hr Hc Hp) as [Hcp|Hcp].
  - apply Hne, last_posted; try done. by left.
  - pose proof (ahead load add store world grid threads rails colls count inp Hcount st p r HI (rank_of world r p Hp) (peer_of world r Hr p Hp) b c' Hb) as Hred.
    rewrite E in Hred. specialize (Hred ltac:(lia) Ht Hcc ltac:(done)). cbn in Hred. lia.
Qed.

Lemma last_reduced q : q ∈ ranks -> cur (hr st q) = K -> forall c, 0 <= c < chunks (op_of st q) -> ag_word (kr st q) c = K.
Proof.
  intros Hq Hc c Hcc. destruct (HP q Hq) as [P1 P2 P3 P4 P5]. rewrite Hc in *. destruct (Hok q Hq) as [Hz _]. apply P2; try done; [by apply last_two | lia |]. intros b Hb.
  destruct (stuck_block q b Hq Hb) as [-> |(_ & _ & [(ph & ? & ? & ? & ? & E & Hph & _)|[-> _]])]; try done.
  destruct Hph as [-> | ->]; [by destruct (last_no_wait0 _ _ _ _ _ Hq Hb Hc E) | by rewrite E].
Qed.

Lemma last_done r b : r ∈ ranks -> b ∈ blocks -> cur (hr st r) = K -> blk (kr st r) b = Done.
Proof.
  intros Hr Hb Hc. destruct (stuck_block r b Hr Hb) as [|(_ & Ht & [(ph & c & p & h & l & E & Hph & Hcc & Hne & Hw)|[E Hpd]])]; [done | |]; exfalso.
  - destruct Hph as [-> | ->]; [by apply (last_no_wait0 _ _ _ _ _ Hr Hb Hc E)|]. destruct (waiter_spec r p h Hw) as [Hp Hh]. rewrite Hc in Hne.
    destruct (last_peer r p Hr Hc Hp) as [Hcp|Hcp].
    + apply Hne, last_posted; try done; [by right|]. intros _. by apply last_reduced, Hcp; apply (rank_of world r).
    + pose proof (link_in load add store world grid threads rails colls count inp st r HI Hr p h Hp Hh) as [_ _ _ _ _ L6 _ _].
      apply Hne. rewrite <- Hc. apply L6; [lia | lia | done | done].
  - destruct (last_staged r Hr Hc) as [Hd Hrs]. pose proof (last_reduced r Hr Hc) as Hag. rewrite Hc in *.
    destruct (stuck_proxy r Hr) as [[_ Hl]|(u & rs & ag & _ & _ & H2 & H3)]; rewrite ?Hc; try done; [lia | | apply H3; by rewrite Hag, ?Hc].
    rewrite Hc in Hl. apply Hpd. rewrite <- Hl. destruct (HP r Hr) as [_ _ _ _ P5]. rewrite Hl in P5. rewrite Hl. apply P5; [lia | by apply Htwo].
Qed.
End Last.
Lemma all_ended r b : r ∈ ranks -> b ∈ blocks -> cur (hr st r) = count /\ blk (kr st r) b = Done.
Proof.
  intros Hr Hb. destruct (least (fun q => cur (hr st q)) ranks r Hr) as (m & Hm & Hmin).
  assert (Hcm : 0 <= cur (hr st m) <= count) by apply (this_head load add store world grid threads rails colls count inp st m HI Hm).
  assert (Hdone : forall q b, q ∈ ranks -> b ∈ blocks -> cur (hr st q) = cur (hr st m) -> blk (kr st q) b = Done).
  { intros q b' Hq Hb' Hc. destruct (stuck_block q b' Hq Hb') as [|(H1 & _ & _)]; [done|]. apply (last_done (cur (hr st m))); try done. lia. }
  assert (Hend : cur (hr st m) = count).
  { pose proof (Hstuck (Stream m) Hm) as Ha. cbn in Ha. unfold act_stream in Ha.
    pose proof (this_poison load add store world grid threads rails colls count inp st m HI Hm) as Hpo. rewrite (proj1 Hpo (proj1 (Hok m Hm))) in Ha.
    assert (Hall : forallb (fun b => is_done (blk (kr st m) b)) (zrange 0 grid) = true).
    { apply forallb_forall. intros b' Hb'%list_elem_of_In. by rewrite (Hdone m b' Hm Hb' eq_refl). }
    rewrite Hall in Ha. destruct (Z.ltb_spec (cur (hr st m)) count); [done | lia]. }
  assert (Hcr : cur (hr st r) = count).
  { pose proof (Hmin r Hr). pose proof (ho_count _ _ _ _ _ (this_head load add store world grid threads rails colls count inp st r HI Hr)). lia. }
  split; [done|]. apply Hdone; [done | done | lia].
Qed.
End Stuck.
End Live.

(** C36: No run is stuck. As long as no kernel wrote its error word and no proxy failed, in every
    reachable state of a run of two-shot collectives either every rank ended its last one, or a
    step is possible (a block, a proxy, a NIC or a stream): no flag, ready word, doorbell or
    release is awaited that nobody will write. *)
Theorem no_deadlock {V A} (load : V -> A) (add : A -> V -> A) (store : A -> V) world grid threads rails pipe_bytes cmin count colls inp st :
  setting world grid threads rails pipe_bytes cmin count colls -> (forall k, 1 <= k <= count -> two (colls k) = true) ->
  reach load add store world grid threads rails pipe_bytes colls count inp st ->
  (forall r, r ∈ ranks world -> error (kr st r) = 0 /\ failed (pr st r) = false) ->
  (forall r b, r ∈ ranks world -> 0 <= b < grid -> cur (hr st r) = count /\ blk (kr st r) b = Done)
  \/ exists a st', act load add store world grid threads rails pipe_bytes colls count inp a st = Some st'
       /\ step load add store world grid threads rails pipe_bytes colls count inp st st'.
Proof.
  intros S Htwo Hreach Hok. pose proof (setting_valid _ _ _ _ _ _ _ _ S) as Hv. destruct S as [Hw Hg Hd Hth Hra Hc [Hc0 Hc1] _].
  assert (HI : inv load add store world grid threads rails colls count inp st) by (eapply reach_inv; eauto).
  assert (HP : forall r, r ∈ ranks world -> prog_ok world grid rails colls st r) by (by eapply (reach_prog load add store world grid threads rails pipe_bytes)).
  set (go a := act load add store world grid threads rails pipe_bytes colls count inp a st).
  destruct (List.existsb (fun a => bool_decide (is_Some (go a))) (actors world grid rails)) eqn:Hex.
  - right. apply List.existsb_exists in Hex as (a & Ha%list_elem_of_In%actors_in & [st' Hst]%bool_decide_eq_true). exists a, st'. split; [done|]. by eapply act_step.
  - left. intros r b Hr Hb%block_elem. eapply (all_ended load add store world grid threads rails pipe_bytes); eauto. intros a Ha%actors_in%list_elem_of_In. fold (go a).
    apply eq_None_not_Some. intros Hs. enough (true = false) by done. rewrite <- Hex. symmetry. apply List.existsb_exists. exists a. by rewrite bool_decide_true.
Qed.

Lemma no_deadlock_witness :
  (forall r b, r ∈ ranks 2 -> 0 <= b < 2 -> cur (hr (demo_run 5) r) = 2 /\ blk (kr (demo_run 5) r) b = Done)
  \/ exists a st', act id Z.add id 2 2 1 2 128 demo_colls 2 demo_inp a (demo_run 5) = Some st'
       /\ step id Z.add id 2 2 1 2 128 demo_colls 2 demo_inp (demo_run 5) st'.
Proof.
  apply (no_deadlock id Z.add id 2 2 1 2 128 1 2 demo_colls demo_inp (demo_run 5) demo_setting).
  - intros k _. unfold demo_colls. by destruct (k =? 2).
  - apply demo_reach.
  - intros r Hr%zrange_elem. assert (r = 0 \/ r = 1) as [-> | ->] by lia; by vm_compute.
Defined.
